(* ===== verification/_CoqProject ===== *)
-Q . S2P
Prelude.v
Wire.v
Syntax.v
SyntaxCodec.v
WireLaws.v
WirePrims.v
SyntaxLaws.v
ExprLaws.v
Codec.v
CodecInterface.v
Interval.v
IntervalLaws.v
IntervalTheorems.v
Exhaustiveness.v
Matching.v
SearchLaws.v
NormalForms.v
Coverage.v
CoverageTheorems.v
Faults.v
Ordered.v
Kinds.v
Utf8.v
Chars.v
Text.v
Diff.v
DiffLaws.v
DiffTheorems.v
Json.v
JsonLaws.v
Render.v
RenderLaws.v
Trap.v
TrapLaws.v
Report.v
ReportLaws.v
TrapSites.v
ReportTheorems.v
Types.v
Inference.v
TypeLaws.v
InferenceLaws.v
UnifyLaws.v
UnifyFuel.v
FunctionLaws.v
InferenceTheorems.v
Token.v
Lexer.v
LexerLaws.v
LexerScan.v
LexerText.v
LexerTokens.v
LexerRun.v
LexerTrivia.v
LexerNumbers.v
SpecText.v
LexerTheorems.v
Digraph.v
Scc.v
Orders.v
DigraphLaws.v
BfsLaws.v
PathLaws.v
TarjanSteps.v
TarjanLaws.v
SccLaws.v
OrdersLaws.v
Recursion.v
RecursionLaws.v
GraphTheorems.v
Declarations.v
TypeArena.v
ArenaLaws.v
RecursiveTypes.v
TypeProperties.v
Layouts.v
RecursiveLaws.v
AnalysisLaws.v
PropertyLaws.v
TypeTheorems.v
