(* ===== verification/Prelude.v ===== *)
(** * Tsuzuri: a verification library for parts of the compiler

    Tsuzuri is a compiler written in Rust (the crate in [src/src/]). This library translates modules of
    the compiler into Rocq definitions and proves what the rest of the compiler relies on. The parts covered
    are: the diagnostics and their registry of kinds, the trap reports, the lexer, the binary codec of the syntax tree,
    the types with their inference, the recursive types, the properties of types and the sizes of values, the integer intervals behind the overflow
    flags, the exhaustiveness check of matches, the check that recursive functions are marked, the line diffs of
    [tsuzuri fix], and the graph algorithms of the program's index.

    ** Files

    - [Prelude]: machine integers ([uint w], a number below [2 ^ w]), the result type, the state and
      error monad with its notations, list lemmas.
    - [Wire]: [Writer], [Reader], UTF-8 text and the primitive [Wire] impls of
      [src/src/syntax_codec.rs]. [Syntax]: the types of [src/src/syntax.rs] that a program reaches.
      [SyntaxCodec]: one [put_T]/[get_T] pair for each impl, [encode] and [decode].
    - [WireLaws], [WirePrims], [SyntaxLaws], [ExprLaws]: the contract [Codec] of a
      [put]/[get] pair, its combinators, and its proof for each type from the integers up to
      [Program]. [Codec], [CodecInterface]: the theorems.
    - [Interval]: all of [src/src/interval.rs]. [IntervalLaws]: the reference reading of machine values
      and the laws of each operation. [IntervalTheorems]: the theorems.
    - [Exhaustiveness]: [src/src/exhaustiveness.rs] from its pattern types to [check_coverage].
      [Matching]: values, matching and typing of patterns; specialised rows, default rows and
      signatures. [SearchLaws]: the loop of [run] and its budget. [NormalForms]: [normalize]. [Coverage]:
      the loop over the arms and the result of one match. [CoverageTheorems]: a small instance for the
      examples, and the theorems.
    - [Faults]: indexing, loops over a mutable state, and [returns], the logic of code that ends without a fault; it
      serves the diffs and the graphs.
    - [Diff]: the search, the backtracking, the unified diff and the line edits of [src/src/diff.rs]. [DiffLaws]: the edit
      graph, edit scripts and the longest common subsequence; the invariants of the search and of
      the backtracking. [DiffTheorems]: the theorems.
    - [Utf8], [Chars], [Text]: the operations of [&str] and of formatting that the code uses, on bytes. [Ordered]: [Ord]
      as a class with its laws, and [BTreeMap] as an ascending list. [Json], [JsonLaws]: the reference reader and
      printer of JSON that the writers are compared with.
    - [Kinds]: the table and the functions of [src/src/diagnostic_kinds.rs]. [Render], [Report]:
      [src/src/diagnostic.rs], its functions on positions, quotes and edits, and its data, builders, rendering and
      collector. [Trap], [TrapSites]: [src/src/trap.rs]. [RenderLaws], [TrapLaws], [ReportLaws]: their laws.
      [ReportTheorems]: the theorems.
    - [Types], [Inference]: the types of [src/src/check.rs] with their walks and texts, [src/src/higher_kinds.rs] up
      to [decompose], and the inference of [src/src/polymorph.rs]. [TypeLaws], [FunctionLaws]: parts of
      a type, its encoding as a label with children, joined functions, texts. [InferenceLaws], [UnifyLaws],
      [UnifyFuel]: solutions and their models, the cases of [unify], its result, its end; most general solutions and
      defaults. [InferenceTheorems]: the theorems.
    - [Declarations]: the methods of [TypeContext] and the marks of a declaration in [src/src/check.rs], and the derived
      order of a type. [TypeArena]: [src/src/type_arena.rs], and the walk [walk_types] of [src/src/recursive.rs].
      [RecursiveTypes]: the rest of [src/src/recursive.rs], from [analyze] to its memo and the walks that use it.
      [TypeProperties]: the methods of [Type] that need the declarations, from [is_copy] to [holds_float].
      [Layouts]: the sizes of values. [ArenaLaws]: interned types and the invariant of a walk. [RecursiveLaws]: the
      search of [analyze]. [AnalysisLaws]: cycles, finite values and the memo. [PropertyLaws]: copies, sends and
      sizes. [TypeTheorems]: the theorems.
    - [Token]: the tokens of
      [src/src/syntax.rs], the diagnostics of the lexer and the suffixes of [src/src/numeric.rs]. [Lexer]: all of
      [src/src/lexer.rs], from [skip_while] to [lex], [lex_all] and [lex_with_trivia]. [LexerLaws]: the logic [wpe] of
      its monad and the rule for its loops. [LexerScan], [LexerText]: words, comments and numbers;
      characters and strings; format specs. [LexerTokens]: one token, and the gaps between tokens. [LexerRun],
      [LexerTrivia]: the loop with its recovery, [mark_paths], trivia, the entry points.
      [LexerNumbers]: suffixes. [SpecText]: [spec_text] of [src/src/check.rs]. [LexerTheorems]: the theorems.
    - [Digraph], [Scc], [Orders]: all of [src/src/kg/algo.rs]; [Scc.Split] is [strongly_connected] of
      [src/src/llvm_split.rs]. [Recursion]: [check_graph] of [src/src/recursion.rs]. [DigraphLaws]: rows, [from_edges],
      [has_edge]. [BfsLaws], [PathLaws]: the layers of a search, distances and paths. [TarjanSteps]:
      Tarjan's algorithm as a step relation on an abstract state, with its invariant. [TarjanLaws], [SccLaws]: both implementations refine it. [OrdersLaws]: Kahn's algorithm and forests. [RecursionLaws]:
      Kosaraju's algorithm. [GraphTheorems]: the theorems.

    ** How the parts meet

    Every part of the compiler reports through [Report]: the lexer gives the kind and the span of a diagnostic, the
    other checks are clients that are not modelled. A report of a trap is a member of its diagnostic, so [Report] uses
    [Trap]; the sites of traps fail with a diagnostic, so [TrapSites] uses [Report].

    The lexer turns a source text into the tokens that the parser reads; the literals and format specs of its
    tokens are those of the syntax tree, so [Lexer] uses [Syntax]. The codec serialises the
    syntax tree for the caches and the interface files, before any checking.
    The checker makes a fresh variable for each unknown type and unifies the types that a program makes equal; when a
    function is done, the numeric defaults solve what is open and [require_concrete] refuses the rest. A mismatch
    is a diagnostic with the texts of both types, so [Inference] uses [Report] and [Types] uses [Kinds].
    The declarations are the [TypeContext] of [Types]; the fields of an instance are its declaration's with the arguments
    substituted by [Inference], whose [bounded_type] also guards the expansion of declarations. [analyze] keys its nodes by
    the order of types. Each property of a type asks the memo of [RecursiveTypes] first: a type that contains itself is
    walked, any other is followed field by field; the sizes of [Layouts] ask it too.
    The checker collects one [MatchCoverage] per match, whose literals and spans are those of the syntax
    tree, and [check_coverage] runs on them when inference has ended; so [Exhaustiveness] uses
    [Syntax.Span] and [Syntax.StringLiteral]. [check_graph] runs on the reference graph of the checked
    functions. The intervals serve the back end's overflow flags, the components of [Split] its partition into modules,
    the other graph algorithms the index and its queries, and the diffs serve the tools.

    ** State and effects

    Fallible stateful code is a function [S -> Result A E * S] ([M E S A]), with the binds in the code's order: the
    state is the output buffer and depth of a [Writer], the input and position of a [Reader], the
    [work], [steps] and [distinct] of a [Search], the vector of a diff, the variables of a graph
    search, or the position and the open holes of a [Lexer]. On an error the state is the one at the point of failure.
    [Rc], [Box] and slices are the values they hold; the code never mutates a shared one. Integers that
    can wrap or saturate keep their width: [uint w] in the codec, [Z] with the wrap and saturation of
    [i128] written out in [Interval], and [N] with the saturation of [usize] in the budget of [Search]. A sum, difference
    or product of [usize] that leaves its range panics, as in a build with overflow checks ([checked_add]); the theorems show
    or assume that none does, and then a build without the checks computes the same.

    ** What the theorems show

    - Diagnostics: the JSON of a diagnostic and the side table of the traps read back as exactly the value that they
      stand for, whatever texts they hold; rendering never panics; line and column order the boundaries of a text;
      a quote shows a part of the line of the source that holds its character, and the caret is below the character
      exactly while line numbers have one digit; [apply_edits] accepts exactly
      the edits that do not overlap and equals replacing them one by one; the collector keeps the first diagnostic of
      every key, in order, and counts the others; the builders keep their limits. The report line of a
      crash reads back, the names of frames lose exactly the suffixes of clones, and cold parts merge with their functions.

    - Codec: decoding undoes encoding at any source number; every accepted input is exactly the encoding
      of the program it gives, so encodings are canonical; no accepted input is a proper
      prefix of another; numbers are
      canonical LEB128; the encoder only appends and the decoder only moves forward over what
      it reads; the interface encoding depends only on what other modules may observe; the nesting limit
      refuses exactly the kinds that are too deep.
    - Intervals: each operation contains every machine result of its operands; an overflow flag is set
      only when no pair of operands overflows, and the flag of the type's own sign is exact; [full] and [wrap]
      are exact where the code relies on it. Widths are 1 to 64 bits, as in [Int].
    - Exhaustiveness: [run] decides whether rows cover a pattern, or stops at its work limit; an
      accepted match is exhaustive; unreachable arms, witnesses and proposed arms are what the messages
      claim; without opaque patterns the answers are also complete. The types of a program are any
      instance of [Matching.Shapes] that satisfies [ShapesLaws]: the constructors of a type form one
      family, their number of fields agrees with the checker, and each type has a value. The search takes an open type
      (numbers, strings, array lengths) to have one value more than the patterns name, [Value_Other]; so it misses [_] also
      when 256 arms write every [i8]. What it accepts is exhaustive either way; that a reported value exists is proved for
      types with room for it ([roomy]), and [all_literals_written] is a type without.
    - Diffs: the script is correct and no other changes fewer lines; it keeps a longest common
      subsequence; the text of a unified diff, read back with its printed ranges and applied as [patch] does, and the line
      edits turn the old text into the new one; nothing panics, for a context whose sums with the lines do not overflow;
      and there is no diff only when every script is over the limit.

    - Lexer: for every source text, [lex_all] returns; its tokens lie in order and its diagnostics inside the
      source; [lex] gives the first of these diagnostics or the same tokens; what it accepts is tokens with only
      white space and comments between them, where a block comment is a text of balanced delimiters ([block_comment]), and [lex_with_trivia] loses nothing of it; the ways to read the
      suffix of a number agree; a format spec is well formed and its text parses to it again; only a [::] that
      joins two identifiers becomes a path separator.

    - Types and inference: after a successful [unify] the models of the solutions are exactly the earlier ones that make both types
      equal; a failed one has no such model, and names both types in its message; [unify] ends, on every pair of types, because the
      solutions stay free of cycles; [resolve] is the most general solution; defaults solve every numeric variable
      that is open and nothing else; a function type is joined to one with all its parameters and their conventions;
      [type_size] counts nodes and depth exactly.

    - Declared types, where each instance has the number of arguments that its declaration asks for
      ([RecursiveLaws.instance]): whatever was asked before, the memo answers that a type is recursive exactly if its expansion leads
      back to it, and such a type has a finite value; a report has a reason, a cycle, a type that is too large, too many
      declarations or changed arguments; [analyze] finds exactly the declarations that a type contains. A walk decides its
      question whatever the hasher is, because an arena gives one identifier to equal types. What may be sent owns no
      count that is not atomic and no borrow; what is copied may be captured; no size exceeds the limit of a value.

    - Graphs: for any list of edges, nothing panics; breadth-first search and [shortest_path] give exactly the distances
      and least predecessors, [reaches_beyond] exactly whether the bound cut the search; both forms of Tarjan's algorithm
      number the classes of mutual reachability in reverse topological order and agree with each other;
      [topological_order] is the least one and is absent exactly when there is a cycle; [forest_cycle] finds a cycle if
      there is one; [check_graph] accepts exactly the programs whose recursive functions all have their marker.

    ** Fuel and bounds

    A [u128] has at most 19 groups of seven bits, so 19 turns write or read any number. The decoders of
    recursive types take [MAX_DEPTH] units of fuel, one per nesting level; [Reader.enter] refuses a deeper
    level before the fuel ends ([decode_fuel_enough]). The loop of [run] takes [2 ^ 25] turns: each
    turn spends one unit of the budget of [2 ^ 24] at least, so the limit stops the search first and
    [OutOfFuel] is never the result ([run_decides]). [rebuild_loop] takes one turn
    per recorded step, and a step refers only to earlier ones. A snake of the diff has a turn per line of
    the old text, and a run of equal steps one per unit of [x] ([shortest_script_shortest] excludes every error);
    the loops over the changes of a unified diff have at most a turn per change ([unified_patches]).

    A [while] loop of the lexer is [loop], with one turn more than the source has bytes: each turn moves forward, so the
    fuel is never used up ([wp_loop]). [mark_paths] and [chain] move forward over the tokens in the same way. A slice
    or an index that Rust would panic on is the error [Panic], which no entry point gives ([lex_all_returns]).

    [resolve] and [unify] follow solutions, so their definitions take fuel; with solutions that are free of cycles there
    is an amount from which on the result no longer changes ([unify_ends]).

    [visit_type] takes one unit per place of the active path, which holds at most [MAX_NESTING] declarations; the loop of
    [inhabited_types] a pass per node and one more; the loop of a walk one turn per type that it pushes
    ([stored_all_decides] gives the bound); a size one unit per level of a type, for each level of declarations
    ([size_bounded]). The properties that follow declarations field by field take any fuel: a theorem about one either
    speaks of a result, or gives an amount from which on there is one. [can_sync] has none for a record that
    stores a shared reference to its own type, since the code calls itself there without end.

    The loop over the frames of Tarjan's algorithm takes as many turns as there are nodes and edges, and one to see that
    it is done; Kahn's algorithm, the walk back along a path and the collection of a component take one turn per node; the
    first search of [check_graph] takes a turn per edge and two per node. The theorems exclude [OutOfFuel]. Nodes are
    [nat]; the number of nodes is at most [usize::MAX] where a number stands for a node that is not visited.

    ** Parameters

    The codec, the intervals, the diffs, the diagnostics, the graphs and the lexer have none; [frames_from_symbolizer] takes the
    values of [serde_json] as the class [JsonValue]; [check_graph] takes the marker test as an
    argument, as the code does; the hasher of [TypeArena] is the function [finish] from what is written to it to the hash;
    a source is an [RString], bytes that are valid UTF-8. [Exhaustiveness] is abstract in the checker's types
    ([CheckerTypes]), in its table of unions, and in the key of a literal ([literal] of
    [Checker]). A pattern has a meaning in [denotes] only when the key of each of its literals is fixed; the
    code makes up a fresh key for a literal that it cannot read, and such patterns have no
    meaning there.

    ** Not modelled

    Of these modules: the test-only record of variants in the codec; the text of the diagnostics of the exhaustiveness check and of
    its witnesses, [literal] and [float_key], the [Drop] of shared cells and the debug assertion on active
    cases in the exhaustiveness check; the messages of the lexer's
    diagnostics; the references of a function, which [recursion.rs] collects from the checked tree; the partition of
    [llvm_split.rs]; the lock of a memo, which is held for one read or insertion, so that calls are steps on [Memo]; the callers of [Layouts] in the checker. Of the compiler: the
    parser, the checker of expressions and declarations and the later checks, which all work on the checked tree; code
    generation, whose output is the text of another language; the packages and caches, which are files and processes; the
    tools and the services. A team that goes on would take the selection of package versions, constant
    arithmetic and the clients of the intervals (range analysis and overflow) next. *)
From stdpp Require Export base list numbers option tactics.
From Stdlib Require Export Lia.
From Stdlib Require Import Sorted.

(** ** Lists *)

Lemma elem_of_rev {A} (l : list A) x : x ∈ rev l <-> x ∈ l.
Proof. by rewrite !list_elem_of_In, <- in_rev. Qed.

(** ** Runs of equal elements *)

(** [dedup]: runs of equal elements collapse. *)
Fixpoint dedup {A} `{EqDecision A} (l : list A) : list A :=
  match l with
  | x :: t =>
    match t with
    | y :: _ => if decide (x = y) then dedup t else x :: dedup t
    | [] => [x]
    end
  | [] => []
  end.

Lemma elem_of_dedup {A} `{EqDecision A} (l : list A) x : (x ∈ dedup l) <-> x ∈ l.
Proof.
  induction l as [|y [|z l] IH]; [done|done|]. cbn [dedup]. case_decide as Hyz.
  - subst z. rewrite IH, !elem_of_cons. tauto.
  - rewrite !elem_of_cons, IH, elem_of_cons. tauto.
Qed.

Lemma dedup_strict {A} `{EqDecision A} (R : A -> A -> Prop) l :
  (forall x y, R x y -> R y x -> x = y) -> StronglySorted R l -> StronglySorted (fun x y => R x y /\ x <> y) (dedup l).
Proof.
  intros Hanti. induction l as [|y [|z l] IH]; intros Hl; [constructor|repeat constructor|].
  cbn [dedup]. apply StronglySorted_inv in Hl as [Hs Hall]. case_decide as Hyz; [by apply IH|].
  constructor; [by apply IH|]. apply list.Forall_forall. intros x Hx%(proj1 (elem_of_dedup (z :: l) x)).
  rewrite list.Forall_forall in Hall. split; [by apply Hall|]. intros <-. apply Hyz, Hanti.
  - apply Hall, list_elem_of_here.
  - apply elem_of_cons in Hx as [->|Hx]; [by apply Hall, list_elem_of_here|].
    apply StronglySorted_inv in Hs as [_ Hz]. by eapply list.Forall_forall in Hz.
Qed.

(** ** Machine integers

    A value of a Rust unsigned type of [w] bits is a number below [2 ^ w]; the bound is a boolean
    equation, so two values with the same number are equal. *)
Record uint (w : N) := mk_uint {
  uval : N;
  uval_lt : (uval <? 2 ^ w)%N = true }.
Arguments mk_uint {w} _ _.
Arguments uval {w} _.
Arguments uval_lt {w} _.

Abbreviation u8 := (uint 8).
Abbreviation u16 := (uint 16).
Abbreviation u32 := (uint 32).
Abbreviation u64 := (uint 64).
Abbreviation u128 := (uint 128).
(** The targets of the compiler have 64-bit pointers. *)
Abbreviation usize := (uint 64).

Definition uint_try {w : N} (n : N) : option (uint w) :=
  match (n <? 2 ^ w)%N as b return ((n <? 2 ^ w)%N = b -> option (uint w)) with
  | true => fun H => Some (mk_uint n H)
  | false => fun _ => None
  end eq_refl.

Lemma mod_pow2_ltb (w n : N) : (n mod 2 ^ w <? 2 ^ w)%N = true.
Proof. apply N.ltb_lt, N.mod_lt, N.pow_nonzero. lia. Qed.

(** A proof of the same equation that computes to [eq_refl]. *)
Definition compute_true {b : bool} : b = true -> b = true :=
  match b with true => fun _ => eq_refl | false => fun H => H end.

(** The [as] cast to an unsigned type: the low [w] bits. *)
Definition uint_wrap (w n : N) : uint w := 
  mk_uint (n mod 2 ^ w) (compute_true (mod_pow2_ltb w n)).

Lemma uval_bound {w} (x : uint w) : (uval x < 2 ^ w)%N.
Proof. apply N.ltb_lt, uval_lt. Qed.

Lemma uint_eq {w} (x y : uint w) : uval x = uval y -> x = y.
Proof.
  destruct x as [x Hx], y as [y Hy]; simpl. intros ->. f_equal.
  apply (proof_irrel Hx Hy).
Qed.

Lemma uint_try_Some {w} n (x : uint w) : uint_try n = Some x <-> uval x = n.
Proof.
  unfold uint_try. generalize (@eq_refl _ (n <? 2 ^ w)%N).
  generalize (n <? 2 ^ w)%N at 2 3. intros [] H; split; intros Hx.
  - by simplify_eq.
  - f_equal. by apply uint_eq.
  - done.
  - subst. by rewrite uval_lt in H.
Qed.

Lemma uint_try_uval {w} (x : uint w) : uint_try (uval x) = Some x.
Proof. by apply uint_try_Some. Qed.

Lemma uval_wrap w n : uval (uint_wrap w n) = (n mod 2 ^ w)%N.
Proof. done. Qed.

Lemma uval_wrap_small w n : (n < 2 ^ w)%N -> uval (uint_wrap w n) = n.
Proof. intros. by apply N.mod_small. Qed.

Lemma uint_wrap_uval {w} (x : uint w) : uint_wrap w (uval x) = x.
Proof. apply uint_eq, uval_wrap_small, uval_bound. Qed.

Lemma uint_of_bound w n : (n < 2 ^ w)%N -> exists x : uint w, uval x = n.
Proof. intros H. exists (uint_wrap w n). by apply uval_wrap_small. Qed.

#[export] Instance uint_eq_dec w : EqDecision (uint w).
Proof.
  intros x y. destruct (decide (uval x = uval y)) as [H|H].
  - left. by apply uint_eq.
  - right. by intros ->.
Defined.

(** ** Results and the state-and-error monad

    [M E S A] is code that reads and writes a state [S] through a mutable reference and returns
    [Result<A, E>]: the state after an error is kept, because Rust keeps it. *)
Inductive Result (A E : Type) :=
| Ok (a : A)
| Err (e : E).
Arguments Ok {A E} _.
Arguments Err {A E} _.

Definition M (E S A : Type) : Type := S -> Result A E * S.

Definition ret {E S A} (a : A) : M E S A := fun s => (Ok a, s).

Definition fail {E S A} (e : E) : M E S A := fun s => (Err e, s).

(** The [?] operator followed by the rest of the body. *)
Definition bind {E S A B} (m : M E S A) (k : A -> M E S B) : M E S B := fun s =>
  match m s with
  | (Ok a, s') => k a s'
  | (Err e, s') => (Err e, s')
  end.

(** [ok_or]: an absent value is the error. *)
Definition ok_or {E S A} (o : option A) (e : E) : M E S A :=
  match o with Some a => ret a | None => fail e end.

Definition result_ok {A E} (r : Result A E) : option A :=
  match r with Ok a => Some a | Err _ => None end.

Declare Scope monad_scope.
Delimit Scope monad_scope with monad.
Notation "'let?' x ':=' m 'in' k" := (bind m (fun x => k))
  (at level 10, x pattern, m at level 100, k at level 200) : monad_scope.
Notation "m ;;; k" := (bind m (fun _ => k)) (at level 100, k at level 200, right associativity) : monad_scope.

Section monad_laws.
Context {E S A B : Type}.

Lemma bind_Ok (m : M E S A) (k : A -> M E S B) s b s' :
  bind m k s = (Ok b, s') <-> exists a s1, m s = (Ok a, s1) /\ k a s1 = (Ok b, s').
Proof.
  unfold bind. destruct (m s) as [[a|e] s1]; split; [| |done|].
  - intros H. by exists a, s1.
  - by intros (? & ? & [= <- <-] & H).
  - by intros (? & ? & ? & _).
Qed.

Lemma ret_Ok (a b : A) (s s' : S) : ret (E := E) a s = (Ok b, s') <-> a = b /\ s = s'.
Proof. unfold ret. split; [by intros [= -> ->]|by intros [-> ->]]. Qed.

Lemma fail_Ok (e : E) (b : A) (s s' : S) : fail e s = (Ok b, s') <-> False.
Proof. by unfold fail. Qed.

Lemma ok_or_Ok (o : option A) (e : E) b (s s' : S) :
  ok_or o e s = (Ok b, s') <-> o = Some b /\ s = s'.
Proof.
  destruct o; unfold ok_or, ret, fail; split; [by intros [= -> ->]|by intros [[= ->] ->]|done|].
  by intros [? _].
Qed.
End monad_laws.

(** Inverts a hypothesis that a monadic computation succeeded, one [?] at a time. *)
Ltac monad_inv :=
  repeat match goal with
  | H : bind _ _ _ = (Ok _, _) |- _ => apply bind_Ok in H as (? & ? & ? & H)
  | u : unit |- _ => destruct u
  | H : ret _ _ = (Ok _, _) |- _ => apply ret_Ok in H as [? ?]; subst
  | H : fail _ _ = (Ok _, _) |- _ => by apply fail_Ok in H
  | H : ok_or _ _ _ = (Ok _, _) |- _ => apply ok_or_Ok in H as [? ?]; subst
  end.
