(* ===== verification/Wire.v ===== *)
(** * The binary writer and reader of the syntax codec

    [Writer], [Reader] and the primitive [Wire] impls of [src/src/syntax_codec.rs]: bytes, LEB128
    numbers, length prefixes, the depth limit, strings, sequences, options and pairs. *)
From S2P Require Import Prelude.
Local Open Scope N_scope.
Local Open Scope monad_scope.

(** ** UTF-8 strings and characters of the Rust standard library *)

(** A continuation byte between the given bounds. *)
Definition cont_in (low high : N) (b : u8) : bool := (low <=? uval b) && (uval b <=? high).

(** Well-formed UTF-8 (Unicode Table 3-7), as [String::from_utf8] checks it. *)
Fixpoint utf8_valid (bs : list u8) : bool :=
  match bs with
  | [] => true
  | b0 :: r0 =>
    if uval b0 <=? 0x7F then utf8_valid r0
    else match r0 with
    | [] => false
    | b1 :: r1 =>
      if cont_in 0xC2 0xDF b0 then cont_in 0x80 0xBF b1 && utf8_valid r1
      else match r1 with
      | [] => false
      | b2 :: r2 =>
        if cont_in 0xE0 0xEF b0 then
          cont_in (if uval b0 =? 0xE0 then 0xA0 else 0x80)
                  (if uval b0 =? 0xED then 0x9F else 0xBF) b1
          && cont_in 0x80 0xBF b2 && utf8_valid r2
        else match r2 with
        | [] => false
        | b3 :: r3 =>
          cont_in 0xF0 0xF4 b0
          && cont_in (if uval b0 =? 0xF0 then 0x90 else 0x80)
                     (if uval b0 =? 0xF4 then 0x8F else 0xBF) b1
          && cont_in 0x80 0xBF b2 && cont_in 0x80 0xBF b3 && utf8_valid r3
        end
      end
    end
  end.

(** [String]: bytes that are well-formed UTF-8. *)
Record RString := mk_RString {
  as_bytes : list u8;
  as_bytes_valid : utf8_valid as_bytes = true }.

Definition from_utf8 (bs : list u8) : option RString :=
  match utf8_valid bs as b return (utf8_valid bs = b -> option RString) with
  | true => fun H => Some (mk_RString bs H)
  | false => fun _ => None
  end eq_refl.

Lemma RString_eq (s t : RString) : as_bytes s = as_bytes t -> s = t.
Proof.
  destruct s as [s Hs], t as [t Ht]; simpl. intros ->. f_equal. apply (proof_irrel Hs Ht).
Qed.

#[export] Instance RString_eq_dec : EqDecision RString.
Proof. intros s t. destruct (decide (as_bytes s = as_bytes t)) as [E|E]; [left; by apply RString_eq|right; by intros ->]. Defined.

Lemma from_utf8_Some bs s : from_utf8 bs = Some s <-> as_bytes s = bs.
Proof.
  unfold from_utf8. generalize (@eq_refl _ (utf8_valid bs)).
  generalize (utf8_valid bs) at 2 3. intros [] H; split; intros Hs.
  - by simplify_eq.
  - f_equal. by apply RString_eq.
  - done.
  - subst. by rewrite as_bytes_valid in H.
Qed.

(** [char]: a Unicode scalar value. *)
Definition is_scalar (n : N) : bool := (n <=? 0xD7FF) || ((0xE000 <=? n) && (n <=? 0x10FFFF)).

Record char := mk_char {
  char_u32 : u32;
  char_scalar : is_scalar (uval char_u32) = true }.

Definition from_u32 (n : u32) : option char :=
  match is_scalar (uval n) as b return (is_scalar (uval n) = b -> option char) with
  | true => fun H => Some (mk_char n H)
  | false => fun _ => None
  end eq_refl.

Lemma from_u32_Some n c : from_u32 n = Some c <-> char_u32 c = n.
Proof.
  unfold from_u32. generalize (@eq_refl _ (is_scalar (uval n))).
  generalize (is_scalar (uval n)) at 2 3. intros [] H; split; intros Hc.
  - by simplify_eq.
  - f_equal. destruct c as [c Hc']; simpl in *; subst. f_equal. apply (proof_irrel H Hc').
  - done.
  - subst. by rewrite char_scalar in H.
Qed.

(** ** The writer and the reader *)

(** [syntax::MAX_NESTING] and [syntax_codec::MAX_DEPTH]. *)
Definition MAX_NESTING : nat := 128.
Definition MAX_DEPTH : nat := 4 * MAX_NESTING.
#[global] Arguments MAX_DEPTH : simpl never.

Inductive Mode := Mode_Full | Mode_Interface.

Inductive Invalid := mk_Invalid.

Record Writer := mk_Writer {
  w_bytes : list u8;
  w_mode : Mode;
  w_source : usize;
  w_depth : nat;
  w_limit : nat }.

Record Reader := mk_Reader {
  r_bytes : list u8;
  r_at : nat;
  r_source : usize;
  r_depth : nat }.

Abbreviation Put := (M Invalid Writer unit).
Abbreviation Get := (M Invalid Reader).

(** The trait [Wire]. *)
Class Wire (A : Type) := {
  put : A -> Put;
  get : Get A }.

Module Writer.
Definition new (mode : Mode) (source : usize) (limit : nat) : Writer :=
  {| w_bytes := []; w_mode := mode; w_source := source; w_depth := 0; w_limit := limit |}.

(** [self.bytes.extend_from_slice(bytes)] *)
Definition extend (w : Writer) (bytes : list u8) : Writer :=
  {| w_bytes := w_bytes w ++ bytes; w_mode := w_mode w; w_source := w_source w;
     w_depth := w_depth w; w_limit := w_limit w |}.

Definition set_depth (w : Writer) (depth : nat) : Writer :=
  {| w_bytes := w_bytes w; w_mode := w_mode w; w_source := w_source w;
     w_depth := depth; w_limit := w_limit w |}.

Definition extend_from_slice (bytes : list u8) : Put := fun w => (Ok tt, extend w bytes).

Definition byte (value : u8) : Put := extend_from_slice [value].

(** The name of the enum is used by the tests of the source only. *)
Definition tag (tag : N) : Put := byte (uint_wrap 8 tag).

(** One turn of the loop writes the low seven bits. A [u128] has at most 19 groups of seven bits
    ([number_complete] shows that the fuel is never used up). *)
Fixpoint number_loop (fuel : nat) (value : N) : Put :=
  match fuel with
  | O => fail mk_Invalid
  | S fuel =>
    let low := N.land value 0x7f in
    let value := N.shiftr value 7 in
    if value =? 0 then byte (uint_wrap 8 low)
    else byte (uint_wrap 8 (N.lor low 0x80)) ;;; number_loop fuel value
  end.

Definition number (value : u128) : Put := number_loop 19 (uval value).

Definition full (w : Writer) : bool := match w_mode w with Mode_Full => true | Mode_Interface => false end.

Definition enter : Put := fun w =>
  if (w_limit w <=? w_depth w)%nat then (Err mk_Invalid, w)
  else (Ok tt, set_depth w (S (w_depth w))).

Definition leave (w : Writer) : Writer := set_depth w (Nat.pred (w_depth w)).
End Writer.

(** [if out.full() { m1 } else { m2 }] *)
Definition if_full (m1 m2 : Put) : Put := fun w => if Writer.full w then m1 w else m2 w.

Module Reader.
Definition set_at (r : Reader) (at_ : nat) : Reader :=
  {| r_bytes := r_bytes r; r_at := at_; r_source := r_source r; r_depth := r_depth r |}.

Definition set_depth (r : Reader) (depth : nat) : Reader :=
  {| r_bytes := r_bytes r; r_at := r_at r; r_source := r_source r; r_depth := depth |}.

Definition byte : Get u8 := fun r =>
  match r_bytes r !! r_at r with
  | None => (Err mk_Invalid, r)
  | Some byte => (Ok byte, set_at r (S (r_at r)))
  end.

(** The body of [for shift in (0..128).step_by(7)] over the remaining shifts. *)
Fixpoint number_loop (shifts : list N) (value : N) : Get u128 :=
  match shifts with
  | [] => fail mk_Invalid
  | shift :: shifts =>
    let? byte := byte in
    let bits := N.land (uval byte) 0x7f in
    if (shift =? 126) && (3 <? bits) then fail mk_Invalid
    else
      let value := N.lor value (N.shiftl bits shift) in
      if N.land (uval byte) 0x80 =? 0 then
        if (uval byte =? 0) && negb (shift =? 0) then fail mk_Invalid
        else ret (uint_wrap 128 value)
      else number_loop shifts value
  end.

Definition shifts : list N :=
  [0; 7; 14; 21; 28; 35; 42; 49; 56; 63; 70; 77; 84; 91; 98; 105; 112; 119; 126].

Definition number : Get u128 := number_loop shifts 0.

Definition length : Get usize :=
  let? value := number in
  let? length := ok_or (uint_try (w := 64) (uval value)) mk_Invalid in
  fun r =>
    if N.of_nat (List.length (r_bytes r) - r_at r) <? uval length then (Err mk_Invalid, r)
    else (Ok length, r).

Definition take (length : usize) : Get (list u8) := fun r =>
  let length := N.to_nat (uval length) in
  if (r_at r + length <=? List.length (r_bytes r))%nat
  then (Ok (firstn length (skipn (r_at r) (r_bytes r))), set_at r (r_at r + length))
  else (Err mk_Invalid, r).

Definition enter : Get unit := fun r =>
  if (MAX_DEPTH <=? r_depth r)%nat then (Err mk_Invalid, r)
  else (Ok tt, set_depth r (S (r_depth r))).

Definition leave (r : Reader) : Reader := set_depth r (Nat.pred (r_depth r)).
End Reader.

(** Reads one level of recursive syntax: [leave] runs on every path after [enter]. *)
Definition nested {A} (read : Get A) : Get A := fun r =>
  match Reader.enter r with
  | (Ok _, r) => let (value, r) := read r in (value, Reader.leave r)
  | (Err e, r) => (Err e, r)
  end.

(** Writes one level of recursive syntax. *)
Definition nest (write : Put) : Put := fun w =>
  match Writer.enter w with
  | (Ok _, w) => let (result, w) := write w in (result, Writer.leave w)
  | (Err e, w) => (Err e, w)
  end.

Definition variant {A} (read : Get A) : Get A := read.

(** ** The primitive impls *)

(** [integers!(u8, u16, u32, u64, usize, u128)]: one impl at every width. *)
Definition put_uint {w} (value : uint w) : Put := Writer.number (uint_wrap 128 (uval value)).

Definition get_uint {w} : Get (uint w) :=
  let? value := Reader.number in
  ok_or (uint_try (uval value)) mk_Invalid.

(** [unit_enum!]: a fieldless enum by the list of its variants, tagged by position. *)
Definition put_enum {A} `{EqDecision A} (variants : list A) (value : A) : Put :=
  match list_find (eq value) variants with
  | Some (tag, _) => Writer.tag (N.of_nat tag)
  | None => fail mk_Invalid
  end.

Definition get_enum {A} (variants : list A) : Get A :=
  let? tag := Reader.byte in
  ok_or (variants !! N.to_nat (uval tag)) mk_Invalid.

Definition put_bool (value : bool) : Put := Writer.byte (uint_wrap 8 (if value then 1 else 0)).

Definition get_bool : Get bool :=
  let? byte := Reader.byte in
  match uval byte with
  | 0 => ret false
  | 1 => ret true
  | _ => fail mk_Invalid
  end.

Definition put_char (value : char) : Put := put_uint (char_u32 value).

Definition get_char : Get char :=
  let? value := get_uint in
  ok_or (from_u32 value) mk_Invalid.

(** [self.len() as u128] *)
Definition len {A} (l : list A) : u128 := uint_wrap 128 (N.of_nat (List.length l)).

Definition put_String (value : RString) : Put :=
  Writer.number (len (as_bytes value)) ;;; Writer.extend_from_slice (as_bytes value).

Definition get_String : Get RString :=
  let? length := Reader.length in
  let? bytes := Reader.take length in
  ok_or (from_utf8 bytes) mk_Invalid.

Fixpoint put_each {A} (put : A -> Put) (values : list A) : Put :=
  match values with
  | [] => ret tt
  | value :: values => put value ;;; put_each put values
  end.

(** [Vec<T>] and [Box<[T]>] have the same impl. *)
Definition put_Vec {A} (put : A -> Put) (values : list A) : Put :=
  Writer.number (len values) ;;; put_each put values.

(** [for _ in 0..length { values.push(T::get(input)?) }] *)
Fixpoint get_each {A} (get : Get A) (length : nat) : Get (list A) :=
  match length with
  | O => ret []
  | S length =>
    let? value := get in
    let? values := get_each get length in
    ret (value :: values)
  end.

Definition get_Vec {A} (get : Get A) : Get (list A) :=
  let? length := Reader.length in
  get_each get (N.to_nat (uval length)).

Definition put_Option {A} (put : A -> Put) (value : option A) : Put :=
  match value with
  | None => Writer.byte (uint_wrap 8 0)
  | Some value => Writer.byte (uint_wrap 8 1) ;;; put value
  end.

Definition get_Option {A} (get : Get A) : Get (option A) :=
  let? byte := Reader.byte in
  match uval byte with
  | 0 => ret None
  | 1 => let? value := get in ret (Some value)
  | _ => fail mk_Invalid
  end.

Definition put_pair {A B} (put_A : A -> Put) (put_B : B -> Put) (value : A * B) : Put :=
  put_A (fst value) ;;; put_B (snd value).

Definition get_pair {A B} (get_A : Get A) (get_B : Get B) : Get (A * B) :=
  let? a := get_A in
  let? b := get_B in
  ret (a, b).

#[export] Instance uint_wire w : Wire (uint w) := {| put := put_uint; get := get_uint |}.
#[export] Instance bool_wire : Wire bool := {| put := put_bool; get := get_bool |}.
#[export] Instance char_wire : Wire char := {| put := put_char; get := get_char |}.
#[export] Instance String_wire : Wire RString := {| put := put_String; get := get_String |}.
#[export] Instance Vec_wire {A} `{Wire A} : Wire (list A) := {| put := put_Vec put; get := get_Vec get |}.
#[export] Instance Option_wire {A} `{Wire A} : Wire (option A) :=
  {| put := put_Option put; get := get_Option get |}.
#[export] Instance pair_wire {A B} `{Wire A} `{Wire B} : Wire (A * B) :=
  {| put := put_pair put put; get := get_pair get get |}.
