(* ===== verification/Syntax.v ===== *)
(** * The syntax tree

    The types of [src/src/syntax.rs] that a parsed [Program] reaches, and [Span] of
    [src/src/diagnostic.rs]. A struct [T] with field [f] is a record with projection [T_f] (a
    constructor [mk_T] inside the mutually recursive expression types); a variant [V] of an enum [E]
    is the constructor [E_V]. [Box<T>] is [T], [Vec<T>] and [Box<[T]>] are [list T]. The Rust names [Parameter],
    [Notation], [Definition] and [Program] are keywords here and take a trailing underscore. *)
From S2P Require Import Prelude Wire.
From stdpp Require Export strings.

Record Span := mk_Span {
  Span_start : usize;
  Span_end : usize;
  Span_source : option usize }.

Inductive SourceKind :=
| SourceKind_Code
| SourceKind_TypeClass
| SourceKind_Computation.
#[export] Instance SourceKind_eq_dec : EqDecision SourceKind.
Proof. solve_decision. Defined.
Definition SourceKind_variants : list SourceKind :=
  [SourceKind_Code; SourceKind_TypeClass; SourceKind_Computation].

Inductive StringLiteral :=
| StringLiteral_Utf16 (units : list u16)
| StringLiteral_Utf8 (text : RString).

Inductive FormatAlign :=
| FormatAlign_Left
| FormatAlign_Right
| FormatAlign_Center.
#[export] Instance FormatAlign_eq_dec : EqDecision FormatAlign.
Proof. solve_decision. Defined.
Definition FormatAlign_variants : list FormatAlign :=
  [FormatAlign_Left; FormatAlign_Right; FormatAlign_Center].

Inductive FormatKind :=
| FormatKind_LowerHex
| FormatKind_UpperHex
| FormatKind_Octal
| FormatKind_Binary
| FormatKind_Exponent
| FormatKind_Fixed.
#[export] Instance FormatKind_eq_dec : EqDecision FormatKind.
Proof. solve_decision. Defined.
Definition FormatKind_variants : list FormatKind :=
  [FormatKind_LowerHex; FormatKind_UpperHex; FormatKind_Octal; FormatKind_Binary;
   FormatKind_Exponent; FormatKind_Fixed].

Record FormatSpec := mk_FormatSpec {
  FormatSpec_fill : char;
  FormatSpec_align : option FormatAlign;
  FormatSpec_plus : bool;
  FormatSpec_width : u16;
  FormatSpec_precision : option u16;
  FormatSpec_kind : option FormatKind;
  FormatSpec_span : Span }.

Inductive Provenance :=
| Provenance_User
| Provenance_Generated.
#[export] Instance Provenance_eq_dec : EqDecision Provenance.
Proof. solve_decision. Defined.
Definition Provenance_variants : list Provenance :=
  [Provenance_User; Provenance_Generated].

Record Ident := mk_Ident {
  Ident_text : RString;
  Ident_span : Span;
  Ident_provenance : Provenance }.

Record CpuAttribute := mk_CpuAttribute {
  CpuAttribute_function : Ident;
  CpuAttribute_levels : u8 }.

Inductive EffectKind :=
| EffectKind_NoAlloc
| EffectKind_NoCopy
| EffectKind_NoTrap
| EffectKind_Terminates.

Record EffectAttribute := mk_EffectAttribute {
  EffectAttribute_function : Ident;
  EffectAttribute_kind : EffectKind;
  EffectAttribute_span : Span }.

Record TrustedAttribute := mk_TrustedAttribute {
  TrustedAttribute_target : Ident;
  TrustedAttribute_properties : u8;
  TrustedAttribute_span : Span }.

Record NamespaceDecl := mk_NamespaceDecl {
  NamespaceDecl_path : Ident;
  NamespaceDecl_span : Span }.

Record DynTypeExpr := mk_DynTypeExpr {
  DynTypeExpr_classes : list Ident;
  DynTypeExpr_borrowed : bool }.

Inductive TypeExpr :=
| mk_TypeExpr (kind : TypeExprKind) (span : Span)
with TypeExprKind :=
| TypeExprKind_Named (name : RString)
| TypeExprKind_Variable (name : RString)
| TypeExprKind_Apply (head : Ident) (arguments : list TypeExpr)
| TypeExprKind_Regions (ty : TypeExpr) (regions : list Ident)
| TypeExprKind_Quantified (regions : list Ident) (ty : TypeExpr)
| TypeExprKind_Array (element : TypeExpr)
| TypeExprKind_ArrayView (element : TypeExpr)
| TypeExprKind_FixedArray (element : TypeExpr) (length : TypeExpr)
| TypeExprKind_Length (length : u64)
| TypeExprKind_List (element : TypeExpr)
| TypeExprKind_Tuple (elements : list TypeExpr)
| TypeExprKind_Function (parameters : list TypeExpr) (result : TypeExpr)
| TypeExprKind_Reference (target : TypeExpr) (mutable : bool)
| TypeExprKind_Own (ty : TypeExpr)
| TypeExprKind_Mut (ty : TypeExpr)
| TypeExprKind_Pure (ty : TypeExpr)
| TypeExprKind_Dyn (dyn_type : DynTypeExpr).

Inductive UnaryOp :=
| UnaryOp_Negate
| UnaryOp_Not
| UnaryOp_BitNot
| UnaryOp_Plus.
#[export] Instance UnaryOp_eq_dec : EqDecision UnaryOp.
Proof. solve_decision. Defined.
Definition UnaryOp_variants : list UnaryOp :=
  [UnaryOp_Negate; UnaryOp_Not; UnaryOp_BitNot; UnaryOp_Plus].

Inductive BinaryOp :=
| BinaryOp_Add
| BinaryOp_Subtract
| BinaryOp_Multiply
| BinaryOp_Divide
| BinaryOp_Remainder
| BinaryOp_Equal
| BinaryOp_NotEqual
| BinaryOp_Less
| BinaryOp_LessEqual
| BinaryOp_Greater
| BinaryOp_GreaterEqual
| BinaryOp_And
| BinaryOp_Or
| BinaryOp_BitAnd
| BinaryOp_BitOr
| BinaryOp_BitXor
| BinaryOp_ShiftLeft
| BinaryOp_ShiftRight
| BinaryOp_ShiftRightUnsigned
| BinaryOp_Power
| BinaryOp_Pipe.
#[export] Instance BinaryOp_eq_dec : EqDecision BinaryOp.
Proof. solve_decision. Defined.
Definition BinaryOp_variants : list BinaryOp :=
  [BinaryOp_Add; BinaryOp_Subtract; BinaryOp_Multiply; BinaryOp_Divide; BinaryOp_Remainder;
   BinaryOp_Equal; BinaryOp_NotEqual; BinaryOp_Less; BinaryOp_LessEqual; BinaryOp_Greater;
   BinaryOp_GreaterEqual; BinaryOp_And; BinaryOp_Or; BinaryOp_BitAnd; BinaryOp_BitOr;
   BinaryOp_BitXor; BinaryOp_ShiftLeft; BinaryOp_ShiftRight; BinaryOp_ShiftRightUnsigned;
   BinaryOp_Power; BinaryOp_Pipe].

Inductive RangeOp :=
| RangeOp_Bare
| RangeOp_Closed
| RangeOp_Open.
#[export] Instance RangeOp_eq_dec : EqDecision RangeOp.
Proof. solve_decision. Defined.
Definition RangeOp_variants : list RangeOp :=
  [RangeOp_Bare; RangeOp_Closed; RangeOp_Open].

Inductive Notation_ :=
| Notation_Symbol
| Notation_Keyword.
#[export] Instance Notation_eq_dec : EqDecision Notation_.
Proof. solve_decision. Defined.
Definition Notation_variants : list Notation_ :=
  [Notation_Symbol; Notation_Keyword].

Inductive MatchOrigin :=
| MatchOrigin_Explicit
| MatchOrigin_FunctionGuard
| MatchOrigin_LambdaDestructuring
| MatchOrigin_ComputationDestructuring.
#[export] Instance MatchOrigin_eq_dec : EqDecision MatchOrigin.
Proof. solve_decision. Defined.
Definition MatchOrigin_variants : list MatchOrigin :=
  [MatchOrigin_Explicit; MatchOrigin_FunctionGuard; MatchOrigin_LambdaDestructuring;
   MatchOrigin_ComputationDestructuring].

Inductive Recursion :=
| Recursion_None
| Recursion_Rec
| Recursion_And.
#[export] Instance Recursion_eq_dec : EqDecision Recursion.
Proof. solve_decision. Defined.
Definition Recursion_variants : list Recursion :=
  [Recursion_None; Recursion_Rec; Recursion_And].

Inductive Expr :=
| mk_Expr (kind : ExprKind) (span : Span) (depth : usize)
with ExprKind :=
| ExprKind_Integer (value : u128) (suffix : option RString)
| ExprKind_BigInt (digits : RString)
| ExprKind_Float (text : RString) (suffix : option RString)
| ExprKind_String (literal : StringLiteral)
| ExprKind_Char (unit : u16)
| ExprKind_Utf8Char (scalar : u32)
| ExprKind_Bool (value : bool)
| ExprKind_Unit
| ExprKind_Break
| ExprKind_Continue
| ExprKind_Hole (name : option Ident)
| ExprKind_Name (name : Ident)
| ExprKind_QualifiedFunction (name : Ident)
| ExprKind_TypeFunction (ty : Ident) (function : Ident)
| ExprKind_Unary (op : UnaryOp) (value : Expr)
| ExprKind_Binary (op : BinaryOp) (left_ : Expr) (right_ : Expr)
| ExprKind_Call (callee : Expr) (arguments : list Expr)
| ExprKind_Lambda (parameters : list (Ident * bool)) (body : Expr)
| ExprKind_Routine (body : Expr)
| ExprKind_Select (arms : list SelectArm)
| ExprKind_Computation (builder : Ident) (block : ComputationBlock)
| ExprKind_ComputationBoundary (value : Expr)
| ExprKind_If (condition : Expr) (then_branch : Expr) (else_branch : Expr)
| ExprKind_While (condition : Expr) (body : Expr)
| ExprKind_For (pattern : Pattern) (source : Expr) (body : Expr)
| ExprKind_Range (start : Expr) (step : option Expr) (finish : Expr) (counted : bool) (descending : bool) (op : RangeOp)
| ExprKind_Match (value : Expr) (arms : list MatchArm) (origin : MatchOrigin)
| ExprKind_Try (handled : TryExpr)
| ExprKind_Checked (value : Expr)
| ExprKind_Block (bindings : list Binding) (result : Expr)
| ExprKind_Record (name : Ident) (fields : list (Ident * Expr))
| ExprKind_RecordUpdate (base : Expr) (fields : list (Ident * Expr))
| ExprKind_Array (values : list Expr)
| ExprKind_List (values : list Expr)
| ExprKind_Tuple (values : list Expr)
| ExprKind_NewArray (ty : TypeExpr) (length : Expr) (initializer : Expr)
| ExprKind_NewList (ty : TypeExpr) (length : Expr) (initializer : Expr)
| ExprKind_NewLiteral (value : Expr)
| ExprKind_Field (value : Expr) (field : Ident)
| ExprKind_Index (value : Expr) (index : Expr)
| ExprKind_Slice (value : Expr) (start : option Expr) (end_ : option Expr) (mutable : bool) (op : RangeOp)
| ExprKind_Borrow (value : Expr) (mutable : bool) (notation : Notation_)
| ExprKind_Dereference (value : Expr) (notation : Notation_)
| ExprKind_Assign (target : Expr) (value : Expr)
| ExprKind_Cast (value : Expr) (ty : TypeExpr)
| ExprKind_Interpolated (interpolation : Interpolation)
| ExprKind_DynDispatch (slot : u32) (slots : u32)
with SelectArm :=
| mk_SelectArm (head : SelectHead) (guard : option Expr) (body : Expr) (span : Span)
with SelectHead :=
| SelectHead_Recv (name : Ident) (channel : Expr)
| SelectHead_Send (value : Expr) (channel : Expr)
| SelectHead_Default
with MatchArm :=
| mk_MatchArm (pattern : Pattern) (guard : option Expr) (body : Expr) (span : Span)
with TryExpr :=
| mk_TryExpr (body : Expr) (arms : list MatchArm) (finally : option Expr)
with Interpolation :=
| mk_Interpolation (texts : list StringLiteral) (holes : list InterpolationHole)
with InterpolationHole :=
| mk_InterpolationHole (value : Expr) (spec : option FormatSpec)
with Binding :=
| mk_Binding (name : Ident) (mutable : bool) (using_ : bool) (recursion : Recursion) (annotation : option TypeExpr) (value : Expr)
with Pattern :=
| mk_Pattern (kind : PatternKind) (span : Span) (depth : usize)
with PatternKind :=
| PatternKind_Wildcard
| PatternKind_Binding (name : Ident)
| PatternKind_Apply (name : Ident) (arguments : list Pattern)
| PatternKind_Argument (value : Expr)
| PatternKind_Literal (value : Expr)
| PatternKind_Tuple (elements : list Pattern)
| PatternKind_Record (name : option Ident) (fields : list (Ident * Pattern))
| PatternKind_Array (elements : list Pattern)
| PatternKind_List (elements : list Pattern)
| PatternKind_Cons (head : Pattern) (tail : Pattern)
| PatternKind_Or (left_ : Pattern) (right_ : Pattern)
| PatternKind_And (left_ : Pattern) (right_ : Pattern)
| PatternKind_As (pattern : Pattern) (name : Ident)
| PatternKind_Annotated (pattern : Pattern) (ty : TypeExpr)
with ComputationBlock :=
| mk_ComputationBlock (statements : list ComputationStatement) (span : Span) (depth : usize)
with ComputationStatement :=
| mk_ComputationStatement (kind : ComputationStatementKind) (span : Span)
with ComputationStatementKind :=
| ComputationStatementKind_Let (binding : Binding) (bang : bool)
| ComputationStatementKind_LetAnd (bindings : list Binding)
| ComputationStatementKind_Match (value : Expr) (arms : list ComputationMatchArm)
| ComputationStatementKind_Do (value : Expr)
| ComputationStatementKind_Operation (operation : string) (value : Expr)
| ComputationStatementKind_If (condition : Expr) (then_block : ComputationBlock) (else_block : option ComputationBlock)
| ComputationStatementKind_For (pattern : Pattern) (source : Expr) (body : ComputationBlock)
| ComputationStatementKind_While (condition : Expr) (body : ComputationBlock)
| ComputationStatementKind_Expression (value : Expr)
with ComputationMatchArm :=
| mk_ComputationMatchArm (pattern : Pattern) (guard : option Expr) (body : ComputationBlock) (span : Span).

Record TestDecl := mk_TestDecl {
  TestDecl_name : RString;
  TestDecl_name_span : Span;
  TestDecl_body : Expr;
  TestDecl_span : Span }.

Record BenchDecl := mk_BenchDecl {
  BenchDecl_name : RString;
  BenchDecl_name_span : Span;
  BenchDecl_body : Expr;
  BenchDecl_span : Span }.

Record ActivePattern := mk_ActivePattern {
  ActivePattern_cases : list Ident;
  ActivePattern_function : RString;
  ActivePattern_partial : bool }.

Inductive Visibility :=
| Visibility_Public
| Visibility_Private.
#[export] Instance Visibility_eq_dec : EqDecision Visibility.
Proof. solve_decision. Defined.
Definition Visibility_variants : list Visibility :=
  [Visibility_Public; Visibility_Private].

Record Documentation := mk_Documentation {
  Documentation_text : RString;
  Documentation_span : Span }.

Record TypeAliasDecl := mk_TypeAliasDecl {
  TypeAliasDecl_doc : option Documentation;
  TypeAliasDecl_visibility : Visibility;
  TypeAliasDecl_name : Ident;
  TypeAliasDecl_parameters : list Ident;
  TypeAliasDecl_target : TypeExpr }.

Record ConstDecl := mk_ConstDecl {
  ConstDecl_doc : option Documentation;
  ConstDecl_visibility : Visibility;
  ConstDecl_name : Ident;
  ConstDecl_ty : TypeExpr;
  ConstDecl_value : Expr }.

Inductive DeriveClass :=
| DeriveClass_Eq
| DeriveClass_Ord
| DeriveClass_Display
| DeriveClass_Hash
| DeriveClass_Default
| DeriveClass_Encode
| DeriveClass_Decode
| DeriveClass_Arbitrary.
#[export] Instance DeriveClass_eq_dec : EqDecision DeriveClass.
Proof. solve_decision. Defined.
Definition DeriveClass_variants : list DeriveClass :=
  [DeriveClass_Eq; DeriveClass_Ord; DeriveClass_Display; DeriveClass_Hash; DeriveClass_Default;
   DeriveClass_Encode; DeriveClass_Decode; DeriveClass_Arbitrary].

Record JsonName := mk_JsonName {
  JsonName_units : list u16;
  JsonName_span : Span }.

Record Parameter_ := mk_Parameter {
  Parameter_name : Ident;
  Parameter_ty : TypeExpr;
  Parameter_mutable : bool;
  Parameter_json : option JsonName }.

Record RecordDecl := mk_RecordDecl {
  RecordDecl_doc : option Documentation;
  RecordDecl_visibility : Visibility;
  RecordDecl_name : Ident;
  RecordDecl_parameters : list Ident;
  RecordDecl_regions : list Ident;
  RecordDecl_fields : list Parameter_;
  RecordDecl_derives : list (DeriveClass * Span) }.

Record UnionCaseDecl := mk_UnionCaseDecl {
  UnionCaseDecl_name : Ident;
  UnionCaseDecl_payload : option TypeExpr;
  UnionCaseDecl_json : option JsonName }.

Record UnionDecl := mk_UnionDecl {
  UnionDecl_doc : option Documentation;
  UnionDecl_visibility : Visibility;
  UnionDecl_name : Ident;
  UnionDecl_parameters : list Ident;
  UnionDecl_cases : list UnionCaseDecl;
  UnionDecl_derives : list (DeriveClass * Span) }.

Inductive ContractKind :=
| ContractKind_Requires
| ContractKind_Ensures.
#[export] Instance ContractKind_eq_dec : EqDecision ContractKind.
Proof. solve_decision. Defined.
Definition ContractKind_variants : list ContractKind :=
  [ContractKind_Requires; ContractKind_Ensures].

Record ContractClause := mk_ContractClause {
  ContractClause_kind : ContractKind;
  ContractClause_binder : option Ident;
  ContractClause_condition : Expr;
  ContractClause_text : RString;
  ContractClause_span : Span }.

Inductive ConstraintName :=
| ConstraintName_Class (name : Ident)
| ConstraintName_Function (name : Ident) (ty : option TypeExpr).

Record ConstraintExpr := mk_ConstraintExpr {
  ConstraintExpr_name : ConstraintName;
  ConstraintExpr_ty : TypeExpr }.

Record FunctionDecl := mk_FunctionDecl {
  FunctionDecl_doc : option Documentation;
  FunctionDecl_name : Ident;
  FunctionDecl_regions : list Ident;
  FunctionDecl_recursion : option RString;
  FunctionDecl_visibility : Visibility;
  FunctionDecl_exported : bool;
  FunctionDecl_constant : bool;
  FunctionDecl_pure : bool;
  FunctionDecl_parameters : list Parameter_;
  FunctionDecl_result : TypeExpr;
  FunctionDecl_constraints : list ConstraintExpr;
  FunctionDecl_body : Expr;
  FunctionDecl_contracts : list ContractClause }.

Record LinkName := mk_LinkName {
  LinkName_module : option (RString * Span);
  LinkName_symbol : RString;
  LinkName_span : Span }.

Record SignatureDecl := mk_SignatureDecl {
  SignatureDecl_doc : option Documentation;
  SignatureDecl_name : Ident;
  SignatureDecl_regions : list Ident;
  SignatureDecl_recursion : option RString;
  SignatureDecl_visibility : Visibility;
  SignatureDecl_exported : bool;
  SignatureDecl_constant : bool;
  SignatureDecl_pure : bool;
  SignatureDecl_parameters : list TypeExpr;
  SignatureDecl_result : TypeExpr;
  SignatureDecl_constraints : list ConstraintExpr;
  SignatureDecl_link : option LinkName }.

Record ExternTypeDecl := mk_ExternTypeDecl {
  ExternTypeDecl_doc : option Documentation;
  ExternTypeDecl_visibility : Visibility;
  ExternTypeDecl_name : Ident }.

Record Definition_ := mk_Definition {
  Definition_name : Ident;
  Definition_pure : bool;
  Definition_recursion : option RString;
  Definition_parameters : list (Ident * bool);
  Definition_body : Expr }.

Inductive Kind :=
| Kind_Type
| Kind_Arrow (argument : Kind) (result : Kind).

Record ClassDecl := mk_ClassDecl {
  ClassDecl_doc : option Documentation;
  ClassDecl_name : Ident;
  ClassDecl_variable : Ident;
  ClassDecl_kind : Kind;
  ClassDecl_superclasses : list ConstraintExpr;
  ClassDecl_methods : list SignatureDecl;
  ClassDecl_defaults : list Definition_ }.

Record InstanceDecl := mk_InstanceDecl {
  InstanceDecl_class : Ident;
  InstanceDecl_ty : TypeExpr;
  InstanceDecl_constraints : list ConstraintExpr;
  InstanceDecl_methods : list Definition_ }.

Inductive NoncanonicalKind :=
| NoncanonicalKind_BareRange
| NoncanonicalKind_ShortSuffix
| NoncanonicalKind_SymbolicBorrow
| NoncanonicalKind_SymbolicDeref
| NoncanonicalKind_SymbolicReferenceType
| NoncanonicalKind_LegacyLambda.
#[export] Instance NoncanonicalKind_eq_dec : EqDecision NoncanonicalKind.
Proof. solve_decision. Defined.
Definition NoncanonicalKind_variants : list NoncanonicalKind :=
  [NoncanonicalKind_BareRange; NoncanonicalKind_ShortSuffix; NoncanonicalKind_SymbolicBorrow;
   NoncanonicalKind_SymbolicDeref; NoncanonicalKind_SymbolicReferenceType;
   NoncanonicalKind_LegacyLambda].

Inductive FixLevel :=
| FixLevel_Certain
| FixLevel_Likely
| FixLevel_Unavailable.
#[export] Instance FixLevel_eq_dec : EqDecision FixLevel.
Proof. solve_decision. Defined.
Definition FixLevel_variants : list FixLevel :=
  [FixLevel_Certain; FixLevel_Likely; FixLevel_Unavailable].

Record TextEdit := mk_TextEdit {
  TextEdit_span : Span;
  TextEdit_text : RString }.

Record Noncanonical := mk_Noncanonical {
  Noncanonical_kind : NoncanonicalKind;
  Noncanonical_span : Span;
  Noncanonical_spelling : RString;
  Noncanonical_canonical : RString;
  Noncanonical_level : FixLevel;
  Noncanonical_edits : list TextEdit }.

Record Program_ := mk_Program {
  Program_source_kind : option SourceKind;
  Program_namespace : option NamespaceDecl;
  Program_usings : list NamespaceDecl;
  Program_type_aliases : list TypeAliasDecl;
  Program_constants : list ConstDecl;
  Program_externs : list SignatureDecl;
  Program_extern_types : list ExternTypeDecl;
  Program_records : list RecordDecl;
  Program_unions : list UnionDecl;
  Program_functions : list FunctionDecl;
  Program_classes : list ClassDecl;
  Program_instances : list InstanceDecl;
  Program_active_patterns : list ActivePattern;
  Program_tests : list TestDecl;
  Program_benches : list BenchDecl;
  Program_entry : option Expr;
  Program_dyn_types : list TypeExpr;
  Program_cpu_attributes : list CpuAttribute;
  Program_effect_attributes : list EffectAttribute;
  Program_trusted : list TrustedAttribute;
  Program_noncanonical : list Noncanonical;
  Program_aliases : list Ident;
  Program_declaration_starts : list usize }.

(** [syntax::TRUSTED_PROPERTIES]. *)
Definition TRUSTED_PROPERTIES : list string :=
  ["pure"; "no_alloc"; "no_copy"; "no_trap"; "terminates"]%string.
