(* ===== verification/SyntaxCodec.v ===== *)
(** * The syntax codec

    One [put_T]/[get_T] pair per [impl Wire for T] of [src/src/syntax_codec.rs], then [encode] and
    [decode]. The encoder is structural; the decoder of the recursive types ([Kind], [TypeExpr], and
    [Expr], [Pattern], [ComputationBlock] together) takes fuel, one unit per level of [nested]. Fuel
    [MAX_DEPTH] is enough because [Reader.enter] refuses a deeper level ([decode_fuel_enough]). *)
From S2P Require Import Prelude Wire Syntax.
Local Open Scope N_scope.
Local Open Scope monad_scope.

(** The source index of a span: absent, or the source of the whole encoding. *)
Definition put_source (source : option usize) : Put :=
  match source with
  | None => Writer.byte (uint_wrap 8 0)
  | Some source => fun out =>
    if decide (source = w_source out) then Writer.byte (uint_wrap 8 1) out
    else (Err mk_Invalid, out)
  end.

Definition get_source : Get (option usize) :=
  let? byte := Reader.byte in
  match uval byte with
  | 0 => ret None
  | 1 => fun input => (Ok (Some (r_source input)), input)
  | _ => fail mk_Invalid
  end.

Definition put_Span (self : Span) : Put :=
  let 'mk_Span start end_ source := self in
  if_full
    (put start ;;;
     put end_ ;;;
     put_source source)
    (ret tt).

Definition get_Span : Get Span :=
  let? start := get in
  let? end_ := get in
  let? source := get_source in
  ret (mk_Span start end_ source).

#[export] Instance Span_wire : Wire Span := {| put := put_Span; get := get_Span |}.

#[export] Instance SourceKind_wire : Wire SourceKind :=
  {| put := put_enum SourceKind_variants; get := get_enum SourceKind_variants |}.

Definition put_StringLiteral (self : StringLiteral) : Put :=
  match self with
  | StringLiteral_Utf16 units =>
      Writer.tag 0 ;;;
      put units
  | StringLiteral_Utf8 text =>
      Writer.tag 1 ;;;
      put text
  end.

Definition get_StringLiteral : Get StringLiteral :=
  let? byte := Reader.byte in
  match uval byte with
  | 0 =>
      let? units := get in
      ret (StringLiteral_Utf16 units)
  | 1 =>
      let? text := get in
      ret (StringLiteral_Utf8 text)
  | _ => fail mk_Invalid
  end.

#[export] Instance StringLiteral_wire : Wire StringLiteral := {| put := put_StringLiteral; get := get_StringLiteral |}.

#[export] Instance FormatAlign_wire : Wire FormatAlign :=
  {| put := put_enum FormatAlign_variants; get := get_enum FormatAlign_variants |}.

#[export] Instance FormatKind_wire : Wire FormatKind :=
  {| put := put_enum FormatKind_variants; get := get_enum FormatKind_variants |}.

Definition put_FormatSpec (self : FormatSpec) : Put :=
  let 'mk_FormatSpec fill align plus width precision kind span := self in
  put fill ;;;
  put align ;;;
  put plus ;;;
  put width ;;;
  put precision ;;;
  put kind ;;;
  put span.

Definition get_FormatSpec : Get FormatSpec :=
  let? fill := get in
  let? align := get in
  let? plus := get in
  let? width := get in
  let? precision := get in
  let? kind := get in
  let? span := get in
  ret (mk_FormatSpec fill align plus width precision kind span).

#[export] Instance FormatSpec_wire : Wire FormatSpec := {| put := put_FormatSpec; get := get_FormatSpec |}.

#[export] Instance Provenance_wire : Wire Provenance :=
  {| put := put_enum Provenance_variants; get := get_enum Provenance_variants |}.

Definition put_Ident (self : Ident) : Put :=
  let 'mk_Ident text span provenance := self in
  put text ;;;
  put span ;;;
  put provenance.

Definition get_Ident : Get Ident :=
  let? text := get in
  let? span := get in
  let? provenance := get in
  ret (mk_Ident text span provenance).

#[export] Instance Ident_wire : Wire Ident := {| put := put_Ident; get := get_Ident |}.

Definition put_CpuAttribute (self : CpuAttribute) : Put :=
  let 'mk_CpuAttribute function levels := self in
  put function ;;;
  put levels.

Definition get_CpuAttribute : Get CpuAttribute :=
  let? function := get in
  let? levels := get in
  ret (mk_CpuAttribute function levels).

#[export] Instance CpuAttribute_wire : Wire CpuAttribute := {| put := put_CpuAttribute; get := get_CpuAttribute |}.

(** [out.byte( *kind as u8)] and the match that reads it back. *)
Definition put_EffectKind (kind : EffectKind) : Put :=
  Writer.byte (uint_wrap 8
    match kind with
    | EffectKind_NoAlloc => 0
    | EffectKind_NoCopy => 1
    | EffectKind_NoTrap => 2
    | EffectKind_Terminates => 3
    end).

Definition get_EffectKind : Get EffectKind :=
  let? byte := Reader.byte in
  match uval byte with
  | 0 => ret EffectKind_NoAlloc
  | 1 => ret EffectKind_NoCopy
  | 2 => ret EffectKind_NoTrap
  | 3 => ret EffectKind_Terminates
  | _ => fail mk_Invalid
  end.

Definition put_EffectAttribute (self : EffectAttribute) : Put :=
  let 'mk_EffectAttribute function kind span := self in
  put function ;;;
  put_EffectKind kind ;;;
  put span.

Definition get_EffectAttribute : Get EffectAttribute :=
  let? function := get in
  let? kind := get_EffectKind in
  let? span := get in
  ret (mk_EffectAttribute function kind span).

#[export] Instance EffectAttribute_wire : Wire EffectAttribute := {| put := put_EffectAttribute; get := get_EffectAttribute |}.

Definition put_TrustedAttribute (self : TrustedAttribute) : Put :=
  let 'mk_TrustedAttribute target properties span := self in
  put target ;;;
  Writer.byte properties ;;;
  put span.

Definition get_TrustedAttribute : Get TrustedAttribute :=
  let? target := get in
  let? properties := Reader.byte in
  if N.shiftr (uval properties) (N.of_nat (length TRUSTED_PROPERTIES)) =? 0 then
    let? span := get in
    ret (mk_TrustedAttribute target properties span)
  else fail mk_Invalid.

#[export] Instance TrustedAttribute_wire : Wire TrustedAttribute := {| put := put_TrustedAttribute; get := get_TrustedAttribute |}.

Definition put_NamespaceDecl (self : NamespaceDecl) : Put :=
  let 'mk_NamespaceDecl path span := self in
  put path ;;;
  put span.

Definition get_NamespaceDecl : Get NamespaceDecl :=
  let? path := get in
  let? span := get in
  ret (mk_NamespaceDecl path span).

#[export] Instance NamespaceDecl_wire : Wire NamespaceDecl := {| put := put_NamespaceDecl; get := get_NamespaceDecl |}.

Definition put_DynTypeExpr (self : DynTypeExpr) : Put :=
  let 'mk_DynTypeExpr classes borrowed := self in
  put classes ;;;
  put borrowed.

Definition get_DynTypeExpr : Get DynTypeExpr :=
  let? classes := get in
  let? borrowed := get in
  ret (mk_DynTypeExpr classes borrowed).

#[export] Instance DynTypeExpr_wire : Wire DynTypeExpr := {| put := put_DynTypeExpr; get := get_DynTypeExpr |}.

Fixpoint put_TypeExpr (self : TypeExpr) : Put :=
  let 'mk_TypeExpr kind span := self in
  nest (put_TypeExprKind kind) ;;;
  put span
with put_TypeExprKind (self : TypeExprKind) : Put :=
  match self with
  | TypeExprKind_Named name =>
      Writer.tag 0 ;;;
      put name
  | TypeExprKind_Variable name =>
      Writer.tag 1 ;;;
      put name
  | TypeExprKind_Apply head arguments =>
      Writer.tag 2 ;;;
      put head ;;;
      put_Vec put_TypeExpr arguments
  | TypeExprKind_Regions ty regions =>
      Writer.tag 3 ;;;
      put_TypeExpr ty ;;;
      put regions
  | TypeExprKind_Quantified regions ty =>
      Writer.tag 4 ;;;
      put regions ;;;
      put_TypeExpr ty
  | TypeExprKind_Array element =>
      Writer.tag 5 ;;;
      put_TypeExpr element
  | TypeExprKind_ArrayView element =>
      Writer.tag 6 ;;;
      put_TypeExpr element
  | TypeExprKind_FixedArray element length =>
      Writer.tag 7 ;;;
      put_TypeExpr element ;;;
      put_TypeExpr length
  | TypeExprKind_Length length =>
      Writer.tag 8 ;;;
      put length
  | TypeExprKind_List element =>
      Writer.tag 9 ;;;
      put_TypeExpr element
  | TypeExprKind_Tuple elements =>
      Writer.tag 10 ;;;
      put_Vec put_TypeExpr elements
  | TypeExprKind_Function parameters result =>
      Writer.tag 12 ;;;
      put_Vec put_TypeExpr parameters ;;;
      put_TypeExpr result
  | TypeExprKind_Reference target mutable =>
      Writer.tag 13 ;;;
      put_TypeExpr target ;;;
      put mutable
  | TypeExprKind_Own ty =>
      Writer.tag 15 ;;;
      put_TypeExpr ty
  | TypeExprKind_Mut ty =>
      Writer.tag 16 ;;;
      put_TypeExpr ty
  | TypeExprKind_Pure ty =>
      Writer.tag 17 ;;;
      put_TypeExpr ty
  | TypeExprKind_Dyn dyn_type =>
      Writer.tag 14 ;;;
      put dyn_type
  end.

Definition get_TypeExprKind (rec_TypeExpr : Get TypeExpr) : Get TypeExprKind :=
  let? byte := Reader.byte in
  match uval byte with
  | 0 => variant (
      let? name := get in
      ret (TypeExprKind_Named name))
  | 1 => variant (
      let? name := get in
      ret (TypeExprKind_Variable name))
  | 2 => variant (
      let? head := get in
      let? arguments := get_Vec rec_TypeExpr in
      ret (TypeExprKind_Apply head arguments))
  | 3 => variant (
      let? ty := rec_TypeExpr in
      let? regions := get in
      ret (TypeExprKind_Regions ty regions))
  | 4 => variant (
      let? regions := get in
      let? ty := rec_TypeExpr in
      ret (TypeExprKind_Quantified regions ty))
  | 5 => variant (
      let? element := rec_TypeExpr in
      ret (TypeExprKind_Array element))
  | 6 => variant (
      let? element := rec_TypeExpr in
      ret (TypeExprKind_ArrayView element))
  | 7 => variant (
      let? element := rec_TypeExpr in
      let? length := rec_TypeExpr in
      ret (TypeExprKind_FixedArray element length))
  | 8 => variant (
      let? length := get in
      ret (TypeExprKind_Length length))
  | 9 => variant (
      let? element := rec_TypeExpr in
      ret (TypeExprKind_List element))
  | 10 => variant (
      let? elements := get_Vec rec_TypeExpr in
      ret (TypeExprKind_Tuple elements))
  | 11 => fail mk_Invalid
  | 12 => variant (
      let? parameters := get_Vec rec_TypeExpr in
      let? result := rec_TypeExpr in
      ret (TypeExprKind_Function parameters result))
  | 13 => variant (
      let? target := rec_TypeExpr in
      let? mutable := get in
      ret (TypeExprKind_Reference target mutable))
  | 14 => variant (
      let? dyn_type := get in
      ret (TypeExprKind_Dyn dyn_type))
  | 15 => variant (
      let? ty := rec_TypeExpr in
      ret (TypeExprKind_Own ty))
  | 16 => variant (
      let? ty := rec_TypeExpr in
      ret (TypeExprKind_Mut ty))
  | 17 => variant (
      let? ty := rec_TypeExpr in
      ret (TypeExprKind_Pure ty))
  | _ => fail mk_Invalid
  end.

Definition get_TypeExpr_with (rec_TypeExpr : Get TypeExpr) : Get TypeExpr :=
  let? kind := nested (get_TypeExprKind rec_TypeExpr) in
  let? span := get in
  ret (mk_TypeExpr kind span).

Fixpoint get_TypeExpr_fuel (fuel : nat) : Get TypeExpr :=
  match fuel with
  | O => fail mk_Invalid
  | S fuel => get_TypeExpr_with (get_TypeExpr_fuel fuel)
  end.

#[export] Instance TypeExpr_wire : Wire TypeExpr :=
  {| put := put_TypeExpr; get := get_TypeExpr_fuel MAX_DEPTH |}.

#[export] Instance UnaryOp_wire : Wire UnaryOp :=
  {| put := put_enum UnaryOp_variants; get := get_enum UnaryOp_variants |}.

#[export] Instance BinaryOp_wire : Wire BinaryOp :=
  {| put := put_enum BinaryOp_variants; get := get_enum BinaryOp_variants |}.

#[export] Instance RangeOp_wire : Wire RangeOp :=
  {| put := put_enum RangeOp_variants; get := get_enum RangeOp_variants |}.

#[export] Instance Notation_wire : Wire Notation_ :=
  {| put := put_enum Notation_variants; get := get_enum Notation_variants |}.

#[export] Instance MatchOrigin_wire : Wire MatchOrigin :=
  {| put := put_enum MatchOrigin_variants; get := get_enum MatchOrigin_variants |}.

#[export] Instance Recursion_wire : Wire Recursion :=
  {| put := put_enum Recursion_variants; get := get_enum Recursion_variants |}.

(** The builder operations that a [ComputationStatementKind_Operation] can name, by position. *)
Definition OPERATIONS : list string :=
  ["Bind"; "Return"; "ReturnFrom"; "Yield"; "YieldFrom"; "Zero"; "Combine"; "Delay"; "Run"; "For";
   "While"; "MergeSources"; "BindReturn"; "Bind2"; "Using"]%string.

Definition put_operation (operation : string) : Put :=
  let? index := ok_or (fst <$> list_find (eq operation) OPERATIONS) mk_Invalid in
  put_uint (uint_wrap 64 (N.of_nat index)).

Definition get_operation : Get string :=
  let? index := get_uint in
  ok_or (OPERATIONS !! N.to_nat (uval (w := 64) index)) mk_Invalid.

Fixpoint put_Expr (self : Expr) : Put :=
  let 'mk_Expr kind span depth := self in
  nest (put_ExprKind kind) ;;;
  put span ;;;
  put depth
with put_ExprKind (self : ExprKind) : Put :=
  match self with
  | ExprKind_Integer value suffix =>
      Writer.tag 0 ;;;
      put value ;;;
      put suffix
  | ExprKind_BigInt digits =>
      Writer.tag 1 ;;;
      put digits
  | ExprKind_Float text suffix =>
      Writer.tag 2 ;;;
      put text ;;;
      put suffix
  | ExprKind_String literal =>
      Writer.tag 3 ;;;
      put literal
  | ExprKind_Char unit =>
      Writer.tag 4 ;;;
      put unit
  | ExprKind_Utf8Char scalar =>
      Writer.tag 5 ;;;
      put scalar
  | ExprKind_Bool value =>
      Writer.tag 6 ;;;
      put value
  | ExprKind_Unit => Writer.tag 7
  | ExprKind_Break => Writer.tag 8
  | ExprKind_Continue => Writer.tag 9
  | ExprKind_Hole name =>
      Writer.tag 46 ;;;
      put name
  | ExprKind_Name name =>
      Writer.tag 10 ;;;
      put name
  | ExprKind_QualifiedFunction name =>
      Writer.tag 11 ;;;
      put name
  | ExprKind_TypeFunction ty function =>
      Writer.tag 12 ;;;
      put ty ;;;
      put function
  | ExprKind_Unary op value =>
      Writer.tag 13 ;;;
      put op ;;;
      put_Expr value
  | ExprKind_Binary op left_ right_ =>
      Writer.tag 14 ;;;
      put op ;;;
      put_Expr left_ ;;;
      put_Expr right_
  | ExprKind_Call callee arguments =>
      Writer.tag 15 ;;;
      put_Expr callee ;;;
      put_Vec put_Expr arguments
  | ExprKind_Lambda parameters body =>
      Writer.tag 16 ;;;
      put parameters ;;;
      put_Expr body
  | ExprKind_Routine body =>
      Writer.tag 47 ;;;
      put_Expr body
  | ExprKind_Select arms =>
      Writer.tag 48 ;;;
      put_Vec put_SelectArm arms
  | ExprKind_Computation builder block =>
      Writer.tag 19 ;;;
      put builder ;;;
      put_ComputationBlock block
  | ExprKind_ComputationBoundary value =>
      Writer.tag 20 ;;;
      put_Expr value
  | ExprKind_If condition then_branch else_branch =>
      Writer.tag 21 ;;;
      put_Expr condition ;;;
      put_Expr then_branch ;;;
      put_Expr else_branch
  | ExprKind_While condition body =>
      Writer.tag 22 ;;;
      put_Expr condition ;;;
      put_Expr body
  | ExprKind_For pattern source body =>
      Writer.tag 23 ;;;
      put_Pattern pattern ;;;
      put_Expr source ;;;
      put_Expr body
  | ExprKind_Range start step finish counted descending op =>
      Writer.tag 24 ;;;
      put_Expr start ;;;
      put_Option put_Expr step ;;;
      put_Expr finish ;;;
      put counted ;;;
      put descending ;;;
      put op
  | ExprKind_Match value arms origin =>
      Writer.tag 25 ;;;
      put_Expr value ;;;
      put_Vec put_MatchArm arms ;;;
      put origin
  | ExprKind_Try handled =>
      Writer.tag 26 ;;;
      put_TryExpr handled
  | ExprKind_Checked value =>
      Writer.tag 27 ;;;
      put_Expr value
  | ExprKind_Block bindings result =>
      Writer.tag 28 ;;;
      put_Vec put_Binding bindings ;;;
      put_Expr result
  | ExprKind_Record name fields =>
      Writer.tag 29 ;;;
      put name ;;;
      put_Vec (put_pair put put_Expr) fields
  | ExprKind_RecordUpdate base fields =>
      Writer.tag 30 ;;;
      put_Expr base ;;;
      put_Vec (put_pair put put_Expr) fields
  | ExprKind_Array values =>
      Writer.tag 31 ;;;
      put_Vec put_Expr values
  | ExprKind_List values =>
      Writer.tag 32 ;;;
      put_Vec put_Expr values
  | ExprKind_Tuple values =>
      Writer.tag 33 ;;;
      put_Vec put_Expr values
  | ExprKind_NewArray ty length initializer =>
      Writer.tag 34 ;;;
      put ty ;;;
      put_Expr length ;;;
      put_Expr initializer
  | ExprKind_NewList ty length initializer =>
      Writer.tag 35 ;;;
      put ty ;;;
      put_Expr length ;;;
      put_Expr initializer
  | ExprKind_NewLiteral value =>
      Writer.tag 36 ;;;
      put_Expr value
  | ExprKind_Field value field =>
      Writer.tag 37 ;;;
      put_Expr value ;;;
      put field
  | ExprKind_Index value index =>
      Writer.tag 38 ;;;
      put_Expr value ;;;
      put_Expr index
  | ExprKind_Slice value start end_ mutable op =>
      Writer.tag 39 ;;;
      put_Expr value ;;;
      put_Option put_Expr start ;;;
      put_Option put_Expr end_ ;;;
      put mutable ;;;
      put op
  | ExprKind_Borrow value mutable notation =>
      Writer.tag 40 ;;;
      put_Expr value ;;;
      put mutable ;;;
      put notation
  | ExprKind_Dereference value notation =>
      Writer.tag 41 ;;;
      put_Expr value ;;;
      put notation
  | ExprKind_Assign target value =>
      Writer.tag 42 ;;;
      put_Expr target ;;;
      put_Expr value
  | ExprKind_Cast value ty =>
      Writer.tag 43 ;;;
      put_Expr value ;;;
      put ty
  | ExprKind_Interpolated interpolation =>
      Writer.tag 44 ;;;
      put_Interpolation interpolation
  | ExprKind_DynDispatch slot slots =>
      Writer.tag 45 ;;;
      put slot ;;;
      put slots
  end
with put_SelectArm (self : SelectArm) : Put :=
  let 'mk_SelectArm head guard body span := self in
  put_SelectHead head ;;;
  put_Option put_Expr guard ;;;
  put_Expr body ;;;
  put span
with put_SelectHead (self : SelectHead) : Put :=
  match self with
  | SelectHead_Recv name channel =>
      Writer.tag 0 ;;;
      put name ;;;
      put_Expr channel
  | SelectHead_Send value channel =>
      Writer.tag 1 ;;;
      put_Expr value ;;;
      put_Expr channel
  | SelectHead_Default => Writer.tag 2
  end
with put_MatchArm (self : MatchArm) : Put :=
  let 'mk_MatchArm pattern guard body span := self in
  put_Pattern pattern ;;;
  put_Option put_Expr guard ;;;
  put_Expr body ;;;
  put span
with put_TryExpr (self : TryExpr) : Put :=
  let 'mk_TryExpr body arms finally := self in
  put_Expr body ;;;
  put_Vec put_MatchArm arms ;;;
  put_Option put_Expr finally
with put_Interpolation (self : Interpolation) : Put :=
  let 'mk_Interpolation texts holes := self in
  put texts ;;;
  put_Vec put_InterpolationHole holes
with put_InterpolationHole (self : InterpolationHole) : Put :=
  let 'mk_InterpolationHole value spec := self in
  put_Expr value ;;;
  put spec
with put_Binding (self : Binding) : Put :=
  let 'mk_Binding name mutable using_ recursion annotation value := self in
  put name ;;;
  put mutable ;;;
  put using_ ;;;
  put recursion ;;;
  put annotation ;;;
  put_Expr value
with put_Pattern (self : Pattern) : Put :=
  let 'mk_Pattern kind span depth := self in
  nest (put_PatternKind kind) ;;;
  put span ;;;
  put depth
with put_PatternKind (self : PatternKind) : Put :=
  match self with
  | PatternKind_Wildcard => Writer.tag 0
  | PatternKind_Binding name =>
      Writer.tag 1 ;;;
      put name
  | PatternKind_Apply name arguments =>
      Writer.tag 2 ;;;
      put name ;;;
      put_Vec put_Pattern arguments
  | PatternKind_Argument value =>
      Writer.tag 3 ;;;
      put_Expr value
  | PatternKind_Literal value =>
      Writer.tag 4 ;;;
      put_Expr value
  | PatternKind_Tuple elements =>
      Writer.tag 5 ;;;
      put_Vec put_Pattern elements
  | PatternKind_Record name fields =>
      Writer.tag 6 ;;;
      put name ;;;
      put_Vec (put_pair put put_Pattern) fields
  | PatternKind_Array elements =>
      Writer.tag 7 ;;;
      put_Vec put_Pattern elements
  | PatternKind_List elements =>
      Writer.tag 8 ;;;
      put_Vec put_Pattern elements
  | PatternKind_Cons head tail =>
      Writer.tag 9 ;;;
      put_Pattern head ;;;
      put_Pattern tail
  | PatternKind_Or left_ right_ =>
      Writer.tag 10 ;;;
      put_Pattern left_ ;;;
      put_Pattern right_
  | PatternKind_And left_ right_ =>
      Writer.tag 11 ;;;
      put_Pattern left_ ;;;
      put_Pattern right_
  | PatternKind_As pattern name =>
      Writer.tag 12 ;;;
      put_Pattern pattern ;;;
      put name
  | PatternKind_Annotated pattern ty =>
      Writer.tag 13 ;;;
      put_Pattern pattern ;;;
      put ty
  end
with put_ComputationBlock (self : ComputationBlock) : Put :=
  let 'mk_ComputationBlock statements span depth := self in
  nest (put_Vec put_ComputationStatement statements) ;;;
  put span ;;;
  put depth
with put_ComputationStatement (self : ComputationStatement) : Put :=
  let 'mk_ComputationStatement kind span := self in
  put_ComputationStatementKind kind ;;;
  put span
with put_ComputationStatementKind (self : ComputationStatementKind) : Put :=
  match self with
  | ComputationStatementKind_Let binding bang =>
      Writer.tag 0 ;;;
      put_Binding binding ;;;
      put bang
  | ComputationStatementKind_LetAnd bindings =>
      Writer.tag 1 ;;;
      put_Vec put_Binding bindings
  | ComputationStatementKind_Match value arms =>
      Writer.tag 2 ;;;
      put_Expr value ;;;
      put_Vec put_ComputationMatchArm arms
  | ComputationStatementKind_Do value =>
      Writer.tag 3 ;;;
      put_Expr value
  | ComputationStatementKind_Operation operation value =>
      Writer.tag 4 ;;;
      put_operation operation ;;;
      put_Expr value
  | ComputationStatementKind_If condition then_block else_block =>
      Writer.tag 5 ;;;
      put_Expr condition ;;;
      put_ComputationBlock then_block ;;;
      put_Option put_ComputationBlock else_block
  | ComputationStatementKind_For pattern source body =>
      Writer.tag 6 ;;;
      put_Pattern pattern ;;;
      put_Expr source ;;;
      put_ComputationBlock body
  | ComputationStatementKind_While condition body =>
      Writer.tag 7 ;;;
      put_Expr condition ;;;
      put_ComputationBlock body
  | ComputationStatementKind_Expression value =>
      Writer.tag 8 ;;;
      put_Expr value
  end
with put_ComputationMatchArm (self : ComputationMatchArm) : Put :=
  let 'mk_ComputationMatchArm pattern guard body span := self in
  put_Pattern pattern ;;;
  put_Option put_Expr guard ;;;
  put_ComputationBlock body ;;;
  put span.

(** The decoders of one level, given those of the next. *)
Record Getters := mk_Getters {
  rec_Expr : Get Expr;
  rec_Pattern : Get Pattern;
  rec_ComputationBlock : Get ComputationBlock }.

Section getters.
Context (g : Getters).

Definition get_SelectHead : Get SelectHead :=
  let? byte := Reader.byte in
  match uval byte with
  | 0 =>
      let? name := get in
      let? channel := rec_Expr g in
      ret (SelectHead_Recv name channel)
  | 1 =>
      let? value := rec_Expr g in
      let? channel := rec_Expr g in
      ret (SelectHead_Send value channel)
  | 2 => ret SelectHead_Default
  | _ => fail mk_Invalid
  end.

Definition get_SelectArm : Get SelectArm :=
  let? head := get_SelectHead in
  let? guard := get_Option (rec_Expr g) in
  let? body := rec_Expr g in
  let? span := get in
  ret (mk_SelectArm head guard body span).

Definition get_MatchArm : Get MatchArm :=
  let? pattern := rec_Pattern g in
  let? guard := get_Option (rec_Expr g) in
  let? body := rec_Expr g in
  let? span := get in
  ret (mk_MatchArm pattern guard body span).

Definition get_TryExpr : Get TryExpr :=
  let? body := rec_Expr g in
  let? arms := get_Vec get_MatchArm in
  let? finally := get_Option (rec_Expr g) in
  ret (mk_TryExpr body arms finally).

Definition get_InterpolationHole : Get InterpolationHole :=
  let? value := rec_Expr g in
  let? spec := get in
  ret (mk_InterpolationHole value spec).

Definition get_Interpolation : Get Interpolation :=
  let? texts := get in
  let? holes := get_Vec get_InterpolationHole in
  ret (mk_Interpolation texts holes).

Definition get_Binding : Get Binding :=
  let? name := get in
  let? mutable := get in
  let? using_ := get in
  let? recursion := get in
  let? annotation := get in
  let? value := rec_Expr g in
  ret (mk_Binding name mutable using_ recursion annotation value).

Definition get_ExprKind : Get ExprKind :=
  let? byte := Reader.byte in
  match uval byte with
  | 0 => variant (
      let? value := get in
      let? suffix := get in
      ret (ExprKind_Integer value suffix))
  | 1 => variant (
      let? digits := get in
      ret (ExprKind_BigInt digits))
  | 2 => variant (
      let? text := get in
      let? suffix := get in
      ret (ExprKind_Float text suffix))
  | 3 => variant (
      let? literal := get in
      ret (ExprKind_String literal))
  | 4 => variant (
      let? unit := get in
      ret (ExprKind_Char unit))
  | 5 => variant (
      let? scalar := get in
      ret (ExprKind_Utf8Char scalar))
  | 6 => variant (
      let? value := get in
      ret (ExprKind_Bool value))
  | 7 => ret ExprKind_Unit
  | 8 => ret ExprKind_Break
  | 9 => ret ExprKind_Continue
  | 10 => variant (
      let? name := get in
      ret (ExprKind_Name name))
  | 11 => variant (
      let? name := get in
      ret (ExprKind_QualifiedFunction name))
  | 12 => variant (
      let? ty := get in
      let? function := get in
      ret (ExprKind_TypeFunction ty function))
  | 13 => variant (
      let? op := get in
      let? value := rec_Expr g in
      ret (ExprKind_Unary op value))
  | 14 => variant (
      let? op := get in
      let? left_ := rec_Expr g in
      let? right_ := rec_Expr g in
      ret (ExprKind_Binary op left_ right_))
  | 15 => variant (
      let? callee := rec_Expr g in
      let? arguments := get_Vec (rec_Expr g) in
      ret (ExprKind_Call callee arguments))
  | 16 => variant (
      let? parameters := get in
      let? body := rec_Expr g in
      ret (ExprKind_Lambda parameters body))
  | 17 | 18 => fail mk_Invalid
  | 19 => variant (
      let? builder := get in
      let? block := rec_ComputationBlock g in
      ret (ExprKind_Computation builder block))
  | 20 => variant (
      let? value := rec_Expr g in
      ret (ExprKind_ComputationBoundary value))
  | 21 => variant (
      let? condition := rec_Expr g in
      let? then_branch := rec_Expr g in
      let? else_branch := rec_Expr g in
      ret (ExprKind_If condition then_branch else_branch))
  | 22 => variant (
      let? condition := rec_Expr g in
      let? body := rec_Expr g in
      ret (ExprKind_While condition body))
  | 23 => variant (
      let? pattern := rec_Pattern g in
      let? source := rec_Expr g in
      let? body := rec_Expr g in
      ret (ExprKind_For pattern source body))
  | 24 => variant (
      let? start := rec_Expr g in
      let? step := get_Option (rec_Expr g) in
      let? finish := rec_Expr g in
      let? counted := get in
      let? descending := get in
      let? op := get in
      ret (ExprKind_Range start step finish counted descending op))
  | 25 => variant (
      let? value := rec_Expr g in
      let? arms := get_Vec get_MatchArm in
      let? origin := get in
      ret (ExprKind_Match value arms origin))
  | 26 => variant (
      let? handled := get_TryExpr in
      ret (ExprKind_Try handled))
  | 27 => variant (
      let? value := rec_Expr g in
      ret (ExprKind_Checked value))
  | 28 => variant (
      let? bindings := get_Vec get_Binding in
      let? result := rec_Expr g in
      ret (ExprKind_Block bindings result))
  | 29 => variant (
      let? name := get in
      let? fields := get_Vec (get_pair get (rec_Expr g)) in
      ret (ExprKind_Record name fields))
  | 30 => variant (
      let? base := rec_Expr g in
      let? fields := get_Vec (get_pair get (rec_Expr g)) in
      ret (ExprKind_RecordUpdate base fields))
  | 31 => variant (
      let? values := get_Vec (rec_Expr g) in
      ret (ExprKind_Array values))
  | 32 => variant (
      let? values := get_Vec (rec_Expr g) in
      ret (ExprKind_List values))
  | 33 => variant (
      let? values := get_Vec (rec_Expr g) in
      ret (ExprKind_Tuple values))
  | 34 => variant (
      let? ty := get in
      let? length := rec_Expr g in
      let? initializer := rec_Expr g in
      ret (ExprKind_NewArray ty length initializer))
  | 35 => variant (
      let? ty := get in
      let? length := rec_Expr g in
      let? initializer := rec_Expr g in
      ret (ExprKind_NewList ty length initializer))
  | 36 => variant (
      let? value := rec_Expr g in
      ret (ExprKind_NewLiteral value))
  | 37 => variant (
      let? value := rec_Expr g in
      let? field := get in
      ret (ExprKind_Field value field))
  | 38 => variant (
      let? value := rec_Expr g in
      let? index := rec_Expr g in
      ret (ExprKind_Index value index))
  | 39 => variant (
      let? value := rec_Expr g in
      let? start := get_Option (rec_Expr g) in
      let? end_ := get_Option (rec_Expr g) in
      let? mutable := get in
      let? op := get in
      ret (ExprKind_Slice value start end_ mutable op))
  | 40 => variant (
      let? value := rec_Expr g in
      let? mutable := get in
      let? notation := get in
      ret (ExprKind_Borrow value mutable notation))
  | 41 => variant (
      let? value := rec_Expr g in
      let? notation := get in
      ret (ExprKind_Dereference value notation))
  | 42 => variant (
      let? target := rec_Expr g in
      let? value := rec_Expr g in
      ret (ExprKind_Assign target value))
  | 43 => variant (
      let? value := rec_Expr g in
      let? ty := get in
      ret (ExprKind_Cast value ty))
  | 44 => variant (
      let? interpolation := get_Interpolation in
      ret (ExprKind_Interpolated interpolation))
  | 45 => variant (
      let? slot := get in
      let? slots := get in
      ret (ExprKind_DynDispatch slot slots))
  | 46 => variant (
      let? name := get in
      ret (ExprKind_Hole name))
  | 47 => variant (
      let? body := rec_Expr g in
      ret (ExprKind_Routine body))
  | 48 => variant (
      let? arms := get_Vec get_SelectArm in
      ret (ExprKind_Select arms))
  | _ => fail mk_Invalid
  end.

Definition get_PatternKind : Get PatternKind :=
  let? byte := Reader.byte in
  match uval byte with
  | 0 => ret PatternKind_Wildcard
  | 1 => variant (
      let? name := get in
      ret (PatternKind_Binding name))
  | 2 => variant (
      let? name := get in
      let? arguments := get_Vec (rec_Pattern g) in
      ret (PatternKind_Apply name arguments))
  | 3 => variant (
      let? value := rec_Expr g in
      ret (PatternKind_Argument value))
  | 4 => variant (
      let? value := rec_Expr g in
      ret (PatternKind_Literal value))
  | 5 => variant (
      let? elements := get_Vec (rec_Pattern g) in
      ret (PatternKind_Tuple elements))
  | 6 => variant (
      let? name := get in
      let? fields := get_Vec (get_pair get (rec_Pattern g)) in
      ret (PatternKind_Record name fields))
  | 7 => variant (
      let? elements := get_Vec (rec_Pattern g) in
      ret (PatternKind_Array elements))
  | 8 => variant (
      let? elements := get_Vec (rec_Pattern g) in
      ret (PatternKind_List elements))
  | 9 => variant (
      let? head := rec_Pattern g in
      let? tail := rec_Pattern g in
      ret (PatternKind_Cons head tail))
  | 10 => variant (
      let? left_ := rec_Pattern g in
      let? right_ := rec_Pattern g in
      ret (PatternKind_Or left_ right_))
  | 11 => variant (
      let? left_ := rec_Pattern g in
      let? right_ := rec_Pattern g in
      ret (PatternKind_And left_ right_))
  | 12 => variant (
      let? pattern := rec_Pattern g in
      let? name := get in
      ret (PatternKind_As pattern name))
  | 13 => variant (
      let? pattern := rec_Pattern g in
      let? ty := get in
      ret (PatternKind_Annotated pattern ty))
  | _ => fail mk_Invalid
  end.

Definition get_ComputationMatchArm : Get ComputationMatchArm :=
  let? pattern := rec_Pattern g in
  let? guard := get_Option (rec_Expr g) in
  let? body := rec_ComputationBlock g in
  let? span := get in
  ret (mk_ComputationMatchArm pattern guard body span).

Definition get_ComputationStatementKind : Get ComputationStatementKind :=
  let? byte := Reader.byte in
  match uval byte with
  | 0 => variant (
      let? binding := get_Binding in
      let? bang := get in
      ret (ComputationStatementKind_Let binding bang))
  | 1 => variant (
      let? bindings := get_Vec get_Binding in
      ret (ComputationStatementKind_LetAnd bindings))
  | 2 => variant (
      let? value := rec_Expr g in
      let? arms := get_Vec get_ComputationMatchArm in
      ret (ComputationStatementKind_Match value arms))
  | 3 => variant (
      let? value := rec_Expr g in
      ret (ComputationStatementKind_Do value))
  | 4 => variant (
      let? operation := get_operation in
      let? value := rec_Expr g in
      ret (ComputationStatementKind_Operation operation value))
  | 5 => variant (
      let? condition := rec_Expr g in
      let? then_block := rec_ComputationBlock g in
      let? else_block := get_Option (rec_ComputationBlock g) in
      ret (ComputationStatementKind_If condition then_block else_block))
  | 6 => variant (
      let? pattern := rec_Pattern g in
      let? source := rec_Expr g in
      let? body := rec_ComputationBlock g in
      ret (ComputationStatementKind_For pattern source body))
  | 7 => variant (
      let? condition := rec_Expr g in
      let? body := rec_ComputationBlock g in
      ret (ComputationStatementKind_While condition body))
  | 8 => variant (
      let? value := rec_Expr g in
      ret (ComputationStatementKind_Expression value))
  | _ => fail mk_Invalid
  end.

Definition get_ComputationStatement : Get ComputationStatement :=
  let? kind := get_ComputationStatementKind in
  let? span := get in
  ret (mk_ComputationStatement kind span).

Definition get_Expr : Get Expr :=
  let? kind := nested get_ExprKind in
  let? span := get in
  let? depth := get in
  ret (mk_Expr kind span depth).

Definition get_Pattern : Get Pattern :=
  let? kind := nested get_PatternKind in
  let? span := get in
  let? depth := get in
  ret (mk_Pattern kind span depth).

Definition get_ComputationBlock : Get ComputationBlock :=
  let? statements := nested (get_Vec get_ComputationStatement) in
  let? span := get in
  let? depth := get in
  ret (mk_ComputationBlock statements span depth).

End getters.

Fixpoint getters (fuel : nat) : Getters :=
  match fuel with
  | O => mk_Getters (fail mk_Invalid) (fail mk_Invalid) (fail mk_Invalid)
  | S fuel =>
    let g := getters fuel in
    mk_Getters (get_Expr g) (get_Pattern g) (get_ComputationBlock g)
  end.

#[export] Instance Expr_wire : Wire Expr :=
  {| put := put_Expr; get := rec_Expr (getters MAX_DEPTH) |}.

Definition put_TestDecl (self : TestDecl) : Put :=
  let 'mk_TestDecl name name_span body span := self in
  put name ;;;
  put name_span ;;;
  put body ;;;
  put span.

Definition get_TestDecl : Get TestDecl :=
  let? name := get in
  let? name_span := get in
  let? body := get in
  let? span := get in
  ret (mk_TestDecl name name_span body span).

#[export] Instance TestDecl_wire : Wire TestDecl := {| put := put_TestDecl; get := get_TestDecl |}.

Definition put_BenchDecl (self : BenchDecl) : Put :=
  let 'mk_BenchDecl name name_span body span := self in
  put name ;;;
  put name_span ;;;
  put body ;;;
  put span.

Definition get_BenchDecl : Get BenchDecl :=
  let? name := get in
  let? name_span := get in
  let? body := get in
  let? span := get in
  ret (mk_BenchDecl name name_span body span).

#[export] Instance BenchDecl_wire : Wire BenchDecl := {| put := put_BenchDecl; get := get_BenchDecl |}.

Definition put_ActivePattern (self : ActivePattern) : Put :=
  let 'mk_ActivePattern cases function partial := self in
  put cases ;;;
  put function ;;;
  put partial.

Definition get_ActivePattern : Get ActivePattern :=
  let? cases := get in
  let? function := get in
  let? partial := get in
  ret (mk_ActivePattern cases function partial).

#[export] Instance ActivePattern_wire : Wire ActivePattern := {| put := put_ActivePattern; get := get_ActivePattern |}.

#[export] Instance Visibility_wire : Wire Visibility :=
  {| put := put_enum Visibility_variants; get := get_enum Visibility_variants |}.

Definition put_Documentation (self : Documentation) : Put :=
  let 'mk_Documentation text span := self in
  put text ;;;
  put span.

Definition get_Documentation : Get Documentation :=
  let? text := get in
  let? span := get in
  ret (mk_Documentation text span).

#[export] Instance Documentation_wire : Wire Documentation := {| put := put_Documentation; get := get_Documentation |}.

(** Documentation comments are not part of the interface. *)
Definition put_doc (doc : option Documentation) : Put := if_full (put doc) (ret tt).

Definition put_TypeAliasDecl (self : TypeAliasDecl) : Put :=
  let 'mk_TypeAliasDecl doc visibility name parameters target := self in
  put_doc doc ;;;
  put visibility ;;;
  put name ;;;
  put parameters ;;;
  put target.

Definition get_TypeAliasDecl : Get TypeAliasDecl :=
  let? doc := get in
  let? visibility := get in
  let? name := get in
  let? parameters := get in
  let? target := get in
  ret (mk_TypeAliasDecl doc visibility name parameters target).

#[export] Instance TypeAliasDecl_wire : Wire TypeAliasDecl := {| put := put_TypeAliasDecl; get := get_TypeAliasDecl |}.

Definition put_ConstDecl (self : ConstDecl) : Put :=
  let 'mk_ConstDecl doc visibility name ty value := self in
  put_doc doc ;;;
  put visibility ;;;
  put name ;;;
  put ty ;;;
  put value.

Definition get_ConstDecl : Get ConstDecl :=
  let? doc := get in
  let? visibility := get in
  let? name := get in
  let? ty := get in
  let? value := get in
  ret (mk_ConstDecl doc visibility name ty value).

#[export] Instance ConstDecl_wire : Wire ConstDecl := {| put := put_ConstDecl; get := get_ConstDecl |}.

#[export] Instance DeriveClass_wire : Wire DeriveClass :=
  {| put := put_enum DeriveClass_variants; get := get_enum DeriveClass_variants |}.

Definition put_JsonName (self : JsonName) : Put :=
  let 'mk_JsonName units span := self in
  put units ;;;
  put span.

Definition get_JsonName : Get JsonName :=
  let? units := get in
  let? span := get in
  ret (mk_JsonName units span).

#[export] Instance JsonName_wire : Wire JsonName := {| put := put_JsonName; get := get_JsonName |}.

Definition put_Parameter (self : Parameter_) : Put :=
  let 'mk_Parameter name ty mutable json := self in
  put name ;;;
  put ty ;;;
  put mutable ;;;
  put json.

Definition get_Parameter : Get Parameter_ :=
  let? name := get in
  let? ty := get in
  let? mutable := get in
  let? json := get in
  ret (mk_Parameter name ty mutable json).

#[export] Instance Parameter_wire : Wire Parameter_ := {| put := put_Parameter; get := get_Parameter |}.

Definition put_RecordDecl (self : RecordDecl) : Put :=
  let 'mk_RecordDecl doc visibility name parameters regions fields derives := self in
  put_doc doc ;;;
  put visibility ;;;
  put name ;;;
  put parameters ;;;
  put regions ;;;
  put fields ;;;
  put derives.

Definition get_RecordDecl : Get RecordDecl :=
  let? doc := get in
  let? visibility := get in
  let? name := get in
  let? parameters := get in
  let? regions := get in
  let? fields := get in
  let? derives := get in
  ret (mk_RecordDecl doc visibility name parameters regions fields derives).

#[export] Instance RecordDecl_wire : Wire RecordDecl := {| put := put_RecordDecl; get := get_RecordDecl |}.

Definition put_UnionCaseDecl (self : UnionCaseDecl) : Put :=
  let 'mk_UnionCaseDecl name payload json := self in
  put name ;;;
  put payload ;;;
  put json.

Definition get_UnionCaseDecl : Get UnionCaseDecl :=
  let? name := get in
  let? payload := get in
  let? json := get in
  ret (mk_UnionCaseDecl name payload json).

#[export] Instance UnionCaseDecl_wire : Wire UnionCaseDecl := {| put := put_UnionCaseDecl; get := get_UnionCaseDecl |}.

Definition put_UnionDecl (self : UnionDecl) : Put :=
  let 'mk_UnionDecl doc visibility name parameters cases derives := self in
  put_doc doc ;;;
  put visibility ;;;
  put name ;;;
  put parameters ;;;
  put cases ;;;
  put derives.

Definition get_UnionDecl : Get UnionDecl :=
  let? doc := get in
  let? visibility := get in
  let? name := get in
  let? parameters := get in
  let? cases := get in
  let? derives := get in
  ret (mk_UnionDecl doc visibility name parameters cases derives).

#[export] Instance UnionDecl_wire : Wire UnionDecl := {| put := put_UnionDecl; get := get_UnionDecl |}.

#[export] Instance ContractKind_wire : Wire ContractKind :=
  {| put := put_enum ContractKind_variants; get := get_enum ContractKind_variants |}.

Definition put_ContractClause (self : ContractClause) : Put :=
  let 'mk_ContractClause kind binder condition text span := self in
  put kind ;;;
  put binder ;;;
  put condition ;;;
  put text ;;;
  put span.

Definition get_ContractClause : Get ContractClause :=
  let? kind := get in
  let? binder := get in
  let? condition := get in
  let? text := get in
  let? span := get in
  ret (mk_ContractClause kind binder condition text span).

#[export] Instance ContractClause_wire : Wire ContractClause := {| put := put_ContractClause; get := get_ContractClause |}.

Definition put_ConstraintName (self : ConstraintName) : Put :=
  match self with
  | ConstraintName_Class name =>
      Writer.tag 0 ;;;
      put name
  | ConstraintName_Function name ty =>
      Writer.tag 1 ;;;
      put name ;;;
      put ty
  end.

Definition get_ConstraintName : Get ConstraintName :=
  let? byte := Reader.byte in
  match uval byte with
  | 0 =>
      let? name := get in
      ret (ConstraintName_Class name)
  | 1 =>
      let? name := get in
      let? ty := get in
      ret (ConstraintName_Function name ty)
  | _ => fail mk_Invalid
  end.

#[export] Instance ConstraintName_wire : Wire ConstraintName := {| put := put_ConstraintName; get := get_ConstraintName |}.

Definition put_ConstraintExpr (self : ConstraintExpr) : Put :=
  let 'mk_ConstraintExpr name ty := self in
  put name ;;;
  put ty.

Definition get_ConstraintExpr : Get ConstraintExpr :=
  let? name := get in
  let? ty := get in
  ret (mk_ConstraintExpr name ty).

#[export] Instance ConstraintExpr_wire : Wire ConstraintExpr := {| put := put_ConstraintExpr; get := get_ConstraintExpr |}.

Definition put_FunctionDecl (self : FunctionDecl) : Put :=
  let 'mk_FunctionDecl doc name regions recursion visibility exported constant pure parameters result
    constraints body contracts := self in
  put_doc doc ;;;
  put name ;;;
  put regions ;;;
  put recursion ;;;
  put visibility ;;;
  put exported ;;;
  put constant ;;;
  put pure ;;;
  put parameters ;;;
  put result ;;;
  put constraints ;;;
  if_full (put body ;;; put contracts) (ret tt).

Definition get_FunctionDecl : Get FunctionDecl :=
  let? doc := get in
  let? name := get in
  let? regions := get in
  let? recursion := get in
  let? visibility := get in
  let? exported := get in
  let? constant := get in
  let? pure := get in
  let? parameters := get in
  let? result := get in
  let? constraints := get in
  let? body := get in
  let? contracts := get in
  ret (mk_FunctionDecl doc name regions recursion visibility exported constant pure parameters result constraints body contracts).

#[export] Instance FunctionDecl_wire : Wire FunctionDecl := {| put := put_FunctionDecl; get := get_FunctionDecl |}.

Definition put_LinkName (self : LinkName) : Put :=
  let 'mk_LinkName module symbol span := self in
  put module ;;;
  put symbol ;;;
  put span.

Definition get_LinkName : Get LinkName :=
  let? module := get in
  let? symbol := get in
  let? span := get in
  ret (mk_LinkName module symbol span).

#[export] Instance LinkName_wire : Wire LinkName := {| put := put_LinkName; get := get_LinkName |}.

Definition put_SignatureDecl (self : SignatureDecl) : Put :=
  let 'mk_SignatureDecl doc name regions recursion visibility exported constant pure parameters result constraints link := self in
  put_doc doc ;;;
  put name ;;;
  put regions ;;;
  put recursion ;;;
  put visibility ;;;
  put exported ;;;
  put constant ;;;
  put pure ;;;
  put parameters ;;;
  put result ;;;
  put constraints ;;;
  put link.

Definition get_SignatureDecl : Get SignatureDecl :=
  let? doc := get in
  let? name := get in
  let? regions := get in
  let? recursion := get in
  let? visibility := get in
  let? exported := get in
  let? constant := get in
  let? pure := get in
  let? parameters := get in
  let? result := get in
  let? constraints := get in
  let? link := get in
  ret (mk_SignatureDecl doc name regions recursion visibility exported constant pure parameters result constraints link).

#[export] Instance SignatureDecl_wire : Wire SignatureDecl := {| put := put_SignatureDecl; get := get_SignatureDecl |}.

Definition put_ExternTypeDecl (self : ExternTypeDecl) : Put :=
  let 'mk_ExternTypeDecl doc visibility name := self in
  put_doc doc ;;;
  put visibility ;;;
  put name.

Definition get_ExternTypeDecl : Get ExternTypeDecl :=
  let? doc := get in
  let? visibility := get in
  let? name := get in
  ret (mk_ExternTypeDecl doc visibility name).

#[export] Instance ExternTypeDecl_wire : Wire ExternTypeDecl := {| put := put_ExternTypeDecl; get := get_ExternTypeDecl |}.

Definition put_Definition (self : Definition_) : Put :=
  let 'mk_Definition name pure recursion parameters body := self in
  put name ;;;
  put pure ;;;
  put recursion ;;;
  put parameters ;;;
  put body.

Definition get_Definition : Get Definition_ :=
  let? name := get in
  let? pure := get in
  let? recursion := get in
  let? parameters := get in
  let? body := get in
  ret (mk_Definition name pure recursion parameters body).

#[export] Instance Definition_wire : Wire Definition_ := {| put := put_Definition; get := get_Definition |}.

Fixpoint put_Kind (self : Kind) : Put :=
  nest match self with
  | Kind_Type => Writer.tag 0
  | Kind_Arrow argument result =>
      Writer.tag 1 ;;;
      put_Kind argument ;;;
      put_Kind result
  end.

Definition get_Kind_with (rec_Kind : Get Kind) : Get Kind :=
  nested (
    let? byte := Reader.byte in
    match uval byte with
    | 0 => ret Kind_Type
    | 1 =>
      let? argument := rec_Kind in
      let? result := rec_Kind in
      ret (Kind_Arrow argument result)
    | _ => fail mk_Invalid
    end).

Fixpoint get_Kind_fuel (fuel : nat) : Get Kind :=
  match fuel with
  | O => fail mk_Invalid
  | S fuel => get_Kind_with (get_Kind_fuel fuel)
  end.

#[export] Instance Kind_wire : Wire Kind := {| put := put_Kind; get := get_Kind_fuel MAX_DEPTH |}.

Definition put_ClassDecl (self : ClassDecl) : Put :=
  let 'mk_ClassDecl doc name variable kind superclasses methods defaults := self in
  put_doc doc ;;;
  put name ;;;
  put variable ;;;
  put kind ;;;
  put superclasses ;;;
  put methods ;;;
  put defaults.

Definition get_ClassDecl : Get ClassDecl :=
  let? doc := get in
  let? name := get in
  let? variable := get in
  let? kind := get in
  let? superclasses := get in
  let? methods := get in
  let? defaults := get in
  ret (mk_ClassDecl doc name variable kind superclasses methods defaults).

#[export] Instance ClassDecl_wire : Wire ClassDecl := {| put := put_ClassDecl; get := get_ClassDecl |}.

Definition put_InstanceDecl (self : InstanceDecl) : Put :=
  let 'mk_InstanceDecl class ty constraints methods := self in
  put class ;;;
  put ty ;;;
  put constraints ;;;
  if_full (put methods) (
    Writer.number (len methods) ;;;
    put_each (fun method =>
      let 'mk_Definition name pure recursion parameters _ := method in
      put name ;;;
      put pure ;;;
      put recursion ;;;
      put parameters) methods).

Definition get_InstanceDecl : Get InstanceDecl :=
  let? class := get in
  let? ty := get in
  let? constraints := get in
  let? methods := get in
  ret (mk_InstanceDecl class ty constraints methods).

#[export] Instance InstanceDecl_wire : Wire InstanceDecl := {| put := put_InstanceDecl; get := get_InstanceDecl |}.

#[export] Instance NoncanonicalKind_wire : Wire NoncanonicalKind :=
  {| put := put_enum NoncanonicalKind_variants; get := get_enum NoncanonicalKind_variants |}.

#[export] Instance FixLevel_wire : Wire FixLevel :=
  {| put := put_enum FixLevel_variants; get := get_enum FixLevel_variants |}.

Definition put_TextEdit (self : TextEdit) : Put :=
  let 'mk_TextEdit span text := self in
  put span ;;;
  put text.

Definition get_TextEdit : Get TextEdit :=
  let? span := get in
  let? text := get in
  ret (mk_TextEdit span text).

#[export] Instance TextEdit_wire : Wire TextEdit := {| put := put_TextEdit; get := get_TextEdit |}.

Definition put_Noncanonical (self : Noncanonical) : Put :=
  let 'mk_Noncanonical kind span spelling canonical level edits := self in
  put kind ;;;
  put span ;;;
  put spelling ;;;
  put canonical ;;;
  put level ;;;
  put edits.

Definition get_Noncanonical : Get Noncanonical :=
  let? kind := get in
  let? span := get in
  let? spelling := get in
  let? canonical := get in
  let? level := get in
  let? edits := get in
  ret (mk_Noncanonical kind span spelling canonical level edits).

#[export] Instance Noncanonical_wire : Wire Noncanonical := {| put := put_Noncanonical; get := get_Noncanonical |}.

Definition put_Program (self : Program_) : Put :=
  let 'mk_Program source_kind namespace usings type_aliases constants externs extern_types records
    unions functions classes instances active_patterns tests benches entry dyn_types
    cpu_attributes effect_attributes trusted noncanonical aliases declaration_starts := self in
  put source_kind ;;;
  put namespace ;;;
  put usings ;;;
  put type_aliases ;;;
  put constants ;;;
  put externs ;;;
  put extern_types ;;;
  put records ;;;
  put unions ;;;
  put functions ;;;
  put classes ;;;
  put instances ;;;
  put active_patterns ;;;
  if_full (put tests ;;; put benches ;;; put entry) (ret tt) ;;;
  put dyn_types ;;;
  put cpu_attributes ;;;
  put effect_attributes ;;;
  put trusted ;;;
  put aliases ;;;
  if_full (put declaration_starts ;;; put noncanonical) (ret tt).

Definition get_Program : Get Program_ :=
  let? source_kind := get in
  let? namespace := get in
  let? usings := get in
  let? type_aliases := get in
  let? constants := get in
  let? externs := get in
  let? extern_types := get in
  let? records := get in
  let? unions := get in
  let? functions := get in
  let? classes := get in
  let? instances := get in
  let? active_patterns := get in
  let? tests := get in
  let? benches := get in
  let? entry := get in
  let? dyn_types := get in
  let? cpu_attributes := get in
  let? effect_attributes := get in
  let? trusted := get in
  let? aliases := get in
  let? declaration_starts := get in
  let? noncanonical := get in
  ret (mk_Program source_kind namespace usings type_aliases constants externs extern_types records unions functions classes instances active_patterns tests benches entry dyn_types cpu_attributes effect_attributes trusted noncanonical aliases declaration_starts).

#[export] Instance Program_wire : Wire Program_ := {| put := put_Program; get := get_Program |}.

(** ** Entry points *)

Definition encode_within (program : Program_) (source : usize) (mode : Mode) (limit : nat)
    : Result (list u8) Invalid :=
  match put program (Writer.new mode source limit) with
  | (Ok _, out) => Ok (w_bytes out)
  | (Err e, _) => Err e
  end.

Definition encode (program : Program_) (source : usize) (mode : Mode) : Result (list u8) Invalid :=
  encode_within program source mode MAX_DEPTH.

Definition decode (bytes : list u8) (source : usize) : Result Program_ Invalid :=
  match get (mk_Reader bytes 0 source 0) with
  | (Ok program, input) =>
    if decide (r_at input = length bytes) then Ok program else Err mk_Invalid
  | (Err e, _) => Err e
  end.
