(* ===== verification/WireLaws.v ===== *)
(** * Laws of the writer and the reader

    The interface [Codec] that a [put]/[get] pair promises, and the combinator lemmas that build the
    [Codec] of a struct or an enum from those of its fields. *)
From S2P Require Import Prelude Wire.
Local Open Scope nat_scope.
Local Open Scope monad_scope.

(** ** What one codec promises *)

(** A [Vec<u8>] holds fewer than [2 ^ 64] bytes. *)
Definition fits (bs : list u8) : Prop := (N.of_nat (length bs) < 2 ^ 64)%N.

(** Reading at [r] consumed exactly [bs] and left [r']. *)
Definition consumes (r : Reader) (bs : list u8) (r' : Reader) : Prop :=
  r' = Reader.set_at r (r_at r + length bs) /\
  take (length bs) (drop (r_at r) (r_bytes r)) = bs /\
  r_at r + length bs <= length (r_bytes r).

(** A well-formed reader has not read past its bytes. *)
Definition reader_ok (r : Reader) : Prop := r_at r <= length (r_bytes r).

(** At depth [d] of source [src], [g] reads [bs], whatever surrounds it, as [a]. *)
Definition reads {A} (g : Get A) (d : nat) (src : usize) (bs : list u8) (a : A) : Prop :=
  forall pre suf,
  g (mk_Reader (pre ++ bs ++ suf) (length pre) src d) =
  (Ok a, mk_Reader (pre ++ bs ++ suf) (length pre + length bs) src d).

(** At depth [d] of source [src], a full writer that may go at least as deep as the reader turns
    [m] into [bs]. *)
Definition emits (d : nat) (src : usize) (m : Put) (bs : list u8) : Prop :=
  forall w, w_mode w = Mode_Full -> w_source w = src -> w_depth w = d -> MAX_DEPTH <= w_limit w ->
  m w = (Ok tt, Writer.extend w bs).

(** Round trip: what [m] writes in full mode, [g] reads back as [a]; [n] bytes at least. *)
Definition RT {A} (d : nat) (m : Put) (g : Get A) (a : A) (n : nat) : Prop :=
  forall w w', w_mode w = Mode_Full -> w_depth w = d -> w_limit w <= MAX_DEPTH ->
  m w = (Ok tt, w') ->
  exists bs, w' = Writer.extend w bs /\ n <= length bs /\ (fits bs -> reads g d (w_source w) bs a).

(** Canonicity: whatever [g] accepts, it consumed bytes that satisfy [Q]. *)
Definition CN {A} (d : nat) (src : usize) (g : Get A) (Q : A -> list u8 -> Prop) : Prop :=
  forall r a r', r_depth r = d -> r_source r = src -> reader_ok r -> g r = (Ok a, r') ->
  exists bs, consumes r bs r' /\ Q a bs.

(** Reading moves forward inside the bytes and changes nothing else, on success and on error. *)
Definition frame (r r' : Reader) : Prop :=
  r' = Reader.set_at r (r_at r') /\ r_at r <= r_at r' <= length (r_bytes r).

Definition RF {A} (g : Get A) : Prop := forall r, reader_ok r -> frame r (snd (g r)).

(** With [n] levels left, writing appends and changes nothing else, on success and on error. *)
Definition WF (n : nat) (m : Put) : Prop :=
  forall w, w_limit w - w_depth w <= n -> exists bs, snd (m w) = Writer.extend w bs.

Definition set_source (r : Reader) (src : usize) : Reader :=
  mk_Reader (r_bytes r) (r_at r) src (r_depth r).

(** [g1] and [g2] do the same on readers that differ in the source only, up to [R]. *)
Definition SIM {A} (R : A -> A -> Prop) (g1 g2 : Get A) : Prop :=
  forall r src,
  snd (g2 (set_source r src)) = set_source (snd (g1 r)) src /\
  match fst (g1 r), fst (g2 (set_source r src)) with
  | Ok a, Ok b => R a b
  | Err _, Err _ => True
  | _, _ => False
  end.

Definition any {A} (_ _ : A) : Prop := True.

(** The contract of one [Wire] impl at depth [d]. *)
Record Codec {A} (d : nat) (p : A -> Put) (g : Get A) : Prop := mk_Codec {
  codec_rt : forall a, RT d (p a) g a 1;
  codec_cn : forall src, CN d src g (fun a bs => emits d src (p a) bs) }.

(** What holds of a [Wire] impl on success and on error, with [n] levels left to the writer. *)
Record Framed {A} (n : nat) (p : A -> Put) (g : Get A) : Prop := mk_Framed {
  framed_rf : RF g;
  framed_wf : forall a, WF n (p a);
  framed_sim : SIM any g g }.

Class WireLaws (A : Type) `{Wire A} : Prop := {
  wire_codec d : Codec d put get;
  wire_framed n : Framed n put get }.

(** ** Algebra of the relations *)

Lemma extend_extend w bs1 bs2 :
  Writer.extend (Writer.extend w bs1) bs2 = Writer.extend w (bs1 ++ bs2).
Proof. unfold Writer.extend; simpl. by rewrite app_assoc. Qed.

Lemma extend_nil w : Writer.extend w [] = w.
Proof. destruct w. unfold Writer.extend; simpl. by rewrite app_nil_r. Qed.

Lemma extend_inj w bs1 bs2 : Writer.extend w bs1 = Writer.extend w bs2 -> bs1 = bs2.
Proof. intros H. apply (f_equal w_bytes) in H. simpl in H. by apply app_inv_head in H. Qed.

Lemma fits_app bs1 bs2 : fits (bs1 ++ bs2) -> fits bs1 /\ fits bs2.
Proof. unfold fits. rewrite length_app. lia. Qed.

Lemma consumes_nil r : reader_ok r -> consumes r [] r.
Proof.
  unfold reader_ok, consumes, Reader.set_at. intros. simpl. rewrite Nat.add_0_r.
  by destruct r.
Qed.

Lemma consumes_trans r1 bs1 r2 bs2 r3 :
  consumes r1 bs1 r2 -> consumes r2 bs2 r3 -> consumes r1 (bs1 ++ bs2) r3.
Proof.
  intros (-> & E1 & L1) (-> & E2 & L2). unfold consumes, Reader.set_at in *; simpl in *.
  rewrite length_app. split; [f_equal; lia|]. split; [|lia].
  rewrite <- take_take_drop, drop_drop, E1. by f_equal.
Qed.

Lemma consumes_ok r bs r' : consumes r bs r' -> reader_ok r'.
Proof. intros (-> & _ & ?). done. Qed.

Lemma consumes_depth r bs r' : consumes r bs r' -> r_depth r' = r_depth r.
Proof. by intros (-> & _). Qed.

Lemma consumes_source r bs r' : consumes r bs r' -> r_source r' = r_source r.
Proof. by intros (-> & _). Qed.

Lemma frame_refl r : reader_ok r -> frame r r.
Proof. unfold reader_ok. intros. split; [by destruct r|lia]. Qed.

Lemma frame_trans r1 r2 r3 : frame r1 r2 -> frame r2 r3 -> frame r1 r3.
Proof.
  intros [E1 L1] [E2 L2]. rewrite E1 in E2, L2. split; [done|]. simpl in *. lia.
Qed.

Lemma frame_ok r r' : frame r r' -> reader_ok r'.
Proof. intros [-> L]. unfold reader_ok; simpl in *. lia. Qed.

(** ** Monadic combinators *)

Section combinators.
Context {A B : Type}.

Lemma reads_ret {C} d src (a : C) : reads (ret a) d src [] a.
Proof. intros pre suf. unfold ret. repeat f_equal. simpl. lia. Qed.

Lemma reads_bind d src (g : Get A) (k : A -> Get B) bs1 bs2 a b :
  reads g d src bs1 a -> reads (k a) d src bs2 b ->
  reads (bind g k) d src (bs1 ++ bs2) b.
Proof.
  intros H1 H2 pre suf. unfold bind. rewrite <- app_assoc, H1.
  specialize (H2 (pre ++ bs1) suf).
  rewrite !length_app, <- !app_assoc in H2. rewrite H2, length_app.
  by rewrite Nat.add_assoc.
Qed.

Lemma RT_ret d (a : A) : RT d (ret tt) (ret a) a 0.
Proof.
  intros w w' _ _ _ H. monad_inv. exists []. rewrite extend_nil.
  split_and!; [done|simpl; lia|intros _; apply reads_ret].
Qed.

Lemma RT_weaken {C} d m (g : Get C) a n n' : RT d m g a n -> n' <= n -> RT d m g a n'.
Proof.
  intros H Hn w w' Hm Hd Hl E. destruct (H w w') as (bs & ? & ? & ?); [done..|].
  exists bs. split_and!; [done|lia|done].
Qed.

Lemma RT_bind d m1 m2 (g : Get A) (k : A -> Get B) a b n1 n2 :
  RT d m1 g a n1 -> RT d m2 (k a) b n2 -> RT d (m1 ;;; m2) (bind g k) b (n1 + n2).
Proof.
  intros H1 H2 w w' Hm Hd Hl H. apply bind_Ok in H as ([] & w1 & E1 & E2).
  destruct (H1 w w1) as (bs1 & -> & Hn1 & Hr1); [done..|].
  destruct (H2 (Writer.extend w bs1) w' Hm Hd Hl E2) as (bs2 & -> & Hn2 & Hr2).
  exists (bs1 ++ bs2). rewrite extend_extend, length_app.
  split_and!; [done|lia|]. intros [? ?]%fits_app. eapply reads_bind; eauto.
Qed.

(** A field that is not the last one. *)
Lemma RT_field d m1 m2 (g : Get A) (k : A -> Get B) a b n :
  RT d m1 g a 1 -> n <= 1 -> RT d m2 (k a) b 0 -> RT d (m1 ;;; m2) (bind g k) b n.
Proof. intros H1 Hn H2. exact (RT_weaken _ _ _ _ _ _ (RT_bind _ _ _ _ _ _ _ 1 0 H1 H2) Hn). Qed.

(** The last field. *)
Lemma RT_last d m (g : Get A) (k : A -> Get B) a b n :
  RT d m g a 1 -> n <= 1 -> k a = ret b -> RT d m (bind g k) b n.
Proof.
  intros H1 Hn Hk w w' Hm Hd Hl H.
  destruct (H1 w w') as (bs & -> & ? & Hr); [done..|].
  exists bs. split_and!; [done|lia|]. intros Hf.
  rewrite <- (app_nil_r bs). eapply reads_bind; [by apply Hr|]. rewrite Hk. apply reads_ret.
Qed.

Lemma RT_if_full d m1 m2 (g : Get A) a n : RT d m1 g a n -> RT d (if_full m1 m2) g a n.
Proof.
  intros H w w' Hm Hd Hl Hw. apply H; [done..|].
  unfold if_full, Writer.full in Hw. by rewrite Hm in Hw.
Qed.

Lemma RT_fail d (g : Get A) a n : RT d (fail mk_Invalid) g a n.
Proof. intros w w' _ _ _ H. monad_inv. Qed.

Lemma RT_nest d m (g : Get A) a n : RT (S d) m g a n -> RT d (nest m) (nested g) a n.
Proof.
  intros H w w' Hm Hd Hl Hw. unfold nest, Writer.enter in Hw.
  destruct (Nat.leb_spec (w_limit w) (w_depth w)) as [|Hlt]; [done|].
  destruct (m _) as [[[]|] w1] eqn:Em; simplify_eq.
  apply H in Em as (bs & -> & Hn & Hr); [|done..].
  exists bs. split_and!; [destruct w; by unfold Writer.leave, Writer.set_depth, Writer.extend|done|].
  intros Hf pre suf. specialize (Hr Hf pre suf). unfold nested, Reader.enter. cbn [r_depth].
  rewrite (proj2 (Nat.leb_gt MAX_DEPTH (w_depth w))) by lia.
  change (Reader.set_depth _ _) with
    (mk_Reader (pre ++ bs ++ suf) (length pre) (w_source w) (S (w_depth w))).
  simpl in Hr. by rewrite Hr.
Qed.

Lemma CN_ret d src (a : A) (Q : A -> list u8 -> Prop) : Q a [] -> CN d src (ret a) Q.
Proof. intros HQ r b r' _ _ Hok H. monad_inv. eauto using consumes_nil. Qed.

Lemma CN_fail d src (Q : A -> list u8 -> Prop) e : CN d src (fail e) Q.
Proof. intros r b r' _ _ _ H. monad_inv. Qed.

Lemma CN_bind d src (g : Get A) (k : A -> Get B) (P : A -> list u8 -> Prop) Q :
  CN d src g P ->
  (forall a bs1, P a bs1 -> CN d src (k a) (fun b bs2 => Q b (bs1 ++ bs2))) ->
  CN d src (bind g k) Q.
Proof.
  intros H1 H2 r b r' Hd Hs Hok H. apply bind_Ok in H as (a & r1 & E1 & E2).
  destruct (H1 r a r1) as (bs1 & Hc1 & HP); [done..|].
  destruct (H2 a bs1 HP r1 b r') as (bs2 & Hc2 & HQ); [..|by eauto using consumes_trans].
  - by rewrite (consumes_depth _ _ _ Hc1).
  - by rewrite (consumes_source _ _ _ Hc1).
  - by eapply consumes_ok.
  - done.
Qed.

Lemma CN_impl d src (g : Get A) (P Q : A -> list u8 -> Prop) :
  CN d src g P -> (forall a bs, P a bs -> Q a bs) -> CN d src g Q.
Proof. intros H HPQ r a r' ????. destruct (H r a r') as (bs & ? & ?); eauto. Qed.

Lemma CN_nested d src (g : Get A) (Q : A -> list u8 -> Prop) :
  CN (S d) src g Q -> CN d src (nested g) (fun a bs => Q a bs /\ d < MAX_DEPTH).
Proof.
  intros H r a r' Hd Hs Hok Hr. unfold nested, Reader.enter in Hr.
  destruct (Nat.leb_spec MAX_DEPTH (r_depth r)) as [|Hlt]; [done|].
  destruct (g _) as [x r1] eqn:Eg. simplify_eq.
  destruct (H (Reader.set_depth r (S (r_depth r))) a r1) as (bs & (-> & Ht & Hl) & HQ); [done..|].
  exists bs. split; [|done]. split_and!; [by destruct r|done|done].
Qed.
End combinators.

Section emits.
Lemma emits_ret d src : emits d src (ret tt) [].
Proof. intros w ????. by rewrite extend_nil. Qed.

Lemma emits_seq d src m1 m2 bs1 bs2 :
  emits d src m1 bs1 -> emits d src m2 bs2 -> emits d src (m1 ;;; m2) (bs1 ++ bs2).
Proof.
  intros H1 H2 w ????. unfold bind. rewrite H1 by done. rewrite H2 by done.
  by rewrite extend_extend.
Qed.

Lemma emits_last d src m bs : emits d src m bs -> emits d src m (bs ++ []).
Proof. by rewrite app_nil_r. Qed.

Lemma emits_if_full d src m1 m2 bs : emits d src m1 bs -> emits d src (if_full m1 m2) bs.
Proof. intros H w Hm ???. unfold if_full, Writer.full. rewrite Hm. by apply H. Qed.

Lemma emits_nest d src m bs :
  emits (S d) src m bs -> d < MAX_DEPTH -> emits d src (nest m) bs.
Proof.
  intros H Hlt w Hm Hs Hd Hl. unfold nest, Writer.enter.
  destruct (Nat.leb_spec (w_limit w) (w_depth w)) as [|_]; [lia|].
  rewrite H by (simpl; congruence || done). by destruct w.
Qed.
End emits.

(** ** Framing and source independence *)

Section framing.
Context {A B : Type}.

Lemma RF_ret (a : A) : RF (ret a).
Proof. intros r. apply frame_refl. Qed.

Lemma RF_fail e : RF (A := A) (fail e).
Proof. intros r. apply frame_refl. Qed.

Lemma RF_ok_or (o : option A) e : RF (ok_or o e).
Proof. destruct o; [apply RF_ret|apply RF_fail]. Qed.

Lemma RF_bind (g : Get A) (k : A -> Get B) : RF g -> (forall a, RF (k a)) -> RF (bind g k).
Proof.
  intros H1 H2 r Hok. unfold bind. specialize (H1 r Hok).
  destruct (g r) as [[a|e] r1]; simpl in *; [|done].
  eapply frame_trans; [done|]. apply H2. by eapply frame_ok.
Qed.

Lemma RF_nested (g : Get A) : RF g -> RF (nested g).
Proof.
  intros H r Hok. unfold nested, Reader.enter.
  destruct (MAX_DEPTH <=? r_depth r); [by apply frame_refl|].
  specialize (H (Reader.set_depth r (S (r_depth r))) Hok).
  destruct (g _) as [x r1]; simpl in *. destruct H as [-> H].
  split; [by destruct r|done].
Qed.

Lemma WF_ret n : WF n (ret tt).
Proof. intros w _. exists []. by rewrite extend_nil. Qed.

Lemma WF_fail n e : WF n (fail e).
Proof. intros w _. exists []. by rewrite extend_nil. Qed.

Lemma WF_extend n bs : WF n (Writer.extend_from_slice bs).
Proof. intros w _. by exists bs. Qed.

Lemma WF_bind n m1 m2 : WF n m1 -> WF n m2 -> WF n (m1 ;;; m2).
Proof.
  intros H1 H2 w Hn. unfold bind. destruct (H1 w Hn) as [bs1 E1].
  destruct (m1 w) as [[a|e] w1]; simpl in *; subst; [|by exists bs1].
  destruct (H2 (Writer.extend w bs1) Hn) as [bs2 ->]. exists (bs1 ++ bs2). apply extend_extend.
Qed.

Lemma WF_if_full n m1 m2 : WF n m1 -> WF n m2 -> WF n (if_full m1 m2).
Proof. intros H1 H2 w Hn. unfold if_full. destruct (Writer.full w); eauto. Qed.

Lemma WF_nest_0 m : WF 0 (nest m).
Proof.
  intros w Hn. unfold nest, Writer.enter.
  destruct (Nat.leb_spec (w_limit w) (w_depth w)); [exists []; by rewrite extend_nil|lia].
Qed.

Lemma WF_nest n m : WF n m -> WF (S n) (nest m).
Proof.
  intros H w Hn. unfold nest, Writer.enter.
  destruct (Nat.leb_spec (w_limit w) (w_depth w)); [exists []; by rewrite extend_nil|].
  destruct (H (Writer.set_depth w (S (w_depth w)))) as [bs E]; [simpl; lia|].
  destruct (m _) as [x w1]; simpl in *; subst. exists bs. by destruct w.
Qed.

Lemma SIM_ret (R : A -> A -> Prop) a b : R a b -> SIM R (ret a) (ret b).
Proof. by intros H r src. Qed.

Lemma SIM_fail (R : A -> A -> Prop) e : SIM R (fail e) (fail e).
Proof. by intros r src. Qed.

Lemma SIM_ok_or (o : option A) e : SIM eq (ok_or o e) (ok_or o e).
Proof. destruct o; [by apply SIM_ret|apply SIM_fail]. Qed.

Lemma SIM_any (R : A -> A -> Prop) g : SIM R g g -> SIM any g g.
Proof.
  intros H r src. destruct (H r src) as [E H']. split; [done|].
  by destruct (fst (g r)), (fst (g (set_source r src))).
Qed.

Lemma SIM_bind (R : A -> A -> Prop) (R' : B -> B -> Prop) g1 g2 k1 k2 :
  SIM R g1 g2 -> (forall a b, R a b -> SIM R' (k1 a) (k2 b)) ->
  SIM R' (bind g1 k1) (bind g2 k2).
Proof.
  intros H1 H2 r src. specialize (H1 r src). unfold bind.
  destruct (g1 r) as [[a|e] r1], (g2 (set_source r src)) as [[b|e'] r2]; simpl in *;
    destruct H1 as [-> H1]; try done. by apply H2.
Qed.

Lemma SIM_nested (R : A -> A -> Prop) g1 g2 : SIM R g1 g2 -> SIM R (nested g1) (nested g2).
Proof.
  intros H r src. unfold nested, Reader.enter.
  change (r_depth (set_source r src)) with (r_depth r).
  destruct (MAX_DEPTH <=? r_depth r); [done|].
  specialize (H (Reader.set_depth r (S (r_depth r))) src).
  change (Reader.set_depth (set_source r src) (S (r_depth r))) with
    (set_source (Reader.set_depth r (S (r_depth r))) src).
  destruct (g1 _) as [x1 r1], (g2 _) as [x2 r2]; simpl in *. by destruct H as [-> H].
Qed.
End framing.
