(* ===== verification/WirePrims.v ===== *)
(** * Numbers in groups of seven bits, and the primitive impls

    [Writer.number] writes the list [leb128]; [Reader.number] reads exactly those lists. Integers, fieldless enums,
    [bool], [char], [String], sequences, options and pairs keep the contract of [WireLaws.Codec]. *)
From Stdlib Require Import NArith.
From S2P Require Import Prelude Wire WireLaws.
Local Open Scope N_scope.
Local Open Scope monad_scope.

(** The seven-bit groups of a number, low group first, in at most [fuel] bytes. *)
Fixpoint leb128 (fuel : nat) (value : N) : list u8 :=
  match fuel with
  | O => []
  | S fuel =>
    if value / 128 =? 0 then [uint_wrap 8 (value mod 128)]
    else uint_wrap 8 (value mod 128 + 128) :: leb128 fuel (value / 128)
  end.

(** ** Bits of a byte *)

Lemma lor_add a b s : a < 2 ^ s -> N.lor a (N.shiftl b s) = a + b * 2 ^ s.
Proof.
  intros Ha. rewrite <- N.shiftl_mul_pow2.
  assert (N.land a (N.shiftl b s) = 0) as H.
  { apply N.bits_inj. intros i. rewrite N.land_spec, N.bits_0.
    destruct (N.lt_ge_cases i s) as [Hi|Hi].
    - by rewrite N.shiftl_spec_low, andb_false_r.
    - rewrite <- (N.mod_small a (2 ^ s)) by done. by rewrite N.mod_pow2_bits_high. }
  by rewrite N.add_nocarry_lxor, N.lxor_lor.
Qed.

Lemma land_low a : N.land a 127 = a mod 128.
Proof. exact (N.land_ones a 7). Qed.

Lemma shiftr_7 a : N.shiftr a 7 = a / 128.
Proof. exact (N.shiftr_div_pow2 a 7). Qed.

Lemma lor_high a : a < 128 -> N.lor a 128 = a + 128.
Proof. intros. exact (lor_add a 1 7 H). Qed.

Lemma land_high a : a < 256 -> (N.land a 128 =? 0) = (a <? 128).
Proof.
  intros Ha. replace 128 with (2 ^ 7) at 1 by done.
  destruct (N.ltb_spec a 128) as [H|H].
  - apply N.eqb_eq, N.bits_inj. intros i. rewrite N.land_spec, N.bits_0, N.pow2_bits_eqb.
    destruct (N.eqb_spec 7 i) as [<-|]; [|by rewrite andb_false_r].
    rewrite <- (N.mod_small a (2 ^ 7)) by done. by rewrite N.mod_pow2_bits_high.
  - apply N.eqb_neq. intros E. assert (N.testbit (N.land a (2 ^ 7)) 7 = true) as Ht; [|by rewrite E in Ht].
    rewrite N.land_spec, N.pow2_bits_true, andb_true_r.
    apply N.testbit_true. change (2 ^ 7) with 128.
    replace (a / 128) with 1; [done|]. apply (N.div_unique a 128 1 (a - 128)); lia.
Qed.

Lemma byte_bound (b : u8) : uval b < 256.
Proof. exact (uval_bound b). Qed.

Lemma pow_split s : s <= 121 -> 2 ^ (128 - s) = 128 * 2 ^ (128 - (s + 7)).
Proof. intros. change 128 with (2 ^ 7) at 2. rewrite <- N.pow_add_r. f_equal. lia. Qed.

(** ** Bytes *)

Lemma reads_byte d src b : reads Reader.byte d src [b] b.
Proof.
  intros pre suf. unfold Reader.byte; simpl.
  rewrite lookup_app_r, Nat.sub_diag by lia. simpl. unfold Reader.set_at; simpl.
  by rewrite Nat.add_1_r.
Qed.

Lemma RT_byte d b : RT d (Writer.byte b) Reader.byte b 1.
Proof.
  intros w w' _ _ _ E. unfold Writer.byte, Writer.extend_from_slice in E. simplify_eq.
  exists [b]. split_and!; [done|simpl; lia|]. intros _. apply reads_byte.
Qed.

Lemma emits_byte d src b : emits d src (Writer.byte b) [b].
Proof. by intros w. Qed.

Lemma CN_byte d src : CN d src Reader.byte (fun b bs => bs = [b]).
Proof.
  intros r b r' _ _ Hok E. unfold Reader.byte in E.
  destruct (r_bytes r !! r_at r) as [b'|] eqn:El; simplify_eq.
  exists [b]. split; [|done]. split_and!.
  - unfold Reader.set_at; simpl. by rewrite Nat.add_1_r.
  - simpl. apply drop_S in El. rewrite El. by rewrite firstn_cons, take_0.
  - simpl. apply lookup_lt_Some in El. lia.
Qed.

Lemma RF_byte : RF Reader.byte.
Proof.
  intros r Hok. unfold Reader.byte. destruct (r_bytes r !! r_at r) eqn:El; [|by apply frame_refl].
  apply lookup_lt_Some in El. unfold frame, Reader.set_at; simpl. split; [done|lia].
Qed.

Lemma SIM_byte : SIM eq Reader.byte Reader.byte.
Proof. intros r src. unfold Reader.byte; simpl. by destruct (r_bytes r !! r_at r). Qed.

(** ** Numbers *)

(** The shifts from [s] on, [k] of them. *)
Fixpoint shifts_from (s : N) (k : nat) : list N :=
  match k with O => [] | S k => s :: shifts_from (s + 7) k end.

Lemma shifts_eq : Reader.shifts = shifts_from 0 19.
Proof. reflexivity. Qed.

Lemma write_number_loop fuel v w :
  v < 128 ^ N.of_nat fuel -> (0 < fuel)%nat ->
  Writer.number_loop fuel v w = (Ok tt, Writer.extend w (leb128 fuel v)).
Proof.
  revert v w. induction fuel as [|fuel IH]; intros v w Hv Hf; [lia|].
  cbn [Writer.number_loop leb128]. rewrite land_low, shiftr_7.
  assert (v mod 128 < 128) as Hm by (apply N.mod_lt; lia).
  destruct (N.eqb_spec (v / 128) 0) as [|Hn]; [done|].
  unfold bind, Writer.byte, Writer.extend_from_slice. rewrite lor_high by done.
  rewrite Nat2N.inj_succ, N.pow_succ_r' in Hv.
  rewrite IH.
  - by rewrite extend_extend.
  - by apply N.Div0.div_lt_upper_bound.
  - destruct fuel; [|lia]. simpl in Hv. rewrite N.div_small in Hn; lia.
Qed.

Lemma leb128_length k v : (0 < k)%nat -> (1 <= length (leb128 k v) <= k)%nat.
Proof.
  revert v. induction k as [|k IH]; intros v Hk; [lia|]. cbn [leb128].
  destruct (_ =? 0); simpl; [lia|]. destruct k; [simpl; lia|].
  specialize (IH (v / 128) ltac:(lia)). lia.
Qed.

Lemma reads_number_loop d src k s acc v :
  s + 7 * N.of_nat k = 133 -> (0 < k)%nat -> acc < 2 ^ s -> v < 2 ^ (128 - s) ->
  (s <> 0 -> v <> 0) ->
  reads (Reader.number_loop (shifts_from s k) acc) d src (leb128 k v)
    (uint_wrap 128 (acc + v * 2 ^ s)).
Proof.
  revert s acc v. induction k as [|k IH]; intros s acc v Hs Hk Ha Hv H0; [lia|].
  cbn [shifts_from Reader.number_loop leb128].
  assert (v mod 128 < 128) as Hm by (apply N.mod_lt; lia).
  pose proof (N.div_mod v 128 ltac:(lia)) as Hdm.
  destruct (N.eqb_spec (v / 128) 0) as [E|E].
  - change (reads ?g d src [?b] ?a) with (reads g d src ([b] ++ []) a).
    eapply reads_bind; [apply reads_byte|]. cbv beta.
    apply N.div_small_iff in E; [|lia]. rewrite (N.mod_small v 128) by lia.
    rewrite uval_wrap_small by (change (2 ^ 8) with 256; lia).
    rewrite land_low, land_high, (N.mod_small v 128) by lia.
    rewrite lor_add by done.
    rewrite (proj2 (N.ltb_lt v 128)) by done.
    replace ((s =? 126) && (3 <? v)) with false.
    2: { symmetry. apply andb_false_iff. destruct (N.eqb_spec s 126) as [->|]; [right|by left].
         apply N.ltb_ge. change (2 ^ (128 - 126)) with 4 in Hv. lia. }
    replace ((v =? 0) && negb (s =? 0)) with false; [apply reads_ret|].
    symmetry. apply andb_false_iff. destruct (N.eqb_spec s 0) as [->|Hn]; [by right|left].
    apply N.eqb_neq. by apply H0.
  - change (reads ?g d src (?b :: ?bs) ?a) with (reads g d src ([b] ++ bs) a).
    eapply reads_bind; [apply reads_byte|]. cbv beta.
    assert (s <= 121) as Hs'.
    { destruct (N.le_gt_cases s 121) as [|Hgt]; [done|]. exfalso. apply E. apply N.div_small.
      assert (k = 0%nat) as -> by lia. assert (s = 126) as -> by lia.
      change (2 ^ (128 - 126)) with 4 in Hv. lia. }
    rewrite uval_wrap_small by (change (2 ^ 8) with 256; lia).
    rewrite land_low, land_high by lia.
    rewrite (proj2 (N.ltb_ge (v mod 128 + 128) 128)) by apply N.le_add_l.
    replace ((v mod 128 + 128) mod 128) with (v mod 128).
    2: { change 128 with (1 * 128) at 3. rewrite N.Div0.mod_add, N.Div0.mod_mod. done. }
    rewrite lor_add by done.
    replace (s =? 126) with false by (symmetry; apply N.eqb_neq; lia). cbn [andb].
    assert (0 < 2 ^ s) as Hp by (apply N.neq_0_lt_0, N.pow_nonzero; lia).
    replace (acc + v * 2 ^ s) with (acc + v mod 128 * 2 ^ s + v / 128 * 2 ^ (s + 7)).
    2: { rewrite N.pow_add_r. change (2 ^ 7) with 128. rewrite Hdm at 3. lia. }
    rewrite pow_split in Hv by done.
    assert (v mod 128 * 2 ^ s <= 127 * 2 ^ s) by (apply N.mul_le_mono_r; lia).
    apply IH; [lia|lia| |by apply N.Div0.div_lt_upper_bound|done].
    rewrite N.pow_add_r. change (2 ^ 7) with 128. lia.
Qed.

Lemma CN_number_loop d src k s acc :
  s + 7 * N.of_nat k = 133 -> acc < 2 ^ s ->
  CN d src (Reader.number_loop (shifts_from s k) acc) (fun n bs => exists v,
    bs = leb128 k v /\ n = uint_wrap 128 (acc + v * 2 ^ s) /\ v < 2 ^ (128 - s) /\
    (s <> 0 -> v <> 0)).
Proof.
  revert s acc. induction k as [|k IH]; intros s acc Hs Ha; [apply CN_fail|].
  cbn [shifts_from Reader.number_loop].
  eapply CN_bind; [apply CN_byte|]. intros b bs ->. cbv beta.
  pose proof (byte_bound b) as Hb. rewrite land_low, land_high, lor_add by done.
  assert (uval b mod 128 < 128) as Hm by (apply N.mod_lt; lia).
  destruct ((s =? 126) && (3 <? uval b mod 128)) eqn:E1; [apply CN_fail|].
  destruct (N.ltb_spec (uval b) 128) as [Hlt|Hge].
  - rewrite (N.mod_small (uval b) 128) in * by done.
    destruct ((uval b =? 0) && negb (s =? 0)) eqn:E2; [apply CN_fail|].
    apply CN_ret. exists (uval b). split_and!.
    + cbn [leb128 app]. rewrite N.div_small, N.mod_small by done. simpl. f_equal.
      symmetry. apply uint_wrap_uval.
    + done.
    + destruct (N.eqb_spec s 126) as [->|Hn].
      * cbn [andb] in E1. apply N.ltb_ge in E1. change (2 ^ (128 - 126)) with 4. lia.
      * rewrite pow_split by lia.
        assert (0 < 2 ^ (128 - (s + 7))) by (apply N.neq_0_lt_0, N.pow_nonzero; lia). nia.
    + intros Hn. apply andb_false_iff in E2 as [E2|E2].
      * by apply N.eqb_neq.
      * apply negb_false_iff, N.eqb_eq in E2. done.
  - destruct k as [|k']; [apply CN_fail|]. set (k := S k') in *.
    assert (0 < 2 ^ s) as Hp by (apply N.neq_0_lt_0, N.pow_nonzero; lia).
    assert (uval b mod 128 * 2 ^ s <= 127 * 2 ^ s) by (apply N.mul_le_mono_r; lia).
    eapply CN_impl; [apply IH; [lia|]|].
    { rewrite N.pow_add_r. change (2 ^ 7) with 128. lia. }
    intros n bs (v & -> & -> & Hv & Hv0).
    exists (uval b mod 128 + v * 128).
    assert ((uval b mod 128 + v * 128) / 128 = v) as Ed.
    { rewrite N.div_add, N.div_small by lia. lia. }
    assert ((uval b mod 128 + v * 128) mod 128 = uval b mod 128) as Em.
    { by rewrite N.Div0.mod_add, N.Div0.mod_mod. }
    assert (v <> 0) as Hv1 by (apply Hv0; lia).
    split_and!.
    + cbn [leb128 app]. rewrite Ed, Em. rewrite (proj2 (N.eqb_neq v 0)) by done. f_equal.
      apply uint_eq. rewrite uval_wrap_small by (change (2 ^ 8) with 256; lia).
      assert (uval b / 128 = 1) as E3 by (symmetry; apply (N.div_unique _ 128 1 (uval b - 128)); lia).
      pose proof (N.div_mod (uval b) 128 ltac:(lia)). lia.
    + f_equal. rewrite N.pow_add_r. change (2 ^ 7) with 128. lia.
    + rewrite pow_split by lia. lia.
    + intros _ [_ E0]%N.eq_add_0. lia.
Qed.

(** ** The primitive [number] *)

Lemma u128_small (v : u128) : uval v < 128 ^ N.of_nat 19.
Proof. eapply N.lt_trans; [apply uval_bound|]. vm_compute. done. Qed.

(** The loop of [Writer.number] ends before its fuel. *)
Lemma number_complete v w :
  Writer.number v w = (Ok tt, Writer.extend w (leb128 19 (uval v))).
Proof. apply write_number_loop; [apply u128_small|lia]. Qed.

Lemma number_Ok v w u w' :
  Writer.number v w = (Ok u, w') -> w' = Writer.extend w (leb128 19 (uval v)).
Proof. rewrite number_complete. generalize (leb128 19 (uval v)). intros bs. congruence. Qed.

Lemma reads_number d src (v : u128) : reads Reader.number d src (leb128 19 (uval v)) v.
Proof.
  unfold Reader.number. rewrite shifts_eq.
  replace v with (uint_wrap 128 (0 + uval v * 2 ^ 0)) at 2.
  2: { rewrite N.add_0_l, N.mul_1_r. apply uint_wrap_uval. }
  apply reads_number_loop; try done; try lia. apply uval_bound.
Qed.

Lemma RT_number d (v : u128) : RT d (Writer.number v) Reader.number v 1.
Proof.
  intros w w' _ _ _ E. apply number_Ok in E as ->.
  eexists. split_and!; [done|by apply leb128_length; lia|]. intros _. apply reads_number.
Qed.

Lemma CN_number d src :
  CN d src Reader.number (fun v bs => emits d src (Writer.number v) bs).
Proof.
  unfold Reader.number. rewrite shifts_eq.
  eapply CN_impl; [by apply CN_number_loop|].
  intros n bs (v & -> & -> & Hv & _) w _ _ _ _. rewrite number_complete.
  rewrite N.add_0_l, N.mul_1_r, uval_wrap_small by done. done.
Qed.

Lemma RF_number : RF Reader.number.
Proof.
  unfold Reader.number. generalize Reader.shifts, 0. intros l. induction l as [|s l IH]; intros acc.
  { apply RF_fail. }
  simpl. apply RF_bind; [apply RF_byte|]. intros b.
  repeat case_match; auto using RF_fail, RF_ret.
Qed.

Lemma SIM_number : SIM eq Reader.number Reader.number.
Proof.
  unfold Reader.number. generalize Reader.shifts, 0. intros l. induction l as [|s l IH]; intros acc.
  { apply SIM_fail. }
  simpl. eapply SIM_bind; [apply SIM_byte|]. intros b ? <-.
  repeat case_match; auto using SIM_fail. by apply SIM_ret.
Qed.

Lemma WF_number n v : WF n (Writer.number v).
Proof. intros w _. rewrite number_complete. by eexists. Qed.

Local Open Scope nat_scope.

Create HintDb codec discriminated.

(** Splits the contract of a type that holds at every depth. *)
Lemma wire_laws_intro {A} `{Wire A} :
  (forall d a, RT d (put a) get a 1) ->
  (forall d src, CN d src get (fun a bs => emits d src (put a) bs)) ->
  RF (A := A) get -> (forall n (a : A), WF n (put a)) -> SIM (A := A) any get get -> WireLaws A.
Proof. intros. split; intros; by split. Qed.

Section laws.
Context {A : Type} `{WireLaws A}.

Lemma RT_put d (a : A) : RT d (put a) get a 1.
Proof. apply codec_rt, wire_codec. Qed.
Lemma CN_get d src : CN d src get (fun (a : A) bs => emits d src (put a) bs).
Proof. apply codec_cn, wire_codec. Qed.
Lemma RF_get : RF (A := A) get.
Proof. exact (framed_rf _ _ _ (wire_framed 0)). Qed.
Lemma WF_put n (a : A) : WF n (put a).
Proof. exact (framed_wf _ _ _ (wire_framed n) a). Qed.
Lemma SIM_get : SIM (A := A) any get get.
Proof. exact (framed_sim _ _ _ (wire_framed 0)). Qed.
End laws.

#[export] Hint Resolve RT_put CN_get RF_get WF_put SIM_get : codec.
#[export] Hint Resolve RF_ret RF_fail RF_ok_or RF_byte RF_number WF_ret WF_fail WF_extend WF_number
  : codec.

(** ** Integers *)

Section uints.
Context {w : N} (Hw : (w <= 128)%N).

Lemma uint_widen (a : uint w) : uval (uint_wrap 128 (uval a)) = uval a.
Proof using Hw.
  apply uval_wrap_small. eapply N.lt_le_trans; [apply uval_bound|].
  by apply N.pow_le_mono_r.
Qed.

Lemma uint_laws : WireLaws (uint w).
Proof using Hw.
  apply wire_laws_intro; simpl.
  - intros d a. eapply RT_last; [apply RT_number|lia|]. cbv beta.
    by rewrite uint_widen, uint_try_uval.
  - intros d src. eapply CN_bind; [apply CN_number|]. intros v bs Hv.
    destruct (uint_try (uval v)) as [a|] eqn:E; [|apply CN_fail]. apply CN_ret.
    apply uint_try_Some in E. rewrite app_nil_r. unfold put_uint.
    by rewrite E, uint_wrap_uval.
  - apply RF_bind; auto with codec.
  - intros n a. apply WF_number.
  - apply (SIM_any eq). eapply SIM_bind; [apply SIM_number|]. intros v ? <-. apply SIM_ok_or.
Qed.

Lemma SIM_uint : SIM (A := uint w) eq get_uint get_uint.
Proof. eapply SIM_bind; [apply SIM_number|]. intros v ? <-. apply SIM_ok_or. Qed.
End uints.

#[export] Instance u8_laws : WireLaws u8 := uint_laws (w := 8%N) ltac:(done).
#[export] Instance u16_laws : WireLaws u16 := uint_laws (w := 16%N) ltac:(done).
#[export] Instance u32_laws : WireLaws u32 := uint_laws (w := 32%N) ltac:(done).
#[export] Instance usize_laws : WireLaws usize := uint_laws (w := 64%N) ltac:(done).
#[export] Instance u128_laws : WireLaws u128 := uint_laws (w := 128%N) ltac:(done).

(** ** Bytes that select a branch *)

Lemma uval_tag (t : N) : (t < 256)%N -> uval (uint_wrap 8 t) = t.
Proof. exact (uval_wrap_small 8 t). Qed.

Lemma emits_tag d src b t : uval b = t -> emits d src (Writer.tag t) [b].
Proof.
  intros <-. unfold Writer.tag. rewrite uint_wrap_uval. apply emits_byte.
Qed.

Lemma WF_byte n b : WF n (Writer.byte b).
Proof. apply WF_extend. Qed.
Lemma WF_tag n t : WF n (Writer.tag t).
Proof. apply WF_extend. Qed.
#[export] Hint Resolve WF_byte WF_tag : codec.

(** ** Fieldless enums *)

Section enums.
Context {A : Type} `{EqDecision A} (variants : list A).
Context (Hall : forall a, a ∈ variants) (Hnd : NoDup variants) (Hlen : length variants <= 256).

Lemma enum_position a :
  exists i, list_find (eq a) variants = Some (i, a) /\ variants !! i = Some a /\ i < 256.
Proof using Hall Hlen.
  destruct (list_find_elem_of (eq a) variants a (Hall a) eq_refl) as [[i b] Hf].
  pose proof Hf as Hf'. apply list_find_Some in Hf' as (Hi & -> & _).
  apply lookup_lt_Some in Hi as Hlt. exists i. split_and!; [done|done|lia].
Qed.

Lemma enum_laws d : Codec d (put_enum variants) (get_enum variants).
Proof using Hall Hnd Hlen.
  split.
  - intros a. destruct (enum_position a) as (i & Ef & Ei & Hi).
    unfold put_enum. rewrite Ef. eapply RT_last; [apply RT_byte|lia|]. cbv beta.
    rewrite uval_tag, Nat2N.id by lia. by rewrite Ei.
  - intros src. eapply CN_bind; [apply CN_byte|]. intros b bs ->.
    destruct (variants !! N.to_nat (uval b)) as [a|] eqn:Eb; [|apply CN_fail]. apply CN_ret.
    destruct (enum_position a) as (i & Ef & Ei & Hi).
    unfold put_enum. rewrite Ef. apply emits_tag.
    rewrite (NoDup_lookup _ _ _ _ Hnd Ei Eb). lia.
Qed.

Lemma enum_framed n : Framed n (put_enum variants) (get_enum variants).
Proof.
  split.
  - apply RF_bind; auto with codec.
  - intros a. unfold put_enum. destruct (list_find _ _) as [[]|]; auto with codec.
  - apply (SIM_any eq). eapply SIM_bind; [apply SIM_byte|]. intros b ? <-. apply SIM_ok_or.
Qed.
End enums.

(** ** [bool] and [char] *)

#[export] Instance bool_laws : WireLaws bool.
Proof.
  apply wire_laws_intro; simpl.
  - intros d a. eapply RT_last; [apply RT_byte|lia|]. by destruct a.
  - intros d src. eapply CN_bind; [apply CN_byte|]. intros b bs ->.
    destruct (uval b) as [|[]] eqn:E; try apply CN_fail; apply CN_ret;
      unfold put_bool; rewrite <- E, uint_wrap_uval; apply emits_byte.
  - apply RF_bind; [auto with codec|]. intros b. repeat case_match; auto with codec.
  - intros n a. apply WF_byte.
  - apply (SIM_any eq). eapply SIM_bind; [apply SIM_byte|]. intros b ? <-.
    repeat case_match; first [apply SIM_fail | by apply SIM_ret].
Qed.

#[export] Instance char_laws : WireLaws char.
Proof.
  apply wire_laws_intro; simpl.
  - intros d a. eapply RT_last; [exact (RT_put (A := u32) d (char_u32 a))|lia|]. cbv beta.
    by rewrite (proj2 (from_u32_Some (char_u32 a) a)).
  - intros d src. eapply CN_bind; [exact (CN_get (A := u32) d src)|]. intros n bs Hn.
    destruct (from_u32 n) as [c|] eqn:E; [|apply CN_fail]. apply CN_ret.
    apply from_u32_Some in E. rewrite app_nil_r. unfold put_char. by rewrite E.
  - apply RF_bind; [exact (RF_get (A := u32))|auto with codec].
  - intros n a. exact (WF_put n (char_u32 a)).
  - apply (SIM_any eq). eapply SIM_bind; [apply SIM_uint|]. intros b ? <-. apply SIM_ok_or.
Qed.

(** ** Length prefixes *)

Section lengths.
Local Open Scope N_scope.

Lemma len_fits {A} (l : list A) :
  N.of_nat (length l) < 2 ^ 64 -> uval (len l) = N.of_nat (length l).
Proof.
  intros. apply uval_wrap_small. eapply N.lt_trans; [done|]. by apply N.pow_lt_mono_r.
Qed.

(** A length prefix is accepted when its elements follow, one byte each at least. *)
Lemma RT_length {A B} d (l : list A) m (k : usize -> Get B) b :
  (forall n, N.of_nat (length l) < 2 ^ 64 -> uval n = N.of_nat (length l) ->
    RT d m (k n) b (length l)) ->
  (forall w w', w_mode w = Mode_Full -> w_depth w = d -> (w_limit w <= MAX_DEPTH)%nat ->
    m w = (Ok tt, w') ->
    exists bs, w' = Writer.extend w bs /\ (length l <= length bs)%nat) ->
  RT d (Writer.number (len l) ;;; m) (bind Reader.length k) b 1.
Proof.
  intros H Hmin w w' Hm Hd Hl E. apply bind_Ok in E as ([] & w1 & E1 & E2).
  apply number_Ok in E1 as ->.
  pose proof (leb128_length 19 (uval (len l)) ltac:(lia)) as [Hl1 _].
  pose proof (reads_number d (w_source w) (len l)) as Hnum.
  remember (leb128 19 (uval (len l))) as bs0 eqn:E0. clear E0.
  destruct (Hmin (Writer.extend w bs0) w') as (bs & Ew & Hlen); [assumption..|].
  exists (bs0 ++ bs). rewrite Ew, extend_extend.
  split; [reflexivity|]. split; [rewrite length_app; lia|]. intros [_ Hf]%fits_app.
  assert (N.of_nat (length l) < 2 ^ 64) as Hsz by (unfold fits in Hf; lia).
  destruct (uint_of_bound 64 (N.of_nat (length l)) Hsz) as [n En].
  destruct (H n Hsz En (Writer.extend w bs0) w') as (bs' & Ew' & _ & Hr); [assumption..|].
  rewrite Ew in Ew'. apply extend_inj in Ew' as <-.
  intros pre suf. unfold Reader.length, bind.
  rewrite <- app_assoc, (Hnum pre (bs ++ suf)).
  rewrite len_fits, <- En, uint_try_uval by done. cbn [ok_or ret r_bytes r_at]. unfold ret.
  rewrite (proj2 (N.ltb_ge _ (uval n))).
  2: { rewrite En, !length_app. lia. }
  specialize (Hr Hf (pre ++ bs0) suf). simpl in Hr.
  rewrite !length_app, <- !app_assoc in Hr. rewrite Hr, length_app. by rewrite Nat.add_assoc.
Qed.

Lemma CN_length d src :
  CN d src Reader.length (fun n bs => emits d src (Writer.number (uint_wrap 128 (uval n))) bs).
Proof.
  unfold Reader.length. eapply CN_bind; [apply CN_number|]. intros v bs Hv.
  destruct (uint_try (uval v)) as [n|] eqn:E; [|apply CN_fail]. apply uint_try_Some in E.
  intros r n' r' _ _ Hok Er. cbn [ok_or ret bind] in Er. unfold ret, bind in Er.
  destruct (_ <? _); [done|]. simplify_eq. exists []. split; [by apply consumes_nil|].
  by rewrite app_nil_r, E, uint_wrap_uval.
Qed.

Lemma RF_length : RF Reader.length.
Proof.
  unfold Reader.length. apply RF_bind; [auto with codec|]. intros v.
  apply RF_bind; [auto with codec|]. intros n r Hok. destruct (_ <? _); by apply frame_refl.
Qed.

Lemma SIM_length : SIM eq Reader.length Reader.length.
Proof.
  unfold Reader.length. eapply SIM_bind; [apply SIM_number|]. intros v ? <-.
  eapply SIM_bind; [apply SIM_ok_or|]. intros n ? <- r src. simpl. by destruct (_ <? _).
Qed.
End lengths.

#[export] Hint Resolve RF_length : codec.

(** ** [take] and [String] *)

Lemma reads_take d src n bs :
  length bs = N.to_nat (uval n) -> reads (Reader.take n) d src bs bs.
Proof.
  intros Hl pre suf. unfold Reader.take; simpl. rewrite <- Hl, !length_app.
  rewrite (proj2 (Nat.leb_le _ _)) by lia. rewrite drop_app_length. by rewrite take_app_length.
Qed.

Lemma CN_take d src n :
  CN d src (Reader.take n) (fun a bs => a = bs /\ length bs = N.to_nat (uval n)).
Proof.
  intros r a r' _ _ Hok E. unfold Reader.take in E.
  destruct (Nat.leb_spec (r_at r + N.to_nat (uval n)) (length (r_bytes r))); simplify_eq.
  assert (length (take (N.to_nat (uval n)) (drop (r_at r) (r_bytes r))) = N.to_nat (uval n)) as El.
  { rewrite length_take, length_drop. lia. }
  eexists. split; [|done]. unfold consumes. rewrite !El. split_and!; done.
Qed.

Lemma RF_take n : RF (Reader.take n).
Proof.
  intros r Hok. unfold Reader.take.
  destruct (Nat.leb_spec (r_at r + N.to_nat (uval n)) (length (r_bytes r))).
  - unfold frame; simpl. split; [done|lia].
  - by apply frame_refl.
Qed.

Lemma SIM_take n : SIM eq (Reader.take n) (Reader.take n).
Proof. intros r src. unfold Reader.take; simpl. by destruct (_ <=? _). Qed.

#[export] Hint Resolve RF_take : codec.

#[export] Instance String_laws : WireLaws RString.
Proof.
  apply wire_laws_intro; simpl.
  - intros d a. apply RT_length.
    + intros n _ En w w' _ _ _ E. unfold Writer.extend_from_slice in E. simplify_eq.
      exists (as_bytes a). split_and!; [done..|]. intros _. rewrite <- (app_nil_r (as_bytes a)) at 1.
      eapply reads_bind; [apply reads_take; lia|]. cbv beta.
      rewrite (proj2 (from_utf8_Some (as_bytes a) a)) by done. apply reads_ret.
    + intros w w' _ _ _ E. unfold Writer.extend_from_slice in E. simplify_eq. by eexists.
  - intros d src. eapply CN_bind; [apply CN_length|]. intros n bs Hn.
    eapply CN_bind; [apply CN_take|]. intros v bs2 [-> Hl].
    destruct (from_utf8 bs2) as [a|] eqn:E; [|apply CN_fail]. apply CN_ret.
    apply from_utf8_Some in E. rewrite app_nil_r. unfold put_String. subst bs2.
    apply emits_seq; [|by intros w]. unfold len. by rewrite Hl, N2Nat.id.
  - apply RF_bind; [auto with codec|]. intros n. apply RF_bind; auto with codec.
  - intros k a. apply WF_bind; auto with codec.
  - apply (SIM_any eq). eapply SIM_bind; [apply SIM_length|]. intros n ? <-.
    eapply SIM_bind; [apply SIM_take|]. intros v ? <-. apply SIM_ok_or.
Qed.

(** ** Sequences, options and pairs *)

Section containers.
Context {A : Type} (p : A -> Put) (g : Get A) (d : nat).

Lemma RT_each (l : list A) :
  (forall a, a ∈ l -> RT d (p a) g a 1) ->
  RT d (put_each p l) (get_each g (length l)) l (length l).
Proof.
  induction l as [|a l IH]; simpl; intros H; [apply RT_ret|].
  refine (RT_bind d _ _ _ _ _ _ 1 _ (H a _) _); [left|].
  intros w w' Hm Hd Hl E. destruct (IH (fun b Hb => H b (list_elem_of_further _ _ _ Hb)) w w')
    as (bs & -> & Hn & Hr); [done..|].
  exists bs. split_and!; [done|exact Hn|]. intros Hf. rewrite <- (app_nil_r bs).
  eapply reads_bind; [by apply Hr|]. apply reads_ret.
Qed.

Lemma RT_Vec_of (l : list A) :
  (forall a, a ∈ l -> RT d (p a) g a 1) -> RT d (put_Vec p l) (get_Vec g) l 1.
Proof.
  intros H. apply RT_length.
  - intros n _ En. rewrite En, Nat2N.id. by apply RT_each.
  - intros w w' Hm Hd Hl E. destruct (RT_each l H w w') as (bs & -> & Hn & _); eauto.
Qed.

Lemma CN_each (P : A -> Prop) src n :
  CN d src g (fun a bs => emits d src (p a) bs /\ P a) ->
  CN d src (get_each g n)
    (fun l bs => length l = n /\ emits d src (put_each p l) bs /\ Forall P l).
Proof.
  intros HC. induction n as [|n IH]; simpl.
  { apply CN_ret. split_and!; [done|apply emits_ret|done]. }
  eapply CN_bind; [apply HC|]. intros a bs [Ha HP].
  eapply CN_bind; [apply IH|]. intros l bs' (<- & Hl & HPl).
  apply CN_ret. rewrite app_nil_r. split_and!; [done|by apply emits_seq|by constructor].
Qed.

(** A sequence of elements that satisfy [P]. *)
Lemma CN_Vec_of (P : A -> Prop) src :
  CN d src g (fun a bs => emits d src (p a) bs /\ P a) ->
  CN d src (get_Vec g) (fun l bs => emits d src (put_Vec p l) bs /\ Forall P l).
Proof.
  intros HC. eapply CN_bind; [apply CN_length|]. intros n bs Hn.
  eapply CN_impl; [by apply CN_each|]. intros l bs' (Hl & Hb & HP). split; [|done].
  apply emits_seq; [|done]. unfold len. by rewrite Hl, N2Nat.id.
Qed.

Context (HC : Codec d p g).

Lemma RT_Vec (l : list A) : RT d (put_Vec p l) (get_Vec g) l 1.
Proof using HC. apply RT_Vec_of. intros a _. apply HC. Qed.

Lemma CN_Vec src : CN d src (get_Vec g) (fun l bs => emits d src (put_Vec p l) bs).
Proof using HC.
  eapply CN_impl; [apply (CN_Vec_of (fun _ => True))|by intros ?? []].
  eapply CN_impl; [apply HC|done].
Qed.

Lemma RT_Option (o : option A) : RT d (put_Option p o) (get_Option g) o 1.
Proof using HC.
  destruct o as [a|]; simpl.
  - eapply RT_field; [apply RT_byte|lia|]. rewrite uval_tag by done.
    eapply RT_last; [apply HC|lia|done].
  - eapply RT_last; [apply RT_byte|lia|]. by rewrite uval_tag.
Qed.

Lemma CN_Option src : CN d src (get_Option g) (fun o bs => emits d src (put_Option p o) bs).
Proof using HC.
  eapply CN_bind; [apply CN_byte|]. intros b bs ->.
  destruct (uval b) as [|[]] eqn:E; try apply CN_fail.
  - apply CN_ret. unfold put_Option. rewrite <- E, uint_wrap_uval. apply emits_byte.
  - eapply CN_bind; [apply HC|]. intros a bs Ha. apply CN_ret. rewrite app_nil_r.
    apply emits_seq; [|done]. rewrite <- E, uint_wrap_uval. apply emits_byte.
Qed.
End containers.

Section framed_containers.
Context {A : Type} (p : A -> Put) (g : Get A).

Lemma RF_Vec : RF g -> RF (get_Vec g).
Proof.
  intros H. apply RF_bind; [auto with codec|]. intros n. generalize (N.to_nat (uval n)).
  clear n. intros n. induction n as [|n IH]; simpl; [auto with codec|].
  apply RF_bind; [done|]. intros a. apply RF_bind; auto with codec.
Qed.

Lemma WF_each n l : (forall a, WF n (p a)) -> WF n (put_each p l).
Proof.
  induction l as [|a l IH]; simpl; intros H; [auto with codec|].
  apply WF_bind; [apply H|]. by apply IH.
Qed.

Lemma WF_Vec n l : (forall a, WF n (p a)) -> WF n (put_Vec p l).
Proof. intros H. apply WF_bind; [auto with codec|]. by apply WF_each. Qed.

Lemma SIM_Vec : SIM any g g -> SIM any (get_Vec g) (get_Vec g).
Proof.
  intros H. eapply SIM_bind; [apply SIM_length|]. intros n ? <-. generalize (N.to_nat (uval n)).
  clear n. intros n. induction n as [|n IH]; simpl; [by apply SIM_ret|].
  eapply SIM_bind; [done|]. intros a b _. eapply SIM_bind; [done|]. intros l l' _. by apply SIM_ret.
Qed.

Lemma RF_Option : RF g -> RF (get_Option g).
Proof.
  intros H. apply RF_bind; [auto with codec|]. intros b.
  repeat case_match; auto with codec. apply RF_bind; auto with codec.
Qed.

Lemma WF_Option n o : (forall a, WF n (p a)) -> WF n (put_Option p o).
Proof.
  intros H. destruct o as [a|]; simpl; [|auto with codec].
  apply WF_bind; [auto with codec|]. by apply H.
Qed.

Lemma SIM_Option : SIM any g g -> SIM any (get_Option g) (get_Option g).
Proof.
  intros H. eapply SIM_bind; [apply SIM_byte|]. intros b ? <-.
  repeat case_match; try apply SIM_fail; [by apply SIM_ret|].
  eapply SIM_bind; [done|]. intros a a' _. by apply SIM_ret.
Qed.
End framed_containers.

Section pairs.
Context {A B : Type} (pA : A -> Put) (gA : Get A) (pB : B -> Put) (gB : Get B).

Lemma RT_pair d x : RT d (pA (fst x)) gA (fst x) 1 -> RT d (pB (snd x)) gB (snd x) 1 ->
  RT d (put_pair pA pB x) (get_pair gA gB) x 1.
Proof.
  intros H1 H2. destruct x as [a b]. eapply RT_field; [done|lia|].
  by eapply RT_last; [done|lia|].
Qed.

Lemma CN_pair d src :
  CN d src gA (fun a bs => emits d src (pA a) bs) ->
  CN d src gB (fun a bs => emits d src (pB a) bs) ->
  CN d src (get_pair gA gB) (fun x bs => emits d src (put_pair pA pB x) bs).
Proof.
  intros H1 H2. eapply CN_bind; [done|]. intros a bs Ha. eapply CN_bind; [done|]. intros b bs' Hb.
  apply CN_ret. rewrite app_nil_r. by apply emits_seq.
Qed.

Lemma RF_pair : RF gA -> RF gB -> RF (get_pair gA gB).
Proof. intros H1 H2. apply RF_bind; [done|]. intros a. apply RF_bind; auto with codec. Qed.

Lemma WF_pair n x : WF n (pA (fst x)) -> WF n (pB (snd x)) -> WF n (put_pair pA pB x).
Proof. apply WF_bind. Qed.

Lemma SIM_pair : SIM any gA gA -> SIM any gB gB -> SIM any (get_pair gA gB) (get_pair gA gB).
Proof.
  intros H1 H2. eapply SIM_bind; [done|]. intros a a' _. eapply SIM_bind; [done|].
  intros b b' _. by apply SIM_ret.
Qed.
End pairs.

#[export] Instance Vec_laws {A} `{WireLaws A} : WireLaws (list A).
Proof.
  apply wire_laws_intro; simpl.
  - intros d a. apply RT_Vec, wire_codec.
  - intros d src. apply CN_Vec, wire_codec.
  - apply RF_Vec; auto with codec.
  - intros n l. apply WF_Vec; auto with codec.
  - apply SIM_Vec; auto with codec.
Qed.

#[export] Instance Option_laws {A} `{WireLaws A} : WireLaws (option A).
Proof.
  apply wire_laws_intro; simpl.
  - intros d a. apply RT_Option, wire_codec.
  - intros d src. apply CN_Option, wire_codec.
  - apply RF_Option; auto with codec.
  - intros n l. apply WF_Option; auto with codec.
  - apply SIM_Option; auto with codec.
Qed.

#[export] Instance pair_laws {A B} `{WireLaws A} `{WireLaws B} : WireLaws (A * B).
Proof.
  apply wire_laws_intro; simpl.
  - intros d x. apply RT_pair; auto with codec.
  - intros d src. apply CN_pair; auto with codec.
  - apply RF_pair; auto with codec.
  - intros n x. apply WF_pair; auto with codec.
  - apply SIM_pair; auto with codec.
Qed.

(** ** The contract as one fact, and the tactics that assemble it *)

Section codecs.
Context {A B : Type}.

Lemma Codec_put `{WireLaws A} d : Codec d put (get : Get A).
Proof. apply wire_codec. Qed.

Lemma Codec_Vec d (p : A -> Put) g : Codec d p g -> Codec d (put_Vec p) (get_Vec g).
Proof. intros H. split; intros; [by apply RT_Vec|by apply CN_Vec]. Qed.

Lemma Codec_Option d (p : A -> Put) g : Codec d p g -> Codec d (put_Option p) (get_Option g).
Proof. intros H. split; intros; [by apply RT_Option|by apply CN_Option]. Qed.

Lemma Codec_pair d (p : A -> Put) g (p' : B -> Put) g' :
  Codec d p g -> Codec d p' g' -> Codec d (put_pair p p') (get_pair g g').
Proof. intros [H1 H2] [H3 H4]. split; intros; [by apply RT_pair|by apply CN_pair]. Qed.

Lemma Framed_put `{WireLaws A} n : Framed n put (get : Get A).
Proof. apply wire_framed. Qed.

Lemma Framed_Vec n (p : A -> Put) g : Framed n p g -> Framed n (put_Vec p) (get_Vec g).
Proof. intros []. split; [by apply RF_Vec|intros; by apply WF_Vec|by apply SIM_Vec]. Qed.

Lemma Framed_Option n (p : A -> Put) g : Framed n p g -> Framed n (put_Option p) (get_Option g).
Proof. intros []. split; [by apply RF_Option|intros; by apply WF_Option|by apply SIM_Option]. Qed.

Lemma Framed_pair n (p : A -> Put) g (p' : B -> Put) g' :
  Framed n p g -> Framed n p' g' -> Framed n (put_pair p p') (get_pair g g').
Proof. intros [] []. split; [by apply RF_pair|intros; by apply WF_pair|by apply SIM_pair]. Qed.
End codecs.

(** Reassociation of a conditional group of fields. *)
Lemma bind_assoc {E S A B C} (m : M E S A) (k : A -> M E S B) (l : B -> M E S C) s :
  bind (bind m k) l s = bind m (fun a => bind (k a) l) s.
Proof. unfold bind. by destruct (m s) as [[a|e] s']. Qed.

Lemma RT_assoc {A} d (m1 m2 m3 : Put) (g : Get A) a n :
  RT d (m1 ;;; (m2 ;;; m3)) g a n -> RT d ((m1 ;;; m2) ;;; m3) g a n.
Proof. intros H w w' ????. apply H; [done..|]. by rewrite <- bind_assoc. Qed.

Lemma RT_full_seq {A} d (m1 m2 m : Put) (g : Get A) a n :
  RT d (m1 ;;; m) g a n -> RT d (if_full m1 m2 ;;; m) g a n.
Proof.
  intros H w w' Hm ?? E. apply H; [done..|]. unfold bind, if_full, Writer.full in *.
  by rewrite Hm in E.
Qed.

Lemma emits_assoc d src (m1 m2 m3 : Put) bs :
  emits d src (m1 ;;; (m2 ;;; m3)) bs -> emits d src ((m1 ;;; m2) ;;; m3) bs.
Proof. intros H w ????. rewrite bind_assoc. by apply H. Qed.

Lemma emits_full_seq d src (m1 m2 m : Put) bs :
  emits d src (m1 ;;; m) bs -> emits d src (if_full m1 m2 ;;; m) bs.
Proof.
  intros H w Hm ???. unfold bind at 1, if_full, Writer.full. rewrite Hm. by apply H.
Qed.

(** The contract of a field, from the contract of its type. *)
Ltac codec_atom :=
  solve [repeat first
    [ eassumption
    | apply Codec_Vec | apply Codec_Option | apply Codec_pair
    | apply Framed_Vec | apply Framed_Option | apply Framed_pair
    | apply Codec_put | apply Framed_put
    | solve [eauto with codec nocore] ]].

Ltac rt_atom :=
  first [ apply RT_byte | apply RT_if_full; apply codec_rt; codec_atom
        | apply codec_rt; codec_atom
        | multimatch goal with H : Codec _ _ _ |- _ => exact (codec_rt _ _ _ H _) end ].

(** The match on a tag just written reduces to its branch. *)
Ltac rt_tag :=
  match goal with
  | |- context [uval (uint_wrap 8 ?t)] => rewrite (uval_tag t) by done; cbv beta iota
  end.

Ltac rt_step :=
  lazymatch goal with
  | |- RT _ (bind (if_full _ _) _) _ _ _ =>
    first [eapply RT_field; [rt_atom|lia|cbv beta] | apply RT_full_seq]
  | |- RT _ (bind (bind _ _) _) _ _ _ => apply RT_assoc
  | |- RT _ (bind _ _) _ _ _ => eapply RT_field; [rt_atom|lia|cbv beta; try rt_tag; unfold variant]
  | |- RT _ _ (bind _ _) _ _ =>
    first [ eapply RT_last; [rt_atom|lia|cbv beta; try rt_tag; reflexivity] | apply RT_if_full ]
  end.

Ltac cn_field :=
  let a := fresh "a" in let bs := fresh "bs" in let H := fresh "H" in
  eapply CN_bind; [apply codec_cn; codec_atom|intros a bs H; cbv beta].

(** Case analysis on the tag just read. *)
Ltac cn_tag :=
  let b := fresh "b" in let E := fresh "E" in
  eapply CN_bind; [apply CN_byte|];
  intros b ? ->; cbv beta; destruct (uval b) as [|] eqn:E;
  repeat match goal with
  | |- context [match ?p with xI _ => _ | _ => _ end] => is_var p; destruct p
  end; try apply CN_fail; unfold variant.

Ltac emits_atom :=
  first [ eassumption | apply emits_tag; assumption | apply emits_if_full; eassumption ].

Ltac emits_step :=
  lazymatch goal with
  | |- emits _ _ (bind (if_full _ _) _) _ =>
    first [apply emits_seq; [emits_atom|] | apply emits_full_seq]
  | |- emits _ _ (bind (bind _ _) _) _ => apply emits_assoc
  | |- emits _ _ (bind _ _) _ => apply emits_seq; [emits_atom|]
  | |- emits _ _ _ _ => first [apply emits_last; emits_atom | apply emits_if_full]
  end.

(** [n] is the number of levels that the recursive hypotheses leave. *)
Ltac rf_step n :=
  lazymatch goal with
  | |- RF (ret _) => apply RF_ret
  | |- RF (fail _) => apply RF_fail
  | |- RF (bind Reader.byte _) => apply RF_bind; [apply RF_byte|intros ?]
  | |- RF (bind _ _) => apply RF_bind; [eapply (framed_rf n); codec_atom|intros ?]
  | |- RF (match _ with _ => _ end) => case_match
  end.

Ltac wf_step :=
  lazymatch goal with
  | |- WF _ (bind _ _) => apply WF_bind
  | |- WF _ (if_full _ _) => apply WF_if_full
  | |- WF _ (ret _) => apply WF_ret
  | |- WF _ (Writer.tag _) => apply WF_tag
  | |- WF _ (Writer.byte _) => apply WF_byte
  | |- WF _ (Writer.number _) => apply WF_number
  | |- WF _ (put_each _ _) => apply WF_each; intros []
  | |- WF _ _ =>
    first [ eapply framed_wf; codec_atom
          | multimatch goal with H : Framed _ _ _ |- _ => exact (framed_wf _ _ _ H _) end ]
  end.

Ltac sim_step n :=
  lazymatch goal with
  | |- SIM _ (ret _) _ => by apply SIM_ret
  | |- SIM _ (fail _) _ => apply SIM_fail
  | |- SIM _ (bind Reader.byte _) _ => eapply SIM_bind; [apply SIM_byte|intros ? ? <-]
  | |- SIM _ (bind _ _) _ => eapply SIM_bind; [eapply (framed_sim n); codec_atom|intros ? ? _]
  | |- SIM _ (match _ with _ => _ end) _ => case_match
  end.
