(* ===== verification/SyntaxLaws.v ===== *)
(** * Every [Wire] impl of the syntax keeps its contract *)
From S2P Require Import Prelude Wire Syntax SyntaxCodec WireLaws WirePrims.
Local Open Scope nat_scope.
Local Open Scope monad_scope.

(** The laws of a struct or an enum whose [Wire] functions are [p] and [g]. *)
Ltac wire_laws p g :=
  apply wire_laws_intro;
  [ let d := fresh "d" in let a := fresh "a" in
    intros d a; change (RT d (p a) g a 1); destruct a; unfold p, g; repeat rt_step
  | let d := fresh "d" in let src := fresh "src" in
    intros d src; change (CN d src g (fun a bs => emits d src (p a) bs)); unfold g;
    repeat first [cn_tag | cn_field]; apply CN_ret; unfold p; repeat emits_step
  | change (RF g); unfold g, variant; repeat rf_step 0
  | let n := fresh "n" in let a := fresh "a" in
    intros n a; change (WF n (p a)); destruct a; unfold p; repeat wf_step
  | change (SIM any g g); unfold g, variant; repeat sim_step 0 ].

(** The laws of a fieldless enum from the list of its variants. *)
Ltac unit_enum_laws variants :=
  split; [intros d; apply (enum_laws variants)|intros n; apply (enum_framed variants)];
  [ intros []; by apply (bool_decide_unpack _) | by apply (bool_decide_unpack _) | vm_compute; lia ].

(** ** Spans *)

Lemma source_codec d : Codec d put_source get_source.
Proof.
  split.
  - intros [src|]; unfold put_source, get_source.
    + intros w w' Hm Hd Hl E. destruct (decide (src = w_source w)) as [->|]; [|done].
      exists [uint_wrap 8 1]. split_and!; [|done|].
      { unfold Writer.byte, Writer.extend_from_slice in E. congruence. }
      intros _.
      change [uint_wrap 8 1] with ([uint_wrap 8 1] ++ []).
      eapply reads_bind; [apply reads_byte|]. rt_tag. intros pre suf. simpl. by rewrite Nat.add_0_r.
    + eapply RT_last; [apply RT_byte|lia|]. by rt_tag.
  - intros src. unfold get_source. cn_tag.
    + apply CN_ret. exact (emits_last _ _ _ _ (emits_tag _ _ _ _ E)).
    + intros r a r' _ <- Hok Er. simplify_eq. exists []. split; [by apply consumes_nil|].
      rewrite app_nil_r. intros w Hm Hs Hd Hl. unfold put_source.
      rewrite decide_True by done. rewrite <- E, uint_wrap_uval. done.
Qed.

Lemma source_framed n : Framed n put_source get_source.
Proof.
  split.
  - unfold get_source. apply RF_bind; [apply RF_byte|]. intros b.
    repeat case_match; try apply RF_fail; try apply RF_ret. intros r. by apply frame_refl.
  - intros [src|]; [|apply WF_byte]. intros w _. unfold put_source.
    case_decide; [by eexists|]. exists []. by rewrite extend_nil.
  - unfold get_source. eapply SIM_bind; [apply SIM_byte|]. intros b ? <-.
    repeat case_match; first [apply SIM_fail | by apply SIM_ret | idtac]. by intros r src.
Qed.

#[local] Hint Resolve source_codec source_framed : codec.

#[export] Instance Span_laws : WireLaws Span.
Proof. wire_laws put_Span get_Span. Qed.

#[export] Instance SourceKind_laws : WireLaws SourceKind.
Proof. unit_enum_laws SourceKind_variants. Qed.

#[export] Instance StringLiteral_laws : WireLaws StringLiteral.
Proof. wire_laws put_StringLiteral get_StringLiteral. Qed.

#[export] Instance FormatAlign_laws : WireLaws FormatAlign.
Proof. unit_enum_laws FormatAlign_variants. Qed.

#[export] Instance FormatKind_laws : WireLaws FormatKind.
Proof. unit_enum_laws FormatKind_variants. Qed.

#[export] Instance FormatSpec_laws : WireLaws FormatSpec.
Proof. wire_laws put_FormatSpec get_FormatSpec. Qed.

#[export] Instance Provenance_laws : WireLaws Provenance.
Proof. unit_enum_laws Provenance_variants. Qed.

#[export] Instance Ident_laws : WireLaws Ident.
Proof. wire_laws put_Ident get_Ident. Qed.

#[export] Instance CpuAttribute_laws : WireLaws CpuAttribute.
Proof. wire_laws put_CpuAttribute get_CpuAttribute. Qed.

Lemma EffectKind_codec d : Codec d put_EffectKind get_EffectKind.
Proof.
  split.
  - intros a. unfold put_EffectKind, get_EffectKind.
    destruct a; (eapply RT_last; [apply RT_byte|lia|by rt_tag]).
  - intros src. unfold get_EffectKind. cn_tag; apply CN_ret; exact (emits_last _ _ _ _ (emits_tag _ _ _ _ E)).
Qed.

Lemma EffectKind_framed n : Framed n put_EffectKind get_EffectKind.
Proof.
  split; [unfold get_EffectKind; repeat rf_step 0|intros a; apply WF_byte|].
  unfold get_EffectKind. repeat sim_step 0.
Qed.

#[local] Hint Resolve EffectKind_codec EffectKind_framed : codec.

#[export] Instance EffectAttribute_laws : WireLaws EffectAttribute.
Proof. wire_laws put_EffectAttribute get_EffectAttribute. Qed.

(** ** [TrustedAttribute]

    The decoder checks the property bits, the encoder does not. *)
Definition trusted_ok (a : TrustedAttribute) : Prop :=
  (uval (TrustedAttribute_properties a) < 2 ^ 5)%N.

Lemma RT_TrustedAttribute d a : trusted_ok a -> RT d (put_TrustedAttribute a) get_TrustedAttribute a 1.
Proof.
  unfold trusted_ok. destruct a as [target properties span]; cbn [TrustedAttribute_properties]. intros H.
  unfold put_TrustedAttribute, get_TrustedAttribute. do 2 rt_step.
  replace (N.shiftr (uval properties) (N.of_nat (length TRUSTED_PROPERTIES)) =? 0)%N with true.
  { rt_step. }
  symmetry. apply N.eqb_eq. rewrite N.shiftr_div_pow2. by apply N.div_small.
Qed.

Lemma CN_TrustedAttribute d src :
  CN d src get_TrustedAttribute (fun a bs => emits d src (put_TrustedAttribute a) bs /\ trusted_ok a).
Proof.
  unfold get_TrustedAttribute. cn_field. eapply CN_bind; [apply CN_byte|]. intros b ? ->.
  destruct (N.eqb_spec (N.shiftr (uval b) (N.of_nat (length TRUSTED_PROPERTIES))) 0)%N as [E|];
    [|apply CN_fail].
  cn_field. apply CN_ret. unfold put_TrustedAttribute. split.
  - emits_step. apply emits_seq; [apply emits_byte|]. emits_step.
  - rewrite N.shiftr_div_pow2 in E. by apply N.div_small_iff in E.
Qed.

Lemma TrustedAttribute_framed n : Framed n put_TrustedAttribute get_TrustedAttribute.
Proof.
  split.
  - unfold get_TrustedAttribute. repeat rf_step 0.
  - intros []. unfold put_TrustedAttribute. repeat wf_step.
  - unfold get_TrustedAttribute. repeat sim_step 0.
Qed.

#[local] Hint Resolve TrustedAttribute_framed : codec.

#[export] Instance NamespaceDecl_laws : WireLaws NamespaceDecl.
Proof. wire_laws put_NamespaceDecl get_NamespaceDecl. Qed.

#[export] Instance DynTypeExpr_laws : WireLaws DynTypeExpr.
Proof. wire_laws put_DynTypeExpr get_DynTypeExpr. Qed.
(** ** Recursive syntax

    The decoder with fuel [n] is right at every depth that leaves at most [n] levels. *)

Ltac codec_struct p g :=
  split;
  [ let a := fresh "a" in
    intros a; destruct a; cbn [p]; unfold g; repeat rt_step
  | let src := fresh "src" in
    intros src; unfold g; repeat first [cn_tag | cn_field]; apply CN_ret; cbn [p]; repeat emits_step ].

Ltac framed_struct p g n :=
  split;
  [ unfold g, variant; repeat rf_step n
  | let a := fresh "a" in intros a; destruct a; cbn [p]; repeat wf_step
  | unfold g, variant; repeat sim_step n ].

(** [nested] around the decoder of the kind, then the other fields. *)
Lemma Codec_nest {A} d (p : A -> Put) (g : Get A) :
  (d < MAX_DEPTH -> Codec (S d) p g) -> Codec d (fun a => nest (p a)) (nested g).
Proof.
  intros H. destruct (decide (d < MAX_DEPTH)) as [Hd|Hd].
  - destruct (H Hd) as [H1 H2]. split.
    + intros a. by apply RT_nest.
    + intros src. eapply CN_impl; [by apply CN_nested|]. intros a bs [? ?]. by apply emits_nest.
  - split.
    + intros a w w' Hm Hw Hl E. unfold nest, Writer.enter in E.
      destruct (Nat.leb_spec (w_limit w) (w_depth w)); [done|lia].
    + intros src r a r' Hr _ _ E. unfold nested, Reader.enter in E.
      destruct (Nat.leb_spec MAX_DEPTH (r_depth r)); [done|lia].
Qed.

Lemma Framed_nest_0 {A} (p : A -> Put) (g : Get A) :
  RF g -> SIM any g g -> Framed 0 (fun a => nest (p a)) (nested g).
Proof. intros. split; [by apply RF_nested|intros; apply WF_nest_0|by apply SIM_nested]. Qed.

Lemma Framed_nest {A} n (p : A -> Put) (g : Get A) :
  Framed n p g -> Framed (S n) (fun a => nest (p a)) (nested g).
Proof. intros []. split; [by apply RF_nested|intros; by apply WF_nest|by apply SIM_nested]. Qed.

(** The writer and the reader may use different bounds. *)
Lemma Framed_join {A} n m (p : A -> Put) (g g' : Get A) :
  Framed n p g' -> Framed m p g -> Framed n p g.
Proof. intros [] []. by split. Qed.

Lemma Framed_fail {A} n (p : A -> Put) e : (forall a, WF n (p a)) -> Framed n p (fail e).
Proof. intros. split; [apply RF_fail|done|apply SIM_fail]. Qed.

(** A struct whose first field is nested writes nothing at the limit. *)
Lemma Codec_limit {A} d (p : A -> Put) e :
  MAX_DEPTH <= d -> (forall a, exists m1 m2, p a = (nest m1 ;;; m2)) -> Codec d p (fail e).
Proof.
  intros Hd Hp. split; [|intros; apply CN_fail].
  intros a w w' _ Hw Hl E. destruct (Hp a) as (m1 & m2 & Ha). rewrite Ha in E.
  unfold bind, nest, Writer.enter in E.
  destruct (Nat.leb_spec (w_limit w) (w_depth w)); [done|lia].
Qed.

(** *** Types *)

Section types.
Context (rec : Get TypeExpr).

Lemma TypeExprKind_codec d :
  Codec d put_TypeExpr rec -> Codec d put_TypeExprKind (get_TypeExprKind rec).
Proof. intros H. codec_struct put_TypeExprKind get_TypeExprKind. Qed.

Lemma TypeExprKind_framed n :
  Framed n put_TypeExpr rec -> Framed n put_TypeExprKind (get_TypeExprKind rec).
Proof. intros H. framed_struct put_TypeExprKind get_TypeExprKind n. Qed.
End types.

Lemma TypeExpr_codec n : forall d, MAX_DEPTH <= d + n -> Codec d put_TypeExpr (get_TypeExpr_fuel n).
Proof.
  induction n as [|n IH]; intros d Hd; cbn [get_TypeExpr_fuel].
  { apply Codec_limit; [lia|]. intros []. by do 2 eexists. }
  pose proof (Codec_nest d _ _ (fun _ => TypeExprKind_codec _ (S d) (IH (S d) ltac:(lia)))).
  codec_struct put_TypeExpr get_TypeExpr_with.
Qed.

Lemma TypeExpr_framed n : Framed n put_TypeExpr (get_TypeExpr_fuel n).
Proof.
  induction n as [|n IH]; cbn [get_TypeExpr_fuel].
  { apply Framed_fail. intros []. cbn [put_TypeExpr]. apply WF_bind; [apply WF_nest_0|wf_step]. }
  pose proof (Framed_nest _ _ _ (TypeExprKind_framed _ n IH)).
  framed_struct put_TypeExpr get_TypeExpr_with (S n).
Qed.

#[export] Instance TypeExpr_laws : WireLaws TypeExpr.
Proof.
  split; intros n; [apply TypeExpr_codec; lia|].
  exact (Framed_join _ _ _ _ _ (TypeExpr_framed n) (TypeExpr_framed MAX_DEPTH)).
Qed.

(** *** Operators *)

#[export] Instance UnaryOp_laws : WireLaws UnaryOp.
Proof. unit_enum_laws UnaryOp_variants. Qed.

#[export] Instance BinaryOp_laws : WireLaws BinaryOp.
Proof. unit_enum_laws BinaryOp_variants. Qed.

#[export] Instance RangeOp_laws : WireLaws RangeOp.
Proof. unit_enum_laws RangeOp_variants. Qed.

#[export] Instance Notation_laws : WireLaws Notation_.
Proof. unit_enum_laws Notation_variants. Qed.

#[export] Instance MatchOrigin_laws : WireLaws MatchOrigin.
Proof. unit_enum_laws MatchOrigin_variants. Qed.

#[export] Instance Recursion_laws : WireLaws Recursion.
Proof. unit_enum_laws Recursion_variants. Qed.
