(* ===== verification/ExprLaws.v ===== *)
(** * Expressions, declarations and programs keep the contract

    Expressions, patterns and computation blocks are decoded together with fuel; the laws of one level follow from
    those of the next. Then the [Wire] impls of kinds and declarations, and the laws of a whole program, whose round trip
    needs its trusted attributes to name known properties only. *)
From S2P Require Import Prelude Wire Syntax SyntaxCodec WireLaws WirePrims SyntaxLaws.
Local Open Scope nat_scope.
Local Open Scope monad_scope.

(** ** Builder operations *)

Lemma operation_codec d : Codec d put_operation get_operation.
Proof.
  split.
  - intros op w w' Hm Hd Hl E. unfold put_operation in E.
    destruct (list_find (eq op) OPERATIONS) as [[i x]|] eqn:Ef; [|done].
    apply list_find_Some in Ef as (Hi & <- & _).
    cbn [fmap option_fmap option_map fst ok_or] in E. unfold ok_or, bind, ret in E. cbn in E.
    revert w w' Hm Hd Hl E. change (RT d (put_uint (w := 64%N) (uint_wrap 64 (N.of_nat i))) get_operation op 1).
    eapply RT_last; [exact (RT_put (A := usize) d _)|lia|]. cbv beta.
    assert (i < length OPERATIONS) as Hlt by by eapply lookup_lt_Some.
    rewrite uval_wrap_small by (simpl in Hlt; lia). by rewrite Nat2N.id, Hi.
  - intros src. eapply CN_bind; [exact (CN_get (A := usize) d src)|]. intros n bs Hn.
    destruct (OPERATIONS !! N.to_nat (uval n)) as [op|] eqn:E; [|apply CN_fail]. apply CN_ret.
    rewrite app_nil_r. unfold put_operation.
    assert (list_find (eq op) OPERATIONS = Some (N.to_nat (uval n), op)) as ->.
    { apply list_find_Some. split_and!; [done|done|]. intros j y Hj Hlt <-.
      assert (NoDup OPERATIONS) as Hnd by by apply (bool_decide_unpack _).
      pose proof (NoDup_lookup _ _ _ _ Hnd E Hj). lia. }
    intros w ????. unfold bind, ok_or, ret. cbn [fmap option_fmap option_map fst].
    rewrite N2Nat.id, uint_wrap_uval. by apply Hn.
Qed.

Lemma operation_framed n : Framed n put_operation get_operation.
Proof.
  split.
  - apply RF_bind; [exact (RF_get (A := usize))|auto with codec].
  - intros op w Hn. unfold put_operation, bind, ok_or.
    destruct (fst <$> _) as [i|]; [|exists []; by rewrite extend_nil].
    exact (WF_put (A := usize) n _ w Hn).
  - apply (SIM_any eq). eapply SIM_bind; [apply SIM_uint|]. intros b ? <-. apply SIM_ok_or.
Qed.

#[local] Hint Resolve operation_codec operation_framed : codec.

(** ** Success: one level from the next *)

Section level.
Context (d : nat) (g : Getters).
Context (HE : Codec d put_Expr (rec_Expr g)) (HP : Codec d put_Pattern (rec_Pattern g))
  (HB : Codec d put_ComputationBlock (rec_ComputationBlock g)).

Lemma SelectHead_codec : Codec d put_SelectHead (get_SelectHead g).
Proof. codec_struct put_SelectHead get_SelectHead. Qed.
#[local] Hint Resolve SelectHead_codec : codec.

Lemma SelectArm_codec : Codec d put_SelectArm (get_SelectArm g).
Proof. codec_struct put_SelectArm get_SelectArm. Qed.
#[local] Hint Resolve SelectArm_codec : codec.

Lemma MatchArm_codec : Codec d put_MatchArm (get_MatchArm g).
Proof. codec_struct put_MatchArm get_MatchArm. Qed.
#[local] Hint Resolve MatchArm_codec : codec.

Lemma TryExpr_codec : Codec d put_TryExpr (get_TryExpr g).
Proof. codec_struct put_TryExpr get_TryExpr. Qed.
#[local] Hint Resolve TryExpr_codec : codec.

Lemma InterpolationHole_codec : Codec d put_InterpolationHole (get_InterpolationHole g).
Proof. codec_struct put_InterpolationHole get_InterpolationHole. Qed.
#[local] Hint Resolve InterpolationHole_codec : codec.

Lemma Interpolation_codec : Codec d put_Interpolation (get_Interpolation g).
Proof. codec_struct put_Interpolation get_Interpolation. Qed.
#[local] Hint Resolve Interpolation_codec : codec.

Lemma Binding_codec : Codec d put_Binding (get_Binding g).
Proof. codec_struct put_Binding get_Binding. Qed.
#[local] Hint Resolve Binding_codec : codec.

Lemma ExprKind_codec : Codec d put_ExprKind (get_ExprKind g).
Proof. codec_struct put_ExprKind get_ExprKind. Qed.

Lemma PatternKind_codec : Codec d put_PatternKind (get_PatternKind g).
Proof. codec_struct put_PatternKind get_PatternKind. Qed.

Lemma ComputationMatchArm_codec : Codec d put_ComputationMatchArm (get_ComputationMatchArm g).
Proof. codec_struct put_ComputationMatchArm get_ComputationMatchArm. Qed.
#[local] Hint Resolve ComputationMatchArm_codec : codec.

Lemma ComputationStatementKind_codec : Codec d put_ComputationStatementKind (get_ComputationStatementKind g).
Proof. codec_struct put_ComputationStatementKind get_ComputationStatementKind. Qed.
#[local] Hint Resolve ComputationStatementKind_codec : codec.

Lemma ComputationStatement_codec : Codec d put_ComputationStatement (get_ComputationStatement g).
Proof. codec_struct put_ComputationStatement get_ComputationStatement. Qed.

End level.

(** ** Success and error: one level from the next *)

Section framed_level.
Context (n : nat) (g : Getters).
Context (HE : Framed n put_Expr (rec_Expr g)) (HP : Framed n put_Pattern (rec_Pattern g))
  (HB : Framed n put_ComputationBlock (rec_ComputationBlock g)).

Lemma SelectHead_framed : Framed n put_SelectHead (get_SelectHead g).
Proof. framed_struct put_SelectHead get_SelectHead n. Qed.
#[local] Hint Resolve SelectHead_framed : codec.

Lemma SelectArm_framed : Framed n put_SelectArm (get_SelectArm g).
Proof. framed_struct put_SelectArm get_SelectArm n. Qed.
#[local] Hint Resolve SelectArm_framed : codec.

Lemma MatchArm_framed : Framed n put_MatchArm (get_MatchArm g).
Proof. framed_struct put_MatchArm get_MatchArm n. Qed.
#[local] Hint Resolve MatchArm_framed : codec.

Lemma TryExpr_framed : Framed n put_TryExpr (get_TryExpr g).
Proof. framed_struct put_TryExpr get_TryExpr n. Qed.
#[local] Hint Resolve TryExpr_framed : codec.

Lemma InterpolationHole_framed : Framed n put_InterpolationHole (get_InterpolationHole g).
Proof. framed_struct put_InterpolationHole get_InterpolationHole n. Qed.
#[local] Hint Resolve InterpolationHole_framed : codec.

Lemma Interpolation_framed : Framed n put_Interpolation (get_Interpolation g).
Proof. framed_struct put_Interpolation get_Interpolation n. Qed.
#[local] Hint Resolve Interpolation_framed : codec.

Lemma Binding_framed : Framed n put_Binding (get_Binding g).
Proof. framed_struct put_Binding get_Binding n. Qed.
#[local] Hint Resolve Binding_framed : codec.

Lemma ExprKind_framed : Framed n put_ExprKind (get_ExprKind g).
Proof. framed_struct put_ExprKind get_ExprKind n. Qed.

Lemma PatternKind_framed : Framed n put_PatternKind (get_PatternKind g).
Proof. framed_struct put_PatternKind get_PatternKind n. Qed.

Lemma ComputationMatchArm_framed : Framed n put_ComputationMatchArm (get_ComputationMatchArm g).
Proof. framed_struct put_ComputationMatchArm get_ComputationMatchArm n. Qed.
#[local] Hint Resolve ComputationMatchArm_framed : codec.

Lemma ComputationStatementKind_framed : Framed n put_ComputationStatementKind (get_ComputationStatementKind g).
Proof. framed_struct put_ComputationStatementKind get_ComputationStatementKind n. Qed.
#[local] Hint Resolve ComputationStatementKind_framed : codec.

Lemma ComputationStatement_framed : Framed n put_ComputationStatement (get_ComputationStatement g).
Proof. framed_struct put_ComputationStatement get_ComputationStatement n. Qed.

End framed_level.

(** ** All levels *)

Record GettersCodec (d : nat) (g : Getters) : Prop := {
  Expr_codec : Codec d put_Expr (rec_Expr g);
  Pattern_codec : Codec d put_Pattern (rec_Pattern g);
  ComputationBlock_codec : Codec d put_ComputationBlock (rec_ComputationBlock g) }.

Record GettersFramed (n : nat) (g : Getters) : Prop := {
  Expr_framed : Framed n put_Expr (rec_Expr g);
  Pattern_framed : Framed n put_Pattern (rec_Pattern g);
  ComputationBlock_framed : Framed n put_ComputationBlock (rec_ComputationBlock g) }.

Lemma getters_codec n : forall d, MAX_DEPTH <= d + n -> GettersCodec d (getters n).
Proof.
  induction n as [|n IH]; intros d Hd; cbn [getters].
  { split; apply Codec_limit; (lia || (intros []; by do 2 eexists)). }
  destruct (IH (S d) ltac:(lia)) as [HE HP HB].
  pose proof (Codec_nest d _ _ (fun _ => ExprKind_codec _ _ HE HP HB)).
  pose proof (Codec_nest d _ _ (fun _ => PatternKind_codec _ _ HE HP)).
  pose proof (Codec_nest d _ _ (fun _ =>
    Codec_Vec _ _ _ (ComputationStatement_codec _ _ HE HP HB))).
  split; [codec_struct put_Expr get_Expr|codec_struct put_Pattern get_Pattern|
          codec_struct put_ComputationBlock get_ComputationBlock].
Qed.

Lemma getters_framed n : GettersFramed n (getters n).
Proof.
  induction n as [|n [HE HP HB]]; cbn [getters]; cbv zeta.
  { split; apply Framed_fail; intros []; cbn [put_Expr put_Pattern put_ComputationBlock];
      (apply WF_bind; [apply WF_nest_0|repeat wf_step]). }
  pose proof (Framed_nest _ _ _ (ExprKind_framed _ _ HE HP HB)).
  pose proof (Framed_nest _ _ _ (PatternKind_framed _ _ HE HP)).
  pose proof (Framed_nest _ _ _ (Framed_Vec _ _ _ (ComputationStatement_framed _ _ HE HP HB))).
  split; cbn [rec_Expr rec_Pattern rec_ComputationBlock];
   [framed_struct put_Expr get_Expr (S n)|framed_struct put_Pattern get_Pattern (S n)|
          framed_struct put_ComputationBlock get_ComputationBlock (S n)].
Qed.

#[export] Instance Expr_laws : WireLaws Expr.
Proof.
  split; intros n; [apply getters_codec; lia|].
  exact (Framed_join _ _ _ _ _ (Expr_framed _ _ (getters_framed n))
    (Expr_framed _ _ (getters_framed MAX_DEPTH))).
Qed.

(** ** Kinds *)

Definition put_Kind_level (self : Kind) : Put :=
  match self with
  | Kind_Type => Writer.tag 0
  | Kind_Arrow argument result => Writer.tag 1 ;;; put_Kind argument ;;; put_Kind result
  end.

Lemma put_Kind_nest (self : Kind) : put_Kind self = nest (put_Kind_level self).
Proof. by destruct self. Qed.

Definition get_Kind_level (rec_Kind : Get Kind) : Get Kind :=
  let? byte := Reader.byte in
  match uval byte with
  | 0%N => ret Kind_Type
  | 1%N =>
    let? argument := rec_Kind in
    let? result := rec_Kind in
    ret (Kind_Arrow argument result)
  | _ => fail mk_Invalid
  end.

Lemma Kind_codec n : forall d, MAX_DEPTH <= d + n -> Codec d put_Kind (get_Kind_fuel n).
Proof.
  induction n as [|n IH]; intros d Hd; cbn [get_Kind_fuel].
  { split; [|intros; apply CN_fail]. intros a w w' _ Hw Hl E. rewrite put_Kind_nest in E.
    unfold nest, Writer.enter in E. destruct (Nat.leb_spec (w_limit w) (w_depth w)); [done|lia]. }
  assert (Codec d (fun a => nest (put_Kind_level a)) (nested (get_Kind_level (get_Kind_fuel n)))) as [H1 H2].
  { apply Codec_nest. intros _. specialize (IH (S d) ltac:(lia)).
    codec_struct put_Kind_level get_Kind_level. }
  split.
  - intros a. rewrite put_Kind_nest. apply H1.
  - intros src. eapply CN_impl; [apply H2|]. intros a bs H. by rewrite put_Kind_nest.
Qed.

Lemma Kind_framed n : Framed n put_Kind (get_Kind_fuel n).
Proof.
  induction n as [|n IH]; cbn [get_Kind_fuel].
  { apply Framed_fail. intros a. rewrite put_Kind_nest. apply WF_nest_0. }
  assert (Framed n put_Kind_level (get_Kind_level (get_Kind_fuel n))) as H.
  { framed_struct put_Kind_level get_Kind_level n. }
  apply Framed_nest in H as [H1 H2 H3]. split; [done| |done].
  intros a. rewrite put_Kind_nest. apply H2.
Qed.

#[export] Instance Kind_laws : WireLaws Kind.
Proof.
  split; intros n; [apply Kind_codec; lia|].
  exact (Framed_join _ _ _ _ _ (Kind_framed n) (Kind_framed MAX_DEPTH)).
Qed.

(** ** Declarations *)

#[export] Instance TestDecl_laws : WireLaws TestDecl.
Proof. wire_laws put_TestDecl get_TestDecl. Qed.

#[export] Instance BenchDecl_laws : WireLaws BenchDecl.
Proof. wire_laws put_BenchDecl get_BenchDecl. Qed.

#[export] Instance ActivePattern_laws : WireLaws ActivePattern.
Proof. wire_laws put_ActivePattern get_ActivePattern. Qed.

#[export] Instance Visibility_laws : WireLaws Visibility.
Proof. unit_enum_laws Visibility_variants. Qed.

#[export] Instance Documentation_laws : WireLaws Documentation.
Proof. wire_laws put_Documentation get_Documentation. Qed.

(** A documentation comment is written in full. *)
Lemma doc_codec d : Codec d put_doc get.
Proof.
  unfold put_doc. split; intros.
  - apply RT_if_full, RT_put.
  - eapply CN_impl; [apply CN_get|]. intros. by apply emits_if_full.
Qed.

Lemma doc_framed n : Framed n put_doc get.
Proof.
  unfold put_doc. split; [apply RF_get| |apply SIM_get].
  intros. apply WF_if_full; [apply WF_put|apply WF_ret].
Qed.

#[local] Hint Resolve doc_codec doc_framed : codec.

#[export] Instance TypeAliasDecl_laws : WireLaws TypeAliasDecl.
Proof. wire_laws put_TypeAliasDecl get_TypeAliasDecl. Qed.

#[export] Instance ConstDecl_laws : WireLaws ConstDecl.
Proof. wire_laws put_ConstDecl get_ConstDecl. Qed.

#[export] Instance DeriveClass_laws : WireLaws DeriveClass.
Proof. unit_enum_laws DeriveClass_variants. Qed.

#[export] Instance JsonName_laws : WireLaws JsonName.
Proof. wire_laws put_JsonName get_JsonName. Qed.

#[export] Instance Parameter_laws : WireLaws Parameter_.
Proof. wire_laws put_Parameter get_Parameter. Qed.

#[export] Instance RecordDecl_laws : WireLaws RecordDecl.
Proof. wire_laws put_RecordDecl get_RecordDecl. Qed.

#[export] Instance UnionCaseDecl_laws : WireLaws UnionCaseDecl.
Proof. wire_laws put_UnionCaseDecl get_UnionCaseDecl. Qed.

#[export] Instance UnionDecl_laws : WireLaws UnionDecl.
Proof. wire_laws put_UnionDecl get_UnionDecl. Qed.

#[export] Instance ContractKind_laws : WireLaws ContractKind.
Proof. unit_enum_laws ContractKind_variants. Qed.

#[export] Instance ContractClause_laws : WireLaws ContractClause.
Proof. wire_laws put_ContractClause get_ContractClause. Qed.

#[export] Instance ConstraintName_laws : WireLaws ConstraintName.
Proof. wire_laws put_ConstraintName get_ConstraintName. Qed.

#[export] Instance ConstraintExpr_laws : WireLaws ConstraintExpr.
Proof. wire_laws put_ConstraintExpr get_ConstraintExpr. Qed.

#[export] Instance FunctionDecl_laws : WireLaws FunctionDecl.
Proof. wire_laws put_FunctionDecl get_FunctionDecl. Qed.

#[export] Instance LinkName_laws : WireLaws LinkName.
Proof. wire_laws put_LinkName get_LinkName. Qed.

#[export] Instance SignatureDecl_laws : WireLaws SignatureDecl.
Proof. wire_laws put_SignatureDecl get_SignatureDecl. Qed.

#[export] Instance ExternTypeDecl_laws : WireLaws ExternTypeDecl.
Proof. wire_laws put_ExternTypeDecl get_ExternTypeDecl. Qed.

#[export] Instance Definition_laws : WireLaws Definition_.
Proof. wire_laws put_Definition get_Definition. Qed.

#[export] Instance ClassDecl_laws : WireLaws ClassDecl.
Proof. wire_laws put_ClassDecl get_ClassDecl. Qed.

#[export] Instance InstanceDecl_laws : WireLaws InstanceDecl.
Proof. wire_laws put_InstanceDecl get_InstanceDecl. Qed.

#[export] Instance NoncanonicalKind_laws : WireLaws NoncanonicalKind.
Proof. unit_enum_laws NoncanonicalKind_variants. Qed.

#[export] Instance FixLevel_laws : WireLaws FixLevel.
Proof. unit_enum_laws FixLevel_variants. Qed.

#[export] Instance TextEdit_laws : WireLaws TextEdit.
Proof. wire_laws put_TextEdit get_TextEdit. Qed.

#[export] Instance Noncanonical_laws : WireLaws Noncanonical.
Proof. wire_laws put_Noncanonical get_Noncanonical. Qed.


(** ** Programs *)

(** Every trusted attribute names known properties only. *)
Definition trusted_known (program : Program_) : Prop := Forall trusted_ok (Program_trusted program).

Lemma RT_Program d program : trusted_known program -> RT d (put_Program program) get_Program program 1.
Proof.
  unfold trusted_known. intros H.
  assert (RT d (put (Program_trusted program)) get (Program_trusted program) 1) as HT.
  { apply RT_Vec_of. intros a Ha. apply RT_TrustedAttribute. by eapply Forall_forall in H. }
  destruct program. unfold put_Program, get_Program.
  repeat first [eapply RT_field; [exact HT|lia|cbv beta] | rt_step].
Qed.

Lemma CN_Program d src :
  CN d src get_Program
    (fun program bs => emits d src (put_Program program) bs /\ trusted_known program).
Proof.
  pose proof (fun d src => CN_Vec_of put get_TrustedAttribute d _ src (CN_TrustedAttribute d src)) as HT.
  unfold get_Program.
  repeat first [cn_field | eapply CN_bind; [apply HT|intros ?? [??]; cbv beta]].
  apply CN_ret. split; [|done]. unfold put_Program. repeat emits_step.
Qed.

Lemma Program_framed n : Framed n put_Program get_Program.
Proof.
  pose proof (Framed_Vec n _ _ (TrustedAttribute_framed n)) as HT.
  framed_struct put_Program get_Program n.
Qed.
