(* ===== verification/Codec.v ===== *)
(** * The contract of the syntax codec

    What [encode] and [decode] of a whole program promise to the cache and the interface files; and the fuel of the
    recursive decoders, an artefact of the model: with [MAX_DEPTH] units or more, the result does not depend on it, because
    [Reader.enter] refuses a deeper level first. *)
From S2P Require Import Prelude Wire Syntax SyntaxCodec WireLaws WirePrims SyntaxLaws ExprLaws.
Local Open Scope nat_scope.
Local Open Scope monad_scope.

(** ** Entry points and the laws *)

Lemma encode_emits program source bs :
  emits 0 source (put_Program program) bs -> encode program source Mode_Full = Ok bs.
Proof.
  intros H. unfold encode, encode_within. change (put program) with (put_Program program).
  by rewrite H by (reflexivity || done).
Qed.

Lemma encode_reads program source bs :
  trusted_known program -> encode program source Mode_Full = Ok bs -> fits bs ->
  reads get_Program 0 source bs program.
Proof.
  unfold encode, encode_within. change (put program) with (put_Program program). intros HT E Hf.
  destruct (put_Program program _) as [[[]|] w] eqn:Ew; simplify_eq.
  destruct (RT_Program 0 program HT (Writer.new Mode_Full source MAX_DEPTH) w)
    as (bs & -> & _ & Hr); [done..|].
  by apply Hr.
Qed.

Lemma decode_emits bs source program :
  decode bs source = Ok program ->
  emits 0 source (put_Program program) bs /\ trusted_known program.
Proof.
  unfold decode. change get with get_Program.
  destruct (get_Program _) as [[p|] r] eqn:Er; [|done].
  case_decide as Hat; [|done]. intros ?; simplify_eq.
  apply (CN_Program 0 source) in Er as (bs' & (-> & Htake & _) & HQ); [|done..| unfold reader_ok; simpl; lia].
  simpl in *. rewrite Hat, take_ge in Htake by (rewrite length_drop; lia). by subst bs'.
Qed.

Lemma decode_reads bs source program suf :
  reads get_Program 0 source bs program ->
  decode (bs ++ suf) source = if decide (suf = []) then Ok program else Err mk_Invalid.
Proof.
  intros H. unfold decode. change get with get_Program. specialize (H [] suf). simpl in H.
  rewrite H. simpl. rewrite length_app. destruct suf; simpl.
  - by rewrite !decide_True by (done || lia).
  - by rewrite !decide_False by (done || lia).
Qed.

Lemma decode_nil_r bs source program :
  reads get_Program 0 source bs program -> decode bs source = Ok program.
Proof. intros H. apply (decode_reads _ _ _ []) in H. by rewrite app_nil_r in H. Qed.

(** ** Sample program

    One function with a nested body, a trusted attribute and spans, on which the theorems below are
    applied. *)
Module Sample.
Definition u {w} (n : N) : uint w := uint_wrap w n.

Definition span (a b : N) : Span := mk_Span (u a) (u b) (Some (u 3)).

(** "f" *)
Definition text : RString := mk_RString [u 102] eq_refl.

Definition name : Ident := mk_Ident text (span 4 5) Provenance_User.

Definition expr (kind : ExprKind) : Expr := mk_Expr kind (span 8 9) (u 1).

Definition body : Expr :=
  expr (ExprKind_Unary UnaryOp_Negate (expr (ExprKind_Integer (u 300) None))).

Definition function : FunctionDecl :=
  mk_FunctionDecl (Some (mk_Documentation text (span 0 2))) name [] None Visibility_Public false false
    true [] (mk_TypeExpr (TypeExprKind_Named text) (span 6 7)) [] body [].

Definition program (entry : option Expr) (properties : N) : Program_ :=
  mk_Program None None [] [] [] [] [] [] [] [function] [] [] [] [] [] entry [] [] []
    [mk_TrustedAttribute name (u properties) (span 0 2)] [] [] [u 0].

Definition bytes (program : Program_) : list u8 :=
  match encode program (u 3) Mode_Full with Ok bytes => bytes | Err _ => [] end.
End Sample.

(** ** Theorems *)

(** C1: what [encode] writes in full mode, [decode] reads back as the same program, for every program
    whose trusted attributes name known properties. *)
Theorem decode_encode program source bytes :
  trusted_known program -> encode program source Mode_Full = Ok bytes -> fits bytes ->
  decode bytes source = Ok program.
Proof. intros. by apply decode_nil_r, encode_reads. Qed.

Lemma decode_encode_witness :
  decode (Sample.bytes (Sample.program (Some Sample.body) 5)) (Sample.u 3)
  = Ok (Sample.program (Some Sample.body) 5).
Proof.
  apply decode_encode.
  - repeat constructor.
  - reflexivity.
  - vm_compute. reflexivity.
Defined.

(** C2: the encoding is canonical. Bytes that [decode] accepts are the bytes [encode] writes for the
    program they stand for, and that program is in the domain of the round trip. *)
Theorem encode_decode bytes source program :
  decode bytes source = Ok program ->
  encode program source Mode_Full = Ok bytes /\ trusted_known program.
Proof. intros [? ?]%decode_emits. split; [by apply encode_emits|done]. Qed.

Lemma encode_decode_witness :
  encode (Sample.program None 5) (Sample.u 3) Mode_Full = Ok (Sample.bytes (Sample.program None 5)) /\
  trusted_known (Sample.program None 5).
Proof. apply encode_decode. vm_compute. reflexivity. Defined.

(** Encodings are self-delimiting: [decode] rejects an accepted encoding with bytes after it. *)
Lemma decode_prefix_free bytes source program suffix :
  decode bytes source = Ok program -> fits bytes -> suffix <> [] ->
  decode (bytes ++ suffix) source = Err mk_Invalid.
Proof.
  intros [He HT]%decode_emits Hf Hs. apply encode_emits, encode_reads in He; [|done..].
  rewrite (decode_reads _ _ _ suffix He). by apply decide_False.
Qed.

(** An encoding does not name the source index it was made at: decoded at another index it stands
    for a program that is encoded by the same bytes there. *)
Lemma decode_relocate bytes source source' program :
  decode bytes source = Ok program ->
  exists program', decode bytes source' = Ok program' /\
    encode program' source' Mode_Full = Ok bytes.
Proof.
  intros H. assert (exists program', decode bytes source' = Ok program') as [program' H'].
  { revert H. unfold decode. change get with get_Program.
    destruct (framed_sim _ _ _ (Program_framed 0) (mk_Reader bytes 0 source 0) source') as [Er Ea].
    change (set_source (mk_Reader bytes 0 source 0) source') with (mk_Reader bytes 0 source' 0) in Er, Ea.
    destruct (get_Program (mk_Reader bytes 0 source 0)) as [[a|] r]; [|done].
    destruct (get_Program _) as [[b|] r']; simpl in *; subst; [|done].
    case_decide as Hd; [|done]. intros _. exists b. by rewrite decide_True. }
  exists program'. split; [done|]. apply encode_emits. by apply decode_emits.
Qed.

(** On success and on error, writing a program appends bytes and changes nothing else: the mode,
    the source, the limit and the depth are those before the call. *)
Lemma put_Program_appends program w :
  exists bytes, snd (put_Program program w) = Writer.extend w bytes.
Proof. exact (framed_wf _ _ _ (Program_framed _) program w (le_n _)). Qed.

(** On success and on error, reading a program stays inside the bytes, never moves back, and
    leaves the bytes, the source and the depth as they were. *)
Lemma get_Program_frame r : reader_ok r -> frame r (snd (get_Program r)).
Proof. exact (framed_rf _ _ _ (Program_framed 0) r). Qed.

(** [Reader.number] reads back every [u128] that [Writer.number] writes, whatever follows it; the
    code has 1 to 19 bytes. *)
Lemma number_roundtrip (v : u128) w suffix source depth :
  exists bytes, Writer.number v w = (Ok tt, Writer.extend w bytes) /\ 1 <= length bytes <= 19 /\
  Reader.number (mk_Reader (bytes ++ suffix) 0 source depth) =
    (Ok v, mk_Reader (bytes ++ suffix) (length bytes) source depth).
Proof.
  exists (leb128 19 (uval v)). split_and!; [apply number_complete| | |].
  - apply leb128_length. lia.
  - apply leb128_length. lia.
  - exact (reads_number depth source v [] suffix).
Qed.

(** A number has one code. What [Reader.number] accepts is what [Writer.number] writes: no
    redundant zero group, no bit above the 128th. *)
Lemma number_canonical r v r' :
  reader_ok r -> Reader.number r = (Ok v, r') ->
  exists bytes, consumes r bytes r' /\ forall w, Writer.number v w = (Ok tt, Writer.extend w bytes).
Proof.
  intros Hok H. destruct (CN_number _ _ r v r' eq_refl eq_refl Hok H) as (bs & Hc & He).
  exists bs. split; [done|]. intros w.
  specialize (He (mk_Writer [] Mode_Full (r_source r) (r_depth r) MAX_DEPTH) eq_refl eq_refl eq_refl (le_n _)).
  rewrite number_complete in He. apply (f_equal snd), extend_inj in He.
  by rewrite number_complete, He.
Qed.

(** ** Decoders that agree at a depth *)

(** At depth [d], [g1] and [g2] give the same result and the same reader. *)
Record agree {A} (d : nat) (g1 g2 : Get A) : Prop := mk_agree {
  agreement : forall r, reader_ok r -> r_depth r = d -> g1 r = g2 r /\ frame r (snd (g1 r)) }.
Arguments agreement {A d g1 g2}.

Section agree.
Context {A B : Type}.

Lemma agree_refl d (g : Get A) : RF g -> agree d g g.
Proof. intros H. split; intros r Hok _. split; [done|by apply H]. Qed.

Lemma agree_bind d (g1 g2 : Get A) (k1 k2 : A -> Get B) :
  agree d g1 g2 -> (forall a, agree d (k1 a) (k2 a)) -> agree d (bind g1 k1) (bind g2 k2).
Proof.
  intros H1 H2. split; intros r Hok Hd. unfold bind. destruct (agreement H1 r Hok Hd) as [<- Hf].
  destruct (g1 r) as [[a|e] r1]; simpl in *; [|done].
  destruct (agreement (H2 a) r1) as [<- Hf2]; [by eapply frame_ok|destruct Hf as [-> _]; done|].
  split; [done|by eapply frame_trans].
Qed.

Lemma agree_nested d (g1 g2 : Get A) :
  (d < MAX_DEPTH -> agree (S d) g1 g2) -> agree d (nested g1) (nested g2).
Proof.
  intros H. split; intros r Hok Hd. unfold nested, Reader.enter.
  destruct (Nat.leb_spec MAX_DEPTH (r_depth r)) as [|Hlt]; [by split; [|apply frame_refl]|].
  destruct (agreement (H ltac:(lia)) (Reader.set_depth r (S (r_depth r)))) as [<- [Hr Hl]]; [done|by subst|].
  destruct (g1 _) as [x r1]; simpl in *. split; [done|].
  rewrite Hr. split; [by destruct r|done].
Qed.

Lemma agree_sym d (g1 g2 : Get A) : agree d g1 g2 -> agree d g2 g1.
Proof. intros H. split; intros r Hok Hd. by destruct (agreement H r Hok Hd) as [<- Hf]. Qed.

(** Out of fuel at the limit: the next level is refused anyway. *)
Lemma agree_limit_nested d (g : Get A) :
  MAX_DEPTH <= d -> agree d (fail mk_Invalid) (nested g).
Proof.
  intros H. split; intros r Hok Hd. unfold nested, Reader.enter.
  destruct (Nat.leb_spec MAX_DEPTH (r_depth r)); [|lia]. split; [done|by apply frame_refl].
Qed.

Lemma agree_limit d (g : Get A) (k : A -> Get B) :
  MAX_DEPTH <= d -> agree d (fail mk_Invalid) (bind (nested g) k).
Proof.
  intros H. split; intros r Hok Hd. unfold bind, nested, Reader.enter.
  destruct (Nat.leb_spec MAX_DEPTH (r_depth r)); [|lia]. split; [done|by apply frame_refl].
Qed.

End agree.

Section containers.
Context {A B : Type}.

Lemma agree_each d (g1 g2 : Get A) n : agree d g1 g2 -> agree d (get_each g1 n) (get_each g2 n).
Proof.
  intros H. induction n as [|n IH]; simpl; [apply agree_refl, RF_ret|].
  apply agree_bind; [done|]. intros a. apply agree_bind; [done|]. intros l. apply agree_refl, RF_ret.
Qed.

Lemma agree_Vec d (g1 g2 : Get A) : agree d g1 g2 -> agree d (get_Vec g1) (get_Vec g2).
Proof.
  intros H. apply agree_bind; [apply agree_refl, RF_length|]. intros n. by apply agree_each.
Qed.

Lemma agree_Option d (g1 g2 : Get A) : agree d g1 g2 -> agree d (get_Option g1) (get_Option g2).
Proof.
  intros H. apply agree_bind; [apply agree_refl, RF_byte|]. intros b.
  repeat case_match; try (apply agree_refl; auto with codec; fail).
  apply agree_bind; [done|]. intros a. apply agree_refl, RF_ret.
Qed.

Lemma agree_pair d (g1 g2 : Get A) (g : Get B) :
  RF g -> agree d g1 g2 -> agree d (get_pair g g1) (get_pair g g2).
Proof.
  intros Hg H. apply agree_bind; [by apply agree_refl|]. intros b.
  apply agree_bind; [done|]. intros a. apply agree_refl, RF_ret.
Qed.
End containers.

Create HintDb agree discriminated.
#[local] Hint Resolve agree_Vec agree_Option agree_pair : agree.
#[local] Hint Extern 1 (RF get) => apply RF_get : agree.

Lemma RF_operation : RF get_operation.
Proof. exact (framed_rf _ _ _ (operation_framed 0)). Qed.

#[local] Hint Resolve RF_operation : agree.

Ltac agree_step :=
  lazymatch goal with
  | |- agree _ (ret _) _ => apply agree_refl, RF_ret
  | |- agree _ (fail _) (fail _) => apply agree_refl, RF_fail
  | |- agree _ (bind Reader.byte _) _ => apply agree_bind; [apply agree_refl, RF_byte|intros ?]
  | |- agree _ (bind (nested _) _) _ =>
    apply agree_bind; [apply agree_nested; intros _; auto with agree|intros ?]
  | |- agree _ (bind _ _) _ =>
    apply agree_bind;
      [first [apply agree_refl; solve [auto with agree] | solve [auto with agree nocore]]|intros ?]
  | |- agree _ (match _ with _ => _ end) _ => case_match
  end.

(** ** One level *)

Lemma TypeExprKind_agree d g1 g2 :
  agree d g1 g2 -> agree d (get_TypeExprKind g1) (get_TypeExprKind g2).
Proof. intros H. unfold get_TypeExprKind, variant. repeat agree_step. Qed.

#[local] Hint Resolve TypeExprKind_agree : agree.

Section level.
Context (d : nat) (g1 g2 : Getters).
Context (HE : agree d (rec_Expr g1) (rec_Expr g2)) (HP : agree d (rec_Pattern g1) (rec_Pattern g2))
  (HB : agree d (rec_ComputationBlock g1) (rec_ComputationBlock g2)).

Lemma SelectHead_agree : agree d (get_SelectHead g1) (get_SelectHead g2).
Proof. unfold get_SelectHead, variant. repeat agree_step. Qed.
#[local] Hint Resolve SelectHead_agree : agree.

Lemma SelectArm_agree : agree d (get_SelectArm g1) (get_SelectArm g2).
Proof. unfold get_SelectArm, variant. repeat agree_step. Qed.
#[local] Hint Resolve SelectArm_agree : agree.

Lemma MatchArm_agree : agree d (get_MatchArm g1) (get_MatchArm g2).
Proof. unfold get_MatchArm, variant. repeat agree_step. Qed.
#[local] Hint Resolve MatchArm_agree : agree.

Lemma TryExpr_agree : agree d (get_TryExpr g1) (get_TryExpr g2).
Proof. unfold get_TryExpr, variant. repeat agree_step. Qed.
#[local] Hint Resolve TryExpr_agree : agree.

Lemma InterpolationHole_agree : agree d (get_InterpolationHole g1) (get_InterpolationHole g2).
Proof. unfold get_InterpolationHole, variant. repeat agree_step. Qed.
#[local] Hint Resolve InterpolationHole_agree : agree.

Lemma Interpolation_agree : agree d (get_Interpolation g1) (get_Interpolation g2).
Proof. unfold get_Interpolation, variant. repeat agree_step. Qed.
#[local] Hint Resolve Interpolation_agree : agree.

Lemma Binding_agree : agree d (get_Binding g1) (get_Binding g2).
Proof. unfold get_Binding, variant. repeat agree_step. Qed.
#[local] Hint Resolve Binding_agree : agree.

Lemma ExprKind_agree : agree d (get_ExprKind g1) (get_ExprKind g2).
Proof. unfold get_ExprKind, variant. repeat agree_step. Qed.

Lemma PatternKind_agree : agree d (get_PatternKind g1) (get_PatternKind g2).
Proof. unfold get_PatternKind, variant. repeat agree_step. Qed.

Lemma ComputationMatchArm_agree : agree d (get_ComputationMatchArm g1) (get_ComputationMatchArm g2).
Proof. unfold get_ComputationMatchArm, variant. repeat agree_step. Qed.
#[local] Hint Resolve ComputationMatchArm_agree : agree.

Lemma ComputationStatementKind_agree : agree d (get_ComputationStatementKind g1) (get_ComputationStatementKind g2).
Proof. unfold get_ComputationStatementKind, variant. repeat agree_step. Qed.
#[local] Hint Resolve ComputationStatementKind_agree : agree.

Lemma ComputationStatement_agree : agree d (get_ComputationStatement g1) (get_ComputationStatement g2).
Proof. unfold get_ComputationStatement, variant. repeat agree_step. Qed.

End level.

#[local] Hint Resolve ExprKind_agree PatternKind_agree ComputationStatement_agree : agree.

(** ** All levels *)

Lemma TypeExpr_fuel_agree n : forall m d, MAX_DEPTH <= d + n -> MAX_DEPTH <= d + m ->
  agree d (get_TypeExpr_fuel n) (get_TypeExpr_fuel m).
Proof.
  induction n as [|n IH]; intros [|m] d Hn Hm; cbn [get_TypeExpr_fuel].
  - apply agree_refl, RF_fail.
  - apply agree_limit. lia.
  - apply agree_sym, agree_limit. lia.
  - pose proof (IH m (S d) ltac:(lia) ltac:(lia)). unfold get_TypeExpr_with. repeat agree_step.
Qed.

Lemma Kind_fuel_agree n : forall m d, MAX_DEPTH <= d + n -> MAX_DEPTH <= d + m ->
  agree d (get_Kind_fuel n) (get_Kind_fuel m).
Proof.
  induction n as [|n IH]; intros [|m] d Hn Hm; cbn [get_Kind_fuel].
  - apply agree_refl, RF_fail.
  - apply agree_limit_nested. lia.
  - apply agree_sym, agree_limit_nested. lia.
  - pose proof (IH m (S d) ltac:(lia) ltac:(lia)). unfold get_Kind_with.
    apply agree_nested. intros _. repeat agree_step.
Qed.

Record getters_agree (d : nat) (g1 g2 : Getters) : Prop := {
  Expr_agree : agree d (rec_Expr g1) (rec_Expr g2);
  Pattern_agree : agree d (rec_Pattern g1) (rec_Pattern g2);
  ComputationBlock_agree : agree d (rec_ComputationBlock g1) (rec_ComputationBlock g2) }.

Lemma getters_fuel_agree n : forall m d, MAX_DEPTH <= d + n -> MAX_DEPTH <= d + m ->
  getters_agree d (getters n) (getters m).
Proof.
  induction n as [|n IH]; intros [|m] d Hn Hm; cbn [getters]; cbv zeta;
    [| | |destruct (IH m (S d) ltac:(lia) ltac:(lia))];
    (split; cbn [rec_Expr rec_Pattern rec_ComputationBlock];
     unfold get_Expr, get_Pattern, get_ComputationBlock).
  1-3: apply agree_refl, RF_fail.
  1-3: apply agree_limit; lia.
  1-3: apply agree_sym, agree_limit; lia.
  all: repeat agree_step.
Qed.

(** With fuel [MAX_DEPTH] or more the decoders of types, kinds, expressions, patterns and blocks
    do not depend on the fuel, on any input and at any depth: a decoder that fails does so because of
    the bytes or of the depth limit of the code. *)
Lemma decode_fuel_enough n r : MAX_DEPTH <= n -> reader_ok r ->
  get_TypeExpr_fuel n r = get_TypeExpr_fuel MAX_DEPTH r /\
  get_Kind_fuel n r = get_Kind_fuel MAX_DEPTH r /\
  rec_Expr (getters n) r = rec_Expr (getters MAX_DEPTH) r /\
  rec_Pattern (getters n) r = rec_Pattern (getters MAX_DEPTH) r /\
  rec_ComputationBlock (getters n) r = rec_ComputationBlock (getters MAX_DEPTH) r.
Proof.
  intros Hn Hr. destruct (getters_fuel_agree n MAX_DEPTH (r_depth r)) as [HE HP HB]; [lia..|].
  split_and!.
  - apply (TypeExpr_fuel_agree n MAX_DEPTH (r_depth r)); by try lia.
  - apply (Kind_fuel_agree n MAX_DEPTH (r_depth r)); by try lia.
  - by apply HE.
  - by apply HP.
  - by apply HB.
Qed.
