(* ===== verification/CodecInterface.v ===== *)
(** * The interface encoding, and the depth limit

    [Mode_Interface] writes what other modules can observe. [strip] erases what they cannot; the
    interface encoding of a program is that of the stripped program. *)
From S2P Require Import Prelude Wire Syntax SyntaxCodec WireLaws WirePrims SyntaxLaws.
From S2P Require Import ExprLaws Codec.
Local Open Scope nat_scope.
Local Open Scope monad_scope.

(** ** Erasure *)

Definition no_span : Span := mk_Span (uint_wrap 64 0) (uint_wrap 64 0) None.

Definition no_body : Expr := mk_Expr ExprKind_Unit no_span (uint_wrap 64 0).

Definition strip_TypeAliasDecl (d : TypeAliasDecl) : TypeAliasDecl :=
  let 'mk_TypeAliasDecl _ visibility name parameters target := d in
  mk_TypeAliasDecl None visibility name parameters target.

Definition strip_ConstDecl (d : ConstDecl) : ConstDecl :=
  let 'mk_ConstDecl _ visibility name ty value := d in mk_ConstDecl None visibility name ty value.

Definition strip_RecordDecl (d : RecordDecl) : RecordDecl :=
  let 'mk_RecordDecl _ visibility name parameters regions fields derives := d in
  mk_RecordDecl None visibility name parameters regions fields derives.

Definition strip_UnionDecl (d : UnionDecl) : UnionDecl :=
  let 'mk_UnionDecl _ visibility name parameters cases derives := d in
  mk_UnionDecl None visibility name parameters cases derives.

Definition strip_FunctionDecl (d : FunctionDecl) : FunctionDecl :=
  let 'mk_FunctionDecl _ name regions recursion visibility exported constant pure parameters result
    constraints _ _ := d in
  mk_FunctionDecl None name regions recursion visibility exported constant pure parameters result
    constraints no_body [].

Definition strip_SignatureDecl (d : SignatureDecl) : SignatureDecl :=
  let 'mk_SignatureDecl _ name regions recursion visibility exported constant pure parameters result
    constraints link := d in
  mk_SignatureDecl None name regions recursion visibility exported constant pure parameters result
    constraints link.

Definition strip_ExternTypeDecl (d : ExternTypeDecl) : ExternTypeDecl :=
  let 'mk_ExternTypeDecl _ visibility name := d in mk_ExternTypeDecl None visibility name.

(** The default methods of a class stay: an instance elsewhere may use them. *)
Definition strip_ClassDecl (d : ClassDecl) : ClassDecl :=
  let 'mk_ClassDecl _ name variable kind superclasses methods defaults := d in
  mk_ClassDecl None name variable kind superclasses (strip_SignatureDecl <$> methods) defaults.

Definition strip_method (d : Definition_) : Definition_ :=
  let 'mk_Definition name pure recursion parameters _ := d in
  mk_Definition name pure recursion parameters no_body.

Definition strip_InstanceDecl (d : InstanceDecl) : InstanceDecl :=
  let 'mk_InstanceDecl class ty constraints methods := d in
  mk_InstanceDecl class ty constraints (strip_method <$> methods).

Definition strip (program : Program_) : Program_ :=
  let 'mk_Program source_kind namespace usings type_aliases constants externs extern_types records
    unions functions classes instances active_patterns _ _ _ dyn_types cpu_attributes
    effect_attributes trusted _ aliases _ := program in
  mk_Program source_kind namespace usings (strip_TypeAliasDecl <$> type_aliases)
    (strip_ConstDecl <$> constants) (strip_SignatureDecl <$> externs)
    (strip_ExternTypeDecl <$> extern_types) (strip_RecordDecl <$> records)
    (strip_UnionDecl <$> unions) (strip_FunctionDecl <$> functions) (strip_ClassDecl <$> classes)
    (strip_InstanceDecl <$> instances) active_patterns [] [] None dyn_types cpu_attributes
    effect_attributes trusted [] aliases [].

(** ** Writers that agree in interface mode *)

Record hidden (m1 m2 : Put) : Prop := mk_hidden {
  hidden_eq : forall w, w_mode w = Mode_Interface ->
    m1 w = m2 w /\ w_mode (snd (m1 w)) = Mode_Interface }.

Lemma hidden_refl m : (forall n, WF n m) -> hidden m m.
Proof.
  intros H. split; intros w Hw. split; [done|]. destruct (H _ w (le_n _)) as [bs ->]. done.
Qed.

Lemma hidden_put {A} `{WireLaws A} (a : A) : hidden (put a) (put a).
Proof. apply hidden_refl. intros n. apply WF_put. Qed.

Lemma hidden_bind m1 m1' m2 m2' :
  hidden m1 m1' -> hidden m2 m2' -> hidden (m1 ;;; m2) (m1' ;;; m2').
Proof.
  intros H1 H2. split; intros w Hw. unfold bind. destruct (hidden_eq _ _ H1 w Hw) as [<- Hm].
  destruct (m1 w) as [[a|e] w1]; simpl in *; [|done]. by apply H2.
Qed.

(** The group of a full encoding is skipped: what it would have written does not matter. *)
Lemma hidden_if_full m1 m1' m2 m2' : hidden m2 m2' -> hidden (if_full m1 m2) (if_full m1' m2').
Proof. intros H. split; intros w Hw. unfold if_full, Writer.full. rewrite Hw. by apply H. Qed.

Lemma hidden_ret : hidden (ret tt) (ret tt).
Proof. by split. Qed.

Lemma hidden_each {A B} (p : A -> Put) (p' : B -> Put) (f : A -> B) l :
  (forall a, hidden (p a) (p' (f a))) -> hidden (put_each p l) (put_each p' (f <$> l)).
Proof.
  intros H. induction l as [|a l IH]; cbn [put_each fmap list_fmap]; [apply hidden_ret|].
  by apply hidden_bind.
Qed.

Lemma hidden_length {A B} (f : A -> B) (l : list A) m m' :
  hidden m m' -> hidden (Writer.number (len l) ;;; m) (Writer.number (len (f <$> l)) ;;; m').
Proof.
  intros H. unfold len. rewrite length_fmap.
  apply hidden_bind; [apply hidden_refl; intros; apply WF_number|done].
Qed.

Lemma hidden_Vec {A} (p : A -> Put) (f : A -> A) l :
  (forall a, hidden (p a) (p (f a))) -> hidden (put_Vec p l) (put_Vec p (f <$> l)).
Proof. intros H. by apply hidden_length, hidden_each. Qed.

Lemma hidden_Vec_put {A} `{Wire A} (f : A -> A) (l : list A) :
  (forall a, hidden (put a) (put (f a))) -> hidden (put l) (put (f <$> l)).
Proof. exact (hidden_Vec put f l). Qed.

Lemma hidden_doc doc : hidden (put_doc doc) (put_doc None).
Proof. apply hidden_if_full, hidden_ret. Qed.

Create HintDb hidden discriminated.
#[local] Hint Resolve hidden_Vec hidden_doc hidden_ret : hidden.

Ltac hidden_step :=
  lazymatch goal with
  | |- hidden (bind _ _) _ => apply hidden_bind
  | |- hidden (if_full _ _) _ => apply hidden_if_full
  | |- hidden (put_doc _) _ => apply hidden_doc
  | |- hidden (ret _) _ => apply hidden_ret
  | |- hidden ?m ?m =>
    first [apply hidden_put
          | apply hidden_refl; intros; eapply framed_wf; apply Framed_Vec, TrustedAttribute_framed]
  | |- hidden (put (A := list _) _) _ =>
    apply hidden_Vec_put; intros ?; solve [eauto with hidden nocore]
  end.

Ltac hidden_struct p s := intros []; unfold p, s; repeat hidden_step.

(** ** Each declaration *)

Lemma hidden_TypeAliasDecl d : hidden (put_TypeAliasDecl d) (put_TypeAliasDecl (strip_TypeAliasDecl d)).
Proof. revert d. hidden_struct put_TypeAliasDecl strip_TypeAliasDecl. Qed.

Lemma hidden_ConstDecl d : hidden (put_ConstDecl d) (put_ConstDecl (strip_ConstDecl d)).
Proof. revert d. hidden_struct put_ConstDecl strip_ConstDecl. Qed.

Lemma hidden_RecordDecl d : hidden (put_RecordDecl d) (put_RecordDecl (strip_RecordDecl d)).
Proof. revert d. hidden_struct put_RecordDecl strip_RecordDecl. Qed.

Lemma hidden_UnionDecl d : hidden (put_UnionDecl d) (put_UnionDecl (strip_UnionDecl d)).
Proof. revert d. hidden_struct put_UnionDecl strip_UnionDecl. Qed.

Lemma hidden_FunctionDecl d : hidden (put_FunctionDecl d) (put_FunctionDecl (strip_FunctionDecl d)).
Proof. revert d. hidden_struct put_FunctionDecl strip_FunctionDecl. Qed.

Lemma hidden_SignatureDecl d : hidden (put_SignatureDecl d) (put_SignatureDecl (strip_SignatureDecl d)).
Proof. revert d. hidden_struct put_SignatureDecl strip_SignatureDecl. Qed.

Lemma hidden_ExternTypeDecl d :
  hidden (put_ExternTypeDecl d) (put_ExternTypeDecl (strip_ExternTypeDecl d)).
Proof. revert d. hidden_struct put_ExternTypeDecl strip_ExternTypeDecl. Qed.

#[local] Hint Resolve hidden_TypeAliasDecl hidden_ConstDecl hidden_RecordDecl hidden_UnionDecl
  hidden_FunctionDecl hidden_SignatureDecl hidden_ExternTypeDecl : hidden.

Lemma hidden_ClassDecl d : hidden (put_ClassDecl d) (put_ClassDecl (strip_ClassDecl d)).
Proof.
  destruct d; unfold put_ClassDecl, strip_ClassDecl.
  repeat hidden_step.
Qed.

Lemma hidden_InstanceDecl d : hidden (put_InstanceDecl d) (put_InstanceDecl (strip_InstanceDecl d)).
Proof.
  destruct d as [class ty constraints methods]; unfold put_InstanceDecl, strip_InstanceDecl.
  do 4 try hidden_step. apply hidden_length, hidden_each.
  intros []. cbn [strip_method]. repeat hidden_step.
Qed.

#[local] Hint Resolve hidden_ClassDecl hidden_InstanceDecl : hidden.

Lemma hidden_Program program : hidden (put_Program program) (put_Program (strip program)).
Proof.
  destruct program; unfold put_Program, strip.
  repeat hidden_step.
Qed.

(** The interface encoding does not depend on documentation comments, on function bodies and
    contracts, on the bodies of instance methods, on tests, benches and the entry code, nor on what the
    full mode alone records (non-canonical spellings, declaration starts): it is the encoding of the
    program without them, error cases included. *)
Lemma interface_hides program source :
  encode program source Mode_Interface = encode (strip program) source Mode_Interface.
Proof.
  unfold encode, encode_within. change put with put_Program.
  by destruct (hidden_eq _ _ (hidden_Program program) (Writer.new Mode_Interface source MAX_DEPTH) eq_refl)
    as [-> _].
Qed.

(** ** The depth limit *)

Fixpoint kind_depth (k : Kind) : nat :=
  match k with
  | Kind_Type => 1
  | Kind_Arrow argument result => S (max (kind_depth argument) (kind_depth result))
  end.

Lemma put_Kind_depth k w :
  fst (put_Kind k w) = if decide (kind_depth k <= w_limit w - w_depth w) then Ok tt else Err mk_Invalid.
Proof.
  revert w. induction k as [|a IHa b IHb]; intros w; rewrite put_Kind_nest; unfold nest, Writer.enter;
    destruct (Nat.leb_spec (w_limit w) (w_depth w)); cbn [kind_depth fst];
    try (by rewrite decide_False by lia).
  - by rewrite decide_True by lia.
  - cbn [put_Kind_level]. unfold bind.
    remember (Writer.extend (Writer.set_depth w (S (w_depth w))) [uint_wrap 8 1]) as w1 eqn:Ew.
    change (Writer.tag 1 (Writer.set_depth w (S (w_depth w)))) with
      (Ok (E := Invalid) tt, Writer.extend (Writer.set_depth w (S (w_depth w))) [uint_wrap 8 1]).
    rewrite <- Ew; cbv iota beta. pose proof (IHa w1) as Ha.
    destruct (framed_wf _ _ _ (Kind_framed (w_limit w1 - w_depth w1)) a w1 (le_n _)) as [bs Hw].
    destruct (put_Kind a w1) as [[[]|[]] w2]; cbn [fst snd] in *; subst w2; subst w1.
    + specialize (IHb (Writer.extend (Writer.extend (Writer.set_depth w (S (w_depth w)))
        [uint_wrap 8 1]) bs)).
      destruct (put_Kind b _) as [x w3]; cbn [fst snd] in *. subst x. simpl in *.
      repeat case_decide; try done; lia.
    + simpl in *. repeat case_decide; try done; lia.
Qed.

(** The writer accepts exactly the kinds whose nesting is within its limit, in either mode. *)
Lemma kind_depth_limit k mode source limit :
  fst (put_Kind k (Writer.new mode source limit)) = Ok tt <-> kind_depth k <= limit.
Proof. rewrite put_Kind_depth. simpl. rewrite Nat.sub_0_r. by case_decide. Qed.
