(* ===== verification/Interval.v ===== *)
(** * Integer intervals and the overflow flags they prove

    [src/src/interval.rs]. Bounds are [i128] values: an [i128] is a [Z] in its range, and the
    operations of the code are those of the machine, wrapping where the code uses the plain operator
    and saturating where it asks for it. *)
From S2P Require Import Prelude.
From stdpp Require Import strings.
From Stdlib Require Export ZArith.
Local Open Scope Z_scope.

(** ** [i128] *)

Definition i128_MIN : Z := - 2 ^ 127.
Definition i128_MAX : Z := 2 ^ 127 - 1.

Definition is_i128 (z : Z) : Prop := i128_MIN <= z <= i128_MAX.

(** The [i128] congruent to [z]: the plain operators of an optimised build. *)
Definition i128 (z : Z) : Z := (z - i128_MIN) mod 2 ^ 128 + i128_MIN.

Definition saturate (z : Z) : Z := Z.max i128_MIN (Z.min i128_MAX z).
Definition saturating_add (a b : Z) : Z := saturate (a + b).
Definition saturating_sub (a b : Z) : Z := saturate (a - b).
Definition saturating_mul (a b : Z) : Z := saturate (a * b).

Definition div_euclid (a b : Z) : Z := i128 (if 0 <? b then a / b else - (a / - b)).

(** [values.into_iter().min().unwrap()] of a non-empty array given by its head and tail. *)
Definition minimum (first : Z) (rest : list Z) : Z := foldl Z.min first rest.
Definition maximum (first : Z) (rest : list Z) : Z := foldl Z.max first rest.

(** ** Integer types *)

Record Int := mk_Int {
  bits : Z;
  signed : bool }.

Record Interval := mk_Interval {
  low : Z;
  high : Z }.

Module Int.
Definition new (bits : Z) (signed : bool) : option Int :=
  if (1 <=? bits) && (bits <=? 64) then Some (mk_Int bits signed) else None.

Definition modulus (self : Int) : Z := i128 (Z.shiftl 1 (bits self)).

Definition min (self : Int) : Z :=
  if signed self then i128 (- Z.shiftr (modulus self) 1) else 0.

Definition max (self : Int) : Z :=
  if signed self then i128 (Z.shiftr (modulus self) 1 - 1) else i128 (modulus self - 1).

Definition full (self : Int) : Interval := mk_Interval (min self) (max self).

Definition with_sign (self : Int) (signed : bool) : Int := mk_Int (bits self) signed.
End Int.

(** ** Intervals *)

Module Interval.
Definition new (low high : Z) : Interval := mk_Interval low high.

Definition point (value : Z) : Interval := new value value.

Definition within (self outer : Interval) : bool :=
  (low outer <=? low self) && (high self <=? high outer).

Definition hull (self other : Interval) : Interval :=
  new (Z.min (low self) (low other)) (Z.max (high self) (high other)).

Definition meet (self other : Interval) : option Interval :=
  let low := Z.max (low self) (low other) in
  let high := Z.min (high self) (high other) in
  if low <=? high then Some (new low high) else None.
End Interval.

Definition LIMIT : Z := Z.shiftl 1 100.

(** ** Flags *)

Record Flags := mk_Flags {
  nsw : bool;
  nuw : bool }.

Module Flags.
Definition default : Flags := mk_Flags false false.

Definition UNSIGNED : Flags := mk_Flags false true.

Definition text (self : Flags) : string :=
  match nuw self, nsw self return string with
  | false, false => ""
  | false, true => "nsw "
  | true, false => "nuw "
  | true, true => "nuw nsw "
  end.
End Flags.

Inductive Operation := Add | Subtract | Multiply.

Record Outcome := mk_Outcome {
  flags : Flags;
  result : Interval }.

(** ** The operations *)

Definition reading (ty : Int) (interval : Interval) (sign : bool) : Interval :=
  if Bool.eqb (signed ty) sign then interval
  else
    let modulus := Int.modulus ty in
    if sign then
      if high interval <? Z.shiftr modulus 1 then interval
      else if Z.shiftr modulus 1 <=? low interval then
        Interval.new (i128 (low interval - modulus)) (i128 (high interval - modulus))
      else Int.full (Int.with_sign ty true)
    else if 0 <=? low interval then interval
    else if high interval <? 0 then
      Interval.new (i128 (low interval + modulus)) (i128 (high interval + modulus))
    else Int.full (Int.with_sign ty false).

Definition exact (operation : Operation) (left right : Interval) : Interval :=
  match operation with
  | Add =>
    Interval.new (saturating_add (low left) (low right)) (saturating_add (high left) (high right))
  | Subtract =>
    Interval.new (saturating_sub (low left) (high right)) (saturating_sub (high left) (low right))
  | Multiply =>
    let first := saturating_mul (low left) (low right) in
    let rest :=
      [saturating_mul (low left) (high right);
       saturating_mul (high left) (low right);
       saturating_mul (high left) (high right)] in
    Interval.new (minimum first rest) (maximum first rest)
  end.

Definition wrap (ty : Int) (interval : Interval) : Interval :=
  if Interval.within interval (Int.full ty) then interval
  else if (low interval <? - LIMIT) || (LIMIT <? high interval) then Int.full ty
  else
    let modulus := Int.modulus ty in
    let period value := div_euclid (i128 (value - Int.min ty)) modulus in
    if negb (period (low interval) =? period (high interval)) then Int.full ty
    else
      let shift := i128 (period (low interval) * modulus) in
      Interval.new (i128 (low interval - shift)) (i128 (high interval - shift)).

Definition arithmetic (operation : Operation) (ty : Int) (left right : Interval) : Outcome :=
  let signed := Int.with_sign ty true in
  let unsigned := Int.with_sign ty false in
  let as_signed := exact operation (reading ty left true) (reading ty right true) in
  let as_unsigned := exact operation (reading ty left false) (reading ty right false) in
  let result :=
    match Interval.meet (wrap ty as_signed) (wrap ty as_unsigned) with
    | Some result => result
    | None => Int.full ty
    end in
  mk_Outcome
    (mk_Flags (Interval.within as_signed (Int.full signed))
              (Interval.within as_unsigned (Int.full unsigned)))
    result.

Definition cast (to : Int) (interval : Interval) : Interval := wrap to interval.

Definition bit_and (ty : Int) (left right : Interval) : Interval :=
  let bound := Z.min (high (reading ty left false)) (high (reading ty right false)) in
  wrap ty (Interval.new 0 bound).

Definition remainder (ty : Int) (left right : Interval) : Interval :=
  let largest := Z.max (Z.abs (low right)) (Z.abs (high right)) in
  if largest =? 0 then Int.full ty
  else
    let most := if largest - 1 <=? i128_MAX then largest - 1 else i128_MAX in
    Interval.new
      (if 0 <=? low left then 0 else Z.max (low left) (i128 (- most)))
      (if high left <=? 0 then 0 else Z.min (high left) most).

(** One turn of the loop of [divide] for a piece of the divisor; [Z.quot] rounds toward zero. *)
Definition divide_piece (left divisor : Interval) : Interval :=
  let first := i128 (Z.quot (low left) (low divisor)) in
  let rest :=
    [i128 (Z.quot (low left) (high divisor));
     i128 (Z.quot (high left) (low divisor));
     i128 (Z.quot (high left) (high divisor))] in
  Interval.new (minimum first rest) (maximum first rest).

Definition divide (ty : Int) (left right : Interval) : Interval :=
  let pieces :=
    [Interval.meet right (Interval.new i128_MIN (-1)); Interval.meet right (Interval.new 1 i128_MAX)] in
  let quotient :=
    foldl (fun quotient divisor =>
      let piece := divide_piece left divisor in
      Some (match quotient with None => piece | Some known => Interval.hull known piece end))
      None (omap id pieces) in
  match mbind (fun quotient => Interval.meet quotient (Int.full ty)) quotient with
  | Some quotient => quotient
  | None => Int.full ty
  end.

Definition shift_right (left : Interval) (count : Z) : Interval :=
  Interval.new (Z.shiftr (low left) count) (Z.shiftr (high left) count).

Definition shift_right_logical (ty : Int) (left : Interval) (count : Z) : Interval :=
  wrap ty (shift_right (reading ty left false) count).

Definition complement (ty : Int) (value : Interval) : Interval :=
  let (low, high) :=
    if signed ty then (i128 (i128 (- high value) - 1), i128 (i128 (- low value) - 1))
    else (i128 (Int.max ty - high value), i128 (Int.max ty - low value)) in
  Interval.new low high.

Definition shift_left (ty : Int) (left : Interval) (count : Z) : Interval :=
  wrap ty (exact Multiply left (Interval.point (i128 (Z.shiftl 1 count)))).

Example arithmetic_sample :
  arithmetic Add (mk_Int 8 true) (mk_Interval 100 100) (mk_Interval 20 28) =
  mk_Outcome (mk_Flags false true) (mk_Interval (-128) 127).
Proof. reflexivity. Qed.
