(* ===== verification/IntervalLaws.v ===== *)
(** * Soundness of the interval operations

    The reference reads a value as a bit pattern: [cut ty z] is the number of type [ty] with the low
    bits of [z]. Every operation of [Interval] is proved to contain every value the operation can
    produce, for operands of an integer type of 1 to 64 bits. *)
From S2P Require Import Prelude Interval.
Local Open Scope Z_scope.

(** ** The reference *)

Definition valid (ty : Int) : Prop := 1 <= bits ty <= 64.

(** The low [bits] of a number, and the number of a pattern. *)
Definition pattern (ty : Int) (z : Z) : Z := z mod 2 ^ bits ty.

Definition number (ty : Int) (p : Z) : Z :=
  if signed ty && (2 ^ (bits ty - 1) <=? p) then p - 2 ^ bits ty else p.

Definition cut (ty : Int) (z : Z) : Z := number ty (pattern ty z).

Definition contains (i : Interval) (v : Z) : Prop := low i <= v <= high i.

(** A non-empty interval of values of [ty]. *)
Definition inside (ty : Int) (i : Interval) : Prop :=
  low i <= high i /\ Int.min ty <= low i /\ high i <= Int.max ty.

Definition apply (operation : Operation) (a b : Z) : Z :=
  match operation with Add => a + b | Subtract => a - b | Multiply => a * b end.

(** ** Machine integers *)

Ltac pow :=
  change (2 ^ 127) with 170141183460469231731687303715884105728 in *;
  change (2 ^ 128) with 340282366920938463463374607431768211456 in *;
  change (2 ^ 64) with 18446744073709551616 in *;
  change (2 ^ 63) with 9223372036854775808 in *.

Lemma i128_id z : is_i128 z -> i128 z = z.
Proof.
  unfold is_i128, i128, i128_MIN, i128_MAX. intros H. rewrite Z.mod_small; pow; lia.
Qed.

Lemma saturate_range z : i128_MIN <= saturate z <= i128_MAX.
Proof. unfold saturate, i128_MIN, i128_MAX. pow. lia. Qed.

Lemma saturate_id z : is_i128 z -> saturate z = z.
Proof. unfold is_i128, saturate. lia. Qed.

Lemma saturate_mono a b : a <= b -> saturate a <= saturate b.
Proof. unfold saturate. lia. Qed.

(** Saturation does not move a number across a bound strictly inside [i128]. *)
Lemma saturate_le z b : i128_MIN <= b < i128_MAX -> saturate z <= b <-> z <= b.
Proof. unfold saturate. lia. Qed.

Lemma saturate_ge z b : i128_MIN < b <= i128_MAX -> b <= saturate z <-> b <= z.
Proof. unfold saturate. lia. Qed.

Section type_bounds.
Context (ty : Int) (Hty : valid ty).

Definition half : Z := 2 ^ (bits ty - 1).

Lemma half_range : 1 <= half <= 2 ^ 63.
Proof using Hty.
  unfold half, valid in *. split.
  - pose proof (Z.pow_pos_nonneg 2 (bits ty - 1)). lia.
  - apply Z.pow_le_mono_r; lia.
Qed.

Lemma pow_bits : 2 ^ bits ty = 2 * half.
Proof using Hty. unfold half, valid in *. rewrite <- Z.pow_succ_r by lia. f_equal. lia. Qed.

Lemma modulus_eq : Int.modulus ty = 2 * half.
Proof using Hty.
  unfold Int.modulus. rewrite Z.shiftl_1_l, pow_bits. apply i128_id.
  pose proof half_range. unfold is_i128, i128_MIN, i128_MAX. pow. lia.
Qed.

Lemma modulus_half : Z.shiftr (Int.modulus ty) 1 = half.
Proof using Hty.
  rewrite modulus_eq, Z.shiftr_div_pow2 by lia. change (2 ^ 1) with 2.
  rewrite Z.mul_comm. by rewrite Z.div_mul.
Qed.

Lemma min_eq : Int.min ty = if signed ty then - half else 0.
Proof using Hty.
  unfold Int.min. destruct (signed ty); [|done]. rewrite modulus_half. apply i128_id.
  pose proof half_range. unfold is_i128, i128_MIN, i128_MAX. pow. lia.
Qed.

Lemma max_eq : Int.max ty = if signed ty then half - 1 else 2 * half - 1.
Proof using Hty.
  unfold Int.max. pose proof half_range.
  destruct (signed ty); rewrite ?modulus_half, ?modulus_eq; apply i128_id;
    unfold is_i128, i128_MIN, i128_MAX; pow; lia.
Qed.
End type_bounds.

Lemma half_with_sign ty s : half (Int.with_sign ty s) = half ty.
Proof. done. Qed.

Lemma valid_with_sign ty s : valid ty -> valid (Int.with_sign ty s).
Proof. done. Qed.

(** Everything about [ty] in terms of [half ty]. *)
Ltac type_bounds ty :=
  let H := fresh "Hh" in
  pose proof (half_range ty ltac:(done)) as H;
  repeat first
    [ rewrite (min_eq ty) in * by done | rewrite (max_eq ty) in * by done
    | rewrite (modulus_half ty) in * by done | rewrite (modulus_eq ty) in * by done
    | rewrite (pow_bits ty) in * by done ].

Ltac bounds := unfold is_i128, i128_MIN, i128_MAX in *; pow; lia.

(** [cut ty z] is the only value of [ty] congruent to [z]. *)
Lemma cut_spec ty z : valid ty ->
  Int.min ty <= cut ty z <= Int.max ty /\ exists k, cut ty z = z + k * (2 * half ty).
Proof.
  intros Hty. unfold cut, number, pattern. type_bounds ty. fold (half ty).
  pose proof (Z.mod_pos_bound z (2 * half ty) ltac:(lia)) as Hb.
  pose proof (Z.div_mod z (2 * half ty) ltac:(lia)) as Hd.
  set (q := z / (2 * half ty)) in *. set (p := z mod (2 * half ty)) in *.
  destruct (signed ty); simpl; [destruct (Z.leb_spec (half ty) p)|]; (split; [lia|]).
  - exists (- q - 1). lia.
  - exists (- q). lia.
  - exists (- q). lia.
Qed.

Lemma multiple_small m k a b : 0 < m -> a = b + k * m -> - m < a - b < m -> k = 0.
Proof. intros. nia. Qed.

Lemma cut_unique ty v z k : valid ty ->
  Int.min ty <= v <= Int.max ty -> v = z + k * (2 * half ty) -> cut ty z = v.
Proof.
  intros Hty Hv Hk. destruct (cut_spec ty z Hty) as [Hc [j Hj]]. type_bounds ty.
  assert (j - k = 0); [|nia].
  apply (multiple_small (2 * half ty) (j - k) (cut ty z) v); [lia|nia|].
  destruct (signed ty); lia.
Qed.

Lemma cut_id ty v : valid ty -> Int.min ty <= v <= Int.max ty -> cut ty v = v.
Proof. intros. apply (cut_unique ty v v 0); [done..|lia]. Qed.

(** ** Readings and wrapping *)

Lemma inside_i128 ty i : valid ty -> inside ty i -> is_i128 (low i) /\ is_i128 (high i).
Proof. intros Hty (H1 & H2 & H3). type_bounds ty. destruct (signed ty); bounds. Qed.

Lemma inside_full ty : valid ty -> inside ty (Int.full ty).
Proof.
  intros Hty. unfold inside, Int.full; simpl. type_bounds ty. destruct (signed ty); lia.
Qed.

Lemma contains_full ty z : valid ty -> contains (Int.full ty) (cut ty z).
Proof. intros Hty. by apply cut_spec. Qed.

Lemma reading_inside ty i s : valid ty -> inside ty i -> inside (Int.with_sign ty s) (reading ty i s).
Proof.
  intros Hty Hi. unfold reading. destruct (Bool.eqb_spec (signed ty) s) as [E|E].
  { destruct ty. simpl in *. by subst. }
  pose proof (inside_full (Int.with_sign ty s) (valid_with_sign ty s Hty)) as Hf.
  pose proof (inside_i128 ty i Hty Hi) as Hw. destruct Hi as (H1 & H2 & H3). unfold inside in *.
  type_bounds ty. pose proof (valid_with_sign ty s Hty). type_bounds (Int.with_sign ty s).
  rewrite half_with_sign in *. change (signed (Int.with_sign ty s)) with s in *.
  repeat case_match; try done; simpl in *;
    rewrite ?i128_id in * by bounds; destruct (signed ty); try done; lia.
Qed.

Lemma reading_contains ty i s v : valid ty -> inside ty i -> contains i v ->
  contains (reading ty i s) (cut (Int.with_sign ty s) v).
Proof.
  intros Hty Hi Hv. unfold reading, contains in *. destruct (Bool.eqb_spec (signed ty) s) as [E|E].
  { replace (Int.with_sign ty s) with ty by (destruct ty; simpl in *; by subst).
    rewrite cut_id; [done..|]. destruct Hi. lia. }
  pose proof (valid_with_sign ty s Hty) as Hs.
  pose proof (contains_full (Int.with_sign ty s) v Hs) as Hf. unfold contains in Hf.
  pose proof (inside_i128 ty i Hty Hi) as Hw. destruct Hi as (H1 & H2 & H3).
  assert (forall k, Int.min (Int.with_sign ty s) <= v + k * (2 * half ty) <= Int.max (Int.with_sign ty s) ->
    cut (Int.with_sign ty s) v = v + k * (2 * half ty)) as Hcut.
  { intros k Hk. by apply (cut_unique _ _ _ k). }
  pose proof (Hcut 0) as Hc0. pose proof (Hcut 1) as Hc1. pose proof (Hcut (-1)) as Hc2. clear Hcut.
  type_bounds ty. type_bounds (Int.with_sign ty s).
  rewrite half_with_sign in *. change (signed (Int.with_sign ty s)) with s in *.
  repeat case_match; try done; simpl in *;
    rewrite ?i128_id in * by bounds; destruct (signed ty); try done; lia.
Qed.

Lemma LIMIT_eq : LIMIT = 2 ^ 100.
Proof. reflexivity. Qed.

Lemma div_euclid_pos a b : is_i128 a -> 0 < b -> div_euclid a b = a / b.
Proof.
  intros Ha Hb. unfold div_euclid. rewrite (proj2 (Z.ltb_lt 0 b)) by done. apply i128_id.
  unfold is_i128, i128_MIN, i128_MAX in *. split.
  - apply Z.div_le_lower_bound; [done|]. pow. nia.
  - apply Z.div_le_upper_bound; [done|]. pow. nia.
Qed.

(** The two ways out of [wrap] besides the whole type: nothing to cut, or one shift by a whole number
    of periods. *)
Lemma wrap_cases ty i : valid ty -> low i <= high i ->
  wrap ty i = Int.full ty \/
  exists k, - LIMIT <= low i /\ high i <= LIMIT /\
    wrap ty i = mk_Interval (low i + k * (2 * half ty)) (high i + k * (2 * half ty)) /\
    inside ty (wrap ty i).
Proof.
  intros Hty Hi. unfold wrap. rewrite LIMIT_eq.
  change (2 ^ 100) with 1267650600228229401496703205376.
  destruct (Interval.within i (Int.full ty)) eqn:Ew.
  { right. exists 0. unfold Interval.within, Int.full in Ew; simpl in Ew.
    apply andb_prop in Ew as [E1%Z.leb_le E2%Z.leb_le]. unfold inside.
    type_bounds ty. pow. split_and!; try (destruct (signed ty); lia). destruct i; simpl. f_equal; lia. }
  destruct (_ || _) eqn:El; [by left|]. apply orb_false_elim in El as [E1%Z.ltb_ge E2%Z.ltb_ge].
  destruct (negb _) eqn:Ep; [by left|]. right. apply negb_false_iff, Z.eqb_eq in Ep. revert Ep.
  unfold inside. type_bounds ty. set (lo := if signed ty then - half ty else 0).
  assert (- 2 ^ 63 <= lo <= 0) as Hlo by (unfold lo; destruct (signed ty); lia).
  assert ((if signed ty then half ty - 1 else 2 * half ty - 1) = lo + 2 * half ty - 1) as ->
    by (unfold lo; destruct (signed ty); lia).
  clearbody lo. pow. rewrite !(i128_id (_ - lo)) by bounds. rewrite !div_euclid_pos by (lia || bounds).
  intros Ep.
  pose proof (Z.div_mod (low i - lo) (2 * half ty) ltac:(lia)) as D1.
  pose proof (Z.div_mod (high i - lo) (2 * half ty) ltac:(lia)) as D2.
  pose proof (Z.mod_pos_bound (low i - lo) (2 * half ty) ltac:(lia)) as M1.
  pose proof (Z.mod_pos_bound (high i - lo) (2 * half ty) ltac:(lia)) as M2.
  rewrite <- Ep in D2. set (q := (low i - lo) / (2 * half ty)) in *.
  rewrite (i128_id (q * _)) by bounds. rewrite !i128_id by bounds.
  exists (- q). unfold Interval.new; simpl. split_and!; try lia. f_equal; lia.
Qed.

Lemma wrap_inside ty i : valid ty -> low i <= high i -> inside ty (wrap ty i).
Proof.
  intros Hty Hi. destruct (wrap_cases ty i Hty Hi) as [->|(k & _ & _ & _ & H)]; [|done].
  by apply inside_full.
Qed.

Lemma wrap_contains ty i z : valid ty -> low i <= high i -> contains i (saturate z) ->
  contains (wrap ty i) (cut ty z).
Proof.
  intros Hty Hi Hz. destruct (wrap_cases ty i Hty Hi) as [->|(k & H1 & H2 & E & Hin)].
  { by apply contains_full. }
  rewrite E in Hin |- *. destruct Hin as (_ & Hlo & Hhi). unfold contains in *; simpl in *.
  rewrite LIMIT_eq in *. change (2 ^ 100) with 1267650600228229401496703205376 in *.
  assert (saturate z = z) as Ez by (unfold saturate, i128_MIN, i128_MAX in *; pow; lia).
  rewrite Ez in Hz. rewrite (cut_unique ty (z + k * (2 * half ty)) z k); [lia|done|lia|done].
Qed.

(** ** Exact arithmetic *)

Lemma minimum_le a b c d : minimum a [b; c; d] <= a /\ minimum a [b; c; d] <= b /\
  minimum a [b; c; d] <= c /\ minimum a [b; c; d] <= d /\
  (minimum a [b; c; d] = a \/ minimum a [b; c; d] = b \/ minimum a [b; c; d] = c \/
   minimum a [b; c; d] = d).
Proof. unfold minimum; simpl. lia. Qed.

Lemma maximum_ge a b c d : a <= maximum a [b; c; d] /\ b <= maximum a [b; c; d] /\
  c <= maximum a [b; c; d] /\ d <= maximum a [b; c; d] /\
  (maximum a [b; c; d] = a \/ maximum a [b; c; d] = b \/ maximum a [b; c; d] = c \/
   maximum a [b; c; d] = d).
Proof. unfold maximum; simpl. lia. Qed.

(** [x] is not outside [u] and [v], whatever their order. *)
Definition between (x u v : Z) : Prop := (u <= x \/ v <= x) /\ (x <= u \/ x <= v).

(** A function monotone in each argument, in either direction, is extreme at the corners. *)
Lemma corners (f : Z -> Z -> Z) al ah bl bh a b :
  between (f a b) (f al b) (f ah b) -> between (f al b) (f al bl) (f al bh) ->
  between (f ah b) (f ah bl) (f ah bh) ->
  (f al bl <= f a b \/ f al bh <= f a b \/ f ah bl <= f a b \/ f ah bh <= f a b) /\
  (f a b <= f al bl \/ f a b <= f al bh \/ f a b <= f ah bl \/ f a b <= f ah bh).
Proof. unfold between. lia. Qed.

Lemma product_between l h a b : l <= a <= h -> between (a * b) (l * b) (h * b).
Proof.
  intros Ha. destruct (Z.le_ge_cases 0 b).
  - split; [left|right]; apply Z.mul_le_mono_nonneg_r; lia.
  - split; [right|left]; apply Z.mul_le_mono_nonpos_r; lia.
Qed.

Lemma product_corners al ah bl bh a b : al <= a <= ah -> bl <= b <= bh ->
  (al * bl <= a * b \/ al * bh <= a * b \/ ah * bl <= a * b \/ ah * bh <= a * b) /\
  (a * b <= al * bl \/ a * b <= al * bh \/ a * b <= ah * bl \/ a * b <= ah * bh).
Proof.
  intros Ha Hb. apply (corners Z.mul); [by apply product_between|..];
    rewrite ?(Z.mul_comm al), ?(Z.mul_comm ah); by apply product_between.
Qed.

Lemma exact_contains operation i j a b : contains i a -> contains j b ->
  contains (exact operation i j) (saturate (apply operation a b)).
Proof.
  unfold contains. intros Ha Hb. destruct operation; cbn [exact apply Interval.new low high].
  - split; apply saturate_mono; lia.
  - split; apply saturate_mono; lia.
  - destruct (product_corners (low i) (high i) (low j) (high j) a b Ha Hb) as [Hl Hh].
    match goal with |- context [minimum ?a [?b; ?c; ?d]] =>
      destruct (minimum_le a b c d) as (?&?&?&?&_); destruct (maximum_ge a b c d) as (?&?&?&?&_) end.
    unfold saturating_mul in *.
    split.
    + destruct Hl as [H'|[H'|[H'|H']]]; apply saturate_mono in H'; lia.
    + destruct Hh as [H'|[H'|[H'|H']]]; apply saturate_mono in H'; lia.
Qed.

(** The bounds are those of two pairs of values. *)
Lemma exact_attained operation i j : low i <= high i -> low j <= high j ->
  (exists a b, contains i a /\ contains j b /\ low (exact operation i j) = saturate (apply operation a b)) /\
  (exists a b, contains i a /\ contains j b /\ high (exact operation i j) = saturate (apply operation a b)).
Proof.
  unfold contains. intros Hi Hj. destruct operation; cbn [exact apply Interval.new low high].
  - split; [exists (low i), (low j)|exists (high i), (high j)]; repeat split; lia.
  - split; [exists (low i), (high j)|exists (high i), (low j)]; repeat split; lia.
  - match goal with |- context [minimum ?a [?b; ?c; ?d]] =>
      destruct (minimum_le a b c d) as (_&_&_&_&[->|[->|[->| ->]]]);
      destruct (maximum_ge a b c d) as (_&_&_&_&[->|[->|[->| ->]]]) end;
    (split; do 2 eexists; (split; [|split; [|reflexivity]]); lia).
Qed.

Lemma exact_ordered operation i j : low i <= high i -> low j <= high j ->
  low (exact operation i j) <= high (exact operation i j).
Proof.
  intros Hi Hj. assert (contains i (low i) /\ contains j (low j)) as [H1 H2] by (unfold contains; lia).
  pose proof (exact_contains operation i j _ _ H1 H2) as H. unfold contains in H. lia.
Qed.

(** ** Congruence *)

Definition congruent (m a b : Z) : Prop := exists k, a = b + k * m.

Lemma congruent_apply operation m a a' b b' :
  congruent m a a' -> congruent m b b' -> congruent m (apply operation a b) (apply operation a' b').
Proof.
  intros [k ->] [j ->]. destruct operation; simpl.
  - exists (k + j). lia.
  - exists (k - j). lia.
  - exists (a' * j + k * b' + k * j * m). lia.
Qed.

Lemma cut_congruent ty z : valid ty -> congruent (2 * half ty) (cut ty z) z.
Proof. intros Hty. by destruct (cut_spec ty z Hty) as [_ ?]. Qed.

Lemma cut_of_congruent ty a b : valid ty -> congruent (2 * half ty) a b -> cut ty a = cut ty b.
Proof.
  intros Hty [k ->]. destruct (cut_spec ty b Hty) as [Hb [j Hj]].
  apply (cut_unique ty (cut ty b) _ (j - k)); [done|done|lia].
Qed.

(** Reading the operands with another sign first does not change the wrapped result. *)
Lemma cut_apply_readings operation ty s a b : valid ty ->
  cut ty (apply operation (cut (Int.with_sign ty s) a) (cut (Int.with_sign ty s) b)) =
  cut ty (apply operation a b).
Proof.
  intros Hty. apply cut_of_congruent; [done|]. rewrite <- (half_with_sign ty s).
  apply congruent_apply; by apply cut_congruent.
Qed.

(** ** Division *)

Lemma quot_between_l l h a b : b <> 0 -> l <= a <= h -> between (Z.quot a b) (Z.quot l b) (Z.quot h b).
Proof.
  intros Hb Ha. destruct (Z.lt_ge_cases 0 b).
  - split; [left|right]; apply Z.quot_le_mono; lia.
  - rewrite <- (Z.opp_involutive b), !(Z.quot_opp_r _ (- b)) by lia.
    split; [right|left]; apply Z.opp_le_mono; rewrite !Z.opp_involutive; apply Z.quot_le_mono; lia.
Qed.

Lemma quot_pos_anti a b c : 0 <= a -> 0 < b <= c -> Z.quot a c <= Z.quot a b.
Proof. intros. by apply Z.quot_le_compat_l. Qed.

Lemma quot_between_pos a l h b : 0 < l -> l <= b <= h -> between (Z.quot a b) (Z.quot a l) (Z.quot a h).
Proof.
  intros Hl Hb. destruct (Z.le_ge_cases 0 a).
  - split; [right|left]; apply quot_pos_anti; lia.
  - rewrite <- (Z.opp_involutive a), !(Z.quot_opp_l (- a)) by lia.
    split; [left|right]; apply -> Z.opp_le_mono; apply quot_pos_anti; lia.
Qed.

Lemma quot_between_r a l h b : 0 < l \/ h < 0 -> l <= b <= h ->
  between (Z.quot a b) (Z.quot a l) (Z.quot a h).
Proof.
  intros [Hl|Hh] Hb; [by apply quot_between_pos|].
  pose proof (quot_between_pos (- a) (- h) (- l) (- b) ltac:(lia) ltac:(lia)) as H.
  rewrite !Z.quot_opp_opp in H by lia. unfold between in *. lia.
Qed.

Lemma quot_abs a b : Z.abs (Z.quot a b) <= Z.abs a.
Proof.
  destruct (Z.eq_dec b 0) as [->|Hb]; [rewrite Z.quot_0_r_ext by done; lia|].
  rewrite <- Z.quot_abs by done. destruct (Z.eq_dec (Z.abs b) 1) as [->|].
  - rewrite Z.quot_1_r. lia.
  - destruct (Z.eq_dec a 0) as [->|]; [by rewrite Z.quot_0_l by lia|].
    pose proof (Z.quot_lt (Z.abs a) (Z.abs b) ltac:(lia) ltac:(lia)). lia.
Qed.

Lemma rem_abs_le a b : b <> 0 -> Z.abs (Z.rem a b) <= Z.abs a.
Proof. intros Hb. rewrite <- Z.rem_abs by done. apply Z.rem_le; lia. Qed.
