(* ===== verification/IntervalTheorems.v ===== *)
(** * What the interval operations promise

    Each theorem is about every value of the operand intervals: the result contains what the machine
    operation produces, and an overflow flag is set only when no pair of values overflows. *)
From S2P Require Import Prelude Interval IntervalLaws.
Local Open Scope Z_scope.

(** The reading of [a] as a number of the other sign, for [nsw] and [nuw]. *)
Definition as_sign (ty : Int) (s : bool) (a : Z) : Z := cut (Int.with_sign ty s) a.

(** [operation] on [a] and [b], read with sign [s], stays in the range of that sign. *)
Definition no_overflow (operation : Operation) (ty : Int) (s : bool) (a b : Z) : Prop :=
  contains (Int.full (Int.with_sign ty s)) (apply operation (as_sign ty s a) (as_sign ty s b)).

(** Closed bounds. *)
Ltac interval_closed :=
  vm_compute; repeat match goal with |- _ /\ _ => split end; (discriminate || reflexivity).

(** ** Arithmetic *)

Section arithmetic.
Context (ty : Int) (Hty : valid ty) (left right : Interval).
Context (Hl : inside ty left) (Hr : inside ty right).

Definition exact_as (operation : Operation) (s : bool) : Interval :=
  exact operation (reading ty left s) (reading ty right s).

Lemma exact_as_ordered operation s : low (exact_as operation s) <= high (exact_as operation s).
Proof using All. apply exact_ordered; by apply reading_inside. Qed.

Lemma exact_as_contains operation s a b : contains left a -> contains right b ->
  contains (exact_as operation s) (saturate (apply operation (as_sign ty s a) (as_sign ty s b))).
Proof using All. intros. apply exact_contains; by apply reading_contains. Qed.

Lemma wrap_exact_as_contains operation s a b : contains left a -> contains right b ->
  contains (wrap ty (exact_as operation s)) (cut ty (apply operation a b)).
Proof using All.
  intros Ha Hb. rewrite <- (cut_apply_readings operation ty s) by done.
  apply wrap_contains; [done|apply exact_as_ordered|by apply exact_as_contains].
Qed.

(** The bounds of a type are strictly inside [i128]: saturation cannot hide an overflow. *)
Lemma within_full s i z : contains i (saturate z) ->
  Interval.within i (Int.full (Int.with_sign ty s)) = true ->
  contains (Int.full (Int.with_sign ty s)) z.
Proof using Hty.
  unfold Interval.within, Int.full, contains; simpl. intros H [E1%Z.leb_le E2%Z.leb_le]%andb_prop.
  pose proof (valid_with_sign ty s Hty). type_bounds (Int.with_sign ty s). split.
  - apply saturate_ge; [|lia]. destruct (signed _); bounds.
  - apply saturate_le; [|lia]. destruct (signed _); bounds.
Qed.
End arithmetic.

Lemma meet_contains i j v : contains i v -> contains j v ->
  exists m, Interval.meet i j = Some m /\ contains m v.
Proof.
  unfold contains, Interval.meet. intros Hi Hj. destruct (Z.leb_spec
    (Z.max (low i) (low j)) (Z.min (high i) (high j))); [|lia].
  eexists. split; [done|]. simpl. lia.
Qed.

Lemma meet_Some i j m : Interval.meet i j = Some m ->
  low m = Z.max (low i) (low j) /\ high m = Z.min (high i) (high j) /\ low m <= high m.
Proof.
  unfold Interval.meet. destruct (Z.leb_spec (Z.max (low i) (low j)) (Z.min (high i) (high j)));
    [|done]. intros [= <-]. done.
Qed.

(** C17: the result interval of [+ - *] contains the wrapped result of every pair of operands, and is a
    non-empty interval of the type: the fallback to the whole type is never taken. *)
Theorem arithmetic_result_sound operation ty left right a b :
  valid ty -> inside ty left -> inside ty right -> contains left a -> contains right b ->
  contains (result (arithmetic operation ty left right)) (cut ty (apply operation a b)) /\
  inside ty (result (arithmetic operation ty left right)) /\
  Interval.meet (wrap ty (exact_as ty left right operation true))
    (wrap ty (exact_as ty left right operation false)) =
    Some (result (arithmetic operation ty left right)).
Proof.
  intros Hty Hl Hr Ha Hb.
  destruct (meet_contains (wrap ty (exact_as ty left right operation true))
    (wrap ty (exact_as ty left right operation false)) (cut ty (apply operation a b)))
    as (m & Hm & Hc); [by apply wrap_exact_as_contains..|].
  assert (result (arithmetic operation ty left right) = m) as ->.
  { unfold arithmetic; simpl. unfold exact_as in Hm. by rewrite Hm. }
  split_and!; [done| |done]. apply meet_Some in Hm as (E1 & E2 & Hle).
  pose proof (wrap_inside ty (exact_as ty left right operation true) Hty
    (exact_as_ordered ty Hty left right Hl Hr operation true)) as (? & ? & ?).
  unfold inside. lia.
Qed.

Lemma arithmetic_result_sound_witness :
  let i := mk_Interval 100 120 in
  contains (result (arithmetic Add (mk_Int 8 true) i i)) (cut (mk_Int 8 true) (110 + 110)) /\
  inside (mk_Int 8 true) (result (arithmetic Add (mk_Int 8 true) i i)) /\
  Interval.meet (wrap (mk_Int 8 true) (exact_as (mk_Int 8 true) i i Add true))
    (wrap (mk_Int 8 true) (exact_as (mk_Int 8 true) i i Add false)) =
    Some (result (arithmetic Add (mk_Int 8 true) i i)).
Proof. apply (arithmetic_result_sound Add (mk_Int 8 true) _ _ 110 110); interval_closed. Defined.

(** C18: [nsw] is set only when no pair of operands overflows as signed numbers, and [nuw] only when
    none overflows as unsigned numbers, so the flags never make a result poison. *)
Lemma flags_sound operation ty left right a b :
  valid ty -> inside ty left -> inside ty right -> contains left a -> contains right b ->
  (nsw (flags (arithmetic operation ty left right)) = true -> no_overflow operation ty true a b) /\
  (nuw (flags (arithmetic operation ty left right)) = true -> no_overflow operation ty false a b).
Proof.
  intros Hty Hl Hr Ha Hb. split; intros Hf; apply (within_full _ Hty _ _ _
    (exact_as_contains ty Hty left right Hl Hr operation _ a b Ha Hb) Hf).
Qed.

(** The flag of the type's own sign is exact: it is set if and only if no pair of operands
    overflows. (The flag of the other sign may be withheld when a reading is split.) *)
Lemma flag_complete operation ty left right :
  valid ty -> inside ty left -> inside ty right ->
  (if signed ty then nsw (flags (arithmetic operation ty left right))
   else nuw (flags (arithmetic operation ty left right))) = true <->
  (forall a b, contains left a -> contains right b -> no_overflow operation ty (signed ty) a b).
Proof.
  intros Hty Hl Hr. split.
  - intros Hf a b Ha Hb. apply (within_full _ Hty _ _ _
      (exact_as_contains ty Hty left right Hl Hr operation _ a b Ha Hb)).
    unfold arithmetic, exact_as in *; simpl in Hf. by destruct (signed ty).
  - intros H. unfold arithmetic; simpl.
    assert (Interval.within (exact_as ty left right operation (signed ty))
      (Int.full (Int.with_sign ty (signed ty))) = true) as Hw.
    2: { unfold exact_as in Hw. by destruct (signed ty). }
    assert (Int.with_sign ty (signed ty) = ty) as Et by by destruct ty.
    assert (forall i, reading ty i (signed ty) = i) as Er.
    { intros i. unfold reading. by rewrite Bool.eqb_reflx. }
    unfold exact_as. rewrite !Er, Et.
    destruct (exact_attained operation left right) as [(a1 & b1 & Ha1 & Hb1 & E1) (a2 & b2 & Ha2 & Hb2 & E2)];
      [apply Hl|apply Hr|].
    pose proof (H a1 b1 Ha1 Hb1) as [H1 _]. pose proof (H a2 b2 Ha2 Hb2) as [_ H2].
    unfold as_sign in H1, H2. rewrite Et in H1, H2.
    destruct Hl as (_ & ? & ?), Hr as (_ & ? & ?). unfold contains in *.
    rewrite !cut_id in H1, H2 by (done || lia).
    unfold Interval.within, Int.full in *; simpl in *. rewrite E1, E2. apply andb_true_intro.
    type_bounds ty. split; apply Z.leb_le.
    + apply saturate_ge; [|done]. destruct (signed ty); bounds.
    + apply saturate_le; [|done]. destruct (signed ty); bounds.
Qed.

(** [nsw] is set only when no pair of operands overflows as signed numbers, and [nuw] only when none overflows as
    unsigned numbers, so the flags never make a result poison; the flag of the type's own sign is exact, it is set if and
    only if no pair of operands overflows. *)
Lemma arithmetic_flags_exact operation ty left right :
  valid ty -> inside ty left -> inside ty right ->
  (forall a b, contains left a -> contains right b ->
    (nsw (flags (arithmetic operation ty left right)) = true -> no_overflow operation ty true a b) /\
    (nuw (flags (arithmetic operation ty left right)) = true -> no_overflow operation ty false a b)) /\
  ((if signed ty then nsw (flags (arithmetic operation ty left right))
    else nuw (flags (arithmetic operation ty left right))) = true <->
   forall a b, contains left a -> contains right b -> no_overflow operation ty (signed ty) a b).
Proof. intros Hty Hl Hr. split; [intros a b; by apply flags_sound|by apply flag_complete]. Qed.

(** ** Casts and shifts *)

(** The interval of an unchanged number. *)
Lemma wrap_contains_small ty i z : valid ty -> low i <= high i -> is_i128 z -> contains i z ->
  contains (wrap ty i) (cut ty z) /\ inside ty (wrap ty i).
Proof.
  intros Hty Hi Hz Hc. split; [|by apply wrap_inside]. apply wrap_contains; [done..|].
  by rewrite saturate_id.
Qed.

Lemma contains_i128 ty i v : valid ty -> inside ty i -> contains i v -> is_i128 v.
Proof. intros Hty Hi Hv. pose proof (inside_i128 ty i Hty Hi). unfold contains, is_i128 in *. lia. Qed.

(** C30: [cast] from any integer type contains the number of the new type with the same low bits, and
    is a non-empty interval of the new type. *)
Lemma cast_sound from to i v :
  valid from -> valid to -> inside from i -> contains i v ->
  contains (cast to i) (cut to v) /\ inside to (cast to i).
Proof.
  intros Hf Ht Hi Hv. apply wrap_contains_small; [done|apply Hi|by apply (contains_i128 from i)|done].
Qed.

Lemma shiftr_mono a b c : 0 <= c -> a <= b -> Z.shiftr a c <= Z.shiftr b c.
Proof. intros Hc H. rewrite !Z.shiftr_div_pow2 by done. by apply Z.div_le_mono; [apply Z.pow_pos_nonneg|]. Qed.

Lemma shiftr_shrinks a c : 0 <= c -> (0 <= a -> 0 <= Z.shiftr a c <= a) /\ (a <= 0 -> a <= Z.shiftr a c <= 0).
Proof.
  intros Hc. rewrite Z.shiftr_div_pow2 by done. pose proof (Z.pow_pos_nonneg 2 c ltac:(lia) Hc) as Hp.
  pose proof (Z.div_mod a (2 ^ c) ltac:(lia)). pose proof (Z.mod_pos_bound a (2 ^ c) ltac:(lia)).
  set (q := a / 2 ^ c) in *. set (p := 2 ^ c) in *. split; nia.
Qed.

Lemma shift_right_inside ty i c : valid ty -> 0 <= c -> inside ty i -> inside ty (shift_right i c).
Proof.
  intros Hty Hc (H1 & H2 & H3). unfold inside, shift_right; simpl.
  pose proof (shiftr_mono (low i) (high i) c Hc H1).
  pose proof (shiftr_shrinks (low i) c Hc). pose proof (shiftr_shrinks (high i) c Hc).
  type_bounds ty. destruct (signed ty); lia.
Qed.

(** The right shift of an interval contains the shift of each of its values and stays in the type;
    its bounds are the shifts of the bounds, so no narrower interval would do. *)
Lemma shift_right_sound ty i count v :
  valid ty -> 0 <= count -> inside ty i -> contains i v ->
  contains (shift_right i count) (Z.shiftr v count) /\ inside ty (shift_right i count).
Proof.
  intros Hty Hc Hi Hv. split; [|by apply shift_right_inside].
  unfold contains, shift_right in *; simpl. split; apply shiftr_mono; lia.
Qed.

(** The unsigned reading is the bit pattern. *)
Lemma reading_pattern ty i v : valid ty -> inside ty i -> contains i v ->
  contains (reading ty i false) (pattern ty v) /\ 0 <= pattern ty v.
Proof.
  intros Hty Hi Hv. split; [exact (reading_contains ty i false v Hty Hi Hv)|].
  unfold pattern. apply Z.mod_pos_bound. type_bounds ty. lia.
Qed.

(** The logical right shift contains the number whose bit pattern is the shifted bit pattern. *)
Lemma shift_right_logical_sound ty i count v :
  valid ty -> 0 <= count -> inside ty i -> contains i v ->
  contains (shift_right_logical ty i count) (cut ty (Z.shiftr (pattern ty v) count)) /\
  inside ty (shift_right_logical ty i count).
Proof.
  intros Hty Hc Hi Hv. pose proof (reading_inside ty i false Hty Hi) as Hr.
  pose proof (shift_right_inside _ _ count (valid_with_sign ty false Hty) Hc Hr) as Hs.
  destruct (reading_pattern ty i v Hty Hi Hv) as [Hp _].
  assert (contains (shift_right (reading ty i false) count) (Z.shiftr (pattern ty v) count)) as Hq.
  { unfold contains, shift_right in *; simpl. split; apply shiftr_mono; lia. }
  apply wrap_contains_small; [done|apply Hs| |done].
  exact (contains_i128 (Int.with_sign ty false) _ _ Hty Hs Hq).
Qed.

(** The left shift by less than the width contains the shifted value cut to the width. *)
Lemma shift_left_sound ty i count v :
  valid ty -> 0 <= count < bits ty -> inside ty i -> contains i v ->
  contains (shift_left ty i count) (cut ty (Z.shiftl v count)) /\ inside ty (shift_left ty i count).
Proof.
  intros Hty Hc Hi Hv. unfold shift_left. rewrite Z.shiftl_1_l, Z.shiftl_mul_pow2 by lia.
  assert (0 < 2 ^ count <= 2 ^ 64) as Hp.
  { split; [apply Z.pow_pos_nonneg; lia|apply Z.pow_le_mono_r; unfold valid in *; lia]. }
  rewrite i128_id by bounds. set (p := 2 ^ count) in *.
  assert (contains (Interval.point p) p) as Hpp by (unfold contains; simpl; lia).
  assert (low (exact Multiply i (Interval.point p)) <= high (exact Multiply i (Interval.point p))) as Ho.
  { apply exact_ordered; [apply Hi|simpl; lia]. }
  split; [|by apply wrap_inside].
  apply wrap_contains; [done|done|]. exact (exact_contains Multiply i _ v p Hv Hpp).
Qed.

(** The shifts of an interval by a count contain the shifts of each of its values and stay in the type:
    the arithmetic shift to the right, whose bounds are the shifts of the bounds; the logical one, on bit
    patterns; and the shift to the left by less than the width, cut to the width. *)
Lemma shifts_sound ty i count v :
  valid ty -> 0 <= count -> inside ty i -> contains i v ->
  (contains (shift_right i count) (Z.shiftr v count) /\ inside ty (shift_right i count)) /\
  (contains (shift_right_logical ty i count) (cut ty (Z.shiftr (pattern ty v) count)) /\
   inside ty (shift_right_logical ty i count)) /\
  (count < bits ty -> contains (shift_left ty i count) (cut ty (Z.shiftl v count)) /\ inside ty (shift_left ty i count)).
Proof.
  intros Hty Hc Hi Hv. split; [by apply shift_right_sound|]. split; [by apply shift_right_logical_sound|].
  intros Hb. by apply shift_left_sound.
Qed.


(** ** Bit operations *)

Lemma land_le a b : 0 <= a -> 0 <= b -> 0 <= Z.land a b <= Z.min a b.
Proof.
  intros Ha Hb.
  assert (forall x y, 0 <= x -> Z.land x y <= x) as H.
  { intros x y Hx. assert (x - Z.land x y = Z.ldiff x (Z.land x y)) as E.
    { apply Z.sub_nocarry_ldiff, Z.bits_inj'. intros n Hn. rewrite Z.ldiff_spec, Z.land_spec, Z.bits_0.
      by destruct (Z.testbit x n), (Z.testbit y n). }
    pose proof (proj2 (Z.ldiff_nonneg x (Z.land x y)) (or_introl Hx)). lia. }
  pose proof (H a b Ha). pose proof (H b a Hb). rewrite (Z.land_comm b a) in *.
  pose proof (proj2 (Z.land_nonneg a b) (or_introl Ha)). lia.
Qed.

(** The interval of [left & right] contains the number whose bit pattern is the conjunction of the
    bit patterns of the operands. *)
Lemma and_sound ty left right a b :
  valid ty -> inside ty left -> inside ty right -> contains left a -> contains right b ->
  contains (bit_and ty left right) (cut ty (Z.land (pattern ty a) (pattern ty b))) /\
  inside ty (bit_and ty left right).
Proof.
  intros Hty Hl Hr Ha Hb. destruct (reading_pattern ty left a Hty Hl Ha) as [[_ Ha2] Ha1].
  destruct (reading_pattern ty right b Hty Hr Hb) as [[_ Hb2] Hb1].
  pose proof (land_le _ _ Ha1 Hb1) as Hand.
  pose proof (inside_i128 _ _ (valid_with_sign ty false Hty) (reading_inside ty left false Hty Hl)) as Hi.
  unfold bit_and. apply wrap_contains_small; [done|simpl; lia|unfold is_i128 in *; bounds|].
  unfold contains; simpl. lia.
Qed.

(** C33: [complement] is exact: a value of the type is in the interval if and only if the number with
    the complemented bit pattern is in the result, which stays in the type. *)
Lemma not_exact ty i v :
  valid ty -> inside ty i -> Int.min ty <= v <= Int.max ty ->
  (contains i v <-> contains (complement ty i) (cut ty (Z.lnot v))) /\ inside ty (complement ty i).
Proof.
  intros Hty Hi Hv. pose proof (inside_i128 ty i Hty Hi) as Hw. destruct Hi as (H1 & H2 & H3).
  assert (cut ty (Z.lnot v) = if signed ty then - v - 1 else Int.max ty - v) as ->.
  { apply (cut_unique ty _ _ (if signed ty then 0 else 1)); [done|..]; unfold Z.lnot;
      type_bounds ty; destruct (signed ty); lia. }
  unfold complement, contains, inside in *. type_bounds ty.
  destruct (signed ty); simpl; rewrite !i128_id; rewrite ?i128_id; bounds.
Qed.

(** The interval of [left & right] contains the number whose bit pattern is the conjunction of the bit patterns of
    the operands; [complement] is exact: a value of the type is in the interval if and only if the number with the
    complemented bit pattern is in the result. Both stay in the type. *)
Lemma bit_operations_sound ty left right a b :
  valid ty -> inside ty left -> inside ty right -> contains left a -> contains right b ->
  (contains (bit_and ty left right) (cut ty (Z.land (pattern ty a) (pattern ty b))) /\ inside ty (bit_and ty left right)) /\
  inside ty (complement ty left) /\
  forall v, Int.min ty <= v <= Int.max ty -> contains left v <-> contains (complement ty left) (cut ty (Z.lnot v)).
Proof.
  intros Hty Hl Hr Ha Hb. split; [by apply and_sound|]. split.
  - apply (not_exact ty left a); [done..|]. destruct Hl as (?&?&?). unfold contains in Ha. lia.
  - intros v Hv. by apply not_exact.
Qed.

(** ** Division *)

(** The interval of [left % right] contains the remainder, with the sign of the dividend, by every
    divisor that does not trap. *)
Lemma rem_sound ty left right a b :
  valid ty -> inside ty left -> inside ty right -> contains left a -> contains right b -> b <> 0 ->
  contains (remainder ty left right) (Z.rem a b) /\ inside ty (remainder ty left right).
Proof.
  intros Hty Hl Hr Ha Hb Hb0. pose proof (inside_i128 ty right Hty Hr) as Hwr.
  destruct Hl as (Hl1 & Hl2 & Hl3), Hr as (Hr1 & Hr2 & Hr3). unfold contains in *.
  pose proof (rem_abs_le a b Hb0) as Habs. pose proof (Z.rem_bound_abs a b Hb0) as Hbound.
  assert ((0 <= a -> 0 <= Z.rem a b) /\ (a <= 0 -> Z.rem a b <= 0)) as [Hpos Hneg].
  { split; intros; [by apply Z.rem_nonneg|by apply Z.rem_nonpos]. }
  unfold remainder. set (largest := Z.max _ _).
  assert (Z.abs b <= largest /\ largest <= 2 ^ 64) as [Hlarge Hsmall].
  { unfold largest. type_bounds ty. destruct (signed ty); bounds. }
  destruct (Z.eqb_spec largest 0) as [|_]; [lia|].
  destruct (Z.leb_spec (largest - 1) i128_MAX) as [_|]; [|bounds].
  rewrite i128_id by bounds. unfold inside; simpl. generalize dependent (Z.rem a b). intros r ????.
  clearbody largest. type_bounds ty.
  destruct (Z.leb_spec 0 (low left)), (Z.leb_spec (high left) 0), (signed ty); lia.
Qed.

(** A piece of the divisor on one side of zero. *)
Lemma divide_piece_contains ty left divisor a b :
  valid ty -> inside ty left -> contains left a -> contains divisor b ->
  0 < low divisor \/ high divisor < 0 -> contains (divide_piece left divisor) (Z.quot a b).
Proof.
  intros Hty Hl Ha Hb Hside. pose proof (inside_i128 ty left Hty Hl) as Hw.
  unfold divide_piece, contains in *; cbn [low high Interval.new].
  assert (forall x y, is_i128 x -> Z.abs x < 2 ^ 127 -> i128 (Z.quot x y) = Z.quot x y) as Hq.
  { intros x y Hx Hlt. apply i128_id. pose proof (quot_abs x y). bounds. }
  assert (Z.abs (low left) < 2 ^ 127 /\ Z.abs (high left) < 2 ^ 127) as [Hll Hlh].
  { destruct Hl as (?&?&?). type_bounds ty. destruct (signed ty); bounds. }
  rewrite !Hq by (done || apply Hw).
  destruct (corners Z.quot (low left) (high left) (low divisor) (high divisor) a b) as [Hmin Hmax].
  - apply quot_between_l; [lia|done].
  - by apply quot_between_r.
  - by apply quot_between_r.
  - match goal with |- context [minimum ?a [?b; ?c; ?d]] =>
      destruct (minimum_le a b c d) as (?&?&?&?&_); destruct (maximum_ge a b c d) as (?&?&?&?&_) end.
    lia.
Qed.

Lemma hull_contains i j v : contains i v \/ contains j v -> contains (Interval.hull i j) v.
Proof. unfold contains, Interval.hull; simpl. lia. Qed.

(** Division traps on a zero divisor and on [MIN / -1]. *)
Definition traps (ty : Int) (a b : Z) : Prop :=
  b = 0 \/ (signed ty = true /\ a = Int.min ty /\ b = -1).

Lemma quot_in_type ty a b : valid ty ->
  Int.min ty <= a <= Int.max ty -> Int.min ty <= b <= Int.max ty -> ~ traps ty a b ->
  Int.min ty <= Z.quot a b <= Int.max ty.
Proof.
  intros Hty Ha Hb Ht. pose proof (quot_abs a b) as Habs. unfold traps in Ht. type_bounds ty.
  destruct (signed ty) eqn:Es.
  - destruct (Z.eq_dec (Z.quot a b) (half ty)) as [E|]; [|lia]. exfalso.
    assert (a = - half ty \/ a = half ty) as [->| ->] by lia; [|lia].
    destruct (Z.eq_dec b (-1)) as [->|Hb1]; [apply Ht; auto|].
    assert (b <> 0) by (intros ->; apply Ht; auto).
    destruct (Z.lt_ge_cases 0 b).
    + rewrite Z.quot_opp_l in E by lia. pose proof (Z.quot_pos (half ty) b). lia.
    + rewrite <- (Z.opp_involutive b), Z.quot_opp_opp in E by lia.
      pose proof (Z.quot_lt (half ty) (- b) ltac:(lia) ltac:(lia)). lia.
  - assert (b <> 0) by (intros ->; apply Ht; auto). pose proof (Z.quot_pos a b ltac:(lia) ltac:(lia)). lia.
Qed.

(** The interval before the cut to the type. *)
Definition quotients (left right : Interval) : option Interval :=
  foldl (fun quotient divisor =>
      let piece := divide_piece left divisor in
      Some (match quotient with None => piece | Some known => Interval.hull known piece end))
    None (omap id
      [Interval.meet right (Interval.new i128_MIN (-1)); Interval.meet right (Interval.new 1 i128_MAX)]).

Lemma quotients_contains ty left right a b :
  valid ty -> inside ty left -> inside ty right -> contains left a -> contains right b -> b <> 0 ->
  exists q, quotients left right = Some q /\ contains q (Z.quot a b).
Proof.
  intros Hty Hl Hr Ha Hb Hb0. pose proof (contains_i128 ty right b Hty Hr Hb) as Hw.
  unfold quotients. destruct (Z.lt_ge_cases b 0).
  - destruct (meet_contains right (Interval.new i128_MIN (-1)) b Hb) as (m & Em & Hm).
    { unfold contains; simpl. bounds. }
    apply meet_Some in Em as Hbounds; cbn [low high Interval.new] in Hbounds.
    pose proof (divide_piece_contains ty left m a b Hty Hl Ha Hm ltac:(lia)).
    rewrite Em. destruct (Interval.meet right (Interval.new 1 i128_MAX)); (eexists; split; [reflexivity|]);
      [apply hull_contains; by left|done].
  - destruct (meet_contains right (Interval.new 1 i128_MAX) b Hb) as (m & Em & Hm).
    { unfold contains; simpl. bounds. }
    apply meet_Some in Em as Hbounds; cbn [low high Interval.new] in Hbounds.
    pose proof (divide_piece_contains ty left m a b Hty Hl Ha Hm ltac:(lia)).
    rewrite Em. destruct (Interval.meet right (Interval.new i128_MIN (-1))); (eexists; split; [reflexivity|]);
      [apply hull_contains; by right|done].
Qed.

(** The interval of [left / right] contains the quotient, rounded toward zero, of every pair of
    operands that does not trap, and is a non-empty interval of the type. *)
Lemma quot_sound ty left right a b :
  valid ty -> inside ty left -> inside ty right -> contains left a -> contains right b ->
  ~ traps ty a b ->
  contains (divide ty left right) (Z.quot a b) /\ inside ty (divide ty left right).
Proof.
  intros Hty Hl Hr Ha Hb Ht.
  destruct (quotients_contains ty left right a b) as (q & Hq & Hc); [done..|by intros ->; apply Ht; left|].
  assert (contains (Int.full ty) (Z.quot a b)) as Hf.
  { destruct Hl as (?&?&?), Hr as (?&?&?). unfold contains in *.
    apply quot_in_type; [done|lia|lia|done]. }
  destruct (meet_contains q (Int.full ty) (Z.quot a b) Hc Hf) as (m & Hm & Hcm).
  assert (divide ty left right = m) as ->.
  { unfold divide. change (foldl _ None _) with (quotients left right). rewrite Hq; simpl. by rewrite Hm. }
  split; [done|]. apply meet_Some in Hm as (E1 & E2 & Hle). simpl in *. unfold inside. lia.
Qed.

(** The intervals of [left / right] and [left % right] contain the quotient, rounded toward zero, and the remainder,
    with the sign of the dividend, of every pair of operands that does not trap, and stay in the type. *)
Lemma division_sound ty left right a b :
  valid ty -> inside ty left -> inside ty right -> contains left a -> contains right b -> ~ traps ty a b ->
  (contains (divide ty left right) (Z.quot a b) /\ inside ty (divide ty left right)) /\
  (contains (remainder ty left right) (Z.rem a b) /\ inside ty (remainder ty left right)).
Proof.
  intros Hty Hl Hr Ha Hb Ht. split; [by apply quot_sound|]. apply rem_sound; try done. intros ->. apply Ht. by left.
Qed.

(** ** Types and wrapping *)

(** [Int::new] covers the widths from 1 to 64, and the interval of a type holds the numbers that
    its bit patterns stand for, no other. *)
Lemma new_full width sign ty v :
  Int.new width sign = Some ty ->
  ty = mk_Int width sign /\ valid ty /\ (contains (Int.full ty) v <-> cut ty v = v).
Proof.
  unfold Int.new. destruct (Z.leb_spec 1 width), (Z.leb_spec width 64); simpl; try done.
  intros [= <-]. assert (valid (mk_Int width sign)) as Hty by done. split_and!; [done..|]. split.
  - intros Hv. by apply cut_id.
  - intros <-. by apply contains_full.
Qed.

(** C36: [wrap] either gives up, with the whole type, or is exact: its interval holds the cut numbers of
    the integers in the argument and no other. *)
Lemma wrap_exact ty i :
  valid ty -> low i <= high i ->
  wrap ty i = Int.full ty \/
  forall v, contains (wrap ty i) v <-> exists z, contains i z /\ cut ty z = v.
Proof.
  intros Hty Hi. destruct (wrap_cases ty i Hty Hi) as [->|(k & _ & _ & E & _ & H1 & H2)]; [by left|].
  right. intros v. rewrite E in *. unfold contains; simpl in *. split.
  - intros Hv. exists (v - k * (2 * half ty)). split; [lia|].
    apply (cut_unique ty v _ k); [done|lia|lia].
  - intros (z & Hz & <-). rewrite (cut_unique ty (z + k * (2 * half ty)) z k); [lia|done|lia|done].
Qed.
