(* ===== verification/Exhaustiveness.v ===== *)
(** * Exhaustiveness and usefulness of match arms

    [src/src/exhaustiveness.rs]: the matrix search with its list of pending tasks, its work budget and
    its witness steps, and the check of one match. The types of the checker, its typed expressions and
    the function that keys a literal are parameters. A Rust panic (an [expect] or an index) is the
    error [Panic]. *)
From S2P Require Import Prelude Syntax.
From S2P Require Wire.
Local Open Scope N_scope.
Local Open Scope monad_scope.
Set Warnings "-register-all".

Definition MAX_WORK : N := N.shiftl 1 24.
Definition MAX_PATTERN_ALTERNATIVES : N := 1024.
#[global] Arguments MAX_WORK : simpl never.
#[global] Arguments MAX_PATTERN_ALTERNATIVES : simpl never.

Definition usize_MAX : N := 2 ^ 64 - 1.
Definition usize_saturating_add (a b : N) : N := N.min usize_MAX (a + b).
Definition usize_saturating_mul (a b : N) : N := N.min usize_MAX (a * b).

(** [len()] *)
Definition len {A} (l : list A) : N := N.of_nat (length l).

#[local] Existing Instance Wire.RString_eq_dec.

#[export] Instance StringLiteral_eq_dec : EqDecision StringLiteral.
Proof. solve_decision. Defined.

(** The types and the typed expressions of the checker. *)
Class CheckerTypes := {
  Ty : Type;
  Ty_eq_dec :: EqDecision Ty;
  TypedExpr : Type }.

Section coverage.
Context `{CheckerTypes}.

(** ** Patterns and values *)

Inductive LiteralKey :=
| LiteralKey_Number (ty : Ty) (bits : Wire.RString)
| LiteralKey_Text (text : StringLiteral).

#[export] Instance LiteralKey_eq_dec : EqDecision LiteralKey.
Proof. solve_decision. Defined.

Inductive Constructor :=
| Constructor_Bool (value : bool)
| Constructor_Unit
| Constructor_Union (union_id case_id : nat)
| Constructor_Tuple (count : nat)
| Constructor_Record (record_id field_count : nat)
| Constructor_ArrayLen (count : nat)
| Constructor_ListNil
| Constructor_ListCons
| Constructor_Literal (key : LiteralKey).

#[export] Instance Constructor_eq_dec : EqDecision Constructor.
Proof. solve_decision. Defined.

Inductive CoveragePat :=
| CoveragePat_Wildcard
| CoveragePat_Constructor (constructor : Constructor) (arguments : list CoveragePat)
| CoveragePat_Or (left_ right_ : CoveragePat)
| CoveragePat_And (left_ right_ : CoveragePat)
| CoveragePat_Literal (literal : TypedExpr)
| CoveragePat_Total (payload : option CoveragePat)
| CoveragePat_ActiveCase (function index count : nat)
| CoveragePat_Opaque.

(** [CoveragePat::list] *)
Definition list_pattern (elements : list CoveragePat) : CoveragePat :=
  if (Wire.MAX_NESTING <? length elements)%nat then CoveragePat_Opaque
  else
    foldl (fun tail head => CoveragePat_Constructor Constructor_ListCons [head; tail])
      (CoveragePat_Constructor Constructor_ListNil []) (rev elements).

Record CoverageArm := mk_CoverageArm {
  arm_pattern : CoveragePat;
  arm_guarded : bool;
  arm_span : Span }.

Record MatchCoverage := mk_MatchCoverage {
  coverage_span : Span;
  coverage_arms : list CoverageArm;
  coverage_append_at : option nat }.

Inductive Node :=
| Node_Wild
| Node_Ctor (constructor : Constructor) (arguments : list Node).

(** [Option<Rc<Cell>>] *)
Inductive Row :=
| Row_None
| Row_Cell (head : Node) (tail : Row) (concrete : nat).

Definition concrete (row : Row) : nat :=
  match row with Row_None => 0%nat | Row_Cell _ _ concrete => concrete end.

Definition push (head : Node) (tail : Row) : Row :=
  let count := ((match head with Node_Ctor _ _ => 1 | Node_Wild => 0 end) + concrete tail)%nat in
  Row_Cell head tail count.

Inductive Mode := Mode_Row | Mode_Query.

Inductive Witness :=
| Witness_Wild
| Witness_Ctor (constructor : Constructor) (arguments : list Witness).

Fixpoint witness_pattern (witness : Witness) : Node :=
  match witness with
  | Witness_Wild => Node_Wild
  | Witness_Ctor constructor arguments => Node_Ctor constructor (witness_pattern <$> arguments)
  end.

Inductive Step :=
| Step_Apply (constructor : Constructor) (arity : nat)
| Step_Head (witness : Witness).

Record Task := mk_Task {
  task_rows : list Row;
  task_query : Row;
  task_trace : option nat }.

Inductive Signature :=
| Signature_Complete (constructors : list Constructor)
| Signature_Missing (witness : Witness).

Inductive Literal :=
| Literal_Constructor (constructor : Constructor)
| Literal_Never.

(** ** The checker and the state of a search *)

(** What the search uses of the checker: the cases of each union with their payload types, and the key
    of a literal, given the number of keys made up so far and returning the new number. *)
Record Checker := mk_Checker {
  unions : list (list (Wire.RString * option Ty));
  literal : TypedExpr -> nat -> Literal * nat }.

Record Search := mk_Search {
  work : N;
  steps : list (Step * option nat);
  distinct : nat }.

Inductive Failure :=
| PatternAlternativesLimit
| ExhaustivenessSearchLimit
| Panic
| OutOfFuel.

Context (checker : Checker).

Abbreviation SM := (M Failure Search).

(** [expect] and indexing. *)
Definition expect {A} (o : option A) : SM A := ok_or o Panic.

Definition limit (alternatives : N) : SM unit :=
  if MAX_PATTERN_ALTERNATIVES <? alternatives then fail PatternAlternativesLimit else ret tt.

Definition charge (amount : N) : SM unit := fun s =>
  let s := mk_Search (usize_saturating_add (work s) amount) (steps s) (distinct s) in
  if MAX_WORK <? work s then (Err ExhaustivenessSearchLimit, s) else (Ok tt, s).

Definition opaque (mode : Mode) : list Node :=
  match mode with Mode_Row => [] | Mode_Query => [Node_Wild] end.

Definition arity (constructor : Constructor) : SM nat :=
  match constructor with
  | Constructor_Union union_id case_id =>
    let? cases := expect (unions checker !! union_id) in
    let? case := expect (cases !! case_id) in
    ret (match snd case with Some _ => 1 | None => 0 end)%nat
  | Constructor_Tuple count | Constructor_ArrayLen count => ret count
  | Constructor_Record _ field_count => ret field_count
  | Constructor_ListCons => ret 2%nat
  | Constructor_Bool _ | Constructor_Unit | Constructor_ListNil | Constructor_Literal _ => ret 0%nat
  end.

(** [(0..arity).fold(tail, |tail, _| push(wild, tail))] *)
Fixpoint push_wilds (count : nat) (tail : Row) : Row :=
  match count with O => tail | S count => push_wilds count (push Node_Wild tail) end.

(** [arguments.iter().rev().fold(tail, |tail, argument| push(argument, tail))] *)
Definition push_arguments (arguments : list Node) (tail : Row) : Row :=
  foldl (fun tail argument => push argument tail) tail (rev arguments).

Definition row_cell (row : Row) : SM (Node * Row) :=
  match row with Row_None => fail Panic | Row_Cell head tail _ => ret (head, tail) end.

(** The [filter_map] of [specialize] over the rows. *)
Fixpoint specialize_rows (rows : list Row) (constructor : Constructor) (arity : nat) : SM (list Row) :=
  match rows with
  | [] => ret []
  | row :: rows =>
    let? cell := row_cell row in
    let? rest := specialize_rows rows constructor arity in
    match fst cell with
    | Node_Wild => ret (push_wilds arity (snd cell) :: rest)
    | Node_Ctor head arguments =>
      if decide (head = constructor) then ret (push_arguments arguments (snd cell) :: rest)
      else ret rest
    end
  end.

Definition specialize (rows : list Row) (constructor : Constructor) (arity : nat) : SM (list Row) :=
  charge (usize_saturating_mul (len rows) (N.of_nat arity)) ;;;
  specialize_rows rows constructor arity.

(** The rows of a column that no row decides: the [filter_map] of [run]. *)
Fixpoint default_rows (rows : list Row) : SM (list Row) :=
  match rows with
  | [] => ret []
  | row :: rows =>
    let? cell := row_cell row in
    let? rest := default_rows rows in
    match fst cell with
    | Node_Wild => ret (snd cell :: rest)
    | Node_Ctor _ _ => ret rest
    end
  end.

(** ** Signatures *)

Fixpoint heads (rows : list Row) : SM (list Constructor) :=
  match rows with
  | [] => ret []
  | row :: rows =>
    let? cell := row_cell row in
    let? rest := heads rows in
    match fst cell with
    | Node_Wild => ret rest
    | Node_Ctor constructor _ => ret (constructor :: rest)
    end
  end.

(** [index] of [signature] *)
Definition index (constructor : Constructor) : nat :=
  match constructor with
  | Constructor_Bool value => if value then 0 else 1
  | Constructor_Union _ case_id => case_id
  | Constructor_ListCons => 1
  | _ => 0
  end%nat.

(** [present[index(head)] = true] for each head. *)
Fixpoint mark (heads : list Constructor) (present : list bool) : SM (list bool) :=
  match heads with
  | [] => ret present
  | head :: heads =>
    if decide (index head < length present)%nat then mark heads (<[index head := true]> present)
    else fail Panic
  end.

(** The constructors that head [first]'s type, when they are finitely many and more than one. *)
Definition siblings (first : Constructor) : SM (Signature + list Constructor) :=
  match first with
  | Constructor_Bool _ => ret (inr [Constructor_Bool true; Constructor_Bool false])
  | Constructor_Union union_id _ =>
    let? cases := expect (unions checker !! union_id) in
    ret (inr (Constructor_Union union_id <$> seq 0 (length cases)))
  | Constructor_ListNil | Constructor_ListCons =>
    ret (inr [Constructor_ListNil; Constructor_ListCons])
  | Constructor_Unit | Constructor_Tuple _ | Constructor_Record _ _ =>
    ret (inl (Signature_Complete [first]))
  | Constructor_ArrayLen _ | Constructor_Literal _ => ret (inl (Signature_Missing Witness_Wild))
  end.

Definition signature (rows : list Row) : SM Signature :=
  let? heads := heads rows in
  match heads with
  | [] => ret (Signature_Missing Witness_Wild)
  | first :: _ =>
    let? all := siblings first in
    match all with
    | inl signature => ret signature
    | inr all =>
      let? present := mark heads (replicate (length all) false) in
      match list_find (eq false) present with
      | Some (missing, _) =>
        let? constructor := expect (all !! missing) in
        let? arity := arity constructor in
        ret (Signature_Missing (Witness_Ctor constructor (replicate arity Witness_Wild)))
      | None => ret (Signature_Complete all)
      end
    end
  end.

(** ** Witnesses *)

Definition step (describe : bool) (parent : option nat) (step : Step) : SM (option nat) := fun s =>
  if describe then
    (Ok (Some (length (steps s))), mk_Search (work s) (steps s ++ [(step, parent)]) (distinct s))
  else (Ok None, s).

(** One turn of the loop of [rebuild]; the last witness pushed is the head of the list. *)
Definition replay (step : Step) (witnesses : list Witness) : option (list Witness) :=
  match step with
  | Step_Apply constructor arity =>
    if decide (arity <= length witnesses)%nat
    then Some (Witness_Ctor constructor (take arity witnesses) :: drop arity witnesses)
    else None
  | Step_Head head => Some (head :: witnesses)
  end.

(** A step refers to an earlier one, so the loop turns once per step at most. *)
Fixpoint rebuild_loop (fuel : nat) (trace : option nat) (witnesses : list Witness) : SM Witness := fun s =>
  match trace with
  | None => expect (head witnesses) s
  | Some index =>
    match fuel with
    | O => fail OutOfFuel s
    | S fuel =>
      (let? entry := expect (steps s !! index) in
       let? witnesses := expect (replay (fst entry) witnesses) in
       rebuild_loop fuel (snd entry) witnesses) s
    end
  end.

Definition rebuild (trace : option nat) : SM Witness := fun s =>
  rebuild_loop (length (steps s)) trace [] s.

(** ** The search *)

(** The loop over the constructors of a complete signature: the last task pushed is the head. *)
Fixpoint expand (constructors : list Constructor) (describe : bool) (rows : list Row) (tail : Row)
    (trace : option nat) (tasks : list Task) : SM (list Task) :=
  match constructors with
  | [] => ret tasks
  | constructor :: constructors =>
    let? arity := arity constructor in
    let? specialized := specialize rows constructor arity in
    let? trace' := step describe trace (Step_Apply constructor arity) in
    expand constructors describe rows tail trace
      (mk_Task specialized (push_wilds arity tail) trace' :: tasks)
  end.

(** One turn of the loop of [run]: the new tasks, or the result. *)
Definition run_step (describe : bool) (tasks : list Task) : SM (list Task + option Witness) :=
  match tasks with
  | [] => ret (inr None)
  | mk_Task rows query trace :: tasks =>
    charge (len rows + 1) ;;;
    if existsb (fun row => Nat.eqb (concrete row) 0) rows then ret (inl tasks)
    else match query with
    | Row_None =>
      if describe then let? witness := rebuild trace in ret (inr (Some witness))
      else ret (inr (Some Witness_Wild))
    | Row_Cell (Node_Ctor constructor arguments) tail _ =>
      let? rows := specialize rows constructor (length arguments) in
      let query := push_arguments arguments tail in
      let? trace := step describe trace (Step_Apply constructor (length arguments)) in
      ret (inl (mk_Task rows query trace :: tasks))
    | Row_Cell Node_Wild tail _ =>
      let? signature := signature rows in
      match signature with
      | Signature_Complete constructors =>
        let? tasks := expand (rev constructors) describe rows tail trace tasks in
        ret (inl tasks)
      | Signature_Missing head =>
        let? rows := default_rows rows in
        let? trace := step describe trace (Step_Head head) in
        ret (inl (mk_Task rows tail trace :: tasks))
      end
    end
  end.

(** At most [2 ^ n] turns of a loop. *)
Fixpoint iterate {A R} (n : nat) (turn : A -> SM (A + R)) (a : A) : SM (A + R) :=
  match n with
  | O => turn a
  | S n =>
    let? x := iterate n turn a in
    match x with inl a => iterate n turn a | inr r => ret (inr r) end
  end.

(** Every turn charges one unit at least, so [2 ^ 25] turns are more than the budget allows. *)
Definition run_loop (describe : bool) (tasks : list Task) : SM (option Witness) :=
  let? x := iterate 25 (run_step describe) tasks in
  match x with inl _ => fail OutOfFuel | inr result => ret result end.

Definition run (rows : list Row) (query : Row) (describe : bool) : SM (option Witness) := fun s =>
  run_loop describe [mk_Task rows query None] (mk_Search (work s) [] (distinct s)).

(** ** Normal forms *)

Fixpoint intersect (left_ right_ : Node) : option Node :=
  match left_, right_ with
  | Node_Wild, _ => Some right_
  | _, Node_Wild => Some left_
  | Node_Ctor a left_, Node_Ctor b right_ =>
    if decide (a = b) then
      Node_Ctor a <$>
        (fix zip left_ right_ {struct left_} :=
          match left_, right_ with
          | l :: left_, r :: right_ =>
            match intersect l r with
            | Some x => cons x <$> zip left_ right_
            | None => None
            end
          | _, _ => Some []
          end) left_ right_
    else None
  end.

Definition products (prefixes : list (list Node)) (alternatives : list Node) : list (list Node) :=
  prefixes ≫= fun prefix => (fun alternative => prefix ++ [alternative]) <$> alternatives.

Fixpoint normalize (pattern : CoveragePat) (mode : Mode) : SM (list Node) :=
  match pattern with
  | CoveragePat_Wildcard | CoveragePat_Total None => ret [Node_Wild]
  | CoveragePat_Constructor constructor arguments =>
    let? all :=
      (fix go arguments prefixes {struct arguments} : SM (list (list Node)) :=
        match arguments with
        | [] => ret prefixes
        | argument :: arguments =>
          let? alternatives := normalize argument mode in
          limit (usize_saturating_mul (len prefixes) (len alternatives)) ;;;
          go arguments (products prefixes alternatives)
        end) arguments [[]] in
    ret (Node_Ctor constructor <$> all)
  | CoveragePat_Or left_ right_ =>
    let? left_ := normalize left_ mode in
    let? right_ := normalize right_ mode in
    limit (len (left_ ++ right_)) ;;;
    ret (left_ ++ right_)
  | CoveragePat_And left_ right_ =>
    let? left_ := normalize left_ mode in
    let? right_ := normalize right_ mode in
    limit (usize_saturating_mul (len left_) (len right_)) ;;;
    ret (left_ ≫= fun l => omap (fun r => intersect l r) right_)
  | CoveragePat_Literal expression => fun s =>
    let (key, count) := literal checker expression (distinct s) in
    (Ok match key with
        | Literal_Constructor constructor => [Node_Ctor constructor []]
        | Literal_Never => []
        end, mk_Search (work s) (steps s) count)
  | CoveragePat_Total (Some payload) =>
    let? rows := normalize payload Mode_Row in
    let? missing := run ((fun pattern => push pattern Row_None) <$> rows) (push Node_Wild Row_None) false in
    match missing with
    | None => ret [Node_Wild]
    | Some _ => ret (opaque mode)
    end
  | CoveragePat_Opaque | CoveragePat_ActiveCase _ _ _ => ret (opaque mode)
  end.

(** ** One match *)

(** The loop over the alternatives of an arm, which stops at the first useful one. *)
Fixpoint any_useful (rows : list Row) (queries : list Node) : SM bool :=
  match queries with
  | [] => ret false
  | query :: queries =>
    let? witness := run rows (push query Row_None) false in
    match witness with
    | Some _ => ret true
    | None => any_useful rows queries
    end
  end.

(** The loop over the arms: the rows of the unguarded ones and the spans of the unreachable ones. *)
Fixpoint check_arms (arms : list CoverageArm) (rows : list Row) (warnings : list Span)
    : SM (list Row * list Span) :=
  match arms with
  | [] => ret (rows, warnings)
  | mk_CoverageArm pattern guarded span :: arms =>
    let? queries := normalize pattern Mode_Query in
    let? useful :=
      if bool_decide (queries = []) then ret true else any_useful rows queries in
    let warnings := if useful : bool then warnings else warnings ++ [span] in
    if guarded : bool then check_arms arms rows warnings
    else
      let? patterns := normalize pattern Mode_Row in
      check_arms arms (rows ++ ((fun pattern => push pattern Row_None) <$> patterns)) warnings
  end.

Fixpoint writable (witness : Witness) : bool :=
  match witness with
  | Witness_Wild => true
  | Witness_Ctor (Constructor_Bool _ | Constructor_Unit) _ => true
  | Witness_Ctor (Constructor_Union _ _ | Constructor_Tuple _) arguments => forallb writable arguments
  | Witness_Ctor _ _ => false
  end.

Definition MAX_ADDED_ARMS : nat := 8.

(** [count] more arms may be added; [None] when there are more, when one is not writable, or when the
    search stops at its limit. The arms are given by their witnesses. *)
Fixpoint missing_arms (count : nat) (rows : list Row) (witness : Witness) (s : Search)
    : option (list Witness) :=
  match count with
  | O => None
  | S count =>
    if writable witness then
      let rows := rows ++ [push (witness_pattern witness) Row_None] in
      match run rows (push Node_Wild Row_None) true s with
      | (Ok None, _) => Some [witness]
      | (Ok (Some next), s) => cons witness <$> missing_arms count rows next s
      | (Err _, _) => None
      end
    else None
  end.

Inductive Coverage :=
| Coverage_Warnings (unreachable : list Span)
| Coverage_NonExhaustive (witness : Witness) (fix_ : option (list Witness))
| Coverage_Failure (failure : Failure).

(** The body of the loop of [check_coverage]: one match. *)
Definition check_match (coverage : MatchCoverage) : Coverage :=
  match check_arms (coverage_arms coverage) [] [] (mk_Search 0 [] 0) with
  | (Err failure, _) => Coverage_Failure failure
  | (Ok (rows, warnings), s) =>
    match run rows (push Node_Wild Row_None) true s with
    | (Err failure, _) => Coverage_Failure failure
    | (Ok None, _) => Coverage_Warnings warnings
    | (Ok (Some witness), s) =>
      Coverage_NonExhaustive witness
        match coverage_append_at coverage with
        | Some _ => missing_arms MAX_ADDED_ARMS rows witness s
        | None => None
        end
    end
  end.

(** The first match with an error, or the warnings of all. *)
Fixpoint check_coverage (matches : list MatchCoverage) (warnings : list Span) : Coverage :=
  match matches with
  | [] => Coverage_Warnings warnings
  | coverage :: matches =>
    match check_match coverage with
    | Coverage_Warnings unreachable => check_coverage matches (warnings ++ unreachable)
    | error => error
    end
  end.
End coverage.
