(* ===== verification/Matching.v ===== *)
(** * Values, what patterns and rows match, and the matrix

    The meaning of the patterns of [Exhaustiveness]: values are trees of constructors; a type is known by its family of
    constructors and the types of their fields ([Shapes], with its laws). The values of a type are [value_ok]; those that the
    search reasons about are [possible], one more in each open type. What specialising a matrix, taking its default rows
    and computing its signature mean for the values that the rows cover. *)
From S2P Require Import Prelude Exhaustiveness.
Local Open Scope nat_scope.
Local Open Scope monad_scope.

Set Warnings "-register-all".

(** ** Relations on lists, by recursion so that nested fixpoints can use them *)

Section all2.
Context {A B : Type} (R : A -> B -> Prop).

Fixpoint all2 (l : list A) (k : list B) : Prop :=
  match l, k with
  | [], [] => True
  | a :: l, b :: k => R a b /\ all2 l k
  | _, _ => False
  end.

Lemma all2_Forall2 l k : all2 l k <-> Forall2 R l k.
Proof.
  revert k. induction l as [|a l IH]; intros [|b k]; simpl.
  - by split.
  - split; [done|by inversion 1].
  - split; [done|by inversion 1].
  - rewrite IH. split; [intros [??]; by constructor|by inversion 1].
Qed.
End all2.

Section all1.
Context {A : Type} (P : A -> Prop).

Fixpoint all1 (l : list A) : Prop := match l with [] => True | a :: l => P a /\ all1 l end.

Lemma all1_Forall l : all1 l <-> Forall P l.
Proof. induction l as [|a l IH]; simpl; [by split|]. by rewrite Forall_cons_iff, IH. Qed.
End all1.

Section matching.
Context `{CheckerTypes}.

(** ** Values and matching *)

(** [Value_Other] stands, in an open type, for the values that no pattern names: the search takes it as one of the values
    of the type, also when the patterns happen to name every real one. *)
Inductive Value :=
| mk_Value (constructor : Constructor) (arguments : list Value)
| Value_Other.

Definition headed (v : Value) (heads : list Constructor) : Prop :=
  match v with mk_Value c _ => c ∈ heads | Value_Other => False end.

Fixpoint matches (p : Node) (v : Value) : Prop :=
  match p with
  | Node_Wild => True
  | Node_Ctor c ps => match v with mk_Value c' vs => c' = c /\ all2 matches ps vs | Value_Other => False end
  end.

Lemma matches_Ctor c ps c' vs :
  matches (Node_Ctor c ps) (mk_Value c' vs) <-> c' = c /\ Forall2 matches ps vs.
Proof. simpl. by rewrite all2_Forall2. Qed.

(** The constructors of the node satisfy [P]. *)
Fixpoint node_in (P : Constructor -> Prop) (p : Node) : Prop :=
  match p with
  | Node_Wild => True
  | Node_Ctor c ps => P c /\ all1 (node_in P) ps
  end.

Lemma node_in_Ctor P c ps : node_in P (Node_Ctor c ps) <-> P c /\ Forall (node_in P) ps.
Proof. simpl. by rewrite all1_Forall. Qed.

(** Induction on a node with the induction hypothesis for each argument. *)
Fixpoint Node_nested_ind (P : Node -> Prop) (Hwild : P Node_Wild)
    (Hctor : forall c ps, Forall P ps -> P (Node_Ctor c ps)) (p : Node) : P p :=
  match p with
  | Node_Wild => Hwild
  | Node_Ctor c ps => Hctor c ps
      ((fix go ps : Forall P ps :=
        match ps with
        | [] => Forall_nil P
        | p :: ps => proj2 (Forall_cons_iff P p ps) (conj (Node_nested_ind P Hwild Hctor p) (go ps))
        end) ps)
  end.

Lemma node_in_mono (P Q : Constructor -> Prop) p : (forall c, P c -> Q c) -> node_in P p -> node_in Q p.
Proof.
  intros HPQ. induction p as [|c ps IH] using Node_nested_ind; [done|]. rewrite !node_in_Ctor. intros [Hc Hps].
  split; [by apply HPQ|]. rewrite list.Forall_forall in *. auto.
Qed.

Lemma matches_em p v : matches p v \/ ~ matches p v.
Proof.
  revert v. induction p as [|c ps IH] using Node_nested_ind; intros [c' vs|]; [by left|by left| |right; by intros []].
  rewrite matches_Ctor. destruct (decide (c' = c)) as [->|]; [|right; by intros [? _]].
  assert (Forall2 matches ps vs \/ ~ Forall2 matches ps vs) as [|]; [|by left|right; by intros [_ ?]].
  revert vs. induction IH as [|p ps Hp _ IH]; intros [|v vs]; [by left|right; by inversion 1..|].
  destruct (Hp v); [|right; by inversion 1]. destruct (IH vs); [left; by constructor|right; by inversion 1].
Qed.

(** The columns of a row, and the cached count of its concrete columns. *)
Fixpoint columns (row : Row) : list Node :=
  match row with Row_None => [] | Row_Cell head tail _ => head :: columns tail end.

Fixpoint row_ok (row : Row) : Prop :=
  match row with
  | Row_None => True
  | Row_Cell head tail count => row = push head tail /\ row_ok tail
  end.

Definition row_in (P : Constructor -> Prop) (row : Row) : Prop := Forall (node_in P) (columns row).

Definition row_matches (row : Row) (vs : list Value) : Prop := Forall2 matches (columns row) vs.

Definition covers (rows : list Row) (vs : list Value) : Prop := Exists (fun row => row_matches row vs) rows.

Lemma row_matches_em row vs : row_matches row vs \/ ~ row_matches row vs.
Proof.
  unfold row_matches. revert vs. induction (columns row) as [|p ps IH]; intros [|v vs];
    [by left|right; by inversion 1..|].
  destruct (matches_em p v); [|right; by inversion 1].
  destruct (IH vs); [left; by constructor|right; by inversion 1].
Qed.

Lemma covers_em rows vs : covers rows vs \/ ~ covers rows vs.
Proof.
  unfold covers. induction rows as [|row rows IH]; [right; by intros ?%Exists_nil|].
  rewrite Exists_cons. destruct (row_matches_em row vs), IH; tauto.
Qed.

Lemma row_ok_push head tail : row_ok tail -> row_ok (push head tail).
Proof. done. Qed.

Lemma columns_push_wilds n row : columns (push_wilds n row) = replicate n Node_Wild ++ columns row.
Proof.
  revert row. induction n as [|n IH]; intros row; simpl; [done|].
  rewrite IH. simpl. by rewrite cons_middle, app_assoc, <- replicate_cons_app.
Qed.

Lemma row_ok_push_wilds n row : row_ok row -> row_ok (push_wilds n row).
Proof. revert row. induction n as [|n IH]; intros row Hr; simpl; [done|]. by apply IH, row_ok_push. Qed.

Lemma push_arguments_cons p ps row : push_arguments (p :: ps) row = push p (push_arguments ps row).
Proof. unfold push_arguments. simpl. by rewrite foldl_app. Qed.

Lemma columns_push_arguments ps row : columns (push_arguments ps row) = ps ++ columns row.
Proof. induction ps as [|p ps IH]; [done|]. rewrite push_arguments_cons. simpl. by rewrite IH. Qed.

Lemma row_ok_push_arguments ps row : row_ok row -> row_ok (push_arguments ps row).
Proof.
  intros Hr. induction ps as [|p ps IH]; [done|]. rewrite push_arguments_cons. by apply row_ok_push.
Qed.

(** A row without concrete columns matches every vector of its width. *)
Lemma concrete_0 row vs :
  row_ok row -> concrete row = 0 -> length (columns row) = length vs -> row_matches row vs.
Proof.
  unfold row_matches. revert vs. induction row as [|head tail IH count]; intros [|v vs] Hok Hc Hl;
    try done. destruct Hok as [E Hok]. unfold push in E. injection E as E.
  simpl in Hc. rewrite Hc in E. destruct head; [|done]. constructor; [done|].
  apply IH; [done|simpl in E; congruence|by simpl in Hl; lia].
Qed.

Lemma matches_wilds n vs : length vs = n -> Forall2 matches (replicate n Node_Wild) vs.
Proof. intros <-. induction vs; by constructor. Qed.

(** ** Types *)

(** The constructors of a type: a fixed list, or an open family (array lengths and literals), which the code takes as one
    that no patterns exhaust. *)
Inductive Family :=
| Family_Bool
| Family_Unit
| Family_Union (union_id : nat)
| Family_Tuple (count : nat)
| Family_Record (record_id field_count : nat)
| Family_List
| Family_Open.

Context (checker : Checker).

Definition in_family (f : Family) (c : Constructor) : Prop :=
  match f, c with
  | Family_Bool, Constructor_Bool _ => True
  | Family_Unit, Constructor_Unit => True
  | Family_Union u, Constructor_Union u' k => u' = u /\ exists cases, unions checker !! u = Some cases /\ k < length cases
  | Family_Tuple n, Constructor_Tuple n' => n' = n
  | Family_Record r n, Constructor_Record r' n' => r' = r /\ n' = n
  | Family_List, (Constructor_ListNil | Constructor_ListCons) => True
  | Family_Open, (Constructor_ArrayLen _ | Constructor_Literal _) => True
  | _, _ => False
  end.

(** The number of fields of a constructor. *)
Definition field_count (c : Constructor) : option nat :=
  match c with
  | Constructor_Union u k =>
    cases ← unions checker !! u; case ← cases !! k;
    Some (match snd case with Some _ => 1 | None => 0 end)
  | Constructor_Tuple n | Constructor_ArrayLen n => Some n
  | Constructor_Record _ n => Some n
  | Constructor_ListCons => Some 2
  | _ => Some 0
  end.
End matching.

(** The types of the columns: the types of the fields of each constructor of a type. *)
Class Shapes `{CheckerTypes} := {
  Shape : Type;
  family : Shape -> Family;
  fields : Shape -> Constructor -> option (list Shape) }.

Section typing.
Context `{Shapes}.

Section values.
Context (other : Shape -> Prop).

Fixpoint typed_value (v : Value) (t : Shape) : Prop :=
  match v with
  | mk_Value c vs => match fields t c with Some ts => all2 typed_value vs ts | None => False end
  | Value_Other => other t
  end.

Lemma typed_value_inv c vs t :
  typed_value (mk_Value c vs) t <-> exists ts, fields t c = Some ts /\ Forall2 typed_value vs ts.
Proof.
  simpl. destruct (fields t c) as [us|]; [|by split; [|intros (? & ? & _)]].
  rewrite all2_Forall2. split; [by exists us|by intros (? & [= ->] & ?)].
Qed.
End values.

(** The values of a type, and what the search takes as its values. *)
Definition value_ok : Value -> Shape -> Prop := typed_value (fun _ => False).
Definition possible : Value -> Shape -> Prop := typed_value (fun t => family t = Family_Open).

Fixpoint Value_nested_ind (P : Value -> Prop) (Hctor : forall c vs, Forall P vs -> P (mk_Value c vs)) (Hother : P Value_Other)
    (v : Value) : P v :=
  match v with
  | mk_Value c vs => Hctor c vs
      ((fix go vs : Forall P vs :=
        match vs with
        | [] => Forall_nil P
        | v :: vs => proj2 (Forall_cons_iff P v vs) (conj (Value_nested_ind P Hctor Hother v) (go vs))
        end) vs)
  | Value_Other => Hother
  end.

Fixpoint node_ok (p : Node) (t : Shape) : Prop :=
  match p with
  | Node_Wild => True
  | Node_Ctor c ps => match fields t c with Some ts => all2 node_ok ps ts | None => False end
  end.

Lemma possible_inv c vs t :
  possible (mk_Value c vs) t <-> exists ts, fields t c = Some ts /\ Forall2 possible vs ts.
Proof. apply typed_value_inv. Qed.

Lemma value_ok_possible v t : value_ok v t -> possible v t.
Proof.
  revert t. induction v as [c vs IH|] using Value_nested_ind; intros t; [|done].
  unfold value_ok, possible. rewrite !typed_value_inv. intros (ts & Hf & Hvs). exists ts. split; [done|]. clear Hf.
  induction Hvs as [|v t' vs ts Hv _ IHvs]; [constructor|]. apply Forall_cons_iff in IH as [Hp IH].
  constructor; [by apply Hp|by apply IHvs].
Qed.

Lemma node_ok_inv c ps t :
  node_ok (Node_Ctor c ps) t <-> exists ts, fields t c = Some ts /\ Forall2 node_ok ps ts.
Proof.
  simpl. destruct (fields t c) as [us|]; [|by split; [|intros (? & ? & _)]].
  rewrite all2_Forall2. split; [by exists us|by intros (? & [= ->] & ?)].
Qed.

Definition typed_row (ts : list Shape) (row : Row) : Prop :=
  row_ok row /\ Forall2 node_ok (columns row) ts.

Lemma typed_push t ts head tail :
  node_ok head t -> typed_row ts tail -> typed_row (t :: ts) (push head tail).
Proof. intros ? []. split; [by apply row_ok_push|]. by constructor. Qed.

Lemma nodes_wild ts : Forall2 node_ok (replicate (length ts) Node_Wild) ts.
Proof. induction ts; by constructor. Qed.

Lemma typed_push_wilds us ts row :
  typed_row ts row -> typed_row (us ++ ts) (push_wilds (length us) row).
Proof.
  intros [Hok Hc]. split; [by apply row_ok_push_wilds|]. rewrite columns_push_wilds.
  apply Forall2_app; [apply nodes_wild|done].
Qed.

Lemma typed_push_arguments us ts ps row :
  Forall2 node_ok ps us -> typed_row ts row -> typed_row (us ++ ts) (push_arguments ps row).
Proof.
  intros Hp [Hok Hc]. split; [by apply row_ok_push_arguments|]. rewrite columns_push_arguments.
  by apply Forall2_app.
Qed.
End typing.

(** ** Types with a value that is not named *)

Section rooms.
Context `{Shapes}.

(** The types of the parts of the values of [t]. *)
Inductive inside (t : Shape) : Shape -> Prop :=
| inside_self : inside t t
| inside_field u c ts w : inside t u -> fields u c = Some ts -> w ∈ ts -> inside t w.

(** Each open type inside [t] has a value whose constructor is not one of the [used] ones. *)
Definition roomy (used : Constructor -> Prop) (t : Shape) : Prop :=
  forall u, inside t u -> family u = Family_Open -> exists c vs, value_ok (mk_Value c vs) u /\ ~ used c.

Lemma roomy_field used t c ts u : roomy used t -> fields t c = Some ts -> u ∈ ts -> roomy used u.
Proof.
  intros Hr Hf Hin w Hw. apply Hr. induction Hw as [|w c' ts' w' _ IH Hf' Hin']; [|by eapply inside_field].
  eapply inside_field; [constructor|done..].
Qed.

(** Where no pattern names it, the value beside the named ones can be a real one. *)
Lemma realize used v : forall t, possible v t -> roomy used t -> exists v', value_ok v' t /\
  (forall p, matches p v -> matches p v') /\ (forall p, node_in used p -> matches p v' -> matches p v).
Proof.
  induction v as [c vs IH|] using Value_nested_ind; intros t Hv Hr.
  - apply possible_inv in Hv as (ts & Hf & Hvs).
    assert (exists vs', Forall2 value_ok vs' ts /\ (forall ps, Forall2 matches ps vs -> Forall2 matches ps vs') /\
      (forall ps, Forall (node_in used) ps -> Forall2 matches ps vs' -> Forall2 matches ps vs)) as (vs' & Hok & Hto & Hof).
    { assert (Forall (roomy used) ts) as Hrs by (apply list.Forall_forall; intros u Hu; by eapply roomy_field).
      clear Hf Hr. induction Hvs as [|v u vs ts Hv _ IHvs].
      { exists []. split_and!; [constructor|done|done]. }
      apply Forall_cons_iff in IH as [IHv IH]. apply Forall_cons_iff in Hrs as [Hu Hrs].
      destruct (IHv u Hv Hu) as (v' & H1 & H2 & H3). destruct (IHvs IH Hrs) as (vs' & H4 & H5 & H6).
      exists (v' :: vs'). split_and!; [by constructor| |].
      - intros ps Hps. inversion Hps; subst. constructor; auto.
      - intros ps Hin Hps. inversion Hps; subst. apply Forall_cons_iff in Hin as [? ?]. constructor; auto. }
    exists (mk_Value c vs'). split_and!.
    + apply typed_value_inv. by exists ts.
    + intros [|c' ps]; [done|]. rewrite !matches_Ctor. intros [-> ?]. auto.
    + intros [|c' ps]; [done|]. rewrite node_in_Ctor, !matches_Ctor. intros [_ ?] [-> ?]. auto.
  - destruct (Hr t (inside_self t) Hv) as (c & vs & Hok & Hn). exists (mk_Value c vs). split_and!; [done|by intros []|].
    intros [|c' ps]; [done|]. rewrite node_in_Ctor, matches_Ctor. by intros [? _] [-> _].
Qed.

Lemma realize_covers used rows v v' : Forall (row_in used) rows ->
  (forall p, node_in used p -> matches p v' -> matches p v) -> covers rows [v'] -> covers rows [v].
Proof.
  intros Hr Hm. unfold covers. induction Hr as [|row rows Hrow _ IH]; [by intros ?%Exists_nil|].
  rewrite !Exists_cons. intros [Hc|Hc]; [left|right; by apply IH]. unfold row_matches, row_in in *.
  inversion Hc as [|p ? ps ? Hp Hnil E]; subst. inversion Hnil; subst. rewrite <- E in *. apply Forall_cons_iff in Hrow as [Hp' _].
  constructor; [by apply Hm|constructor].
Qed.
End rooms.

(** What the types of a program satisfy. *)
Class ShapesLaws `{Shapes} (checker : Checker) : Prop := {
  fields_family t c : is_Some (fields t c) -> in_family checker (family t) c;
  family_fields t c : family t <> Family_Open -> in_family checker (family t) c -> is_Some (fields t c);
  fields_count t c ts : fields t c = Some ts -> field_count checker c = Some (length ts);
  shape_inhabited t : exists v, value_ok v t }.

Section matrix.
Context `{ShapesLaws}.

(** ** Matching one column *)

Lemma covers_app rows1 rows2 vs : covers (rows1 ++ rows2) vs <-> covers rows1 vs \/ covers rows2 vs.
Proof. apply Exists_app. Qed.

Lemma row_matches_wilds n row us vs :
  length us = n -> row_matches (push_wilds n row) (us ++ vs) <-> row_matches row vs.
Proof.
  intros Hn. unfold row_matches. rewrite columns_push_wilds. split.
  - intros H'. apply Forall2_app_inv in H' as [_ ?]; [done|by rewrite length_replicate].
  - intros H'. by apply Forall2_app; [apply matches_wilds|].
Qed.

Lemma row_matches_arguments ps row us vs :
  length us = length ps ->
  row_matches (push_arguments ps row) (us ++ vs) <-> Forall2 matches ps us /\ row_matches row vs.
Proof.
  intros Hn. unfold row_matches. rewrite columns_push_arguments. split.
  - intros H'. by apply Forall2_app_inv in H' as [? ?].
  - intros [??]. by apply Forall2_app.
Qed.

Lemma row_matches_push p row v vs :
  row_matches (push p row) (v :: vs) <-> matches p v /\ row_matches row vs.
Proof. unfold row_matches. simpl. by rewrite Forall2_cons_iff. Qed.

(** ** Specialisation *)

(** The row, when it matches the constructor, with its arguments as new columns. *)
Definition specialize_row (c : Constructor) (n : nat) (row : Row) : option Row :=
  match row with
  | Row_None => None
  | Row_Cell Node_Wild tail _ => Some (push_wilds n tail)
  | Row_Cell (Node_Ctor c' ps) tail _ =>
    if decide (c' = c) then Some (push_arguments ps tail) else None
  end.

Definition default_row (row : Row) : option Row :=
  match row with Row_Cell Node_Wild tail _ => Some tail | _ => None end.

Definition row_head (row : Row) : option Constructor :=
  match row with Row_Cell (Node_Ctor c _) _ _ => Some c | _ => None end.

Lemma specialize_rows_eq rows c n s t ts : Forall (typed_row (t :: ts)) rows ->
  specialize_rows rows c n s = (Ok (omap (specialize_row c n) rows), s).
Proof.
  induction 1 as [|row rows [_ Hc] _ IH]; [done|].
  destruct row as [|[|c' ps] tail count]; [by inversion Hc| |]; simpl; unfold bind; simpl; rewrite IH.
  - done.
  - by case_decide.
Qed.

Lemma default_rows_eq rows s t ts : Forall (typed_row (t :: ts)) rows ->
  default_rows rows s = (Ok (omap default_row rows), s).
Proof.
  induction 1 as [|row rows [_ Hc] _ IH]; [done|].
  destruct row as [|[|c' ps] tail count]; [by inversion Hc| |]; simpl; unfold bind; simpl; by rewrite IH.
Qed.

Lemma heads_eq rows s t ts : Forall (typed_row (t :: ts)) rows ->
  heads rows s = (Ok (omap row_head rows), s).
Proof.
  induction 1 as [|row rows [_ Hc] _ IH]; [done|].
  destruct row as [|[|c' ps] tail count]; [by inversion Hc| |]; simpl; unfold bind; simpl; by rewrite IH.
Qed.

Lemma specialize_typed rows c t ts us : fields t c = Some us ->
  Forall (typed_row (t :: ts)) rows ->
  Forall (typed_row (us ++ ts)) (omap (specialize_row c (length us)) rows).
Proof.
  intros Hf Hr. apply list.Forall_forall. intros row' (row & Hin & E)%list_elem_of_omap.
  pose proof (proj1 (list.Forall_forall _ _) Hr _ Hin) as [Hok Hc].
  destruct row as [|[|c' ps] tail count]; [done| |]; simpl in *; destruct Hok as [_ Hok].
  - simplify_eq. apply typed_push_wilds. split; [done|by inversion Hc].
  - case_decide; simplify_eq. apply Forall2_cons_iff in Hc as [Hn Hc].
    apply node_ok_inv in Hn as (us' & E' & Hps). rewrite Hf in E'. simplify_eq.
    by apply typed_push_arguments.
Qed.

Lemma default_typed rows t ts : Forall (typed_row (t :: ts)) rows ->
  Forall (typed_row ts) (omap default_row rows).
Proof.
  intros Hr. apply list.Forall_forall. intros row' (row & Hin & E)%list_elem_of_omap.
  pose proof (proj1 (list.Forall_forall _ _) Hr _ Hin) as [Hok Hc].
  destruct row as [|[|c' ps] tail count]; simpl in *; try done. simplify_eq.
  destruct Hok as [_ Hok]. split; [done|by inversion Hc].
Qed.

(** The specialised matrix covers the fields and the rest exactly when the matrix covers the value. *)
Lemma specialize_covers rows c t ts us fs vs : fields t c = Some us -> length fs = length us ->
  Forall (typed_row (t :: ts)) rows ->
  covers (omap (specialize_row c (length us)) rows) (fs ++ vs) <-> covers rows (mk_Value c fs :: vs).
Proof.
  intros Hf Hl Hr. unfold covers. induction Hr as [|row rows [Hok Hc] _ IH].
  { by rewrite !Exists_nil. }
  rewrite Exists_cons, <- IH. clear IH.
  destruct row as [|[|c' ps] tail count]; [by inversion Hc| |]; simpl in *; destruct Hok as [E _].
  - rewrite Exists_cons, row_matches_wilds by done. rewrite E, row_matches_push. simpl. tauto.
  - rewrite E, row_matches_push, matches_Ctor. apply Forall2_cons_iff in Hc as [Hn _].
    apply node_ok_inv in Hn as (us' & E' & Hps). case_decide as Hd.
    + subst. rewrite Hf in E'. simplify_eq. apply Forall2_length in Hps.
      rewrite Exists_cons, row_matches_arguments by congruence. tauto.
    + intuition congruence.
Qed.

(** The default rows match whatever the first value is; they are all the rows that match a value whose
    constructor heads no row. *)
Lemma default_covers rows t ts v vs : Forall (typed_row (t :: ts)) rows ->
  covers (omap default_row rows) vs -> covers rows (v :: vs).
Proof.
  intros Hr. unfold covers. induction Hr as [|row rows [Hok Hc] _ IH].
  { by rewrite !Exists_nil. }
  rewrite Exists_cons. destruct row as [|[|c' ps] tail count]; [by inversion Hc| |]; simpl in *.
  - destruct Hok as [E _]. rewrite Exists_cons, E, row_matches_push. simpl. tauto.
  - tauto.
Qed.

Lemma covers_default rows t ts v vs : Forall (typed_row (t :: ts)) rows ->
  ~ headed v (omap row_head rows) -> covers rows (v :: vs) -> covers (omap default_row rows) vs.
Proof.
  intros Hr. unfold covers. induction Hr as [|row rows [Hok Hc] _ IH]; intros Hv.
  { by rewrite !Exists_nil. }
  rewrite Exists_cons. destruct row as [|[|c' ps] tail count]; [by inversion Hc| |]; simpl in *.
  - destruct Hok as [E _]. rewrite Exists_cons, E, row_matches_push. tauto.
  - assert (~ headed v (omap row_head rows)) by (destruct v; [by apply not_elem_of_cons in Hv as [_ ?]|done]).
    destruct Hok as [E _]. rewrite E, row_matches_push. destruct v as [c fs|]; [|simpl; tauto].
    apply not_elem_of_cons in Hv as [Hv _]. rewrite matches_Ctor. tauto.
Qed.

(** ** Signatures *)

Lemma heads_fields rows t ts : Forall (typed_row (t :: ts)) rows ->
  Forall (fun c => is_Some (fields t c)) (omap row_head rows).
Proof.
  intros Hr. apply list.Forall_forall. intros c (row & Hin & E)%list_elem_of_omap.
  pose proof (proj1 (list.Forall_forall _ _) Hr _ Hin) as [Hok Hc].
  destruct row as [|[|c' ps] tail count]; simpl in *; simplify_eq.
  apply Forall2_cons_iff in Hc as [Hn _]. apply node_ok_inv in Hn as (us & -> & _). by eexists.
Qed.

Lemma arity_eq t c us s : fields t c = Some us -> arity checker c s = (Ok (length us), s).
Proof.
  intros Hf. apply fields_count in Hf. destruct c; simpl in *; unfold bind, ret in *; try congruence.
  destruct (unions checker !! union_id) as [cases|]; simpl in *; [|done]. unfold ret.
  destruct (cases !! case_id) as [case|]; simpl in *; [|done]. unfold ret. congruence.
Qed.

Lemma mark_spec hs present s : Forall (fun h => index h < length present) hs ->
  exists marked, mark hs present s = (Ok marked, s) /\ length marked = length present /\
  forall i, marked !! i = Some false <-> present !! i = Some false /\ Forall (fun h => index h <> i) hs.
Proof.
  revert present. induction hs as [|h hs IH]; intros present Hh; simpl.
  { exists present. split_and!; [done|done|]. intros i. by split; [intros; split|intros []]. }
  apply Forall_cons_iff in Hh as [Hh Hhs]. rewrite decide_True by done.
  destruct (IH (<[index h:=true]> present)) as (marked & E & Hl & Hm).
  { by rewrite length_insert. }
  exists marked. rewrite length_insert in Hl. split_and!; [done|done|]. intros i.
  rewrite Hm, Forall_cons_iff. destruct (decide (index h = i)) as [<-|Hne].
  - rewrite list_lookup_insert_eq by done. split; [by intros [? _]|by intros [_ [? _]]].
  - rewrite list_lookup_insert_ne by done. clear Hm. tauto.
Qed.
End matrix.

Section signatures.
Context `{ShapesLaws}.

(** The constructors of a type with a closed family. *)
Lemma fields_iff t c : family t <> Family_Open -> is_Some (fields t c) <-> in_family checker (family t) c.
Proof. intros Ho. split; [apply fields_family|by apply family_fields]. Qed.

Lemma siblings_spec t first s : is_Some (fields t first) ->
  exists r, siblings checker first s = (Ok r, s) /\
  match r with
  | inl (Signature_Complete cs) => family t <> Family_Open /\ forall c, is_Some (fields t c) <-> (c ∈ cs)
  | inl (Signature_Missing w) => family t = Family_Open /\ w = Witness_Wild
  | inr all => family t <> Family_Open /\ (forall c, is_Some (fields t c) <-> (c ∈ all)) /\ forall i c, all !! i = Some c -> index c = i
  end.
Proof.
  intros Hf. pose proof (fields_family t first Hf) as Hin. clear Hf.
  destruct (family t) eqn:Ef, first; simpl in Hin; try done;
    try (assert (forall c, is_Some (fields t c) <-> in_family checker (family t) c) as Hiff
           by (intros c; apply fields_iff; by rewrite Ef); rewrite Ef in Hiff).
  - eexists. split; [reflexivity|]. split; [done|]. split; [|by intros [|[|i]] c Hi; simplify_eq/=].
    intros c. rewrite Hiff, !elem_of_cons, elem_of_nil. destruct c as [[]| | | | | | | |]; simpl; intuition congruence.
  - eexists. split; [reflexivity|]. split; [done|].
    intros c. rewrite Hiff, list_elem_of_singleton. destruct c; simpl; intuition congruence.
  - destruct Hin as (-> & cases & Hc & Hlt). eexists. split.
    { simpl. unfold bind. rewrite Hc. reflexivity. }
    split; [done|]. split.
    + intros c. rewrite Hiff, list_elem_of_fmap. destruct c; simpl; split; try done;
        try by intros (? & ? & _).
      * intros (-> & cases' & Hc' & ?). simplify_eq. eexists. split; [done|]. apply elem_of_seq. lia.
      * intros (k & [= -> ->] & Hk%elem_of_seq). split; [done|]. exists cases. split; [done|lia].
    + intros i c Hi. rewrite list_lookup_fmap in Hi.
      destruct (seq 0 (length cases) !! i) as [k|] eqn:E; simplify_eq/=. apply lookup_seq in E. lia.
  - eexists. split; [reflexivity|]. split; [done|]. subst.
    intros c. rewrite Hiff, list_elem_of_singleton. destruct c; simpl; intuition congruence.
  - eexists. split; [reflexivity|]. split; [done|]. destruct Hin as [-> ->].
    intros c. rewrite Hiff, list_elem_of_singleton. destruct c; simpl; intuition congruence.
  - eexists. split; [reflexivity|]. split; [done|]. split; [|by intros [|[|i]] c Hi; simplify_eq/=].
    intros c. rewrite Hiff, !elem_of_cons, elem_of_nil. destruct c; simpl; intuition congruence.
  - eexists. split; [reflexivity|]. split; [done|]. split; [|by intros [|[|i]] c Hi; simplify_eq/=].
    intros c. rewrite Hiff, !elem_of_cons, elem_of_nil. destruct c; simpl; intuition congruence.
  - eexists. split; [reflexivity|]. done.
  - eexists. split; [reflexivity|]. done.
Qed.

Lemma inhabitants ts : exists fs, Forall2 possible fs ts.
Proof.
  induction ts as [|t ts [fs IH]]; [by exists []|]. destruct (shape_inhabited t) as [v Hv%value_ok_possible].
  exists (v :: fs). by constructor.
Qed.

(** A complete signature lists the constructors of the type; a missing one comes with a value that no
    constructor pattern of the column matches and that the head of the witness stands for. *)
Lemma signature_spec rows t ts s : Forall (typed_row (t :: ts)) rows ->
  exists sig, signature checker rows s = (Ok sig, s) /\
  match sig with
  | Signature_Complete cs => family t <> Family_Open /\ forall c, is_Some (fields t c) <-> (c ∈ cs)
  | Signature_Missing w => exists v,
      possible v t /\ ~ headed v (omap row_head rows) /\ matches (witness_pattern w) v /\
      node_ok (witness_pattern w) t
  end.
Proof.
  intros Hr. pose proof (heads_fields rows t ts Hr) as Hh. unfold signature, bind.
  rewrite (heads_eq rows s t ts Hr). destruct (omap row_head rows) as [|first hs] eqn:Eh.
  { eexists. split; [reflexivity|]. destruct (shape_inhabited t) as [v Hv%value_ok_possible]. exists v.
    split_and!; [done|destruct v; [by intros ?%elem_of_nil|by intros []]|done|done]. }
  destruct (siblings_spec t first s) as (r & -> & Hs); [by inversion Hh|].
  destruct r as [[cs|w]|all]; [by eexists|..].
  - eexists. split; [reflexivity|]. destruct Hs as [Ho ->].
    exists Value_Other. split_and!; [done|by intros []|done|done].
  - destruct Hs as (Hclosed & Hall & Hix).
    destruct (mark_spec (first :: hs) (replicate (length all) false) s) as (marked & Em & Hl & Hm).
    { rewrite length_replicate. eapply list.Forall_impl; [exact Hh|]. intros c Hc. simpl in Hc.
      apply Hall, list_elem_of_lookup in Hc as [i Hi]. rewrite (Hix i c Hi). by eapply lookup_lt_Some. }
    rewrite Em. destruct (list_find (eq false) marked) as [[i b]|] eqn:El; [|by eexists].
    apply list_find_Some in El as (Hi & <- & _). apply Hm in Hi as [Hi Hne].
    apply lookup_replicate in Hi as [_ Hi]. apply lookup_lt_is_Some_2 in Hi as [c Hc].
    destruct (proj2 (Hall c)) as [us Hu]; [by eapply list_elem_of_lookup_2|].
    rewrite Hc. cbn [expect ok_or ret]. unfold ret. rewrite (arity_eq t c us s Hu).
    eexists. split; [reflexivity|]. destruct (inhabitants us) as [fs Hfs].
    exists (mk_Value c fs). split_and!.
    + apply possible_inv. by exists us.
    + simpl. intros Hin. apply (proj1 (list.Forall_forall _ _) Hne) in Hin. by rewrite (Hix i c Hc) in Hin.
    + cbn [witness_pattern]. rewrite matches_Ctor. split; [done|]. rewrite fmap_replicate.
      apply matches_wilds. by eapply Forall2_length.
    + cbn [witness_pattern]. apply node_ok_inv. exists us. split; [done|]. rewrite fmap_replicate.
      apply nodes_wild.
Qed.
End signatures.
