(* ===== verification/SearchLaws.v ===== *)
(** * Laws of the matrix search

    One turn of the loop of [run] keeps an invariant of its tasks: a value left uncovered by a task is
    explained by an uncovered value of the whole query, and a list of tasks that are all covered leaves
    nothing uncovered. Each turn spends budget, so the loop ends. *)
From S2P Require Import Prelude Exhaustiveness Matching.
Local Open Scope nat_scope.
Local Open Scope monad_scope.

(** ** Results of the search monad: a value, or the limit of the budget *)

Section wp.
Context `{CheckerTypes}.

(** The two limits that the code reports; not [Panic] and not [OutOfFuel]. *)
Definition is_limit (e : Failure) : Prop :=
  e = ExhaustivenessSearchLimit \/ e = PatternAlternativesLimit.

Definition wp {A} (m : M Failure Search A) (Q : A -> Search -> Prop) (s : Search) : Prop :=
  match m s with
  | (Ok a, s') => Q a s'
  | (Err e, _) => is_limit e
  end.

Lemma wp_ret {A} (a : A) (Q : A -> Search -> Prop) s : Q a s -> wp (ret a) Q s.
Proof. done. Qed.

Lemma wp_bind {A B} (m : M Failure Search A) (k : A -> M Failure Search B) Q s :
  wp m (fun a => wp (k a) Q) s -> wp (bind m k) Q s.
Proof. unfold wp, bind. by destruct (m s) as [[a|e] s']. Qed.

Lemma wp_mono {A} (m : M Failure Search A) (P Q : A -> Search -> Prop) s :
  wp m P s -> (forall a s', P a s' -> Q a s') -> wp m Q s.
Proof. unfold wp. destruct (m s) as [[a|e] s']; auto. Qed.

Lemma wp_eq {A} (m : M Failure Search A) Q s a s' : m s = (Ok a, s') -> Q a s' -> wp m Q s.
Proof. unfold wp. by intros ->. Qed.

Lemma wp_at {A} (m : M Failure Search A) (f : Search -> Search) Q s :
  wp m Q (f s) -> wp (fun s => m (f s)) Q s.
Proof. done. Qed.

(** The state after a computation that only spends budget and records steps. *)
Definition grows (s s' : Search) : Prop :=
  (work s <= work s')%N /\ (exists l, steps s' = steps s ++ l) /\ distinct s' = distinct s /\
  (work s <= MAX_WORK -> work s' <= MAX_WORK)%N.

Lemma grows_refl s : grows s s.
Proof. split_and!; [lia| |done|done]. exists []. by rewrite app_nil_r. Qed.

Lemma grows_trans s1 s2 s3 : grows s1 s2 -> grows s2 s3 -> grows s1 s3.
Proof.
  intros (W1 & [l1 E1] & D1 & M1) (W2 & [l2 E2] & D2 & M2). split_and!; [lia| |congruence|lia].
  exists (l1 ++ l2). by rewrite E2, E1, app_assoc.
Qed.

Lemma wp_charge n s :
  wp (charge n) (fun _ s' => grows s s' /\ steps s' = steps s /\ work s' = (work s + n)%N /\ (work s' <= MAX_WORK)%N) s.
Proof.
  unfold wp, charge. simpl.
  destruct (N.ltb_spec MAX_WORK (usize_saturating_add (work s) n)) as [Hlt|Hle]; [by left|]. simpl.
  assert (usize_saturating_add (work s) n = (work s + n)%N) as E.
  { unfold usize_saturating_add in *. assert (MAX_WORK < usize_MAX)%N by done. lia. }
  rewrite E in *. split_and!; try done. split_and!; simpl; [lia| |done|lia]. exists []. by rewrite app_nil_r.
Qed.

Lemma wp_step describe parent st s :
  wp (step describe parent st) (fun trace s' => grows s s' /\ work s' = work s /\
    if describe then trace = Some (length (steps s)) /\ steps s' = steps s ++ [(st, parent)]
    else trace = None /\ steps s' = steps s) s.
Proof.
  unfold wp, step. destruct describe; simpl; split_and!; try done; [|apply grows_refl].
  split_and!; simpl; [done|by eexists|done|done].
Qed.
End wp.

(** ** Rebuilding a witness *)

Section rebuild.
Context `{CheckerTypes}.

(** The steps from [trace] back to the first turn the witnesses of the remaining columns into one. *)
Inductive rebuilds (steps : list (Step * option nat)) : option nat -> list Witness -> Witness -> Prop :=
| rebuilds_done w ws : rebuilds steps None (w :: ws) w
| rebuilds_step i st parent ws ws' w :
    steps !! i = Some (st, parent) -> (forall j, parent = Some j -> j < i) ->
    replay st ws = Some ws' -> rebuilds steps parent ws' w -> rebuilds steps (Some i) ws w.

Lemma rebuilds_app steps l trace ws w : rebuilds steps trace ws w -> rebuilds (steps ++ l) trace ws w.
Proof.
  induction 1 as [w ws|i st parent ws ws' w Hi Hlt Hr _ IH]; [by constructor|].
  econstructor; [|done..]. by apply lookup_app_l_Some.
Qed.

Lemma rebuild_loop_eq s trace ws w fuel :
  rebuilds (steps s) trace ws w -> (forall i, trace = Some i -> i < fuel) ->
  rebuild_loop fuel trace ws s = (Ok w, s).
Proof.
  intros Hr. revert fuel. induction Hr as [w ws|i st parent ws ws' w Hi Hlt Hrep _ IH]; intros fuel Hf.
  { by destruct fuel. }
  specialize (Hf i eq_refl). destruct fuel as [|fuel]; [lia|]. cbn [rebuild_loop].
  unfold bind. rewrite Hi. cbn [expect ok_or ret fst snd]. unfold ret. rewrite Hrep. cbn. unfold ret.
  apply IH. intros j Hj. specialize (Hlt j Hj). lia.
Qed.

End rebuild.

Section stand_for.
Context `{ShapesLaws}.

(** Witnesses of the types [ts] that stand for the values of the remaining columns. *)
Definition stand_for (ts : list Shape) (ws : list Witness) (vs : list Value) : Prop :=
  Forall2 (fun w v => matches (witness_pattern w) v) ws vs /\
  Forall2 (fun w t => node_ok (witness_pattern w) t) ws ts.

Lemma replay_apply t c us ts ws fs vs : fields t c = Some us -> length fs = length us ->
  stand_for (us ++ ts) ws (fs ++ vs) ->
  exists ws', replay (Step_Apply c (length us)) ws = Some ws' /\ stand_for (t :: ts) ws' (mk_Value c fs :: vs).
Proof.
  intros Hf Hlen [Hw Ht]. apply Forall2_app_inv_r in Hw as (ws1 & ws2 & Hm1 & Hm2 & ->).
  assert (length ws1 = length us) as Hl by (rewrite <- Hlen; by eapply Forall2_length).
  apply Forall2_app_inv in Ht as [Ht1 Ht2]; [|done]. simpl.
  rewrite decide_True by (rewrite length_app; lia). eexists. split; [done|].
  rewrite <- Hl, take_app_length, drop_app_length. split; (constructor; [|done]); cbn [witness_pattern].
  - rewrite matches_Ctor. split; [done|]. by apply Forall2_fmap_l.
  - apply node_ok_inv. exists us. split; [done|]. by apply Forall2_fmap_l.
Qed.

Lemma stand_for_cons t ts w ws v vs :
  matches (witness_pattern w) v -> node_ok (witness_pattern w) t -> stand_for ts ws vs ->
  stand_for (t :: ts) (w :: ws) (v :: vs).
Proof. intros ? ? [? ?]. split; by constructor. Qed.
End stand_for.

(** ** The invariant of a task *)

Section tasks.
Context `{ShapesLaws}.
(** The values that the whole query leaves uncovered, and their type. *)
Context (describe : bool) (U : Value -> Prop) (T : Shape).

Definition explains (steps : list (Step * option nat)) (trace : option nat) (ts : list Shape)
    (vs : list Value) : Prop :=
  exists v, U v /\ (describe = true -> forall ws, stand_for ts ws vs ->
    exists w, rebuilds steps trace ws w /\ matches (witness_pattern w) v /\ node_ok (witness_pattern w) T).

Definition uncovered (ts : list Shape) (rows : list Row) (query : Row) (vs : list Value) : Prop :=
  Forall2 possible vs ts /\ row_matches query vs /\ ~ covers rows vs.

Definition typed_task (ts : list Shape) (rows : list Row) (query : Row) : Prop :=
  Forall (typed_row ts) rows /\ typed_row ts query.

(** The task is well typed at [ts], and what it leaves uncovered is explained. *)
Definition task_ok (steps : list (Step * option nat)) (ts : list Shape) (task : Task) : Prop :=
  (forall i, task_trace task = Some i -> i < length steps) /\
  typed_task ts (task_rows task) (task_query task) /\
  forall vs, uncovered ts (task_rows task) (task_query task) vs -> explains steps (task_trace task) ts vs.

Definition task_covered (ts : list Shape) (task : Task) : Prop :=
  forall vs, ~ uncovered ts (task_rows task) (task_query task) vs.

Lemma task_ok_app steps l ts task : task_ok steps ts task -> task_ok (steps ++ l) ts task.
Proof.
  intros (Hi & Ht & Hu). split_and!; [|done|].
  - intros i E. rewrite length_app. specialize (Hi i E). lia.
  - intros vs (v & Hv & Hw)%Hu. exists v. split; [done|].
    intros Hd ws Hs. destruct (Hw Hd ws Hs) as (w & Hr & Hm). exists w. split; [|done].
    by apply rebuilds_app.
Qed.

Lemma task_ok_grows s s' ts task : grows s s' -> task_ok (steps s) ts task -> task_ok (steps s') ts task.
Proof. intros (_ & [l ->] & _). apply task_ok_app. Qed.

Lemma tasks_ok_grows s s' tss tasks : grows s s' ->
  Forall2 (task_ok (steps s)) tss tasks -> Forall2 (task_ok (steps s')) tss tasks.
Proof. intros Hg. apply Forall2_impl. intros ts task. by apply task_ok_grows. Qed.

(** *** A constructor column *)

(** Splitting the first value: its fields become the first columns. *)
Lemma uncovered_apply t c us ts rows query query' fs vs :
  fields t c = Some us -> Forall (typed_row (t :: ts)) rows -> length fs = length us ->
  (row_matches query (mk_Value c fs :: vs) <-> row_matches query' (fs ++ vs)) ->
  uncovered (t :: ts) rows query (mk_Value c fs :: vs) <->
  uncovered (us ++ ts) (omap (specialize_row c (length us)) rows) query' (fs ++ vs).
Proof.
  intros Hf Hr Hl Hq. unfold uncovered. rewrite (specialize_covers rows c t ts us fs vs Hf Hl Hr), <- Hq.
  assert (Forall2 possible (mk_Value c fs :: vs) (t :: ts) <-> Forall2 possible (fs ++ vs) (us ++ ts)) as ->.
  { rewrite Forall2_cons_iff, possible_inv. split.
    - intros [(us' & E & Hfs) Hvs]. rewrite Hf in E. simplify_eq. by apply Forall2_app.
    - intros Hvs. apply Forall2_app_inv in Hvs as [? ?]; [|done]. split; [by exists us|done]. }
  done.
Qed.

Lemma explains_apply t c us ts fs vs trace steps0 :
  fields t c = Some us -> length fs = length us ->
  explains steps0 trace (t :: ts) (mk_Value c fs :: vs) ->
  (forall j, trace = Some j -> j < length steps0) ->
  describe = true ->
  explains (steps0 ++ [(Step_Apply c (length us), trace)]) (Some (length steps0)) (us ++ ts) (fs ++ vs).
Proof.
  intros Hf Hl (v & Hv & Hw) Htr Hd. exists v. split; [done|]. intros _ ws Hs.
  destruct (replay_apply t c us ts ws fs vs Hf Hl Hs) as (ws' & Hrep & Hs').
  destruct (Hw Hd ws' Hs') as (w & Hr & Hm). exists w. split; [|done].
  apply (rebuilds_step _ _ (Step_Apply c (length us)) trace ws ws').
  - by rewrite lookup_app_r, Nat.sub_diag by lia.
  - done.
  - done.
  - by apply rebuilds_app.
Qed.

Lemma explains_head t ts head v0 vs trace steps0 :
  explains steps0 trace (t :: ts) (v0 :: vs) ->
  matches (witness_pattern head) v0 -> node_ok (witness_pattern head) t ->
  (forall j, trace = Some j -> j < length steps0) ->
  describe = true ->
  explains (steps0 ++ [(Step_Head head, trace)]) (Some (length steps0)) ts vs.
Proof.
  intros (v & Hv & Hw) Hh Ht Htr Hd. exists v. split; [done|]. intros _ ws Hs.
  destruct (Hw Hd (head :: ws)) as (w & Hr & Hm); [by apply stand_for_cons|]. exists w. split; [|done].
  apply (rebuilds_step _ _ (Step_Head head) trace ws (head :: ws)).
  - by rewrite lookup_app_r, Nat.sub_diag by lia.
  - done.
  - done.
  - by apply rebuilds_app.
Qed.

Lemma explains_no_describe steps1 steps2 trace1 trace2 ts1 ts2 vs1 vs2 :
  describe = false -> explains steps1 trace1 ts1 vs1 -> explains steps2 trace2 ts2 vs2.
Proof. intros Hd (v & Hv & _). exists v. split; [done|]. by rewrite Hd. Qed.

Lemma wp_specialize rows c t ts (us : list Shape) s : Forall (typed_row (t :: ts)) rows ->
  wp (specialize rows c (length us)) (fun sp s' =>
    grows s s' /\ steps s' = steps s /\ sp = omap (specialize_row c (length us)) rows) s.
Proof.
  intros Hr. unfold specialize. apply wp_bind. eapply wp_mono; [apply wp_charge|].
  intros [] s1 (Hg & Es & _). eapply wp_eq; [by eapply specialize_rows_eq|]. done.
Qed.

(** The column is decided for the constructor [c]. *)
Lemma apply_ok t c us ts rows query query' trace trace' s s' :
  fields t c = Some us -> task_ok (steps s) (t :: ts) (mk_Task rows query trace) -> typed_row (us ++ ts) query' ->
  (forall fs vs, length fs = length us ->
    row_matches query (mk_Value c fs :: vs) <-> row_matches query' (fs ++ vs)) ->
  (if describe then trace' = Some (length (steps s)) /\ steps s' = steps s ++ [(Step_Apply c (length us), trace)]
   else trace' = None /\ steps s' = steps s) ->
  let task := mk_Task (omap (specialize_row c (length us)) rows) query' trace' in
  task_ok (steps s') (us ++ ts) task /\
  (task_covered (us ++ ts) task -> forall fs vs, ~ uncovered (t :: ts) rows query (mk_Value c fs :: vs)).
Proof.
  intros Hf (Hi & [Hr Hq] & Hu) Hq' Hiff Hstep task.
  assert (forall fs vs, length fs = length us -> uncovered (t :: ts) rows query (mk_Value c fs :: vs) <->
    uncovered (us ++ ts) (task_rows task) query' (fs ++ vs)) as Hun.
  { intros fs vs Hl. apply uncovered_apply; auto. }
  assert (typed_task (us ++ ts) (task_rows task) query') as Htask.
  { split; [|done]. by apply (specialize_typed rows c t ts us). }
  split; [split_and!; [|done|]|].
  - intros i Ei. simpl in Ei. destruct describe; destruct Hstep as [-> ->]; [|done].
    injection Ei as <-. rewrite length_app. simpl. lia.
  - intros fvs Hfv.
    assert (exists fs vs, fvs = fs ++ vs /\ length fs = length us) as (fs & vs & -> & Hl).
    { destruct Hfv as [Hv _]. apply Forall2_app_inv_r in Hv as (fs & vs & H2 & _ & ->).
      exists fs, vs. split; [done|]. by eapply Forall2_length. }
    apply (Hun fs vs Hl) in Hfv. apply Hu in Hfv. simpl.
    destruct describe eqn:Ed; destruct Hstep as [-> ->].
    + eapply explains_apply; eauto.
    + by eapply explains_no_describe.
  - intros Hc fs vs Huv. assert (length fs = length us) as Hl.
    { destruct Huv as [Hv _]. apply Forall2_cons_iff in Hv as [Hv _].
      apply possible_inv in Hv as (us' & E & Hfs). rewrite Hf in E. simplify_eq. by eapply Forall2_length. }
    apply (Hun fs vs Hl) in Huv. by apply (Hc (fs ++ vs)).
Qed.

(** No constructor pattern of the column matches [v0]: the rows with a wildcard remain. *)
Lemma default_ok t ts rows tail count head v0 trace trace' s s' :
  task_ok (steps s) (t :: ts) (mk_Task rows (Row_Cell Node_Wild tail count) trace) ->
  possible v0 t -> ~ headed v0 (omap row_head rows) -> matches (witness_pattern head) v0 ->
  node_ok (witness_pattern head) t ->
  (if describe then trace' = Some (length (steps s)) /\ steps s' = steps s ++ [(Step_Head head, trace)]
   else trace' = None /\ steps s' = steps s) ->
  let task := mk_Task (omap default_row rows) tail trace' in
  task_ok (steps s') ts task /\
  (task_covered ts task -> forall vs, ~ uncovered (t :: ts) rows (Row_Cell Node_Wild tail count) vs).
Proof.
  intros (Hi & [Hr [Hqo Hq]] & Hu) Hv0 Hn Hm Hnode Hstep task. destruct Hqo as [Epush Hok].
  assert (typed_task ts (task_rows task) tail) as Htask.
  { split; [by eapply default_typed|]. split; [done|]. by inversion Hq. }
  split; [split_and!; [|done|]|].
  - intros i Ei. simpl in Ei. destruct describe; destruct Hstep as [-> ->]; [|done].
    injection Ei as <-. rewrite length_app. simpl. lia.
  - intros vs (Hvs & Hqm & Hnc).
    assert (uncovered (t :: ts) rows (Row_Cell Node_Wild tail count) (v0 :: vs)) as Hun.
    { split_and!; [by constructor| |].
      - rewrite Epush. apply row_matches_push. by split.
      - intros Hc. apply Hnc. by apply (covers_default rows t ts v0 vs Hr Hn). }
    apply Hu in Hun. simpl. destruct describe eqn:Ed; destruct Hstep as [-> ->].
    + eapply explains_head; eauto.
    + by eapply explains_no_describe.
  - intros Hc vs (Hvs & Hqm & Hnc). destruct vs as [|v vs]; [by inversion Hvs|].
    apply (Hc vs). split_and!.
    + by apply Forall2_cons_iff in Hvs as [_ ?].
    + rewrite Epush in Hqm. by apply row_matches_push in Hqm as [_ ?].
    + intros Hd. apply Hnc. by apply (default_covers rows t ts v vs Hr).
Qed.

Lemma wp_expand cs t ts rows tail count trace tss tasks s :
  Forall (fun c => is_Some (fields t c)) cs ->
  task_ok (steps s) (t :: ts) (mk_Task rows (Row_Cell Node_Wild tail count) trace) ->
  Forall2 (task_ok (steps s)) tss tasks ->
  wp (expand checker cs describe rows tail trace tasks) (fun tasks' s' =>
    grows s s' /\ exists tss', Forall2 (task_ok (steps s')) tss' tasks' /\
    (Forall2 task_covered tss' tasks' -> Forall2 task_covered tss tasks /\
      forall c fs vs, c ∈ cs -> ~ uncovered (t :: ts) rows (Row_Cell Node_Wild tail count) (mk_Value c fs :: vs))) s.
Proof.
  revert s tss tasks. induction cs as [|c cs IH]; intros s tss tasks Hcs Hex Htasks; cbn [expand].
  { apply wp_ret. split; [apply grows_refl|]. exists tss. split; [done|]. intros Hc. split; [done|].
    intros c fs vs Hin. by apply elem_of_nil in Hin. }
  apply Forall_cons_iff in Hcs as [[us Hf] Hcs]. pose proof Hex as (Hi & [Hr [[Epush Hok] Hq]] & Hu).
  apply wp_bind. eapply wp_eq; [by apply (arity_eq t c us)|].
  apply wp_bind. eapply wp_mono; [by apply (wp_specialize rows c t ts us)|].
  intros sp s1 (Hg1 & Es1 & ->). apply wp_bind. eapply wp_mono; [apply wp_step|].
  intros trace' s2 (Hg2 & _ & Hst). apply (task_ok_grows _ _ _ _ Hg1) in Hex.
  pose proof (apply_ok t c us ts rows _ (push_wilds (length us) tail) trace trace' s1 s2 Hf Hex) as Ha.
  destruct Ha as [Hnew Hcov]; [| |done|].
  { apply typed_push_wilds. split; [done|]. by inversion Hq. }
  { intros fs vs Hl. simpl in Epush. rewrite Epush, row_matches_push, row_matches_wilds by done. simpl. tauto. }
  assert (grows s s2) as Hg by (by eapply grows_trans).
  eapply wp_mono; [apply (IH s2 ((us ++ ts) :: tss))|].
  - done.
  - by eapply task_ok_grows.
  - constructor; [done|]. by eapply tasks_ok_grows.
  - intros tasks' s3 (Hg3 & tss' & Hok3 & Hc3). split; [by eapply grows_trans|]. exists tss'.
    split; [done|]. intros [Hct Hcs']%Hc3. apply Forall2_cons_iff in Hct as [Hcnew Hct]. split; [done|].
    intros c' fs vs Hin. apply elem_of_cons in Hin as [->|Hin]; [by apply Hcov|by apply Hcs'].
Qed.

(** *** One turn *)

Definition inv (s : Search) (tasks : list Task) : Prop :=
  exists tss, Forall2 (task_ok (steps s)) tss tasks /\
    (Forall2 task_covered tss tasks -> forall v, ~ U v).

Definition answers (result : option Witness) : Prop :=
  match result with
  | None => forall v, ~ U v
  | Some w => exists v, U v /\ (describe = true ->
      matches (witness_pattern w) v /\ node_ok (witness_pattern w) T)
  end.

Definition turned (s : Search) (x : list Task + option Witness) (s' : Search) : Prop :=
  distinct s' = distinct s /\ (work s <= work s')%N /\
  match x with
  | inl tasks => inv s' tasks /\ (work s + 1 <= work s' <= MAX_WORK)%N
  | inr result => answers result
  end.

(** A row of wildcards covers the whole task. *)
Lemma concrete_covered ts rows query trace : typed_task ts rows query ->
  existsb (fun row => Nat.eqb (concrete row) 0) rows = true ->
  task_covered ts (mk_Task rows query trace).
Proof.
  intros [Hr _] He vs (Hvs & _ & Hn). apply Hn. apply existsb_exists in He as (row & Hin & Hc).
  apply Nat.eqb_eq in Hc. apply Exists_exists. exists row. split; [done|].
  apply list_elem_of_In in Hin. pose proof (proj1 (list.Forall_forall _ _) Hr row Hin) as [Hok Hcol].
  apply concrete_0; [done|done|]. apply Forall2_length in Hvs, Hcol. congruence.
Qed.

(** At the last column no row is left. *)
Lemma leaf_uncovered ts rows : typed_task ts rows Row_None ->
  existsb (fun row => Nat.eqb (concrete row) 0) rows = false -> uncovered ts rows Row_None [].
Proof.
  intros [Hr [_ Hq]] He. inversion Hq; subst. destruct rows as [|row rows].
  { split_and!; [constructor|constructor|]. by intros ?%Exists_nil. }
  apply Forall_cons_iff in Hr as [[_ Hc] _]. destruct row; [done|]. by inversion Hc.
Qed.

Lemma wp_rebuild s ts rows query trace :
  describe = true -> task_ok (steps s) ts (mk_Task rows query trace) -> uncovered ts rows query [] ->
  wp (rebuild trace) (fun w s' => s' = s /\ exists v, U v /\
    matches (witness_pattern w) v /\ node_ok (witness_pattern w) T) s.
Proof.
  intros Hd (Hi & _ & Hu) Hun. pose proof Hun as (Hvs & _). apply Hu in Hun as (v & Hv & Hw). inversion Hvs; subst.
  destruct (Hw Hd []) as (w & Hr & Hm); [by repeat constructor|].
  unfold rebuild, wp. rewrite (rebuild_loop_eq s trace [] w) by done. split; [done|]. by exists v.
Qed.

(** A signature decides the column. *)
Lemma wp_wild t ts rows tail count trace tss tasks s :
  task_ok (steps s) (t :: ts) (mk_Task rows (Row_Cell Node_Wild tail count) trace) ->
  Forall2 (task_ok (steps s)) tss tasks ->
  wp (let? signature := signature checker rows in
      match signature with
      | Signature_Complete constructors =>
        let? tasks := expand checker (rev constructors) describe rows tail trace tasks in
        ret (inl tasks)
      | Signature_Missing head =>
        let? rows := default_rows rows in
        let? trace := step describe trace (Step_Head head) in
        ret (inl (mk_Task rows tail trace :: tasks))
      end)
    (fun x s' => grows s s' /\ exists tss' tasks', x = inl (B := option Witness) tasks' /\
      Forall2 (task_ok (steps s')) tss' tasks' /\
      (Forall2 task_covered tss' tasks' -> Forall2 task_covered tss tasks /\
        forall vs, ~ uncovered (t :: ts) rows (Row_Cell Node_Wild tail count) vs)) s.
Proof.
  intros Hex Htasks. pose proof Hex as (_ & [Hr _] & _). apply wp_bind.
  destruct (signature_spec rows t ts s Hr) as (sig & Es & Hsig). eapply wp_eq; [exact Es|].
  destruct sig as [cs|w].
  - apply wp_bind. eapply wp_mono; [apply (wp_expand (rev cs) t ts rows tail count trace tss tasks s)|].
    + apply list.Forall_forall. intros c Hin. apply (proj2 Hsig). by apply list_elem_of_In, in_rev, list_elem_of_In.
    + done.
    + done.
    + intros tasks' s' (Hg & tss' & Hok & Hc). apply wp_ret. split; [done|]. exists tss', tasks'.
      split_and!; [done..|]. intros [Ht Hcs]%Hc. split; [done|]. intros vs Hun.
      destruct vs as [|[c fs|] vs]; [destruct Hun as [Hv _]; by inversion Hv| |].
      2: { destruct Hun as [Hv _]. apply Forall2_cons_iff in Hv as [Hv _]. by apply Hsig in Hv. }
      refine (Hcs c fs vs _ Hun). apply list_elem_of_In, in_rev. rewrite rev_involutive.
      apply list_elem_of_In, (proj2 Hsig). destruct Hun as [Hv _]. apply Forall2_cons_iff in Hv as [Hv _].
      apply possible_inv in Hv as (us & -> & _). by eexists.
  - destruct Hsig as (v0 & Hv0 & Hn & Hm & Hnode). apply wp_bind.
    eapply wp_eq; [by apply (default_rows_eq rows s t ts)|].
    apply wp_bind. eapply wp_mono; [apply wp_step|]. intros trace' s' (Hg & _ & Hst).
    destruct (default_ok t ts rows tail count w v0 trace trace' s s' Hex Hv0 Hn Hm Hnode Hst) as [Hok Hc].
    apply wp_ret. split; [done|]. exists (ts :: tss). eexists. split; [done|]. split.
    + constructor; [done|]. by eapply tasks_ok_grows.
    + intros Hct. apply Forall2_cons_iff in Hct as [Hc1 Hc2]. split; [done|]. by apply Hc.
Qed.

Lemma wp_run_step s tasks : inv s tasks -> wp (run_step checker describe tasks) (turned s) s.
Proof.
  intros (tss & Htasks & Hcov). unfold turned. destruct tasks as [|[rows query trace] tasks].
  { apply wp_ret. split_and!; [done|lia|]. refine (Hcov _). inversion Htasks. constructor. }
  apply Forall2_cons_inv_r in Htasks as (ts & tss' & Hex & Htasks & ->). cbn [run_step].
  apply wp_bind. eapply wp_mono; [apply wp_charge|]. intros [] s1 (Hg1 & _ & Ew1 & Hmax1).
  apply (task_ok_grows _ _ _ _ Hg1) in Hex. apply (tasks_ok_grows _ _ _ _ Hg1) in Htasks.
  assert (work s + 1 <= work s1 <= MAX_WORK)%N as Hw by (unfold len in *; lia).
  assert (distinct s1 = distinct s) as Hd by apply Hg1. clear Hg1 Ew1 Hmax1.
  pose proof Hex as (_ & [Hr [Hqo Hq]] & Hu). simpl in Hr, Hqo, Hq, Hu.
  destruct (existsb _ rows) eqn:Ee.
  { apply wp_ret. split_and!; [done|lia| |lia|lia]. exists tss'. split; [done|]. intros Hc. refine (Hcov _).
    constructor; [|done]. by apply concrete_covered. }
  destruct query as [|[|c ps] tail count].
  - pose proof (leaf_uncovered ts rows (conj Hr (conj Hqo Hq)) Ee) as Hun. destruct describe eqn:Edesc.
    + apply wp_bind. eapply wp_mono; [by eapply wp_rebuild|].
      intros w s' [-> (v & Hv & Hm)]. apply wp_ret. split_and!; [done|lia|]. by exists v.
    + apply wp_ret. split_and!; [done|lia|]. destruct (Hu [] Hun) as (v & Hv & _). by exists v.
  - destruct ts as [|t ts]; [by inversion Hq|].
    eapply wp_mono; [by eapply wp_wild|]. intros x s' (Hg & tss2 & tasks' & -> & Hok & Hc).
    destruct Hg as (? & _ & ? & ?). split_and!; [congruence|lia| |lia|lia]. exists tss2. split; [done|].
    intros [Hc1 Hc2]%Hc. refine (Hcov _). by constructor.
  - destruct ts as [|t ts]; [by inversion Hq|]. pose proof Hq as Hq'.
    apply Forall2_cons_iff in Hq' as [Hp Hq']. apply node_ok_inv in Hp as (us & Hf & Hps).
    assert (length ps = length us) as -> by by eapply Forall2_length.
    apply wp_bind. eapply wp_mono; [by apply (wp_specialize rows c t ts us)|].
    intros sp s2 (Hg2 & _ & ->). apply wp_bind. eapply wp_mono; [apply wp_step|].
    intros trace' s3 (Hg3 & _ & Hst). apply wp_ret. apply (task_ok_grows _ _ _ _ Hg2) in Hex.
    destruct Hqo as [Epush Hok]. simpl in Epush.
    destruct (apply_ok t c us ts rows _ (push_arguments ps tail) trace trace' s2 s3 Hf Hex)
      as [Hnew Hc]; [| |done|].
    { apply typed_push_arguments; [done|]. by split. }
    { intros fs vs Hl. rewrite Epush, row_matches_push, matches_Ctor, row_matches_arguments;
        [tauto|]. rewrite Hl. symmetry. by eapply Forall2_length. }
    assert (grows s1 s3) as Hg by by eapply grows_trans.
    pose proof Hg as (? & _ & ? & ?). split_and!; [congruence|lia| |lia|lia].
    exists ((us ++ ts) :: tss'). split; [constructor; [done|by eapply tasks_ok_grows]|].
    intros Hcc. apply Forall2_cons_iff in Hcc as [Hc1 Hc2]. refine (Hcov _). constructor; [|done].
    intros vs Hun. simpl in Hun. pose proof Hun as (Hvs & Hqm & _).
    destruct vs as [|v vs]; [by inversion Hvs|]. rewrite Epush in Hqm. apply row_matches_push in Hqm as [Hm _].
    destruct v as [c' fs|]; [|done]. apply matches_Ctor in Hm as [-> _].
    by apply (Hc Hc1 fs vs).
Qed.

(** *** The loop *)

Lemma wp_iterate n s tasks : inv s tasks ->
  wp (iterate n (run_step checker describe) tasks) (fun x s' =>
    distinct s' = distinct s /\ (work s <= work s')%N /\
    match x with
    | inl tasks' => inv s' tasks' /\ (work s + 2 ^ N.of_nat n <= work s' <= MAX_WORK)%N
    | inr result => answers result
    end) s.
Proof.
  revert s tasks. induction n as [|n IH]; intros s tasks Hinv; cbn [iterate].
  { eapply wp_mono; [by apply wp_run_step|]. done. }
  apply wp_bind. eapply wp_mono; [by apply IH|]. intros [tasks1|result] s1 (Hd1 & Hw1 & H1').
  - destruct H1' as [Hinv1 Hw1']. eapply wp_mono; [by apply IH|].
    intros [tasks2|result] s2 (Hd2 & Hw2 & H2'); (split; [congruence|]; split; [lia|]); [|done].
    destruct H2' as [Hinv2 Hw2']. split; [done|].
    rewrite Nat2N.inj_succ, N.pow_succ_r'. lia.
  - apply wp_ret. split_and!; [done|lia|done].
Qed.

(** The budget is spent before the turns are: the loop always ends with a result. *)
Lemma wp_run_loop s tasks : inv s tasks ->
  wp (run_loop checker describe tasks) (fun result s' =>
    distinct s' = distinct s /\ (work s <= work s')%N /\ answers result) s.
Proof.
  intros Hinv. unfold run_loop. apply wp_bind. eapply wp_mono; [by apply (wp_iterate 25)|].
  intros [tasks'|result] s' (Hd & Hw & Hr); [|by apply wp_ret].
  destruct Hr as [_ [Hlow Hhigh]]. exfalso.
  assert (MAX_WORK < 2 ^ N.of_nat 25)%N by done. lia.
Qed.
End tasks.

(** ** [run] on one column *)

Section run.
Context `{ShapesLaws}.

(** The values of type [t] that the pattern matches and no row covers. *)
Definition left_over (t : Shape) (rows : list Row) (pattern : Node) (v : Value) : Prop :=
  possible v t /\ matches pattern v /\ ~ covers rows [v].

Lemma wp_run t rows pattern describe s :
  Forall (typed_row [t]) rows -> node_ok pattern t ->
  wp (run checker rows (push pattern Row_None) describe) (fun result s' =>
    distinct s' = distinct s /\ (work s <= work s')%N /\
    match result with
    | None => forall v, possible v t -> matches pattern v -> covers rows [v]
    | Some w => exists v, left_over t rows pattern v /\
        (describe = true -> matches (witness_pattern w) v /\ node_ok (witness_pattern w) t)
    end) s.
Proof.
  intros Hr Hp. unfold run.
  assert (forall v, uncovered [t] rows (push pattern Row_None) [v] <-> left_over t rows pattern v) as Hun.
  { intros v. unfold uncovered, left_over. rewrite Forall2_cons_iff, row_matches_push.
    split; [by intros ([? _] & [? _] & ?)|intros (? & ? & ?); by repeat constructor]. }
  assert (inv describe (left_over t rows pattern) t (mk_Search (work s) [] (distinct s))
    [mk_Task rows (push pattern Row_None) None]) as Hinv.
  { exists [[t]]. split.
    - constructor; [|constructor]. split_and!; [done| |].
      + split; [done|]. by apply typed_push.
      + intros vs Hv. assert (exists v, vs = [v]) as [v ->].
        { destruct Hv as [Hv _]. apply Forall2_cons_inv_r in Hv as (v & vs' & _ & Hv & ->).
          inversion Hv. by exists v. }
        exists v. split; [by apply Hun|]. intros _ ws Hw.
        destruct Hw as [Hw Hwt].
        apply Forall2_cons_inv_r in Hw as (w & ws' & Hm & Hw & ->). exists w. split; [constructor|].
        by apply Forall2_cons_iff in Hwt as [Hwt _].
    - intros Hc v Hv. apply Forall2_cons_iff in Hc as [Hc _]. by apply (Hc [v]), Hun. }
  apply (wp_at (run_loop checker describe [mk_Task rows (push pattern Row_None) None])
    (fun s => mk_Search (work s) [] (distinct s))).
  eapply wp_mono; [exact (wp_run_loop _ _ _ _ _ Hinv)|]. intros result s' (Hd & Hw & Ha).
  split_and!; [done|done|]. destruct result as [w|]; [done|]. intros v Hv Hm.
  destruct (covers_em rows [v]) as [|Hn]; [done|]. exfalso. apply (Ha v). by split_and!.
Qed.
End run.
