(* ===== verification/NormalForms.v ===== *)
(** * Normal forms of coverage patterns

    [denotes p t A]: the pattern [p] of type [t] may stand for the set [A] of values. An opaque pattern
    may stand for any set. The rows of a pattern cover a part of every set it stands for; its queries
    match the whole of it. *)
From S2P Require Import Prelude Exhaustiveness Matching SearchLaws.
Local Open Scope nat_scope.
Local Open Scope monad_scope.

Section denotes.
Context `{ShapesLaws}.

Definition Values := Value -> Prop.

(** The values [vs] are in the sets [As], one by one. *)
Definition members (As : list Values) (vs : list Value) : Prop := Forall2 (fun (A : Values) v => A v) As vs.

Fixpoint denotes (p : CoveragePat) (t : Shape) (A : Values) : Prop :=
  match p with
  | CoveragePat_Wildcard | CoveragePat_Total None => forall v, A v
  | CoveragePat_Constructor c ps =>
    exists ts As, fields t c = Some ts /\
      (fix all3 ps ts As {struct ps} : Prop :=
        match ps, ts, As with
        | [], [], [] => True
        | p :: ps, t :: ts, A :: As => denotes p t A /\ all3 ps ts As
        | _, _, _ => False
        end) ps ts As /\
      forall v, A v <-> exists vs, v = mk_Value c vs /\ members As vs
  | CoveragePat_Or left_ right_ =>
    exists B C, denotes left_ t B /\ denotes right_ t C /\ forall v, A v <-> B v \/ C v
  | CoveragePat_And left_ right_ =>
    exists B C, denotes left_ t B /\ denotes right_ t C /\ forall v, A v <-> B v /\ C v
  | CoveragePat_Literal e =>
    forall n, match fst (literal checker e n) with
      | Literal_Constructor c => fields t c = Some [] /\ forall v, A v <-> v = mk_Value c []
      | Literal_Never => forall v, ~ A v
      end
  | CoveragePat_Total (Some payload) =>
    (** The recognizer accepts every value when its payload pattern is irrefutable. *)
    exists t' B, denotes payload t' B /\ ((forall u, value_ok u t' -> B u) -> forall v, A v)
  | CoveragePat_ActiveCase _ _ _ | CoveragePat_Opaque => True
  end.

(** The alternatives of a normal form, as rows and as queries. *)
Definition any_matches (ns : list Node) (v : Value) : Prop := Exists (fun n => matches n v) ns.

Definition approximates (mode : Mode) (ns : list Node) (t : Shape) (A : Values) : Prop :=
  Forall (fun n => node_ok n t) ns /\
  forall v, possible v t ->
    match mode with Mode_Row => any_matches ns v -> A v | Mode_Query => A v -> any_matches ns v end.

(** The same for vectors of columns. *)
Definition any_vector (prefixes : list (list Node)) (vs : list Value) : Prop :=
  Exists (fun prefix => Forall2 matches prefix vs) prefixes.

Definition approximates_all (mode : Mode) (prefixes : list (list Node)) (ts : list Shape) (As : list Values) : Prop :=
  Forall (fun prefix => Forall2 node_ok prefix ts) prefixes /\ length As = length ts /\
  forall vs, Forall2 possible vs ts ->
    match mode with
    | Mode_Row => any_vector prefixes vs -> members As vs
    | Mode_Query => members As vs -> any_vector prefixes vs
    end.

(** ** Products *)

Lemma elem_of_products prefixes ns prefix :
  prefix ∈ products prefixes ns <-> exists p n, prefix = p ++ [n] /\ (p ∈ prefixes) /\ (n ∈ ns).
Proof.
  unfold products. rewrite list_elem_of_bind. split.
  - intros (p & Hin & Hp). apply list_elem_of_fmap in Hin as (n & -> & Hn). by exists p, n.
  - intros (p & n & -> & Hp & Hn). exists p. split; [|done]. apply list_elem_of_fmap. by exists n.
Qed.

Lemma Exists_elem_of {A} (P : A -> Prop) l : Exists P l <-> exists a, (a ∈ l) /\ P a.
Proof. rewrite Exists_exists. by setoid_rewrite list_elem_of_In. Qed.

Lemma Forall2_snoc {A B} (R : A -> B -> Prop) l a k b :
  Forall2 R (l ++ [a]) (k ++ [b]) <-> Forall2 R l k /\ R a b.
Proof.
  split.
  - intros H'. apply Forall2_app_inv_l in H' as (k1 & k2 & H1' & H2' & E).
    apply Forall2_cons_inv_l in H2' as (b' & k2' & Hab & Hnil & ->). inversion Hnil; subst.
    apply app_inj_tail in E as [-> ->]. done.
  - intros [H1' H2']. apply Forall2_app; [done|]. by repeat constructor.
Qed.

Lemma any_vector_products prefixes ns vs v :
  any_vector (products prefixes ns) (vs ++ [v]) <-> any_vector prefixes vs /\ any_matches ns v.
Proof.
  unfold any_vector, any_matches. rewrite !Exists_elem_of. split.
  - intros (prefix & (p & n & -> & Hp & Hn)%elem_of_products & Hm). apply Forall2_snoc in Hm as [Hm1 Hm2].
    split; by eexists.
  - intros [(p & Hp & Hm1) (n & Hn & Hm2)]. exists (p ++ [n]). split.
    + apply elem_of_products. by exists p, n.
    + by apply Forall2_snoc.
Qed.

Lemma approximates_products mode prefixes ts As ns t A :
  approximates_all mode prefixes ts As -> approximates mode ns t A ->
  approximates_all mode (products prefixes ns) (ts ++ [t]) (As ++ [A]).
Proof.
  intros (Ht1 & Hl & Hm1) (Ht2 & Hm2). split_and!.
  - apply list.Forall_forall. intros prefix (p & n & -> & Hp & Hn)%elem_of_products.
    apply Forall2_snoc. split; [by eapply (proj1 (list.Forall_forall _ _) Ht1)|].
    by eapply (proj1 (list.Forall_forall _ _) Ht2).
  - rewrite !length_app. simpl. lia.
  - intros vs' Hvs. apply Forall2_app_inv_r in Hvs as (vs & w & Hvs & Hw & ->).
    apply Forall2_cons_inv_r in Hw as (v & w' & Hv & Hw & ->). inversion Hw; subst.
    specialize (Hm1 vs Hvs). specialize (Hm2 v Hv). unfold members in *.
    destruct mode; rewrite any_vector_products, Forall2_snoc; tauto.
Qed.

Lemma approximates_nil mode : approximates_all mode [[]] [] [].
Proof.
  split_and!; [by repeat constructor|done|]. intros vs Hvs. inversion Hvs; subst.
  destruct mode; intros _; [constructor|by repeat constructor].
Qed.

(** ** Intersection *)

Lemma intersect_spec l r t : node_ok l t -> node_ok r t ->
  match intersect l r with
  | Some n => node_ok n t /\ forall v, matches n v <-> matches l v /\ matches r v
  | None => forall v, ~ (matches l v /\ matches r v)
  end.
Proof.
  revert r t. induction l as [|a ls IH] using Node_nested_ind; intros r t Hl Hr.
  { simpl. split; [done|]. intros v. tauto. }
  destruct r as [|b rs]; [simpl; split; [done|]; intros v; simpl; tauto|]. simpl.
  destruct (decide (a = b)) as [<-|Hne].
  2: { intros [c vs|] [Hm1 Hm2]; [|done]. apply matches_Ctor in Hm1 as [-> _]. by apply matches_Ctor in Hm2 as [-> _]. }
  apply node_ok_inv in Hl as (ts & Hf & Hls). apply node_ok_inv in Hr as (ts' & Hf' & Hrs).
  rewrite Hf in Hf'. simplify_eq.
  match goal with |- context [Node_Ctor a <$> ?zip ls rs] => set (z := zip) end.
  assert (match z ls rs with
    | Some ns => Forall2 node_ok ns ts' /\ forall vs, Forall2 matches ns vs <-> Forall2 matches ls vs /\ Forall2 matches rs vs
    | None => forall vs, ~ (Forall2 matches ls vs /\ Forall2 matches rs vs)
    end) as Hz.
  { clear Hf. revert ts' rs Hls Hrs. induction IH as [|l ls Hl _ IHls]; intros ts rs Hls Hrs.
    - inversion Hls; subst. inversion Hrs; subst. simpl. split; [done|]. intros vs. tauto.
    - apply Forall2_cons_inv_l in Hls as (t0 & ts' & Hl0 & Hls & ->).
      apply Forall2_cons_inv_r in Hrs as (r & rs' & Hr0 & Hrs & ->).
      specialize (Hl r t0 Hl0 Hr0). specialize (IHls ts' rs' Hls Hrs). simpl. fold z in IHls |- *.
      destruct (intersect l r) as [n|].
      2: { intros vs [Hm1 Hm2]. destruct vs as [|v vs]; [by inversion Hm1|].
        apply Forall2_cons_iff in Hm1 as [? _], Hm2 as [? _]. by apply (Hl v). }
      destruct (z ls rs') as [ns|]; simpl.
      + destruct Hl as [Hn Hv], IHls as [Hns Hvs]. split; [by constructor|]. intros [|v vs].
        { split; [by inversion 1|by intros [H' _]; inversion H']. }
        rewrite !Forall2_cons_iff, Hv, Hvs. tauto.
      + intros vs [Hm1 Hm2]. destruct vs as [|v vs]; [by inversion Hm1|].
        apply Forall2_cons_iff in Hm1 as [_ ?], Hm2 as [_ ?]. by apply (IHls vs). }
  destruct (z ls rs) as [ns|]; simpl.
  - destruct Hz as [Hns Hvs]. split.
    + change (node_ok (Node_Ctor a ns) t). apply node_ok_inv. by exists ts'.
    + intros [c vs|]; [|simpl; tauto]. change (matches (Node_Ctor a ns) (mk_Value c vs) <->
        matches (Node_Ctor a ls) (mk_Value c vs) /\ matches (Node_Ctor a rs) (mk_Value c vs)).
      rewrite !matches_Ctor, Hvs. tauto.
  - intros [c vs|] [Hm1 Hm2]; [|done]. apply matches_Ctor in Hm1 as [_ Hm1], Hm2 as [_ Hm2]. by apply (Hz vs).
Qed.

(** ** [normalize] *)

Definition Forall_option {A} (P : A -> Prop) (o : option A) : Prop :=
  match o with Some a => P a | None => True end.

(** Induction on a pattern, with the hypothesis for each argument and for the payload. *)
Fixpoint CoveragePat_nested_ind (P : CoveragePat -> Prop)
    (Hwild : P CoveragePat_Wildcard)
    (Hctor : forall c ps, Forall P ps -> P (CoveragePat_Constructor c ps))
    (Hor : forall l r, P l -> P r -> P (CoveragePat_Or l r))
    (Hand : forall l r, P l -> P r -> P (CoveragePat_And l r))
    (Hlit : forall e, P (CoveragePat_Literal e))
    (Htotal : forall o, Forall_option P o -> P (CoveragePat_Total o))
    (Hactive : forall f i n, P (CoveragePat_ActiveCase f i n))
    (Hopaque : P CoveragePat_Opaque) (p : CoveragePat) : P p :=
  let ind := CoveragePat_nested_ind P Hwild Hctor Hor Hand Hlit Htotal Hactive Hopaque in
  match p with
  | CoveragePat_Wildcard => Hwild
  | CoveragePat_Constructor c ps => Hctor c ps
      ((fix go ps : Forall P ps :=
        match ps with
        | [] => Forall_nil P
        | p :: ps => proj2 (Forall_cons_iff P p ps) (conj (ind p) (go ps))
        end) ps)
  | CoveragePat_Or l r => Hor l r (ind l) (ind r)
  | CoveragePat_And l r => Hand l r (ind l) (ind r)
  | CoveragePat_Literal e => Hlit e
  | CoveragePat_Total o => Htotal o
      match o with Some p => ind p | None => I end
  | CoveragePat_ActiveCase f i n => Hactive f i n
  | CoveragePat_Opaque => Hopaque
  end.

Lemma wp_limit n (Q : unit -> Search -> Prop) s : Q tt s -> wp (limit n) Q s.
Proof.
  intros Hq. unfold wp, limit. destruct (MAX_PATTERN_ALTERNATIVES <? n)%N; [by right|done].
Qed.

Lemma approximates_wild mode t (A : Values) : (forall v, A v) -> approximates mode [Node_Wild] t A.
Proof.
  intros HA. split; [by repeat constructor|]. intros v _. destruct mode; [done|].
  intros _. by apply List.Exists_cons_hd.
Qed.

Lemma approximates_opaque mode t A : approximates mode (opaque mode) t A.
Proof.
  destruct mode; (split; [by repeat constructor|]); intros v _; simpl.
  - by intros ?%Exists_nil.
  - intros _. by apply List.Exists_cons_hd.
Qed.

Lemma approximates_or mode ns ns' t (A B C : Values) :
  approximates mode ns t B -> approximates mode ns' t C -> (forall v, A v <-> B v \/ C v) ->
  approximates mode (ns ++ ns') t A.
Proof.
  intros [Ht1 Hm1] [Ht2 Hm2] HA. split; [by apply Forall_app|]. intros v Hv.
  specialize (Hm1 v Hv). specialize (Hm2 v Hv). unfold any_matches in *.
  destruct mode; rewrite Exists_app, HA; tauto.
Qed.

Lemma elem_of_intersections (ls rs : list Node) n :
  (n ∈ (ls ≫= fun l => omap (fun r => intersect l r) rs)) <->
  exists l r, (l ∈ ls) /\ (r ∈ rs) /\ intersect l r = Some n.
Proof.
  rewrite list_elem_of_bind. setoid_rewrite list_elem_of_omap. split.
  - intros (l & (r & ? & ?) & ?). by exists l, r.
  - intros (l & r & ? & ? & ?). exists l. split; [by exists r|done].
Qed.

Lemma approximates_and mode ls rs t (A B C : Values) :
  approximates mode ls t B -> approximates mode rs t C -> (forall v, A v <-> B v /\ C v) ->
  approximates mode (ls ≫= fun l => omap (fun r => intersect l r) rs) t A.
Proof.
  intros [Ht1 Hm1] [Ht2 Hm2] HA. rewrite list.Forall_forall in Ht1, Ht2. split.
  - apply list.Forall_forall. intros n (l & r & Hl & Hr & E)%elem_of_intersections.
    pose proof (intersect_spec l r t (Ht1 _ Hl) (Ht2 _ Hr)) as Hi. rewrite E in Hi. by destruct Hi.
  - intros v Hv. specialize (Hm1 v Hv). specialize (Hm2 v Hv). unfold any_matches in *.
    assert (Exists (fun n => matches n v) (ls ≫= fun l => omap (fun r => intersect l r) rs) <->
      Exists (fun n => matches n v) ls /\ Exists (fun n => matches n v) rs) as Hboth.
    { rewrite !Exists_elem_of. setoid_rewrite elem_of_intersections. split.
      - intros (n & (l & r & Hl & Hr & E) & Hn).
        pose proof (intersect_spec l r t (Ht1 _ Hl) (Ht2 _ Hr)) as Hi. rewrite E in Hi.
        destruct Hi as [_ Hi]. apply Hi in Hn as [??]. split; by eexists.
      - intros [(l & Hl & Hlv) (r & Hr & Hrv)].
        pose proof (intersect_spec l r t (Ht1 _ Hl) (Ht2 _ Hr)) as Hi.
        destruct (intersect l r) as [n|] eqn:E; [|by destruct (Hi v)].
        exists n. destruct Hi as [_ Hi]. split; [by exists l, r|]. by apply Hi. }
    destruct mode; rewrite Hboth, HA; tauto.
Qed.

Lemma approximates_constructor mode c prefixes t ts As (A : Values) :
  fields t c = Some ts -> approximates_all mode prefixes ts As ->
  (forall v, A v <-> exists vs, v = mk_Value c vs /\ members As vs) ->
  approximates mode (Node_Ctor c <$> prefixes) t A.
Proof.
  intros Hf (Ht & _ & Hm) HA. split.
  - apply Forall_fmap. eapply list.Forall_impl; [exact Ht|]. intros ps Hps. apply node_ok_inv. by exists ts.
  - intros [c' vs|] Hv.
    2: { assert (~ any_matches (Node_Ctor c <$> prefixes) Value_Other) as Hno.
      { unfold any_matches. rewrite Exists_fmap, Exists_elem_of. by intros (p & _ & ?). }
      destruct mode; [by intros ?%Hno|]. rewrite HA. by intros (? & ? & _). }
    apply possible_inv in Hv as (ts' & Hf' & Hvs).
    assert (any_matches (Node_Ctor c <$> prefixes) (mk_Value c' vs) <-> c' = c /\ any_vector prefixes vs) as Hany.
    { unfold any_matches, any_vector. rewrite Exists_fmap, !Exists_elem_of. unfold compose.
      setoid_rewrite matches_Ctor. split; [intros (p & ? & -> & ?); by eauto|intros [-> (p & ? & ?)]; by eauto]. }
    destruct mode; rewrite Hany, HA.
    + intros [-> Hp]. exists vs. split; [done|]. assert (ts' = ts) as -> by congruence. by apply Hm.
    + intros (vs' & E & Hvs'). simplify_eq. split; [done|]. by apply Hm.
Qed.

(** The columns of a constructor pattern. *)
Fixpoint all_denote (ps : list CoveragePat) (ts : list Shape) (As : list Values) : Prop :=
  match ps, ts, As with
  | [], [], [] => True
  | p :: ps, t :: ts, A :: As => denotes p t A /\ all_denote ps ts As
  | _, _, _ => False
  end.

Lemma denotes_Constructor c ps t A : denotes (CoveragePat_Constructor c ps) t A <->
  exists ts As, fields t c = Some ts /\ all_denote ps ts As /\
    forall v, A v <-> exists vs, v = mk_Value c vs /\ members As vs.
Proof.
  cbn [denotes]. match goal with |- context [?all ps] => assert (forall ts As, all ps ts As <-> all_denote ps ts As) as E end.
  { clear. induction ps as [|p ps IH]; intros [|t ts] [|A As]; try done. cbn [all_denote]. by rewrite <- IH. }
  by setoid_rewrite E.
Qed.

(** A one-column matrix and a wildcard query: [run] decides whether the rows cover the type. *)
Lemma rows_typed (ns : list Node) t : Forall (fun n => node_ok n t) ns ->
  Forall (typed_row [t]) ((fun pattern => push pattern Row_None) <$> ns).
Proof. intros Hn. apply Forall_fmap. eapply list.Forall_impl; [exact Hn|]. intros n ?. by apply typed_push. Qed.

Lemma covers_rows ns v :
  covers ((fun pattern => push pattern Row_None) <$> ns) [v] <-> any_matches ns v.
Proof.
  unfold covers, any_matches. rewrite Exists_fmap. unfold compose, row_matches. simpl.
  assert (forall n, Forall2 matches [n] [v] <-> matches n v) as E.
  { intros n. rewrite Forall2_cons_iff. split; [by intros [? _]|]. intros ?. split; [done|constructor]. }
  rewrite !Exists_elem_of. by setoid_rewrite E.
Qed.

Definition normalizes (p : CoveragePat) : Prop := forall t A mode s, denotes p t A ->
  wp (normalize checker p mode) (fun ns _ => approximates mode ns t A) s.

Lemma wp_normalize_arguments mode (ps : list CoveragePat) :
  Forall normalizes ps -> forall ts As us Bs prefixes s,
  all_denote ps ts As -> approximates_all mode prefixes us Bs ->
  wp ((fix go arguments prefixes {struct arguments} : M Failure Search (list (list Node)) :=
        match arguments with
        | [] => ret prefixes
        | argument :: arguments =>
          let? alternatives := normalize checker argument mode in
          limit (usize_saturating_mul (len prefixes) (len alternatives)) ;;;
          go arguments (products prefixes alternatives)
        end) ps prefixes)
    (fun all _ => approximates_all mode all (us ++ ts) (Bs ++ As)) s.
Proof.
  induction 1 as [|p ps Hp _ IH]; intros ts As us Bs prefixes s Hd Ha.
  { destruct ts, As; try done. rewrite !app_nil_r. by apply wp_ret. }
  destruct ts as [|t ts], As as [|A As]; try done. destruct Hd as [Hd Hds].
  apply wp_bind. eapply wp_mono; [exact (Hp _ _ _ _ Hd)|]. intros ns s1 Hns. apply wp_bind, wp_limit.
  rewrite (cons_middle t us ts), (cons_middle A Bs As), !app_assoc.
  apply IH; [done|]. by apply approximates_products.
Qed.

Lemma wp_normalize p : normalizes p.
Proof.
  induction p as [|c ps IH|l r IHl IHr|l r IHl IHr|e|o IH|f i n|] using CoveragePat_nested_ind;
    intros t A mode s Hd.
  - apply wp_ret. by apply approximates_wild.
  - apply denotes_Constructor in Hd as (ts & As & Hf & Hall & HA). cbn [normalize].
    apply wp_bind. eapply wp_mono.
    { apply (wp_normalize_arguments mode ps IH ts As [] [] [[]] s Hall). apply approximates_nil. }
    intros all s1 Hap. apply wp_ret. exact (approximates_constructor mode c all t ts As A Hf Hap HA).
  - destruct Hd as (B & C & HB & HC & HA). cbn [normalize].
    apply wp_bind. eapply wp_mono; [exact (IHl _ _ _ _ HB)|]. intros ls s1 Hl.
    apply wp_bind. eapply wp_mono; [exact (IHr _ _ _ _ HC)|]. intros rs s2 Hr.
    apply wp_bind, wp_limit, wp_ret. exact (approximates_or _ _ _ _ _ _ _ Hl Hr HA).
  - destruct Hd as (B & C & HB & HC & HA). cbn [normalize].
    apply wp_bind. eapply wp_mono; [exact (IHl _ _ _ _ HB)|]. intros ls s1 Hl.
    apply wp_bind. eapply wp_mono; [exact (IHr _ _ _ _ HC)|]. intros rs s2 Hr.
    apply wp_bind, wp_limit, wp_ret. exact (approximates_and _ _ _ _ _ _ _ Hl Hr HA).
  - specialize (Hd (distinct s)). unfold wp. cbn [normalize].
    destruct (literal checker e (distinct s)) as [key n']. cbn in Hd. destruct key as [c|].
    + destruct Hd as [Hf HA]. apply (approximates_constructor mode c [[]] t [] [] A); [done|apply approximates_nil|].
      intros v. rewrite HA. split; [intros ->; exists []; split; [done|constructor]|].
      intros (vs & -> & Hvs). inversion Hvs; by subst.
    + split; [constructor|]. intros v _. destruct mode; [by intros ?%Exists_nil|by intros ?%Hd].
  - destruct o as [payload|]; [|apply wp_ret; by apply approximates_wild].
    destruct Hd as (t' & B & HB & HA). cbn [normalize].
    apply wp_bind. eapply wp_mono; [exact (IH t' B Mode_Row s HB)|]. intros rows s1 [Hn Hm].
    apply wp_bind. eapply wp_mono; [apply (wp_run t'); [by apply rows_typed|done]|].
    intros [w|] s2 (_ & _ & Hr); apply wp_ret; [apply approximates_opaque|].
    apply approximates_wild. apply HA. intros u Hu%value_ok_possible. apply Hm; [done|]. apply covers_rows. by apply Hr.
  - apply wp_ret. apply approximates_opaque.
  - apply wp_ret. apply approximates_opaque.
Qed.
(** ** The constructors that a pattern writes *)

Fixpoint writes (p : CoveragePat) (c : Constructor) : Prop :=
  match p with
  | CoveragePat_Constructor c' ps =>
    c' = c \/ (fix any ps := match ps with [] => False | p :: ps => writes p c \/ any ps end) ps
  | CoveragePat_Or left_ right_ | CoveragePat_And left_ right_ => writes left_ c \/ writes right_ c
  | CoveragePat_Literal e => exists n, fst (literal checker e n) = Literal_Constructor c
  | CoveragePat_Wildcard | CoveragePat_Total _ | CoveragePat_ActiveCase _ _ _ | CoveragePat_Opaque => False
  end.

(** Whatever a computation gives satisfies [Q]. *)
Definition gives {A} (m : M Failure Search A) (Q : A -> Prop) : Prop :=
  forall s, match m s with (Ok a, _) => Q a | (Err _, _) => True end.

Lemma gives_value {A} (a : A) (Q : A -> Prop) : Q a -> gives (ret a) Q.
Proof. by intros Ha s. Qed.

Lemma gives_then {A B} (m : M Failure Search A) (k : A -> M Failure Search B) P Q :
  gives m P -> (forall a, P a -> gives (k a) Q) -> gives (bind m k) Q.
Proof.
  intros Hm Hk s. unfold bind. specialize (Hm s). destruct (m s) as [[a|e] s']; [|done]. by apply Hk.
Qed.

Lemma gives_any {A} (m : M Failure Search A) : gives m (fun _ => True).
Proof. intros s. by destruct (m s) as [[a|e] s']. Qed.

Lemma intersect_in P l r n : node_in P l -> node_in P r -> intersect l r = Some n -> node_in P n.
Proof.
  revert r n. induction l as [|a ls IH] using Node_nested_ind; intros r n Hl Hr; [by intros [= <-]|].
  destruct r as [|b rs]; [by intros [= <-]|]. apply node_in_Ctor in Hl as [Ha Hls]. apply node_in_Ctor in Hr as [_ Hrs].
  cbn [intersect]. case_decide; [|done]. intros (ns & Hz & ->)%fmap_Some. apply node_in_Ctor. split; [done|].
  revert rs ns Hrs Hz. induction IH as [|l ls Hl _ IHls]; intros rs ns Hrs Hz; [by injection Hz as <-|].
  apply Forall_cons_iff in Hls as [Hl0 Hls]. destruct rs as [|r rs]; [by injection Hz as <-|].
  apply Forall_cons_iff in Hrs as [Hr0 Hrs]. destruct (intersect l r) as [x|] eqn:Ex; [|done].
  apply fmap_Some in Hz as (xs & Hz & ->). constructor; [by eapply Hl|by eapply IHls].
Qed.

(** A normal form has only constructors that the pattern writes. *)
Lemma normalize_writes p mode (P : Constructor -> Prop) : (forall c, writes p c -> P c) ->
  gives (normalize checker p mode) (Forall (node_in P)).
Proof.
  revert mode. induction p as [|c ps IH|l r IHl IHr|l r IHl IHr|e|o _|f i n|] using CoveragePat_nested_ind; intros mode HP; cbn [normalize].
  - apply gives_value. by repeat constructor.
  - apply (gives_then _ _ (Forall (Forall (node_in P)))).
    + assert (forall q c, q ∈ ps -> writes q c -> P c) as Hps.
      { intros q c' Hq Hc. apply HP. right. induction ps as [|q' ps IHps]; [by apply elem_of_nil in Hq|].
        apply elem_of_cons in Hq as [->|Hq]; [by left|right]. apply Forall_cons_iff in IH as [_ IH]. apply IHps; [done| |done].
        intros c2 [->|Hany]; [apply HP; by left|apply HP; by right; right]. }
      assert (Forall (Forall (node_in P)) [[]]) as Hnil by by repeat constructor. revert Hnil.
      generalize ([[]] : list (list Node)) as prefixes. clear HP.
      induction IH as [|q ps Hq _ IHps]; intros prefixes Hprefixes; [by apply gives_value|].
      apply (gives_then _ _ (Forall (node_in P))); [apply Hq; intros c'; apply Hps, list_elem_of_here|]. intros alternatives Halt.
      eapply gives_then; [apply gives_any|]. intros _ _. apply IHps; [intros q' c' Hq'; apply Hps; by apply list_elem_of_further|].
      apply list.Forall_forall. intros prefix (p & n & -> & Hp & Hn)%elem_of_products. rewrite list.Forall_forall in Hprefixes. rewrite list.Forall_forall in Halt.
      apply Forall_app. split; [by apply Hprefixes|]. constructor; [by apply Halt|constructor].
    + intros all Hall. apply gives_value. apply Forall_fmap. eapply list.Forall_impl; [exact Hall|]. intros ns Hns.
      apply node_in_Ctor. split; [apply HP; by left|done].
  - apply (gives_then _ _ (Forall (node_in P))); [apply IHl; intros c Hc; apply HP; by left|]. intros ls Hls.
    apply (gives_then _ _ (Forall (node_in P))); [apply IHr; intros c Hc; apply HP; by right|]. intros rs Hrs.
    eapply gives_then; [apply gives_any|]. intros _ _. apply gives_value, Forall_app. by split.
  - apply (gives_then _ _ (Forall (node_in P))); [apply IHl; intros c Hc; apply HP; by left|]. intros ls Hls.
    apply (gives_then _ _ (Forall (node_in P))); [apply IHr; intros c Hc; apply HP; by right|]. intros rs Hrs.
    eapply gives_then; [apply gives_any|]. intros _ _. apply gives_value, list.Forall_forall.
    rewrite list.Forall_forall in Hls, Hrs. intros n (l' & r' & ? & ? & E)%elem_of_intersections.
    apply (intersect_in P l' r'); auto.
  - intros s. destruct (literal checker e (distinct s)) as [key n'] eqn:E. destruct key as [c|]; [|constructor].
    constructor; [|constructor]. apply node_in_Ctor. split; [|constructor]. apply HP. exists (distinct s). by rewrite E.
  - destruct o as [payload|]; [|apply gives_value; by repeat constructor].
    eapply gives_then; [apply gives_any|]. intros rows _. eapply gives_then; [apply gives_any|]. intros [w|] _; apply gives_value;
      [|by repeat constructor]. destruct mode; by repeat constructor.
  - apply gives_value. destruct mode; by repeat constructor.
  - apply gives_value. destruct mode; by repeat constructor.
Qed.
End denotes.

#[global] Arguments writes {_} checker p c : assert.
#[global] Arguments denotes {_ _} checker p t A : assert.
