(* ===== verification/Coverage.v ===== *)
(** * What the check of a match promises

    The theorems about [check_match] and [check_coverage]: a match without an error is exhaustive, an
    arm reported as unreachable is one, a witness is a missing value, the added arms close the match,
    and the only failures are the two limits. *)
From S2P Require Import Prelude Wire Syntax Exhaustiveness Matching SearchLaws.
From S2P Require Import NormalForms.
Local Open Scope nat_scope.
Local Open Scope monad_scope.
Set Warnings "-register-all".

(** ** Patterns whose normal form is exact *)

Section exact.
Context `{CheckerTypes}.

(** No active recognizer and no opaque part. *)
Fixpoint exact (p : CoveragePat) : bool :=
  match p with
  | CoveragePat_Wildcard | CoveragePat_Literal _ | CoveragePat_Total None => true
  | CoveragePat_Constructor _ ps => forallb exact ps
  | CoveragePat_Or l r | CoveragePat_And l r => exact l && exact r
  | CoveragePat_Total (Some _) | CoveragePat_ActiveCase _ _ _ | CoveragePat_Opaque => false
  end.

Context (checker : Checker).

Lemma bind_ext {A B} (m m' : M Failure Search A) (k k' : A -> M Failure Search B) :
  (forall s, m s = m' s) -> (forall a s, k a s = k' a s) -> forall s, bind m k s = bind m' k' s.
Proof. intros Hm Hk s. unfold bind. rewrite Hm. destruct (m' s) as [[a|e] s']; auto. Qed.

(** The modes differ only in opaque parts. *)
Lemma normalize_mode p : exact p = true ->
  forall mode mode' s, normalize checker p mode s = normalize checker p mode' s.
Proof.
  induction p as [|c ps IH|l r IHl IHr|l r IHl IHr|e|[o|] IH|f i n|] using CoveragePat_nested_ind;
    intros He mode mode' s; try done; cbn [normalize].
  - apply bind_ext; [|done]. clear s. intros s. cbn [exact] in He. generalize ([[]] : list (list Node)) as prefixes.
    revert s. induction IH as [|p ps Hp _ IHps]; intros s prefixes; [done|].
    apply andb_prop in He as [He Hes].
    apply bind_ext; [by apply Hp|]. intros alternatives s1.
    apply bind_ext; [done|]. intros _ s2. by apply IHps.
  - apply andb_prop in He as [Hl Hr].
    apply bind_ext; [by apply IHl|]. intros ls s1. apply bind_ext; [by apply IHr|done].
  - apply andb_prop in He as [Hl Hr].
    apply bind_ext; [by apply IHl|]. intros ls s1. apply bind_ext; [by apply IHr|done].
Qed.

Lemma wp_elim {A} (m : M Failure Search A) (Q : A -> Search -> Prop) s :
  wp m Q s -> match m s with (Ok a, s') => Q a s' | (Err e, _) => is_limit e end.
Proof. done. Qed.

Lemma wp_assoc {A B C} (m : M Failure Search A) (k : A -> M Failure Search B) (l : B -> M Failure Search C) Q s :
  wp (bind (bind m k) l) Q s -> wp (bind m (fun a => bind (k a) l)) Q s.
Proof. unfold wp, bind. by destruct (m s) as [[a|e] s']. Qed.

Lemma wp_both {A} (m : M Failure Search A) (P Q : A -> Search -> Prop) s :
  wp m P s -> wp m Q s -> wp m (fun a s' => P a s' /\ Q a s') s.
Proof. unfold wp. by destruct (m s) as [[a|e] s']. Qed.
End exact.

Section arms.
Context `{ShapesLaws}.

(** ** The sets that the arms stand for *)

Definition arms_denote (arms : list CoverageArm) (t : Shape) (As : list Values) : Prop :=
  Forall2 (fun arm A => denotes checker (arm_pattern arm) t A) arms As.

(** An unguarded arm takes the value. *)
Definition matched (arms : list CoverageArm) (As : list Values) (v : Value) : Prop :=
  Exists (fun p : CoverageArm * Values => arm_guarded p.1 = false /\ p.2 v) (zip arms As).

Lemma matched_nil As v : ~ matched [] As v.
Proof. unfold matched. simpl. by intros ?%Exists_nil. Qed.

Lemma matched_cons arm arms A As v :
  matched (arm :: arms) (A :: As) v <-> (arm_guarded arm = false /\ A v) \/ matched arms As v.
Proof. unfold matched. simpl. by rewrite Exists_cons. Qed.

(** The normal form of a pattern in both modes, when [ex] promises an exact pattern. *)
Lemma wp_normalize_arm (ex : bool) p t A mode s :
  (ex = true -> exact p = true) -> denotes checker p t A ->
  wp (normalize checker p mode) (fun ns _ =>
    approximates mode ns t A /\ (ex = true -> forall mode', approximates mode' ns t A)) s.
Proof.
  intros He Hd. apply wp_both; [exact (wp_normalize p t A mode s Hd)|]. destruct ex.
  2: { eapply wp_mono; [exact (wp_normalize p t A mode s Hd)|]. done. }
  specialize (He eq_refl).
  assert (forall mode', wp (normalize checker p mode) (fun ns _ => approximates mode' ns t A) s) as Hm.
  { intros mode'. pose proof (wp_normalize p t A mode' s Hd) as Hw. unfold wp in *.
    by rewrite (normalize_mode checker p He mode mode'). }
  eapply wp_mono; [exact (wp_both _ _ _ _ (Hm Mode_Row) (Hm Mode_Query))|].
  intros ns _ [Hrow Hquery] _ []; done.
Qed.

Definition to_rows (ns : list Node) : list Row := (fun pattern => push pattern Row_None) <$> ns.

(** The rows of the arms seen so far cover values of [D] only, and all of them when [ex]. *)
Record tracks (ex : bool) (t : Shape) (rows : list Row) (D : Values) : Prop := {
  tracks_typed : Forall (typed_row [t]) rows;
  tracks_sound v : possible v t -> covers rows [v] -> D v;
  tracks_complete v : ex = true -> possible v t -> D v -> covers rows [v] }.

Lemma tracks_app ex t rows ns (D A : Values) :
  tracks ex t rows D -> approximates Mode_Row ns t A ->
  (ex = true -> forall mode', approximates mode' ns t A) ->
  tracks ex t (rows ++ to_rows ns) (fun v => D v \/ A v).
Proof.
  intros [Ht Hs Hc] [Hn Hm] He. split.
  - apply Forall_app. split; [done|]. by apply rows_typed.
  - intros v Hv. unfold covers. rewrite Exists_app. intros [Hr|Hr]; [left; by apply Hs|right].
    apply Hm; [done|]. by apply covers_rows.
  - intros v Hex Hv. unfold covers. rewrite Exists_app. intros [Hd|Ha]; [left; by apply Hc|right].
    apply covers_rows. destruct (He Hex Mode_Query) as [_ Hq]. by apply Hq.
Qed.

Lemma wp_any_useful t rows queries s :
  Forall (typed_row [t]) rows -> Forall (fun n => node_ok n t) queries ->
  wp (any_useful checker rows queries) (fun useful _ =>
    if useful : bool then exists v, possible v t /\ any_matches queries v /\ ~ covers rows [v]
    else forall v, possible v t -> any_matches queries v -> covers rows [v]) s.
Proof.
  intros Hr Hq. revert s. induction Hq as [|query queries Hquery _ IH]; intros s; cbn [any_useful].
  { apply wp_ret. by intros v _ ?%Exists_nil. }
  apply wp_bind. eapply wp_mono; [by apply (wp_run t)|]. intros [w|] s1 (_ & _ & Ha).
  - apply wp_ret. destruct Ha as (v & (Hv & Hm & Hn) & _). exists v. split_and!; [done| |done].
    by apply List.Exists_cons_hd.
  - eapply wp_mono; [apply IH|]. intros [] s2.
    + intros (v & Hv & Hm & Hn). exists v. split_and!; [done| |done]. by apply List.Exists_cons_tl.
    + intros Hall v Hv Hm. apply Exists_cons in Hm as [Hm|Hm]; [by apply Ha|by apply Hall].
Qed.

(** The values of the [i]-th arm are taken by [D] or by an unguarded arm before it. *)
Definition shadowed (t : Shape) (arms : list CoverageArm) (As : list Values) (D : Values) (i : nat) (A : Values) : Prop :=
  forall v, possible v t -> A v -> D v \/ matched (take i arms) (take i As) v.

(** What the loop over the arms leaves: [D'] is what it has matched. *)
Record arms_checked (ex : bool) (t : Shape) (arms : list CoverageArm) (As : list Values) (D : Values)
    (warnings : list Span) (rows : list Row) (warnings' : list Span) : Prop := {
  checked_tracks : tracks ex t rows (fun v => D v \/ matched arms As v);
  checked_kept span : (span ∈ warnings) -> (span ∈ warnings');
  checked_sound span : (span ∈ warnings') -> (span ∈ warnings) \/
    exists i arm A, arms !! i = Some arm /\ As !! i = Some A /\ arm_span arm = span /\ shadowed t arms As D i A;
  checked_complete i arm A : ex = true -> arms !! i = Some arm -> As !! i = Some A ->
    (exists v, possible v t /\ A v) -> shadowed t arms As D i A -> (arm_span arm ∈ warnings') }.

Lemma shadowed_cons t arm arms A0 As D i A :
  shadowed t (arm :: arms) (A0 :: As) D (S i) A <->
  shadowed t arms As (fun v => D v \/ (arm_guarded arm = false /\ A0 v)) i A.
Proof.
  unfold shadowed. simpl. setoid_rewrite matched_cons.
  split; intros Hs v Hv Ha; specialize (Hs v Hv Ha); tauto.
Qed.

(** Whether an arm is useful: it has a value that nothing before it takes. *)
Definition decides (ex : bool) (t : Shape) (D A : Values) (useful : bool) : Prop :=
  (useful = false -> forall v, possible v t -> A v -> D v) /\
  (useful = true -> ex = true -> (exists v, possible v t /\ A v) -> exists v, possible v t /\ A v /\ ~ D v).

Lemma tracks_proper ex t rows (D D' : Values) :
  (forall v, D v <-> D' v) -> tracks ex t rows D -> tracks ex t rows D'.
Proof.
  intros HD [Ht Hs Hc]. split; [done| |].
  - intros v Hv Hr. apply HD. by apply Hs.
  - intros v Hex Hv Hd. apply Hc; [done|done|]. by apply HD.
Qed.

Lemma arms_checked_nil ex t As D warnings rows :
  tracks ex t rows D -> arms_checked ex t [] As D warnings rows warnings.
Proof.
  intros Ht. split; [|done|by left|done]. eapply tracks_proper; [|exact Ht].
  intros v. pose proof (matched_nil As v). tauto.
Qed.

Lemma arms_checked_cons ex t arm arms A As (D : Values) useful warnings rows warnings' :
  decides ex t D A useful ->
  arms_checked ex t arms As (fun v => D v \/ (arm_guarded arm = false /\ A v))
    (if useful : bool then warnings else warnings ++ [arm_span arm]) rows warnings' ->
  arms_checked ex t (arm :: arms) (A :: As) D warnings rows warnings'.
Proof.
  intros [Hno Hyes] [Ht Hk Hs Hc]. split.
  - eapply tracks_proper; [|exact Ht]. intros v. rewrite matched_cons. tauto.
  - intros span Hin. apply Hk. destruct useful; [done|]. apply elem_of_app. by left.
  - intros span Hin. destruct (Hs span Hin) as [Hold|(i & arm' & A' & E1 & E2 & E3 & Hsh)].
    + destruct useful; [by left|]. apply elem_of_app in Hold as [Hold|Hold]; [by left|].
      apply list_elem_of_singleton in Hold as ->. right. exists 0, arm, A. split_and!; [done..|].
      intros v Hv Ha. left. by apply Hno.
    + right. exists (S i), arm', A'. split_and!; [done..|]. by apply shadowed_cons.
  - intros [|i] arm' A' Hex E1 E2 Hv Hsh; simpl in E1, E2.
    + injection E1 as <-. injection E2 as <-. destruct useful; [|apply Hk, elem_of_app; right; by apply list_elem_of_singleton].
      destruct (Hyes eq_refl Hex Hv) as (v & Hv' & Ha & Hn). exfalso.
      destruct (Hsh v Hv' Ha) as [|Hm]; [done|]. by apply matched_nil in Hm.
    + apply shadowed_cons in Hsh. by eapply Hc.
Qed.

Lemma wp_useful ex t rows D A p s : tracks ex t rows D -> (ex = true -> exact p = true) ->
  denotes checker p t A ->
  wp (let? queries := normalize checker p Mode_Query in
      if bool_decide (queries = []) then ret true else any_useful checker rows queries)
    (fun useful _ => decides ex t D A useful) s.
Proof.
  intros Ht He Hd. apply wp_bind.
  eapply wp_mono; [exact (wp_normalize_arm ex p t A Mode_Query s He Hd)|].
  intros queries s1 [[Hn Hq] Hboth]. case_bool_decide as Hnil.
  { apply wp_ret. split; [done|]. intros _ _ (v & Hv & Ha). subst queries.
    specialize (Hq v Hv Ha). by apply Exists_nil in Hq. }
  eapply wp_mono; [apply (wp_any_useful t); [apply Ht|done]|]. intros [] s2 Ha; split; try done.
  - intros _ Hex _. destruct Ha as (v & Hv & Hm & Hc). exists v. destruct (Hboth Hex Mode_Row) as [_ Hr].
    split_and!; [done|by apply Hr|]. intros Hdv. apply Hc. by apply Ht.
  - intros _ v Hv HA. apply Ht; [done|]. apply Ha; [done|]. by apply Hq.
Qed.

Lemma wp_check_arms (ex : bool) t arms As rows (D : Values) warnings s :
  arms_denote arms t As -> (ex = true -> Forall (fun arm => exact (arm_pattern arm) = true) arms) ->
  tracks ex t rows D ->
  wp (check_arms checker arms rows warnings)
    (fun result _ => arms_checked ex t arms As D warnings result.1 result.2) s.
Proof.
  intros Hd. revert rows D warnings s. induction Hd as [|arm A arms As Hd _ IH]; intros rows D warnings s He Ht.
  { apply wp_ret. by apply arms_checked_nil. }
  assert (ex = true -> exact (arm_pattern arm) = true) as He1.
  { intros Hex. specialize (He Hex). by apply Forall_cons_iff in He as [? _]. }
  assert (ex = true -> Forall (fun arm => exact (arm_pattern arm) = true) arms) as He2.
  { intros Hex. specialize (He Hex). by apply Forall_cons_iff in He as [_ ?]. }
  pose proof (wp_useful ex t rows D A (arm_pattern arm) s Ht He1 Hd) as Hu.
  pose proof (fun useful => arms_checked_cons ex t arm arms A As D useful warnings) as Hcons.
  clear He. destruct arm as [p guarded span]. cbn [check_arms arm_pattern arm_guarded arm_span] in *.
  apply (wp_assoc (normalize checker p Mode_Query)
    (fun queries => if bool_decide (queries = []) then ret true else any_useful checker rows queries)).
  apply wp_bind. eapply wp_mono; [exact Hu|]. intros useful s1 Huse. specialize (Hcons useful). destruct guarded.
  - eapply wp_mono; [apply (IH _ (fun v => D v \/ (true = false /\ A v))); [done|]|].
    + eapply tracks_proper; [|exact Ht]. intros v. split; [by left|by intros [?|[? _]]].
    + intros [rows' warnings'] s2 Hr. by apply Hcons.
  - apply wp_bind. eapply wp_mono; [exact (wp_normalize_arm ex p t A Mode_Row s1 He1 Hd)|].
    intros ns s2 [Hn Hboth].
    eapply wp_mono; [apply (IH _ (fun v => D v \/ (false = false /\ A v))); [done|]|].
    + eapply tracks_proper; [|exact (tracks_app ex t rows ns D A Ht Hn Hboth)]. intros v. tauto.
    + intros [rows' warnings'] s3 Hr. by apply Hcons.
Qed.

(** ** The added arms *)

Record closes (t : Shape) (rows : list Row) (count : nat) (witness : Witness) (added : list Witness) : Prop := {
  closes_head : exists rest, added = witness :: rest;
  closes_count : length added <= count;
  closes_writable : Forall (fun w => writable w = true) added;
  closes_covers v : possible v t ->
    covers rows [v] \/ Exists (fun w => matches (witness_pattern w) v) added }.

Lemma missing_arms_S count rows witness s : missing_arms checker (S count) rows witness s =
  if writable witness then
    match run checker (rows ++ to_rows [witness_pattern witness]) (push Node_Wild Row_None) true s with
    | (Ok None, _) => Some [witness]
    | (Ok (Some next), s) =>
      cons witness <$> missing_arms checker count (rows ++ to_rows [witness_pattern witness]) next s
    | (Err _, _) => None
    end
  else None.
Proof. done. Qed.

Lemma rows_add t rows witness : Forall (typed_row [t]) rows -> node_ok (witness_pattern witness) t ->
  Forall (typed_row [t]) (rows ++ to_rows [witness_pattern witness]) /\
  forall v, covers (rows ++ to_rows [witness_pattern witness]) [v] ->
    covers rows [v] \/ matches (witness_pattern witness) v.
Proof.
  intros Hr Hw. split.
  - apply Forall_app. split; [done|]. apply rows_typed. by repeat constructor.
  - intros v. unfold covers. rewrite Exists_app. intros [?|Hm]; [by left|right].
    apply covers_rows, Exists_cons in Hm as [?|Hm]; [done|by apply Exists_nil in Hm].
Qed.

Lemma missing_arms_closes t count rows witness s added :
  Forall (typed_row [t]) rows -> node_ok (witness_pattern witness) t ->
  missing_arms checker count rows witness s = Some added -> closes t rows count witness added.
Proof.
  revert rows witness s added. induction count as [|count IH]; intros rows witness s added Hr Hw; [done|].
  rewrite missing_arms_S. destruct (writable witness) eqn:Ew; [|done].
  pose proof (rows_add t rows witness Hr Hw) as [Hr' Hc].
  pose proof (wp_elim _ _ _ (wp_run t _ Node_Wild true s Hr' I)) as Hrun.
  revert Hrun. generalize (run checker (rows ++ to_rows [witness_pattern witness]) (push Node_Wild Row_None) true s).
  intros [[[next|]|e] s'] Hrun; [| |done].
  - destruct Hrun as (_ & _ & v0 & _ & Hnext). destruct (Hnext eq_refl) as [_ Hok].
    intros Eadd. apply fmap_Some in Eadd as (rest & Erest & Eadd). subst added.
    destruct (IH _ _ _ _ Hr' Hok Erest) as [_ Hcount Hwrite Hcov].
    split; [by eexists|simpl; lia|by constructor|]. intros v Hv. rewrite Exists_cons.
    destruct (Hcov v Hv) as [Hv'|?]; [|by right; right]. destruct (Hc v Hv'); [by left|by right; left].
  - destruct Hrun as (_ & _ & Hall). intros [= <-]. split; [by eexists|simpl; lia|by repeat constructor|].
    intros v Hv. rewrite Exists_cons. destruct (Hc v (Hall v Hv I)); [by left|by right; left].
Qed.

(** ** The result of one match *)

(** The constructors that the unguarded arms write. *)
Definition written (arms : list CoverageArm) (c : Constructor) : Prop :=
  Exists (fun arm => arm_guarded arm = false /\ writes checker (arm_pattern arm) c) arms.

Lemma check_arms_written (P : Constructor -> Prop) arms rows warnings : (forall c, written arms c -> P c) -> Forall (row_in P) rows ->
  gives (check_arms checker arms rows warnings) (fun result => Forall (row_in P) result.1).
Proof.
  revert rows warnings. induction arms as [|[p guarded span] arms IH]; intros rows warnings HP Hrows; [by apply gives_value|].
  cbn [check_arms]. eapply gives_then; [apply gives_any|]. intros queries _. eapply gives_then; [apply gives_any|]. intros useful _.
  assert (forall c, written arms c -> P c) as HP' by (intros c Hc; apply HP; by apply Exists_cons; right).
  destruct guarded; [by apply IH|]. apply (gives_then _ _ (Forall (node_in P))).
  { apply normalize_writes. intros c Hc. apply HP, Exists_cons. by left. }
  intros ns Hns. apply IH; [done|]. apply Forall_app. split; [done|]. apply Forall_fmap. eapply list.Forall_impl; [exact Hns|].
  intros n Hn. by repeat constructor.
Qed.

Definition match_result (ex : bool) (t : Shape) (arms : list CoverageArm) (As : list Values) (result : Coverage) : Prop :=
  match result with
  | Coverage_Warnings unreachable =>
    (forall v, possible v t -> matched arms As v) /\
    exists rows, arms_checked ex t arms As (fun _ => False) [] rows unreachable
  | Coverage_NonExhaustive witness fix_ =>
    (ex = true -> exists v, possible v t /\ matches (witness_pattern witness) v /\ ~ matched arms As v) /\
    (ex = true -> roomy (written arms) t -> exists v, value_ok v t /\ matches (witness_pattern witness) v /\ ~ matched arms As v) /\
    forall added, fix_ = Some added -> exists rows, closes t rows MAX_ADDED_ARMS witness added /\
      forall v, possible v t -> covers rows [v] -> matched arms As v
  | Coverage_Failure failure => is_limit failure
  end.

Lemma tracks_nil ex t : tracks ex t [] (fun _ => False).
Proof. split; [constructor| |done]. intros v _ Hc. by apply Exists_nil in Hc. Qed.

Lemma check_match_result (ex : bool) t coverage As :
  arms_denote (coverage_arms coverage) t As ->
  (ex = true -> Forall (fun arm => exact (arm_pattern arm) = true) (coverage_arms coverage)) ->
  match_result ex t (coverage_arms coverage) As (check_match checker coverage).
Proof.
  intros Hd He. unfold check_match.
  pose proof (wp_check_arms ex t _ As [] (fun _ => False) [] (mk_Search 0 [] 0) Hd He (tracks_nil ex t)) as Hw.
  pose proof (check_arms_written (written (coverage_arms coverage)) _ [] [] (fun _ Hc => Hc) (List.Forall_nil _) (mk_Search 0 [] 0)) as Hin.
  unfold wp in Hw. destruct (check_arms _ _ _ _ _) as [[[rows warnings]|e] s]; [|done]. cbn [fst snd] in Hw, Hin.
  pose proof Hw as [[Ht Hs Hc] _ _ _].
  assert (forall v, possible v t -> covers rows [v] -> matched (coverage_arms coverage) As v) as Hs'.
  { intros v Hv Hcov. by destruct (Hs v Hv Hcov). }
  pose proof (wp_elim _ _ _ (wp_run t rows Node_Wild true s Ht I)) as Hr.
  destruct (run checker rows _ true s) as [[[w|]|e] s']; [| |done].
  - destruct Hr as (_ & _ & v & (Hv & _ & Hn) & Hm). destruct (Hm eq_refl) as [Hmv Hok]. split_and!.
    + intros Hex. exists v. split_and!; [done|done|]. intros Hmat. apply Hn, Hc; [done|done|by right].
    + intros Hex Hroom. destruct (realize _ v t Hv Hroom) as (v' & Hv' & Hto & Hof). exists v'. split_and!; [done|by apply Hto|].
      intros Hmat. apply Hn, (realize_covers _ rows v v' Hin Hof), Hc; [done|by apply value_ok_possible|by right].
    + destruct (coverage_append_at coverage); [|done]. intros added Hadd. exists rows.
      split; [|done]. by eapply missing_arms_closes.
  - destruct Hr as (_ & _ & Hall). split; [|by exists rows]. intros v Hv. apply Hs'; [done|]. by apply Hall.
Qed.
End arms.

#[global] Arguments written {_} checker arms c : assert.
#[global] Arguments arms_denote {_ _} checker arms t As : assert.
