(* ===== verification/CoverageTheorems.v ===== *)
(** * Theorems on the check of a match

    The claims about [src/src/exhaustiveness.rs]: the search decides coverage within its budget; a match without an
    error is exhaustive; the warnings, the witness and the added arms mean what the messages say. The examples are on a
    small checker: one union with a case without payload and a case with one, pairs, lists, booleans, numbers, and
    a type of two numbers only; a literal is keyed by its own number. *)
From S2P Require Import Prelude Wire Syntax Exhaustiveness Matching SearchLaws.
From S2P Require Import NormalForms.
From S2P Require Import Coverage.
Local Open Scope nat_scope.
Local Open Scope monad_scope.

Set Warnings "-register-all".

#[export] Instance sample_types : CheckerTypes := {| Ty := nat; TypedExpr := nat |}.

Definition sample_text : RString := mk_RString [] eq_refl.

(** The key of the number [n]. *)
Definition sample_key (n : nat) : Constructor := Constructor_Literal (LiteralKey_Number n sample_text).

Definition sample_checker : Checker := mk_Checker
  [[(sample_text, None); (sample_text, Some 0)]]
  (fun e count => (Literal_Constructor (sample_key e), count)).

Inductive SampleShape :=
| SampleBool
| SampleOption (payload : SampleShape)
| SamplePair (first second : SampleShape)
| SampleList (element : SampleShape)
| SampleNumber
| SampleDigit.

(** The type [SampleDigit] has the values 0 and 1 only, as [i8] has 256. *)
Definition is_digit (c : Constructor) : bool := bool_decide (c = sample_key 0 \/ c = sample_key 1).

Definition none_ : Constructor := Constructor_Union 0 0.
Definition some_ : Constructor := Constructor_Union 0 1.

Definition sample_fields (t : SampleShape) (c : Constructor) : option (list SampleShape) :=
  match t, c with
  | SampleBool, Constructor_Bool _ => Some []
  | SampleOption _, Constructor_Union 0 0 => Some []
  | SampleOption t, Constructor_Union 0 1 => Some [t]
  | SamplePair a b, Constructor_Tuple 2 => Some [a; b]
  | SampleList _, Constructor_ListNil => Some []
  | SampleList t, Constructor_ListCons => Some [t; SampleList t]
  | SampleNumber, Constructor_Literal _ => Some []
  | SampleDigit, Constructor_Literal _ => if is_digit c then Some [] else None
  | _, _ => None
  end.

#[export] Instance sample_shapes : Shapes := {|
  Shape := SampleShape;
  family t := match t with
    | SampleBool => Family_Bool
    | SampleOption _ => Family_Union 0
    | SamplePair _ _ => Family_Tuple 2
    | SampleList _ => Family_List
    | SampleNumber | SampleDigit => Family_Open
    end;
  fields := sample_fields |}.

Fixpoint sample_value (t : SampleShape) : Value :=
  match t with
  | SampleBool => mk_Value (Constructor_Bool true) []
  | SampleOption _ => mk_Value none_ []
  | SamplePair a b => mk_Value (Constructor_Tuple 2) [sample_value a; sample_value b]
  | SampleList _ => mk_Value Constructor_ListNil []
  | SampleNumber | SampleDigit => mk_Value (sample_key 0) []
  end.

Lemma sample_value_ok t : value_ok (sample_value t) t.
Proof. unfold value_ok. induction t; simpl; by auto. Qed.

#[export] Instance sample_laws : ShapesLaws sample_checker.
Proof.
  split.
  - intros t c [ts E]. destruct t, c; simpl in E |- *; repeat case_match; simplify_eq;
      try done; (split; [done|eexists; split; [done|simpl; lia]]).
  - intros t c Hopen Hin. destruct t, c; simpl in Hin, Hopen |- *; try done.
    + destruct Hin as (-> & cases & E & Hk). injection E as <-. simpl in Hk.
      destruct case_id as [|[|k]]; [by eexists..|lia].
    + subst count. by eexists.
  - intros t c ts E. destruct t, c; simpl in E |- *; repeat case_match; by simplify_eq.
  - intros t. exists (sample_value t). apply sample_value_ok.
Defined.

Set Warnings "-register-all".

(** ** The sets of patterns without payload or with one *)

Section denote_lemmas.
Context `{Shapes} (checker : Checker).

Lemma denotes_wild t : denotes checker CoveragePat_Wildcard t (fun _ => True).
Proof. done. Qed.

Lemma denotes_ctor0 c t : fields t c = Some [] ->
  denotes checker (CoveragePat_Constructor c []) t (fun v => v = mk_Value c []).
Proof.
  intros Hf. exists [], []. split_and!; [done|done|]. intros v. split.
  - intros ->. exists []. by split; [|constructor].
  - intros (vs & -> & Hvs). by inversion Hvs.
Qed.

Lemma denotes_ctor1 c t u p A : fields t c = Some [u] -> denotes checker p u A ->
  denotes checker (CoveragePat_Constructor c [p]) t (fun v => exists x, v = mk_Value c [x] /\ A x).
Proof.
  intros Hf Hp. exists [u], [A]. split_and!; [done..|]. intros v. split.
  - intros (x & -> & Ha). exists [x]. split; [done|]. by repeat constructor.
  - intros (vs & -> & Hvs). inversion Hvs as [|? x ? vs' Hx Hnil]; subst. inversion Hnil; subst. by exists x.
Qed.

Lemma denotes_or l r t A B : denotes checker l t A -> denotes checker r t B ->
  denotes checker (CoveragePat_Or l r) t (fun v => A v \/ B v).
Proof. intros Hl Hr. by exists A, B. Qed.

(** The value of a list. *)
Definition list_value (vs : list Value) : Value :=
  foldr (fun v tail => mk_Value Constructor_ListCons [v; tail]) (mk_Value Constructor_ListNil []) vs.

Lemma list_pattern_cells ps : length ps <= Wire.MAX_NESTING -> list_pattern ps =
  foldr (fun p tail => CoveragePat_Constructor Constructor_ListCons [p; tail])
    (CoveragePat_Constructor Constructor_ListNil []) ps.
Proof.
  intros Hl. unfold list_pattern. destruct (Nat.ltb_spec Wire.MAX_NESTING (length ps)); [lia|]. clear.
  induction ps as [|p ps IH]; [done|]. simpl. by rewrite foldl_app, IH.
Qed.
End denote_lemmas.

Section theorems.
Context `{ShapesLaws}.

(** C13: [run] decides coverage of the values that it knows of: those of the type and, in each open type (numbers, strings,
    array lengths), one more that no pattern names ([Value_Other]). With no result all of them that the query pattern matches
    are covered by the rows, so all real values are; a result means that one is matched and not covered, and the witness
    describes it. That one may be taken as a real value when, inside the type, each open type has a value that the rows do
    not name; it need not exist when they name every value of a finite open type, as all 256 literals of [i8]. The only
    other end is the limit of the work: no panic and no endless loop. *)
Theorem run_decides t rows pattern describe s :
  Forall (typed_row [t]) rows -> node_ok pattern t ->
  match run checker rows (push pattern Row_None) describe s with
  | (Ok None, _) => forall v, possible v t -> matches pattern v -> covers rows [v]
  | (Ok (Some witness), _) =>
      let missing v := matches pattern v /\ ~ covers rows [v] /\ (describe = true -> matches (witness_pattern witness) v) in
      (exists v, possible v t /\ missing v) /\
      forall named, Forall (row_in named) rows -> roomy named t -> exists v, value_ok v t /\ missing v
  | (Err e, _) => is_limit e
  end.
Proof.
  intros Hr Hp. pose proof (wp_elim _ _ _ (wp_run t rows pattern describe s Hr Hp)) as Hw. revert Hw.
  generalize (run checker rows (push pattern Row_None) describe s). intros [[[w|]|e] s'] Hw; [| |done].
  - destruct Hw as (_ & _ & v & (Hv & Hm & Hn) & Hd). split.
    + exists v. split_and!; [done..|]. intros E. by apply Hd.
    + intros named Hin Hroom. destruct (realize named v t Hv Hroom) as (v' & Hv' & Hto & Hof). exists v'. split_and!; [done|by apply Hto| |].
      * intros Hc. by apply Hn, (realize_covers named rows v v' Hin Hof).
      * intros E. by apply Hto, Hd.
  - by destruct Hw as (_ & _ & Hw).
Qed.

(** C4: A match that the check accepts is exhaustive: some unguarded arm takes every value of its type. *)
Theorem check_match_exhaustive t coverage As unreachable :
  arms_denote checker (coverage_arms coverage) t As ->
  check_match checker coverage = Coverage_Warnings unreachable ->
  forall v, value_ok v t -> matched (coverage_arms coverage) As v.
Proof.
  intros Hd E v Hv%value_ok_possible. pose proof (check_match_result false t coverage As Hd) as Hr. rewrite E in Hr.
  by apply Hr.
Qed.

(** C21: An arm that a warning calls unreachable takes no value that an unguarded arm before it leaves. *)
Theorem check_match_unreachable t coverage As unreachable span :
  arms_denote checker (coverage_arms coverage) t As ->
  check_match checker coverage = Coverage_Warnings unreachable -> (span ∈ unreachable) ->
  exists i arm A, coverage_arms coverage !! i = Some arm /\ As !! i = Some A /\ arm_span arm = span /\
    forall v, value_ok v t -> A v -> matched (take i (coverage_arms coverage)) (take i As) v.
Proof.
  intros Hd E Hin. pose proof (check_match_result false t coverage As Hd) as Hr. rewrite E in Hr.
  destruct Hr as (_ & rows & [_ _ Hs _]); [done|]. destruct (Hs span Hin) as [Hnil|(i & arm & A & E1 & E2 & E3 & Hsh)].
  - by apply elem_of_nil in Hnil.
  - exists i, arm, A. split_and!; [done..|]. intros v Hv%value_ok_possible HA. by destruct (Hsh v Hv HA).
Qed.

(** When the patterns have no opaque part, every arm that has a value and whose values all go to
    unguarded arms before it is reported as unreachable; of the values that the search knows of. *)
Lemma check_match_reports_unreachable t coverage As unreachable i arm A :
  arms_denote checker (coverage_arms coverage) t As ->
  Forall (fun arm => exact (arm_pattern arm) = true) (coverage_arms coverage) ->
  check_match checker coverage = Coverage_Warnings unreachable ->
  coverage_arms coverage !! i = Some arm -> As !! i = Some A -> (exists v, possible v t /\ A v) ->
  (forall v, possible v t -> A v -> matched (take i (coverage_arms coverage)) (take i As) v) ->
  (arm_span arm ∈ unreachable).
Proof.
  intros Hd Hex E E1 E2 Hv Hsh. pose proof (check_match_result true t coverage As Hd (fun _ => Hex)) as Hr.
  rewrite E in Hr. destruct Hr as (_ & rows & [_ _ _ Hc]). apply (Hc i arm A); try done.
  intros v Hv' HA. right. by apply Hsh.
Qed.

(** C32: When the patterns have no opaque part, the witness of a match that is not exhaustive describes a value that no
    unguarded arm takes; for a type inside which each open type has a value that the unguarded arms do not write. (Without
    it there may be none left: 256 arms for the literals of an [i8] still lack [_].) *)
Theorem check_match_missing t coverage As witness fix_ :
  arms_denote checker (coverage_arms coverage) t As ->
  Forall (fun arm => exact (arm_pattern arm) = true) (coverage_arms coverage) ->
  roomy (written checker (coverage_arms coverage)) t ->
  check_match checker coverage = Coverage_NonExhaustive witness fix_ ->
  exists v, value_ok v t /\ matches (witness_pattern witness) v /\ ~ matched (coverage_arms coverage) As v.
Proof.
  intros Hd Hex Hroom E. pose proof (check_match_result true t coverage As Hd (fun _ => Hex)) as Hr.
  rewrite E in Hr. by apply Hr.
Qed.

(** The check of a match always ends with an answer or with one of the two limits: it never
    panics and never runs out of the turns that the model allows. *)
Lemma check_match_failures t coverage As failure :
  arms_denote checker (coverage_arms coverage) t As ->
  check_match checker coverage = Coverage_Failure failure ->
  failure = ExhaustivenessSearchLimit \/ failure = PatternAlternativesLimit.
Proof.
  intros Hd E. pose proof (check_match_result false t coverage As Hd) as Hr. rewrite E in Hr. by apply Hr.
Qed.

(** C31: The arms that the error proposes to add close the match: the first is the witness, they are
    eight at most, each is writable, and every value goes to an unguarded arm or to an added one. *)
Theorem check_match_added_arms t coverage As witness added :
  arms_denote checker (coverage_arms coverage) t As ->
  check_match checker coverage = Coverage_NonExhaustive witness (Some added) ->
  head added = Some witness /\ length added <= 8 /\ Forall (fun w => writable w = true) added /\
  forall v, value_ok v t ->
    matched (coverage_arms coverage) As v \/ Exists (fun w => matches (witness_pattern w) v) added.
Proof.
  intros Hd E. pose proof (check_match_result false t coverage As Hd) as Hr. rewrite E in Hr.
  destruct Hr as (_ & _ & Hadd); [done|]. destruct (Hadd added eq_refl) as (rows & [[rest ->] Hcount Hwrite Hcov] & Hrows).
  split_and!; [done|done|done|]. intros v Hv%value_ok_possible. destruct (Hcov v Hv); [left; by apply Hrows|by right].
Qed.

(** C40: A normal form approximates its pattern from the side that is safe: rows match values of the
    pattern only and queries match all of them; nodes have the pattern's type, and the only errors are limits. *)
Theorem normalize_approximates p t A mode s : denotes checker p t A ->
  match normalize checker p mode s with
  | (Ok ns, _) => Forall (fun n => node_ok n t) ns /\ forall v, value_ok v t ->
      match mode with
      | Mode_Row => Exists (fun n => matches n v) ns -> A v
      | Mode_Query => A v -> Exists (fun n => matches n v) ns
      end
  | (Err e, _) => is_limit e
  end.
Proof.
  intros Hd. pose proof (wp_elim _ _ _ (wp_normalize p t A mode s Hd)) as Hw. revert Hw.
  generalize (normalize checker p mode s). intros [[ns|e] s'] Hw; [|done]. destruct Hw as [Hn Hm]. split; [done|].
  intros v Hv. by apply Hm, value_ok_possible.
Qed.

(** The list pattern [[p1; ...; pn]] stands for the lists of [n] elements that the patterns match one by one. *)
Lemma list_pattern_denotes t e ps As :
  fields t Constructor_ListNil = Some [] -> fields t Constructor_ListCons = Some [e; t] ->
  length ps <= Wire.MAX_NESTING -> Forall2 (fun p A => denotes checker p e A) ps As ->
  denotes checker (list_pattern ps) t (fun v => exists vs, v = list_value vs /\ members As vs).
Proof.
  intros Hnil Hcons Hl Hps. rewrite list_pattern_cells by done. clear Hl.
  induction Hps as [|p A ps As Hp _ IH].
  - exists [], []. split_and!; [done|done|]. intros v. split.
    + intros (vs & -> & Hvs). inversion Hvs; subst. exists []. by split; [|constructor].
    + intros (vs & -> & Hvs). inversion Hvs; subst. exists []. by split; [|constructor].
  - cbn [foldr]. eexists [e; t], [A; _]. split_and!; [done|exact Hp|exact IH|done|]. intros v. split.
    + intros (vs & -> & Hvs). apply Forall2_cons_inv_l in Hvs as (x & vs' & Hx & Hvs & ->).
      exists [x; list_value vs']. split; [done|]. constructor; [done|]. constructor; [|constructor]. by exists vs'.
    + intros (vs & -> & Hvs). apply Forall2_cons_inv_l in Hvs as (x & vs' & Hx & Hvs & ->).
      apply Forall2_cons_inv_l in Hvs as (y & vs'' & (zs & -> & Hzs) & Hnil' & ->). inversion Hnil'; subst.
      exists (x :: zs). split; [done|]. by constructor.
Qed.

(** A program that the check accepts has exhaustive matches only, with their warnings in order. *)
Lemma check_coverage_exhaustive all types warnings unreachable :
  Forall2 (fun coverage (tA : Shape * list Values) => arms_denote checker (coverage_arms coverage) tA.1 tA.2) all types ->
  check_coverage checker all warnings = Coverage_Warnings unreachable ->
  Forall2 (fun coverage (tA : Shape * list Values) =>
    forall v, value_ok v tA.1 -> matched (coverage_arms coverage) tA.2 v) all types /\
  warnings `prefix_of` unreachable.
Proof.
  intros Hd. revert warnings. induction Hd as [|coverage tA all types Hd _ IH]; intros warnings E.
  { injection E as <-. by split. }
  cbn [check_coverage] in E. pose proof (check_match_result false tA.1 coverage tA.2 Hd) as Hr.
  destruct (check_match checker coverage) as [ws| |]; try done. destruct (IH _ E) as [Hall Hpre].
  destruct Hr as [Hr _]; [done|]. split; [constructor; [|done]; intros v Hv; by apply Hr, value_ok_possible|]. etrans; [|exact Hpre]. by exists ws.
Qed.
End theorems.

(** ** Examples *)

Definition sample_span (n : N) : Span := mk_Span (uint_wrap 64 n) (uint_wrap 64 n) None.

Definition bool_pattern (b : bool) : CoveragePat := CoveragePat_Constructor (Constructor_Bool b) [].
Definition some_pattern (p : CoveragePat) : CoveragePat := CoveragePat_Constructor some_ [p].
Definition none_pattern : CoveragePat := CoveragePat_Constructor none_ [].

Definition is_bool (b : bool) : Values := fun v => v = mk_Value (Constructor_Bool b) [].
Definition is_some (A : Values) : Values := fun v => exists x, v = mk_Value some_ [x] /\ A x.
Definition is_none : Values := fun v => v = mk_Value none_ [].

(** [| Some true | Some _ when ... | Some false or None | Some true] on an optional boolean. *)
Definition sample_arms : list CoverageArm :=
  [mk_CoverageArm (some_pattern (bool_pattern true)) false (sample_span 1);
   mk_CoverageArm (some_pattern CoveragePat_Wildcard) true (sample_span 2);
   mk_CoverageArm (CoveragePat_Or (some_pattern (bool_pattern false)) none_pattern) false (sample_span 3);
   mk_CoverageArm (some_pattern (bool_pattern true)) false (sample_span 4)].

Definition sample_sets : list Values :=
  [is_some (is_bool true); is_some (fun _ => True); (fun v => is_some (is_bool false) v \/ is_none v);
   is_some (is_bool true)].

Definition bool_type : Shape := SampleBool.
Definition sample_type : Shape := SampleOption SampleBool.
Definition list_type : Shape := SampleList SampleBool.
Definition number_type : Shape := SampleNumber.
Definition digit_type : Shape := SampleDigit.

Definition sample_match : MatchCoverage := mk_MatchCoverage (sample_span 0) sample_arms (Some 9).

(** The first two arms only. *)
Definition open_match : MatchCoverage := mk_MatchCoverage (sample_span 0) (take 2 sample_arms) (Some 9).

Lemma sample_denotes : arms_denote sample_checker sample_arms sample_type sample_sets.
Proof.
  assert (forall b, denotes sample_checker (bool_pattern b) bool_type (is_bool b)) as Hb
    by (intros b; by apply denotes_ctor0).
  repeat constructor; cbn [arm_pattern].
  - by apply (denotes_ctor1 _ some_ sample_type bool_type).
  - by apply (denotes_ctor1 _ some_ sample_type bool_type).
  - apply denotes_or; [by apply (denotes_ctor1 _ some_ sample_type bool_type)|by apply denotes_ctor0].
  - by apply (denotes_ctor1 _ some_ sample_type bool_type).
Qed.

Lemma open_denotes : arms_denote sample_checker (coverage_arms open_match) sample_type (take 2 sample_sets).
Proof. apply Forall2_take, sample_denotes. Qed.

Lemma sample_check : check_match sample_checker sample_match = Coverage_Warnings [sample_span 4].
Proof. vm_compute. reflexivity. Qed.

Definition none_witness : Witness := Witness_Ctor none_ [].
Definition some_false_witness : Witness := Witness_Ctor some_ [Witness_Ctor (Constructor_Bool false) []].

Lemma open_check : check_match sample_checker open_match =
  Coverage_NonExhaustive none_witness (Some [none_witness; some_false_witness]).
Proof. vm_compute. reflexivity. Qed.

(** A number beside the numbers that a predicate names. *)
Lemma number_inside u : inside number_type u -> u = number_type.
Proof.
  induction 1 as [|u c ts w _ IH Hf Hw]; [done|]. subst u. destruct c; try done. injection Hf as <-. by apply elem_of_nil in Hw.
Qed.

Lemma number_roomy (named : Constructor -> Prop) n : ~ named (sample_key n) -> roomy named number_type.
Proof. intros Hn u ->%number_inside _. by exists (sample_key n), []. Qed.

(** The row [0] on numbers. *)
Definition zero_rows : list Row := to_rows [Node_Ctor (sample_key 0) []].

Lemma run_decides_witness :
  (exists s, run sample_checker zero_rows (push Node_Wild Row_None) true (mk_Search 0 [] 0) = (Ok (Some Witness_Wild), s)) /\
  exists v, value_ok v number_type /\ ~ covers zero_rows [v].
Proof.
  assert (exists s, run sample_checker zero_rows (push Node_Wild Row_None) true (mk_Search 0 [] 0) = (Ok (Some Witness_Wild), s))
    as [s E] by (eexists; vm_compute; reflexivity).
  split; [by exists s|]. assert (Forall (typed_row [number_type]) zero_rows) as Hr
    by (apply rows_typed; by repeat constructor).
  pose proof (run_decides number_type zero_rows Node_Wild true (mk_Search 0 [] 0) Hr I) as H. rewrite E in H. destruct H as [_ H].
  destruct (H (fun c => c = sample_key 0)) as (v & Hv & _ & Hn & _).
  - by repeat constructor.
  - apply (number_roomy _ 1). discriminate.
  - by exists v.
Defined.

Definition some_false : Value := mk_Value some_ [mk_Value (Constructor_Bool false) []].

Lemma check_match_exhaustive_witness :
  check_match sample_checker sample_match = Coverage_Warnings [sample_span 4] /\ matched sample_arms sample_sets some_false.
Proof.
  split; [exact sample_check|].
  apply (check_match_exhaustive sample_type sample_match sample_sets [sample_span 4] sample_denotes sample_check).
  by repeat constructor.
Defined.

Lemma check_match_unreachable_witness :
  exists i arm A, sample_arms !! i = Some arm /\ sample_sets !! i = Some A /\ arm_span arm = sample_span 4 /\
    forall v, value_ok v sample_type -> A v -> matched (take i sample_arms) (take i sample_sets) v.
Proof.
  apply (check_match_unreachable sample_type sample_match sample_sets [sample_span 4] (sample_span 4) sample_denotes sample_check).
  by apply list_elem_of_singleton.
Defined.

(** [| 0] on numbers, and [| 0 | 1] on a type that has no other value. *)
Definition key_pattern (n : nat) : CoveragePat := CoveragePat_Constructor (sample_key n) [].

Definition is_key (n : nat) : Values := fun v => v = mk_Value (sample_key n) [].

Definition number_match : MatchCoverage :=
  mk_MatchCoverage (sample_span 0) [mk_CoverageArm (key_pattern 0) false (sample_span 1)] None.

Definition digit_match : MatchCoverage :=
  mk_MatchCoverage (sample_span 0) [mk_CoverageArm (key_pattern 0) false (sample_span 1);
    mk_CoverageArm (key_pattern 1) false (sample_span 2)] None.

Lemma check_match_missing_witness : check_match sample_checker number_match = Coverage_NonExhaustive Witness_Wild None /\
  exists v, value_ok v number_type /\ ~ matched (coverage_arms number_match) [is_key 0] v.
Proof.
  assert (check_match sample_checker number_match = Coverage_NonExhaustive Witness_Wild None) as E by (vm_compute; reflexivity).
  split; [exact E|]. assert (arms_denote sample_checker (coverage_arms number_match) number_type [is_key 0]) as Hd.
  { constructor; [by apply denotes_ctor0|constructor]. }
  destruct (check_match_missing number_type number_match [is_key 0] Witness_Wild None Hd) as (v & Hv & _ & Hn).
  - by repeat constructor.
  - apply (number_roomy _ 1). intros Hw. apply Exists_cons in Hw as [[_ [Hw|[]]]|Hw]; [discriminate|by apply Exists_nil in Hw].
  - exact E.
  - by exists v.
Defined.

(** A finite open type whose literals are all written: the search still reports [_], though no value is left. *)
Example all_literals_written : check_match sample_checker digit_match = Coverage_NonExhaustive Witness_Wild None /\
  forall v, value_ok v digit_type -> matched (coverage_arms digit_match) [is_key 0; is_key 1] v.
Proof.
  split; [vm_compute; reflexivity|]. intros [c vs|] Hv; [|done]. apply typed_value_inv in Hv as (ts & Hf & Hvs).
  cbn in Hf. destruct c; try done. unfold is_digit in Hf. case_bool_decide as Hd; [|done]. injection Hf as <-. inversion Hvs; subst.
  destruct Hd as [-> | ->]; [by left|by right; left].
Qed.

Lemma check_match_added_arms_witness :
  head [none_witness; some_false_witness] = Some none_witness /\ length [none_witness; some_false_witness] <= 8 /\
  Forall (fun w => writable w = true) [none_witness; some_false_witness] /\
  forall v, value_ok v sample_type -> matched (take 2 sample_arms) (take 2 sample_sets) v \/
    Exists (fun w => matches (witness_pattern w) v) [none_witness; some_false_witness].
Proof. exact (check_match_added_arms sample_type open_match (take 2 sample_sets) _ _ open_denotes open_check). Defined.

Lemma normalize_approximates_witness :
  match normalize sample_checker (some_pattern CoveragePat_Opaque) Mode_Row (mk_Search 0 [] 0) with
  | (Ok ns, _) => Forall (fun n => node_ok n sample_type) ns /\ forall v, value_ok v sample_type ->
      (Exists (fun n => matches n v) ns -> is_some (is_bool true) v)
  | (Err e, _) => is_limit e
  end.
Proof.
  apply (normalize_approximates (some_pattern CoveragePat_Opaque) sample_type (is_some (is_bool true)) Mode_Row).
  by apply (denotes_ctor1 _ some_ sample_type bool_type).
Defined.

(** The nested pattern of this match has more than [MAX_PATTERN_ALTERNATIVES] alternatives. *)
Fixpoint doubling (n : nat) : CoveragePat :=
  match n with
  | O => bool_pattern true
  | S n => CoveragePat_Or (doubling n) (doubling n)
  end.

Definition doubled : MatchCoverage :=
  mk_MatchCoverage (sample_span 0) [mk_CoverageArm (doubling 11) false (sample_span 1)] None.

Example doubled_limit : check_match sample_checker doubled = Coverage_Failure PatternAlternativesLimit.
Proof. vm_compute. reflexivity. Qed.
