(* ===== verification/Faults.v ===== *)
(** * Code that indexes vectors and loops

    The faults of such code in the model, indexing, [for] and [while] loops over a mutable state, and [returns], the
    logic of computations that end without a fault, with a rule for each loop. *)
From S2P Require Import Prelude.
Local Open Scope nat_scope.
Local Open Scope monad_scope.

(** An index out of range is [Panic]. A [while] loop takes fuel; [OutOfFuel] is an artefact of the model. *)
Inductive Fault := Panic | OutOfFuel.

(** [usize::MAX] *)
Definition usize_MAX : N := 2 ^ 64 - 1.
#[global] Arguments usize_MAX : simpl never.

(** ** The state *)

Definition gets {E S A} (f : S -> A) : M E S A := fun s => (Ok (f s), s).

Definition modify {E S} (f : S -> S) : M E S unit := fun s => (Ok tt, f s).

(** A call that has no access to the state. *)
Definition lift {E S A} (r : Result A E) : M E S A := fun s => (r, s).

(** ** Vectors *)

Definition element {S A} (l : list A) (i : nat) : M Fault S A := ok_or (l !! i) Panic.

Definition updated {S A} (l : list A) (i : nat) (x : A) : M Fault S (list A) :=
  if i <? length l then ret (<[i := x]> l) else fail Panic.

(** ** Loops *)

(** A [for] loop whose body may leave it with a value. *)
Fixpoint each {E S A R} (body : A -> M E S (option R)) (l : list A) : M E S (option R) :=
  match l with
  | [] => ret None
  | x :: l =>
    let? stop := body x in
    match stop with Some r => ret (Some r) | None => each body l end
  end.

Fixpoint for_each {E S A} (body : A -> M E S unit) (l : list A) : M E S unit :=
  match l with [] => ret tt | x :: l => body x ;;; for_each body l end.

(** [map] and [collect] over a closure that may fail. *)
Fixpoint collect {E S A B} (f : A -> M E S B) (l : list A) : M E S (list B) :=
  match l with
  | [] => ret []
  | x :: l =>
    let? y := f x in
    let? ys := collect f l in
    ret (y :: ys)
  end.

(** A [while] loop: a turn that gives a value leaves it. *)
Fixpoint turns {S R} (fuel : nat) (turn : M Fault S (option R)) : M Fault S R :=
  match fuel with
  | O => fail OutOfFuel
  | S fuel =>
    let? stop := turn in
    match stop with Some r => ret r | None => turns fuel turn end
  end.

(** ** Computations that succeed *)

Definition returns {E S A} (m : M E S A) (Q : A -> S -> Prop) (s : S) : Prop :=
  match m s with (Ok a, s') => Q a s' | (Err _, _) => False end.

Section returns.
Context {E S A B : Type}.

Lemma returns_ret (a : A) (Q : A -> S -> Prop) s : Q a s -> returns (ret (E := E) a) Q s.
Proof. done. Qed.

Lemma returns_bind (m : M E S A) (k : A -> M E S B) Q s :
  returns m (fun a => returns (k a) Q) s -> returns (bind m k) Q s.
Proof. unfold returns, bind. by destruct (m s) as [[a|e] s']. Qed.

Lemma returns_mono (m : M E S A) (P Q : A -> S -> Prop) s :
  returns m P s -> (forall a s', P a s' -> Q a s') -> returns m Q s.
Proof. unfold returns. destruct (m s) as [[a|e] s']; auto. Qed.

Lemma returns_eq (m : M E S A) (Q : A -> S -> Prop) s a s' : m s = (Ok a, s') -> Q a s' -> returns m Q s.
Proof. unfold returns. by intros ->. Qed.

Lemma returns_Ok (m : M E S A) (Q : A -> S -> Prop) s :
  returns m Q s -> exists a s', m s = (Ok a, s') /\ Q a s'.
Proof. unfold returns. destruct (m s) as [[a|e] s']; [by exists a, s'|done]. Qed.

Lemma returns_fst (m : M E S A) (P : A -> Prop) s :
  returns m (fun a _ => P a) s -> exists a, fst (m s) = Ok a /\ P a.
Proof. intros (a & s' & -> & Ha)%returns_Ok. by exists a. Qed.

Lemma returns_gets (f : S -> A) (Q : A -> S -> Prop) s : Q (f s) s -> returns (gets (E := E) f) Q s.
Proof. done. Qed.

Lemma returns_modify (f : S -> S) (Q : unit -> S -> Prop) s : Q tt (f s) -> returns (modify (E := E) f) Q s.
Proof. done. Qed.

Lemma returns_lift (r : Result A E) a (Q : A -> S -> Prop) s : r = Ok a -> Q a s -> returns (lift r) Q s.
Proof. by intros ->. Qed.
End returns.

Section vectors.
Context {S A : Type}.

Lemma returns_element (l : list A) i x (Q : A -> S -> Prop) s :
  l !! i = Some x -> Q x s -> returns (element l i) Q s.
Proof. intros Hl HQ. unfold element. by rewrite Hl. Qed.

Lemma returns_updated (l : list A) i x (Q : list A -> S -> Prop) s :
  i < length l -> Q (<[i := x]> l) s -> returns (updated l i x) Q s.
Proof. intros Hi HQ. unfold updated. by rewrite (proj2 (Nat.ltb_lt _ _) Hi). Qed.
End vectors.

Section loops.
Context {E S A : Type}.

(** The invariant of a [for] loop speaks of the elements that are done. *)
Lemma returns_each {R} (body : A -> M E S (option R)) (I : list A -> S -> Prop) (Q : option R -> S -> Prop) l s :
  I [] s ->
  (forall done x rest s, l = done ++ x :: rest -> I done s ->
    returns (body x) (fun r s' => match r with Some r => Q (Some r) s' | None => I (done ++ [x]) s' end) s) ->
  (forall s, I l s -> Q None s) ->
  returns (each body l) Q s.
Proof.
  intros Hs Hbody HQ. assert (forall rest done s, l = done ++ rest -> I done s -> returns (each body rest) Q s) as Hall.
  { clear s Hs. induction rest as [|x rest IH]; intros done s -> Hs.
    - apply HQ. by rewrite app_nil_r.
    - apply returns_bind. eapply returns_mono; [by eapply Hbody|]. intros [r|] s' Hs'; [done|].
      apply (IH (done ++ [x])); [by rewrite <- app_assoc|done]. }
  by apply (Hall l []).
Qed.

Lemma returns_for_each (body : A -> M E S unit) (I : list A -> S -> Prop) (Q : unit -> S -> Prop) l s :
  I [] s ->
  (forall done x rest s, l = done ++ x :: rest -> I done s -> returns (body x) (fun _ => I (done ++ [x])) s) ->
  (forall s, I l s -> Q tt s) ->
  returns (for_each body l) Q s.
Proof.
  intros Hs Hbody HQ.
  assert (forall rest done s, l = done ++ rest -> I done s -> returns (for_each body rest) Q s) as Hall.
  { clear s Hs. induction rest as [|x rest IH]; intros done s -> Hs.
    - apply HQ. by rewrite app_nil_r.
    - apply returns_bind. eapply returns_mono; [by eapply Hbody|]. intros [] s' Hs'.
      apply (IH (done ++ [x])); [by rewrite <- app_assoc|done]. }
  by apply (Hall l []).
Qed.

Lemma returns_collect {B} (f : A -> M E S B) (I : list A -> list B -> S -> Prop) (Q : list B -> S -> Prop) l s :
  I [] [] s ->
  (forall done x rest ys s, l = done ++ x :: rest -> I done ys s -> returns (f x) (fun y => I (done ++ [x]) (ys ++ [y])) s) ->
  (forall ys s, I l ys s -> Q ys s) ->
  returns (collect f l) Q s.
Proof.
  intros Hs Hbody HQ.
  assert (forall rest done ys s, l = done ++ rest -> I done ys s -> returns (collect f rest) (fun zs s' => Q (ys ++ zs) s') s) as Hall.
  { clear s Hs. induction rest as [|x rest IH]; intros done ys s -> Hs; cbn [collect].
    - apply returns_ret. rewrite app_nil_r in *. by apply HQ.
    - apply returns_bind. eapply returns_mono; [by eapply Hbody|]. intros y s' Hs'.
      apply returns_bind. eapply returns_mono; [apply (IH (done ++ [x]) (ys ++ [y])); [by rewrite <- app_assoc|done]|].
      intros zs s'' HQ'. apply returns_ret. cbv beta in HQ'. by rewrite <- app_assoc in HQ'. }
  by apply (Hall l [] []).
Qed.

Lemma collect_pure {B} (f : A -> M E S B) (g : A -> B) l s :
  (forall x, x ∈ l -> f x s = (Ok (g x), s)) -> collect f l s = (Ok (g <$> l), s).
Proof.
  induction l as [|x l IH]; intros Hf; [done|]. cbn [collect]. unfold bind at 1. rewrite Hf by apply list_elem_of_here.
  unfold bind. rewrite IH; [done|]. intros y Hy. apply Hf. by apply list_elem_of_further.
Qed.
End loops.

Lemma returns_turns {S R} (turn : M Fault S (option R)) (I : S -> Prop) (measure : S -> nat) (Q : R -> S -> Prop) fuel s :
  I s -> measure s < fuel ->
  (forall s, I s -> returns turn (fun r s' =>
    match r with Some r => Q r s' | None => I s' /\ measure s' < measure s end) s) ->
  returns (turns fuel turn) Q s.
Proof.
  intros Hs Hfuel Hturn. revert s Hs Hfuel. induction fuel as [|fuel IH]; intros s Hs Hfuel; [lia|].
  apply returns_bind. eapply returns_mono; [by apply Hturn|]. intros [r|] s' Hs'; [done|].
  destruct Hs' as [Hs' Hlt]. apply IH; [done|lia].
Qed.

(** Steps through the reads and writes of variables. *)
Ltac variables :=
  repeat match goal with
  | |- returns (bind _ _) _ _ => apply returns_bind
  | |- returns (gets _) _ _ => apply returns_gets
  | |- returns (modify _) _ _ => apply returns_modify
  | |- returns (ret _) _ _ => apply returns_ret
  end; cbv beta.
