(* ===== verification/Ordered.v ===== *)
(** * Ordered keys and maps

    [Ord] as a class with its laws, the lexicographic orders, and [BTreeMap] as the ascending list of its entries. *)
From Stdlib Require Import Ascii Sorted.
From stdpp Require Import sorting strings sets.
From S2P Require Import Prelude.

Class Ordered (A : Type) := compare : A -> A -> comparison.

Class OrderedLaws (A : Type) `{Ordered A} := {
  compare_eq (x y : A) : compare x y = Eq <-> x = y;
  compare_opp (x y : A) : compare y x = CompOpp (compare x y);
  compare_trans (x y z : A) : compare x y = Lt -> compare y z = Lt -> compare x z = Lt }.

Section ordered.
Context `{OrderedLaws A}.

Lemma compare_refl (x : A) : compare x x = Eq.
Proof. by apply compare_eq. Qed.

Lemma compare_gt (x y : A) : compare x y = Gt <-> compare y x = Lt.
Proof. rewrite (compare_opp x y). by destruct (compare x y). Qed.

Lemma compare_asym (x y : A) : compare x y = Lt -> compare y x = Lt -> False.
Proof. rewrite (compare_opp x y). by intros ->. Qed.

Definition le (x y : A) : Prop := compare x y <> Gt.

#[export] Instance le_dec (x y : A) : Decision (le x y).
Proof. unfold le. apply _. Defined.

#[export] Instance le_total : Total le.
Proof. intros x y. unfold le. rewrite (compare_opp x y). destruct (compare x y); naive_solver. Qed.

#[export] Instance le_trans : Transitive le.
Proof.
  intros x y z Hxy Hyz. unfold le in *. destruct (compare x y) eqn:E1; [apply compare_eq in E1 as ->; done| |done].
  destruct (compare y z) eqn:E2; [apply compare_eq in E2 as ->; by rewrite E1| |done].
  by rewrite (compare_trans x y z).
Qed.

Lemma le_antisym (x y : A) : le x y -> le y x -> x = y.
Proof. unfold le. rewrite (compare_opp x y). destruct (compare x y) eqn:E; [by intros; apply compare_eq|done|done]. Qed.
End ordered.

(** ** Instances *)

#[export] Instance N_ordered : Ordered N := N.compare.
#[export] Instance N_ordered_laws : OrderedLaws N.
Proof.
  split; unfold compare, N_ordered.
  - intros x y. apply N.compare_eq_iff.
  - intros x y. apply N.compare_antisym.
  - intros x y z. rewrite !N.compare_lt_iff. lia.
Qed.

#[export] Instance nat_ordered : Ordered nat := Nat.compare.
#[export] Instance nat_ordered_laws : OrderedLaws nat.
Proof.
  split; unfold compare, nat_ordered.
  - intros x y. apply Nat.compare_eq_iff.
  - intros x y. apply Nat.compare_antisym.
  - intros x y z. rewrite !Nat.compare_lt_iff. lia.
Qed.

Section lexicographic.
Context `{OrderedLaws A, OrderedLaws B}.

Definition compare_pair (x y : A * B) : comparison :=
  match compare x.1 y.1 with Eq => compare x.2 y.2 | c => c end.

#[export] Instance pair_ordered : Ordered (A * B) := compare_pair.

#[export] Instance pair_ordered_laws : OrderedLaws (A * B).
Proof.
  split; [change (forall x y, compare_pair x y = Eq <-> x = y)|change (forall x y, compare_pair y x = CompOpp (compare_pair x y))|
    change (forall x y z, compare_pair x y = Lt -> compare_pair y z = Lt -> compare_pair x z = Lt)]; unfold compare_pair.
  - intros [a b] [a' b']. cbn. destruct (compare a a') eqn:E.
    + apply compare_eq in E as ->. rewrite compare_eq. naive_solver.
    + split; [done|]. intros [= -> ->]. by rewrite compare_refl in E.
    + split; [done|]. intros [= -> ->]. by rewrite compare_refl in E.
  - intros [a b] [a' b']. cbn. rewrite (compare_opp a a'). destruct (compare a a'); [apply compare_opp|done|done].
  - intros [a b] [a' b'] [a'' b'']. cbn.
    destruct (compare a a') eqn:E1; [| |done]; destruct (compare a' a'') eqn:E2; try done.
    + apply compare_eq in E1 as ->. rewrite E2. apply compare_trans.
    + apply compare_eq in E1 as ->. by rewrite E2.
    + apply compare_eq in E2 as ->. by rewrite E1.
    + by rewrite (compare_trans a a' a'').
Qed.

Fixpoint compare_list (xs ys : list A) : comparison :=
  match xs, ys with
  | [], [] => Eq
  | [], _ :: _ => Lt
  | _ :: _, [] => Gt
  | x :: xs, y :: ys => match compare x y with Eq => compare_list xs ys | c => c end
  end.

#[export] Instance list_ordered : Ordered (list A) := compare_list.

#[export] Instance list_ordered_laws : OrderedLaws (list A).
Proof.
  split; [change (forall x y, compare_list x y = Eq <-> x = y)|change (forall x y, compare_list y x = CompOpp (compare_list x y))|
    change (forall x y z, compare_list x y = Lt -> compare_list y z = Lt -> compare_list x z = Lt)].
  - intros xs. induction xs as [|x xs IH]; intros [|y ys]; cbn; try done. destruct (compare x y) eqn:E.
    + apply compare_eq in E as ->. rewrite IH. naive_solver.
    + split; [done|]. intros [= -> ->]. by rewrite compare_refl in E.
    + split; [done|]. intros [= -> ->]. by rewrite compare_refl in E.
  - intros xs. induction xs as [|x xs IH]; intros [|y ys]; cbn; try done.
    rewrite (compare_opp x y). destruct (compare x y); [apply IH|done|done].
  - intros xs. induction xs as [|x xs IH]; intros [|y ys] [|z zs]; cbn; try done.
    destruct (compare x y) eqn:E1; [| |done]; destruct (compare y z) eqn:E2; try done.
    + apply compare_eq in E1 as ->. rewrite E2. apply IH.
    + apply compare_eq in E1 as ->. by rewrite E2.
    + apply compare_eq in E2 as ->. by rewrite E1.
    + by rewrite (compare_trans x y z).
Qed.
End lexicographic.

(** The byte order of strings, through the numbers of their characters. *)
Definition codes_of (s : string) : list N := N_of_ascii <$> String.list_ascii_of_string s.

#[export] Instance string_ordered : Ordered string := fun s t => compare (codes_of s) (codes_of t).

#[export] Instance codes_of_inj : Inj (=) (=) codes_of.
Proof.
  intros s. induction s as [|a s IH]; intros [|b t] Heq; [done..|]. injection Heq as Ha Hs.
  f_equal; [|by apply IH]. rewrite <- (ascii_N_embedding a), <- (ascii_N_embedding b). by f_equal.
Qed.

(** An order that an injection carries over. *)
Lemma ordered_by {A B} `{OrderedLaws B} (f : A -> B) `{!Inj (=) (=) f} : @OrderedLaws A (fun x y => compare (f x) (f y)).
Proof.
  split.
  - intros x y. change (compare (f x) (f y) = Eq <-> x = y). rewrite compare_eq. split; [apply (inj f)|by intros ->].
  - intros x y. apply (compare_opp (f x) (f y)).
  - intros x y z. apply (compare_trans (f x) (f y) (f z)).
Qed.

#[export] Instance string_ordered_laws : OrderedLaws string.
Proof. exact (ordered_by codes_of). Qed.

#[export] Instance uint_ordered w : Ordered (uint w) := fun x y => compare (uval x) (uval y).

#[export] Instance uint_ordered_laws w : OrderedLaws (uint w).
Proof. apply (@ordered_by _ _ _ _ uval). intros x y. apply uint_eq. Qed.

(** ** Maps *)

Section maps.
Context `{OrderedLaws K} {V : Type}.
Implicit Types (m : list (K * V)).

Fixpoint map_get (k : K) m : option V :=
  match m with
  | [] => None
  | e :: m => match compare k (fst e) with Eq => Some (snd e) | Lt => None | Gt => map_get k m end
  end.

(** [insert] *)
Fixpoint map_insert (k : K) (v : V) m : list (K * V) :=
  match m with
  | [] => [(k, v)]
  | e :: t =>
    match compare k (fst e) with Eq => (k, v) :: t | Lt => (k, v) :: m | Gt => e :: map_insert k v t end
  end.

(** [entry(k).or_insert(v)] *)
Definition map_or_insert (k : K) (v : V) m : list (K * V) :=
  match map_get k m with Some _ => m | None => map_insert k v m end.

Definition ascending m : Prop := StronglySorted (fun e f => compare (fst e) (fst f) = Lt) m.

Lemma ascending_cons e m : ascending (e :: m) <-> ascending m /\ forall f, f ∈ m -> compare (fst e) (fst f) = Lt.
Proof.
  split.
  - intros [Hm He]%StronglySorted_inv. rewrite list.Forall_forall in He. done.
  - intros [Hm He]. constructor; [done|]. by apply list.Forall_forall.
Qed.

Lemma map_get_Some k v m : ascending m -> map_get k m = Some v <-> (k, v) ∈ m.
Proof.
  induction m as [|[k' v'] m IH]; intros Hm; cbn; [split; [done|by intros ?%elem_of_nil]|].
  apply ascending_cons in Hm as [Hm He]. rewrite elem_of_cons. destruct (compare k k') eqn:E.
  - apply compare_eq in E as ->. split; [intros [= ->]; by left|]. intros [[= ->]|Hin]; [done|].
    apply He in Hin. cbn in Hin. by rewrite compare_refl in Hin.
  - split; [done|]. intros [[= -> ->]|Hin]; [by rewrite compare_refl in E|]. apply He in Hin. cbn in Hin.
    by destruct (compare_asym _ _ E Hin).
  - rewrite IH by done. split; [by right|]. intros [[= -> ->]|Hin]; [by rewrite compare_refl in E|done].
Qed.

Lemma map_get_None k m : ascending m -> map_get k m = None <-> forall v, (k, v) ∉ m.
Proof.
  intros Hm. split.
  - intros Hn v Hin. apply (map_get_Some k v m Hm) in Hin. congruence.
  - intros Hn. destruct (map_get k m) as [v|] eqn:E; [|done]. apply (map_get_Some k v m Hm) in E. by destruct (Hn v).
Qed.

Lemma elem_of_map_insert k v m e : ascending m -> (e ∈ map_insert k v m) <-> e = (k, v) \/ (e ∈ m /\ fst e <> k).
Proof.
  induction m as [|[k' v'] m IH]; intros Hm; cbn; [set_solver|].
  apply ascending_cons in Hm as [Hm He]. cbn in He. destruct (compare k k') eqn:E; rewrite !elem_of_cons.
  - apply compare_eq in E as ->. split; [|naive_solver]. intros [->|Hin]; [by left|]. right. split; [by right|].
    intros Heq. specialize (He e Hin). by rewrite Heq, compare_refl in He.
  - split; [|naive_solver]. intros [->|[->|Hin]]; [by left|..]; right.
    + split; [by left|]. cbn. intros ->. by rewrite compare_refl in E.
    + split; [by right|]. intros Heq. specialize (He e Hin). rewrite Heq in He. by destruct (compare_asym _ _ E He).
  - rewrite IH by done. split; [|naive_solver]. intros [->|[->|[Hin Hne]]]; [|by left|by right; split; [right|]].
    right. split; [by left|]. cbn. intros ->. by rewrite compare_refl in E.
Qed.

Lemma map_insert_ascending k v m : ascending m -> ascending (map_insert k v m).
Proof.
  induction m as [|[k' v'] m IH]; intros Hm; cbn; [repeat constructor|].
  pose proof Hm as [Hm' He]%ascending_cons. cbn in He. destruct (compare k k') eqn:E.
  - apply compare_eq in E as ->. by apply ascending_cons.
  - apply ascending_cons. split; [done|]. intros f [->|Hf]%elem_of_cons; cbn; [done|].
    eapply compare_trans; [done|by apply He].
  - apply ascending_cons. split; [by apply IH|]. intros f [->|[Hf _]]%elem_of_map_insert; cbn; [|by apply He|done].
    by apply compare_gt.
Qed.

Lemma length_map_insert k v m : map_get k m = None -> length (map_insert k v m) = S (length m).
Proof.
  induction m as [|[k' v'] m IH]; intros Hn; [done|]. cbn in *. destruct (compare k k'); [done|done|]. cbn. by rewrite IH.
Qed.

Lemma map_or_insert_ascending k v m : ascending m -> ascending (map_or_insert k v m).
Proof. intros Hm. unfold map_or_insert. destruct (map_get k m); [done|by apply map_insert_ascending]. Qed.

Lemma elem_of_map_or_insert k v m e :
  ascending m -> (e ∈ map_or_insert k v m) <-> e ∈ m \/ (e = (k, v) /\ forall v', (k, v') ∉ m).
Proof.
  intros Hm. unfold map_or_insert. destruct (map_get k m) as [v'|] eqn:E.
  - apply (map_get_Some k v' m Hm) in E. split; [by left|]. intros [Hin|[-> Hno]]; [done|]. by destruct (Hno v').
  - pose proof (proj1 (map_get_None k m Hm) E) as Hno. rewrite elem_of_map_insert by done. split.
    + intros [->|[Hin _]]; [right; by split|by left].
    + intros [Hin|[-> _]]; [|by left]. right. split; [done|]. intros Heq. destruct e as [k' v']. cbn in Heq. subst k'. by apply (Hno v').
Qed.

Lemma map_get_insert `{EqDecision K} k k' v m : ascending m ->
  map_get k (map_insert k' v m) = if decide (k = k') then Some v else map_get k m.
Proof.
  intros Hm. pose proof (map_insert_ascending k' v m Hm) as Hi. case_decide as Hk.
  - apply map_get_Some; [done|]. apply elem_of_map_insert; [done|]. left. by rewrite Hk.
  - apply option_eq. intros w. rewrite !map_get_Some, elem_of_map_insert by done. cbn. naive_solver.
Qed.

(** Ascending maps with the same entries are equal. *)
Lemma ascending_ext m m' : ascending m -> ascending m' -> (forall e, e ∈ m <-> e ∈ m') -> m = m'.
Proof.
  revert m'. induction m as [|e m IH]; intros [|e' m'] Hm Hm' He; [done|..].
  - destruct (not_elem_of_nil e'). apply He, list_elem_of_here.
  - destruct (not_elem_of_nil e). apply He, list_elem_of_here.
  - pose proof Hm as [Hs Hlt]%ascending_cons. pose proof Hm' as [Hs' Hlt']%ascending_cons.
    assert (e = e') as <-.
    { assert (e ∈ e' :: m') as [->|Hin]%elem_of_cons by (apply He, list_elem_of_here); [done|].
      assert (e' ∈ e :: m) as [->|Hin']%elem_of_cons by (apply He, list_elem_of_here); [done|].
      by destruct (compare_asym _ _ (Hlt _ Hin') (Hlt' _ Hin)). }
    f_equal. apply IH; [done..|]. intros f. split; intros Hf.
    + assert (f ∈ e :: m') as [->|]%elem_of_cons by (apply He; by apply list_elem_of_further); [|done].
      specialize (Hlt _ Hf). by rewrite compare_refl in Hlt.
    + assert (f ∈ e :: m) as [->|]%elem_of_cons by (apply He; by apply list_elem_of_further); [|done].
      specialize (Hlt' _ Hf). by rewrite compare_refl in Hlt'.
Qed.
End maps.
