(* ===== verification/Kinds.v ===== *)
(** * The registry of diagnostic kinds

    [src/src/diagnostic_kinds.rs]: every rule that a diagnostic reports, with its identifier and its code, and the
    severity of a code. The table is the argument of the macro [diagnostic_kinds!]; the functions are its expansion. *)
From Stdlib Require Import Ascii.
From stdpp Require Import sorting strings.
From S2P Require Import Prelude Ordered.
Local Open Scope string_scope.

(** Of [src/src/diagnostic.rs]. *)
Inductive Severity := Severity_Error | Severity_Warning.

Definition severity_str (severity : Severity) : string :=
  match severity with Severity_Error => "error" | Severity_Warning => "warning" end.

Inductive DiagnosticKind :=
| BigintSuffixWithFraction | ByteLiteralNotAscii | ByteSuffixOnInterpolatedString | ByteSuffixOnUnsupportedLiteral
| CharLiteralNotOneUnit | CommentInInterpolationHole | ExpectedDigit | FloatSuffixOnHexOrBinaryLiteral
| FormatFieldOutOfRange | FormatPrecisionOnInteger | FormatTypeNeedsPrecision | InterpolationHoleSpansLines
| InvalidFormatSpec | InvalidNumericLiteral | InvalidStringEscape | InvalidTypeVariableStart
| InvalidUnicodeScalarEscape | NumericSeparatorMisplaced | RawNewlineInString | SingleClosingBraceInInterpolation
| UnexpectedCharacter | UnterminatedBlockComment | UnterminatedInterpolationHole | UnterminatedStringLiteral
| Utf8charNotOneScalar | AliasNameOnSameLine | AngleBracketSpacing | BuilderAliasIsContextualKeyword
| BuilderAliasNameCase | CheckedLetRec | ClassNeedsOneTypeParameter | ComputationMatchWithoutArms
| ComputationNestingTooDeep | ConstExportOrder | ConstraintLineIndentation | CpuAttributeOnConstDef
| DefinitionWithoutSignature | DoBangOutsideTask | DuplicateBuilderAlias | DuplicateCapability | DuplicateCpuTarget
| DuplicateJsonAttribute | DuplicateManifestKey | DynWithTypeArguments | EmptyInterpolationHole | EmptyRegionList
| ExpectedBindingEnd | ExpectedBodyExpression | ExpectedBuilderAlias | ExpectedComputationBody | ExpectedCpuTarget
| ExpectedDynClass | ExpectedExpression | ExpectedExpressionAfterAttribute | ExpectedIdentifier
| ExpectedInterpolationClose | ExpectedKind | ExpectedLineBreak | ExpectedLinkNameString | ExpectedPattern
| ExpectedSingleTypeArgument | ExpectedToken | ExpectedTypeClose | ExpectedUnionCaseName | ExpectedWhereBindings
| ExportOnImplementation | ExpressionNestingTooDeep | ExternTypeWithBody | ExternTypeWithLinkName
| ForLoopNeedsIdentifier | HeaderPathOnSameLine | HeaderPathSpacing | IntegerLiteralTooLarge | InvalidCapabilities
| InvalidDependencyForm | InvalidDependencyNativeFlag | InvalidDependencyPath | InvalidFixedArrayLength
| InvalidGitDependency | InvalidJsonAttribute | InvalidLinkNameText | InvalidNativeLibraryName | InvalidNativePath
| InvalidNativeSection | InvalidPackageField | InvalidRegistryDependency | InvalidRegistrySetting | InvalidWasmSize
| LambdaWithoutParameters | LengthParameterType | LetFunctionNeedsLambda | LetRecNeedsLambda | ListTypeWithLength
| MalformedConstraintLine | MalformedMultiCaseActivePattern | MalformedNewCollection | ManifestSectionOrder
| ManifestSyntaxError | MatchWithoutArms | MisplacedCheckedAttribute | MisplacedConstModifier
| MisplacedCpuAttribute | MisplacedDocComment | MisplacedJsonAttribute | MisplacedNamespaceDeclaration
| MisplacedRegionList | MisplacedUsingDeclaration | MissingCapabilitiesAllow | MissingPackageField
| MissingRegistryIndex | ModuleDeclarationUnsupported | MutAsExpression | MutableLetRec | MutableUseBinding
| NegativePatternNeedsNumber | PatternNestingTooDeep | PrefixKeywordOperand | RangeTakesOneStep | RecursiveLetBang
| RecursiveWhereBinding | ReturnNotLastInComputation | ReturnOutsideTaskEnd | SelectArmExpected
| SelectDefaultRepeated | SignatureUsesDef | SignatureUsesDoubleColon | SignatureWithoutDefinition
| SliceMustBeBorrowed | SliceRangeNeedsEnd | SliceWithoutBounds | StrayAndMember | SyntaxNestingTooDeep
| TooManyActivePatternCases | TooManyDynClasses | TooManyExternLinkNames | TooManyFunctionParameters
| TooManyInterpolationHoles | TooManyLambdaParameters | TooManyTupleElements | TooManyTypeArguments
| TypeParametersNeedAngleBrackets | TypedAndNeedsBody | UnknownCapability | UnknownCpuTarget | UnknownManifestKey
| UnsupportedEdition | UseBangInAndGroup | UseBangOutsideComputation | WhereBindingIndentation | SourceTooLarge
| BareRangeInForRejected | LegacyLambdaRejected | ShortLiteralSuffixRejected | SymbolicBorrowRejected
| SymbolicDerefRejected | SymbolicReferenceTypeRejected | DuplicateAndBinding | DuplicateDerivedClass
| DuplicateExportName | DuplicateExternDeclaration | DuplicateFunctionDefinition | DuplicateFunctionSignature
| DuplicateName | ClassHasNoMethod | UnknownFunction | UnknownLengthConstant | UnknownModuleMember
| UnknownUnionCase | UnknownValue | ActiveRecognizerResult | FixedArrayLiteralLength | FormatSpecTypeMismatch
| FormatSpecTypeUnknown | IndexNotInteger | TypeMismatch | AmbiguousBuilderAlias | AmbiguousName
| AmbiguousPatternName | DynNeedsTypeClass | EmptyListNeedsAnnotation | ExpectedLength | LengthUsedAsType
| NotARecordType | RepeatedModuleName | StdItemMissing | TypeArgumentCount | TypeUsedAsLength | UnknownTypeName
| AtomicElementType | CallNonFunction | CaptureExclusiveInReusableFunction | CaptureRcInFunctionValue
| CaptureSyncPrimitiveInFunctionValue | CaptureUnsendableInFunctionValue | CollectionElementExclusiveBorrow
| CpuFunctionWideVectorBoundary | DerefNonReference | ExclusiveSliceWholeArrayParameter | FixedArrayInitAnnotation
| FixedSliceSource | ForOverFixedArray | ForSourceNotIterable | FunctionConstraintUnresolvable
| FunctionConstraintUnsatisfied | IndexNonIndexable | InvalidLengthConstant | MisplacedMutConvention
| MisplacedOwnConvention | MutParameterNeedsEdition2027 | NewOnFixedArray | NoInstance | NoInstanceForOperator
| NoWiderInteger | RangeAsValue | RecFunctionCapturesGeneric | RecordUpdateNonRecord
| SharedContainerExclusiveBorrow | SimdLaneCountMismatch | SimdOperationVectorType | SliceNonArray
| SliceOfFixedArray | StdRepresentationMismatch | UnsizedSliceTypePosition | UseRequiresDrop
| ActivePatternArgumentCount | ActiveRecognizerParameters | DefinitionParameterCountMismatch
| InstanceMethodParameterCount | OwnedFunctionParameterCount | TooManyArgumentsApplied | FieldAccessNonRecord
| MissingRecordFields | RecordHasNoField | UnknownField | ConflictingExternDeclaration | ExportActiveRecognizer
| ExportOnExternDeclaration | ExternCallbackArgument | ExternCallbackCallForm | ExternDeclarationConstraints
| InvalidExternSymbol | InvalidWasmImportModule | ReservedExternSymbol | UnsupportedExportSignature
| UnsupportedExternSignature | DecimalLiteralOutOfRange | FloatLiteralOutOfRange | FloatLiteralType
| IntegerLiteralOutOfRange | IntegerLiteralType | InvalidBigintDigit | InvalidFloatLiteral | FixedArrayTooLong
| InfiniteRecursiveLayout | LayoutNestingLimit | RecursiveUnionWithoutBaseCase | ValueLayoutTooLarge
| AmbiguousPackageRoot | ConflictingDependencySource | CyclicPackageDependency | DependencyKindNotAllowed
| DependencyNameMismatch | DependencyPathNotRelative | DuplicateDependency | DuplicateModule
| IncompatibleDependencyVersions | InvalidModuleFilename | InvalidModuleName | InvalidPackageName
| InvalidPackageNamespace | InvalidPublishVersion | InvalidSourcePath | InvalidStdPath | InvalidUsingDeclaration
| ManifestNotRegularFile | ModuleNamespaceCollision | ModuleSourceNotRegularFile | PublishNonRegistryDependency
| ReservedPackageNamespace | ReservedStdNamespace | SourceFilenameCaseMismatch | SourceOutsidePackageRoot
| SourceWithoutFilename | SymlinkNotFollowed | AssignToImmutablePlace | DropPassExclusiveValue
| DropReplaceWholeValue | MoveOutOfCollectionElement | MoveOutOfDropType | MoveOutOfOwnedFunction
| MoveOutOfRecFunction | MoveOutOfReferenceBinding | UpdateDropTypeValue | UseAfterMove | AssignmentExtendsBorrow
| BorrowAcrossAsyncBoundary | BorrowFieldWithoutRegion | BorrowOfTemporary | BorrowOutlivesBinding
| BorrowOutlivesBlock | BorrowedUnionPayload | CallbackContractUnsatisfied | ChannelItemHoldsBorrow
| ConstTemporaryBorrowEscapes | DynHoldsBorrowWithoutRegion | DynHoldsExclusiveBorrow | ExclusiveBorrowBehindRegion
| ExclusiveBorrowFieldShape | ExclusiveFieldRegionsMissing | ExclusiveFieldWithoutRegion | ExclusiveRegionReused
| FieldMixesRegions | InvalidRegionNames | MisplacedRegionQuantifier | MultipleRegionsOnValue | MustApplyDirectly
| MutableRecordField | MutableRegionQuantifiedParameter | MutexResultRetainsBorrow | NamedRegionInFunctionType
| NamedRegionInLocal | NestedBorrowUnsupported | OwnedFunctionCapturesReference
| ParallelCallbackBorrowsEnvironment | ParallelInputBorrowsEnvironment | ParallelResultRetainsBorrow
| ReferenceRegionCount | ReferenceWithoutOwner | RegionAlreadyDeclared | RegionBelongsToFunction
| RegionCallbackStoresExclusiveInput | RegionCountMismatch | RegionOnNonBorrow | RegionQuantifierTarget
| ResultRegionMismatch | ResultRegionMissing | ResultRegionWithoutInput | SelfReferentialStore
| StoreLocalBorrowThroughReference | StoreRegionMismatch | StoreRegionUnnamed | TaskCaptureRetainsBorrow
| TaskRequiresOwnedValue | TaskRequiresSend | TaskRequiresSync | TaskResultIsReference | TaskResultRetainsBorrow
| TaskScopeSharesBorrowedEnvironment | UndeclaredRegion | UnionPayloadExclusiveBorrow | UnusedRegion
| ActivePatternMutatesInput | BorrowConflict | ExclusiveSliceSource | MoveReborrowedExclusiveReference
| MutateImmutableValue | MutateThroughSharedReference | ReplaceExclusiveSlice | AmbiguousPolymorphicUse
| ConcreteIntegerRequired | ConcreteTypeRequired | ConstructorKindMismatch | ConstructorVariableKindAnnotation
| DynDispatchResultType | DynOfArity | DynOfNeedsExpectedType | ExpectedTypeConstructor
| ExternSignatureNotConcrete | ExternTypeAsConstructor | FixedArrayLengthUnknown | HigherKindedAlias
| HigherOrderKindArgument | InfiniteInferredType | InstanceHeadNotConstructor | InternalCompactStringRuntime
| InternalRecBindingNotLambda | InternalRecGroupUnbound | InternalRecNotBoundByBlock | InternalUnlowerableIr
| MissingTypeArguments | PolymorphicEntryPoint | RefOperandInferredLate | ScalarAsTypeConstructor
| SimdVectorTypeUnknown | SuperclassKindMismatch | TypeConstructorNotApplied | TypeVariableAbsentFromSignature
| TypeVariableKindConflict | BuiltinInstanceOverride | ClassConstraintArity | ClassMethodConstraint
| ClassMethodTypeVariable | ClassWithoutMethods | DefaultBodyUnknownMethod | DropInstanceConstraint
| DropInstanceGeneric | DropInstanceTarget | ExplicitDropCall | FieldTypeConstraint | FormatInstanceTarget
| InstanceMissingMethod | InstanceUnknownMethod | InternalEffectiveApiUnavailable | MissingExplicitConstraint
| OverlappingInstance | UnknownTypeClass | AndGroupTooLarge | CapabilityAnalysisLimit | ClassConstraintLimit
| ContractLineLimit | DerivingExpressionLimit | DerivingInstanceLimit | DocExampleLimit | EffectSummaryLimit
| ExhaustivenessSearchLimit | FixCandidateLimit | FunctionConstraintLimit | GitDependencyTooLarge
| GpuEffectAnalysisLimit | GpuKernelLimit | HeaderPathTooLong | InstanceOverlapLimit | InstanceResolutionCycle
| InstanceResolutionLimit | LockfileTooLarge | LoopOwnershipLimit | ManifestTooLarge | ModuleDiscoveryLimit
| ModulePathLimit | NamespacePathTooLong | OrPatternAlternativesLimit | PackageGraphLimit
| PatternAlternativesLimit | PolymorphicConstraintLimit | PolymorphicRecursionGrowth
| PolymorphicTypeExpansionLimit | ProveLimit | PureCallbackProofLimit | PureDefinitionReachLimit
| PureValueValidationLimit | QualifiedNameTooLong | RecursiveTypeChangesArguments | RecursiveTypeExpansionLimit
| RegistryIndexTooLarge | RegistryResolutionLimit | SelectArmLimit | SequenceLoopDepthLimit | SpecializationLimit
| SuperclassResolutionLimit | TooManyDependencies | TooManyLoopExits | TooManyOverflowSites | TooManyRaisePoints
| TooManyRecordRegions | TooManyRegionParameters | TooManyTrapLocations | TypeAliasExpansionLimit
| AliasOutsideBuilderFile | BenchClockOutsideBench | BuilderMissingOperation | BuilderWithoutOperations
| CannotInferBuilder | ClassOutsideClassFile | ComputationWithoutBuilder | DeclarationInClassFile
| GpuBufferElementType | GpuCallbackNotKnown | GpuKernelEffect | GpuKernelMissing | GpuKernelRecursion
| GpuKernelSignature | GpuOperationNotDirect | GpuUnsupportedConstruct | GpuUnsupportedOperator
| GpuUnsupportedType | ImplicitTaskNeedsBuilder | NoBuilderForValue | StdDeclaresTest | StdExportsFunction
| UnknownComputationBuilder | AndWithoutRecursiveGroup | MismatchedRecursiveGroup | MissingRecMarker
| ActiveArgumentNotValue | ActivePatternCaseCount | ActivePatternCaseName | ArrayPatternOnFixedArray
| CasePatternMissingPayload | CasePatternPayloadShape | CasePatternUnexpectedPayload | DuplicateActivePatternCase
| ExpressionInPattern | MultiCaseActivePatternResultType | NullPattern | OrPatternBindingMismatch
| PartialActivePatternCaseCount | QualifiedPatternBinding | RecordPatternUnknownType | ReservedActiveResultVariable
| UnknownCaseOrActivePattern | NonExhaustiveMatch | OpaqueTypeRepresentation | PrivateBuilderOperation
| PrivateExport | PrivateNameAccess | PrivateOnUnsupportedDeclaration | PrivateStdPrimitive
| PrivateTypeInPublicApi | JumpOutsideLoop | AliasArgumentCount | CyclicTypeAlias | DuplicateTypeParameter
| DuplicateUnionCase | InvalidTypeParameterName | TypeNameCase | UndeclaredLengthParameter | UndeclaredTypeVariable
| UnionCaseNameCase | UnusedTypeParameter | DefaultDeriveRecursive | DerivedInstanceInvalid | DerivingUnavailable
| DuplicateJsonName | JsonNameWithoutDeriving | UnderivableClass | ConstAggregateOperator | ConstAssignmentTarget
| ConstBorrowNotAllowed | ConstCallDepthLimit | ConstCalleeNotConst | ConstCheckedOperation | ConstConditionNotBool
| ConstCycle | ConstEvaluationTrapped | ConstExpressionNotAllowed | ConstForLoopForm | ConstFunctionValue
| ConstLimitExceeded | ConstNewCollectionForm | ConstOperationNotAllowed | ConstPartialApplication
| ConstPipeNotAllowed | ConstSignatureInvalid | ConstStaticDataTooLarge | ConstUnbuildableType
| ConstUnsupportedOperation | ConstantTypeNotConcrete | ClassContextNotAClass | InstanceCheckFailed
| InstanceContextVariable | InstanceMissingSuperclass | SuperclassCycle | SuperclassTypeVariable
| UndeclaredDefaultConstraint | UndeclaredInstanceConstraint | UnknownClassInContext | DynIncompatibleClass
| ImpureBuiltinForPureContract | ImpureCallbackForPureContract | ImpureOperationInPureDef | ImpurePureFunctionValue
| PureFunctionTypeParameterNotAllowed | PureImplementationPartialParameters | PureMethodMutableReference
| PureOnNonFunctionType | PureParameterNotAllowed | PureReturnedFunctionContract | PureSpecializationOwnParameter
| PureValueCapturesUnknownCallback | PureValueUnprovable | TypedHole | EffectAllocInNoAlloc | EffectCopyInNoCopy
| EffectDivergeInTerminates | EffectExternInAttribute | EffectTrapInNoTrap | EffectUnknownCallee
| EffectAttributeDuplicate | EffectAttributeMisplaced | EffectAttributeOnExtern | EffectAttributeUnavailable
| ContractEnsuresReferenceResult | ContractImpure | ContractMisplaced | ContractNotBool | ContractOldMisplaced
| ContractOldNested | ContractOldNotCopy | ContractOldOperand | ContractOnConst | ContractResultLambda
| ContractWrites | ProveCounterexample | ProveSolverError | ProveSolverMissing | ProveUnknown | ProveUnsupported
| CapabilityDenied | TrustedDuplicateProperty | TrustedRepeated | TrustedTypeProperty | TrustedUnknownProperty
| TrustedWrongTarget | DomainArgumentNotClosure | DomainBodyNotPure | DomainCaptureNotPlain
| DomainNotCalledDirectly | DomainResultNotPlain | DomainTargetUnsupported | MonoidFloatInstance | RemovedAsync
| RemovedNetAsync | RemovedTaskApi | RemovedTaskExpression | RemovedTaskType | RenamedToDataChannel
| AllocNeedsCountingAllocator | AuditUsage | BindgenAnnotationError | BindgenArgumentError | CannotDeriveNamespace
| DebugInfoWithoutSourceMap | DiagramBadOption | DiagramFormatUnsupported | DiagramNeedsId | DiagramTooLarge
| DiagramUnavailable | DiagramUnknownId | DiagramUnknownKind | DiagramUsage | DiagramWrongIdKind
| DuplicateLinkInput | DuplicateOption | EditionOptionWithManifest | EnvironmentSettingInvalid
| FastBackendUnavailable | FastBackendUnsupportedOption | FileNotFormatted | FindBadArguments | FindUnknownModule
| FixBadArguments | FixEditionUnsupported | FixEditionWithApplicability | FixMaybeNeedsDryRun
| ForeignTargetNotRunnable | FormatterChangedSemantics | FormatterInvalidOutput | GuideBadArguments
| GuideEditionUnsupported | GuideManifestMissing | GuideUnknownStdModule | GuideUnknownTopic | IndexOutOfRange
| InputCountInvalid | InputExtensionInvalid | InvalidLibraryName | InvalidNamespaceArgument | InvalidPublishGitRev
| InvalidPublishGitUrl | InvalidRangeFlagSetting | InvalidThreadSetting | InvalidTrapSourceMap | KgAmbiguousId
| KgUnknownId | LinkInputLimit | McpBadArguments | MissingInput | NativeLinkSettingNotAllowed
| NetAsyncNeedsBlockOn | NewProjectFolderNotEmpty | NewProjectIoFailure | NoSourcesFound | OptionConflict
| OptionInvalidForCommand | OptionInvalidValue | OptionMissingValue | OptionRequiresBuild | OptionRequiresOption
| OptionUnsupportedPlatform | OutputExtensionInvalid | ProjectManifestMissing | ProveUnknownFunction
| ReplCommandUsage | ReplDeclarationNotAllowed | ReplUnknownCommand | ScriptWrongFileKind
| TrapInfoWithoutSourceMap | UnknownExplainTarget | UnknownGitRevision | UnknownOption | UnknownTarget | UsageError
| WasmNetNeedsOptIn | WasmOsApiNeedsOptIn | WasmTestRunnerAsync | BuildServerControlFailed | BuildServerStartFailed
| ForeignRunnerNotStartable | InputNotRegularFile | InputNotUtf8 | InputPathNotUtf8 | InputTooLarge | IoFailure
| LinkInputUnreadable | ReplStreamFailure | TempDirectoryFailed | BindgenUnreadableAst | BindgenUnsupportedTarget
| BitcodeSymbolNotKept | ExternalToolFailed | ExternalToolNotRunnable | ExternalToolOutputTooLarge
| ExternalToolReadFailed | ExternalToolWaitFailed | FastBackendUnsupportedConstruct | InvalidCoverageCounters
| PlatformUnsupportedApi | TargetAttributesNotApplicable | TargetAttributesUnreadable | ToolchainMissingFeature
| BindgenOutputNotGenerated | DocFilenameCollision | DocOutputChanged | DocOutputContainsSources | DocOutputInvalid
| DocOutputNotOwned | DocPublicationFailed | FormatTargetNotRegularFile | OutputHasSourceExtension
| OutputNotRegularFile | OutputOverwritesInput | OutputOverwritesLinkInput | OutputPublicationFailed
| SourceChangedDuringFormatting | AmbiguousEntryPoint | BuilderFileToplevelCode | EntryPointMissing
| EntryPointResultType | InvalidMainSignature | SpirvKernelCount | ToplevelCodeOutsideMain | BenchmarkFailed
| ContractEnsures | ContractRequires | ProgramExitedNonzero | ProgramTerminated | ProgramTimeLimitExceeded
| DocTestFailed | TestsFailed | FileUrlAfterHttps | GitCaseCollision | GitCommandFailed | GitMissingManifest
| GitNonRegularEntry | GitSourceNotUtf8 | GitTreeUnreadable | GitUnsafePath | GitVersionUnsupported
| InvalidLockfile | LockfileChecksumMismatch | LockfileEntryMissing | LockfileMissing | LockfileNotRegularFile
| LockfileVersionMismatch | PackageFilesUnreadable | PackageNotDownloaded | PackageStoreUnavailable
| PackageStoreUnusable | PublishedPackageMismatch | RegistryChecksumMismatch | RegistryDependencyNotSelected
| RegistryEntryMismatch | RegistryIndexInvalid | RegistryIndexMissing | RegistryPackageMissing
| RegistryVersionMissing | FixSourceChanged | FixVerificationFailed | FixWriteFailed | MigrationEditionBackwards
| MigrationEditionMismatch | MigrationInvalidEdit | MigrationManifestUpdateFailed | MigrationSourceTooLarge
| MigrationWriteFailed | KgBroken | KgIncomplete | KgMissing | KgNotOurs | KgStale | McpIoFailed | McpRootUnusable
| McpWorkerFailed | DocExampleInvalid | UnusedLocal | UnusedPrivateFunction | UnusedPrivateType
| UnreachableMatchArm | ShadowedLocal | DeprecatedUse | ImplicitCopyOfLargeValue | BareRangeInFor | LegacyLambda
| ShortLiteralSuffix | SymbolicBorrow | SymbolicDeref | SymbolicReferenceType | EffectAttributeOnConstDef
| EffectAttributeUncheckedGeneric | ContractAlwaysTrue | ContractResultUnused | ContractTestSkipped
| UntrustedExtern | IntegerOverflowWrapped | ToolNotice | BindgenSkippedDeclaration.

Definition ALL : list DiagnosticKind := [
  BigintSuffixWithFraction; ByteLiteralNotAscii; ByteSuffixOnInterpolatedString; ByteSuffixOnUnsupportedLiteral;
  CharLiteralNotOneUnit; CommentInInterpolationHole; ExpectedDigit; FloatSuffixOnHexOrBinaryLiteral;
  FormatFieldOutOfRange; FormatPrecisionOnInteger; FormatTypeNeedsPrecision; InterpolationHoleSpansLines;
  InvalidFormatSpec; InvalidNumericLiteral; InvalidStringEscape; InvalidTypeVariableStart;
  InvalidUnicodeScalarEscape; NumericSeparatorMisplaced; RawNewlineInString; SingleClosingBraceInInterpolation;
  UnexpectedCharacter; UnterminatedBlockComment; UnterminatedInterpolationHole; UnterminatedStringLiteral;
  Utf8charNotOneScalar; AliasNameOnSameLine; AngleBracketSpacing; BuilderAliasIsContextualKeyword;
  BuilderAliasNameCase; CheckedLetRec; ClassNeedsOneTypeParameter; ComputationMatchWithoutArms;
  ComputationNestingTooDeep; ConstExportOrder; ConstraintLineIndentation; CpuAttributeOnConstDef;
  DefinitionWithoutSignature; DoBangOutsideTask; DuplicateBuilderAlias; DuplicateCapability; DuplicateCpuTarget;
  DuplicateJsonAttribute; DuplicateManifestKey; DynWithTypeArguments; EmptyInterpolationHole; EmptyRegionList;
  ExpectedBindingEnd; ExpectedBodyExpression; ExpectedBuilderAlias; ExpectedComputationBody; ExpectedCpuTarget;
  ExpectedDynClass; ExpectedExpression; ExpectedExpressionAfterAttribute; ExpectedIdentifier;
  ExpectedInterpolationClose; ExpectedKind; ExpectedLineBreak; ExpectedLinkNameString; ExpectedPattern;
  ExpectedSingleTypeArgument; ExpectedToken; ExpectedTypeClose; ExpectedUnionCaseName; ExpectedWhereBindings;
  ExportOnImplementation; ExpressionNestingTooDeep; ExternTypeWithBody; ExternTypeWithLinkName;
  ForLoopNeedsIdentifier; HeaderPathOnSameLine; HeaderPathSpacing; IntegerLiteralTooLarge; InvalidCapabilities;
  InvalidDependencyForm; InvalidDependencyNativeFlag; InvalidDependencyPath; InvalidFixedArrayLength;
  InvalidGitDependency; InvalidJsonAttribute; InvalidLinkNameText; InvalidNativeLibraryName; InvalidNativePath;
  InvalidNativeSection; InvalidPackageField; InvalidRegistryDependency; InvalidRegistrySetting; InvalidWasmSize;
  LambdaWithoutParameters; LengthParameterType; LetFunctionNeedsLambda; LetRecNeedsLambda; ListTypeWithLength;
  MalformedConstraintLine; MalformedMultiCaseActivePattern; MalformedNewCollection; ManifestSectionOrder;
  ManifestSyntaxError; MatchWithoutArms; MisplacedCheckedAttribute; MisplacedConstModifier; MisplacedCpuAttribute;
  MisplacedDocComment; MisplacedJsonAttribute; MisplacedNamespaceDeclaration; MisplacedRegionList;
  MisplacedUsingDeclaration; MissingCapabilitiesAllow; MissingPackageField; MissingRegistryIndex;
  ModuleDeclarationUnsupported; MutAsExpression; MutableLetRec; MutableUseBinding; NegativePatternNeedsNumber;
  PatternNestingTooDeep; PrefixKeywordOperand; RangeTakesOneStep; RecursiveLetBang; RecursiveWhereBinding;
  ReturnNotLastInComputation; ReturnOutsideTaskEnd; SelectArmExpected; SelectDefaultRepeated; SignatureUsesDef;
  SignatureUsesDoubleColon; SignatureWithoutDefinition; SliceMustBeBorrowed; SliceRangeNeedsEnd;
  SliceWithoutBounds; StrayAndMember; SyntaxNestingTooDeep; TooManyActivePatternCases; TooManyDynClasses;
  TooManyExternLinkNames; TooManyFunctionParameters; TooManyInterpolationHoles; TooManyLambdaParameters;
  TooManyTupleElements; TooManyTypeArguments; TypeParametersNeedAngleBrackets; TypedAndNeedsBody;
  UnknownCapability; UnknownCpuTarget; UnknownManifestKey; UnsupportedEdition; UseBangInAndGroup;
  UseBangOutsideComputation; WhereBindingIndentation; SourceTooLarge; BareRangeInForRejected; LegacyLambdaRejected;
  ShortLiteralSuffixRejected; SymbolicBorrowRejected; SymbolicDerefRejected; SymbolicReferenceTypeRejected;
  DuplicateAndBinding; DuplicateDerivedClass; DuplicateExportName; DuplicateExternDeclaration;
  DuplicateFunctionDefinition; DuplicateFunctionSignature; DuplicateName; ClassHasNoMethod; UnknownFunction;
  UnknownLengthConstant; UnknownModuleMember; UnknownUnionCase; UnknownValue; ActiveRecognizerResult;
  FixedArrayLiteralLength; FormatSpecTypeMismatch; FormatSpecTypeUnknown; IndexNotInteger; TypeMismatch;
  AmbiguousBuilderAlias; AmbiguousName; AmbiguousPatternName; DynNeedsTypeClass; EmptyListNeedsAnnotation;
  ExpectedLength; LengthUsedAsType; NotARecordType; RepeatedModuleName; StdItemMissing; TypeArgumentCount;
  TypeUsedAsLength; UnknownTypeName; AtomicElementType; CallNonFunction; CaptureExclusiveInReusableFunction;
  CaptureRcInFunctionValue; CaptureSyncPrimitiveInFunctionValue; CaptureUnsendableInFunctionValue;
  CollectionElementExclusiveBorrow; CpuFunctionWideVectorBoundary; DerefNonReference;
  ExclusiveSliceWholeArrayParameter; FixedArrayInitAnnotation; FixedSliceSource; ForOverFixedArray;
  ForSourceNotIterable; FunctionConstraintUnresolvable; FunctionConstraintUnsatisfied; IndexNonIndexable;
  InvalidLengthConstant; MisplacedMutConvention; MisplacedOwnConvention; MutParameterNeedsEdition2027;
  NewOnFixedArray; NoInstance; NoInstanceForOperator; NoWiderInteger; RangeAsValue; RecFunctionCapturesGeneric;
  RecordUpdateNonRecord; SharedContainerExclusiveBorrow; SimdLaneCountMismatch; SimdOperationVectorType;
  SliceNonArray; SliceOfFixedArray; StdRepresentationMismatch; UnsizedSliceTypePosition; UseRequiresDrop;
  ActivePatternArgumentCount; ActiveRecognizerParameters; DefinitionParameterCountMismatch;
  InstanceMethodParameterCount; OwnedFunctionParameterCount; TooManyArgumentsApplied; FieldAccessNonRecord;
  MissingRecordFields; RecordHasNoField; UnknownField; ConflictingExternDeclaration; ExportActiveRecognizer;
  ExportOnExternDeclaration; ExternCallbackArgument; ExternCallbackCallForm; ExternDeclarationConstraints;
  InvalidExternSymbol; InvalidWasmImportModule; ReservedExternSymbol; UnsupportedExportSignature;
  UnsupportedExternSignature; DecimalLiteralOutOfRange; FloatLiteralOutOfRange; FloatLiteralType;
  IntegerLiteralOutOfRange; IntegerLiteralType; InvalidBigintDigit; InvalidFloatLiteral; FixedArrayTooLong;
  InfiniteRecursiveLayout; LayoutNestingLimit; RecursiveUnionWithoutBaseCase; ValueLayoutTooLarge;
  AmbiguousPackageRoot; ConflictingDependencySource; CyclicPackageDependency; DependencyKindNotAllowed;
  DependencyNameMismatch; DependencyPathNotRelative; DuplicateDependency; DuplicateModule;
  IncompatibleDependencyVersions; InvalidModuleFilename; InvalidModuleName; InvalidPackageName;
  InvalidPackageNamespace; InvalidPublishVersion; InvalidSourcePath; InvalidStdPath; InvalidUsingDeclaration;
  ManifestNotRegularFile; ModuleNamespaceCollision; ModuleSourceNotRegularFile; PublishNonRegistryDependency;
  ReservedPackageNamespace; ReservedStdNamespace; SourceFilenameCaseMismatch; SourceOutsidePackageRoot;
  SourceWithoutFilename; SymlinkNotFollowed; AssignToImmutablePlace; DropPassExclusiveValue; DropReplaceWholeValue;
  MoveOutOfCollectionElement; MoveOutOfDropType; MoveOutOfOwnedFunction; MoveOutOfRecFunction;
  MoveOutOfReferenceBinding; UpdateDropTypeValue; UseAfterMove; AssignmentExtendsBorrow; BorrowAcrossAsyncBoundary;
  BorrowFieldWithoutRegion; BorrowOfTemporary; BorrowOutlivesBinding; BorrowOutlivesBlock; BorrowedUnionPayload;
  CallbackContractUnsatisfied; ChannelItemHoldsBorrow; ConstTemporaryBorrowEscapes; DynHoldsBorrowWithoutRegion;
  DynHoldsExclusiveBorrow; ExclusiveBorrowBehindRegion; ExclusiveBorrowFieldShape; ExclusiveFieldRegionsMissing;
  ExclusiveFieldWithoutRegion; ExclusiveRegionReused; FieldMixesRegions; InvalidRegionNames;
  MisplacedRegionQuantifier; MultipleRegionsOnValue; MustApplyDirectly; MutableRecordField;
  MutableRegionQuantifiedParameter; MutexResultRetainsBorrow; NamedRegionInFunctionType; NamedRegionInLocal;
  NestedBorrowUnsupported; OwnedFunctionCapturesReference; ParallelCallbackBorrowsEnvironment;
  ParallelInputBorrowsEnvironment; ParallelResultRetainsBorrow; ReferenceRegionCount; ReferenceWithoutOwner;
  RegionAlreadyDeclared; RegionBelongsToFunction; RegionCallbackStoresExclusiveInput; RegionCountMismatch;
  RegionOnNonBorrow; RegionQuantifierTarget; ResultRegionMismatch; ResultRegionMissing; ResultRegionWithoutInput;
  SelfReferentialStore; StoreLocalBorrowThroughReference; StoreRegionMismatch; StoreRegionUnnamed;
  TaskCaptureRetainsBorrow; TaskRequiresOwnedValue; TaskRequiresSend; TaskRequiresSync; TaskResultIsReference;
  TaskResultRetainsBorrow; TaskScopeSharesBorrowedEnvironment; UndeclaredRegion; UnionPayloadExclusiveBorrow;
  UnusedRegion; ActivePatternMutatesInput; BorrowConflict; ExclusiveSliceSource; MoveReborrowedExclusiveReference;
  MutateImmutableValue; MutateThroughSharedReference; ReplaceExclusiveSlice; AmbiguousPolymorphicUse;
  ConcreteIntegerRequired; ConcreteTypeRequired; ConstructorKindMismatch; ConstructorVariableKindAnnotation;
  DynDispatchResultType; DynOfArity; DynOfNeedsExpectedType; ExpectedTypeConstructor; ExternSignatureNotConcrete;
  ExternTypeAsConstructor; FixedArrayLengthUnknown; HigherKindedAlias; HigherOrderKindArgument;
  InfiniteInferredType; InstanceHeadNotConstructor; InternalCompactStringRuntime; InternalRecBindingNotLambda;
  InternalRecGroupUnbound; InternalRecNotBoundByBlock; InternalUnlowerableIr; MissingTypeArguments;
  PolymorphicEntryPoint; RefOperandInferredLate; ScalarAsTypeConstructor; SimdVectorTypeUnknown;
  SuperclassKindMismatch; TypeConstructorNotApplied; TypeVariableAbsentFromSignature; TypeVariableKindConflict;
  BuiltinInstanceOverride; ClassConstraintArity; ClassMethodConstraint; ClassMethodTypeVariable;
  ClassWithoutMethods; DefaultBodyUnknownMethod; DropInstanceConstraint; DropInstanceGeneric; DropInstanceTarget;
  ExplicitDropCall; FieldTypeConstraint; FormatInstanceTarget; InstanceMissingMethod; InstanceUnknownMethod;
  InternalEffectiveApiUnavailable; MissingExplicitConstraint; OverlappingInstance; UnknownTypeClass;
  AndGroupTooLarge; CapabilityAnalysisLimit; ClassConstraintLimit; ContractLineLimit; DerivingExpressionLimit;
  DerivingInstanceLimit; DocExampleLimit; EffectSummaryLimit; ExhaustivenessSearchLimit; FixCandidateLimit;
  FunctionConstraintLimit; GitDependencyTooLarge; GpuEffectAnalysisLimit; GpuKernelLimit; HeaderPathTooLong;
  InstanceOverlapLimit; InstanceResolutionCycle; InstanceResolutionLimit; LockfileTooLarge; LoopOwnershipLimit;
  ManifestTooLarge; ModuleDiscoveryLimit; ModulePathLimit; NamespacePathTooLong; OrPatternAlternativesLimit;
  PackageGraphLimit; PatternAlternativesLimit; PolymorphicConstraintLimit; PolymorphicRecursionGrowth;
  PolymorphicTypeExpansionLimit; ProveLimit; PureCallbackProofLimit; PureDefinitionReachLimit;
  PureValueValidationLimit; QualifiedNameTooLong; RecursiveTypeChangesArguments; RecursiveTypeExpansionLimit;
  RegistryIndexTooLarge; RegistryResolutionLimit; SelectArmLimit; SequenceLoopDepthLimit; SpecializationLimit;
  SuperclassResolutionLimit; TooManyDependencies; TooManyLoopExits; TooManyOverflowSites; TooManyRaisePoints;
  TooManyRecordRegions; TooManyRegionParameters; TooManyTrapLocations; TypeAliasExpansionLimit;
  AliasOutsideBuilderFile; BenchClockOutsideBench; BuilderMissingOperation; BuilderWithoutOperations;
  CannotInferBuilder; ClassOutsideClassFile; ComputationWithoutBuilder; DeclarationInClassFile;
  GpuBufferElementType; GpuCallbackNotKnown; GpuKernelEffect; GpuKernelMissing; GpuKernelRecursion;
  GpuKernelSignature; GpuOperationNotDirect; GpuUnsupportedConstruct; GpuUnsupportedOperator; GpuUnsupportedType;
  ImplicitTaskNeedsBuilder; NoBuilderForValue; StdDeclaresTest; StdExportsFunction; UnknownComputationBuilder;
  AndWithoutRecursiveGroup; MismatchedRecursiveGroup; MissingRecMarker; ActiveArgumentNotValue;
  ActivePatternCaseCount; ActivePatternCaseName; ArrayPatternOnFixedArray; CasePatternMissingPayload;
  CasePatternPayloadShape; CasePatternUnexpectedPayload; DuplicateActivePatternCase; ExpressionInPattern;
  MultiCaseActivePatternResultType; NullPattern; OrPatternBindingMismatch; PartialActivePatternCaseCount;
  QualifiedPatternBinding; RecordPatternUnknownType; ReservedActiveResultVariable; UnknownCaseOrActivePattern;
  NonExhaustiveMatch; OpaqueTypeRepresentation; PrivateBuilderOperation; PrivateExport; PrivateNameAccess;
  PrivateOnUnsupportedDeclaration; PrivateStdPrimitive; PrivateTypeInPublicApi; JumpOutsideLoop;
  AliasArgumentCount; CyclicTypeAlias; DuplicateTypeParameter; DuplicateUnionCase; InvalidTypeParameterName;
  TypeNameCase; UndeclaredLengthParameter; UndeclaredTypeVariable; UnionCaseNameCase; UnusedTypeParameter;
  DefaultDeriveRecursive; DerivedInstanceInvalid; DerivingUnavailable; DuplicateJsonName; JsonNameWithoutDeriving;
  UnderivableClass; ConstAggregateOperator; ConstAssignmentTarget; ConstBorrowNotAllowed; ConstCallDepthLimit;
  ConstCalleeNotConst; ConstCheckedOperation; ConstConditionNotBool; ConstCycle; ConstEvaluationTrapped;
  ConstExpressionNotAllowed; ConstForLoopForm; ConstFunctionValue; ConstLimitExceeded; ConstNewCollectionForm;
  ConstOperationNotAllowed; ConstPartialApplication; ConstPipeNotAllowed; ConstSignatureInvalid;
  ConstStaticDataTooLarge; ConstUnbuildableType; ConstUnsupportedOperation; ConstantTypeNotConcrete;
  ClassContextNotAClass; InstanceCheckFailed; InstanceContextVariable; InstanceMissingSuperclass; SuperclassCycle;
  SuperclassTypeVariable; UndeclaredDefaultConstraint; UndeclaredInstanceConstraint; UnknownClassInContext;
  DynIncompatibleClass; ImpureBuiltinForPureContract; ImpureCallbackForPureContract; ImpureOperationInPureDef;
  ImpurePureFunctionValue; PureFunctionTypeParameterNotAllowed; PureImplementationPartialParameters;
  PureMethodMutableReference; PureOnNonFunctionType; PureParameterNotAllowed; PureReturnedFunctionContract;
  PureSpecializationOwnParameter; PureValueCapturesUnknownCallback; PureValueUnprovable; TypedHole;
  EffectAllocInNoAlloc; EffectCopyInNoCopy; EffectDivergeInTerminates; EffectExternInAttribute; EffectTrapInNoTrap;
  EffectUnknownCallee; EffectAttributeDuplicate; EffectAttributeMisplaced; EffectAttributeOnExtern;
  EffectAttributeUnavailable; ContractEnsuresReferenceResult; ContractImpure; ContractMisplaced; ContractNotBool;
  ContractOldMisplaced; ContractOldNested; ContractOldNotCopy; ContractOldOperand; ContractOnConst;
  ContractResultLambda; ContractWrites; ProveCounterexample; ProveSolverError; ProveSolverMissing; ProveUnknown;
  ProveUnsupported; CapabilityDenied; TrustedDuplicateProperty; TrustedRepeated; TrustedTypeProperty;
  TrustedUnknownProperty; TrustedWrongTarget; DomainArgumentNotClosure; DomainBodyNotPure; DomainCaptureNotPlain;
  DomainNotCalledDirectly; DomainResultNotPlain; DomainTargetUnsupported; MonoidFloatInstance; RemovedAsync;
  RemovedNetAsync; RemovedTaskApi; RemovedTaskExpression; RemovedTaskType; RenamedToDataChannel;
  AllocNeedsCountingAllocator; AuditUsage; BindgenAnnotationError; BindgenArgumentError; CannotDeriveNamespace;
  DebugInfoWithoutSourceMap; DiagramBadOption; DiagramFormatUnsupported; DiagramNeedsId; DiagramTooLarge;
  DiagramUnavailable; DiagramUnknownId; DiagramUnknownKind; DiagramUsage; DiagramWrongIdKind; DuplicateLinkInput;
  DuplicateOption; EditionOptionWithManifest; EnvironmentSettingInvalid; FastBackendUnavailable;
  FastBackendUnsupportedOption; FileNotFormatted; FindBadArguments; FindUnknownModule; FixBadArguments;
  FixEditionUnsupported; FixEditionWithApplicability; FixMaybeNeedsDryRun; ForeignTargetNotRunnable;
  FormatterChangedSemantics; FormatterInvalidOutput; GuideBadArguments; GuideEditionUnsupported;
  GuideManifestMissing; GuideUnknownStdModule; GuideUnknownTopic; IndexOutOfRange; InputCountInvalid;
  InputExtensionInvalid; InvalidLibraryName; InvalidNamespaceArgument; InvalidPublishGitRev; InvalidPublishGitUrl;
  InvalidRangeFlagSetting; InvalidThreadSetting; InvalidTrapSourceMap; KgAmbiguousId; KgUnknownId; LinkInputLimit;
  McpBadArguments; MissingInput; NativeLinkSettingNotAllowed; NetAsyncNeedsBlockOn; NewProjectFolderNotEmpty;
  NewProjectIoFailure; NoSourcesFound; OptionConflict; OptionInvalidForCommand; OptionInvalidValue;
  OptionMissingValue; OptionRequiresBuild; OptionRequiresOption; OptionUnsupportedPlatform; OutputExtensionInvalid;
  ProjectManifestMissing; ProveUnknownFunction; ReplCommandUsage; ReplDeclarationNotAllowed; ReplUnknownCommand;
  ScriptWrongFileKind; TrapInfoWithoutSourceMap; UnknownExplainTarget; UnknownGitRevision; UnknownOption;
  UnknownTarget; UsageError; WasmNetNeedsOptIn; WasmOsApiNeedsOptIn; WasmTestRunnerAsync; BuildServerControlFailed;
  BuildServerStartFailed; ForeignRunnerNotStartable; InputNotRegularFile; InputNotUtf8; InputPathNotUtf8;
  InputTooLarge; IoFailure; LinkInputUnreadable; ReplStreamFailure; TempDirectoryFailed; BindgenUnreadableAst;
  BindgenUnsupportedTarget; BitcodeSymbolNotKept; ExternalToolFailed; ExternalToolNotRunnable;
  ExternalToolOutputTooLarge; ExternalToolReadFailed; ExternalToolWaitFailed; FastBackendUnsupportedConstruct;
  InvalidCoverageCounters; PlatformUnsupportedApi; TargetAttributesNotApplicable; TargetAttributesUnreadable;
  ToolchainMissingFeature; BindgenOutputNotGenerated; DocFilenameCollision; DocOutputChanged;
  DocOutputContainsSources; DocOutputInvalid; DocOutputNotOwned; DocPublicationFailed; FormatTargetNotRegularFile;
  OutputHasSourceExtension; OutputNotRegularFile; OutputOverwritesInput; OutputOverwritesLinkInput;
  OutputPublicationFailed; SourceChangedDuringFormatting; AmbiguousEntryPoint; BuilderFileToplevelCode;
  EntryPointMissing; EntryPointResultType; InvalidMainSignature; SpirvKernelCount; ToplevelCodeOutsideMain;
  BenchmarkFailed; ContractEnsures; ContractRequires; ProgramExitedNonzero; ProgramTerminated;
  ProgramTimeLimitExceeded; DocTestFailed; TestsFailed; FileUrlAfterHttps; GitCaseCollision; GitCommandFailed;
  GitMissingManifest; GitNonRegularEntry; GitSourceNotUtf8; GitTreeUnreadable; GitUnsafePath;
  GitVersionUnsupported; InvalidLockfile; LockfileChecksumMismatch; LockfileEntryMissing; LockfileMissing;
  LockfileNotRegularFile; LockfileVersionMismatch; PackageFilesUnreadable; PackageNotDownloaded;
  PackageStoreUnavailable; PackageStoreUnusable; PublishedPackageMismatch; RegistryChecksumMismatch;
  RegistryDependencyNotSelected; RegistryEntryMismatch; RegistryIndexInvalid; RegistryIndexMissing;
  RegistryPackageMissing; RegistryVersionMissing; FixSourceChanged; FixVerificationFailed; FixWriteFailed;
  MigrationEditionBackwards; MigrationEditionMismatch; MigrationInvalidEdit; MigrationManifestUpdateFailed;
  MigrationSourceTooLarge; MigrationWriteFailed; KgBroken; KgIncomplete; KgMissing; KgNotOurs; KgStale;
  McpIoFailed; McpRootUnusable; McpWorkerFailed; DocExampleInvalid; UnusedLocal; UnusedPrivateFunction;
  UnusedPrivateType; UnreachableMatchArm; ShadowedLocal; DeprecatedUse; ImplicitCopyOfLargeValue; BareRangeInFor;
  LegacyLambda; ShortLiteralSuffix; SymbolicBorrow; SymbolicDeref; SymbolicReferenceType;
  EffectAttributeOnConstDef; EffectAttributeUncheckedGeneric; ContractAlwaysTrue; ContractResultUnused;
  ContractTestSkipped; UntrustedExtern; IntegerOverflowWrapped; ToolNotice; BindgenSkippedDeclaration].

(** [id] *)
Definition kind_id (kind : DiagnosticKind) : string :=
  match kind with
  | BigintSuffixWithFraction => "bigint_suffix_with_fraction"
  | ByteLiteralNotAscii => "byte_literal_not_ascii"
  | ByteSuffixOnInterpolatedString => "byte_suffix_on_interpolated_string"
  | ByteSuffixOnUnsupportedLiteral => "byte_suffix_on_unsupported_literal"
  | CharLiteralNotOneUnit => "char_literal_not_one_unit"
  | CommentInInterpolationHole => "comment_in_interpolation_hole"
  | ExpectedDigit => "expected_digit"
  | FloatSuffixOnHexOrBinaryLiteral => "float_suffix_on_hex_or_binary_literal"
  | FormatFieldOutOfRange => "format_field_out_of_range"
  | FormatPrecisionOnInteger => "format_precision_on_integer"
  | FormatTypeNeedsPrecision => "format_type_needs_precision"
  | InterpolationHoleSpansLines => "interpolation_hole_spans_lines"
  | InvalidFormatSpec => "invalid_format_spec"
  | InvalidNumericLiteral => "invalid_numeric_literal"
  | InvalidStringEscape => "invalid_string_escape"
  | InvalidTypeVariableStart => "invalid_type_variable_start"
  | InvalidUnicodeScalarEscape => "invalid_unicode_scalar_escape"
  | NumericSeparatorMisplaced => "numeric_separator_misplaced"
  | RawNewlineInString => "raw_newline_in_string"
  | SingleClosingBraceInInterpolation => "single_closing_brace_in_interpolation"
  | UnexpectedCharacter => "unexpected_character"
  | UnterminatedBlockComment => "unterminated_block_comment"
  | UnterminatedInterpolationHole => "unterminated_interpolation_hole"
  | UnterminatedStringLiteral => "unterminated_string_literal"
  | Utf8charNotOneScalar => "utf8char_not_one_scalar"
  | AliasNameOnSameLine => "alias_name_on_same_line"
  | AngleBracketSpacing => "angle_bracket_spacing"
  | BuilderAliasIsContextualKeyword => "builder_alias_is_contextual_keyword"
  | BuilderAliasNameCase => "builder_alias_name_case"
  | CheckedLetRec => "checked_let_rec"
  | ClassNeedsOneTypeParameter => "class_needs_one_type_parameter"
  | ComputationMatchWithoutArms => "computation_match_without_arms"
  | ComputationNestingTooDeep => "computation_nesting_too_deep"
  | ConstExportOrder => "const_export_order"
  | ConstraintLineIndentation => "constraint_line_indentation"
  | CpuAttributeOnConstDef => "cpu_attribute_on_const_def"
  | DefinitionWithoutSignature => "definition_without_signature"
  | DoBangOutsideTask => "do_bang_outside_task"
  | DuplicateBuilderAlias => "duplicate_builder_alias"
  | DuplicateCapability => "duplicate_capability"
  | DuplicateCpuTarget => "duplicate_cpu_target"
  | DuplicateJsonAttribute => "duplicate_json_attribute"
  | DuplicateManifestKey => "duplicate_manifest_key"
  | DynWithTypeArguments => "dyn_with_type_arguments"
  | EmptyInterpolationHole => "empty_interpolation_hole"
  | EmptyRegionList => "empty_region_list"
  | ExpectedBindingEnd => "expected_binding_end"
  | ExpectedBodyExpression => "expected_body_expression"
  | ExpectedBuilderAlias => "expected_builder_alias"
  | ExpectedComputationBody => "expected_computation_body"
  | ExpectedCpuTarget => "expected_cpu_target"
  | ExpectedDynClass => "expected_dyn_class"
  | ExpectedExpression => "expected_expression"
  | ExpectedExpressionAfterAttribute => "expected_expression_after_attribute"
  | ExpectedIdentifier => "expected_identifier"
  | ExpectedInterpolationClose => "expected_interpolation_close"
  | ExpectedKind => "expected_kind"
  | ExpectedLineBreak => "expected_line_break"
  | ExpectedLinkNameString => "expected_link_name_string"
  | ExpectedPattern => "expected_pattern"
  | ExpectedSingleTypeArgument => "expected_single_type_argument"
  | ExpectedToken => "expected_token"
  | ExpectedTypeClose => "expected_type_close"
  | ExpectedUnionCaseName => "expected_union_case_name"
  | ExpectedWhereBindings => "expected_where_bindings"
  | ExportOnImplementation => "export_on_implementation"
  | ExpressionNestingTooDeep => "expression_nesting_too_deep"
  | ExternTypeWithBody => "extern_type_with_body"
  | ExternTypeWithLinkName => "extern_type_with_link_name"
  | ForLoopNeedsIdentifier => "for_loop_needs_identifier"
  | HeaderPathOnSameLine => "header_path_on_same_line"
  | HeaderPathSpacing => "header_path_spacing"
  | IntegerLiteralTooLarge => "integer_literal_too_large"
  | InvalidCapabilities => "invalid_capabilities"
  | InvalidDependencyForm => "invalid_dependency_form"
  | InvalidDependencyNativeFlag => "invalid_dependency_native_flag"
  | InvalidDependencyPath => "invalid_dependency_path"
  | InvalidFixedArrayLength => "invalid_fixed_array_length"
  | InvalidGitDependency => "invalid_git_dependency"
  | InvalidJsonAttribute => "invalid_json_attribute"
  | InvalidLinkNameText => "invalid_link_name_text"
  | InvalidNativeLibraryName => "invalid_native_library_name"
  | InvalidNativePath => "invalid_native_path"
  | InvalidNativeSection => "invalid_native_section"
  | InvalidPackageField => "invalid_package_field"
  | InvalidRegistryDependency => "invalid_registry_dependency"
  | InvalidRegistrySetting => "invalid_registry_setting"
  | InvalidWasmSize => "invalid_wasm_size"
  | LambdaWithoutParameters => "lambda_without_parameters"
  | LengthParameterType => "length_parameter_type"
  | LetFunctionNeedsLambda => "let_function_needs_lambda"
  | LetRecNeedsLambda => "let_rec_needs_lambda"
  | ListTypeWithLength => "list_type_with_length"
  | MalformedConstraintLine => "malformed_constraint_line"
  | MalformedMultiCaseActivePattern => "malformed_multi_case_active_pattern"
  | MalformedNewCollection => "malformed_new_collection"
  | ManifestSectionOrder => "manifest_section_order"
  | ManifestSyntaxError => "manifest_syntax_error"
  | MatchWithoutArms => "match_without_arms"
  | MisplacedCheckedAttribute => "misplaced_checked_attribute"
  | MisplacedConstModifier => "misplaced_const_modifier"
  | MisplacedCpuAttribute => "misplaced_cpu_attribute"
  | MisplacedDocComment => "misplaced_doc_comment"
  | MisplacedJsonAttribute => "misplaced_json_attribute"
  | MisplacedNamespaceDeclaration => "misplaced_namespace_declaration"
  | MisplacedRegionList => "misplaced_region_list"
  | MisplacedUsingDeclaration => "misplaced_using_declaration"
  | MissingCapabilitiesAllow => "missing_capabilities_allow"
  | MissingPackageField => "missing_package_field"
  | MissingRegistryIndex => "missing_registry_index"
  | ModuleDeclarationUnsupported => "module_declaration_unsupported"
  | MutAsExpression => "mut_as_expression"
  | MutableLetRec => "mutable_let_rec"
  | MutableUseBinding => "mutable_use_binding"
  | NegativePatternNeedsNumber => "negative_pattern_needs_number"
  | PatternNestingTooDeep => "pattern_nesting_too_deep"
  | PrefixKeywordOperand => "prefix_keyword_operand"
  | RangeTakesOneStep => "range_takes_one_step"
  | RecursiveLetBang => "recursive_let_bang"
  | RecursiveWhereBinding => "recursive_where_binding"
  | ReturnNotLastInComputation => "return_not_last_in_computation"
  | ReturnOutsideTaskEnd => "return_outside_task_end"
  | SelectArmExpected => "select_arm_expected"
  | SelectDefaultRepeated => "select_default_repeated"
  | SignatureUsesDef => "signature_uses_def"
  | SignatureUsesDoubleColon => "signature_uses_double_colon"
  | SignatureWithoutDefinition => "signature_without_definition"
  | SliceMustBeBorrowed => "slice_must_be_borrowed"
  | SliceRangeNeedsEnd => "slice_range_needs_end"
  | SliceWithoutBounds => "slice_without_bounds"
  | StrayAndMember => "stray_and_member"
  | SyntaxNestingTooDeep => "syntax_nesting_too_deep"
  | TooManyActivePatternCases => "too_many_active_pattern_cases"
  | TooManyDynClasses => "too_many_dyn_classes"
  | TooManyExternLinkNames => "too_many_extern_link_names"
  | TooManyFunctionParameters => "too_many_function_parameters"
  | TooManyInterpolationHoles => "too_many_interpolation_holes"
  | TooManyLambdaParameters => "too_many_lambda_parameters"
  | TooManyTupleElements => "too_many_tuple_elements"
  | TooManyTypeArguments => "too_many_type_arguments"
  | TypeParametersNeedAngleBrackets => "type_parameters_need_angle_brackets"
  | TypedAndNeedsBody => "typed_and_needs_body"
  | UnknownCapability => "unknown_capability"
  | UnknownCpuTarget => "unknown_cpu_target"
  | UnknownManifestKey => "unknown_manifest_key"
  | UnsupportedEdition => "unsupported_edition"
  | UseBangInAndGroup => "use_bang_in_and_group"
  | UseBangOutsideComputation => "use_bang_outside_computation"
  | WhereBindingIndentation => "where_binding_indentation"
  | SourceTooLarge => "source_too_large"
  | BareRangeInForRejected => "bare_range_in_for_rejected"
  | LegacyLambdaRejected => "legacy_lambda_rejected"
  | ShortLiteralSuffixRejected => "short_literal_suffix_rejected"
  | SymbolicBorrowRejected => "symbolic_borrow_rejected"
  | SymbolicDerefRejected => "symbolic_deref_rejected"
  | SymbolicReferenceTypeRejected => "symbolic_reference_type_rejected"
  | DuplicateAndBinding => "duplicate_and_binding"
  | DuplicateDerivedClass => "duplicate_derived_class"
  | DuplicateExportName => "duplicate_export_name"
  | DuplicateExternDeclaration => "duplicate_extern_declaration"
  | DuplicateFunctionDefinition => "duplicate_function_definition"
  | DuplicateFunctionSignature => "duplicate_function_signature"
  | DuplicateName => "duplicate_name"
  | ClassHasNoMethod => "class_has_no_method"
  | UnknownFunction => "unknown_function"
  | UnknownLengthConstant => "unknown_length_constant"
  | UnknownModuleMember => "unknown_module_member"
  | UnknownUnionCase => "unknown_union_case"
  | UnknownValue => "unknown_value"
  | ActiveRecognizerResult => "active_recognizer_result"
  | FixedArrayLiteralLength => "fixed_array_literal_length"
  | FormatSpecTypeMismatch => "format_spec_type_mismatch"
  | FormatSpecTypeUnknown => "format_spec_type_unknown"
  | IndexNotInteger => "index_not_integer"
  | TypeMismatch => "type_mismatch"
  | AmbiguousBuilderAlias => "ambiguous_builder_alias"
  | AmbiguousName => "ambiguous_name"
  | AmbiguousPatternName => "ambiguous_pattern_name"
  | DynNeedsTypeClass => "dyn_needs_type_class"
  | EmptyListNeedsAnnotation => "empty_list_needs_annotation"
  | ExpectedLength => "expected_length"
  | LengthUsedAsType => "length_used_as_type"
  | NotARecordType => "not_a_record_type"
  | RepeatedModuleName => "repeated_module_name"
  | StdItemMissing => "std_item_missing"
  | TypeArgumentCount => "type_argument_count"
  | TypeUsedAsLength => "type_used_as_length"
  | UnknownTypeName => "unknown_type_name"
  | AtomicElementType => "atomic_element_type"
  | CallNonFunction => "call_non_function"
  | CaptureExclusiveInReusableFunction => "capture_exclusive_in_reusable_function"
  | CaptureRcInFunctionValue => "capture_rc_in_function_value"
  | CaptureSyncPrimitiveInFunctionValue => "capture_sync_primitive_in_function_value"
  | CaptureUnsendableInFunctionValue => "capture_unsendable_in_function_value"
  | CollectionElementExclusiveBorrow => "collection_element_exclusive_borrow"
  | CpuFunctionWideVectorBoundary => "cpu_function_wide_vector_boundary"
  | DerefNonReference => "deref_non_reference"
  | ExclusiveSliceWholeArrayParameter => "exclusive_slice_whole_array_parameter"
  | FixedArrayInitAnnotation => "fixed_array_init_annotation"
  | FixedSliceSource => "fixed_slice_source"
  | ForOverFixedArray => "for_over_fixed_array"
  | ForSourceNotIterable => "for_source_not_iterable"
  | FunctionConstraintUnresolvable => "function_constraint_unresolvable"
  | FunctionConstraintUnsatisfied => "function_constraint_unsatisfied"
  | IndexNonIndexable => "index_non_indexable"
  | InvalidLengthConstant => "invalid_length_constant"
  | MisplacedMutConvention => "misplaced_mut_convention"
  | MisplacedOwnConvention => "misplaced_own_convention"
  | MutParameterNeedsEdition2027 => "mut_parameter_needs_edition_2027"
  | NewOnFixedArray => "new_on_fixed_array"
  | NoInstance => "no_instance"
  | NoInstanceForOperator => "no_instance_for_operator"
  | NoWiderInteger => "no_wider_integer"
  | RangeAsValue => "range_as_value"
  | RecFunctionCapturesGeneric => "rec_function_captures_generic"
  | RecordUpdateNonRecord => "record_update_non_record"
  | SharedContainerExclusiveBorrow => "shared_container_exclusive_borrow"
  | SimdLaneCountMismatch => "simd_lane_count_mismatch"
  | SimdOperationVectorType => "simd_operation_vector_type"
  | SliceNonArray => "slice_non_array"
  | SliceOfFixedArray => "slice_of_fixed_array"
  | StdRepresentationMismatch => "std_representation_mismatch"
  | UnsizedSliceTypePosition => "unsized_slice_type_position"
  | UseRequiresDrop => "use_requires_drop"
  | ActivePatternArgumentCount => "active_pattern_argument_count"
  | ActiveRecognizerParameters => "active_recognizer_parameters"
  | DefinitionParameterCountMismatch => "definition_parameter_count_mismatch"
  | InstanceMethodParameterCount => "instance_method_parameter_count"
  | OwnedFunctionParameterCount => "owned_function_parameter_count"
  | TooManyArgumentsApplied => "too_many_arguments_applied"
  | FieldAccessNonRecord => "field_access_non_record"
  | MissingRecordFields => "missing_record_fields"
  | RecordHasNoField => "record_has_no_field"
  | UnknownField => "unknown_field"
  | ConflictingExternDeclaration => "conflicting_extern_declaration"
  | ExportActiveRecognizer => "export_active_recognizer"
  | ExportOnExternDeclaration => "export_on_extern_declaration"
  | ExternCallbackArgument => "extern_callback_argument"
  | ExternCallbackCallForm => "extern_callback_call_form"
  | ExternDeclarationConstraints => "extern_declaration_constraints"
  | InvalidExternSymbol => "invalid_extern_symbol"
  | InvalidWasmImportModule => "invalid_wasm_import_module"
  | ReservedExternSymbol => "reserved_extern_symbol"
  | UnsupportedExportSignature => "unsupported_export_signature"
  | UnsupportedExternSignature => "unsupported_extern_signature"
  | DecimalLiteralOutOfRange => "decimal_literal_out_of_range"
  | FloatLiteralOutOfRange => "float_literal_out_of_range"
  | FloatLiteralType => "float_literal_type"
  | IntegerLiteralOutOfRange => "integer_literal_out_of_range"
  | IntegerLiteralType => "integer_literal_type"
  | InvalidBigintDigit => "invalid_bigint_digit"
  | InvalidFloatLiteral => "invalid_float_literal"
  | FixedArrayTooLong => "fixed_array_too_long"
  | InfiniteRecursiveLayout => "infinite_recursive_layout"
  | LayoutNestingLimit => "layout_nesting_limit"
  | RecursiveUnionWithoutBaseCase => "recursive_union_without_base_case"
  | ValueLayoutTooLarge => "value_layout_too_large"
  | AmbiguousPackageRoot => "ambiguous_package_root"
  | ConflictingDependencySource => "conflicting_dependency_source"
  | CyclicPackageDependency => "cyclic_package_dependency"
  | DependencyKindNotAllowed => "dependency_kind_not_allowed"
  | DependencyNameMismatch => "dependency_name_mismatch"
  | DependencyPathNotRelative => "dependency_path_not_relative"
  | DuplicateDependency => "duplicate_dependency"
  | DuplicateModule => "duplicate_module"
  | IncompatibleDependencyVersions => "incompatible_dependency_versions"
  | InvalidModuleFilename => "invalid_module_filename"
  | InvalidModuleName => "invalid_module_name"
  | InvalidPackageName => "invalid_package_name"
  | InvalidPackageNamespace => "invalid_package_namespace"
  | InvalidPublishVersion => "invalid_publish_version"
  | InvalidSourcePath => "invalid_source_path"
  | InvalidStdPath => "invalid_std_path"
  | InvalidUsingDeclaration => "invalid_using_declaration"
  | ManifestNotRegularFile => "manifest_not_regular_file"
  | ModuleNamespaceCollision => "module_namespace_collision"
  | ModuleSourceNotRegularFile => "module_source_not_regular_file"
  | PublishNonRegistryDependency => "publish_non_registry_dependency"
  | ReservedPackageNamespace => "reserved_package_namespace"
  | ReservedStdNamespace => "reserved_std_namespace"
  | SourceFilenameCaseMismatch => "source_filename_case_mismatch"
  | SourceOutsidePackageRoot => "source_outside_package_root"
  | SourceWithoutFilename => "source_without_filename"
  | SymlinkNotFollowed => "symlink_not_followed"
  | AssignToImmutablePlace => "assign_to_immutable_place"
  | DropPassExclusiveValue => "drop_pass_exclusive_value"
  | DropReplaceWholeValue => "drop_replace_whole_value"
  | MoveOutOfCollectionElement => "move_out_of_collection_element"
  | MoveOutOfDropType => "move_out_of_drop_type"
  | MoveOutOfOwnedFunction => "move_out_of_owned_function"
  | MoveOutOfRecFunction => "move_out_of_rec_function"
  | MoveOutOfReferenceBinding => "move_out_of_reference_binding"
  | UpdateDropTypeValue => "update_drop_type_value"
  | UseAfterMove => "use_after_move"
  | AssignmentExtendsBorrow => "assignment_extends_borrow"
  | BorrowAcrossAsyncBoundary => "borrow_across_async_boundary"
  | BorrowFieldWithoutRegion => "borrow_field_without_region"
  | BorrowOfTemporary => "borrow_of_temporary"
  | BorrowOutlivesBinding => "borrow_outlives_binding"
  | BorrowOutlivesBlock => "borrow_outlives_block"
  | BorrowedUnionPayload => "borrowed_union_payload"
  | CallbackContractUnsatisfied => "callback_contract_unsatisfied"
  | ChannelItemHoldsBorrow => "channel_item_holds_borrow"
  | ConstTemporaryBorrowEscapes => "const_temporary_borrow_escapes"
  | DynHoldsBorrowWithoutRegion => "dyn_holds_borrow_without_region"
  | DynHoldsExclusiveBorrow => "dyn_holds_exclusive_borrow"
  | ExclusiveBorrowBehindRegion => "exclusive_borrow_behind_region"
  | ExclusiveBorrowFieldShape => "exclusive_borrow_field_shape"
  | ExclusiveFieldRegionsMissing => "exclusive_field_regions_missing"
  | ExclusiveFieldWithoutRegion => "exclusive_field_without_region"
  | ExclusiveRegionReused => "exclusive_region_reused"
  | FieldMixesRegions => "field_mixes_regions"
  | InvalidRegionNames => "invalid_region_names"
  | MisplacedRegionQuantifier => "misplaced_region_quantifier"
  | MultipleRegionsOnValue => "multiple_regions_on_value"
  | MustApplyDirectly => "must_apply_directly"
  | MutableRecordField => "mutable_record_field"
  | MutableRegionQuantifiedParameter => "mutable_region_quantified_parameter"
  | MutexResultRetainsBorrow => "mutex_result_retains_borrow"
  | NamedRegionInFunctionType => "named_region_in_function_type"
  | NamedRegionInLocal => "named_region_in_local"
  | NestedBorrowUnsupported => "nested_borrow_unsupported"
  | OwnedFunctionCapturesReference => "owned_function_captures_reference"
  | ParallelCallbackBorrowsEnvironment => "parallel_callback_borrows_environment"
  | ParallelInputBorrowsEnvironment => "parallel_input_borrows_environment"
  | ParallelResultRetainsBorrow => "parallel_result_retains_borrow"
  | ReferenceRegionCount => "reference_region_count"
  | ReferenceWithoutOwner => "reference_without_owner"
  | RegionAlreadyDeclared => "region_already_declared"
  | RegionBelongsToFunction => "region_belongs_to_function"
  | RegionCallbackStoresExclusiveInput => "region_callback_stores_exclusive_input"
  | RegionCountMismatch => "region_count_mismatch"
  | RegionOnNonBorrow => "region_on_non_borrow"
  | RegionQuantifierTarget => "region_quantifier_target"
  | ResultRegionMismatch => "result_region_mismatch"
  | ResultRegionMissing => "result_region_missing"
  | ResultRegionWithoutInput => "result_region_without_input"
  | SelfReferentialStore => "self_referential_store"
  | StoreLocalBorrowThroughReference => "store_local_borrow_through_reference"
  | StoreRegionMismatch => "store_region_mismatch"
  | StoreRegionUnnamed => "store_region_unnamed"
  | TaskCaptureRetainsBorrow => "task_capture_retains_borrow"
  | TaskRequiresOwnedValue => "task_requires_owned_value"
  | TaskRequiresSend => "task_requires_send"
  | TaskRequiresSync => "task_requires_sync"
  | TaskResultIsReference => "task_result_is_reference"
  | TaskResultRetainsBorrow => "task_result_retains_borrow"
  | TaskScopeSharesBorrowedEnvironment => "task_scope_shares_borrowed_environment"
  | UndeclaredRegion => "undeclared_region"
  | UnionPayloadExclusiveBorrow => "union_payload_exclusive_borrow"
  | UnusedRegion => "unused_region"
  | ActivePatternMutatesInput => "active_pattern_mutates_input"
  | BorrowConflict => "borrow_conflict"
  | ExclusiveSliceSource => "exclusive_slice_source"
  | MoveReborrowedExclusiveReference => "move_reborrowed_exclusive_reference"
  | MutateImmutableValue => "mutate_immutable_value"
  | MutateThroughSharedReference => "mutate_through_shared_reference"
  | ReplaceExclusiveSlice => "replace_exclusive_slice"
  | AmbiguousPolymorphicUse => "ambiguous_polymorphic_use"
  | ConcreteIntegerRequired => "concrete_integer_required"
  | ConcreteTypeRequired => "concrete_type_required"
  | ConstructorKindMismatch => "constructor_kind_mismatch"
  | ConstructorVariableKindAnnotation => "constructor_variable_kind_annotation"
  | DynDispatchResultType => "dyn_dispatch_result_type"
  | DynOfArity => "dyn_of_arity"
  | DynOfNeedsExpectedType => "dyn_of_needs_expected_type"
  | ExpectedTypeConstructor => "expected_type_constructor"
  | ExternSignatureNotConcrete => "extern_signature_not_concrete"
  | ExternTypeAsConstructor => "extern_type_as_constructor"
  | FixedArrayLengthUnknown => "fixed_array_length_unknown"
  | HigherKindedAlias => "higher_kinded_alias"
  | HigherOrderKindArgument => "higher_order_kind_argument"
  | InfiniteInferredType => "infinite_inferred_type"
  | InstanceHeadNotConstructor => "instance_head_not_constructor"
  | InternalCompactStringRuntime => "internal_compact_string_runtime"
  | InternalRecBindingNotLambda => "internal_rec_binding_not_lambda"
  | InternalRecGroupUnbound => "internal_rec_group_unbound"
  | InternalRecNotBoundByBlock => "internal_rec_not_bound_by_block"
  | InternalUnlowerableIr => "internal_unlowerable_ir"
  | MissingTypeArguments => "missing_type_arguments"
  | PolymorphicEntryPoint => "polymorphic_entry_point"
  | RefOperandInferredLate => "ref_operand_inferred_late"
  | ScalarAsTypeConstructor => "scalar_as_type_constructor"
  | SimdVectorTypeUnknown => "simd_vector_type_unknown"
  | SuperclassKindMismatch => "superclass_kind_mismatch"
  | TypeConstructorNotApplied => "type_constructor_not_applied"
  | TypeVariableAbsentFromSignature => "type_variable_absent_from_signature"
  | TypeVariableKindConflict => "type_variable_kind_conflict"
  | BuiltinInstanceOverride => "builtin_instance_override"
  | ClassConstraintArity => "class_constraint_arity"
  | ClassMethodConstraint => "class_method_constraint"
  | ClassMethodTypeVariable => "class_method_type_variable"
  | ClassWithoutMethods => "class_without_methods"
  | DefaultBodyUnknownMethod => "default_body_unknown_method"
  | DropInstanceConstraint => "drop_instance_constraint"
  | DropInstanceGeneric => "drop_instance_generic"
  | DropInstanceTarget => "drop_instance_target"
  | ExplicitDropCall => "explicit_drop_call"
  | FieldTypeConstraint => "field_type_constraint"
  | FormatInstanceTarget => "format_instance_target"
  | InstanceMissingMethod => "instance_missing_method"
  | InstanceUnknownMethod => "instance_unknown_method"
  | InternalEffectiveApiUnavailable => "internal_effective_api_unavailable"
  | MissingExplicitConstraint => "missing_explicit_constraint"
  | OverlappingInstance => "overlapping_instance"
  | UnknownTypeClass => "unknown_type_class"
  | AndGroupTooLarge => "and_group_too_large"
  | CapabilityAnalysisLimit => "capability_analysis_limit"
  | ClassConstraintLimit => "class_constraint_limit"
  | ContractLineLimit => "contract_line_limit"
  | DerivingExpressionLimit => "deriving_expression_limit"
  | DerivingInstanceLimit => "deriving_instance_limit"
  | DocExampleLimit => "doc_example_limit"
  | EffectSummaryLimit => "effect_summary_limit"
  | ExhaustivenessSearchLimit => "exhaustiveness_search_limit"
  | FixCandidateLimit => "fix_candidate_limit"
  | FunctionConstraintLimit => "function_constraint_limit"
  | GitDependencyTooLarge => "git_dependency_too_large"
  | GpuEffectAnalysisLimit => "gpu_effect_analysis_limit"
  | GpuKernelLimit => "gpu_kernel_limit"
  | HeaderPathTooLong => "header_path_too_long"
  | InstanceOverlapLimit => "instance_overlap_limit"
  | InstanceResolutionCycle => "instance_resolution_cycle"
  | InstanceResolutionLimit => "instance_resolution_limit"
  | LockfileTooLarge => "lockfile_too_large"
  | LoopOwnershipLimit => "loop_ownership_limit"
  | ManifestTooLarge => "manifest_too_large"
  | ModuleDiscoveryLimit => "module_discovery_limit"
  | ModulePathLimit => "module_path_limit"
  | NamespacePathTooLong => "namespace_path_too_long"
  | OrPatternAlternativesLimit => "or_pattern_alternatives_limit"
  | PackageGraphLimit => "package_graph_limit"
  | PatternAlternativesLimit => "pattern_alternatives_limit"
  | PolymorphicConstraintLimit => "polymorphic_constraint_limit"
  | PolymorphicRecursionGrowth => "polymorphic_recursion_growth"
  | PolymorphicTypeExpansionLimit => "polymorphic_type_expansion_limit"
  | ProveLimit => "prove_limit"
  | PureCallbackProofLimit => "pure_callback_proof_limit"
  | PureDefinitionReachLimit => "pure_definition_reach_limit"
  | PureValueValidationLimit => "pure_value_validation_limit"
  | QualifiedNameTooLong => "qualified_name_too_long"
  | RecursiveTypeChangesArguments => "recursive_type_changes_arguments"
  | RecursiveTypeExpansionLimit => "recursive_type_expansion_limit"
  | RegistryIndexTooLarge => "registry_index_too_large"
  | RegistryResolutionLimit => "registry_resolution_limit"
  | SelectArmLimit => "select_arm_limit"
  | SequenceLoopDepthLimit => "sequence_loop_depth_limit"
  | SpecializationLimit => "specialization_limit"
  | SuperclassResolutionLimit => "superclass_resolution_limit"
  | TooManyDependencies => "too_many_dependencies"
  | TooManyLoopExits => "too_many_loop_exits"
  | TooManyOverflowSites => "too_many_overflow_sites"
  | TooManyRaisePoints => "too_many_raise_points"
  | TooManyRecordRegions => "too_many_record_regions"
  | TooManyRegionParameters => "too_many_region_parameters"
  | TooManyTrapLocations => "too_many_trap_locations"
  | TypeAliasExpansionLimit => "type_alias_expansion_limit"
  | AliasOutsideBuilderFile => "alias_outside_builder_file"
  | BenchClockOutsideBench => "bench_clock_outside_bench"
  | BuilderMissingOperation => "builder_missing_operation"
  | BuilderWithoutOperations => "builder_without_operations"
  | CannotInferBuilder => "cannot_infer_builder"
  | ClassOutsideClassFile => "class_outside_class_file"
  | ComputationWithoutBuilder => "computation_without_builder"
  | DeclarationInClassFile => "declaration_in_class_file"
  | GpuBufferElementType => "gpu_buffer_element_type"
  | GpuCallbackNotKnown => "gpu_callback_not_known"
  | GpuKernelEffect => "gpu_kernel_effect"
  | GpuKernelMissing => "gpu_kernel_missing"
  | GpuKernelRecursion => "gpu_kernel_recursion"
  | GpuKernelSignature => "gpu_kernel_signature"
  | GpuOperationNotDirect => "gpu_operation_not_direct"
  | GpuUnsupportedConstruct => "gpu_unsupported_construct"
  | GpuUnsupportedOperator => "gpu_unsupported_operator"
  | GpuUnsupportedType => "gpu_unsupported_type"
  | ImplicitTaskNeedsBuilder => "implicit_task_needs_builder"
  | NoBuilderForValue => "no_builder_for_value"
  | StdDeclaresTest => "std_declares_test"
  | StdExportsFunction => "std_exports_function"
  | UnknownComputationBuilder => "unknown_computation_builder"
  | AndWithoutRecursiveGroup => "and_without_recursive_group"
  | MismatchedRecursiveGroup => "mismatched_recursive_group"
  | MissingRecMarker => "missing_rec_marker"
  | ActiveArgumentNotValue => "active_argument_not_value"
  | ActivePatternCaseCount => "active_pattern_case_count"
  | ActivePatternCaseName => "active_pattern_case_name"
  | ArrayPatternOnFixedArray => "array_pattern_on_fixed_array"
  | CasePatternMissingPayload => "case_pattern_missing_payload"
  | CasePatternPayloadShape => "case_pattern_payload_shape"
  | CasePatternUnexpectedPayload => "case_pattern_unexpected_payload"
  | DuplicateActivePatternCase => "duplicate_active_pattern_case"
  | ExpressionInPattern => "expression_in_pattern"
  | MultiCaseActivePatternResultType => "multi_case_active_pattern_result_type"
  | NullPattern => "null_pattern"
  | OrPatternBindingMismatch => "or_pattern_binding_mismatch"
  | PartialActivePatternCaseCount => "partial_active_pattern_case_count"
  | QualifiedPatternBinding => "qualified_pattern_binding"
  | RecordPatternUnknownType => "record_pattern_unknown_type"
  | ReservedActiveResultVariable => "reserved_active_result_variable"
  | UnknownCaseOrActivePattern => "unknown_case_or_active_pattern"
  | NonExhaustiveMatch => "non_exhaustive_match"
  | OpaqueTypeRepresentation => "opaque_type_representation"
  | PrivateBuilderOperation => "private_builder_operation"
  | PrivateExport => "private_export"
  | PrivateNameAccess => "private_name_access"
  | PrivateOnUnsupportedDeclaration => "private_on_unsupported_declaration"
  | PrivateStdPrimitive => "private_std_primitive"
  | PrivateTypeInPublicApi => "private_type_in_public_api"
  | JumpOutsideLoop => "jump_outside_loop"
  | AliasArgumentCount => "alias_argument_count"
  | CyclicTypeAlias => "cyclic_type_alias"
  | DuplicateTypeParameter => "duplicate_type_parameter"
  | DuplicateUnionCase => "duplicate_union_case"
  | InvalidTypeParameterName => "invalid_type_parameter_name"
  | TypeNameCase => "type_name_case"
  | UndeclaredLengthParameter => "undeclared_length_parameter"
  | UndeclaredTypeVariable => "undeclared_type_variable"
  | UnionCaseNameCase => "union_case_name_case"
  | UnusedTypeParameter => "unused_type_parameter"
  | DefaultDeriveRecursive => "default_derive_recursive"
  | DerivedInstanceInvalid => "derived_instance_invalid"
  | DerivingUnavailable => "deriving_unavailable"
  | DuplicateJsonName => "duplicate_json_name"
  | JsonNameWithoutDeriving => "json_name_without_deriving"
  | UnderivableClass => "underivable_class"
  | ConstAggregateOperator => "const_aggregate_operator"
  | ConstAssignmentTarget => "const_assignment_target"
  | ConstBorrowNotAllowed => "const_borrow_not_allowed"
  | ConstCallDepthLimit => "const_call_depth_limit"
  | ConstCalleeNotConst => "const_callee_not_const"
  | ConstCheckedOperation => "const_checked_operation"
  | ConstConditionNotBool => "const_condition_not_bool"
  | ConstCycle => "const_cycle"
  | ConstEvaluationTrapped => "const_evaluation_trapped"
  | ConstExpressionNotAllowed => "const_expression_not_allowed"
  | ConstForLoopForm => "const_for_loop_form"
  | ConstFunctionValue => "const_function_value"
  | ConstLimitExceeded => "const_limit_exceeded"
  | ConstNewCollectionForm => "const_new_collection_form"
  | ConstOperationNotAllowed => "const_operation_not_allowed"
  | ConstPartialApplication => "const_partial_application"
  | ConstPipeNotAllowed => "const_pipe_not_allowed"
  | ConstSignatureInvalid => "const_signature_invalid"
  | ConstStaticDataTooLarge => "const_static_data_too_large"
  | ConstUnbuildableType => "const_unbuildable_type"
  | ConstUnsupportedOperation => "const_unsupported_operation"
  | ConstantTypeNotConcrete => "constant_type_not_concrete"
  | ClassContextNotAClass => "class_context_not_a_class"
  | InstanceCheckFailed => "instance_check_failed"
  | InstanceContextVariable => "instance_context_variable"
  | InstanceMissingSuperclass => "instance_missing_superclass"
  | SuperclassCycle => "superclass_cycle"
  | SuperclassTypeVariable => "superclass_type_variable"
  | UndeclaredDefaultConstraint => "undeclared_default_constraint"
  | UndeclaredInstanceConstraint => "undeclared_instance_constraint"
  | UnknownClassInContext => "unknown_class_in_context"
  | DynIncompatibleClass => "dyn_incompatible_class"
  | ImpureBuiltinForPureContract => "impure_builtin_for_pure_contract"
  | ImpureCallbackForPureContract => "impure_callback_for_pure_contract"
  | ImpureOperationInPureDef => "impure_operation_in_pure_def"
  | ImpurePureFunctionValue => "impure_pure_function_value"
  | PureFunctionTypeParameterNotAllowed => "pure_function_type_parameter_not_allowed"
  | PureImplementationPartialParameters => "pure_implementation_partial_parameters"
  | PureMethodMutableReference => "pure_method_mutable_reference"
  | PureOnNonFunctionType => "pure_on_non_function_type"
  | PureParameterNotAllowed => "pure_parameter_not_allowed"
  | PureReturnedFunctionContract => "pure_returned_function_contract"
  | PureSpecializationOwnParameter => "pure_specialization_own_parameter"
  | PureValueCapturesUnknownCallback => "pure_value_captures_unknown_callback"
  | PureValueUnprovable => "pure_value_unprovable"
  | TypedHole => "typed_hole"
  | EffectAllocInNoAlloc => "effect_alloc_in_no_alloc"
  | EffectCopyInNoCopy => "effect_copy_in_no_copy"
  | EffectDivergeInTerminates => "effect_diverge_in_terminates"
  | EffectExternInAttribute => "effect_extern_in_attribute"
  | EffectTrapInNoTrap => "effect_trap_in_no_trap"
  | EffectUnknownCallee => "effect_unknown_callee"
  | EffectAttributeDuplicate => "effect_attribute_duplicate"
  | EffectAttributeMisplaced => "effect_attribute_misplaced"
  | EffectAttributeOnExtern => "effect_attribute_on_extern"
  | EffectAttributeUnavailable => "effect_attribute_unavailable"
  | ContractEnsuresReferenceResult => "contract_ensures_reference_result"
  | ContractImpure => "contract_impure"
  | ContractMisplaced => "contract_misplaced"
  | ContractNotBool => "contract_not_bool"
  | ContractOldMisplaced => "contract_old_misplaced"
  | ContractOldNested => "contract_old_nested"
  | ContractOldNotCopy => "contract_old_not_copy"
  | ContractOldOperand => "contract_old_operand"
  | ContractOnConst => "contract_on_const"
  | ContractResultLambda => "contract_result_lambda"
  | ContractWrites => "contract_writes"
  | ProveCounterexample => "prove_counterexample"
  | ProveSolverError => "prove_solver_error"
  | ProveSolverMissing => "prove_solver_missing"
  | ProveUnknown => "prove_unknown"
  | ProveUnsupported => "prove_unsupported"
  | CapabilityDenied => "capability_denied"
  | TrustedDuplicateProperty => "trusted_duplicate_property"
  | TrustedRepeated => "trusted_repeated"
  | TrustedTypeProperty => "trusted_type_property"
  | TrustedUnknownProperty => "trusted_unknown_property"
  | TrustedWrongTarget => "trusted_wrong_target"
  | DomainArgumentNotClosure => "domain_argument_not_closure"
  | DomainBodyNotPure => "domain_body_not_pure"
  | DomainCaptureNotPlain => "domain_capture_not_plain"
  | DomainNotCalledDirectly => "domain_not_called_directly"
  | DomainResultNotPlain => "domain_result_not_plain"
  | DomainTargetUnsupported => "domain_target_unsupported"
  | MonoidFloatInstance => "monoid_float_instance"
  | RemovedAsync => "removed_async"
  | RemovedNetAsync => "removed_net_async"
  | RemovedTaskApi => "removed_task_api"
  | RemovedTaskExpression => "removed_task_expression"
  | RemovedTaskType => "removed_task_type"
  | RenamedToDataChannel => "renamed_to_data_channel"
  | AllocNeedsCountingAllocator => "alloc_needs_counting_allocator"
  | AuditUsage => "audit_usage"
  | BindgenAnnotationError => "bindgen_annotation_error"
  | BindgenArgumentError => "bindgen_argument_error"
  | CannotDeriveNamespace => "cannot_derive_namespace"
  | DebugInfoWithoutSourceMap => "debug_info_without_source_map"
  | DiagramBadOption => "diagram_bad_option"
  | DiagramFormatUnsupported => "diagram_format_unsupported"
  | DiagramNeedsId => "diagram_needs_id"
  | DiagramTooLarge => "diagram_too_large"
  | DiagramUnavailable => "diagram_unavailable"
  | DiagramUnknownId => "diagram_unknown_id"
  | DiagramUnknownKind => "diagram_unknown_kind"
  | DiagramUsage => "diagram_usage"
  | DiagramWrongIdKind => "diagram_wrong_id_kind"
  | DuplicateLinkInput => "duplicate_link_input"
  | DuplicateOption => "duplicate_option"
  | EditionOptionWithManifest => "edition_option_with_manifest"
  | EnvironmentSettingInvalid => "environment_setting_invalid"
  | FastBackendUnavailable => "fast_backend_unavailable"
  | FastBackendUnsupportedOption => "fast_backend_unsupported_option"
  | FileNotFormatted => "file_not_formatted"
  | FindBadArguments => "find_bad_arguments"
  | FindUnknownModule => "find_unknown_module"
  | FixBadArguments => "fix_bad_arguments"
  | FixEditionUnsupported => "fix_edition_unsupported"
  | FixEditionWithApplicability => "fix_edition_with_applicability"
  | FixMaybeNeedsDryRun => "fix_maybe_needs_dry_run"
  | ForeignTargetNotRunnable => "foreign_target_not_runnable"
  | FormatterChangedSemantics => "formatter_changed_semantics"
  | FormatterInvalidOutput => "formatter_invalid_output"
  | GuideBadArguments => "guide_bad_arguments"
  | GuideEditionUnsupported => "guide_edition_unsupported"
  | GuideManifestMissing => "guide_manifest_missing"
  | GuideUnknownStdModule => "guide_unknown_std_module"
  | GuideUnknownTopic => "guide_unknown_topic"
  | IndexOutOfRange => "index_out_of_range"
  | InputCountInvalid => "input_count_invalid"
  | InputExtensionInvalid => "input_extension_invalid"
  | InvalidLibraryName => "invalid_library_name"
  | InvalidNamespaceArgument => "invalid_namespace_argument"
  | InvalidPublishGitRev => "invalid_publish_git_rev"
  | InvalidPublishGitUrl => "invalid_publish_git_url"
  | InvalidRangeFlagSetting => "invalid_range_flag_setting"
  | InvalidThreadSetting => "invalid_thread_setting"
  | InvalidTrapSourceMap => "invalid_trap_source_map"
  | KgAmbiguousId => "kg_ambiguous_id"
  | KgUnknownId => "kg_unknown_id"
  | LinkInputLimit => "link_input_limit"
  | McpBadArguments => "mcp_bad_arguments"
  | MissingInput => "missing_input"
  | NativeLinkSettingNotAllowed => "native_link_setting_not_allowed"
  | NetAsyncNeedsBlockOn => "net_async_needs_block_on"
  | NewProjectFolderNotEmpty => "new_project_folder_not_empty"
  | NewProjectIoFailure => "new_project_io_failure"
  | NoSourcesFound => "no_sources_found"
  | OptionConflict => "option_conflict"
  | OptionInvalidForCommand => "option_invalid_for_command"
  | OptionInvalidValue => "option_invalid_value"
  | OptionMissingValue => "option_missing_value"
  | OptionRequiresBuild => "option_requires_build"
  | OptionRequiresOption => "option_requires_option"
  | OptionUnsupportedPlatform => "option_unsupported_platform"
  | OutputExtensionInvalid => "output_extension_invalid"
  | ProjectManifestMissing => "project_manifest_missing"
  | ProveUnknownFunction => "prove_unknown_function"
  | ReplCommandUsage => "repl_command_usage"
  | ReplDeclarationNotAllowed => "repl_declaration_not_allowed"
  | ReplUnknownCommand => "repl_unknown_command"
  | ScriptWrongFileKind => "script_wrong_file_kind"
  | TrapInfoWithoutSourceMap => "trap_info_without_source_map"
  | UnknownExplainTarget => "unknown_explain_target"
  | UnknownGitRevision => "unknown_git_revision"
  | UnknownOption => "unknown_option"
  | UnknownTarget => "unknown_target"
  | UsageError => "usage_error"
  | WasmNetNeedsOptIn => "wasm_net_needs_opt_in"
  | WasmOsApiNeedsOptIn => "wasm_os_api_needs_opt_in"
  | WasmTestRunnerAsync => "wasm_test_runner_async"
  | BuildServerControlFailed => "build_server_control_failed"
  | BuildServerStartFailed => "build_server_start_failed"
  | ForeignRunnerNotStartable => "foreign_runner_not_startable"
  | InputNotRegularFile => "input_not_regular_file"
  | InputNotUtf8 => "input_not_utf8"
  | InputPathNotUtf8 => "input_path_not_utf8"
  | InputTooLarge => "input_too_large"
  | IoFailure => "io_failure"
  | LinkInputUnreadable => "link_input_unreadable"
  | ReplStreamFailure => "repl_stream_failure"
  | TempDirectoryFailed => "temp_directory_failed"
  | BindgenUnreadableAst => "bindgen_unreadable_ast"
  | BindgenUnsupportedTarget => "bindgen_unsupported_target"
  | BitcodeSymbolNotKept => "bitcode_symbol_not_kept"
  | ExternalToolFailed => "external_tool_failed"
  | ExternalToolNotRunnable => "external_tool_not_runnable"
  | ExternalToolOutputTooLarge => "external_tool_output_too_large"
  | ExternalToolReadFailed => "external_tool_read_failed"
  | ExternalToolWaitFailed => "external_tool_wait_failed"
  | FastBackendUnsupportedConstruct => "fast_backend_unsupported_construct"
  | InvalidCoverageCounters => "invalid_coverage_counters"
  | PlatformUnsupportedApi => "platform_unsupported_api"
  | TargetAttributesNotApplicable => "target_attributes_not_applicable"
  | TargetAttributesUnreadable => "target_attributes_unreadable"
  | ToolchainMissingFeature => "toolchain_missing_feature"
  | BindgenOutputNotGenerated => "bindgen_output_not_generated"
  | DocFilenameCollision => "doc_filename_collision"
  | DocOutputChanged => "doc_output_changed"
  | DocOutputContainsSources => "doc_output_contains_sources"
  | DocOutputInvalid => "doc_output_invalid"
  | DocOutputNotOwned => "doc_output_not_owned"
  | DocPublicationFailed => "doc_publication_failed"
  | FormatTargetNotRegularFile => "format_target_not_regular_file"
  | OutputHasSourceExtension => "output_has_source_extension"
  | OutputNotRegularFile => "output_not_regular_file"
  | OutputOverwritesInput => "output_overwrites_input"
  | OutputOverwritesLinkInput => "output_overwrites_link_input"
  | OutputPublicationFailed => "output_publication_failed"
  | SourceChangedDuringFormatting => "source_changed_during_formatting"
  | AmbiguousEntryPoint => "ambiguous_entry_point"
  | BuilderFileToplevelCode => "builder_file_toplevel_code"
  | EntryPointMissing => "entry_point_missing"
  | EntryPointResultType => "entry_point_result_type"
  | InvalidMainSignature => "invalid_main_signature"
  | SpirvKernelCount => "spirv_kernel_count"
  | ToplevelCodeOutsideMain => "toplevel_code_outside_main"
  | BenchmarkFailed => "benchmark_failed"
  | ContractEnsures => "contract_ensures"
  | ContractRequires => "contract_requires"
  | ProgramExitedNonzero => "program_exited_nonzero"
  | ProgramTerminated => "program_terminated"
  | ProgramTimeLimitExceeded => "program_time_limit_exceeded"
  | DocTestFailed => "doc_test_failed"
  | TestsFailed => "tests_failed"
  | FileUrlAfterHttps => "file_url_after_https"
  | GitCaseCollision => "git_case_collision"
  | GitCommandFailed => "git_command_failed"
  | GitMissingManifest => "git_missing_manifest"
  | GitNonRegularEntry => "git_non_regular_entry"
  | GitSourceNotUtf8 => "git_source_not_utf8"
  | GitTreeUnreadable => "git_tree_unreadable"
  | GitUnsafePath => "git_unsafe_path"
  | GitVersionUnsupported => "git_version_unsupported"
  | InvalidLockfile => "invalid_lockfile"
  | LockfileChecksumMismatch => "lockfile_checksum_mismatch"
  | LockfileEntryMissing => "lockfile_entry_missing"
  | LockfileMissing => "lockfile_missing"
  | LockfileNotRegularFile => "lockfile_not_regular_file"
  | LockfileVersionMismatch => "lockfile_version_mismatch"
  | PackageFilesUnreadable => "package_files_unreadable"
  | PackageNotDownloaded => "package_not_downloaded"
  | PackageStoreUnavailable => "package_store_unavailable"
  | PackageStoreUnusable => "package_store_unusable"
  | PublishedPackageMismatch => "published_package_mismatch"
  | RegistryChecksumMismatch => "registry_checksum_mismatch"
  | RegistryDependencyNotSelected => "registry_dependency_not_selected"
  | RegistryEntryMismatch => "registry_entry_mismatch"
  | RegistryIndexInvalid => "registry_index_invalid"
  | RegistryIndexMissing => "registry_index_missing"
  | RegistryPackageMissing => "registry_package_missing"
  | RegistryVersionMissing => "registry_version_missing"
  | FixSourceChanged => "fix_source_changed"
  | FixVerificationFailed => "fix_verification_failed"
  | FixWriteFailed => "fix_write_failed"
  | MigrationEditionBackwards => "migration_edition_backwards"
  | MigrationEditionMismatch => "migration_edition_mismatch"
  | MigrationInvalidEdit => "migration_invalid_edit"
  | MigrationManifestUpdateFailed => "migration_manifest_update_failed"
  | MigrationSourceTooLarge => "migration_source_too_large"
  | MigrationWriteFailed => "migration_write_failed"
  | KgBroken => "kg_broken"
  | KgIncomplete => "kg_incomplete"
  | KgMissing => "kg_missing"
  | KgNotOurs => "kg_not_ours"
  | KgStale => "kg_stale"
  | McpIoFailed => "mcp_io_failed"
  | McpRootUnusable => "mcp_root_unusable"
  | McpWorkerFailed => "mcp_worker_failed"
  | DocExampleInvalid => "doc_example_invalid"
  | UnusedLocal => "unused_local"
  | UnusedPrivateFunction => "unused_private_function"
  | UnusedPrivateType => "unused_private_type"
  | UnreachableMatchArm => "unreachable_match_arm"
  | ShadowedLocal => "shadowed_local"
  | DeprecatedUse => "deprecated_use"
  | ImplicitCopyOfLargeValue => "implicit_copy_of_large_value"
  | BareRangeInFor => "bare_range_in_for"
  | LegacyLambda => "legacy_lambda"
  | ShortLiteralSuffix => "short_literal_suffix"
  | SymbolicBorrow => "symbolic_borrow"
  | SymbolicDeref => "symbolic_deref"
  | SymbolicReferenceType => "symbolic_reference_type"
  | EffectAttributeOnConstDef => "effect_attribute_on_const_def"
  | EffectAttributeUncheckedGeneric => "effect_attribute_unchecked_generic"
  | ContractAlwaysTrue => "contract_always_true"
  | ContractResultUnused => "contract_result_unused"
  | ContractTestSkipped => "contract_test_skipped"
  | UntrustedExtern => "untrusted_extern"
  | IntegerOverflowWrapped => "integer_overflow_wrapped"
  | ToolNotice => "tool_notice"
  | BindgenSkippedDeclaration => "bindgen_skipped_declaration"
  end.

(** [code] *)
Definition kind_code (kind : DiagnosticKind) : string :=
  match kind with
  | BigintSuffixWithFraction | ByteLiteralNotAscii | ByteSuffixOnInterpolatedString
  | ByteSuffixOnUnsupportedLiteral | CharLiteralNotOneUnit | CommentInInterpolationHole | ExpectedDigit
  | FloatSuffixOnHexOrBinaryLiteral | FormatFieldOutOfRange | FormatPrecisionOnInteger
  | FormatTypeNeedsPrecision | InterpolationHoleSpansLines | InvalidFormatSpec | InvalidNumericLiteral
  | InvalidStringEscape | InvalidTypeVariableStart | InvalidUnicodeScalarEscape
  | NumericSeparatorMisplaced | RawNewlineInString | SingleClosingBraceInInterpolation
  | UnexpectedCharacter | UnterminatedBlockComment | UnterminatedInterpolationHole
  | UnterminatedStringLiteral | Utf8charNotOneScalar => "E0001"
  | AliasNameOnSameLine | AngleBracketSpacing | BuilderAliasIsContextualKeyword | BuilderAliasNameCase
  | CheckedLetRec | ClassNeedsOneTypeParameter | ComputationMatchWithoutArms | ComputationNestingTooDeep
  | ConstExportOrder | ConstraintLineIndentation | CpuAttributeOnConstDef | DefinitionWithoutSignature
  | DoBangOutsideTask | DuplicateBuilderAlias | DuplicateCapability | DuplicateCpuTarget
  | DuplicateJsonAttribute | DuplicateManifestKey | DynWithTypeArguments | EmptyInterpolationHole
  | EmptyRegionList | ExpectedBindingEnd | ExpectedBodyExpression | ExpectedBuilderAlias
  | ExpectedComputationBody | ExpectedCpuTarget | ExpectedDynClass | ExpectedExpression
  | ExpectedExpressionAfterAttribute | ExpectedIdentifier | ExpectedInterpolationClose | ExpectedKind
  | ExpectedLineBreak | ExpectedLinkNameString | ExpectedPattern | ExpectedSingleTypeArgument
  | ExpectedToken | ExpectedTypeClose | ExpectedUnionCaseName | ExpectedWhereBindings
  | ExportOnImplementation | ExpressionNestingTooDeep | ExternTypeWithBody | ExternTypeWithLinkName
  | ForLoopNeedsIdentifier | HeaderPathOnSameLine | HeaderPathSpacing | IntegerLiteralTooLarge
  | InvalidCapabilities | InvalidDependencyForm | InvalidDependencyNativeFlag | InvalidDependencyPath
  | InvalidFixedArrayLength | InvalidGitDependency | InvalidJsonAttribute | InvalidLinkNameText
  | InvalidNativeLibraryName | InvalidNativePath | InvalidNativeSection | InvalidPackageField
  | InvalidRegistryDependency | InvalidRegistrySetting | InvalidWasmSize | LambdaWithoutParameters
  | LengthParameterType | LetFunctionNeedsLambda | LetRecNeedsLambda | ListTypeWithLength
  | MalformedConstraintLine | MalformedMultiCaseActivePattern | MalformedNewCollection
  | ManifestSectionOrder | ManifestSyntaxError | MatchWithoutArms | MisplacedCheckedAttribute
  | MisplacedConstModifier | MisplacedCpuAttribute | MisplacedDocComment | MisplacedJsonAttribute
  | MisplacedNamespaceDeclaration | MisplacedRegionList | MisplacedUsingDeclaration
  | MissingCapabilitiesAllow | MissingPackageField | MissingRegistryIndex | ModuleDeclarationUnsupported
  | MutAsExpression | MutableLetRec | MutableUseBinding | NegativePatternNeedsNumber
  | PatternNestingTooDeep | PrefixKeywordOperand | RangeTakesOneStep | RecursiveLetBang
  | RecursiveWhereBinding | ReturnNotLastInComputation | ReturnOutsideTaskEnd | SelectArmExpected
  | SelectDefaultRepeated | SignatureUsesDef | SignatureUsesDoubleColon | SignatureWithoutDefinition
  | SliceMustBeBorrowed | SliceRangeNeedsEnd | SliceWithoutBounds | StrayAndMember | SyntaxNestingTooDeep
  | TooManyActivePatternCases | TooManyDynClasses | TooManyExternLinkNames | TooManyFunctionParameters
  | TooManyInterpolationHoles | TooManyLambdaParameters | TooManyTupleElements | TooManyTypeArguments
  | TypeParametersNeedAngleBrackets | TypedAndNeedsBody | UnknownCapability | UnknownCpuTarget
  | UnknownManifestKey | UnsupportedEdition | UseBangInAndGroup | UseBangOutsideComputation
  | WhereBindingIndentation => "E0002"
  | SourceTooLarge => "E0003"
  | BareRangeInForRejected | LegacyLambdaRejected | ShortLiteralSuffixRejected | SymbolicBorrowRejected
  | SymbolicDerefRejected | SymbolicReferenceTypeRejected => "E0004"
  | DuplicateAndBinding | DuplicateDerivedClass | DuplicateExportName | DuplicateExternDeclaration
  | DuplicateFunctionDefinition | DuplicateFunctionSignature | DuplicateName => "E1001"
  | ClassHasNoMethod | UnknownFunction | UnknownLengthConstant | UnknownModuleMember | UnknownUnionCase
  | UnknownValue => "E1002"
  | ActiveRecognizerResult | FixedArrayLiteralLength | FormatSpecTypeMismatch | FormatSpecTypeUnknown
  | IndexNotInteger | TypeMismatch => "E1003"
  | AmbiguousBuilderAlias | AmbiguousName | AmbiguousPatternName | DynNeedsTypeClass
  | EmptyListNeedsAnnotation | ExpectedLength | LengthUsedAsType | NotARecordType | RepeatedModuleName
  | StdItemMissing | TypeArgumentCount | TypeUsedAsLength | UnknownTypeName => "E1004"
  | AtomicElementType | CallNonFunction | CaptureExclusiveInReusableFunction | CaptureRcInFunctionValue
  | CaptureSyncPrimitiveInFunctionValue | CaptureUnsendableInFunctionValue
  | CollectionElementExclusiveBorrow | CpuFunctionWideVectorBoundary | DerefNonReference
  | ExclusiveSliceWholeArrayParameter | FixedArrayInitAnnotation | FixedSliceSource | ForOverFixedArray
  | ForSourceNotIterable | FunctionConstraintUnresolvable | FunctionConstraintUnsatisfied
  | IndexNonIndexable | InvalidLengthConstant | MisplacedMutConvention | MisplacedOwnConvention
  | MutParameterNeedsEdition2027 | NewOnFixedArray | NoInstance | NoInstanceForOperator | NoWiderInteger
  | RangeAsValue | RecFunctionCapturesGeneric | RecordUpdateNonRecord | SharedContainerExclusiveBorrow
  | SimdLaneCountMismatch | SimdOperationVectorType | SliceNonArray | SliceOfFixedArray
  | StdRepresentationMismatch | UnsizedSliceTypePosition | UseRequiresDrop => "E1005"
  | ActivePatternArgumentCount | ActiveRecognizerParameters | DefinitionParameterCountMismatch
  | InstanceMethodParameterCount | OwnedFunctionParameterCount | TooManyArgumentsApplied => "E1006"
  | FieldAccessNonRecord | MissingRecordFields | RecordHasNoField | UnknownField => "E1007"
  | ConflictingExternDeclaration | ExportActiveRecognizer | ExportOnExternDeclaration
  | ExternCallbackArgument | ExternCallbackCallForm | ExternDeclarationConstraints | InvalidExternSymbol
  | InvalidWasmImportModule | ReservedExternSymbol | UnsupportedExportSignature
  | UnsupportedExternSignature => "E1008"
  | DecimalLiteralOutOfRange | FloatLiteralOutOfRange | FloatLiteralType | IntegerLiteralOutOfRange
  | IntegerLiteralType | InvalidBigintDigit | InvalidFloatLiteral => "E1009"
  | FixedArrayTooLong | InfiniteRecursiveLayout | LayoutNestingLimit | RecursiveUnionWithoutBaseCase
  | ValueLayoutTooLarge => "E1010"
  | AmbiguousPackageRoot | ConflictingDependencySource | CyclicPackageDependency
  | DependencyKindNotAllowed | DependencyNameMismatch | DependencyPathNotRelative | DuplicateDependency
  | DuplicateModule | IncompatibleDependencyVersions | InvalidModuleFilename | InvalidModuleName
  | InvalidPackageName | InvalidPackageNamespace | InvalidPublishVersion | InvalidSourcePath
  | InvalidStdPath | InvalidUsingDeclaration | ManifestNotRegularFile | ModuleNamespaceCollision
  | ModuleSourceNotRegularFile | PublishNonRegistryDependency | ReservedPackageNamespace
  | ReservedStdNamespace | SourceFilenameCaseMismatch | SourceOutsidePackageRoot | SourceWithoutFilename
  | SymlinkNotFollowed => "E1011"
  | AssignToImmutablePlace | DropPassExclusiveValue | DropReplaceWholeValue | MoveOutOfCollectionElement
  | MoveOutOfDropType | MoveOutOfOwnedFunction | MoveOutOfRecFunction | MoveOutOfReferenceBinding
  | UpdateDropTypeValue | UseAfterMove => "E1012"
  | AssignmentExtendsBorrow | BorrowAcrossAsyncBoundary | BorrowFieldWithoutRegion | BorrowOfTemporary
  | BorrowOutlivesBinding | BorrowOutlivesBlock | BorrowedUnionPayload | CallbackContractUnsatisfied
  | ChannelItemHoldsBorrow | ConstTemporaryBorrowEscapes | DynHoldsBorrowWithoutRegion
  | DynHoldsExclusiveBorrow | ExclusiveBorrowBehindRegion | ExclusiveBorrowFieldShape
  | ExclusiveFieldRegionsMissing | ExclusiveFieldWithoutRegion | ExclusiveRegionReused
  | FieldMixesRegions | InvalidRegionNames | MisplacedRegionQuantifier | MultipleRegionsOnValue
  | MustApplyDirectly | MutableRecordField | MutableRegionQuantifiedParameter | MutexResultRetainsBorrow
  | NamedRegionInFunctionType | NamedRegionInLocal | NestedBorrowUnsupported
  | OwnedFunctionCapturesReference | ParallelCallbackBorrowsEnvironment | ParallelInputBorrowsEnvironment
  | ParallelResultRetainsBorrow | ReferenceRegionCount | ReferenceWithoutOwner | RegionAlreadyDeclared
  | RegionBelongsToFunction | RegionCallbackStoresExclusiveInput | RegionCountMismatch
  | RegionOnNonBorrow | RegionQuantifierTarget | ResultRegionMismatch | ResultRegionMissing
  | ResultRegionWithoutInput | SelfReferentialStore | StoreLocalBorrowThroughReference
  | StoreRegionMismatch | StoreRegionUnnamed | TaskCaptureRetainsBorrow | TaskRequiresOwnedValue
  | TaskRequiresSend | TaskRequiresSync | TaskResultIsReference | TaskResultRetainsBorrow
  | TaskScopeSharesBorrowedEnvironment | UndeclaredRegion | UnionPayloadExclusiveBorrow | UnusedRegion => "E1013"
  | ActivePatternMutatesInput | BorrowConflict | ExclusiveSliceSource | MoveReborrowedExclusiveReference
  | MutateImmutableValue | MutateThroughSharedReference | ReplaceExclusiveSlice => "E1014"
  | AmbiguousPolymorphicUse | ConcreteIntegerRequired | ConcreteTypeRequired | ConstructorKindMismatch
  | ConstructorVariableKindAnnotation | DynDispatchResultType | DynOfArity | DynOfNeedsExpectedType
  | ExpectedTypeConstructor | ExternSignatureNotConcrete | ExternTypeAsConstructor
  | FixedArrayLengthUnknown | HigherKindedAlias | HigherOrderKindArgument | InfiniteInferredType
  | InstanceHeadNotConstructor | InternalCompactStringRuntime | InternalRecBindingNotLambda
  | InternalRecGroupUnbound | InternalRecNotBoundByBlock | InternalUnlowerableIr | MissingTypeArguments
  | PolymorphicEntryPoint | RefOperandInferredLate | ScalarAsTypeConstructor | SimdVectorTypeUnknown
  | SuperclassKindMismatch | TypeConstructorNotApplied | TypeVariableAbsentFromSignature
  | TypeVariableKindConflict => "E1015"
  | BuiltinInstanceOverride | ClassConstraintArity | ClassMethodConstraint | ClassMethodTypeVariable
  | ClassWithoutMethods | DefaultBodyUnknownMethod | DropInstanceConstraint | DropInstanceGeneric
  | DropInstanceTarget | ExplicitDropCall | FieldTypeConstraint | FormatInstanceTarget
  | InstanceMissingMethod | InstanceUnknownMethod | InternalEffectiveApiUnavailable
  | MissingExplicitConstraint | OverlappingInstance | UnknownTypeClass => "E1016"
  | AndGroupTooLarge | CapabilityAnalysisLimit | ClassConstraintLimit | ContractLineLimit
  | DerivingExpressionLimit | DerivingInstanceLimit | DocExampleLimit | EffectSummaryLimit
  | ExhaustivenessSearchLimit | FixCandidateLimit | FunctionConstraintLimit | GitDependencyTooLarge
  | GpuEffectAnalysisLimit | GpuKernelLimit | HeaderPathTooLong | InstanceOverlapLimit
  | InstanceResolutionCycle | InstanceResolutionLimit | LockfileTooLarge | LoopOwnershipLimit
  | ManifestTooLarge | ModuleDiscoveryLimit | ModulePathLimit | NamespacePathTooLong
  | OrPatternAlternativesLimit | PackageGraphLimit | PatternAlternativesLimit
  | PolymorphicConstraintLimit | PolymorphicRecursionGrowth | PolymorphicTypeExpansionLimit | ProveLimit
  | PureCallbackProofLimit | PureDefinitionReachLimit | PureValueValidationLimit | QualifiedNameTooLong
  | RecursiveTypeChangesArguments | RecursiveTypeExpansionLimit | RegistryIndexTooLarge
  | RegistryResolutionLimit | SelectArmLimit | SequenceLoopDepthLimit | SpecializationLimit
  | SuperclassResolutionLimit | TooManyDependencies | TooManyLoopExits | TooManyOverflowSites
  | TooManyRaisePoints | TooManyRecordRegions | TooManyRegionParameters | TooManyTrapLocations
  | TypeAliasExpansionLimit => "E1017"
  | AliasOutsideBuilderFile | BenchClockOutsideBench | BuilderMissingOperation | BuilderWithoutOperations
  | CannotInferBuilder | ClassOutsideClassFile | ComputationWithoutBuilder | DeclarationInClassFile
  | GpuBufferElementType | GpuCallbackNotKnown | GpuKernelEffect | GpuKernelMissing | GpuKernelRecursion
  | GpuKernelSignature | GpuOperationNotDirect | GpuUnsupportedConstruct | GpuUnsupportedOperator
  | GpuUnsupportedType | ImplicitTaskNeedsBuilder | NoBuilderForValue | StdDeclaresTest
  | StdExportsFunction | UnknownComputationBuilder => "E1018"
  | AndWithoutRecursiveGroup | MismatchedRecursiveGroup | MissingRecMarker => "E1019"
  | ActiveArgumentNotValue | ActivePatternCaseCount | ActivePatternCaseName | ArrayPatternOnFixedArray
  | CasePatternMissingPayload | CasePatternPayloadShape | CasePatternUnexpectedPayload
  | DuplicateActivePatternCase | ExpressionInPattern | MultiCaseActivePatternResultType | NullPattern
  | OrPatternBindingMismatch | PartialActivePatternCaseCount | QualifiedPatternBinding
  | RecordPatternUnknownType | ReservedActiveResultVariable | UnknownCaseOrActivePattern => "E1020"
  | NonExhaustiveMatch => "E1021"
  | OpaqueTypeRepresentation | PrivateBuilderOperation | PrivateExport | PrivateNameAccess
  | PrivateOnUnsupportedDeclaration | PrivateStdPrimitive | PrivateTypeInPublicApi => "E1022"
  | JumpOutsideLoop => "E1023"
  | AliasArgumentCount | CyclicTypeAlias | DuplicateTypeParameter | DuplicateUnionCase
  | InvalidTypeParameterName | TypeNameCase | UndeclaredLengthParameter | UndeclaredTypeVariable
  | UnionCaseNameCase | UnusedTypeParameter => "E1024"
  | DefaultDeriveRecursive | DerivedInstanceInvalid | DerivingUnavailable | DuplicateJsonName
  | JsonNameWithoutDeriving | UnderivableClass => "E1025"
  | ConstAggregateOperator | ConstAssignmentTarget | ConstBorrowNotAllowed | ConstCallDepthLimit
  | ConstCalleeNotConst | ConstCheckedOperation | ConstConditionNotBool | ConstCycle
  | ConstEvaluationTrapped | ConstExpressionNotAllowed | ConstForLoopForm | ConstFunctionValue
  | ConstLimitExceeded | ConstNewCollectionForm | ConstOperationNotAllowed | ConstPartialApplication
  | ConstPipeNotAllowed | ConstSignatureInvalid | ConstStaticDataTooLarge | ConstUnbuildableType
  | ConstUnsupportedOperation | ConstantTypeNotConcrete => "E1026"
  | ClassContextNotAClass | InstanceCheckFailed | InstanceContextVariable | InstanceMissingSuperclass
  | SuperclassCycle | SuperclassTypeVariable | UndeclaredDefaultConstraint | UndeclaredInstanceConstraint
  | UnknownClassInContext => "E1027"
  | DynIncompatibleClass => "E1028"
  | ImpureBuiltinForPureContract | ImpureCallbackForPureContract | ImpureOperationInPureDef
  | ImpurePureFunctionValue | PureFunctionTypeParameterNotAllowed | PureImplementationPartialParameters
  | PureMethodMutableReference | PureOnNonFunctionType | PureParameterNotAllowed
  | PureReturnedFunctionContract | PureSpecializationOwnParameter | PureValueCapturesUnknownCallback
  | PureValueUnprovable => "E1029"
  | TypedHole => "E1030"
  | EffectAllocInNoAlloc | EffectCopyInNoCopy | EffectDivergeInTerminates | EffectExternInAttribute
  | EffectTrapInNoTrap | EffectUnknownCallee => "E1031"
  | EffectAttributeDuplicate | EffectAttributeMisplaced | EffectAttributeOnExtern
  | EffectAttributeUnavailable => "E1032"
  | ContractEnsuresReferenceResult | ContractImpure | ContractMisplaced | ContractNotBool
  | ContractOldMisplaced | ContractOldNested | ContractOldNotCopy | ContractOldOperand | ContractOnConst
  | ContractResultLambda | ContractWrites => "E1033"
  | ProveCounterexample | ProveSolverError | ProveSolverMissing | ProveUnknown | ProveUnsupported => "E1034"
  | CapabilityDenied => "E1036"
  | TrustedDuplicateProperty | TrustedRepeated | TrustedTypeProperty | TrustedUnknownProperty
  | TrustedWrongTarget => "E1037"
  | DomainArgumentNotClosure | DomainBodyNotPure | DomainCaptureNotPlain | DomainNotCalledDirectly
  | DomainResultNotPlain | DomainTargetUnsupported => "E1038"
  | MonoidFloatInstance => "E1039"
  | RemovedAsync | RemovedNetAsync | RemovedTaskApi | RemovedTaskExpression | RemovedTaskType
  | RenamedToDataChannel => "E1040"
  | AllocNeedsCountingAllocator | AuditUsage | BindgenAnnotationError | BindgenArgumentError
  | CannotDeriveNamespace | DebugInfoWithoutSourceMap | DiagramBadOption | DiagramFormatUnsupported
  | DiagramNeedsId | DiagramTooLarge | DiagramUnavailable | DiagramUnknownId | DiagramUnknownKind
  | DiagramUsage | DiagramWrongIdKind | DuplicateLinkInput | DuplicateOption | EditionOptionWithManifest
  | EnvironmentSettingInvalid | FastBackendUnavailable | FastBackendUnsupportedOption | FileNotFormatted
  | FindBadArguments | FindUnknownModule | FixBadArguments | FixEditionUnsupported
  | FixEditionWithApplicability | FixMaybeNeedsDryRun | ForeignTargetNotRunnable
  | FormatterChangedSemantics | FormatterInvalidOutput | GuideBadArguments | GuideEditionUnsupported
  | GuideManifestMissing | GuideUnknownStdModule | GuideUnknownTopic | IndexOutOfRange
  | InputCountInvalid | InputExtensionInvalid | InvalidLibraryName | InvalidNamespaceArgument
  | InvalidPublishGitRev | InvalidPublishGitUrl | InvalidRangeFlagSetting | InvalidThreadSetting
  | InvalidTrapSourceMap | KgAmbiguousId | KgUnknownId | LinkInputLimit | McpBadArguments | MissingInput
  | NativeLinkSettingNotAllowed | NetAsyncNeedsBlockOn | NewProjectFolderNotEmpty | NewProjectIoFailure
  | NoSourcesFound | OptionConflict | OptionInvalidForCommand | OptionInvalidValue | OptionMissingValue
  | OptionRequiresBuild | OptionRequiresOption | OptionUnsupportedPlatform | OutputExtensionInvalid
  | ProjectManifestMissing | ProveUnknownFunction | ReplCommandUsage | ReplDeclarationNotAllowed
  | ReplUnknownCommand | ScriptWrongFileKind | TrapInfoWithoutSourceMap | UnknownExplainTarget
  | UnknownGitRevision | UnknownOption | UnknownTarget | UsageError | WasmNetNeedsOptIn
  | WasmOsApiNeedsOptIn | WasmTestRunnerAsync => "E2000"
  | BuildServerControlFailed | BuildServerStartFailed | ForeignRunnerNotStartable | InputNotRegularFile
  | InputNotUtf8 | InputPathNotUtf8 | InputTooLarge | IoFailure | LinkInputUnreadable | ReplStreamFailure
  | TempDirectoryFailed => "E2001"
  | BindgenUnreadableAst | BindgenUnsupportedTarget | BitcodeSymbolNotKept | ExternalToolFailed
  | ExternalToolNotRunnable | ExternalToolOutputTooLarge | ExternalToolReadFailed
  | ExternalToolWaitFailed | FastBackendUnsupportedConstruct | InvalidCoverageCounters
  | PlatformUnsupportedApi | TargetAttributesNotApplicable | TargetAttributesUnreadable
  | ToolchainMissingFeature => "E2002"
  | BindgenOutputNotGenerated | DocFilenameCollision | DocOutputChanged | DocOutputContainsSources
  | DocOutputInvalid | DocOutputNotOwned | DocPublicationFailed | FormatTargetNotRegularFile
  | OutputHasSourceExtension | OutputNotRegularFile | OutputOverwritesInput | OutputOverwritesLinkInput
  | OutputPublicationFailed | SourceChangedDuringFormatting => "E2003"
  | AmbiguousEntryPoint | BuilderFileToplevelCode | EntryPointMissing | EntryPointResultType
  | InvalidMainSignature | SpirvKernelCount | ToplevelCodeOutsideMain => "E2004"
  | BenchmarkFailed | ContractEnsures | ContractRequires | ProgramExitedNonzero | ProgramTerminated
  | ProgramTimeLimitExceeded => "E2005"
  | DocTestFailed | TestsFailed => "E2006"
  | FileUrlAfterHttps | GitCaseCollision | GitCommandFailed | GitMissingManifest | GitNonRegularEntry
  | GitSourceNotUtf8 | GitTreeUnreadable | GitUnsafePath | GitVersionUnsupported | InvalidLockfile
  | LockfileChecksumMismatch | LockfileEntryMissing | LockfileMissing | LockfileNotRegularFile
  | LockfileVersionMismatch | PackageFilesUnreadable | PackageNotDownloaded | PackageStoreUnavailable
  | PackageStoreUnusable | PublishedPackageMismatch | RegistryChecksumMismatch
  | RegistryDependencyNotSelected | RegistryEntryMismatch | RegistryIndexInvalid | RegistryIndexMissing
  | RegistryPackageMissing | RegistryVersionMissing => "E2007"
  | FixSourceChanged | FixVerificationFailed | FixWriteFailed | MigrationEditionBackwards
  | MigrationEditionMismatch | MigrationInvalidEdit | MigrationManifestUpdateFailed
  | MigrationSourceTooLarge | MigrationWriteFailed => "E2008"
  | KgBroken | KgIncomplete | KgMissing | KgNotOurs | KgStale => "E2009"
  | McpIoFailed | McpRootUnusable | McpWorkerFailed => "E2010"
  | DocExampleInvalid => "E2011"
  | UnusedLocal => "W1001"
  | UnusedPrivateFunction | UnusedPrivateType => "W1002"
  | UnreachableMatchArm => "W1003"
  | ShadowedLocal => "W1004"
  | DeprecatedUse => "W1005"
  | ImplicitCopyOfLargeValue => "W1006"
  | BareRangeInFor | LegacyLambda | ShortLiteralSuffix | SymbolicBorrow | SymbolicDeref
  | SymbolicReferenceType => "W1007"
  | EffectAttributeOnConstDef | EffectAttributeUncheckedGeneric => "W1008"
  | ContractAlwaysTrue | ContractResultUnused | ContractTestSkipped => "W1009"
  | UntrustedExtern => "W1010"
  | IntegerOverflowWrapped | ToolNotice => "W2001"
  | BindgenSkippedDeclaration => "W2002"
  end.

(** [since]: there is one group. *)
Definition kind_since (_ : DiagnosticKind) : string := "0.1.0".

(** The arms of [from_id] from one kind on. *)
Fixpoint from_id_in (kinds : list DiagnosticKind) (id : string) : option DiagnosticKind :=
  match kinds with
  | kind :: kinds => if String.eqb id (kind_id kind) then Some kind else from_id_in kinds id
  | [] => None
  end.

Definition from_id (id : string) : option DiagnosticKind := from_id_in ALL id.

(** [code.starts_with('W')] *)
Definition severity (kind : DiagnosticKind) : Severity :=
  match kind_code kind with
  | String "W"%char _ => Severity_Warning
  | _ => Severity_Error
  end.

Definition id_le (k l : DiagnosticKind) : Prop := le (kind_id k) (kind_id l).

#[export] Instance id_le_dec k l : Decision (id_le k l).
Proof. unfold id_le. apply _. Defined.

Definition kinds_with_code (code : string) : list DiagnosticKind :=
  merge_sort id_le (filter (fun kind => kind_code kind = code) ALL).

Definition codes : list string := dedup (merge_sort le (kind_code <$> ALL)).

(** ** The laws of the registry *)

Lemma from_id_complete kind : from_id (kind_id kind) = Some kind.
Proof. by destruct kind; vm_compute. Qed.

Lemma from_id_in_sound kinds id kind : from_id_in kinds id = Some kind -> kind_id kind = id /\ kind ∈ kinds.
Proof.
  induction kinds as [|k kinds IH]; intros Hk; [done|]. cbn [from_id_in] in Hk. destruct (String.eqb_spec id (kind_id k)) as [->|].
  - simplify_eq. split; [done|apply list_elem_of_here].
  - destruct (IH Hk). split; [done|by apply list_elem_of_further].
Qed.

Lemma ALL_complete kind : kind ∈ ALL.
Proof. by apply (from_id_in_sound ALL (kind_id kind)), from_id_complete. Qed.

(** The registry is in the order of codes and identifiers. *)
Definition registry_lt (k l : DiagnosticKind) : Prop := compare (kind_code k, kind_id k) (kind_code l, kind_id l) = Lt.

Fixpoint registry_checked (kinds : list DiagnosticKind) : bool :=
  match kinds with
  | k :: t =>
    match t with
    | l :: _ => match compare (kind_code k, kind_id k) (kind_code l, kind_id l) with Lt => true | _ => false end
    | [] => true
    end && registry_checked t
  | [] => true
  end.

Lemma registry_sorted : StronglySorted registry_lt ALL.
Proof.
  apply Sorted_StronglySorted; [intros k l m; apply compare_trans|].
  assert (registry_checked ALL = true) as Hc by (vm_compute; reflexivity). revert Hc. generalize ALL.
  intros kinds. induction kinds as [|k kinds IH]; [constructor|]. cbn [registry_checked]. intros [Hk Hc]%andb_prop.
  constructor; [by apply IH|]. destruct kinds as [|l kinds]; constructor. unfold registry_lt. by destruct (compare _ _).
Qed.

Lemma filter_strongly {A} (R : A -> A -> Prop) (P : A -> Prop) `{!forall x, Decision (P x)} l :
  StronglySorted R l -> StronglySorted R (filter P l).
Proof.
  induction 1 as [|x l Hl IH Hx]; [constructor|]. rewrite list.Forall_forall in Hx.
  destruct (decide (P x)); [rewrite filter_cons_True|rewrite filter_cons_False]; try done. constructor; [done|].
  apply list.Forall_forall. intros y [_ Hy]%list_elem_of_filter. by apply Hx.
Qed.

(** Sorting what is sorted changes nothing. *)
Lemma merge_sort_id {A} (R : A -> A -> Prop) `{!forall x y, Decision (R x y), !Total R, !Transitive R} l :
  (forall x y, R x y -> R y x -> x = y) -> StronglySorted R l -> merge_sort R l = l.
Proof.
  intros Hanti Hl. assert (AntiSymm (=) R) by (intros x y; apply Hanti).
  apply (StronglySorted_unique R); [by apply StronglySorted_merge_sort|done|apply merge_sort_Permutation].
Qed.

#[export] Instance id_le_total : Total id_le.
Proof. intros k l. apply (le_total (kind_id k) (kind_id l)). Qed.

#[export] Instance id_le_trans : Transitive id_le.
Proof. intros k l m Hk Hl. exact (le_trans (kind_id k) (kind_id l) (kind_id m) Hk Hl). Qed.

Lemma kind_id_inj k l : kind_id k = kind_id l -> k = l.
Proof. intros Heq. pose proof (from_id_complete k) as Hk. rewrite Heq, from_id_complete in Hk. congruence. Qed.

Lemma kinds_with_code_registry code : kinds_with_code code = filter (fun kind => kind_code kind = code) ALL.
Proof.
  apply (merge_sort_id id_le); [intros k l Hk Hl; by apply kind_id_inj, le_antisym|].
  pose proof (filter_strongly _ (fun kind => kind_code kind = code) _ registry_sorted) as Hs.
  assert (forall k, k ∈ filter (fun kind => kind_code kind = code) ALL -> kind_code k = code) as Hcode.
  { by intros k [Hk _]%list_elem_of_filter. }
  revert Hs Hcode. generalize (filter (fun kind => kind_code kind = code) ALL). intros kinds Hs Hcode.
  induction Hs as [|k kinds _ IH Hk]; [constructor|]. constructor; [apply IH; intros l Hl; apply Hcode; by apply list_elem_of_further|].
  rewrite list.Forall_forall in *. intros l Hl. specialize (Hk l Hl). unfold registry_lt in Hk.
  rewrite (Hcode k), (Hcode l) in Hk by (apply list_elem_of_here || by apply list_elem_of_further).
  unfold id_le, le. intros Hgt. change (compare_pair (code, kind_id k) (code, kind_id l) = Lt) in Hk.
  unfold compare_pair in Hk. cbn [fst snd] in Hk. by rewrite compare_refl, Hgt in Hk.
Qed.
