(* ===== verification/Utf8.v ===== *)
(** * UTF-8 text

    The string operations of the Rust standard library that the lexer uses, on the bytes of a [&str]:
    character boundaries, the first character, slices, prefixes, and pushing a character. *)
From S2P Require Import Prelude Wire WireLaws WirePrims.
From stdpp Require Import strings.
From Stdlib Require Import NArith.
Local Open Scope N_scope.

(** The bytes of an ASCII literal of the source. *)
Definition txt (s : string) : list u8 :=
  (fun c => uint_wrap 8 (Ascii.N_of_ascii c)) <$> String.list_ascii_of_string s.

Definition byte_of (n : N) : u8 := uint_wrap 8 n.

(** [starts_with] and [strip_prefix] *)
Fixpoint strip_prefix (prefix bs : list u8) : option (list u8) :=
  match prefix, bs with
  | [], _ => Some bs
  | p :: prefix, b :: bs => if uval p =? uval b then strip_prefix prefix bs else None
  | _ :: _, [] => None
  end.

Definition starts_with (prefix bs : list u8) : bool :=
  match strip_prefix prefix bs with Some _ => true | None => false end.

Definition strip_suffix (suffix bs : list u8) : option (list u8) :=
  let rest := (length bs - length suffix)%nat in
  if (length suffix <=? length bs)%nat && bool_decide (drop rest bs = suffix) then Some (take rest bs) else None.

(** Not a continuation byte: [b as i8 >= -0x40]. *)
Definition is_boundary_byte (b : u8) : bool := negb (cont_in 0x80 0xBF b).

Definition is_char_boundary (bs : list u8) (index : nat) : bool :=
  match bs !! index with
  | Some b => is_boundary_byte b
  | None => Nat.eqb index (length bs)
  end.

(** [utf8_acc_cont_byte] of the standard library. *)
Definition acc_cont_byte (ch : N) (byte : u8) : N := N.lor (N.shiftl ch 6) (N.land (uval byte) 0x3F).

(** The first character and the number of its bytes ([chars().next()] and [len_utf8()]). *)
Definition first_char (bs : list u8) : option (N * nat) :=
  match bs with
  | [] => None
  | b0 :: r0 =>
    if uval b0 <=? 0x7F then Some (uval b0, 1%nat)
    else match r0 with
    | [] => None
    | b1 :: r1 =>
      if uval b0 <=? 0xDF then Some (acc_cont_byte (N.land (uval b0) 0x1F) b1, 2%nat)
      else match r1 with
      | [] => None
      | b2 :: r2 =>
        if uval b0 <=? 0xEF then
          Some (acc_cont_byte (acc_cont_byte (N.land (uval b0) 0x0F) b1) b2, 3%nat)
        else match r2 with
        | [] => None
        | b3 :: _ =>
          Some (acc_cont_byte (acc_cont_byte (acc_cont_byte (N.land (uval b0) 0x07) b1) b2) b3, 4%nat)
        end
      end
    end
  end.

(** [char::encode_utf8] *)
Definition encode_utf8 (c : N) : list u8 :=
  if c <? 0x80 then [byte_of c]
  else if c <? 0x800 then
    [byte_of (N.lor (N.shiftr c 6) 0xC0); byte_of (N.lor (N.land c 0x3F) 0x80)]
  else if c <? 0x10000 then
    [byte_of (N.lor (N.shiftr c 12) 0xE0); byte_of (N.lor (N.land (N.shiftr c 6) 0x3F) 0x80);
     byte_of (N.lor (N.land c 0x3F) 0x80)]
  else
    [byte_of (N.lor (N.shiftr c 18) 0xF0); byte_of (N.lor (N.land (N.shiftr c 12) 0x3F) 0x80);
     byte_of (N.lor (N.land (N.shiftr c 6) 0x3F) 0x80); byte_of (N.lor (N.land c 0x3F) 0x80)].

(** ** Bits as arithmetic *)

Lemma land_63 n : N.land n 0x3F = n mod 64.
Proof. exact (N.land_ones n 6). Qed.

Lemma acc_cont_byte_eq ch b : acc_cont_byte ch b = ch * 64 + uval b mod 64.
Proof.
  unfold acc_cont_byte. rewrite land_63, N.lor_comm, lor_add; [|by apply N.mod_lt]. change (2 ^ 6) with 64. lia.
Qed.

(** A leading byte or a continuation byte of [encode_utf8]. *)
Lemma lead_eq a b s : a < 2 ^ s -> N.lor a (b * 2 ^ s) = a + b * 2 ^ s.
Proof. intros Ha. transitivity (N.lor a (N.shiftl b s)); [by rewrite N.shiftl_mul_pow2|by apply lor_add]. Qed.

Lemma byte_of_eq n (b : u8) : n = uval b -> byte_of n = b.
Proof. intros ->. apply uint_wrap_uval. Qed.

(** ** The sequence of one character *)

Definition valid (bs : list u8) : Prop := utf8_valid bs = true.

(** The bytes [cs] are the encoding of the scalar [c]. *)
Record char_seq (cs : list u8) (c : N) : Prop := {
  seq_first r : first_char (cs ++ r) = Some (c, length cs);
  seq_valid r : utf8_valid (cs ++ r) = utf8_valid r;
  seq_scalar : is_scalar c = true;
  seq_inside i b : (0 < i)%nat -> cs !! i = Some b -> is_boundary_byte b = false;
  seq_head : exists b, cs !! 0%nat = Some b /\ is_boundary_byte b = true;
  seq_encode : encode_utf8 c = cs }.

Ltac byte_cases :=
  repeat match goal with
  | H : (_ && _) = true |- _ => apply andb_prop in H as [? ?]
  | H : cont_in _ _ _ = true |- _ => unfold cont_in in H; apply andb_prop in H as [H ?]
  | H : (_ <=? _) = true |- _ => apply N.leb_le in H
  | H : (_ <=? _) = false |- _ => apply N.leb_gt in H
  end.

Lemma seq_1 b : uval b <= 0x7F -> char_seq [b] (uval b).
Proof.
  intros Hb. apply N.leb_le in Hb as E. split; simpl.
  - intros r. by rewrite E.
  - intros r. by rewrite E.
  - unfold is_scalar. apply N.leb_le in E. rewrite (proj2 (N.leb_le (uval b) 0xD7FF)); [done|lia].
  - intros [|i] b' Hi; [lia|done].
  - exists b. split; [done|]. unfold is_boundary_byte, cont_in. rewrite (proj2 (N.leb_gt 0x80 (uval b))); [done|lia].
  - unfold encode_utf8. rewrite (proj2 (N.ltb_lt _ _)) by lia. f_equal. by apply byte_of_eq.
Qed.

Lemma div_small a b d : b < d -> (a * d + b) / d = a.
Proof. intros. symmetry. apply (N.div_unique _ _ _ b); lia. Qed.

Lemma mod_small_add a b d : b < d -> (a * d + b) mod d = b.
Proof. intros. symmetry. apply (N.mod_unique _ _ a); lia. Qed.

Lemma shift_div a k : N.shiftr a k = a / 2 ^ k.
Proof. apply N.shiftr_div_pow2. Qed.

Lemma cont_eq n : byte_of (N.lor (N.land n 0x3F) 0x80) = byte_of (n mod 64 + 0x80).
Proof. f_equal. rewrite land_63. apply (lead_eq _ 2 6). by apply N.mod_lt. Qed.

Lemma encode_2 c : 0x80 <= c < 0x800 -> encode_utf8 c = [byte_of (c / 64 + 0xC0); byte_of (c mod 64 + 0x80)].
Proof.
  intros Hc. unfold encode_utf8. rewrite (proj2 (N.ltb_ge c 0x80)), (proj2 (N.ltb_lt c 0x800)) by lia.
  rewrite cont_eq, shift_div. do 2 f_equal. apply (lead_eq _ 6 5). change (c / 64 < 32). apply N.Div0.div_lt_upper_bound; lia.
Qed.

Lemma encode_3 c : 0x800 <= c < 0x10000 -> encode_utf8 c =
  [byte_of (c / 4096 + 0xE0); byte_of (c / 64 mod 64 + 0x80); byte_of (c mod 64 + 0x80)].
Proof.
  intros Hc. unfold encode_utf8.
  rewrite (proj2 (N.ltb_ge c 0x80)), (proj2 (N.ltb_ge c 0x800)), (proj2 (N.ltb_lt c 0x10000)) by lia.
  rewrite !cont_eq, !shift_div. do 2 f_equal. apply (lead_eq _ 14 4). change (c / 4096 < 16). apply N.Div0.div_lt_upper_bound; lia.
Qed.

Lemma encode_4 c : 0x10000 <= c < 0x110000 -> encode_utf8 c =
  [byte_of (c / 262144 + 0xF0); byte_of (c / 4096 mod 64 + 0x80); byte_of (c / 64 mod 64 + 0x80);
   byte_of (c mod 64 + 0x80)].
Proof.
  intros Hc. unfold encode_utf8.
  rewrite (proj2 (N.ltb_ge c 0x80)), (proj2 (N.ltb_ge c 0x800)), (proj2 (N.ltb_ge c 0x10000)) by lia.
  rewrite !cont_eq, !shift_div. do 2 f_equal. apply (lead_eq _ 30 3). change (c / 262144 < 8). apply N.Div0.div_lt_upper_bound; lia.
Qed.

(** The value of a byte with a known leading pattern. *)
Lemma low_eq n q k : q * 2 ^ k <= n < (q + 1) * 2 ^ k -> N.land n (N.ones k) = n - q * 2 ^ k.
Proof.
  intros Hn. rewrite N.land_ones. symmetry. apply (N.mod_unique _ _ q); [lia|]. lia.
Qed.

Lemma cont_value (b : u8) : 0x80 <= uval b <= 0xBF -> uval b mod 64 = uval b - 0x80.
Proof. intros Hb. symmetry. apply (N.mod_unique _ _ 2); lia. Qed.

Lemma is_scalar_true c : c <= 0xD7FF \/ 0xE000 <= c <= 0x10FFFF -> is_scalar c = true.
Proof.
  intros [Hc|[Hc Hc']]; unfold is_scalar; [by rewrite (proj2 (N.leb_le _ _) Hc)|].
  rewrite (proj2 (N.leb_le _ _) Hc), (proj2 (N.leb_le _ _) Hc'). apply orb_true_r.
Qed.

Lemma not_boundary b : 0x80 <= uval b <= 0xBF -> is_boundary_byte b = false.
Proof. intros Hb. unfold is_boundary_byte, cont_in. by rewrite !(proj2 (N.leb_le _ _)) by lia. Qed.

Lemma boundary b : 0xC0 <= uval b -> is_boundary_byte b = true.
Proof.
  intros Hb. unfold is_boundary_byte, cont_in. rewrite (proj2 (N.leb_gt (uval b) 0xBF)) by lia.
  by rewrite andb_false_r.
Qed.

Lemma cont_in_true low high b : low <= uval b <= high -> cont_in low high b = true.
Proof. intros Hb. unfold cont_in. by rewrite !(proj2 (N.leb_le _ _)) by lia. Qed.

Lemma cont_in_false low high b : uval b < low \/ high < uval b -> cont_in low high b = false.
Proof.
  intros [Hb|Hb]; unfold cont_in; rewrite (proj2 (N.leb_gt _ _) Hb); [done|apply andb_false_r].
Qed.

Lemma seq_2 b0 b1 : 0xC2 <= uval b0 <= 0xDF -> 0x80 <= uval b1 <= 0xBF ->
  char_seq [b0; b1] ((uval b0 - 0xC0) * 64 + (uval b1 - 0x80)).
Proof.
  intros H0 H1. split.
  - intros r. cbn [app first_char]. rewrite (proj2 (N.leb_gt (uval b0) 0x7F)), (proj2 (N.leb_le (uval b0) 0xDF)) by lia.
    rewrite acc_cont_byte_eq, cont_value, (low_eq _ 6 5) by lia. done.
  - intros r. cbn [app utf8_valid]. rewrite (proj2 (N.leb_gt (uval b0) 0x7F)) by lia.
    by rewrite !cont_in_true by lia.
  - apply is_scalar_true. lia.
  - intros [|[|i]] b Hi; [lia| |done]. intros [= <-]. by apply not_boundary.
  - exists b0. split; [done|]. apply boundary. lia.
  - rewrite encode_2 by lia. f_equal; [|f_equal]; apply byte_of_eq.
    + rewrite div_small by lia. lia.
    + rewrite mod_small_add by lia. lia.
Qed.


Lemma seq_3 b0 b1 b2 : 0xE0 <= uval b0 <= 0xEF -> 0x80 <= uval b1 <= 0xBF -> 0x80 <= uval b2 <= 0xBF ->
  (uval b0 = 0xE0 -> 0xA0 <= uval b1) -> (uval b0 = 0xED -> uval b1 <= 0x9F) ->
  char_seq [b0; b1; b2] (((uval b0 - 0xE0) * 64 + (uval b1 - 0x80)) * 64 + (uval b2 - 0x80)).
Proof.
  intros H0 H1 H2 Hlow Hhigh. split.
  - intros r. cbn [app first_char].
    rewrite (proj2 (N.leb_gt (uval b0) 0x7F)), (proj2 (N.leb_gt (uval b0) 0xDF)), (proj2 (N.leb_le (uval b0) 0xEF)) by lia.
    rewrite !acc_cont_byte_eq, !cont_value, (low_eq _ 14 4) by lia. done.
  - intros r. cbn [app utf8_valid]. rewrite (proj2 (N.leb_gt (uval b0) 0x7F)) by lia.
    rewrite (cont_in_false 0xC2), (cont_in_true 0xE0) by lia.
    destruct (N.eqb_spec (uval b0) 0xE0), (N.eqb_spec (uval b0) 0xED); try lia; by rewrite !cont_in_true by lia.
  - apply is_scalar_true. destruct (decide (uval b0 = 0xE0)), (decide (uval b0 = 0xED)); lia.
  - intros [|[|[|i]]] b Hi; [lia| | |done]; intros [= <-]; by apply not_boundary.
  - exists b0. split; [done|]. apply boundary. lia.
  - rewrite encode_3 by (destruct (decide (uval b0 = 0xE0)); lia). repeat f_equal; try apply byte_of_eq.
    + rewrite <- N.Div0.div_div with (b := 64) (c := 64). rewrite !div_small by lia. lia.
    + rewrite div_small, mod_small_add by lia. lia.
    + rewrite mod_small_add by lia. lia.
Qed.

Lemma seq_4 b0 b1 b2 b3 : 0xF0 <= uval b0 <= 0xF4 -> 0x80 <= uval b1 <= 0xBF -> 0x80 <= uval b2 <= 0xBF ->
  0x80 <= uval b3 <= 0xBF -> (uval b0 = 0xF0 -> 0x90 <= uval b1) -> (uval b0 = 0xF4 -> uval b1 <= 0x8F) ->
  char_seq [b0; b1; b2; b3]
    ((((uval b0 - 0xF0) * 64 + (uval b1 - 0x80)) * 64 + (uval b2 - 0x80)) * 64 + (uval b3 - 0x80)).
Proof.
  intros H0 H1 H2 H3 Hlow Hhigh. split.
  - intros r. cbn [app first_char].
    rewrite (proj2 (N.leb_gt (uval b0) 0x7F)), (proj2 (N.leb_gt (uval b0) 0xDF)), (proj2 (N.leb_gt (uval b0) 0xEF)) by lia.
    rewrite !acc_cont_byte_eq, !cont_value, (low_eq _ 30 3) by lia. done.
  - intros r. cbn [app utf8_valid]. rewrite (proj2 (N.leb_gt (uval b0) 0x7F)) by lia.
    rewrite (cont_in_false 0xC2), (cont_in_false 0xE0), (cont_in_true 0xF0) by lia.
    destruct (N.eqb_spec (uval b0) 0xF0), (N.eqb_spec (uval b0) 0xF4); try lia; by rewrite !cont_in_true by lia.
  - apply is_scalar_true. destruct (decide (uval b0 = 0xF0)), (decide (uval b0 = 0xF4)); lia.
  - intros [|[|[|[|i]]]] b Hi; [lia| | | |done]; intros [= <-]; by apply not_boundary.
  - exists b0. split; [done|]. apply boundary. lia.
  - rewrite encode_4 by (destruct (decide (uval b0 = 0xF0)), (decide (uval b0 = 0xF4)); lia).
    repeat f_equal; try apply byte_of_eq.
    + rewrite <- N.Div0.div_div with (b := 4096) (c := 64). rewrite <- N.Div0.div_div with (b := 64) (c := 64).
      rewrite !div_small by lia. lia.
    + rewrite <- N.Div0.div_div with (b := 64) (c := 64). rewrite !div_small, mod_small_add by lia. lia.
    + rewrite div_small, mod_small_add by lia. lia.
    + rewrite mod_small_add by lia. lia.
Qed.

(** Valid text is empty or starts with the sequence of a character. *)
Lemma valid_inv bs : valid bs -> bs = [] \/ exists cs c r, bs = cs ++ r /\ char_seq cs c /\ valid r.
Proof.
  unfold valid. intros Hv. destruct bs as [|b0 r0]; [by left|right]. cbn [utf8_valid] in Hv.
  destruct (N.leb_spec (uval b0) 0x7F) as [H0|H0].
  { exists [b0], (uval b0), r0. split_and!; [done|by apply seq_1|done]. }
  destruct r0 as [|b1 r1]; [done|]. destruct (cont_in 0xC2 0xDF b0) eqn:E.
  { byte_cases. exists [b0; b1]. eexists. exists r1. split_and!; [done|apply seq_2; lia|done]. }
  destruct r1 as [|b2 r2]; [done|]. clear E. destruct (cont_in 0xE0 0xEF b0) eqn:E.
  { byte_cases. exists [b0; b1; b2]. eexists. exists r2. split_and!; [done|apply seq_3|done]; try lia;
      destruct (N.eqb_spec (uval b0) 0xE0), (N.eqb_spec (uval b0) 0xED); lia. }
  destruct r2 as [|b3 r3]; [done|]. clear E. byte_cases.
  exists [b0; b1; b2; b3]. eexists. exists r3. split_and!; [done|apply seq_4|done]; try lia;
    destruct (N.eqb_spec (uval b0) 0xF0), (N.eqb_spec (uval b0) 0xF4); lia.
Qed.

Lemma seq_length cs c : char_seq cs c -> (1 <= length cs)%nat.
Proof. intros Hs. destruct (seq_head _ _ Hs) as (b & Hb & _). apply lookup_lt_Some in Hb. lia. Qed.

(** Induction on valid text, one character at a time. *)
Lemma valid_ind (P : list u8 -> Prop) : P [] ->
  (forall cs c r, char_seq cs c -> valid r -> P r -> P (cs ++ r)) -> forall bs, valid bs -> P bs.
Proof.
  intros Hnil Hcons bs. remember (length bs) as n eqn:E. revert bs E.
  induction (lt_wf n) as [n _ IH]. intros bs -> Hv.
  destruct (valid_inv bs Hv) as [->|(cs & c & r & -> & Hs & Hr)]; [done|].
  apply (Hcons cs c r Hs Hr), (IH (length r)); [|done|done].
  rewrite length_app. pose proof (seq_length _ _ Hs). lia.
Qed.

Lemma valid_app xs ys : valid xs -> valid ys -> valid (xs ++ ys).
Proof.
  intros Hx Hy. induction Hx as [|cs c r Hs _ IH] using valid_ind; [done|].
  rewrite <- app_assoc. unfold valid in *. by rewrite (seq_valid _ _ Hs).
Qed.

Lemma valid_seq cs c : char_seq cs c -> valid cs.
Proof. intros Hs. unfold valid. rewrite <- (app_nil_r cs). by rewrite (seq_valid _ _ Hs). Qed.

Lemma valid_skip cs c r : char_seq cs c -> valid (cs ++ r) -> valid r.
Proof. intros Hs. unfold valid. by rewrite (seq_valid _ _ Hs). Qed.

(** The encoding of a scalar is its sequence. *)
Lemma byte_of_value n : n < 256 -> uval (byte_of n) = n.
Proof. intros Hn. by apply uval_wrap_small. Qed.

Lemma scalar_bounds c : is_scalar c = true -> c <= 0xD7FF \/ 0xE000 <= c <= 0x10FFFF.
Proof.
  unfold is_scalar. intros [Hc|Hc]%orb_prop; byte_cases; [left|right]; lia.
Qed.

Lemma join_2 c q r : c = 64 * q + r -> q * 64 + r = c.
Proof. lia. Qed.

Lemma join_3 c q r q' r' : c = 64 * q + r -> q = 64 * q' + r' -> (q' * 64 + r') * 64 + r = c.
Proof. lia. Qed.

Lemma join_4 c q r q' r' q'' r'' : c = 64 * q + r -> q = 64 * q' + r' -> q' = 64 * q'' + r'' ->
  ((q'' * 64 + r'') * 64 + r') * 64 + r = c.
Proof. lia. Qed.

Lemma encode_seq c : is_scalar c = true -> char_seq (encode_utf8 c) c.
Proof.
  intros Hc%scalar_bounds.
  pose proof (N.div_mod c 64 ltac:(done)) as E1. pose proof (N.mod_lt c 64 ltac:(done)) as L1.
  pose proof (N.div_mod (c / 64) 64 ltac:(done)) as E2. pose proof (N.mod_lt (c / 64) 64 ltac:(done)) as L2.
  rewrite N.Div0.div_div in E2. change (64 * 64) with 4096 in E2.
  pose proof (N.div_mod (c / 4096) 64 ltac:(done)) as E3. pose proof (N.mod_lt (c / 4096) 64 ltac:(done)) as L3.
  rewrite N.Div0.div_div in E3. change (4096 * 64) with 262144 in E3.
  destruct (N.lt_ge_cases c 0x80) as [H1|H1].
  { unfold encode_utf8. rewrite (proj2 (N.ltb_lt c 0x80) H1).
    rewrite <- (byte_of_value c) at 2 by lia. apply seq_1. rewrite byte_of_value; lia. }
  destruct (N.lt_ge_cases c 0x800) as [H2|H2].
  { rewrite encode_2 by lia. rewrite <- (join_2 _ _ _ E1) at 3. clear E1 E2 E3 L2 L3.
    assert (2 <= c / 64 < 32) by (split; [apply N.div_le_lower_bound; lia|apply N.Div0.div_lt_upper_bound; lia]).
    pose proof (seq_2 (byte_of (c / 64 + 0xC0)) (byte_of (c mod 64 + 0x80))) as Hs.
    revert Hs L1 H. generalize (c / 64) (c mod 64). intros q r Hs L1 H.
    rewrite !byte_of_value, !N.add_sub in Hs by lia. apply Hs; lia. }
  destruct (N.lt_ge_cases c 0x10000) as [H3|H3].
  { rewrite encode_3 by lia. rewrite <- (join_3 _ _ _ _ _ E1 E2) at 4.
    assert (c / 4096 < 16) by (apply N.Div0.div_lt_upper_bound; lia).
    pose proof (seq_3 (byte_of (c / 4096 + 0xE0)) (byte_of (c / 64 mod 64 + 0x80)) (byte_of (c mod 64 + 0x80))) as Hs.
    clear E3 L3. revert Hs L1 L2 H E1 E2. generalize (c / 64 mod 64). generalize (c / 4096) (c / 64) (c mod 64).
    intros q2 q1 r1 r2 Hs L1 L2 H E1 E2.
    rewrite !byte_of_value, !N.add_sub in Hs by lia. apply Hs; lia. }
  rewrite encode_4 by lia. rewrite <- (join_4 _ _ _ _ _ _ _ E1 E2 E3) at 5.
  assert (c / 262144 < 5) by (apply N.Div0.div_lt_upper_bound; lia).
  pose proof (seq_4 (byte_of (c / 262144 + 0xF0)) (byte_of (c / 4096 mod 64 + 0x80)) (byte_of (c / 64 mod 64 + 0x80))
    (byte_of (c mod 64 + 0x80))) as Hs.
  revert Hs L1 L2 L3 H E1 E2 E3. generalize (c / 64 mod 64) (c / 4096 mod 64).
  generalize (c / 262144) (c / 4096) (c / 64) (c mod 64). intros q3 q2 q1 r1 r2 r3 Hs L1 L2 L3 H E1 E2 E3.
  rewrite !byte_of_value, !N.add_sub in Hs by lia. apply Hs; lia.
Qed.

Lemma valid_encode c : is_scalar c = true -> valid (encode_utf8 c).
Proof. intros Hc. by eapply valid_seq, encode_seq. Qed.

Local Open Scope nat_scope.

(** ** Boundaries *)

Definition at_boundary (bs : list u8) (i : nat) : Prop := i <= length bs /\ valid (drop i bs).

Lemma at_boundary_0 bs : valid bs -> at_boundary bs 0.
Proof. intros Hv. split; [lia|done]. Qed.

Lemma at_boundary_end bs : at_boundary bs (length bs).
Proof. split; [lia|]. by rewrite drop_all. Qed.

Lemma at_boundary_add bs i j : at_boundary bs i -> at_boundary (drop i bs) j -> at_boundary bs (i + j).
Proof.
  intros [Hi _] [Hj Hv]. rewrite length_drop in Hj. rewrite drop_drop in Hv. split; [lia|done].
Qed.

Lemma valid_head bs b : valid bs -> bs !! 0 = Some b -> is_boundary_byte b = true.
Proof.
  intros [->|(cs & c & r & -> & Hs & _)]%valid_inv Hb; [done|].
  destruct (seq_head _ _ Hs) as (b' & Hb' & Hbd). rewrite lookup_app_l in Hb; [congruence|].
  by apply lookup_lt_Some in Hb'.
Qed.

Lemma at_boundary_is bs i : at_boundary bs i -> is_char_boundary bs i = true.
Proof.
  intros [Hi Hv]. unfold is_char_boundary. destruct (bs !! i) as [b|] eqn:Hb.
  - apply (valid_head (drop i bs)); [done|]. by rewrite lookup_drop, Nat.add_0_r.
  - apply lookup_ge_None in Hb. apply Nat.eqb_eq. lia.
Qed.

(** The first character of the text at a boundary. *)
Lemma first_char_at bs i : at_boundary bs i -> i < length bs ->
  exists c l, first_char (drop i bs) = Some (c, l) /\ is_scalar c = true /\ 1 <= l /\
    at_boundary bs (i + l) /\ take l (drop i bs) = encode_utf8 c.
Proof.
  intros [Hi Hv] Hlt. destruct (valid_inv _ Hv) as [E|(cs & c & r & E & Hs & Hr)].
  { apply (f_equal length) in E. rewrite length_drop in E. simpl in E. lia. }
  exists c, (length cs). rewrite E, (seq_first _ _ Hs), (seq_encode _ _ Hs), take_app_length.
  pose proof (f_equal length E) as El. rewrite length_drop, length_app in El. pose proof (seq_length _ _ Hs).
  split_and!; [done|by apply (seq_scalar _ _ Hs)|done| |done].
  split; [lia|]. rewrite <- drop_drop, E, drop_app_length. done.
Qed.

Lemma first_char_None bs : first_char bs = None -> valid bs -> bs = [].
Proof.
  intros Hf [->|(cs & c & r & -> & Hs & _)]%valid_inv; [done|]. by rewrite (seq_first _ _ Hs) in Hf.
Qed.

Lemma ascii_seq b : (uval b < 0x80)%N -> char_seq [b] (uval b).
Proof. intros Hb. apply seq_1. lia. Qed.

Lemma at_boundary_ascii bs i b : at_boundary bs i -> bs !! i = Some b -> (uval b < 0x80)%N -> at_boundary bs (S i).
Proof.
  intros [Hi Hv] Hb Ha. split; [by apply lookup_lt_Some in Hb|].
  rewrite (drop_S bs b i Hb) in Hv. by apply (valid_skip [b] (uval b) (drop (S i) bs) (ascii_seq b Ha)).
Qed.

(** A character below 128 is one byte. *)
Lemma first_char_ascii bs i c l : at_boundary bs i -> first_char (drop i bs) = Some (c, l) -> (c < 0x80)%N ->
  l = 1 /\ exists b, bs !! i = Some b /\ uval b = c.
Proof.
  intros Hi Hf Hc. destruct (decide (i < length bs)) as [Hlt|Hge].
  2: { rewrite drop_ge in Hf by lia. done. }
  destruct (first_char_at bs i Hi Hlt) as (c' & l' & Hf' & _ & _ & [Hb _] & Ht). rewrite Hf in Hf'. simplify_eq.
  unfold encode_utf8 in Ht. rewrite (proj2 (N.ltb_lt c' 0x80) Hc) in Ht.
  assert (l' = 1) as ->. { apply (f_equal length) in Ht. rewrite length_take, length_drop in Ht. simpl in Ht. lia. }
  split; [done|]. exists (byte_of c'). split; [|apply byte_of_value; lia].
  destruct (drop i bs) as [|b r] eqn:E; [done|]. simpl in Ht. injection Ht as ->.
  rewrite <- (Nat.add_0_r i), <- lookup_drop. by rewrite E.
Qed.

(** ** Slices *)

Lemma valid_take bs i : valid bs -> valid (drop i bs) -> valid (take i bs).
Proof.
  intros Hv. revert i. induction Hv as [|cs c r Hs _ IH] using valid_ind; intros i Hd; [by rewrite take_nil|].
  destruct (decide (length cs <= i)) as [Hle|Hlt].
  - rewrite take_app_ge by done. rewrite drop_app_ge in Hd by done. apply valid_app; [by eapply valid_seq|by apply IH].
  - destruct i as [|i]; [done|]. exfalso.
    destruct (lookup_lt_is_Some_2 cs (S i)) as [b Hb]; [lia|].
    pose proof (seq_inside _ _ Hs (S i) b ltac:(lia) Hb) as Hin.
    pose proof (valid_head _ b Hd) as Hhd. rewrite lookup_drop, Nat.add_0_r, lookup_app_l in Hhd by lia.
    specialize (Hhd Hb). congruence.
Qed.

(** [&source[a..b]] *)
Definition between (bs : list u8) (a b : nat) : list u8 := take (b - a) (drop a bs).

Lemma valid_between bs a b : at_boundary bs a -> at_boundary bs b -> a <= b -> valid (between bs a b).
Proof.
  intros [Ha Hva] [Hb Hvb] Hab. apply valid_take; [done|]. rewrite drop_drop. by replace (a + (b - a)) with b by lia.
Qed.

Lemma between_app bs a b c : a <= b <= c -> between bs a c = between bs a b ++ between bs b c.
Proof.
  intros Hab. unfold between. replace (drop b bs) with (drop (b - a) (drop a bs)) by (rewrite drop_drop; f_equal; lia).
  replace (c - a) with ((b - a) + (c - b)) by lia. by rewrite <- take_take_drop.
Qed.

Lemma length_between bs a b : a <= b <= length bs -> length (between bs a b) = b - a.
Proof. intros Hab. unfold between. rewrite length_take, length_drop. lia. Qed.

(** ** Prefixes *)

Lemma strip_prefix_Some prefix bs r : strip_prefix prefix bs = Some r -> bs = prefix ++ r.
Proof.
  revert bs. induction prefix as [|p prefix IH]; intros bs; simpl; [by intros [= ->]|].
  destruct bs as [|b bs]; [done|]. destruct (N.eqb_spec (uval p) (uval b)) as [E|]; [|done].
  intros ->%IH. apply uint_eq in E as ->. done.
Qed.

Lemma strip_prefix_app prefix r : strip_prefix prefix (prefix ++ r) = Some r.
Proof. induction prefix as [|p prefix IH]; simpl; [done|]. by rewrite N.eqb_refl. Qed.

Lemma starts_with_true prefix bs : starts_with prefix bs = true <-> exists r, bs = prefix ++ r.
Proof.
  unfold starts_with. split.
  - destruct (strip_prefix prefix bs) as [r|] eqn:E; [|done]. intros _. exists r. by apply strip_prefix_Some.
  - intros [r ->]. by rewrite strip_prefix_app.
Qed.

Lemma strip_suffix_Some suffix bs r : strip_suffix suffix bs = Some r <-> bs = r ++ suffix.
Proof.
  unfold strip_suffix. split.
  - destruct (_ && _) eqn:E; [|done]. intros [= <-]. apply andb_prop in E as [_ E%bool_decide_eq_true_1].
    rewrite <- E at 2. by rewrite take_drop.
  - intros ->. rewrite length_app. replace (length r + length suffix - length suffix) with (length r) by lia.
    rewrite drop_app_length, take_app_length, bool_decide_eq_true_2 by done.
    by rewrite (proj2 (Nat.leb_le _ _)) by lia.
Qed.

Definition ascii (bs : list u8) : Prop := Forall (fun b => (uval b < 0x80)%N) bs.

Lemma at_boundary_prefix bs i prefix : at_boundary bs i -> starts_with prefix (drop i bs) = true -> ascii prefix ->
  at_boundary bs (i + length prefix).
Proof.
  intros Hi [r E]%starts_with_true Ha. revert i Hi E. induction Ha as [|b prefix Hb _ IH]; intros i Hi E.
  { by rewrite Nat.add_0_r. }
  simpl. rewrite <- Nat.add_succ_comm. assert (bs !! i = Some b) as Hl.
  { rewrite <- (Nat.add_0_r i), <- lookup_drop. by rewrite E. }
  apply IH; [by eapply at_boundary_ascii|]. rewrite (drop_S bs b i Hl) in E. by injection E.
Qed.

Lemma ascii_valid bs : ascii bs -> valid bs.
Proof.
  induction 1 as [|b bs Hb _ IH]; [done|]. change (b :: bs) with ([b] ++ bs). apply valid_app; [|done].
  eapply valid_seq. by apply ascii_seq.
Qed.
