(* ===== verification/Chars.v ===== *)
(** * Characters and numbers in text

    The classes of ASCII bytes, digits, [chars], and the text of a number, as the lexer and the diagnostics use them. *)
From Stdlib Require Import Ascii.
From stdpp Require Import strings.
From S2P Require Import Prelude Wire Utf8.
Local Open Scope N_scope.

(** The number of an ASCII character. *)
Definition ch (c : Ascii.ascii) : N := Ascii.N_of_ascii c.
#[global] Arguments ch c%_char_scope.

Definition is_char (b : u8) (c : Ascii.ascii) : bool := uval b =? ch c.
#[global] Arguments is_char b c%_char_scope.

Definition in_range (low high c : N) : bool := (low <=? c) && (c <=? high).

Definition NEWLINE : N := 10.
Definition RETURN : N := 13.

Definition is_newline (b : u8) : bool := (uval b =? NEWLINE) || (uval b =? RETURN).
Definition is_ascii_whitespace (b : u8) : bool :=
  (uval b =? 32) || (uval b =? 9) || (uval b =? NEWLINE) || (uval b =? 12) || (uval b =? RETURN).
Definition is_ascii_uppercase (b : u8) : bool := in_range (ch "A") (ch "Z") (uval b).
Definition is_ascii_lowercase (b : u8) : bool := in_range (ch "a") (ch "z") (uval b).
Definition is_ascii_alphabetic (b : u8) : bool := is_ascii_uppercase b || is_ascii_lowercase b.
Definition is_ascii_digit (b : u8) : bool := in_range (ch "0") (ch "9") (uval b).
Definition is_ascii_alphanumeric (b : u8) : bool := is_ascii_alphabetic b || is_ascii_digit b.
Definition is_word_byte (b : u8) : bool := is_ascii_alphanumeric b || is_char b "_".

(** [(b as char).to_digit(radix)] for a radix up to 16. *)
Definition to_digit (radix : N) (b : u8) : option N :=
  let c := uval b in
  let value :=
    if in_range (ch "0") (ch "9") c then Some (c - ch "0")
    else if in_range (ch "a") (ch "f") c then Some (c - ch "a" + 10)
    else if in_range (ch "A") (ch "F") c then Some (c - ch "A" + 10)
    else None in
  match value with Some v => if v <? radix then Some v else None | None => None end.

Definition is_digit (radix : N) (b : u8) : bool :=
  match to_digit radix b with Some _ => true | None => false end.

Definition is_ascii_hexdigit (b : u8) : bool := is_digit 16 b.

(** [u32::from_str_radix(text, 16)] of hexadecimal digits. *)
Definition from_str_radix_16 (text : list u8) : option u32 :=
  if bool_decide (text = []) then None
  else
    let value := foldl (fun acc b => acc * 16 + default 0 (to_digit 16 b)) 0 text in
    uint_try (w := 32) value.

(** The digits of a number below [radix ^ fuel], before [digits]. *)
Fixpoint digits_of (radix : N) (digit : N -> u8) (fuel : nat) (n : N) (digits : list u8) : list u8 :=
  match fuel with
  | O => digits
  | S fuel =>
    let digits := digit (n mod radix) :: digits in
    if n / radix =? 0 then digits else digits_of radix digit fuel (n / radix) digits
  end.

Definition decimal : nat -> N -> list u8 -> list u8 := digits_of 10 (fun d => byte_of (d + ch "0")).

(** [text.chars().collect()] *)
Fixpoint chars (fuel : nat) (text : list u8) : list N :=
  match fuel, first_char text with
  | S fuel, Some (c, len) => c :: chars fuel (drop len text)
  | _, _ => []
  end.

(** ** The digits of a number *)

Local Open Scope nat_scope.

Section digits.
Context (radix : N) (digit : N -> u8) (Hradix : (1 < radix)%N).

Lemma digits_of_all (P : u8 -> Prop) fuel n digits : (forall d, (d < radix)%N -> P (digit d)) -> Forall P digits ->
  Forall P (digits_of radix digit fuel n digits).
Proof.
  intros Hd. revert n digits. induction fuel as [|fuel IH]; intros n digits Hp; [done|]. cbn [digits_of].
  assert (Forall P (digit (n mod radix) :: digits)) by (constructor; [apply Hd, N.mod_lt; lia|done]).
  destruct (_ =? 0)%N; [done|]. by apply IH.
Qed.

Lemma digits_of_grows fuel m digits : 0 < fuel -> length digits < length (digits_of radix digit fuel m digits).
Proof.
  revert m digits. induction fuel as [|fuel IH]; intros m digits Hf; [lia|]. cbn [digits_of]. destruct (_ =? 0)%N; [cbn; lia|].
  destruct fuel as [|fuel]; [cbn; lia|]. etransitivity; [|apply IH; lia]. cbn. lia.
Qed.

Lemma digits_of_single fuel n : 1 < fuel -> length (digits_of radix digit fuel n []) = 1 <-> (n < radix)%N.
Proof.
  destruct fuel as [|fuel]; [lia|]. intros Hf. cbn [digits_of]. destruct (N.eqb_spec (n / radix) 0) as [E|E].
  - apply N.div_small_iff in E; [|lia]. cbn. lia.
  - pose proof (digits_of_grows fuel (n / radix) [digit (n mod radix)] ltac:(lia)) as Hl. cbn [length] in Hl.
    split; [lia|]. intros Hlt. destruct E. by apply N.div_small.
Qed.

(** The first digit is not zero, except in zero itself. *)
Lemma digits_of_head fuel n digits : (n < radix ^ N.of_nat fuel)%N -> (0 < n)%N ->
  exists d r, digits_of radix digit fuel n digits = digit d :: r /\ (0 < d < radix)%N.
Proof.
  revert n digits. induction fuel as [|fuel IH]; intros n digits Hn Hp; [cbn in Hn; lia|]. cbn [digits_of].
  rewrite Nat2N.inj_succ, N.pow_succ_r' in Hn.
  destruct (N.eqb_spec (n / radix) 0) as [E|E].
  - apply N.div_small_iff in E; [|lia]. exists (n mod radix)%N, digits. rewrite N.mod_small by done. done.
  - apply IH; [apply N.Div0.div_lt_upper_bound; lia|by apply N.neq_0_lt_0].
Qed.

(** Reading the digits gives the number. *)
Lemma digits_of_value fuel n digits (value : u8 -> N) : (forall d, (d < radix)%N -> value (digit d) = d) -> (n < radix ^ N.of_nat fuel)%N ->
  foldl (fun acc b => acc * radix + value b)%N 0%N (digits_of radix digit fuel n digits) =
    foldl (fun acc b => acc * radix + value b)%N n digits.
Proof.
  intros Hv. revert n digits. induction fuel as [|fuel IH]; intros n digits Hn; [cbn in Hn; replace n with 0%N by lia; done|].
  cbn [digits_of]. rewrite Nat2N.inj_succ, N.pow_succ_r' in Hn. destruct (N.eqb_spec (n / radix) 0) as [E|E].
  - apply N.div_small_iff in E; [|lia]. cbn [foldl]. rewrite Hv by (apply N.mod_lt; lia). by rewrite N.mod_small.
  - rewrite IH by (apply N.Div0.div_lt_upper_bound; lia). cbn [foldl]. rewrite Hv by (apply N.mod_lt; lia). f_equal.
    rewrite (N.div_mod' n radix) at 3. lia.
Qed.
End digits.

Lemma forallb_elem {A} (f : A -> bool) xs x : forallb f xs = true -> x ∈ xs -> f x = true.
Proof. intros Hf Hx. eapply forallb_forall; [done|]. by apply list_elem_of_In. Qed.
