(* ===== verification/Text.v ===== *)
(** * Text operations

    The operations of [str] and of formatting that the messages and reports use, on bytes: splitting, lines, numbers
    in decimal and hexadecimal, joining. *)
From Stdlib Require Import Ascii.
From stdpp Require Import list strings.
From S2P Require Import Prelude Wire Utf8.
From S2P Require Export Chars.
Local Open Scope nat_scope.

(** A quotation mark, and a key of a JSON object with its colon. *)
Definition DQ : list u8 := [byte_of 34].
Definition key (name : string) : list u8 := DQ ++ txt name ++ DQ ++ txt ":".

(** [split(c)] for an ASCII [c]; the result is never empty. *)
Fixpoint split_on (c : Ascii.ascii) (bs : list u8) : list (list u8) :=
  match bs with
  | [] => [[]]
  | b :: bs =>
    if is_char b c then [] :: split_on c bs
    else match split_on c bs with piece :: rest => (b :: piece) :: rest | [] => [[b]] end
  end.
#[global] Arguments split_on c%_char_scope bs.

Definition LF : Ascii.ascii := Ascii.ascii_of_nat 10.

(** The line without the carriage return before its line feed. *)
Definition strip_return (line : list u8) : list u8 :=
  match list.last line with Some b => if (uval b =? RETURN)%N then removelast line else line | None => line end.

(** The pieces between line feeds as [lines] gives them: the last one has no line feed and is left out when empty. *)
Fixpoint ended_lines (pieces : list (list u8)) : list (list u8) :=
  match pieces with
  | [] => []
  | [piece] => match piece with [] => [] | _ => [piece] end
  | piece :: rest => strip_return piece :: ended_lines rest
  end.

Definition lines (bs : list u8) : list (list u8) := ended_lines (split_on LF bs).

(** [join] *)
Fixpoint join (separator : list u8) (pieces : list (list u8)) : list u8 :=
  match pieces with
  | [] => []
  | piece :: rest => match rest with [] => piece | _ => piece ++ separator ++ join separator rest end
  end.

(** A [u64] in decimal, and in hexadecimal with lower-case digits ([{:x}]). *)
Definition dec (n : N) : list u8 := decimal 20 n [].

Definition hex_digit (d : N) : u8 := byte_of (if (d <? 10)%N then ch "0" + d else ch "a" + (d - 10)).

Definition hex (n : N) : list u8 := digits_of 16 hex_digit 16 n [].

(** [{:04x}] *)
Definition hex4 (n : N) : list u8 := replicate (4 - length (hex n)) (byte_of (ch "0")) ++ hex n.

(** The characters of a text, and the text of characters. *)
Definition characters (bs : list u8) : list N := chars (length bs) bs.
Definition from_characters (cs : list N) : list u8 := concat (encode_utf8 <$> cs).

(** ** Laws *)

Lemma split_on_nonempty c bs : split_on c bs <> [].
Proof. destruct bs as [|b bs]; [done|]. cbn. destruct (is_char b c); [done|]. by destruct (split_on c bs). Qed.

(** A text is its pieces, joined by the character. *)
Lemma join_split c bs : join [byte_of (ch c)] (split_on c bs) = bs.
Proof.
  induction bs as [|b bs IH]; [done|]. cbn [split_on]. pose proof (split_on_nonempty c bs) as Hne.
  unfold is_char. destruct (N.eqb_spec (uval b) (ch c)) as [E|E].
  - destruct (split_on c bs) as [|p ps]; [done|]. change (join _ ([] :: p :: ps)) with ([] ++ [byte_of (ch c)] ++ join [byte_of (ch c)] (p :: ps)).
    rewrite IH. cbn. f_equal. by apply byte_of_eq.
  - destruct (split_on c bs) as [|p ps]; [done|]. destruct ps as [|q ps]; cbn in *; by rewrite IH.
Qed.

Lemma split_on_pieces c bs piece b : piece ∈ split_on c bs -> b ∈ piece -> is_char b c = false.
Proof.
  revert piece. induction bs as [|a bs IH]; intros piece Hp Hb; cbn in Hp.
  - apply list_elem_of_singleton in Hp as ->. by apply elem_of_nil in Hb.
  - pose proof (split_on_nonempty c bs) as Hne. destruct (is_char a c) eqn:E.
    + apply elem_of_cons in Hp as [->|Hp]; [by apply elem_of_nil in Hb|by eapply IH].
    + destruct (split_on c bs) as [|p ps]; [done|]. apply elem_of_cons in Hp as [->|Hp].
      * apply elem_of_cons in Hb as [->|Hb]; [done|]. apply (IH p); [apply list_elem_of_here|done].
      * apply (IH piece); [by apply list_elem_of_further|done].
Qed.

Lemma split_on_app c xs ys init t h more : split_on c xs = init ++ [t] -> split_on c ys = h :: more ->
  split_on c (xs ++ ys) = init ++ (t ++ h) :: more.
Proof.
  intros Hx Hy. revert init t Hx. induction xs as [|x xs IH]; intros init t Hx; cbn in *.
  - destruct init as [|p init]; [|by destruct init]. injection Hx as <-. by rewrite Hy.
  - pose proof (split_on_nonempty c xs) as Hne. destruct (exists_last Hne) as (init' & t' & E).
    rewrite (IH init' t' E). rewrite E in Hx. destruct (is_char x c).
    + change ([] :: init' ++ [t']) with (([] :: init') ++ [t']) in Hx. apply app_inj_tail in Hx as [<- <-]. done.
    + destruct init' as [|p init']; cbn in *.
      * destruct init as [|p init]; [|by destruct init]. injection Hx as <-. done.
      * change ((x :: p) :: init' ++ [t']) with (((x :: p) :: init') ++ [t']) in Hx. apply app_inj_tail in Hx as [<- <-]. done.
Qed.

Lemma split_on_none c xs : (forall b, b ∈ xs -> is_char b c = false) -> split_on c xs = [xs].
Proof.
  induction xs as [|b xs IH]; intros Hno; [done|]. cbn. rewrite (Hno b) by apply list_elem_of_here.
  rewrite IH; [done|]. intros b' Hb'. apply Hno. by apply list_elem_of_further.
Qed.

Lemma join_snoc s l x : l <> [] -> join s (l ++ [x]) = join s l ++ s ++ x.
Proof.
  induction l as [|y l IH]; intros Hne; [done|]. destruct l as [|z l]; [done|].
  change (join s ((y :: z :: l) ++ [x])) with (y ++ s ++ join s ((z :: l) ++ [x])). rewrite IH by done.
  change (join s (y :: z :: l)) with (y ++ s ++ join s (z :: l)). by rewrite <- !app_assoc.
Qed.

Lemma characters_from cs : Forall (fun c => is_scalar c = true) cs -> characters (from_characters cs) = cs.
Proof.
  intros Hs. unfold characters. assert (forall fuel, length (from_characters cs) <= fuel -> chars fuel (from_characters cs) = cs) as H; [|by apply H].
  induction Hs as [|c cs Hc _ IH]; intros fuel Hf; [by destruct fuel|].
  pose proof (encode_seq c Hc) as Hseq. pose proof (seq_length _ _ Hseq).
  change (from_characters (c :: cs)) with (encode_utf8 c ++ from_characters cs) in *.
  rewrite length_app in Hf. destruct fuel as [|fuel]; [lia|]. cbn [chars].
  rewrite (seq_first _ _ Hseq), drop_app_length. f_equal. apply IH. lia.
Qed.

Lemma chars_enough cs c bs fuel : char_seq cs c -> length (cs ++ bs) <= fuel ->
  chars fuel (cs ++ bs) = c :: chars (fuel - 1) bs.
Proof.
  intros Hs Hf. pose proof (seq_length _ _ Hs). rewrite length_app in Hf. destruct fuel as [|fuel]; [lia|].
  cbn [chars]. rewrite (seq_first _ _ Hs), drop_app_length. by rewrite Nat.sub_succ, Nat.sub_0_r.
Qed.

Lemma chars_fuel bs fuel : valid bs -> length bs <= fuel -> chars fuel bs = characters bs.
Proof.
  intros Hv. unfold characters. revert fuel. induction Hv as [|cs c r Hs Hr IH] using valid_ind; intros fuel Hf; [by destruct fuel|].
  rewrite !(chars_enough cs c r) by done. pose proof (seq_length _ _ Hs). rewrite length_app in *. f_equal.
  rewrite (IH (fuel - 1)) by lia. symmetry. apply IH. lia.
Qed.

Lemma characters_seq cs c bs : char_seq cs c -> valid bs -> characters (cs ++ bs) = c :: characters bs.
Proof.
  intros Hs Hv. unfold characters at 1. rewrite (chars_enough cs c bs) by done. f_equal. apply chars_fuel; [done|].
  pose proof (seq_length _ _ Hs). rewrite length_app. lia.
Qed.

Lemma characters_app xs ys : valid xs -> valid ys -> characters (xs ++ ys) = characters xs ++ characters ys.
Proof.
  intros Hx Hy. induction Hx as [|cs c r Hs Hr IH] using valid_ind; [done|].
  rewrite <- app_assoc, (characters_seq cs c (r ++ ys) Hs (valid_app _ _ Hr Hy)), (characters_seq cs c r Hs Hr), IH. done.
Qed.

(** Valid text is its characters. *)
Lemma from_characters_of bs : valid bs -> from_characters (characters bs) = bs.
Proof.
  intros Hv. induction Hv as [|cs c r Hs Hr IH] using valid_ind; [done|]. rewrite (characters_seq cs c r Hs Hr).
  change (encode_utf8 c ++ from_characters (characters r) = cs ++ r). rewrite IH. f_equal. by apply (seq_encode _ _ Hs).
Qed.

Lemma characters_scalar bs : valid bs -> Forall (fun c => is_scalar c = true) (characters bs).
Proof.
  intros Hv. induction Hv as [|cs c r Hs Hr IH] using valid_ind; [constructor|]. rewrite (characters_seq cs c r Hs Hr).
  constructor; [by apply (seq_scalar _ _ Hs)|done].
Qed.

(** *** Digits *)

Lemma decimal_digit d : (d < 10)%N -> is_ascii_digit (byte_of (d + ch "0")) = true /\ to_digit 10 (byte_of (d + ch "0")) = Some d.
Proof.
  intros Hd. assert (forallb (fun d => is_ascii_digit (byte_of (d + ch "0")) && bool_decide (to_digit 10 (byte_of (d + ch "0")) = Some d))
    (N.of_nat <$> seq 0 10) = true) as Hall by by vm_compute.
  rewrite forallb_forall in Hall. specialize (Hall d). rewrite andb_true_iff, bool_decide_eq_true in Hall.
  apply Hall, in_map_iff. exists (N.to_nat d). split; [by rewrite N2Nat.id|]. apply in_seq. lia.
Qed.

Lemma hex_digit_digit d : (d < 16)%N -> is_ascii_hexdigit (hex_digit d) = true /\ to_digit 16 (hex_digit d) = Some d.
Proof.
  intros Hd. assert (forallb (fun d => is_ascii_hexdigit (hex_digit d) && bool_decide (to_digit 16 (hex_digit d) = Some d))
    (N.of_nat <$> seq 0 16) = true) as Hall by by vm_compute.
  rewrite forallb_forall in Hall. specialize (Hall d). rewrite andb_true_iff, bool_decide_eq_true in Hall.
  apply Hall, in_map_iff. exists (N.to_nat d). split; [by rewrite N2Nat.id|]. apply in_seq. lia.
Qed.

Lemma dec_digits n : Forall (fun b => is_ascii_digit b = true) (dec n).
Proof. apply digits_of_all; [lia| |done]. intros d Hd. by apply decimal_digit. Qed.

Lemma hex_digits n : Forall (fun b => is_ascii_hexdigit b = true) (hex n).
Proof. apply digits_of_all; [lia| |done]. intros d Hd. by apply hex_digit_digit. Qed.

Lemma dec_nonempty n : dec n <> [].
Proof. intros E. pose proof (digits_of_grows 10 (fun d => byte_of (d + ch "0")) ltac:(lia) 20 n [] ltac:(lia)) as Hl. unfold dec, decimal in E. by rewrite E in Hl; cbn in Hl; lia. Qed.

Lemma hex_nonempty n : hex n <> [].
Proof. intros E. pose proof (digits_of_grows 16 hex_digit ltac:(lia) 16 n [] ltac:(lia)) as Hl. unfold hex in E. by rewrite E in Hl; cbn in Hl; lia. Qed.

(** ** Numbers of type [usize] *)

(** In decimal. *)
Definition number (n : nat) : list u8 := dec (N.of_nat n).

(** A subtraction, a sum and a product: below zero and from [2 ^ 64] on, where a build with overflow checks panics, [None]. *)
Definition checked_sub (a b : nat) : option nat := if b <=? a then Some (a - b) else None.

Definition in_usize (n : N) : option nat := if (n <? 2 ^ 64)%N then Some (N.to_nat n) else None.
Definition checked_add (a b : nat) : option nat := in_usize (N.of_nat a + N.of_nat b).
Definition checked_mul (a b : nat) : option nat := in_usize (N.of_nat a * N.of_nat b).

Lemma in_usize_small n : (n < 2 ^ 64)%N -> in_usize n = Some (N.to_nat n).
Proof. intros Hn. unfold in_usize. by rewrite (proj2 (N.ltb_lt _ _) Hn). Qed.

Lemma checked_add_small a b : (N.of_nat a + N.of_nat b < 2 ^ 64)%N -> checked_add a b = Some (a + b).
Proof. intros Hab. unfold checked_add. rewrite in_usize_small by done. f_equal. lia. Qed.

Lemma checked_mul_small a b : (N.of_nat a * N.of_nat b < 2 ^ 64)%N -> checked_mul a b = Some (a * b).
Proof. intros Hab. unfold checked_mul. rewrite in_usize_small by done. f_equal. lia. Qed.
