(* ===== verification/Diff.v ===== *)
(** * Line diffs

    [src/src/diff.rs]: the shortest edit script by Myers' forward greedy algorithm, its backtracking, the lines of
    a text, the unified diff and the line edits. An index out of range is the error [Panic]; a [while] loop
    takes fuel, and [OutOfFuel] is an artefact of the model that no call gives. *)
From stdpp Require Import strings.
From S2P Require Import Prelude Wire Utf8 Text.
From S2P Require Export Faults.
From Stdlib Require Export ZArith.
Local Open Scope Z_scope.
Local Open Scope monad_scope.

Definition MAX_DIFF_CHANGES : nat := 2000.
#[global] Arguments MAX_DIFF_CHANGES : simpl never.

Inductive Step := Equal | Delete | Insert.

#[export] Instance Step_eq_dec : EqDecision Step.
Proof. solve_decision. Defined.

(** Indexing by an [isize] that is cast to [usize]: a negative index is out of range. *)
Definition at_index {S A} (l : list A) (i : Z) : M Fault S A :=
  ok_or (if 0 <=? i then l !! Z.to_nat i else None) Panic.

(** The vector [v] of the furthest points is the state. *)
Abbreviation VM := (M Fault (list Z)).

Definition read (index : Z) : VM Z := fun v => at_index v index v.

Definition write (index x : Z) : VM unit := fun v =>
  if (0 <=? index) && (index <? Z.of_nat (length v))
  then (Ok tt, <[Z.to_nat index := x]> v) else (Err Panic, v).

(** [v[low..=high].to_vec()] *)
Definition slice (low high : Z) : VM (list Z) := fun v =>
  if (0 <=? low) && (low <=? high + 1) && (high <? Z.of_nat (length v))
  then (Ok (take (Z.to_nat (high + 1 - low)) (drop (Z.to_nat low) v)), v) else (Err Panic, v).

Section script.
Context {Line : Type} `{EqDecision Line}.

(** ** Backtracking; the last step pushed is the head of the list, so [reverse] leaves it as it is *)

Fixpoint push_equals {S} (fuel : nat) (x y start_x start_y : Z) (steps : list Step) : M Fault S (list Step) :=
  if (start_x <? x) && (start_y <? y) then
    match fuel with
    | O => fail OutOfFuel
    | S fuel => push_equals fuel (x - 1) (y - 1) start_x start_y (Equal :: steps)
    end
  else ret steps.

(** Whether round [d] moved down to diagonal [k], given the points of the round before. *)
Definition moves_down {S} (at_ : Z -> M Fault S Z) (d k : Z) : M Fault S bool :=
  if k =? - d then ret true
  else if k =? d then ret false
  else
    let? left_ := at_ (k - 1) in
    let? right_ := at_ (k + 1) in
    ret (left_ <? right_).

Fixpoint backtrack_loop {S} (trace : list (list Z)) (ds : list Z) (x y : Z) (steps : list Step)
    : M Fault S (list Step) :=
  match ds with
  | [] => ret steps
  | d :: ds =>
    let k := x - y in
    if d =? 0 then push_equals (Z.to_nat x) x y 0 0 steps
    else
      let? previous := at_index trace (d - 1) in
      let at_ j := at_index previous (j + d - 1) in
      let? down := moves_down at_ d k in
      let (previous_k, step) := if down : bool then (k + 1, Insert) else (k - 1, Delete) in
      let? previous_x := at_ previous_k in
      let previous_y := previous_x - previous_k in
      let (start_x, start_y) :=
        match step with
        | Insert => (previous_x, previous_y + 1)
        | _ => (previous_x + 1, previous_y)
        end in
      let? steps := push_equals (Z.to_nat x) x y start_x start_y steps in
      backtrack_loop trace ds previous_x previous_y (step :: steps)
  end.

(** [0..count] as [isize] values. *)
Definition upto (count : nat) : list Z := Z.of_nat <$> seq 0 count.

Definition backtrack {S} (trace : list (list Z)) (n m : Z) : M Fault S (list Step) :=
  backtrack_loop trace (rev (upto (length trace))) n m [].

(** ** The search *)

Fixpoint snake {S} (fuel : nat) (a b : list Line) (x y : Z) : M Fault S Z :=
  if (x <? Z.of_nat (length a)) && (y <? Z.of_nat (length b)) then
    let? p := at_index a x in
    let? q := at_index b y in
    if decide (p = q) then
      match fuel with
      | O => fail OutOfFuel
      | S fuel => snake fuel a b (x + 1) (y + 1)
      end
    else ret x
  else ret x.

(** One turn of the loop over the diagonals. *)
Definition turn (a b : list Line) (offset d k : Z) : VM bool :=
  let index := k + offset in
  let? down := moves_down (fun j => read (j + offset)) d k in
  let? x := if down : bool then read (index + 1) else let? x := read (index - 1) in ret (x + 1) in
  let? x := snake (length a) a b x (x - k) in
  write index x ;;;
  let y := x - k in
  ret ((Z.of_nat (length a) <=? x) && (Z.of_nat (length b) <=? y)).

Fixpoint scan (a b : list Line) (offset d : Z) (ks : list Z) : VM bool :=
  match ks with
  | [] => ret false
  | k :: ks =>
    let? done := turn a b offset d k in
    if done : bool then ret true else scan a b offset d ks
  end.

(** [(-d..=d).step_by(2)] *)
Definition diagonals (d : Z) : list Z := (fun i => - d + 2 * i) <$> upto (S (Z.to_nat d)).

Fixpoint rounds (a b : list Line) (offset : Z) (ds : list Z) (trace : list (list Z)) : VM (option (list Step)) :=
  match ds with
  | [] => ret None
  | d :: ds =>
    let? done := scan a b offset d (diagonals d) in
    let? row := slice (offset - d) (offset + d) in
    let trace := trace ++ [row] in
    if done : bool then
      let? steps := backtrack trace (Z.of_nat (length a)) (Z.of_nat (length b)) in
      ret (Some steps)
    else rounds a b offset ds trace
  end.

Definition shortest_script (a b : list Line) : Result (option (list Step)) Fault :=
  let limit := Nat.min (length a + length b) MAX_DIFF_CHANGES in
  let offset := Z.of_nat limit + 1 in
  fst (rounds a b offset (upto (S limit)) [] (replicate (2 * limit + 3) 0)).
End script.

(** ** Texts and their lines *)

Abbreviation Text := (list u8).

Definition newline : u8 := uint_wrap 8 10.

(** [split_inclusive('\n')]: [line] holds the bytes since the last line break. *)
Fixpoint split_inclusive (line text : Text) : list Text :=
  match text with
  | [] => if bool_decide (line = []) then [] else [line]
  | byte :: text =>
    if bool_decide (byte = newline) then (line ++ [byte]) :: split_inclusive [] text
    else split_inclusive (line ++ [byte]) text
  end.

Definition split_lines (text : Text) : list Text := split_inclusive [] text.

(** ** Unified diffs; an index out of range and an overflow are [None] *)

Section unified.
Local Open Scope nat_scope.

(** The lines of the old and of the new text before the next step. *)
Definition advance (position : nat * nat) (step : Step) : nat * nat :=
  match step with
  | Equal => (S position.1, S position.2)
  | Delete => (S position.1, position.2)
  | Insert => (position.1, S position.2)
  end.

Fixpoint positions (position : nat * nat) (steps : list Step) : list (nat * nat) :=
  match steps with [] => [] | step :: steps => position :: positions (advance position step) steps end.

Definition change_indices (steps : list Step) : list nat :=
  filter (fun index => steps !! index <> Some Equal) (seq 0 (length steps)).

(** The loop that joins changes: the last one of a hunk. *)
Fixpoint join_changes (fuel context : nat) (changed : list nat) (last : nat) : option nat :=
  if S last <? length changed then
    next ← changed !! S last;
    this ← changed !! last;
    gap ← checked_sub next this;
    gap ← checked_sub gap 1;
    most ← checked_mul 2 context;
    if gap <=? most then match fuel with 0 => None | S fuel => join_changes fuel context changed (S last) end
    else Some last
  else Some last.

Record Hunk := mk_Hunk {
  hunk_old : nat;
  hunk_old_len : nat;
  hunk_new : nat;
  hunk_new_len : nat;
  hunk_lines : list (Step * Text) }.

Definition hunk_line (a b : list Text) (ps : list (nat * nat)) (steps : list Step) (index : nat) : option (Step * Text) :=
  position ← ps !! index;
  step ← steps !! index;
  line ← match step with Insert => b !! position.2 | _ => a !! position.1 end;
  Some (step, line).

Definition hunk (context : nat) (a b : list Text) (ps : list (nat * nat)) (steps : list Step) (first_ last : nat) : option Hunk :=
  let start := first_ - context in
  after ← checked_add last 1;
  after ← checked_add after context;
  let end_ := Nat.min after (length steps) in
  s ← ps !! start;
  e ← if end_ <? length steps then ps !! end_ else Some (length a, length b);
  old_len ← checked_sub e.1 s.1;
  new_len ← checked_sub e.2 s.2;
  lines ← mapM (hunk_line a b ps steps) (seq start (end_ - start));
  Some (mk_Hunk s.1 old_len s.2 new_len lines).

(** The loop over the changes; [None] is also the end of the fuel. *)
Fixpoint hunks (fuel context : nat) (a b : list Text) (ps : list (nat * nat)) (steps : list Step) (changed : list nat)
    (first_ : nat) : option (list Hunk) :=
  if first_ <? length changed then
    match fuel with
    | 0 => None
    | S fuel =>
      last ← join_changes (length changed) context changed first_;
      first_change ← changed !! first_;
      last_change ← changed !! last;
      h ← hunk context a b ps steps first_change last_change;
      rest ← hunks fuel context a b ps steps changed (S last);
      Some (h :: rest)
    end
  else Some [].

(** [range], as [diff -u] writes it. *)
Definition range (start len : nat) : Text :=
  match len with
  | 0 => number start ++ txt ",0"
  | 1 => number (start + 1)
  | _ => number (start + 1) ++ txt "," ++ number len
  end.

Definition step_mark (step : Step) : Text := match step with Equal => txt " " | Delete => txt "-" | Insert => txt "+" end.

Definition push_line (step : Step) (line : Text) : Text :=
  step_mark step ++ line ++
  if decide (list.last line = Some newline) then [] else [newline] ++ txt "\ No newline at end of file" ++ [newline].

Definition hunk_text (h : Hunk) : Text :=
  txt "@@ -" ++ range (hunk_old h) (hunk_old_len h) ++ txt " +" ++ range (hunk_new h) (hunk_new_len h) ++ txt " @@" ++
  [newline] ++ concat ((fun line => push_line line.1 line.2) <$> hunk_lines h).

Definition unified_header (path : Text) : Text := txt "--- a/" ++ path ++ [newline] ++ txt "+++ b/" ++ path ++ [newline].

Definition unified (path old new : Text) (context : usize) : Result (option Text) Fault :=
  if decide (old = new) then Ok (Some [])
  else
    let a := split_lines old in
    let b := split_lines new in
    match shortest_script a b with
    | Ok (Some steps) =>
      let changed := change_indices steps in
      match hunks (length changed) (N.to_nat (uval context)) a b (positions (0, 0) steps) steps changed 0 with
      | Some hs => Ok (Some (unified_header path ++ concat (hunk_text <$> hs)))
      | None => Err Panic
      end
    | Ok None => Ok None
    | Err e => Err e
    end.
End unified.

(** ** Line edits *)

Record LineEdit := mk_LineEdit {
  edit_start : nat;
  edit_end : nat;
  edit_text : Text }.

(** [open.get_or_insert_with(..)] *)
Definition opened (open : option LineEdit) (offset : nat) : LineEdit :=
  match open with Some edit => edit | None => mk_LineEdit offset offset [] end.

(** [edits.extend(open)] *)
Definition extend (edits : list LineEdit) (open : option LineEdit) : list LineEdit :=
  edits ++ match open with Some edit => [edit] | None => [] end.

Record Progress := mk_Progress {
  p_edits : list LineEdit;
  p_i : nat;
  p_j : nat;
  p_offset : nat;
  p_open : option LineEdit }.

(** One turn of the loop of [line_edits]; [None] is an index out of range. *)
Definition edit_step (a b : list Text) (progress : Progress) (step : Step) : option Progress :=
  let 'mk_Progress edits i j offset open := progress in
  match step with
  | Equal =>
    line ← a !! i;
    Some (mk_Progress (extend edits open) (S i) (S j) (offset + length line) None)
  | Delete =>
    let edit := opened open offset in
    line ← a !! i;
    let offset := (offset + length line)%nat in
    Some (mk_Progress edits (S i) j offset (Some (mk_LineEdit (edit_start edit) offset (edit_text edit))))
  | Insert =>
    let edit := opened open offset in
    line ← b !! j;
    Some (mk_Progress edits i (S j) offset
      (Some (mk_LineEdit (edit_start edit) (edit_end edit) (edit_text edit ++ line))))
  end.

Fixpoint edit_steps (a b : list Text) (steps : list Step) (progress : Progress) : option Progress :=
  match steps with
  | [] => Some progress
  | step :: steps => progress ← edit_step a b progress step; edit_steps a b steps progress
  end.

Definition line_edits (old new : Text) : Result (option (list LineEdit)) Fault :=
  let a := split_lines old in
  let b := split_lines new in
  match shortest_script a b with
  | Ok (Some steps) =>
    match edit_steps a b steps (mk_Progress [] 0 0 0 None) with
    | Some progress => Ok (Some (extend (p_edits progress) (p_open progress)))
    | None => Err Panic
    end
  | Ok None => Ok None
  | Err e => Err e
  end.
