(* ===== verification/DiffLaws.v ===== *)
(** * The search for a shortest script

    The moves of the edit grid, and what the search of [shortest_script] and its backtracking compute on it. *)
From S2P Require Import Prelude Diff.
Local Open Scope Z_scope.
Local Open Scope monad_scope.

Section grid.
Context {Line : Type} `{EqDecision Line} (a b : list Line).

Abbreviation n := (Z.of_nat (length a)).
Abbreviation m := (Z.of_nat (length b)).

(** Line [x] of [a] is line [y] of [b]. *)
Definition cell (x y : Z) : Prop :=
  0 <= x /\ 0 <= y /\ exists l, a !! Z.to_nat x = Some l /\ b !! Z.to_nat y = Some l.

(** The changes may leave the rectangle of the texts; the equal lines cannot. *)
Inductive reach : nat -> Z -> Z -> Prop :=
| reach_start : reach 0 0 0
| reach_delete d x y : reach d x y -> reach (S d) (x + 1) y
| reach_insert d x y : reach d x y -> reach (S d) x (y + 1)
| reach_equal d x y : reach d x y -> cell x y -> reach d (x + 1) (y + 1).

Lemma cell_bound x y : cell x y -> 0 <= x < n /\ 0 <= y < m.
Proof.
  intros (Hx & Hy & l & Ha & Hb). apply lookup_lt_Some in Ha. apply lookup_lt_Some in Hb. lia.
Qed.

Lemma reach_bounds d x y : reach d x y ->
  0 <= x /\ 0 <= y /\ Z.abs (x - y) <= Z.of_nat d /\ exists i, x - y = Z.of_nat d - 2 * i.
Proof.
  induction 1 as [|d x y _ (Hx & Hy & Hd & i & Hi)|d x y _ (Hx & Hy & Hd & i & Hi)|d x y _ (Hx & Hy & Hd & i & Hi) _].
  - split_and!; try lia. exists 0. lia.
  - split_and!; try lia. exists i. lia.
  - split_and!; try lia. exists (i + 1). lia.
  - split_and!; try lia. exists i. lia.
Qed.

(** Outside the rectangle only changes are left, so the rectangle is left by one change per unit of excess. *)
Lemma reach_clamp d x y : reach d x y ->
  exists d', reach d' (Z.min x n) (Z.min y m) /\ Z.of_nat d = Z.of_nat d' + (x - Z.min x n) + (y - Z.min y m).
Proof.
  induction 1 as [|d x y Hr (d' & Hr' & E)|d x y Hr (d' & Hr' & E)|d x y Hr (d' & Hr' & E) Hc].
  - exists 0%nat. rewrite !Z.min_l by lia. split; [constructor|lia].
  - destruct (Z.le_gt_cases n x).
    + exists d'. rewrite (Z.min_r (x + 1) n), <- (Z.min_r x n) by lia. split; [done|lia].
    + exists (S d'). rewrite (Z.min_l (x + 1) n) by lia. rewrite Z.min_l in Hr', E by lia.
      split; [by constructor|lia].
  - destruct (Z.le_gt_cases m y).
    + exists d'. rewrite (Z.min_r (y + 1) m), <- (Z.min_r y m) by lia. split; [done|lia].
    + exists (S d'). rewrite (Z.min_l (y + 1) m) by lia. rewrite (Z.min_l y m) in Hr', E by lia.
      split; [by constructor|lia].
  - apply cell_bound in Hc as Hb. exists d'. rewrite !Z.min_l by lia. rewrite !Z.min_l in Hr', E by lia.
    split; [by constructor|lia].
Qed.

(** ** Snakes *)

(** The cells of diagonal [k] from [x] to [x'] are equal lines. *)
Definition slide (k x x' : Z) : Prop := x <= x' /\ forall i, x <= i < x' -> cell i (i - k).

Lemma slide_refl k x : slide k x x.
Proof. split; [lia|]. intros i Hi. lia. Qed.

Lemma slide_snoc k x x' : slide k x x' -> cell x' (x' - k) -> slide k x (x' + 1).
Proof.
  intros [Hle Hs] Hc. split; [lia|]. intros i Hi. destruct (decide (i = x')) as [->|]; [done|]. apply Hs. lia.
Qed.

Lemma slide_cons k x x' : cell x (x - k) -> slide k (x + 1) x' -> slide k x x'.
Proof.
  intros Hc [Hle Hs]. split; [lia|]. intros i Hi. destruct (decide (i = x)) as [->|]; [done|]. apply Hs. lia.
Qed.

Lemma reach_slide d k x x' : reach d x (x - k) -> slide k x x' -> reach d x' (x' - k).
Proof.
  intros Hr [Hle Hs]. replace x' with (x + Z.of_nat (Z.to_nat (x' - x))) in * by lia.
  clear Hle. revert Hs. induction (Z.to_nat (x' - x)) as [|c IH]; intros Hs; [by rewrite Z.add_0_r|].
  replace (x + Z.of_nat (S c)) with (x + Z.of_nat c + 1) in * by lia.
  replace (x + Z.of_nat c + 1 - k) with (x + Z.of_nat c - k + 1) by lia.
  constructor; [|apply Hs; lia]. apply IH. intros i Hi. apply Hs. lia.
Qed.

(** The last change of a path, and the snake after it. *)
Lemma reach_last d x y : reach d x y ->
  match d with
  | O => x = y /\ slide 0 0 x
  | S d => exists x0, slide (x - y) x0 x /\
      (reach d (x0 - 1) (x0 - (x - y)) \/ reach d x0 (x0 - (x - y) - 1))
  end.
Proof.
  induction 1 as [|d x y Hr _|d x y Hr _|d x y Hr IH Hc].
  - split; [done|apply slide_refl].
  - exists (x + 1). split; [apply slide_refl|left].
    by replace (x + 1 - 1) with x by lia; replace (x + 1 - (x + 1 - y)) with y by lia.
  - exists x. split; [apply slide_refl|right]. by replace (x - (x - (y + 1)) - 1) with y by lia.
  - replace (x + 1 - (y + 1)) with (x - y) by lia. destruct d as [|d].
    + destruct IH as [-> Hs]. split; [done|]. apply slide_snoc; [done|]. by rewrite Z.sub_0_r.
    + destruct IH as (x0 & Hs & Hd). exists x0. split; [|done]. apply slide_snoc; [done|].
      by replace (x - (x - y)) with y by lia.
Qed.

(** ** Furthest points *)

Record furthest (d : nat) (k x : Z) : Prop := {
  furthest_reach : reach d x (x - k);
  furthest_max x' : reach d x' (x' - k) -> x' <= x }.

Lemma furthest_unique d k x x' : furthest d k x -> furthest d k x' -> x = x'.
Proof. intros [Hr Hm] [Hr' Hm']. specialize (Hm _ Hr'). specialize (Hm' _ Hr). lia. Qed.

(** Where the snake of a round starts: below the right diagonal or to the right of the left one. *)
Definition start_ok (d : nat) (k x : Z) : Prop :=
  (reach d (x - 1) (x - k) \/ reach d x (x - k - 1)) /\
  (forall x', reach d (x' - 1) (x' - k) \/ reach d x' (x' - k - 1) -> x' <= x).

Lemma slide_max k x0 x x' x1 : x0 <= x -> slide k x x' -> ~ cell x' (x' - k) -> slide k x0 x1 -> x1 <= x'.
Proof.
  intros Hle [Hx Hs] Hn [Hx0 Hs0]. destruct (Z.le_gt_cases x1 x'); [done|]. exfalso. apply Hn, Hs0. lia.
Qed.

Lemma furthest_step d k x x' :
  start_ok d k x -> slide k x x' -> ~ cell x' (x' - k) -> furthest (S d) k x'.
Proof.
  intros [Hr Hm] Hs Hn. split.
  - apply (reach_slide _ k x); [|done]. destruct Hr as [Hr|Hr]; [apply reach_delete in Hr|apply reach_insert in Hr].
    + by replace (x - 1 + 1) with x in Hr by lia.
    + by replace (x - k - 1 + 1) with (x - k) in Hr by lia.
  - intros x1 Hr1. apply reach_last in Hr1 as (x0 & Hs0 & Hd).
    replace (x1 - (x1 - k)) with k in * by lia. apply (slide_max k x0 x x' x1); try done. by apply Hm.
Qed.

Lemma furthest_0 x' : slide 0 0 x' -> ~ cell x' x' -> furthest 0 0 x'.
Proof.
  intros Hs Hn. split.
  - apply (reach_slide _ 0 0); [constructor|done].
  - intros x1 Hr1. apply reach_last in Hr1 as (_ & Hs0).
    apply (slide_max 0 0 0 x' x1); try done. by rewrite Z.sub_0_r.
Qed.

(** The choice of the algorithm: the diagonals beside [k] that exist after [d] changes. *)
Lemma start_down d k x : furthest d (k + 1) x ->
  (forall x', reach d x' (x' - (k - 1)) -> x' < x) -> start_ok d k x.
Proof.
  intros [Hr Hm] Hother. split; [right; by replace (x - k - 1) with (x - (k + 1)) by lia|].
  intros x' [Hr'|Hr'].
  - replace (x' - k) with (x' - 1 - (k - 1)) in Hr' by lia. specialize (Hother _ Hr'). lia.
  - apply Hm. by replace (x' - (k + 1)) with (x' - k - 1) by lia.
Qed.

Lemma start_right d k x : furthest d (k - 1) x ->
  (forall x', reach d x' (x' - (k + 1)) -> x' <= x) -> start_ok d k (x + 1).
Proof.
  intros [Hr Hm] Hother. split.
  - left. replace (x + 1 - 1) with x by lia. by replace (x + 1 - k) with (x - (k - 1)) by lia.
  - intros x' [Hr'|Hr'].
    + replace (x' - k) with (x' - 1 - (k - 1)) in Hr' by lia. specialize (Hm _ Hr'). lia.
    + replace (x' - k - 1) with (x' - (k + 1)) in Hr' by lia. specialize (Hother _ Hr'). lia.
Qed.

Lemma no_reach d k : Z.of_nat d < Z.abs k -> forall x, ~ reach d x (x - k).
Proof. intros Hk x Hr. apply reach_bounds in Hr as (_ & _ & Hd & _). lia. Qed.
End grid.

(** ** Edit scripts *)

Section scripts.
Context {Line : Type} `{EqDecision Line}.

(** The script turns the first list into the second. *)
Inductive edits : list Step -> list Line -> list Line -> Prop :=
| edits_nil : edits [] [] []
| edits_equal steps l a b : edits steps a b -> edits (Equal :: steps) (l :: a) (l :: b)
| edits_delete steps l a b : edits steps a b -> edits (Delete :: steps) (l :: a) b
| edits_insert steps l a b : edits steps a b -> edits (Insert :: steps) a (l :: b).

Definition count (step : Step) (steps : list Step) : nat := length (filter (eq step) steps).

(** Deleted and inserted lines. *)
Definition changes (steps : list Step) : nat := (count Delete steps + count Insert steps)%nat.

Lemma count_cons step step' steps :
  count step (step' :: steps) = ((if decide (step = step') then 1 else 0) + count step steps)%nat.
Proof. unfold count. rewrite filter_cons. by destruct (decide (step = step')). Qed.

Lemma changes_cons step steps :
  changes (step :: steps) = ((match step with Equal => 0 | _ => 1 end) + changes steps)%nat.
Proof. unfold changes. rewrite !count_cons. destruct step; repeat case_decide; try congruence; lia. Qed.

Lemma edits_lengths steps a b : edits steps a b ->
  (length a + length b = 2 * count Equal steps + changes steps)%nat.
Proof. induction 1; [done|..]; rewrite count_cons, changes_cons; repeat case_decide; try congruence; simpl; lia. Qed.

Lemma drop_cons {A} (l k : list A) i x : drop i l = x :: k -> l !! i = Some x /\ drop (S i) l = k.
Proof.
  intros E. assert (l !! i = Some x) as Hx by (rewrite <- (Nat.add_0_r i), <- lookup_drop; by rewrite E).
  split; [done|]. by rewrite (drop_S l x i Hx) in E; injection E.
Qed.

Lemma edits_reach_from (a b : list Line) steps a' b' : edits steps a' b' -> forall d x y,
  a' = drop x a -> b' = drop y b -> reach a b d (Z.of_nat x) (Z.of_nat y) ->
  (x <= length a)%nat -> (y <= length b)%nat ->
  reach a b (d + changes steps) (Z.of_nat (length a)) (Z.of_nat (length b)).
Proof.
  induction 1 as [|steps l a' b' _ IH|steps l a' b' _ IH|steps l a' b' _ IH]; intros d x y Ea Eb Hr Hx Hy.
  - assert (length (drop x a) = 0%nat) as Ea' by (by rewrite <- Ea). rewrite length_drop in Ea'.
    assert (length (drop y b) = 0%nat) as Eb' by (by rewrite <- Eb). rewrite length_drop in Eb'.
    replace (length a) with x by lia. replace (length b) with y by lia. by rewrite Nat.add_0_r.
  - symmetry in Ea, Eb. apply drop_cons in Ea as [Ha Ea], Eb as [Hb Eb].
    rewrite changes_cons. apply (IH d (S x) (S y)); [done|done| |by eapply lookup_lt_Some|by eapply lookup_lt_Some].
    rewrite !Nat2Z.inj_succ. apply reach_equal; [done|]. split_and!; [lia|lia|]. exists l. by rewrite !Nat2Z.id.
  - symmetry in Ea. apply drop_cons in Ea as [Ha Ea]. rewrite changes_cons.
    replace (d + (1 + changes steps))%nat with (S d + changes steps)%nat by lia.
    apply (IH (S d) (S x) y); [done|done| |by eapply lookup_lt_Some|done].
    rewrite Nat2Z.inj_succ. by apply reach_delete.
  - symmetry in Eb. apply drop_cons in Eb as [Hb Eb]. rewrite changes_cons.
    replace (d + (1 + changes steps))%nat with (S d + changes steps)%nat by lia.
    apply (IH (S d) x (S y)); [done|done| |done|by eapply lookup_lt_Some].
    rewrite Nat2Z.inj_succ. by apply reach_insert.
Qed.

Lemma edits_reach a b steps : edits steps a b ->
  reach a b (changes steps) (Z.of_nat (length a)) (Z.of_nat (length b)).
Proof. intros He. apply (edits_reach_from a b steps a b He 0 0 0); [done|done|constructor|lia|lia]. Qed.

(** Everything deleted, then everything inserted. *)
Lemma edits_all a b : edits (replicate (length a) Delete ++ replicate (length b) Insert) a b.
Proof. induction a as [|l a IH]; simpl; [|by constructor]. induction b; simpl; by constructor. Qed.

Lemma changes_all i j : changes (replicate i Delete ++ replicate j Insert) = (i + j)%nat.
Proof.
  induction i as [|i IH]; simpl; [|by rewrite changes_cons, IH].
  induction j as [|j IH]; simpl; [done|by rewrite changes_cons, IH].
Qed.

(** ** The longest common subsequence *)

Fixpoint lcs (a b : list Line) {struct a} : nat :=
  match a with
  | [] => 0
  | x :: a =>
    (fix go b := match b with
      | [] => 0
      | y :: b => if decide (x = y) then S (lcs a b) else Nat.max (lcs a (y :: b)) (go b)
      end) b
  end%nat.

Lemma lcs_cons x a y b : lcs (x :: a) (y :: b) =
  if decide (x = y) then S (lcs a b) else Nat.max (lcs a (y :: b)) (lcs (x :: a) b).
Proof. done. Qed.

Lemma lcs_nil_r a : lcs a [] = 0%nat.
Proof. by destruct a. Qed.

Lemma lcs_steps a : (forall x b, lcs a b <= lcs (x :: a) b <= S (lcs a b))%nat /\
  (forall y b, lcs a b <= lcs a (y :: b) <= S (lcs a b))%nat.
Proof.
  induction a as [|z a [IHl IHr]].
  { split; [|by intros; simpl; lia]. intros x b. induction b as [|y b IH]; [simpl; lia|].
    rewrite lcs_cons. destruct (decide (x = y)); simpl in *; lia. }
  assert (forall y b, lcs (z :: a) b <= lcs (z :: a) (y :: b) <= S (lcs (z :: a) b))%nat as Hr.
  { intros y b. rewrite lcs_cons. pose proof (IHr y b). pose proof (IHl z b).
    destruct (decide (z = y)); lia. }
  split; [|done]. intros x b. induction b as [|y b IH]; [rewrite !lcs_nil_r; lia|].
  rewrite (lcs_cons x). pose proof (Hr y b). destruct (decide (x = y)); [lia|]. lia.
Qed.

Lemma lcs_upper steps a b : edits steps a b -> (count Equal steps <= lcs a b)%nat.
Proof.
  induction 1 as [|steps l a b _ IH|steps l a b _ IH|steps l a b _ IH]; rewrite ?count_cons; simpl decide_rel.
  - done.
  - rewrite lcs_cons, !decide_True by done. lia.
  - pose proof (proj1 (lcs_steps a) l b). rewrite decide_False by done. lia.
  - pose proof (proj2 (lcs_steps a) l b). rewrite decide_False by done. lia.
Qed.

Lemma lcs_reached a b : exists steps, edits steps a b /\ count Equal steps = lcs a b.
Proof.
  revert b. induction a as [|x a IH]; intros b.
  { exists (replicate (length b) Insert). split; [apply (edits_all [] b)|].
    induction b as [|y b IHb]; [done|]. simpl. by rewrite count_cons. }
  induction b as [|y b IHb].
  { destruct (IH []) as (steps & He & Hc). exists (Delete :: steps). split; [by constructor|].
    rewrite count_cons, decide_False by done. rewrite lcs_nil_r in *. lia. }
  rewrite lcs_cons. destruct (decide (x = y)) as [<-|Hne].
  - destruct (IH b) as (steps & He & Hc). exists (Equal :: steps). split; [by constructor|].
    rewrite count_cons, decide_True by done. lia.
  - destruct (Nat.max_spec (lcs a (y :: b)) (lcs (x :: a) b)) as [[_ ->]|[_ ->]].
    + destruct IHb as (steps & He & Hc). exists (Insert :: steps). split; [by constructor|].
      rewrite count_cons, decide_False by done. lia.
    + destruct (IH (y :: b)) as (steps & He & Hc). exists (Delete :: steps). split; [by constructor|].
      rewrite count_cons, decide_False by done. lia.
Qed.
End scripts.

(** ** Indexing *)

Lemma at_index_eq {S A} (l : list A) i x (s : S) :
  0 <= i -> l !! Z.to_nat i = Some x -> at_index l i s = (Ok x, s).
Proof. intros Hi Hl. unfold at_index. rewrite (proj2 (Z.leb_le 0 i) Hi). by rewrite Hl. Qed.

Lemma lookup_Z_Some {A} (l : list A) i : 0 <= i < Z.of_nat (length l) -> is_Some (l !! Z.to_nat i).
Proof. intros Hi. apply lookup_lt_is_Some. lia. Qed.

(** The diagonals of round [d]. *)
Definition diag (d : nat) (k : Z) : Prop := Z.abs k <= Z.of_nat d /\ exists i, k = Z.of_nat d - 2 * i.

Lemma diag_neighbours d k : diag (S d) k ->
  (k <> - Z.of_nat (S d) -> diag d (k - 1)) /\ (k <> Z.of_nat (S d) -> diag d (k + 1)).
Proof.
  intros [Hk [i Hi]]. split; intros Hne; (split; [lia|]); [exists i|exists (i - 1)]; lia.
Qed.

Lemma diag_parity d j k : diag (S d) k -> diag d j -> j <> k.
Proof. intros [_ [i Hi]] [_ [i' Hi']]. lia. Qed.

Lemma elem_of_diagonals d k : (k ∈ diagonals (Z.of_nat d)) <-> diag d k.
Proof.
  unfold diagonals, upto, diag. rewrite Nat2Z.id. split.
  - intros (z & -> & (i & -> & [_ Hi]%elem_of_seq)%list_elem_of_fmap)%list_elem_of_fmap.
    split; [lia|]. exists (Z.of_nat d - Z.of_nat i). lia.
  - intros [Hk [i Hi]]. apply list_elem_of_fmap. exists (Z.of_nat d - i). split; [lia|].
    apply list_elem_of_fmap. exists (Z.to_nat (Z.of_nat d - i)). split; [lia|]. apply elem_of_seq. lia.
Qed.

Section search.
Context {Line : Type} `{EqDecision Line} (a b : list Line).

Abbreviation n := (Z.of_nat (length a)).
Abbreviation m := (Z.of_nat (length b)).

Lemma reach_diag d x y : reach a b d x y -> diag d (x - y).
Proof. intros (_ & _ & Hk & Hi)%reach_bounds. done. Qed.

(** ** Snakes *)

Lemma returns_snake {S} fuel k x (s : S) :
  0 <= x -> 0 <= x - k -> n - x <= Z.of_nat fuel ->
  returns (snake fuel a b x (x - k)) (fun x' s' => s' = s /\ slide a b k x x' /\ ~ cell a b x' (x' - k)) s.
Proof.
  revert x. induction fuel as [|fuel IH]; intros x Hx Hy Hf; cbn [snake];
    destruct (andb _ _) eqn:E.
  - apply andb_prop in E as [E1%Z.ltb_lt _]. lia.
  - apply returns_ret. split_and!; [done|apply slide_refl|]. intros Hc%cell_bound. lia.
  - apply andb_prop in E as [E1%Z.ltb_lt E2%Z.ltb_lt].
    destruct (lookup_Z_Some a x) as [p Hp]; [lia|]. destruct (lookup_Z_Some b (x - k)) as [q Hq]; [lia|].
    apply returns_bind. eapply returns_eq; [by apply at_index_eq|].
    apply returns_bind. eapply returns_eq; [by apply at_index_eq|].
    destruct (decide (p = q)) as [->|Hne].
    + replace (x - k + 1) with (x + 1 - k) by lia. eapply returns_mono; [apply IH; lia|].
      intros x' s' (-> & Hs & Hn). split_and!; [done| |done]. apply slide_cons; [|done].
      split_and!; [done|done|by exists q].
    + apply returns_ret. split_and!; [done|apply slide_refl|]. intros (_ & _ & l & Hl & Hl'). congruence.
  - apply returns_ret. split_and!; [done|apply slide_refl|]. intros Hc%cell_bound.
    apply andb_false_iff in E as [E%Z.ltb_ge|E%Z.ltb_ge]; lia.
Qed.

(** ** The choice between the two diagonals of the round before *)

(** [at_] reads the furthest points of round [d]. *)
Definition reads {S} (at_ : Z -> M Fault S Z) (d : nat) (s : S) : Prop :=
  forall j, diag d j -> exists x, furthest a b d j x /\ at_ j s = (Ok x, s).

(** Where a round comes from: the furthest point of a diagonal beside [k], and the start of the snake. *)
Definition comes_from (d : nat) (k : Z) (down : bool) (x : Z) : Prop :=
  if down then diag d (k + 1) /\ furthest a b d (k + 1) x /\ start_ok a b d k x
  else diag d (k - 1) /\ furthest a b d (k - 1) x /\ start_ok a b d k (x + 1).

Lemma returns_moves_down {S} (at_ : Z -> M Fault S Z) d k (s : S) : reads at_ d s -> diag (Datatypes.S d) k ->
  returns (moves_down at_ (Z.of_nat (Datatypes.S d)) k) (fun down s' => s' = s /\ exists x, comes_from d k down x) s.
Proof.
  intros Hreads Hk. destruct (diag_neighbours d k Hk) as [Hleft Hright]. unfold moves_down.
  destruct (Z.eqb_spec k (- Z.of_nat (Datatypes.S d))) as [E|E].
  { apply returns_ret. split; [done|]. destruct (Hreads (k + 1)) as (x & Hx & _); [apply Hright; lia|].
    exists x. split_and!; [apply Hright; lia|done|]. apply start_down; [done|].
    intros x' Hr. exfalso. by apply (no_reach a b d (k - 1)) in Hr; [|lia]. }
  destruct (Z.eqb_spec k (Z.of_nat (Datatypes.S d))) as [E'|E'].
  { apply returns_ret. split; [done|]. destruct (Hreads (k - 1)) as (x & Hx & _); [by apply Hleft|].
    exists x. split_and!; [by apply Hleft|done|]. apply start_right; [done|].
    intros x' Hr. exfalso. by apply (no_reach a b d (k + 1)) in Hr; [|lia]. }
  destruct (Hreads (k - 1)) as (l & Hl & El); [by apply Hleft|].
  destruct (Hreads (k + 1)) as (r & Hr & Er); [by apply Hright|].
  apply returns_bind. eapply returns_eq; [done|]. apply returns_bind. eapply returns_eq; [done|].
  apply returns_ret. split; [done|]. destruct (Z.ltb_spec l r) as [Hlt|Hge].
  - exists r. split_and!; [by apply Hright|done|]. apply start_down; [done|].
    intros x' Hx'. apply Hl in Hx'. lia.
  - exists l. split_and!; [by apply Hleft|done|]. apply start_right; [done|].
    intros x' Hx'. apply Hr in Hx'. lia.
Qed.

Lemma comes_from_start d k down x : comes_from d k down x ->
  diag d (if down then k + 1 else k - 1) /\ furthest a b d (if down then k + 1 else k - 1) x /\
  start_ok a b d k (if down then x else x + 1).
Proof. by destruct down. Qed.

Lemma start_ok_bounds d k x : start_ok a b d k x -> 0 <= x /\ 0 <= x - k.
Proof. intros [[Hr|Hr] _]; apply reach_bounds in Hr as (? & ? & _); lia. Qed.

(** ** One round *)

Context (limit : nat).

Abbreviation offset := (Z.of_nat limit + 1).

(** The entry of [v] on diagonal [k] is the furthest point of round [d]. *)
Definition entry (v : list Z) (d : nat) (k : Z) : Prop :=
  exists x, v !! Z.to_nat (k + offset) = Some x /\ furthest a b d k x.

(** What a round needs from [v]: the row of the round before, or a zero in its place. *)
Definition prior (v : list Z) (d : nat) : Prop :=
  length v = (2 * limit + 3)%nat /\
  match d with
  | O => v !! (limit + 2)%nat = Some 0
  | Datatypes.S d => forall j, diag d j -> entry v d j
  end.

Definition set_diagonal (v : list Z) (k x : Z) : list Z := <[Z.to_nat (k + offset) := x]> v.

Lemma prior_set v d k x : (d <= limit)%nat -> diag d k -> prior v d -> prior (set_diagonal v k x) d.
Proof.
  intros Hd Hk [Hl Hv]. unfold prior, set_diagonal. rewrite length_insert. split; [done|].
  pose proof Hk as [Hk' _]. destruct d as [|d].
  - rewrite list_lookup_insert_ne by lia. done.
  - intros j Hj. destruct (Hv j Hj) as (y & Hy & Hf). exists y. split; [|done].
    rewrite list_lookup_insert_ne; [done|]. pose proof (diag_parity d j k Hk Hj). destruct Hj as [Hj _]. lia.
Qed.

Lemma read_eq v k x : 0 <= k + offset -> v !! Z.to_nat (k + offset) = Some x -> read (k + offset) v = (Ok x, v).
Proof. intros Hk Hv. by apply at_index_eq. Qed.

Lemma reads_prior v d : (Datatypes.S d <= limit)%nat -> prior v (Datatypes.S d) -> reads (fun j => read (j + offset)) d v.
Proof.
  intros Hd [_ Hv] j Hj. destruct (Hv j Hj) as (x & Hx & Hf). exists x. split; [done|].
  apply read_eq; [|done]. destruct Hj as [Hj _]. lia.
Qed.

(** The start of the snake of diagonal [k]. *)
Lemma returns_start v d k : (d <= limit)%nat -> diag d k -> prior v d ->
  returns
    (let? down := moves_down (fun j => read (j + offset)) (Z.of_nat d) k in
     if down : bool then read (k + offset + 1) else let? x := read (k + offset - 1) in ret (x + 1))
    (fun x v' => v' = v /\ 0 <= x /\ 0 <= x - k /\
      forall x', slide a b k x x' -> ~ cell a b x' (x' - k) -> furthest a b d k x') v.
Proof.
  intros Hd Hk Hprior. destruct d as [|d].
  - destruct Hk as [Hk _]. assert (k = 0) as -> by lia. destruct Hprior as [Hl Hv].
    apply returns_bind. eapply returns_eq; [done|]. eapply returns_eq.
    + apply at_index_eq; [lia|]. replace (Z.to_nat (0 + offset + 1)) with (limit + 2)%nat by lia. exact Hv.
    + split_and!; [done|lia|lia|]. intros x' Hs Hn. rewrite Z.sub_0_r in Hn. by apply furthest_0.
  - apply returns_bind. eapply returns_mono.
    { apply (returns_moves_down (fun j => read (j + offset)) d k v); [by apply reads_prior|done]. }
    intros down v' (-> & x & Hfrom). apply comes_from_start in Hfrom as (Hdiag & Hf & Hs).
    pose proof (reads_prior v d Hd Hprior _ Hdiag) as (x0 & Hf0 & Hread).
    rewrite (furthest_unique a b d _ x0 x Hf0 Hf) in Hread.
    pose proof (start_ok_bounds d k _ Hs) as [Hx Hy]. destruct down.
    + replace (k + offset + 1) with (k + 1 + offset) by lia. eapply returns_eq; [done|].
      split_and!; [done|done|done|]. intros x' Hsl Hn. by apply (furthest_step a b d k x x').
    + replace (k + offset - 1) with (k - 1 + offset) by lia. apply returns_bind.
      eapply returns_eq; [done|]. apply returns_ret.
      split_and!; [done|done|done|]. intros x' Hsl Hn. by apply (furthest_step a b d k (x + 1) x').
Qed.

Definition at_end (k x : Z) : bool := (n <=? x) && (m <=? x - k).

Lemma returns_assoc {S A B C} (p : M Fault S A) (q : A -> M Fault S B) (r : B -> M Fault S C) Q s :
  returns (bind (bind p q) r) Q s -> returns (bind p (fun x => bind (q x) r)) Q s.
Proof. unfold returns, bind. by destruct (p s) as [[x|e] s']. Qed.

Lemma returns_turn v d k : (d <= limit)%nat -> diag d k -> prior v d ->
  returns (turn a b offset (Z.of_nat d) k) (fun done v' =>
    exists x, furthest a b d k x /\ v' = set_diagonal v k x /\ done = at_end k x) v.
Proof.
  intros Hd Hk Hprior. unfold turn. apply returns_assoc. apply returns_bind.
  eapply returns_mono; [by apply returns_start|]. intros x v' (-> & Hx & Hy & Hfur).
  apply returns_bind. eapply returns_mono; [apply (returns_snake (length a) k x v); lia|].
  intros x' v' (-> & Hs & Hn). apply returns_bind. eapply returns_eq.
  - unfold write. rewrite (proj2 (Z.leb_le 0 (k + offset))), (proj2 (Z.ltb_lt (k + offset) _)); [done|..];
      destruct Hprior as [Hl _], Hk as [Hk _]; lia.
  - apply returns_ret. exists x'. split_and!; [by apply Hfur|done|done].
Qed.

(** The entries of the diagonals visited, none of which is at the end of both texts. *)
Definition visited (v : list Z) (d : nat) (k : Z) : Prop :=
  exists x, v !! Z.to_nat (k + offset) = Some x /\ furthest a b d k x /\ at_end k x = false.

Lemma returns_scan d ks : (d <= limit)%nat -> (forall k, (k ∈ ks) -> diag d k) -> forall v (seen : list Z),
  prior v d -> (forall k, (k ∈ seen) -> diag d k /\ visited v d k) ->
  returns (scan a b offset (Z.of_nat d) ks) (fun done v' => prior v' d /\
    if done : bool then exists k x, furthest a b d k x /\ at_end k x = true
    else forall k, (k ∈ seen ++ ks) -> visited v' d k) v.
Proof.
  intros Hd. induction ks as [|k ks IH]; intros Hks v seen Hprior Hseen; cbn [scan].
  { apply returns_ret. rewrite app_nil_r. split; [done|]. intros k Hk. by apply Hseen. }
  assert (diag d k) as Hk by (apply Hks; left). apply returns_bind.
  eapply returns_mono; [by apply (returns_turn v d k)|]. intros done v' (x & Hf & -> & ->).
  pose proof (prior_set v d k x Hd Hk Hprior) as Hprior'.
  destruct (at_end k x) eqn:E.
  { apply returns_ret. split; [done|]. by exists k, x. }
  assert (forall k, (k ∈ ks) -> diag d k) as Hks' by (intros j Hj; apply Hks; by right).
  eapply returns_mono; [apply (IH Hks' _ (seen ++ [k])); [done|]|].
  - intros j Hj. assert (j = k \/ (diag d j /\ visited v d j)) as Hj'.
    { apply elem_of_app in Hj as [Hj|Hj]; [right; by apply Hseen|left; by apply list_elem_of_singleton]. }
    destruct Hprior as [Hl _]. assert (diag d j) as Hjd by (destruct Hj' as [->|[? _]]; done).
    split; [done|]. destruct (decide (j = k)) as [->|Hne].
    + exists x. split_and!; [|done|done]. destruct Hk as [Hk _]. unfold set_diagonal.
      rewrite list_lookup_insert_eq by lia. done.
    + destruct Hj' as [|[_ (y & Hy & Hfy & Ey)]]; [done|]. exists y. split_and!; [|done|done].
      destruct Hk as [Hk _], Hjd as [Hjd _]. unfold set_diagonal. rewrite list_lookup_insert_ne by lia. done.
  - intros done v' [Hp Hd']. split; [done|]. destruct done; [done|]. by rewrite <- app_assoc in Hd'.
Qed.

(** ** Backtracking *)

Definition trace_ok (trace : list (list Z)) (d : nat) : Prop :=
  forall d', (d' < d)%nat -> exists row, trace !! d' = Some row /\
    forall k, diag d' k -> exists x, row !! Z.to_nat (k + Z.of_nat d') = Some x /\ furthest a b d' k x.

(** The script turns the lines from [x] into the lines from [y]. *)
Definition edits_from (steps : list Step) (x y : Z) : Prop :=
  edits steps (drop (Z.to_nat x) a) (drop (Z.to_nat y) b).

Lemma push_equals_eq {S} fuel x y start_x start_y steps (s : S) :
  x - y = start_x - start_y -> start_x <= x -> x - start_x <= Z.of_nat fuel ->
  push_equals fuel x y start_x start_y steps s =
    (Ok (replicate (Z.to_nat (x - start_x)) Equal ++ steps), s).
Proof.
  revert x y steps. induction fuel as [|fuel IH]; intros x y steps Hk Hx Hf; cbn [push_equals];
    destruct (andb _ _) eqn:E.
  - apply andb_prop in E as [E1%Z.ltb_lt _]. lia.
  - by replace (x - start_x) with 0 by lia.
  - apply andb_prop in E as [E1%Z.ltb_lt _]. rewrite IH by lia.
    replace (Z.to_nat (x - start_x)) with (Datatypes.S (Z.to_nat (x - 1 - start_x))) by lia.
    rewrite replicate_S_end, <- app_assoc. done.
  - assert (x - start_x = 0) as ->; [|done].
    apply andb_false_iff in E as [E%Z.ltb_ge|E%Z.ltb_ge]; lia.
Qed.

Lemma edits_slide k start x steps : 0 <= start -> 0 <= start - k -> slide a b k start x ->
  edits_from steps x (x - k) ->
  edits_from (replicate (Z.to_nat (x - start)) Equal ++ steps) start (start - k).
Proof.
  intros H0 Hk [Hle Hs] He. remember (Z.to_nat (x - start)) as c eqn:Ec.
  revert start H0 Hk Hle Hs Ec. induction c as [|c IH]; intros start H0 Hk Hle Hs Ec.
  { assert (start = x) as -> by lia. done. }
  destruct (Hs start) as (_ & _ & l & Ha & Hb); [lia|]. unfold edits_from in *.
  rewrite (drop_S a l (Z.to_nat start)), (drop_S b l (Z.to_nat (start - k))) by done. simpl. constructor.
  replace (Datatypes.S (Z.to_nat start)) with (Z.to_nat (start + 1)) by lia.
  replace (Datatypes.S (Z.to_nat (start - k))) with (Z.to_nat (start + 1 - k)) by lia.
  apply IH; try lia. intros i Hi. apply Hs. lia.
Qed.

Lemma edits_from_delete steps x y : 0 <= x < n -> edits_from steps (x + 1) y -> edits_from (Delete :: steps) x y.
Proof.
  intros Hx He. destruct (lookup_Z_Some a x) as [l Hl]; [lia|]. unfold edits_from in *.
  rewrite (drop_S a l (Z.to_nat x)) by done. constructor.
  by replace (Datatypes.S (Z.to_nat x)) with (Z.to_nat (x + 1)) by lia.
Qed.

Lemma edits_from_insert steps x y : 0 <= y < m -> edits_from steps x (y + 1) -> edits_from (Insert :: steps) x y.
Proof.
  intros Hy He. destruct (lookup_Z_Some b y) as [l Hl]; [lia|]. unfold edits_from in *.
  rewrite (drop_S b l (Z.to_nat y)) by done. constructor.
  by replace (Datatypes.S (Z.to_nat y)) with (Z.to_nat (y + 1)) by lia.
Qed.

Lemma changes_equals c steps : changes (replicate c Equal ++ steps) = changes steps.
Proof. induction c as [|c IH]; [done|]. simpl. by rewrite changes_cons. Qed.

(** The last snake of a furthest path starts where the choice says. *)
Lemma furthest_slide d k start x : furthest a b (S d) k x -> start_ok a b d k start -> slide a b k start x.
Proof.
  intros [Hr Hm] [Hs Hmax]. apply reach_last in Hr as (x0 & Hs0 & Hd).
  replace (x - (x - k)) with k in * by lia. specialize (Hmax x0 Hd). destruct Hs0 as [Hle Hs0].
  split; [|intros i Hi; apply Hs0; lia]. apply Hm. destruct Hs as [Hs|Hs].
  - apply reach_delete in Hs. by replace (start - 1 + 1) with start in Hs by lia.
  - apply reach_insert in Hs. by replace (start - k - 1 + 1) with (start - k) in Hs by lia.
Qed.

Lemma reads_trace {S} trace d (s : S) previous : trace !! d = Some previous -> trace_ok trace (Datatypes.S d) ->
  reads (fun j => at_index previous (j + Z.of_nat (Datatypes.S d) - 1)) d s.
Proof.
  intros Hp Ht j Hj. destruct (Ht d) as (row & Hrow & Hx); [lia|]. rewrite Hp in Hrow. injection Hrow as <-.
  destruct (Hx j Hj) as (x & Hl & Hf). exists x. split; [done|]. destruct Hj as [Hj _].
  apply at_index_eq; [lia|]. by replace (j + Z.of_nat (Datatypes.S d) - 1) with (j + Z.of_nat d) by lia.
Qed.

Lemma upto_S d : rev (upto (S d)) = Z.of_nat d :: rev (upto d).
Proof. unfold upto. rewrite seq_S, fmap_app, rev_app_distr. done. Qed.

Lemma returns_backtrack_loop {S} trace d x y steps (s : S) :
  trace_ok trace d -> furthest a b d (x - y) x -> 0 <= x <= n -> 0 <= y <= m -> edits_from steps x y ->
  returns (backtrack_loop trace (rev (upto (Datatypes.S d))) x y steps)
    (fun result _ => edits result a b /\ changes result = (d + changes steps)%nat) s.
Proof.
  revert x y steps. induction d as [|d IH]; intros x y steps Ht Hf Hx Hy He; rewrite upto_S; cbn [backtrack_loop].
  { pose proof Hf as [Hr _]. replace (x - (x - y)) with y in Hr by lia.
    apply reach_last in Hr as [<- Hs]. replace (x - x) with 0 in * by lia. simpl.
    eapply returns_eq; [apply push_equals_eq; lia|]. rewrite changes_equals. split; [|done].
    pose proof (edits_slide 0 0 x steps) as Hsl. rewrite !Z.sub_0_r in Hsl. rewrite Z.sub_0_r. by apply Hsl. }
  set (k := x - y) in *. rewrite (proj2 (Z.eqb_neq (Z.of_nat (Datatypes.S d)) 0)) by lia.
  destruct (Ht d) as (previous & Hprev & _); [lia|]. apply returns_bind. eapply returns_eq.
  { apply at_index_eq; [lia|]. by replace (Z.to_nat (Z.of_nat (Datatypes.S d) - 1)) with d by lia. }
  pose proof (reads_trace trace d s previous Hprev Ht) as Hreads.
  assert (diag (Datatypes.S d) k) as Hk by (destruct Hf as [Hr _]; apply reach_diag in Hr; by replace k with (x - (x - k)) by lia).
  apply returns_bind. eapply returns_mono; [by apply (returns_moves_down _ d k s)|].
  intros down s' (-> & px & Hfrom). apply comes_from_start in Hfrom as (Hdiag & Hpx & Hstart).
  destruct (Hreads _ Hdiag) as (px' & Hpx' & Hread). rewrite (furthest_unique a b d _ px' px Hpx' Hpx) in Hread.
  assert (trace_ok trace d) as Ht' by (intros d' Hd'; apply Ht; lia).
  pose proof (furthest_slide d k _ x Hf Hstart) as Hs. pose proof Hs as [Hle _].
  pose proof (start_ok_bounds d k _ Hstart) as [Hsx Hsy].
  pose proof Hpx as [Hr _]. apply reach_bounds in Hr as (Hpx0 & Hpy0 & _).
  pose proof (edits_slide k _ x steps Hsx Hsy Hs) as Hsteps. replace (x - k) with y in Hsteps by lia.
  specialize (Hsteps He).
  assert (forall c step, step <> Equal ->
    changes (step :: replicate c Equal ++ steps) = Datatypes.S (changes steps)) as Hchanges.
  { intros c step Hstep. rewrite changes_cons, changes_equals. by destruct step. }
  destruct down; apply returns_bind; (eapply returns_eq; [done|]); apply returns_bind.
  - eapply returns_eq; [apply push_equals_eq; lia|]. eapply returns_mono.
    + apply (IH px (px - (k + 1))); [done| |lia|lia|].
      * by replace (px - (px - (k + 1))) with (k + 1) by lia.
      * apply edits_from_insert; [lia|]. by replace (px - (k + 1) + 1) with (px - k) by lia.
    + intros result s' [Hres Hc]. split; [done|]. rewrite Hchanges in Hc by done. lia.
  - eapply returns_eq; [apply push_equals_eq; lia|]. eapply returns_mono.
    + apply (IH px (px - (k - 1))); [done| |lia|lia|].
      * by replace (px - (px - (k - 1))) with (k - 1) by lia.
      * apply edits_from_delete; [lia|]. by replace (px - (k - 1)) with (px + 1 - k) by lia.
    + intros result s' [Hres Hc]. split; [done|]. rewrite Hchanges in Hc by done. lia.
Qed.

(** ** The rounds *)

Definition round_row (v : list Z) (d : nat) : list Z := take (2 * d + 1) (drop (limit + 1 - d) v).

Lemma slice_eq v d : length v = (2 * limit + 3)%nat -> (d <= limit)%nat ->
  slice (offset - Z.of_nat d) (offset + Z.of_nat d) v = (Ok (round_row v d), v).
Proof.
  intros Hl Hd. unfold slice, round_row. rewrite !(proj2 (Z.leb_le _ _)), (proj2 (Z.ltb_lt _ _)) by lia. simpl.
  do 3 f_equal; [lia|]. f_equal. lia.
Qed.

Lemma round_row_lookup v d k : (d <= limit)%nat -> diag d k ->
  round_row v d !! Z.to_nat (k + Z.of_nat d) = v !! Z.to_nat (k + offset).
Proof.
  intros Hd [Hk _]. unfold round_row. rewrite lookup_take_lt by lia. rewrite lookup_drop. f_equal. lia.
Qed.

Lemma trace_ok_app trace d row : length trace = d -> trace_ok trace d -> trace_ok (trace ++ [row]) d.
Proof.
  intros Hl Ht d' Hd'. destruct (Ht d' Hd') as (r & Hr & Hx). exists r. split; [|done].
  by rewrite lookup_app_l by lia.
Qed.

Lemma trace_ok_row trace d v : length trace = d -> (d <= limit)%nat -> trace_ok trace d ->
  (forall k, diag d k -> entry v d k) -> trace_ok (trace ++ [round_row v d]) (S d).
Proof.
  intros Hl Hd Ht Hv d' Hd'. destruct (decide (d' = d)) as [->|Hne].
  - exists (round_row v d). split; [by rewrite lookup_app_r, Hl, Nat.sub_diag by lia|].
    intros k Hk. rewrite round_row_lookup by done. by apply Hv.
  - apply (trace_ok_app trace d (round_row v d)); [done|done|lia].
Qed.

Definition no_end (d : nat) : Prop := forall d', (d' < d)%nat -> ~ reach a b d' n m.

(** A round that reaches the end of both texts, when none did before, reaches exactly their corner. *)
Lemma at_end_corner d k x : no_end d -> furthest a b d k x -> at_end k x = true ->
  k = n - m /\ x = n /\ reach a b d n m.
Proof.
  intros Hno [Hr _] [E1%Z.leb_le E2%Z.leb_le]%andb_prop.
  apply reach_clamp in Hr as (d' & Hr & E). rewrite !Z.min_r in Hr, E by lia.
  assert (d' = d) as -> by (destruct (decide (d' = d)); [done|]; exfalso; apply (Hno d'); [lia|done]).
  split_and!; [lia|lia|done].
Qed.

Lemma not_at_end_next d v : no_end d -> (forall k, diag d k -> visited v d k) -> no_end (S d).
Proof.
  intros Hno Hv d' Hd' Hr. destruct (decide (d' = d)) as [->|Hne]; [|by apply (Hno d'); [lia|]].
  destruct (Hv (n - m)) as (x & _ & [_ Hm] & E); [by apply reach_diag in Hr|].
  replace m with (n - (n - m)) in Hr by lia. apply Hm in Hr. unfold at_end in E.
  apply andb_false_iff in E as [E%Z.leb_gt|E%Z.leb_gt]; lia.
Qed.

(** What the search answers: a script with the least number of changes, or none within the limit. *)
Definition answer (result : option (list Step)) : Prop :=
  match result with
  | Some steps => edits steps a b /\ forall d', reach a b d' n m -> (changes steps <= d')%nat
  | None => no_end (S limit)
  end.

Lemma returns_rounds c : forall d v trace, (d + c = S limit)%nat -> prior v d -> length trace = d ->
  trace_ok trace d -> no_end d ->
  returns (rounds a b offset (Z.of_nat <$> seq d c) trace) (fun result _ => answer result) v.
Proof.
  induction c as [|c IH]; intros d v trace Hc Hprior Hl Ht Hno; cbn [seq fmap list_fmap rounds].
  { apply returns_ret. unfold answer. by replace (S limit) with d by lia. }
  assert (d <= limit)%nat as Hd by lia. apply returns_bind.
  eapply returns_mono.
  { apply (returns_scan d (diagonals (Z.of_nat d)) Hd (fun k => proj1 (elem_of_diagonals d k)) v []); [done|].
    by intros k Hk%elem_of_nil. }
  intros done v' [Hprior' Hdone]. apply returns_bind.
  eapply returns_eq; [apply slice_eq; [apply Hprior'|done]|]. destruct done.
  - destruct Hdone as (k & x & Hf & E). destruct (at_end_corner d k x Hno Hf E) as (-> & -> & Hr).
    apply returns_bind. unfold backtrack. rewrite length_app, Hl, Nat.add_1_r.
    eapply returns_mono.
    { apply (returns_backtrack_loop _ d n m []); [by apply trace_ok_app|done|lia|lia|].
      unfold edits_from. rewrite !Nat2Z.id, !drop_all. constructor. }
    intros steps v'' [He Hch]. apply returns_ret. split; [done|]. intros d' Hr'.
    destruct (decide (d <= d')%nat); [change (changes []) with 0%nat in Hch; lia|].
    exfalso. apply (Hno d'); [lia|done].
  - simpl in Hdone. assert (forall k, diag d k -> visited v' d k) as Hv
      by (intros k Hk; apply Hdone; by apply elem_of_diagonals).
    apply (IH (S d)); [lia| | | |].
    + split; [apply Hprior'|]. intros j Hj. destruct (Hv j Hj) as (x & Hx & Hfx & _). by exists x.
    + rewrite length_app, Hl. simpl. lia.
    + apply trace_ok_row; try done. intros k Hk. destruct (Hv k Hk) as (x & Hx & Hfx & _). by exists x.
    + by apply (not_at_end_next d v').
Qed.
End search.

(** ** The whole search *)

Section shortest.
Context {Line : Type} `{EqDecision Line}.

Lemma shortest_script_answers (a b : list Line) :
  exists result, shortest_script a b = Ok result /\
    answer a b (Nat.min (length a + length b) MAX_DIFF_CHANGES) result.
Proof.
  set (limit := Nat.min (length a + length b) MAX_DIFF_CHANGES).
  assert (returns (rounds a b (Z.of_nat limit + 1) (upto (S limit)) []) (fun result _ => answer a b limit result)
    (replicate (2 * limit + 3) 0)) as Hr.
  { unfold upto. apply (returns_rounds a b limit (S limit) 0); [done| |done| |].
    - split; [by rewrite length_replicate|]. apply lookup_replicate. split; [done|lia].
    - intros d' Hd'. lia.
    - intros d' Hd'. lia. }
  unfold shortest_script. fold limit. unfold returns in Hr.
  destruct (rounds a b (Z.of_nat limit + 1) (upto (S limit)) [] _) as [[result|e] v]; [|done].
  by exists result.
Qed.
End shortest.
