(* ===== verification/DiffTheorems.v ===== *)
(** * Theorems on line diffs

    A script is correct and shortest, and keeps a longest common subsequence; the lines of a text
    make it up again; the hunks of a unified diff and the line edits turn the old text into the new one. *)
From Stdlib Require Import Ascii.
From stdpp Require Import sorting strings.
From S2P Require Import Prelude Wire Utf8 Text Diff DiffLaws.
Local Open Scope nat_scope.

(** ** Lines *)

(** One line break, at the end. *)
Definition is_line (line : Text) : Prop := exists body, line = body ++ [newline] /\ (newline ∉ body).

(** What is left after the last line break. *)
Definition is_rest (lines : list Text) : Prop :=
  lines = [] \/ exists line, lines = [line] /\ line <> [] /\ (newline ∉ line).

Lemma split_inclusive_spec text : forall line, (newline ∉ line) ->
  concat (split_inclusive line text) = line ++ text /\
  exists lines rest, split_inclusive line text = lines ++ rest /\ Forall is_line lines /\ is_rest rest.
Proof.
  induction text as [|byte text IH]; intros line Hline; cbn [split_inclusive].
  - case_bool_decide as E.
    + subst line. split; [done|]. exists [], []. split_and!; [done|constructor|by left].
    + split; [simpl; by rewrite !app_nil_r|]. exists [], [line]. split_and!; [done|constructor|].
      right. by exists line.
  - case_bool_decide as E.
    + subst byte. destruct (IH []) as (Hc & lines & rest & El & Hl & Hr); [by intros ?%elem_of_nil|].
      split; [cbn [concat]; rewrite Hc; by rewrite <- app_assoc|].
      exists ((line ++ [newline]) :: lines), rest. rewrite El. split_and!; [done| |done]. constructor; [by exists line|done].
    + destruct (IH (line ++ [byte])) as (Hc & Hlines).
      { intros [Hin|Hin]%elem_of_app; [done|]. apply list_elem_of_singleton in Hin. by symmetry in Hin. }
      split; [rewrite Hc; by rewrite <- app_assoc|done].
Qed.

Lemma concat_split_lines text : concat (split_lines text) = text.
Proof. apply (split_inclusive_spec text []). by intros ?%elem_of_nil. Qed.

(** ** Applying line edits *)

Definition between (text : Text) (start end_ : nat) : Text := take (end_ - start) (drop start text).

(** The text up to the end of the last edit, and that end. *)
Definition render (old : Text) (edits : list LineEdit) : Text * nat :=
  foldl (fun p edit => (p.1 ++ between old p.2 (edit_start edit) ++ edit_text edit, edit_end edit)) ([], 0) edits.

Definition apply_edits (old : Text) (edits : list LineEdit) : Text :=
  (render old edits).1 ++ drop (render old edits).2 old.

(** The edits are in order and do not overlap. *)
Fixpoint ordered (at_ : nat) (edits : list LineEdit) (end_ : nat) : Prop :=
  match edits with
  | [] => at_ <= end_
  | edit :: edits => at_ <= edit_start edit /\ edit_start edit <= edit_end edit /\ ordered (edit_end edit) edits end_
  end.

Lemma render_snoc old edits edit : render old (edits ++ [edit]) =
  ((render old edits).1 ++ between old (render old edits).2 (edit_start edit) ++ edit_text edit, edit_end edit).
Proof. unfold render. by rewrite foldl_app. Qed.

Lemma ordered_snoc at_ edits edit end_ : ordered at_ edits (edit_start edit) ->
  edit_start edit <= edit_end edit -> edit_end edit <= end_ -> ordered at_ (edits ++ [edit]) end_.
Proof.
  revert at_. induction edits as [|e edits IH]; intros at_ Ho Hs He; simpl in *; [done|].
  destruct Ho as (? & ? & ?). split_and!; [done|done|by apply IH].
Qed.

Lemma ordered_le at_ edits i j : ordered at_ edits i -> i <= j -> ordered at_ edits j.
Proof.
  revert at_. induction edits as [|e edits IH]; intros at_ Ho Hj; simpl in *; [lia|].
  destruct Ho as (? & ? & ?). split_and!; [done|done|by apply IH].
Qed.

Section steps.
Context (a b : list Text).

Abbreviation old := (concat a).

Definition offset_of (lines : list Text) (i : nat) : nat := length (concat (take i lines)).

Lemma concat_take_S (lines : list Text) i line : lines !! i = Some line ->
  concat (take (S i) lines) = concat (take i lines) ++ line.
Proof. intros Hl. rewrite (take_S_r lines i line Hl), concat_app. simpl. by rewrite app_nil_r. Qed.

Lemma concat_drop (lines : list Text) i : drop (offset_of lines i) (concat lines) = concat (drop i lines).
Proof.
  unfold offset_of. transitivity (drop (length (concat (take i lines))) (concat (take i lines ++ drop i lines))).
  - by rewrite take_drop.
  - by rewrite concat_app, drop_app_length.
Qed.

Lemma between_line (lines : list Text) i line at_ : lines !! i = Some line -> at_ <= offset_of lines i ->
  between (concat lines) at_ (offset_of lines (S i)) = between (concat lines) at_ (offset_of lines i) ++ line.
Proof.
  intros Hl Hat. unfold between. assert (offset_of lines (S i) = offset_of lines i + length line) as E.
  { unfold offset_of. by rewrite (concat_take_S lines i line Hl), length_app. }
  rewrite E. replace (offset_of lines i + length line - at_) with ((offset_of lines i - at_) + length line) by lia.
  rewrite <- take_take_drop, drop_drop. f_equal.
  replace (at_ + (offset_of lines i - at_)) with (offset_of lines i) by lia.
  rewrite concat_drop, (drop_S lines line i Hl). simpl. by rewrite take_app_length.
Qed.

(** What the loop has done after [i] lines of the old text and [j] lines of the new one. *)
Record progress_ok (p : Progress) : Prop := {
  ok_offset : p_offset p = offset_of a (p_i p);
  ok_open edit : p_open p = Some edit -> edit_end edit = p_offset p;
  ok_ordered : ordered 0 (extend (p_edits p) (p_open p)) (p_offset p);
  ok_at : (render old (extend (p_edits p) (p_open p))).2 <= p_offset p;
  ok_text : (render old (extend (p_edits p) (p_open p))).1 ++
      between old (render old (extend (p_edits p) (p_open p))).2 (p_offset p) = concat (take (p_j p) b) }.

Lemma extend_None edits : extend edits None = edits.
Proof. apply app_nil_r. Qed.

Lemma progress_start : progress_ok (mk_Progress [] 0 0 0 None).
Proof. split; simpl; [done|done|lia|lia|done]. Qed.

(** The edit that is open, or a new one here: before its text, the new text is complete up to line [j]. *)
Lemma opened_ok edits i j offset open : progress_ok (mk_Progress edits i j offset open) ->
  let edit := opened open offset in
  render old (edits ++ [edit]) = (concat (take j b), offset) /\ edit_end edit = offset /\
  ordered 0 edits (edit_start edit) /\ edit_start edit <= offset.
Proof.
  intros [_ Hopen Hord Hat Htext]. cbn [p_edits p_i p_j p_offset p_open] in *. unfold extend in *.
  destruct open as [edit|]; cbn [opened].
  - specialize (Hopen edit eq_refl). rewrite render_snoc in *. cbn [fst snd] in *.
    unfold between at 2 in Htext. rewrite Hopen, Nat.sub_diag, app_nil_r in Htext.
    split_and!; [by rewrite Htext, Hopen|done| |]; clear - Hord Hopen; revert Hord; generalize 0;
      induction edits as [|e edits IH]; intros at_ Hord; simpl in *; [lia| |lia|];
      destruct Hord as (? & ? & Hord); [split_and!; [done|done|by apply IH]|by eapply IH].
  - rewrite app_nil_r in *. rewrite render_snoc. simpl. rewrite app_nil_r, Htext. by split_and!.
Qed.

Lemma edit_equal p line : progress_ok p -> a !! p_i p = Some line -> b !! p_j p = Some line ->
  exists p', edit_step a b p Equal = Some p' /\ p_i p' = S (p_i p) /\ p_j p' = S (p_j p) /\ progress_ok p'.
Proof.
  destruct p as [edits i j offset open]. intros [Hoff Hopen Hord Hat Htext] Ha Hb.
  cbn [p_edits p_i p_j p_offset p_open] in *. cbn [edit_step]. rewrite Ha. eexists. split_and!; [done..|].
  assert (offset + length line = offset_of a (S i)) as E.
  { unfold offset_of. by rewrite (concat_take_S a i line Ha), length_app, Hoff. }
  split; cbn [p_edits p_i p_j p_offset p_open]; rewrite ?extend_None.
  - done.
  - done.
  - eapply ordered_le; [exact Hord|lia].
  - lia.
  - rewrite E, (between_line a i line) by (done || lia).
    rewrite <- Hoff, app_assoc, Htext. by rewrite (concat_take_S b j line Hb).
Qed.

Lemma edit_delete p line : progress_ok p -> a !! p_i p = Some line ->
  exists p', edit_step a b p Delete = Some p' /\ p_i p' = S (p_i p) /\ p_j p' = p_j p /\ progress_ok p'.
Proof.
  destruct p as [edits i j offset open]. intros Hp Ha. pose proof (opened_ok _ _ _ _ _ Hp) as (Hr & He & Ho & Hs).
  destruct Hp as [Hoff _ _ _ _]. cbn [p_edits p_i p_j p_offset p_open] in *. simpl. rewrite Ha. simpl.
  eexists. split_and!; [done..|]. rewrite render_snoc in Hr.
  split; cbn [p_edits p_i p_j p_offset p_open]; unfold extend; rewrite ?render_snoc; simpl in *.
  - unfold offset_of. by rewrite (concat_take_S a i line Ha), length_app, Hoff.
  - by intros edit [= <-].
  - apply ordered_snoc; simpl; [done|lia|done].
  - done.
  - injection Hr as -> _. unfold between. rewrite Nat.sub_diag. by rewrite app_nil_r.
Qed.

Lemma edit_insert p line : progress_ok p -> b !! p_j p = Some line ->
  exists p', edit_step a b p Insert = Some p' /\ p_i p' = p_i p /\ p_j p' = S (p_j p) /\ progress_ok p'.
Proof.
  destruct p as [edits i j offset open]. intros Hp Hb. pose proof (opened_ok _ _ _ _ _ Hp) as (Hr & He & Ho & Hs).
  destruct Hp as [Hoff _ _ _ _]. cbn [p_edits p_i p_j p_offset p_open] in *. simpl. rewrite Hb. simpl.
  eexists. split_and!; [done..|]. rewrite render_snoc in Hr.
  split; cbn [p_edits p_i p_j p_offset p_open]; unfold extend; rewrite ?render_snoc; simpl in *.
  - done.
  - by intros edit [= <-].
  - apply ordered_snoc; simpl; [done|lia|lia].
  - lia.
  - injection Hr as Hr _. rewrite He. unfold between at 2. rewrite Nat.sub_diag. simpl.
    rewrite app_nil_r, !app_assoc, <- (app_assoc _ _ (edit_text _)), Hr. by rewrite (concat_take_S b j line Hb).
Qed.

(** A script runs to the ends of both texts. *)
Lemma edit_steps_ok steps a' b' : edits steps a' b' -> forall p, progress_ok p ->
  a' = drop (p_i p) a -> b' = drop (p_j p) b -> p_i p <= length a -> p_j p <= length b ->
  exists p', edit_steps a b steps p = Some p' /\ p_i p' = length a /\ p_j p' = length b /\ progress_ok p'.
Proof.
  induction 1 as [|steps l a' b' _ IH|steps l a' b' _ IH|steps l a' b' _ IH]; intros p Hp Ea Eb Hi Hj; cbn [edit_steps].
  - exists p. assert (length (drop (p_i p) a) = 0) as Ea' by (by rewrite <- Ea). rewrite length_drop in Ea'.
    assert (length (drop (p_j p) b) = 0) as Eb' by (by rewrite <- Eb). rewrite length_drop in Eb'.
    split_and!; [done|lia|lia|done].
  - symmetry in Ea, Eb. apply drop_cons in Ea as [Ha Ea], Eb as [Hb Eb].
    destruct (edit_equal p l Hp Ha Hb) as (p' & -> & Ei & Ej & Hp'). simpl.
    apply IH; rewrite ?Ei, ?Ej; [done|done|done|by eapply lookup_lt_Some|by eapply lookup_lt_Some].
  - symmetry in Ea. apply drop_cons in Ea as [Ha Ea].
    destruct (edit_delete p l Hp Ha) as (p' & -> & Ei & Ej & Hp'). simpl.
    apply IH; rewrite ?Ei, ?Ej; [done|done|done|by eapply lookup_lt_Some|done].
  - symmetry in Eb. apply drop_cons in Eb as [Hb Eb].
    destruct (edit_insert p l Hp Hb) as (p' & -> & Ei & Ej & Hp'). simpl.
    apply IH; rewrite ?Ei, ?Ej; [done|done|done|done|by eapply lookup_lt_Some].
Qed.
End steps.

(** ** Unified diffs *)

(** The lines of a hunk that the old and the new text have. *)
Definition old_side (ls : list (Step * Text)) : list Text := omap (fun l => match l.1 with Insert => None | _ => Some l.2 end) ls.
Definition new_side (ls : list (Step * Text)) : list Text := omap (fun l => match l.1 with Delete => None | _ => Some l.2 end) ls.

Lemma old_side_cons step line ls :
  old_side ((step, line) :: ls) = match step with Insert => old_side ls | _ => line :: old_side ls end.
Proof. by destruct step. Qed.

Lemma new_side_cons step line ls :
  new_side ((step, line) :: ls) = match step with Delete => new_side ls | _ => line :: new_side ls end.
Proof. by destruct step. Qed.
#[local] Arguments old_side : simpl never.
#[local] Arguments new_side : simpl never.

(** What [patch] does with hunks: it copies the lines before a hunk, checks the lines that the hunk expects with both line
    counts, and writes the new ones. *)
Fixpoint patch (a : list Text) (at_ written : nat) (hs : list Hunk) : option (list Text) :=
  match hs with
  | [] => Some (drop at_ a)
  | h :: hs =>
    let copied := take (hunk_old h - at_) (drop at_ a) in
    if decide (at_ <= hunk_old h /\ hunk_new h = written + length copied /\
      old_side (hunk_lines h) = take (hunk_old_len h) (drop (hunk_old h) a) /\
      hunk_old_len h = length (old_side (hunk_lines h)) /\ hunk_new_len h = length (new_side (hunk_lines h))) then
      rest ← patch a (hunk_old h + hunk_old_len h) (hunk_new h + hunk_new_len h) hs;
      Some (copied ++ new_side (hunk_lines h) ++ rest)
    else None
  end.

Lemma foldl_advance steps p : foldl advance p steps =
  (p.1 + (foldl advance (0, 0) steps).1, p.2 + (foldl advance (0, 0) steps).2).
Proof.
  revert p. induction steps as [|step steps IH]; intros [i j]; [cbn; f_equal; lia|]. cbn [foldl]. rewrite IH.
  rewrite (IH (advance (0, 0) step)). destruct step; cbn; f_equal; lia.
Qed.

Section hunks.
Context (a b : list Text) (steps : list Step) (He : edits steps a b).

Definition pos (k : nat) : nat * nat := foldl advance (0, 0) (take k steps).

Lemma positions_lookup l p k : k < length l -> positions p l !! k = Some (foldl advance p (take k l)).
Proof.
  revert p k. induction l as [|step l IH]; intros p k Hk; cbn in Hk; [lia|]. destruct k as [|k]; [done|]. cbn. apply IH. lia.
Qed.

Lemma pos_S k step : steps !! k = Some step -> pos (S k) = advance (pos k) step.
Proof. intros Hk. unfold pos. by rewrite (take_S_r steps k step Hk), foldl_app. Qed.

(** The script goes on from each position. *)
Lemma edits_from k : edits (drop k steps) (drop (pos k).1 a) (drop (pos k).2 b) /\ (pos k).1 <= length a /\ (pos k).2 <= length b.
Proof.
  unfold pos. revert k. pose proof He as Hedits. clear He. induction Hedits as [|l line a' b' H IH|l line a' b' H IH|l line a' b' H IH]; intros [|k];
    try (split; [by constructor|cbn; lia]); cbn [take drop foldl].
  - rewrite foldl_advance. cbn. destruct (IH k) as (? & ? & ?). split_and!; [done|lia|lia].
  - rewrite foldl_advance. cbn. destruct (IH k) as (? & ? & ?). split_and!; [done|lia|lia].
  - rewrite foldl_advance. cbn. destruct (IH k) as (? & ? & ?). split_and!; [done|lia|lia].
Qed.

Lemma pos_end : pos (length steps) = (length a, length b).
Proof.
  destruct (edits_from (length steps)) as (Hd & Ha & Hb). rewrite drop_all in Hd. inversion Hd as [Hs Ea Eb| | |].
  apply (f_equal length) in Ea, Eb. rewrite length_drop in Ea, Eb. cbn in Ea, Eb. destruct (pos (length steps)) as [i j]. cbn in *. f_equal; lia.
Qed.

(** What a step does to the lines at its position. *)
Lemma step_lines k step : steps !! k = Some step -> exists line,
  hunk_line a b (positions (0, 0) steps) steps k = Some (step, line) /\
  (step <> Insert -> a !! (pos k).1 = Some line) /\ (step <> Delete -> b !! (pos k).2 = Some line).
Proof.
  intros Hk. destruct (edits_from k) as [Hd _]. rewrite (drop_S steps step k Hk) in Hd. unfold hunk_line.
  rewrite positions_lookup by (by eapply lookup_lt_Some). fold (pos k). cbn. rewrite Hk. cbn.
  inversion Hd as [|s line a' b' _ Es Ea Eb|s line a' b' _ Es Ea Eb|s line a' b' _ Es Ea Eb]; subst; exists line;
    try (symmetry in Ea; apply drop_cons in Ea as [Ha _]); try (symmetry in Eb; apply drop_cons in Eb as [Hb _]);
    rewrite ?Ha, ?Hb; by split_and!.
Qed.

(** The lines of a segment of the script. *)
Lemma segment m : forall s, s + m <= length steps -> exists ls,
  mapM (hunk_line a b (positions (0, 0) steps) steps) (seq s m) = Some ls /\
  (pos (s + m)).1 = (pos s).1 + length (old_side ls) /\ (pos (s + m)).2 = (pos s).2 + length (new_side ls) /\
  old_side ls = take (length (old_side ls)) (drop (pos s).1 a) /\ new_side ls = take (length (new_side ls)) (drop (pos s).2 b) /\
  ((forall k, s <= k < s + m -> steps !! k = Some Equal) -> old_side ls = new_side ls) /\
  Forall (fun l => (l.2 ∈ a) \/ (l.2 ∈ b)) ls.
Proof.
  induction m as [|m IH]; intros s Hs.
  - exists []. rewrite Nat.add_0_r. cbn. split_and!; try lia; auto.
  - destruct (lookup_lt_is_Some_2 steps s) as [step Hstep]; [lia|]. destruct (step_lines s step Hstep) as (line & Hl & Ha & Hb).
    destruct (IH (S s)) as (ls & Hls & H1 & H2 & H3 & H4 & H5 & H6); [lia|].
    assert (Forall (fun l => (l.2 ∈ a) \/ (l.2 ∈ b)) ((step, line) :: ls)) as Hin.
    { constructor; [|done]. cbn. destruct step; [left..|right]; eapply list_elem_of_lookup_2; auto. } replace (S s + m) with (s + S m) in * by lia.
    rewrite (pos_S s step Hstep) in *. exists ((step, line) :: ls). cbn [seq mapM]. rewrite Hl. cbn. rewrite Hls. split; [done|].
    destruct step; cbn [advance fst snd] in *; rewrite ?old_side_cons, ?new_side_cons; cbn [length].
    + rewrite (drop_S a line) by auto. rewrite (drop_S b line) by auto. cbn [take].
      split_and!; [lia|lia|by f_equal|by f_equal| |done].
      intros Hall. f_equal. apply H5. intros k Hk. apply Hall. lia.
    + rewrite (drop_S a line) by auto. cbn [take]. split_and!; [lia|lia|by f_equal|done| |done].
      intros Hall. specialize (Hall s ltac:(lia)). congruence.
    + rewrite (drop_S b line) by auto. cbn [take]. split_and!; [lia|lia|done|by f_equal| |done].
      intros Hall. specialize (Hall s ltac:(lia)). congruence.
Qed.

Abbreviation changed := (change_indices steps).

Lemma elem_of_changed k : (k ∈ changed) <-> k < length steps /\ steps !! k <> Some Equal.
Proof. unfold change_indices. rewrite list_elem_of_filter, elem_of_seq. naive_solver lia. Qed.

Lemma changed_sorted i j c d : changed !! i = Some c -> changed !! j = Some d -> i < j -> c < d.
Proof.
  assert (StronglySorted lt changed) as Hsorted.
  { unfold change_indices. generalize (length steps), 0. intros n. induction n as [|n IH]; intros s; cbn [seq]; [constructor|].
    rewrite filter_cons. case_decide; [|apply IH]. constructor; [apply IH|]. apply Forall_lookup. intros ? k Hk%list_elem_of_lookup_2.
    apply list_elem_of_filter in Hk as [_ Hk%elem_of_seq]. lia. }
  revert i j. induction Hsorted as [|x l _ IH Hall]; intros i j Hi Hj Hij; [done|]. rewrite Forall_lookup in Hall.
  destruct j as [|j]; [lia|]. destruct i as [|i]; cbn in Hi, Hj.
  - simplify_eq. by apply (Hall j).
  - apply (IH i j); [done|done|lia].
Qed.

Context (context : nat) (Hsmall : (N.of_nat (length steps + 2 * context) < 2 ^ 64)%N).

(** The changes that a hunk joins are followed by more than twice the context of equal lines. *)
Lemma join_changes_spec fuel : forall f, f < length changed -> length changed - f <= S fuel -> exists l,
  join_changes fuel context changed f = Some l /\ f <= l < length changed /\
  (forall c d, changed !! l = Some c -> changed !! S l = Some d -> c + 1 + 2 * context < d).
Proof.
  induction fuel as [|fuel IH]; intros f Hf Hfuel; cbn [join_changes].
  all: destruct (Nat.ltb_spec (S f) (length changed)) as [Hlt|Hge];
    [|exists f; split_and!; [done|lia|lia|]; intros c d _ Hd%lookup_lt_Some; lia].
  - lia.
  - destruct (lookup_lt_is_Some_2 changed (S f)) as [d Hd]; [lia|]. destruct (lookup_lt_is_Some_2 changed f) as [c Hc]; [lia|].
    pose proof (changed_sorted _ _ _ _ Hc Hd ltac:(lia)). rewrite Hc, Hd. cbn [mbind option_bind]. unfold checked_sub.
    rewrite (proj2 (Nat.leb_le c d)) by lia. cbn [mbind option_bind]. rewrite (proj2 (Nat.leb_le 1 (d - c))) by lia.
    cbn [mbind option_bind]. rewrite checked_mul_small by lia. cbn [mbind option_bind].
    destruct (Nat.leb_spec (d - c - 1) (2 * context)).
    + destruct (IH (S f)) as (l & -> & ? & ?); [lia|lia|]. exists l. split_and!; [done|lia|lia|done].
    + exists f. split_and!; [done|lia|lia|]. intros c' d' ? ?. simplify_eq. lia.
Qed.

Lemma positions_pos k : k < length steps -> positions (0, 0) steps !! k = Some (pos k).
Proof. by apply positions_lookup. Qed.

(** The hunk of the changes between two of them is the segment of the script around them. *)
Lemma hunk_eq first_ last : first_ <= last < length steps -> exists ls,
  let start := first_ - context in
  let end_ := Nat.min (last + 1 + context) (length steps) in
  hunk context a b (positions (0, 0) steps) steps first_ last =
    Some (mk_Hunk (pos start).1 (length (old_side ls)) (pos start).2 (length (new_side ls)) ls) /\
  (pos end_).1 = (pos start).1 + length (old_side ls) /\ (pos end_).2 = (pos start).2 + length (new_side ls) /\
  old_side ls = take (length (old_side ls)) (drop (pos start).1 a) /\
  new_side ls = take (length (new_side ls)) (drop (pos start).2 b) /\
  Forall (fun l => (l.2 ∈ a) \/ (l.2 ∈ b)) ls.
Proof.
  intros Hle. unfold hunk. rewrite (checked_add_small last 1) by lia. cbn [mbind option_bind].
  rewrite checked_add_small by lia. cbn [mbind option_bind]. set (start := first_ - context). set (end_ := Nat.min (last + 1 + context) (length steps)).
  assert (start <= end_ <= length steps /\ start < length steps) as [Hin Hlt] by lia. clearbody start end_.
  destruct (segment (end_ - start) start) as (ls & Hls & H1 & H2 & H3 & H4 & _ & H6); [lia|].
  replace (start + (end_ - start)) with end_ in * by lia. exists ls. cbn zeta. split_and!; [|done..].
  rewrite (positions_pos start) by lia. cbn [mbind option_bind].
  assert ((if end_ <? length steps then positions (0, 0) steps !! end_ else Some (length a, length b)) = Some (pos end_)) as ->.
  { destruct (Nat.ltb_spec end_ (length steps)); [by apply positions_pos|].
    replace end_ with (length steps) by lia. by rewrite pos_end. }
  cbn [mbind option_bind]. unfold checked_sub. rewrite H1, H2, !(proj2 (Nat.leb_le _ _)) by lia. cbn [mbind option_bind].
  rewrite Hls. cbn. do 2 f_equal; lia.
Qed.

(** Steps that are all equal leave the rest of both texts the same. *)
Lemma equal_lines s m : s + m <= length steps -> (forall k, s <= k < s + m -> steps !! k = Some Equal) -> exists ls,
  ls = take (length ls) (drop (pos s).1 a) /\ ls = take (length ls) (drop (pos s).2 b) /\
  (pos (s + m)).1 = (pos s).1 + length ls /\ (pos (s + m)).2 = (pos s).2 + length ls.
Proof.
  intros Hle Hall. destruct (segment m s Hle) as (ls & _ & H1 & H2 & H3 & H4 & H5 & _). rewrite (H5 Hall) in *. eauto.
Qed.

(** The lines of a hunk are lines of the texts, and its ranges lie inside them. *)
Definition hunk_ok (h : Hunk) : Prop :=
  hunk_old h + hunk_old_len h <= length a /\ hunk_new h + hunk_new_len h <= length b /\
  Forall (fun l => (l.2 ∈ a) \/ (l.2 ∈ b)) (hunk_lines h).

(** [patch] makes the rest of the new text of the hunks that are left, from the end [e] of the hunk before. *)
Lemma hunks_patch fuel : forall f e, length changed - f <= fuel -> e <= length steps ->
  (forall k, e <= k < length steps -> steps !! k <> Some Equal -> exists i, f <= i /\ changed !! i = Some k) ->
  (forall i c, f <= i -> changed !! i = Some c -> e <= c - context) ->
  exists hs, hunks fuel context a b (positions (0, 0) steps) steps changed f = Some hs /\
    patch a (pos e).1 (pos e).2 hs = Some (drop (pos e).2 b) /\ Forall hunk_ok hs.
Proof.
  induction fuel as [|fuel IH]; intros f e Hfuel He' Hleft Hstart; cbn [hunks].
  all: destruct (Nat.ltb_spec f (length changed)) as [Hlt|Hge]; try lia.
  1,3: exists []; split; [done|]; split; [|constructor]; cbn [patch]; f_equal;
    destruct (equal_lines e (length steps - e)) as (ls & Ha & Hb & H1 & H2); [lia|intros k Hk; apply dec_stable; intros Hne;
      destruct (Hleft k) as (i & ? & ?%lookup_lt_Some); [lia|done|lia]|];
    replace (e + (length steps - e)) with (length steps) in * by lia; rewrite pos_end in H1, H2; cbn in H1, H2;
    rewrite take_ge in Ha, Hb by (rewrite length_drop; lia); congruence.
  destruct (join_changes_spec (length changed) f Hlt ltac:(lia)) as (l & -> & Hl & Hgap).
  destruct (lookup_lt_is_Some_2 changed f) as [c Hc]; [lia|]. destruct (lookup_lt_is_Some_2 changed l) as [d Hd]; [lia|].
  cbn [mbind option_bind]. rewrite Hc, Hd. cbn [mbind option_bind].
  assert (c <= d < length steps) as Hcd.
  { split; [|by apply list_elem_of_lookup_2, elem_of_changed in Hd as []].
    destruct (decide (f = l)) as [<-|]; [simplify_eq; lia|]. pose proof (changed_sorted f l c d Hc Hd). lia. }
  pose proof (Hstart f c (le_n f) Hc) as Hec. destruct (hunk_eq c d Hcd) as (ls & -> & H1 & H2 & H3 & H4 & H5).
  cbn zeta in *. set (start := c - context) in *. set (end_ := Nat.min (d + 1 + context) (length steps)) in *.
  cbn [mbind option_bind]. destruct (IH (S l) end_) as (hs & -> & Hpatch & Hok); [lia|lia| | |].
  { intros k Hk Hne. destruct (Hleft k) as (i & Hi & Hik); [lia|done|]. exists i. split; [|done].
    destruct (decide (S l <= i)); [done|]. exfalso.
    destruct (decide (i = l)) as [->|]; [simplify_eq; lia|]. pose proof (changed_sorted i l k d Hik Hd). lia. }
  { intros i k Hi Hik. destruct (lookup_lt_is_Some_2 changed (S l)) as [k' Hk']; [apply lookup_lt_Some in Hik; lia|].
    pose proof (Hgap d k' Hd Hk'). destruct (decide (i = S l)) as [->|]; [simplify_eq; lia|].
    pose proof (changed_sorted (S l) i k' k Hk' Hik). lia. }
  exists (mk_Hunk (pos start).1 (length (old_side ls)) (pos start).2 (length (new_side ls)) ls :: hs). split; [done|]. split.
  2: { constructor; [|done]. pose proof (edits_from end_) as (_ & ? & ?). split_and!; cbn; [lia|lia|done]. }
  destruct (equal_lines e (start - e)) as (eqs & Ea & Eb & P1 & P2); [lia|intros k Hk; apply dec_stable; intros Hne;
    destruct (Hleft k) as (i & ? & Hik); [lia|done|]; destruct (decide (i = f)) as [->|]; [simplify_eq; lia|];
    pose proof (changed_sorted f i c k Hc Hik); lia|]. replace (e + (start - e)) with start in * by lia.
  cbn [patch hunk_old hunk_old_len hunk_new hunk_new_len hunk_lines].
  replace (take ((pos start).1 - (pos e).1) (drop (pos e).1 a)) with eqs by (rewrite Ea at 1; f_equal; lia).
  rewrite decide_True by (split_and!; [lia|lia|done|done|done]). rewrite <- H1, <- H2, Hpatch. cbn. f_equal.
  rewrite Eb, H4, H2, P2. rewrite <- !drop_drop. by rewrite !take_drop.
Qed.
End hunks.

(** ** Reading a unified diff *)

Definition read_number (text : Text) : option nat :=
  if bool_decide (text = []) || negb (forallb is_ascii_digit text) then None
  else Some (N.to_nat (foldl (fun acc b => acc * 10 + (uval b - 48)) 0 text)%N).

(** [start,length] with the lines counted from 1, or [start] for one line. A range without lines names the line before it. *)
Definition read_range (text : Text) : option (nat * nat) :=
  match split_on "," text with
  | [start] => start ← read_number start; start ← checked_sub start 1; Some (start, 1)
  | [start; count] =>
    start ← read_number start; count ← read_number count;
    if Nat.eqb count 0 then Some (start, 0) else start ← checked_sub start 1; Some (start, count)
  | _ => None
  end.

(** [@@ -range +range @@] *)
Definition read_header (line : Text) : option (nat * nat * (nat * nat)) :=
  match split_on " " line with
  | [opening; old; new; closing] =>
    if decide (opening = txt "@@" /\ closing = txt "@@" ++ [newline]) then
      old ← strip_prefix (txt "-") old; new ← strip_prefix (txt "+") new;
      old ← read_range old; new ← read_range new; Some (old, new)
    else None
  | _ => None
  end.

(** What the lines from one on say: whether the line before ends with a line break, the rest of its hunk, and the hunks
    after it. *)
Fixpoint read_rows (rows : list Text) : option (bool * list (Step * Text) * list Hunk) :=
  match rows with
  | [] => Some (true, [], [])
  | row :: rows =>
    '(ended, lines, hs) ← read_rows rows;
    if decide (row = txt "\ No newline at end of file" ++ [newline]) then
      if ended : bool then Some (false, lines, hs) else None
    else if starts_with (txt "@") row then
      if ended : bool then
        '(old, new) ← read_header row;
        Some (true, [], mk_Hunk old.1 old.2 new.1 new.2 lines :: hs)
      else None
    else
      match row with
      | [] => None
      | sign :: text =>
        step ← (if is_char sign " " then Some Equal else if is_char sign "-" then Some Delete
                else if is_char sign "+" then Some Insert else None);
        Some (true, (step, if ended : bool then text else removelast text) :: lines, hs)
      end
  end.

Definition read_hunks (text : Text) : option (list Hunk) :=
  match read_rows (split_lines text) with Some (true, [], hs) => Some hs | _ => None end.

Lemma read_number_number n : (N.of_nat n < 2 ^ 64)%N -> read_number (number n) = Some n.
Proof.
  intros Hn. unfold read_number, number. rewrite bool_decide_eq_false_2 by apply dec_nonempty.
  pose proof (dec_digits (N.of_nat n)) as Hd. rewrite (proj2 (forallb_forall _ _)).
  2: { intros b Hb. rewrite list.Forall_forall in Hd. by apply Hd, list_elem_of_In. }
  cbn [orb negb]. unfold dec, decimal. rewrite (digits_of_value 10 _ ltac:(lia)); [cbn; f_equal; lia| |].
  - intros d Hd'. change (ch "0") with 48%N. rewrite byte_of_value by lia. lia.
  - transitivity (2 ^ 64)%N; [done|by vm_compute].
Qed.

Lemma number_plain c n : in_range (ch "0") (ch "9") (ch c) = false -> forall b, b ∈ number n -> is_char b c = false.
Proof.
  intros Hc b Hb. apply not_true_is_false. unfold is_char. intros E%N.eqb_eq. pose proof (dec_digits (N.of_nat n)) as Hd.
  rewrite list.Forall_forall in Hd. specialize (Hd b Hb). unfold is_ascii_digit in Hd. rewrite E in Hd. congruence.
Qed.

Lemma split_piece c x y : (forall b, b ∈ x -> is_char b c = false) -> is_char (byte_of (ch c)) c = true ->
  split_on c (x ++ byte_of (ch c) :: y) = x :: split_on c y.
Proof.
  intros Hx Hc. rewrite (split_on_app c x _ [] x [] (split_on c y)); [by rewrite app_nil_r|by apply split_on_none|].
  cbn [split_on]. by rewrite Hc.
Qed.

(** The bounds of a range that is printed. *)
Definition range_small (start len : nat) : Prop := (N.of_nat (start + len + 1) < 2 ^ 64)%N.

Lemma range_eq start len : range start len =
  match len with
  | 0 => number start ++ txt ",0"
  | 1 => number (start + 1)
  | _ => number (start + 1) ++ txt "," ++ number len
  end.
Proof. done. Qed.

Lemma read_range_range start len : range_small start len -> read_range (range start len) = Some (start, len).
Proof.
  intros Hs. unfold range_small in Hs. rewrite range_eq.
  assert (forall n b, b ∈ number n -> is_char b "," = false) as Hplain by (intros n; by apply number_plain).
  pose proof (fun n text => split_piece "," (number n) text (Hplain n) eq_refl) as Hsplit.
  unfold read_range. destruct len as [|[|len]].
  - change (txt ",0") with (byte_of (ch ",") :: txt "0"). rewrite Hsplit. cbn [split_on].
    change (split_on "," (txt "0")) with [txt "0"]. cbn [mbind option_bind]. rewrite read_number_number by lia. done.
  - rewrite (split_on_none "," (number (start + 1))) by apply Hplain. rewrite read_number_number by lia. cbn [mbind option_bind].
    unfold checked_sub. rewrite (proj2 (Nat.leb_le 1 (start + 1))) by lia. cbn [mbind option_bind]. do 2 f_equal. lia.
  - change (txt "," ++ number (S (S len))) with (byte_of (ch ",") :: number (S (S len))). rewrite Hsplit.
    rewrite (split_on_none "," (number (S (S len)))) by apply Hplain. rewrite !read_number_number by lia. cbn [mbind option_bind Nat.eqb].
    unfold checked_sub. rewrite (proj2 (Nat.leb_le 1 (start + 1))) by lia. cbn [mbind option_bind]. do 2 f_equal. lia.
Qed.

(** A range has no byte of a class that has neither digits nor a comma. *)
Lemma range_plain c start len : in_range (ch "0") (ch "9") (ch c) = false -> is_char (byte_of (ch ",")) c = false ->
  is_char (byte_of (ch "0")) c = false -> forall b, b ∈ range start len -> is_char b c = false.
Proof.
  intros Hd Hcomma H0 b. pose proof (fun n => number_plain c n Hd b) as Hn. rewrite range_eq.
  destruct len as [|[|len]]; rewrite ?elem_of_app; [|by apply Hn|].
  - intros [|[->|[->|[]%elem_of_nil]%elem_of_cons]%elem_of_cons]; [by eapply Hn|done|done].
  - intros [|[->%list_elem_of_singleton|]]; [by eapply Hn|done|by eapply Hn].
Qed.

Definition header_row (h : Hunk) : Text :=
  txt "@@ -" ++ range (hunk_old h) (hunk_old_len h) ++ txt " +" ++ range (hunk_new h) (hunk_new_len h) ++ txt " @@" ++ [newline].

Definition hunk_small (h : Hunk) : Prop :=
  range_small (hunk_old h) (hunk_old_len h) /\ range_small (hunk_new h) (hunk_new_len h).

Lemma read_header_row h : hunk_small h ->
  read_header (header_row h) = Some ((hunk_old h, hunk_old_len h), (hunk_new h, hunk_new_len h)).
Proof.
  intros [Ho Hn]. unfold read_header, header_row. set (old := range (hunk_old h) (hunk_old_len h)). set (new := range (hunk_new h) (hunk_new_len h)).
  assert (forall b, b ∈ txt "-" ++ old -> is_char b " " = false) as Hold.
  { intros b [->%list_elem_of_singleton|Hb]%elem_of_app; [done|]. by eapply range_plain. }
  assert (forall b, b ∈ txt "+" ++ new -> is_char b " " = false) as Hnew.
  { intros b [->%list_elem_of_singleton|Hb]%elem_of_app; [done|]. by eapply range_plain. }
  assert (txt "@@ -" ++ old ++ txt " +" ++ new ++ txt " @@" ++ [newline] = txt "@@" ++ byte_of (ch " ") :: (txt "-" ++ old) ++
    byte_of (ch " ") :: (txt "+" ++ new) ++ byte_of (ch " ") :: (txt "@@" ++ [newline])) as ->.
  { change (txt "@@ -") with (txt "@@" ++ byte_of (ch " ") :: txt "-"). change (txt " +") with (byte_of (ch " ") :: txt "+").
    change (txt " @@") with (byte_of (ch " ") :: txt "@@"). by rewrite <- !app_assoc. }
  assert (forall b, b ∈ txt "@@" -> is_char b " " = false) as Hat.
  { intros b [->|[->|[]%elem_of_nil]%elem_of_cons]%elem_of_cons; reflexivity. }
  rewrite (split_piece " " (txt "@@") _ Hat eq_refl), (split_piece " " (txt "-" ++ old) _ Hold eq_refl),
    (split_piece " " (txt "+" ++ new) _ Hnew eq_refl). change (split_on " " (txt "@@" ++ [newline])) with [txt "@@" ++ [newline]].
  cbv beta iota.
  rewrite decide_True by (split; reflexivity). rewrite (strip_prefix_app (txt "-") old), (strip_prefix_app (txt "+") new).
  cbv beta iota delta [mbind option_bind]. unfold old, new.
  rewrite (read_range_range _ _ Ho), (read_range_range _ _ Hn). reflexivity.
Qed.

(** The rows of a line, and of a hunk. *)
Definition no_end_row : Text := txt "\ No newline at end of file" ++ [newline].

Definition line_rows (l : Step * Text) : list Text :=
  if decide (list.last l.2 = Some newline) then [step_mark l.1 ++ l.2] else [step_mark l.1 ++ l.2 ++ [newline]; no_end_row].

Definition hunk_rows (h : Hunk) : list Text := header_row h :: concat (line_rows <$> hunk_lines h).

Lemma line_rows_text l : concat (line_rows l) = push_line l.1 l.2.
Proof.
  unfold line_rows, push_line, no_end_row. case_decide; cbn [concat]; rewrite ?app_nil_r; [done|]. by rewrite <- !app_assoc.
Qed.

Lemma hunk_rows_text h : concat (hunk_rows h) = hunk_text h.
Proof.
  unfold hunk_rows, hunk_text, header_row. cbn [concat]. rewrite <- !app_assoc. do 6 f_equal. induction (hunk_lines h) as [|l ls IH]; [done|].
  rewrite !fmap_cons. cbn [concat]. by rewrite concat_app, line_rows_text, IH.
Qed.

(** Lines of a text: at most one line break, at the end. *)
Definition line_ok (line : Text) : Prop := is_line line \/ (newline ∉ line).

Lemma split_lines_ok text line : line ∈ split_lines text -> line_ok line.
Proof.
  destruct (split_inclusive_spec text [] ltac:(by intros ?%elem_of_nil)) as (_ & lines & rest & E & Hl & Hr). unfold split_lines. rewrite E.
  intros [Hin|Hin]%elem_of_app; [left; by eapply list.Forall_forall|right].
  destruct Hr as [->|(l & -> & _ & Hn)]; [by apply elem_of_nil in Hin|]. by apply list_elem_of_singleton in Hin as ->.
Qed.

Lemma split_lines_length text : length (split_lines text) <= length text.
Proof.
  destruct (split_inclusive_spec text [] ltac:(by intros ?%elem_of_nil)) as (Ec & lines & rest & E & Hl & Hr). cbn [app] in Ec.
  assert (Forall (fun line => line <> []) (split_lines text)) as Hne.
  { unfold split_lines. rewrite E. apply Forall_app. split.
    - eapply list.Forall_impl; [exact Hl|]. by intros line ([|b body] & -> & _).
    - destruct Hr as [->|(l & -> & Hn & _)]; by repeat constructor. }
  fold (split_lines text) in Ec. rewrite <- Ec at 2. clear -Hne. induction Hne as [|[|b line] lines Hn _ IH]; [done|done|].
  cbn in *. rewrite length_app. lia.
Qed.

Lemma edits_length steps (a b : list Text) : edits steps a b -> length steps <= length a + length b.
Proof. induction 1; cbn; lia. Qed.

Lemma split_inclusive_line line body text : (newline ∉ body) ->
  split_inclusive line (body ++ newline :: text) = (line ++ body ++ [newline]) :: split_lines text.
Proof.
  revert line. induction body as [|b body IH]; intros line Hb; cbn [app split_inclusive].
  - by rewrite bool_decide_eq_true_2.
  - apply not_elem_of_cons in Hb as [Hne Hb]. rewrite bool_decide_eq_false_2 by done. rewrite IH by done. by rewrite <- app_assoc.
Qed.

Lemma split_lines_rows rows : Forall is_line rows -> split_lines (concat rows) = rows.
Proof.
  induction 1 as [|row rows (body & -> & Hb) _ IH]; [done|]. cbn [concat]. unfold split_lines. rewrite <- app_assoc. cbn [app].
  rewrite split_inclusive_line by done. cbn [app]. by rewrite IH.
Qed.

Lemma line_rows_lines l : line_ok l.2 -> Forall is_line (line_rows l).
Proof.
  destruct l as [step line]. cbn. intros Hl. assert (newline ∉ step_mark step) as Hm.
  { destruct step; intros ?%list_elem_of_singleton; discriminate. }
  unfold line_rows. cbn [fst snd]. case_decide as Hlast.
  - constructor; [|constructor]. destruct Hl as [(body & -> & Hb)|Hn].
    + exists (step_mark step ++ body). split; [by rewrite app_assoc|]. by rewrite not_elem_of_app.
    + exfalso. apply last_Some in Hlast as [l' ->]. apply Hn, elem_of_app. right. by apply list_elem_of_singleton.
  - assert (newline ∉ line) as Hn.
    { destruct Hl as [(body & -> & Hb)|Hn]; [|done]. by rewrite last_snoc in Hlast. }
    repeat constructor.
    + exists (step_mark step ++ line). split; [by rewrite app_assoc|]. by rewrite not_elem_of_app.
    + exists (txt "\ No newline at end of file"). split; [done|]. apply (bool_decide_eq_true_1 _). by vm_compute.
Qed.

Lemma header_row_line h : is_line (header_row h).
Proof.
  exists (txt "@@ -" ++ range (hunk_old h) (hunk_old_len h) ++ txt " +" ++ range (hunk_new h) (hunk_new_len h) ++ txt " @@").
  split; [unfold header_row; by rewrite <- !app_assoc|].
  assert (forall start len, newline ∉ range start len) as Hr.
  { intros start len Hin. by assert (is_char newline LF = false) by by eapply range_plain. }
  assert (forall text, forallb (fun b => negb (bool_decide (b = newline))) text = true -> newline ∉ text) as Hall.
  { intros text Ht Hin%list_elem_of_In. by apply (proj1 (forallb_forall _ _) Ht) in Hin. }
  rewrite !not_elem_of_app. split_and!; try apply Hr; apply Hall; by vm_compute.
Qed.

Lemma hunk_rows_lines h : Forall (fun l => line_ok l.2) (hunk_lines h) -> Forall is_line (hunk_rows h).
Proof.
  intros Hl. constructor; [apply header_row_line|]. induction Hl as [|l ls Hl _ IH]; [constructor|]. rewrite fmap_cons. cbn [concat].
  apply Forall_app. split; [by apply line_rows_lines|done].
Qed.

(** Reading the rows back. *)
Lemma read_line_rows l rows lines hs : read_rows rows = Some (true, lines, hs) ->
  read_rows (line_rows l ++ rows) = Some (true, l :: lines, hs).
Proof.
  destruct l as [step line]. intros Hr. unfold line_rows. cbn [fst snd]. case_decide.
  - cbn [app read_rows]. rewrite Hr. cbn [mbind option_bind]. by destruct step.
  - cbn [app]. cbn [read_rows]. rewrite Hr. cbn [mbind option_bind]. rewrite decide_True by done. cbn [mbind option_bind].
    destruct step; cbn; by rewrite removelast_last.
Qed.

Lemma read_hunk_rows h rows hs : hunk_small h -> read_rows rows = Some (true, [], hs) ->
  read_rows (hunk_rows h ++ rows) = Some (true, [], h :: hs).
Proof.
  intros Hs Hr. unfold hunk_rows. cbn [app read_rows].
  assert (read_rows (concat (line_rows <$> hunk_lines h) ++ rows) = Some (true, hunk_lines h, hs)) as ->.
  { induction (hunk_lines h) as [|l ls IH]; [done|]. rewrite fmap_cons. cbn [concat]. rewrite <- app_assoc. by apply read_line_rows. }
  cbn [mbind option_bind]. rewrite decide_False by (intros E; by apply (f_equal head) in E).
  change (starts_with (txt "@") (header_row h)) with true. cbv iota. rewrite (read_header_row h Hs). cbn [mbind option_bind fst snd].
  by destruct h.
Qed.

Lemma read_hunks_text hs : Forall (fun h => hunk_small h /\ Forall (fun l => line_ok l.2) (hunk_lines h)) hs ->
  read_hunks (concat (hunk_text <$> hs)) = Some hs.
Proof.
  intros Hall. unfold read_hunks.
  assert (concat (hunk_text <$> hs) = concat (concat (hunk_rows <$> hs)) /\ Forall is_line (concat (hunk_rows <$> hs)) /\
    read_rows (concat (hunk_rows <$> hs)) = Some (true, [], hs)) as (-> & Hl & Hr).
  { induction Hall as [|h hs [Hs Hl] _ (IH1 & IH2 & IH3)]; [done|]. rewrite !fmap_cons. cbn [concat]. split_and!.
    - by rewrite concat_app, hunk_rows_text, IH1.
    - apply Forall_app. split; [by apply hunk_rows_lines|done].
    - by apply read_hunk_rows. }
  by rewrite split_lines_rows, Hr.
Qed.

(** ** What the module promises *)

Lemma no_script {Line : Type} (a b : list Line) :
  answer a b (Nat.min (length a + length b) MAX_DIFF_CHANGES) None ->
  forall steps, edits steps a b -> MAX_DIFF_CHANGES < changes steps.
Proof.
  intros Ha.
  assert (forall steps, edits steps a b -> Nat.min (length a + length b) MAX_DIFF_CHANGES < changes steps) as Hall.
  { intros steps Hs. apply edits_reach in Hs.
    destruct (decide (changes steps < S (Nat.min (length a + length b) MAX_DIFF_CHANGES))); [|lia].
    exfalso. by apply (Ha (changes steps)). }
  intros steps Hs. pose proof (Hall _ Hs). pose proof (Hall _ (edits_all a b)) as Hlt. rewrite changes_all in Hlt. lia.
Qed.

(** C37: [shortest_script] never fails. A script it gives turns the old lines into the new ones, and no
    other script changes fewer lines; it gives none only when every script changes more than [MAX_DIFF_CHANGES] lines. *)
Theorem shortest_script_shortest {Line : Type} `{EqDecision Line} (a b : list Line) :
  match shortest_script a b with
  | Ok (Some steps) => edits steps a b /\ forall other, edits other a b -> changes steps <= changes other
  | Ok None => forall steps, edits steps a b -> MAX_DIFF_CHANGES < changes steps
  | Err _ => False
  end.
Proof.
  destruct (shortest_script_answers a b) as (result & -> & Ha). destruct result as [steps|]; simpl in Ha.
  - destruct Ha as [He Hmin]. split; [done|]. intros other Ho. by apply Hmin, edits_reach.
  - by apply no_script.
Qed.

(** The script keeps as many equal lines as a longest common subsequence of the two texts has. *)
Lemma shortest_script_lcs {Line : Type} `{EqDecision Line} (a b : list Line) steps :
  shortest_script a b = Ok (Some steps) -> count Equal steps = lcs a b.
Proof.
  destruct (shortest_script_answers a b) as (result & -> & Ha). intros [= ->]. destruct Ha as [He Hmin].
  destruct (lcs_reached a b) as (best & Hb & Hc). pose proof (lcs_upper steps a b He) as Hup.
  pose proof (Hmin _ (edits_reach a b best Hb)) as Hle.
  pose proof (edits_lengths _ _ _ He). pose proof (edits_lengths _ _ _ Hb). lia.
Qed.

(** C38: [unified] never fails, for a context that does not overflow with the length of the texts. It is empty exactly for
    equal texts. Otherwise its text after the two file names, read as the format of [diff -u] is ([read_hunks], with the
    printed ranges), is a list of hunks that [patch] makes the new lines of the old ones with, checking every range and
    every line that a hunk expects. There is none only when every script changes more than [MAX_DIFF_CHANGES] lines. *)
Theorem unified_patches path old new context :
  (N.of_nat (length old + length new + 1) + 2 * uval context < 2 ^ 64)%N ->
  match unified path old new context with
  | Ok (Some []) => old = new
  | Ok (Some text) => old <> new /\ exists body hs,
      text = txt "--- a/" ++ path ++ [newline] ++ txt "+++ b/" ++ path ++ [newline] ++ body /\
      read_hunks body = Some hs /\ patch (split_lines old) 0 0 hs = Some (split_lines new)
  | Ok None => forall steps, edits steps (split_lines old) (split_lines new) -> MAX_DIFF_CHANGES < changes steps
  | Err _ => False
  end.
Proof.
  intros Hsmall. pose proof (split_lines_length old) as Hlo. pose proof (split_lines_length new) as Hln.
  unfold unified. destruct (decide (old = new)) as [|Hne]; [done|].
  destruct (shortest_script_answers (split_lines old) (split_lines new)) as (result & -> & Ha).
  destruct result as [steps|]; [|by apply no_script]. destruct Ha as [He _]. pose proof (edits_length _ _ _ He).
  destruct (hunks_patch _ _ steps He (N.to_nat (uval context)) ltac:(lia) (length (change_indices steps)) 0 0) as (hs & -> & Hpatch & Hok);
    [lia|lia| |lia|].
  { intros k Hk Hstep. assert (k ∈ change_indices steps) as [i Hi]%list_elem_of_lookup_1 by (apply elem_of_changed; split; [lia|done]).
    exists i. split; [lia|done]. }
  cbn in Hpatch. destruct (unified_header path ++ concat (hunk_text <$> hs)) eqn:Etext; [done|]. split; [done|].
  exists (concat (hunk_text <$> hs)), hs. split_and!; [by rewrite <- Etext; unfold unified_header; rewrite <- !app_assoc| |done].
  apply read_hunks_text. eapply list.Forall_impl; [exact Hok|]. intros h (Ho & Hn & Hl). split; [split; unfold range_small; lia|].
  eapply list.Forall_impl; [exact Hl|]. intros ? [Hin|Hin]; by eapply split_lines_ok.
Qed.

(** Two hunks, a line without a line break, and an added file, as [diff -u] writes them. *)
Example unified_texts :
  let lines (words : list string) := concat ((fun word => txt word ++ [newline]) <$> words) in
  let three : usize := uint_wrap 64 3 in
  let head := ["--- a/M.tz"; "+++ b/M.tz"]%string in
  let old := ["a"; "b"; "c"; "d"; "e"; "f"; "g"; "h"; "i"; "j"]%string in
  unified (txt "M.tz") (lines old) (lines (["A"%string] ++ take 8 (tail old) ++ ["J"%string])) three =
    Ok (Some (lines (head ++ ["@@ -1,4 +1,4 @@"; "-a"; "+A"; " b"; " c"; " d"; "@@ -7,4 +7,4 @@"; " g"; " h"; " i"; "-j"; "+J"]%string))) /\
  unified (txt "M.tz") (lines ["x"%string] ++ txt "y") (lines ["x"%string] ++ txt "z") three =
    Ok (Some (lines (head ++ ["@@ -1,2 +1,2 @@"; " x"; "-y"; "\ No newline at end of file"; "+z";
      "\ No newline at end of file"]%string))) /\
  unified (txt "M.tz") [] (lines ["a"%string]) three = Ok (Some (lines (head ++ ["@@ -0,0 +1 @@"; "+a"]%string))).
Proof. vm_compute. auto. Qed.

(** The change of one line of three. *)
Definition three_lines (words : list string) : Text := concat ((fun word => txt word ++ [newline]) <$> words).
Definition old_lines : Text := three_lines ["a"; "b"; "c"]%string.
Definition new_lines : Text := three_lines ["a"; "x"; "c"]%string.

Lemma unified_patches_witness : exists body hs,
  unified (txt "M") old_lines new_lines (uint_wrap 64 3) =
    Ok (Some (txt "--- a/" ++ txt "M" ++ [newline] ++ txt "+++ b/" ++ txt "M" ++ [newline] ++ body)) /\
  read_hunks body = Some hs /\ patch (split_lines old_lines) 0 0 hs = Some (split_lines new_lines).
Proof.
  pose proof (unified_patches (txt "M") old_lines new_lines (uint_wrap 64 3) eq_refl) as H.
  assert (exists text, unified (txt "M") old_lines new_lines (uint_wrap 64 3) = Ok (Some text) /\ text <> []) as (text & E & Hne).
  { eexists. split; [vm_compute; reflexivity|discriminate]. }
  rewrite E in H. destruct text as [|b text]; [done|]. destruct H as (_ & body & hs & Etext & Hr & Hp).
  exists body, hs. rewrite E, Etext. split; [reflexivity|]. split; [exact Hr|exact Hp].
Defined.

(** The lines of a text make up the text again; each but the last ends with its only line break,
    and the last, when the text does not end with a line break, is not empty and has none. *)
Lemma split_lines_exact text :
  concat (split_lines text) = text /\
  exists lines rest, split_lines text = lines ++ rest /\ Forall is_line lines /\ is_rest rest.
Proof. apply (split_inclusive_spec text []). by intros ?%elem_of_nil. Qed.

(** [line_edits] never fails. The edits are in order, do not overlap, and turn the old text into the
    new one; there are none only when every script of the lines changes more than [MAX_DIFF_CHANGES] lines. *)
Lemma line_edits_apply old new :
  match line_edits old new with
  | Ok (Some edits) => apply_edits old edits = new /\ ordered 0 edits (length old)
  | Ok None => forall steps, edits steps (split_lines old) (split_lines new) -> MAX_DIFF_CHANGES < changes steps
  | Err _ => False
  end.
Proof.
  unfold line_edits. set (a := split_lines old). set (b := split_lines new).
  destruct (shortest_script_answers a b) as (result & E & Ha). rewrite E. destruct result as [steps|].
  - destruct Ha as [He _].
    destruct (edit_steps_ok a b steps a b He (mk_Progress [] 0 0 0 None)) as (p & -> & Ei & Ej & Hp);
      [apply progress_start|done|done|simpl; lia|simpl; lia|].
    pose proof (concat_split_lines old) as Eold. pose proof (concat_split_lines new) as Enew. fold a in Eold. fold b in Enew.
    destruct Hp as [Hoff _ Hord Hat Htext]. rewrite Ei in Hoff. unfold offset_of in Hoff. rewrite firstn_all, Eold in Hoff.
    rewrite Hoff in *. split; [|done]. unfold apply_edits. rewrite Eold, Ej, firstn_all, Enew in Htext.
    rewrite <- Htext. f_equal. unfold between. rewrite take_ge; [done|]. rewrite length_drop. lia.
  - by apply no_script.
Qed.
