(* ===== verification/JsonLaws.v ===== *)
(** * Reading JSON undoes printing it

    The reader of [Json] gives back every valid value from its printed text; the numbers of the program are numbers. *)
From Stdlib Require Import Ascii.
From stdpp Require Import list strings.
From S2P Require Import Prelude Wire Utf8 Json.
Local Open Scope nat_scope.

(** ** Strings *)

Definition plain (b : u8) : Prop := (0x20 <= uval b)%N /\ uval b <> 34%N /\ uval b <> 92%N.

#[export] Instance plain_dec b : Decision (plain b).
Proof. unfold plain. apply _. Defined.

Lemma read_plain bs rest : Forall plain bs -> read_string (bs ++ rest) = push bs (read_string rest).
Proof.
  intros Hp. induction Hp as [|b bs (H1 & H2 & H3) _ IH]; [cbn; by destruct (read_string rest) as [[]|]|].
  cbn [app read_string]. rewrite (proj2 (N.eqb_neq _ _) H2), (proj2 (N.eqb_neq _ _) H3), (proj2 (N.leb_gt (uval b) 0x1F)), IH by lia.
  by destruct (read_string rest) as [[]|].
Qed.

Lemma encode_plain c : is_scalar c = true -> (0x20 <= c)%N -> c <> 34%N -> c <> 92%N -> Forall plain (encode_utf8 c).
Proof.
  intros Hc H1 H2 H3. destruct (N.ltb_spec c 0x80) as [Hlt|Hge].
  - unfold encode_utf8. rewrite (proj2 (N.ltb_lt c 0x80) Hlt). repeat constructor; rewrite byte_of_value by lia; lia.
  - assert (forall b, b ∈ encode_utf8 c -> (0x80 <= uval b)%N) as Hb.
    { intros b [i Hi]%list_elem_of_lookup. pose proof (encode_seq c Hc) as Hs. destruct (decide (i = 0)) as [->|Hne].
      - destruct (N.leb_spec 0x80 (uval b)) as [|Hlt]; [done|]. exfalso.
        pose proof (seq_first _ _ Hs []) as Hf. rewrite app_nil_r in Hf. destruct (encode_utf8 c) as [|b' r] eqn:E; [done|].
        injection Hi as ->. cbn [first_char] in Hf. rewrite (proj2 (N.leb_le _ _)) in Hf by lia. injection Hf as Hf _. lia.
      - pose proof (seq_inside _ _ Hs i b ltac:(lia) Hi) as Hin. unfold is_boundary_byte, cont_in in Hin.
        apply negb_false_iff, andb_prop in Hin as [Hin _]. by apply N.leb_le. }
    apply list.Forall_forall. intros b Hin%Hb. repeat split; lia.
Qed.

Lemma escape_read bs e c rest : bs = [byte_of 92; e] -> escaped e = Some c ->
  read_string (bs ++ rest) = push [byte_of c] (read_string rest).
Proof. intros -> He. cbn [app read_string]. by rewrite byte_of_value, He by lia. Qed.

(** The checks on the escape of one control character. *)
Definition control_ok (c : N) : bool :=
  match hex4 c with
  | [h1; h2; h3; h4] => bool_decide (unit_of h1 h2 h3 h4 = Some c)
  | _ => false
  end.

Lemma control_all : forallb control_ok (N.of_nat <$> seq 0 32) = true.
Proof. by vm_compute. Qed.

Lemma control_read c rest : (c <= 0x1F)%N -> read_string ((txt "\u" ++ hex4 c) ++ rest) = push (encode_utf8 c) (read_string rest).
Proof.
  intros Hc. pose proof control_all as Hall. rewrite forallb_forall in Hall.
  assert (control_ok c = true) as Hok.
  { apply Hall. apply in_map_iff. exists (N.to_nat c). split; [by rewrite N2Nat.id|]. apply in_seq. lia. }
  unfold control_ok in Hok. destruct (hex4 c) as [|h1 [|h2 [|h3 [|h4 [|]]]]]; try done.
  apply bool_decide_eq_true_1 in Hok. change (txt "\u") with [byte_of 92; byte_of 117]. cbn [app read_string].
  rewrite byte_of_value by lia. change (escaped (byte_of 117)) with (@None N). change (is_char (byte_of 117) "u") with true.
  cbn. rewrite Hok. unfold in_range. rewrite !(proj2 (N.leb_gt _ c)) by lia. done.
Qed.

Lemma read_char c rest : is_scalar c = true -> read_string (json_char c ++ rest) = push (encode_utf8 c) (read_string rest).
Proof.
  intros Hc. unfold json_char.
  destruct (N.eqb_spec c 34) as [->|H34]; [by apply (escape_read _ (byte_of 34))|].
  destruct (N.eqb_spec c 92) as [->|H92]; [by apply (escape_read _ (byte_of 92))|].
  destruct (N.eqb_spec c NEWLINE) as [->|_]; [by apply (escape_read _ (byte_of (ch "n")))|].
  destruct (N.eqb_spec c RETURN) as [->|_]; [by apply (escape_read _ (byte_of (ch "r")))|].
  destruct (N.eqb_spec c 9) as [->|_]; [by apply (escape_read _ (byte_of (ch "t")))|].
  destruct (N.leb_spec c 0x1F) as [Hle|Hgt]; [by apply control_read|].
  apply read_plain, encode_plain; [done|lia|done|done].
Qed.

Lemma push_push xs ys o : push xs (push ys o) = push (xs ++ ys) o.
Proof. destruct o as [[]|]; cbn; [by rewrite app_assoc|done]. Qed.

Lemma read_chars cs rest : Forall (fun c => is_scalar c = true) cs ->
  read_string (concat (json_char <$> cs) ++ DQ ++ rest) = Some (from_characters cs, rest).
Proof.
  intros Hs. induction Hs as [|c cs Hc _ IH]; [done|].
  change (concat (json_char <$> c :: cs)) with (json_char c ++ concat (json_char <$> cs)).
  by rewrite <- app_assoc, read_char, IH.
Qed.

(** A string that [json_string] writes reads back as the text it was given. *)
Lemma json_string_read text rest : valid text -> exists r, json_string text ++ rest = byte_of 34 :: r /\ read_string r = Some (text, rest).
Proof.
  intros Hv. exists (concat (json_char <$> characters text) ++ DQ ++ rest). split.
  - unfold json_string. by rewrite <- !app_assoc.
  - rewrite read_chars by by apply characters_scalar. by rewrite from_characters_of.
Qed.

(** ** Numbers *)

Lemma take_while_app (f : u8 -> bool) xs rest : Forall (fun b => f b = true) xs ->
  match rest with b :: _ => f b = false | [] => True end -> take_while f (xs ++ rest) = (xs, rest).
Proof.
  intros Hx Hr. induction Hx as [|b xs Hb _ IH]; cbn.
  - destruct rest as [|b r]; [done|]. cbn. by rewrite Hr.
  - by rewrite Hb, IH.
Qed.

Lemma take_while_split (f : u8 -> bool) bs t rest : take_while f bs = (t, rest) -> bs = t ++ rest /\ Forall (fun b => f b = true) t.
Proof.
  revert t rest. induction bs as [|b bs IH]; intros t rest; cbn; [by intros [= <- <-]|].
  destruct (f b) eqn:E; [|by intros [= <- <-]]. destruct (take_while f bs) as [t' r'].
  intros [= <- <-]. destruct (IH t' r' eq_refl) as [-> Hf]. split; [done|by constructor].
Qed.

Definition number_bytes (bs : list u8) : Prop := Forall (fun b => is_number_byte b = true) bs.

Lemma digits_number bs : Forall (fun b => is_ascii_digit b = true) bs -> number_bytes bs.
Proof. intros Hd. apply (list.Forall_impl _ _ _ Hd). intros b Hb. unfold is_number_byte. by rewrite (Hb : is_ascii_digit b = true). Qed.

Lemma all_digits_Forall bs : all_digits bs = true -> bs <> [] /\ Forall (fun b => is_ascii_digit b = true) bs.
Proof.
  unfold all_digits. intros [Hne Hd]%andb_prop. split; [intros ->; done|].
  apply list.Forall_forall. intros b Hb. rewrite forallb_forall in Hd. apply Hd. by apply list_elem_of_In.
Qed.

Lemma number_byte_of b c : is_char b c = true -> is_number_byte (byte_of (ch c)) = true -> is_number_byte b = true.
Proof. unfold is_char. intros Hb%N.eqb_eq. by rewrite (byte_of_eq (ch c) b) by done. Qed.

Lemma exponent_number bs : is_exponent bs = true -> number_bytes bs.
Proof.
  destruct bs as [|e r]; [by intros _; constructor|]. cbn [is_exponent]. intros [He Hr]%andb_prop. constructor.
  - apply orb_prop in He as [He|He]; by apply (number_byte_of _ _ He).
  - destruct r as [|s t]; [done|]. destruct (is_char s "-" || is_char s "+") eqn:Es.
    + constructor; [|by apply digits_number, all_digits_Forall]. apply orb_prop in Es as [Es|Es]; by apply (number_byte_of _ _ Es).
    + by apply digits_number, all_digits_Forall.
Qed.

Lemma fraction_number bs : is_fraction bs = true -> number_bytes bs.
Proof.
  destruct bs as [|p r]; [by intros _; constructor|]. cbn [is_fraction]. destruct (is_char p ".") eqn:E; [|apply exponent_number].
  destruct (take_while is_ascii_digit r) as [digits rest] eqn:Et. intros [Hd He]%andb_prop.
  apply take_while_split in Et as [-> Hf]. constructor; [by apply (number_byte_of _ _ E)|].
  apply Forall_app. split; [by apply digits_number|by apply exponent_number].
Qed.

Lemma is_number_start bs : is_number bs = true ->
  number_bytes bs /\ exists b r, bs = b :: r /\ (is_ascii_digit b = true \/ is_char b "-" = true).
Proof.
  unfold is_number. set (unsigned := match bs with [] => bs | b :: r => if is_char b "-" then r else bs end).
  destruct (take_while is_ascii_digit unsigned) as [int rest] eqn:Et. intros [[Hd _]%andb_prop Hf]%andb_prop.
  apply take_while_split in Et as [Eu Hint]. apply all_digits_Forall in Hd as [Hne _].
  assert (number_bytes unsigned) as Hn.
  { rewrite Eu. apply Forall_app. split; [by apply digits_number|by apply fraction_number]. }
  assert (exists b r, unsigned = b :: r /\ is_ascii_digit b = true) as (b & r & Eb & Hb).
  { destruct int as [|b int]; [done|]. exists b, (int ++ rest). split; [done|]. by apply Forall_inv in Hint. }
  subst unsigned. destruct bs as [|c s]; [done|]. destruct (is_char c "-") eqn:Ec.
  - split; [|exists c, s; by auto]. constructor; [by apply (number_byte_of _ _ Ec)|done].
  - injection Eb as -> ->. split; [done|]. exists b, r. auto.
Qed.

(** The decimal text of a number. *)
Lemma dec_number n : (n < 10 ^ 20)%N -> is_number (dec n) = true.
Proof.
  intros Hn. pose proof (dec_digits n) as Hd. pose proof (dec_nonempty n) as Hne.
  unfold is_number. set (unsigned := match dec n with [] => dec n | b :: r => if is_char b "-" then r else dec n end).
  assert (unsigned = dec n) as ->.
  { subst unsigned. destruct (dec n) as [|b r] eqn:E; [done|]. apply Forall_inv in Hd. destruct (is_char b "-") eqn:Eb; [|done].
    unfold is_char in Eb. apply N.eqb_eq in Eb. unfold is_ascii_digit in Hd. by rewrite Eb in Hd. }
  pose proof (take_while_app is_ascii_digit (dec n) [] Hd I) as Ht. rewrite app_nil_r in Ht. rewrite Ht. cbn [is_fraction].
  rewrite andb_true_r. apply andb_true_intro. split.
  - unfold all_digits. rewrite bool_decide_eq_false_2 by done. apply forallb_forall. intros b Hb%list_elem_of_In.
    by apply (proj1 (list.Forall_forall _ _) Hd).
  - destruct (decide (n = 0%N)) as [->|Hz]; [done|].
    destruct (digits_of_head 10 (fun d => byte_of (d + ch "0")) ltac:(lia) 20 n [] Hn ltac:(lia)) as (d & r & E & Hb).
    unfold dec, decimal. rewrite E. destruct r; [done|]. unfold is_char. change (ch "0") with 48%N. rewrite byte_of_value by lia.
    by rewrite (proj2 (N.eqb_neq (d + 48) 48)) by lia.
Qed.

(** ** Values *)

Section json_induction.
Context (P : Json -> Prop) (HNull : P Json_Null) (HBool : forall b, P (Json_Bool b)) (HNumber : forall t, P (Json_Number t))
  (HString : forall t, P (Json_String t)) (HArray : forall items, Forall P items -> P (Json_Array items))
  (HObject : forall members, Forall (fun m => P (snd m)) members -> P (Json_Object members)).

Fixpoint json_induction (v : Json) : P v :=
  match v with
  | Json_Null => HNull
  | Json_Bool b => HBool b
  | Json_Number t => HNumber t
  | Json_String t => HString t
  | Json_Array items => HArray items (list_ind (Forall P) (Forall_nil_2 P) (fun v l H => Forall_cons_2 P v l (json_induction v) H) items)
  | Json_Object members => HObject members (list_ind (Forall (fun m => P (snd m))) (Forall_nil_2 _)
      (fun m l H => Forall_cons_2 _ m l (json_induction (snd m)) H) members)
  end.
End json_induction.

Definition stops (rest : list u8) : Prop := match rest with b :: _ => is_number_byte b = false | [] => True end.

(** The first byte of a value is no white space and closes nothing. *)
Definition opens (b : u8) : bool := negb (is_json_white b || is_char b "]" || is_char b "}").

Lemma number_opens b : is_ascii_digit b = true \/ is_char b "-" = true ->
  opens b = true /\ (uval b =? 34)%N = false /\ is_char b "[" = false /\ is_char b "{" = false /\ is_char b "n" = false /\
  is_char b "t" = false /\ is_char b "f" = false.
Proof.
  intros Hb. assert (48 <= uval b <= 57 \/ uval b = 45)%N as Hr.
  { destruct Hb as [Hb|Hb].
    - unfold is_ascii_digit, in_range in Hb. apply andb_prop in Hb as [H1%N.leb_le H2%N.leb_le].
      change (ch "0") with 48%N in H1. change (ch "9") with 57%N in H2. lia.
    - unfold is_char in Hb. apply N.eqb_eq in Hb. change (ch "-") with 45%N in Hb. lia. }
  unfold opens, is_json_white, is_char, NEWLINE, RETURN.
  change (ch "]") with 93%N. change (ch "}") with 125%N. change (ch "[") with 91%N. change (ch "{") with 123%N.
  change (ch "n") with 110%N. change (ch "t") with 116%N. change (ch "f") with 102%N.
  repeat rewrite (proj2 (N.eqb_neq (uval b) _)) by lia. done.
Qed.

Lemma json_text_opens v : json_valid v -> exists b r, json_text v = b :: r /\ opens b = true.
Proof.
  destruct v as [|[]|t|t|items|members]; cbn [json_valid json_text]; intros Hv; try by do 2 eexists.
  destruct (is_number_start t Hv) as (_ & b & r & -> & Hb). exists b, r. split; [done|by apply number_opens].
Qed.

Lemma opens_skip b r : opens b = true -> skip_white (b :: r) = b :: r.
Proof. unfold opens. intros Hb. cbn. by destruct (is_json_white b). Qed.

Lemma opens_open b : opens b = true -> is_char b "]" = false /\ is_char b "}" = false.
Proof. unfold opens. destruct (is_json_white b), (is_char b "]"), (is_char b "}"); done. Qed.

Definition reads (v : Json) : Prop := forall fuel rest, 2 * length (json_text v) <= fuel -> stops rest ->
  read_value fuel (json_text v ++ rest) = Some (v, rest).

Lemma keyword_starts word rest b r : word = b :: r -> starts_with word (b :: r ++ rest) = true.
Proof. intros ->. unfold starts_with. change (b :: r ++ rest) with ((b :: r) ++ rest). by rewrite strip_prefix_app. Qed.

Lemma reads_null : reads Json_Null.
Proof. intros fuel rest Hf _. destruct fuel as [|fuel]; [by cbn in Hf; lia|]. reflexivity. Qed.

Lemma reads_bool b : reads (Json_Bool b).
Proof. intros fuel rest Hf _. destruct fuel as [|fuel]; [by destruct b; cbn in Hf; lia|]. by destruct b. Qed.

Lemma reads_string t : valid t -> reads (Json_String t).
Proof.
  intros Hv fuel rest Hf _. destruct (json_string_read t rest Hv) as (r & E & Hr).
  destruct fuel as [|fuel]; [cbn [json_text] in Hf; unfold json_string in Hf; cbn in Hf; lia|].
  cbn [json_text read_value]. rewrite E, opens_skip by done. change (uval (byte_of 34) =? 34)%N with true. cbn [app]. by rewrite Hr.
Qed.

Lemma json_reads_number t : is_number t = true -> reads (Json_Number t).
Proof.
  intros Hn fuel rest Hf Hs. destruct (is_number_start t Hn) as (Hb & b & r & -> & Ho).
  destruct (number_opens b Ho) as (Hop & H1 & H2 & H3 & H4 & H5 & H6).
  destruct fuel as [|fuel]; [cbn in Hf; lia|]. cbn [json_text read_value app]. rewrite opens_skip, H1, H2, H3 by done.
  unfold starts_with. change (txt "null") with (byte_of 110 :: txt "ull"). change (txt "true") with (byte_of 116 :: txt "rue").
  change (txt "false") with (byte_of 102 :: txt "alse"). cbn [strip_prefix]. rewrite !byte_of_value by lia.
  unfold is_char in H4, H5, H6. rewrite N.eqb_sym in H4, H5, H6.
  change (ch "n") with 110%N in H4. change (ch "t") with 116%N in H5. change (ch "f") with 102%N in H6. rewrite H4, H5, H6.
  change (b :: r ++ rest) with ((b :: r) ++ rest). rewrite (take_while_app is_number_byte) by done. by rewrite Hn.
Qed.

Lemma json_text_length v : json_valid v -> 1 <= length (json_text v).
Proof. intros Hv. destruct (json_text_opens v Hv) as (b & r & -> & _). cbn. lia. Qed.

Lemma read_items_join fuel items rest : items <> [] -> Forall json_valid items -> Forall reads items ->
  2 * length (join (txt ",") (json_text <$> items) ++ txt "]") <= fuel ->
  read_items fuel (join (txt ",") (json_text <$> items) ++ txt "]" ++ rest) = Some (items, rest).
Proof.
  revert fuel. induction items as [|v items IH]; intros fuel Hne Hv Hr Hf; [done|]. clear Hne.
  apply Forall_cons_iff in Hv as [Hv Hvs]. apply Forall_cons_iff in Hr as [Hr Hrs]. pose proof (json_text_length v Hv) as Hl.
  destruct items as [|w items].
  - cbn [fmap list_fmap join] in *. rewrite length_app in Hf. destruct fuel as [|fuel]; [lia|]. cbn [read_items].
    cbn in Hf. rewrite Hr by (done || lia). done.
  - change (join (txt ",") (json_text <$> v :: w :: items)) with
      (json_text v ++ txt "," ++ join (txt ",") (json_text <$> w :: items)) in *.
    rewrite <- !app_assoc in *. rewrite length_app in Hf. destruct fuel as [|fuel]; [lia|]. cbn [read_items].
    rewrite length_app in Hf. change (length (txt ",")) with 1 in Hf. rewrite Hr by (done || lia).
    change (skip_white (txt "," ++ ?r)) with (byte_of 44 :: r). cbn beta iota.
    change (is_char (byte_of 44) "]") with false. change (is_char (byte_of 44) ",") with true. cbn beta iota.
    by rewrite IH by (done || lia).
Qed.

Definition member_text (m : list u8 * Json) : list u8 := json_string (fst m) ++ txt ":" ++ json_text (snd m).

Lemma read_members_join fuel members rest : members <> [] ->
  Forall (fun m => valid (fst m) /\ json_valid (snd m)) members -> Forall (fun m => reads (snd m)) members ->
  2 * length (join (txt ",") (member_text <$> members) ++ txt "}") <= fuel ->
  read_members fuel (join (txt ",") (member_text <$> members) ++ txt "}" ++ rest) = Some (members, rest).
Proof.
  revert fuel. induction members as [|[k v] members IH]; intros fuel Hne Hv Hr Hf; [done|]. clear Hne.
  apply Forall_cons_iff in Hv as [[Hk Hv] Hvs]. apply Forall_cons_iff in Hr as [Hr Hrs]. cbn [fst snd] in *.
  pose proof (json_text_length v Hv) as Hl.
  assert (forall more, exists r, json_string k ++ txt ":" ++ json_text v ++ more = byte_of 34 :: r /\
    read_string r = Some (k, txt ":" ++ json_text v ++ more)) as Hs.
  { intros more. by apply json_string_read. }
  destruct members as [|w members].
  - cbn [fmap list_fmap join] in *. unfold member_text in *. cbn [fst snd] in *. rewrite <- !app_assoc in *.
    rewrite !length_app in Hf. cbn in Hf. destruct fuel as [|fuel]; [lia|]. cbn [read_members].
    destruct (Hs (txt "}" ++ rest)) as (r & E & Hrd). rewrite E, opens_skip by done. change (uval (byte_of 34) =? 34)%N with true.
    cbn beta iota. rewrite Hrd. 
    change (skip_white (txt ":" ++ ?r)) with (byte_of 58 :: r). change (is_char (byte_of 58) ":") with true. cbn beta iota.
    rewrite Hr by (done || lia). done.
  - change (join (txt ",") (member_text <$> (k, v) :: w :: members)) with
      (member_text (k, v) ++ txt "," ++ join (txt ",") (member_text <$> w :: members)) in *.
    unfold member_text at 1. unfold member_text at 1 in Hf. cbn [fst snd] in *. rewrite <- !app_assoc in *.
    rewrite !length_app in Hf. change (length (txt ":")) with 1 in Hf. change (length (txt ",")) with 1 in Hf.
    destruct fuel as [|fuel]; [lia|]. cbn [read_members].
    destruct (Hs (txt "," ++ join (txt ",") (member_text <$> w :: members) ++ txt "}" ++ rest)) as (r & E & Hrd).
    rewrite E, opens_skip by done. change (uval (byte_of 34) =? 34)%N with true. cbn beta iota. rewrite Hrd.
    change (skip_white (txt ":" ++ ?r)) with (byte_of 58 :: r). change (is_char (byte_of 58) ":") with true. cbn beta iota.
    rewrite (Hr fuel) by (done || lia).
    change (skip_white (txt "," ++ ?r)) with (byte_of 44 :: r). cbn beta iota.
    change (is_char (byte_of 44) "}") with false. change (is_char (byte_of 44) ",") with true. cbn beta iota.
    rewrite IH; [done|done|done|done|]. rewrite length_app. lia.
Qed.

(** Any valid value is read back from its text, whatever ends it. *)
Theorem json_reads v : json_valid v -> reads v.
Proof.
  induction v as [|b|t|t|items IH|members IH] using json_induction; cbn [json_valid]; intros Hv.
  - apply reads_null.
  - apply reads_bool.
  - by apply json_reads_number.
  - by apply reads_string.
  - assert (Forall json_valid items /\ Forall reads items) as [Hvs Hrs].
    { induction IH as [|v items Hv' _ IH']; [done|]. destruct Hv as [Hv Hvs]. destruct (IH' Hvs). auto. }
    intros fuel rest Hf _. cbn [json_text] in *. destruct fuel as [|fuel]; [cbn in Hf; lia|]. cbn [read_value].
    change (skip_white ((txt "[" ++ ?r) ++ rest)) with (byte_of 91 :: r ++ rest). cbn beta iota.
    change (uval (byte_of 91) =? 34)%N with false. change (is_char (byte_of 91) "[") with true. cbn beta iota.
    destruct items as [|v items]; [done|].
    apply Forall_cons_iff in Hvs as [Hv' Hvs']. destruct (json_text_opens v Hv') as (b & r & E & Ho).
    assert (exists r', join (txt ",") (json_text <$> v :: items) = b :: r') as [r' Er].
    { destruct items as [|w items]; [by exists r|]. change (join (txt ",") (json_text <$> v :: w :: items)) with
        (json_text v ++ txt "," ++ join (txt ",") (json_text <$> w :: items)). rewrite E. by eexists. }
    rewrite <- app_assoc.
    assert (skip_white (join (txt ",") (json_text <$> v :: items) ++ txt "]" ++ rest) = b :: r' ++ txt "]" ++ rest) as ->.
    { rewrite Er. by apply opens_skip. }
    destruct (opens_open b Ho) as [-> _]. rewrite read_items_join; [done|done|by constructor|done|].
    rewrite length_app in Hf. change (length (txt "[")) with 1 in Hf. lia.
  - assert (Forall (fun m => valid (fst m) /\ json_valid (snd m)) members /\ Forall (fun m => reads (snd m)) members) as [Hvs Hrs].
    { induction IH as [|[k v] members Hv' _ IH']; [done|]. cbn [fst snd] in *. destruct Hv as [[Hk Hv] Hvs].
      destruct (IH' Hvs). split; constructor; auto. }
    intros fuel rest Hf _. cbn [json_text] in *. fold member_text in *. destruct fuel as [|fuel]; [cbn in Hf; lia|]. cbn [read_value].
    change (skip_white ((txt "{" ++ ?r) ++ rest)) with (byte_of 123 :: r ++ rest). cbn beta iota.
    change (uval (byte_of 123) =? 34)%N with false. change (is_char (byte_of 123) "[") with false.
    change (is_char (byte_of 123) "{") with true. cbn beta iota.
    destruct members as [|m members]; [done|].
    assert (exists r', join (txt ",") (member_text <$> m :: members) = byte_of 34 :: r') as [r' Er].
    { destruct members; by eexists. }
    rewrite <- app_assoc.
    assert (skip_white (join (txt ",") (member_text <$> m :: members) ++ txt "}" ++ rest) = byte_of 34 :: r' ++ txt "}" ++ rest) as ->.
    { rewrite Er. by apply opens_skip. }
    change (is_char (byte_of 34) "}") with false. rewrite read_members_join; [done|done|done|done|].
    rewrite length_app in Hf. change (length (txt "{")) with 1 in Hf. lia.
Qed.

Theorem json_parse_text v : json_valid v -> json_parse (json_text v) = Some v.
Proof.
  intros Hv. unfold json_parse. pose proof (json_reads v Hv (2 * S (length (json_text v))) []) as H.
  rewrite app_nil_r in H. by rewrite H by (done || lia).
Qed.

(** White space may follow. *)
Lemma json_parse_white v white : json_valid v -> Forall (fun b => is_json_white b = true) white -> json_parse (json_text v ++ white) = Some v.
Proof.
  intros Hv Hw. unfold json_parse. rewrite (json_reads v Hv).
  - assert (skip_white white = []) as ->; [|done]. induction Hw as [|b white Hb _ IH]; [done|]. cbn. by rewrite Hb.
  - rewrite length_app. lia.
  - destruct Hw as [|b white Hb _]; [done|]. cbn. unfold is_json_white in Hb.
    repeat (apply orb_prop in Hb as [Hb|Hb]); apply N.eqb_eq in Hb; rewrite <- (byte_of_eq _ b (eq_sym Hb)); done.
Qed.

(** ** Writing objects *)

Definition opt_member {A} (name : string) (value : A -> Json) (o : option A) : list (list u8 * Json) :=
  match o with Some a => [(txt name, value a)] | None => [] end.

Definition text_value (s : RString) : Json := Json_String (as_bytes s).
Definition number_value {w} (n : uint w) : Json := Json_Number (dec (uval n)).

(** A key is a string of the object, when nothing in it is escaped. *)
Lemma json_string_plain bs : Forall plain bs -> ascii bs -> json_string bs = DQ ++ bs ++ DQ.
Proof.
  intros Hp Ha. unfold json_string. do 2 f_equal. assert (valid bs /\ concat (json_char <$> characters bs) = bs) as [_ E]; [|done].
  induction Hp as [|b bs (H1 & H2 & H3) _ IH]; [done|]. apply Forall_cons_iff in Ha as [Hb Ha]. destruct (IH Ha) as [Hv E].
  pose proof (ascii_seq b Hb) as Hs. split; [by apply (valid_app [b]); [apply (valid_seq _ _ Hs)|]|].
  change (b :: bs) with ([b] ++ bs). rewrite (characters_seq [b] (uval b) bs Hs Hv). rewrite fmap_cons. cbn [concat]. rewrite E. f_equal.
  unfold json_char, NEWLINE, RETURN. rewrite !(proj2 (N.eqb_neq _ _)) by lia. rewrite (proj2 (N.leb_gt (uval b) 0x1F)) by lia.
  by apply (seq_encode _ _ Hs).
Qed.

(** The members of an object, each followed by a comma except the last. *)
Lemma join_snoc_members s l x : join s (l ++ [x]) = concat ((fun y => y ++ s) <$> l) ++ x.
Proof.
  induction l as [|y l IH]; [done|]. cbn [app fmap list_fmap concat]. destruct (l ++ [x]) as [|z m] eqn:E; [by destruct l|].
  change (join s (y :: z :: m)) with (y ++ s ++ join s (z :: m)). rewrite IH. by rewrite <- !app_assoc.
Qed.

(** A literal that is a string of JSON as it is. *)
Definition literal (name : string) : Prop := json_string (txt name) = DQ ++ txt name ++ DQ.

Lemma member_key name v : literal name -> member_text (txt name, v) = key name ++ json_text v.
Proof. unfold literal, member_text, key. cbn [fst snd]. intros ->. by rewrite <- !app_assoc. Qed.

(** The text of members, each followed by a comma. *)
Definition commas (members : list (list u8 * Json)) : list u8 := concat ((fun m => member_text m ++ txt ",") <$> members).

Lemma commas_app ms ms' : commas (ms ++ ms') = commas ms ++ commas ms'.
Proof. unfold commas. by rewrite fmap_app, concat_app. Qed.

Lemma commas_opt {A} name (value : A -> Json) o : literal name ->
  commas (opt_member name value o) = match o with Some a => key name ++ json_text (value a) ++ txt "," | None => [] end.
Proof. intros Hn. destruct o as [a|]; [|done]. unfold commas. cbn [opt_member fmap list_fmap concat]. by rewrite app_nil_r, member_key, <- app_assoc. Qed.

Lemma object_snoc members m : json_text (Json_Object (members ++ [m])) = txt "{" ++ commas members ++ member_text m ++ txt "}".
Proof.
  cbn [json_text]. fold member_text. rewrite fmap_app. change (member_text <$> [m]) with [member_text m].
  rewrite join_snoc_members. unfold commas. rewrite <- list_fmap_compose. by rewrite <- app_assoc.
Qed.

(** The text of members, each after a comma. *)
Definition more_members (members : list (list u8 * Json)) : list u8 := concat ((fun m => txt "," ++ member_text m) <$> members).

Lemma more_app ms ms' : more_members (ms ++ ms') = more_members ms ++ more_members ms'.
Proof. unfold more_members. by rewrite fmap_app, concat_app. Qed.

Lemma more_opt {A} name (value : A -> Json) o : literal name ->
  more_members (opt_member name value o) = match o with Some a => txt "," ++ key name ++ json_text (value a) | None => [] end.
Proof. intros Hn. destruct o as [a|]; [|done]. unfold more_members. cbn [opt_member fmap list_fmap concat]. by rewrite app_nil_r, member_key. Qed.

Lemma join_cons s p ps : join s (p :: ps) = p ++ concat ((fun q => s ++ q) <$> ps).
Proof.
  revert p. induction ps as [|q ps IH]; intros p; [by rewrite app_nil_r|].
  change (join s (p :: q :: ps)) with (p ++ s ++ join s (q :: ps)). rewrite IH. cbn. by rewrite <- !app_assoc.
Qed.

Lemma object_cons m members : json_text (Json_Object (m :: members)) = txt "{" ++ member_text m ++ more_members members ++ txt "}".
Proof.
  cbn [json_text]. fold member_text. rewrite fmap_cons, join_cons. unfold more_members. rewrite <- list_fmap_compose.
  by rewrite <- app_assoc.
Qed.

Lemma json_valid_object members : json_valid (Json_Object members) <-> Forall (fun m => valid (fst m) /\ json_valid (snd m)) members.
Proof.
  cbn [json_valid]. induction members as [|m members IH]; [done|]. cbn [fold_right]. rewrite IH, Forall_cons_iff. tauto.
Qed.

Lemma json_valid_array items : json_valid (Json_Array items) <-> Forall json_valid items.
Proof. cbn [json_valid]. induction items as [|v items IH]; [done|]. cbn [fold_right]. rewrite IH, Forall_cons_iff. tauto. Qed.

Lemma number_valid {w} (n : uint w) : (w <= 64)%N -> json_valid (number_value n).
Proof.
  intros Hw. apply dec_number. pose proof (uval_bound n). assert (2 ^ w <= 2 ^ 64)%N by (apply N.pow_le_mono_r; lia). lia.
Qed.

Lemma text_valid s : json_valid (text_value s).
Proof. apply as_bytes_valid. Qed.

Lemma opt_valid {A} name (value : A -> Json) o : valid (txt name) -> (forall a, json_valid (value a)) ->
  Forall (fun m => valid (fst m) /\ json_valid (snd m)) (opt_member name value o).
Proof. intros Hn Hv. destruct o as [a|]; [|done]. constructor; [split; [done|apply Hv]|done]. Qed.
