(* ===== verification/Render.v ===== *)
(** * Positions, quotes and edits

    The functions at the end of [src/src/diagnostic.rs]: the line and column of an offset, the JSON of a span, the
    quoted line with its caret, and the text with edits applied. Offsets are [usize]; a position in a text is a [nat]. *)
From Stdlib Require Import Ascii.
From stdpp Require Import list strings.
From S2P Require Import Prelude Wire Utf8 Syntax Text Json Ordered.
Local Open Scope nat_scope.

(** A literal of the source as a [String]. *)
Definition str (s : string) : RString := default (mk_RString [] eq_refl) (from_utf8 (txt s)).

(** Strings are ordered by their bytes. *)
#[export] Instance as_bytes_inj : Inj (=) (=) as_bytes := RString_eq.
#[export] Instance RString_ordered : Ordered RString := fun s t => compare (as_bytes s) (as_bytes t).
#[export] Instance RString_ordered_laws : OrderedLaws RString.
Proof. exact (ordered_by as_bytes). Qed.

(** ** Positions *)

(** The loop of [location]: back to a character boundary. Offset 0 is one in any text. *)
Fixpoint floor_boundary (source : list u8) (offset : nat) : nat :=
  match offset with
  | O => O
  | S previous => if is_char_boundary source offset then offset else floor_boundary source previous
  end.

Definition count_newlines (prefix : list u8) : nat := length (filter (fun b => uval b = NEWLINE) prefix).

Definition location (source : RString) (offset : usize) : nat * nat :=
  let offset := N.to_nat (N.min (uval offset) (N.of_nat (length (as_bytes source)))) in
  let offset := floor_boundary (as_bytes source) offset in
  let prefix := take offset (as_bytes source) in
  let line := count_newlines prefix + 1 in
  let column := length (characters (default [] (list.last (split_on LF prefix)))) + 1 in
  (line, column).

Definition span_json (source : RString) (span : Span) : list u8 :=
  let '(line, column) := location source (Span_start span) in
  let '(end_line, end_column) := location source (Span_end span) in
  txt "{" ++ key "start" ++ dec (uval (Span_start span)) ++ txt "," ++ key "end" ++ dec (uval (Span_end span)) ++
  txt "," ++ key "line" ++ number line ++ txt "," ++ key "column" ++ number column ++
  txt "," ++ key "end_line" ++ number end_line ++ txt "," ++ key "end_column" ++ number end_column ++ txt "}".

(** ** Quotes *)

Definition EOL : list u8 := [byte_of NEWLINE].

(** [write_quote]: the output with the quote, or [None] for a panic. *)
Definition write_quote (output : list u8) (source : RString) (line column : nat) : option (list u8) :=
  index ← checked_sub line 1;
  let text := default [] (lines (as_bytes source) !! index) in
  if bool_decide (text = []) then Some output
  else
    let start := column - 41 in
    let snippet := from_characters (take 120 (drop start (characters text))) in
    width ← checked_sub column 1;
    width ← checked_sub width start;
    let indent := replicate width (byte_of 32) in
    Some (output ++ EOL ++ txt "  " ++ number line ++ txt " | " ++ snippet ++ EOL ++ txt "    | " ++ indent ++ txt "^").

(** ** Edits *)

Record Edit := mk_Edit {
  Edit_span : Span;
  Edit_text : RString }.

Definition edit_key (edit : Edit) : N * N := (uval (Span_start (Edit_span edit)), uval (Span_end (Edit_span edit))).

Section sort.
Context {A K : Type} `{Ordered K} (sort_key : A -> K).

(** [sort_by_key]: stable. *)
Fixpoint sort_insert (x : A) (l : list A) : list A :=
  match l with
  | [] => [x]
  | y :: t => match compare (sort_key y) (sort_key x) with Lt => y :: sort_insert x t | _ => x :: l end
  end.

Definition sort_by_key (l : list A) : list A := foldr sort_insert [] l.
End sort.

(** One edit of the loop of [apply_edits], with the output and the cursor. *)
Definition apply_edit (text : list u8) (state : list u8 * nat) (edit : Edit) : option (list u8 * nat) :=
  let '(output, cursor) := state in
  let start := uval (Span_start (Edit_span edit)) in
  let end_ := uval (Span_end (Edit_span edit)) in
  if (start <? N.of_nat cursor)%N || (end_ <? start)%N || (N.of_nat (length text) <? end_)%N then None
  else if negb (is_char_boundary text (N.to_nat start)) || negb (is_char_boundary text (N.to_nat end_)) then None
  else
    Some (output ++ Utf8.between text cursor (N.to_nat start) ++ as_bytes (Edit_text edit), N.to_nat end_).

Definition apply_edits (text : RString) (edits : list Edit) : option (list u8) :=
  let sorted := sort_by_key edit_key edits in
  state ← foldl (fun state edit => state ← state; apply_edit (as_bytes text) state edit) (Some ([], 0)) sorted;
  let '(output, cursor) := state in
  Some (output ++ drop cursor (as_bytes text)).
