(* ===== verification/RenderLaws.v ===== *)
(** * Laws of positions, quotes and edits

    [location] on character boundaries, the line it counts, the order of positions; sorting by key; the loop of
    [apply_edits]. *)
From Stdlib Require Import Ascii Sorted.
From stdpp Require Import list strings.
From S2P Require Import Prelude Wire Utf8 Syntax Text Json Ordered Render.
Local Open Scope nat_scope.

(** ** Boundaries *)

Lemma is_boundary_at bs i : valid bs -> is_char_boundary bs i = true -> at_boundary bs i.
Proof.
  intros Hv. revert i. induction Hv as [|cs c r Hs Hr IH] using valid_ind; intros i Hb.
  - unfold is_char_boundary in Hb. cbn in Hb. destruct i; [|done]. by apply at_boundary_0.
  - pose proof (Utf8.seq_length _ _ Hs) as Hl. destruct (decide (length cs <= i)) as [Hle|Hlt].
    + replace i with (length cs + (i - length cs)) by lia. apply at_boundary_add.
      * split; [rewrite length_app; lia|]. by rewrite drop_app_length.
      * rewrite drop_app_length. apply IH. unfold is_char_boundary in *. rewrite lookup_app_r in Hb by lia.
        destruct (r !! (i - length cs)); [done|]. apply Nat.eqb_eq in Hb. rewrite length_app in Hb. apply Nat.eqb_eq. lia.
    + destruct i as [|i]; [apply at_boundary_0, valid_app; [by eapply valid_seq|done]|]. exfalso.
      destruct (lookup_lt_is_Some_2 cs (S i)) as [b Hl']; [lia|].
      unfold is_char_boundary in Hb. rewrite lookup_app_l, Hl' in Hb by lia.
      by rewrite (seq_inside _ _ Hs (S i) b ltac:(lia) Hl') in Hb.
Qed.

Lemma floor_boundary_at source offset : at_boundary source offset -> floor_boundary source offset = offset.
Proof. intros Hb%at_boundary_is. destruct offset; [done|]. cbn [floor_boundary]. by rewrite Hb. Qed.

(** [floor_boundary] is the last boundary at or before the offset. *)
Lemma floor_boundary_spec source offset : valid source ->
  at_boundary source (floor_boundary source offset) /\ floor_boundary source offset <= offset /\
  forall i, at_boundary source i -> i <= offset -> i <= floor_boundary source offset.
Proof.
  intros Hv. induction offset as [|offset (IH1 & IH2 & IH3)]; cbn [floor_boundary].
  - split_and!; [by apply at_boundary_0|lia|lia].
  - destruct (is_char_boundary source (S offset)) eqn:E.
    + split_and!; [by apply is_boundary_at|lia|lia].
    + split_and!; [done|lia|]. intros i Hi Hle. apply IH3; [done|]. destruct (decide (i = S offset)) as [->|]; [|lia].
      apply at_boundary_is in Hi. congruence.
Qed.

(** ** Lines of a prefix *)

Lemma seq_ascii cs d b : char_seq cs d -> b ∈ cs -> (uval b < 0x80)%N -> cs = [b].
Proof.
  intros Hs Hb Hlt. apply list_elem_of_lookup in Hb as [i Hi]. destruct (decide (i = 0)) as [->|Hne].
  - destruct cs as [|b' cs]; [done|]. injection Hi as ->. pose proof (seq_first _ _ Hs []) as Hf. cbn [app first_char] in Hf.
    rewrite (proj2 (N.leb_le _ _)) in Hf by lia. injection Hf as _ Hf. cbn in Hf. destruct cs; [done|]. cbn in Hf. lia.
  - pose proof (seq_inside _ _ Hs i b ltac:(lia) Hi) as Hin. unfold is_boundary_byte, cont_in in Hin.
    apply negb_false_iff, andb_prop in Hin as [Hin%N.leb_le _]. lia.
Qed.

Lemma split_on_length c xs : length (split_on c xs) = length (filter (fun b => uval b = ch c) xs) + 1.
Proof.
  induction xs as [|x xs IH]; [done|]. cbn [split_on]. rewrite filter_cons. unfold is_char.
  destruct (N.eqb_spec (uval x) (ch c)) as [E|E]; case_decide; try done; cbn; [by rewrite IH|].
  pose proof (split_on_nonempty c xs). by destruct (split_on c xs).
Qed.

Lemma split_on_valid c xs : valid xs -> (ch c < 0x80)%N -> Forall valid (split_on c xs).
Proof.
  intros Hv Hc. induction Hv as [|cs d r Hs Hr IH] using valid_ind; [by repeat constructor|].
  destruct (exists_last (split_on_nonempty c cs)) as (init & t & Ei).
  destruct (split_on c r) as [|h more] eqn:Er; [by apply split_on_nonempty in Er|].
  rewrite (split_on_app _ _ _ _ _ _ _ Ei Er). apply Forall_cons_iff in IH as [Hh Hm].
  destruct (decide (Exists (fun b => is_char b c = true) cs)) as [(b & Hb & Ec)%list.Exists_exists|Hno].
  - assert (cs = [b]) as -> by (apply (seq_ascii cs d); [done|done|]; unfold is_char in Ec; apply N.eqb_eq in Ec; lia).
    cbn in Ei. rewrite Ec in Ei. destruct init as [|p [|q init]]; [done| |by destruct init]. cbn in Ei. injection Ei as <- <-.
    constructor; [done|]. by constructor.
  - rewrite split_on_none in Ei by (intros b Hb; apply not_true_iff_false; intros Ec; apply Hno, list.Exists_exists; eauto).
    destruct init as [|p init]; [|by destruct init]. injection Ei as <-. cbn.
    constructor; [|done]. apply valid_app; [by eapply valid_seq|done].
Qed.

(** ** Positions *)

(** The text before a boundary: its whole lines, and the start of the line of the boundary. *)
Lemma location_at source offset i : N.to_nat (uval offset) = i -> at_boundary (as_bytes source) i ->
  exists init t, split_on LF (take i (as_bytes source)) = init ++ [t] /\ valid t /\
    location source offset = (length init + 1, length (characters t) + 1).
Proof.
  intros Ei Hb. unfold location. rewrite N2Nat.inj_min, Ei, Nat2N.id, Nat.min_l by apply Hb. rewrite floor_boundary_at by done.
  destruct (exists_last (split_on_nonempty LF (take i (as_bytes source)))) as (init & t & E). exists init, t.
  assert (Forall valid (split_on LF (take i (as_bytes source)))) as Hv.
  { apply split_on_valid; [|done]. apply valid_take; [apply as_bytes_valid|apply Hb]. }
  pose proof (split_on_length LF (take i (as_bytes source))) as Hl. rewrite E in *. rewrite last_snoc. cbn [default].
  apply Forall_app in Hv as [_ Hv]. apply Forall_inv in Hv. split_and!; [done|done|]. f_equal.
  unfold count_newlines. rewrite length_app in Hl. cbn in Hl. change (ch LF) with NEWLINE in Hl. change id with (fun x : list u8 => x). lia.
Qed.

Lemma location_positive source offset : 1 <= fst (location source offset) /\ 1 <= snd (location source offset).
Proof. unfold location. cbn [fst snd]. lia. Qed.

(** Any offset has the position of the last boundary at or before it, and of the end when it is past the end. *)
Lemma location_floor source offset : exists boundary,
  location source offset = location source boundary /\ at_boundary (as_bytes source) (N.to_nat (uval boundary)) /\
  (uval boundary <= uval offset)%N /\
  forall i, at_boundary (as_bytes source) i -> i <= N.to_nat (uval offset) -> i <= N.to_nat (uval boundary).
Proof.
  set (n := N.to_nat (N.min (uval offset) (N.of_nat (length (as_bytes source))))).
  destruct (floor_boundary_spec (as_bytes source) n (as_bytes_valid source)) as (H1 & H2 & H3).
  set (f := floor_boundary (as_bytes source) n) in *. pose proof (uval_bound offset) as Hu.
  assert (uval (uint_wrap 64 (N.of_nat f)) = N.of_nat f) as Ef by (apply uval_wrap_small; lia).
  exists (uint_wrap 64 (N.of_nat f)). rewrite Ef, Nat2N.id. split_and!; [|done|lia|].
  - unfold location. rewrite Ef. fold n. fold f. replace (N.min (N.of_nat f) _) with (N.of_nat f) by (destruct H1; lia).
    rewrite Nat2N.id, (floor_boundary_at _ f) by done. done.
  - intros i Hi Hle. apply H3; [done|]. destruct Hi. lia.
Qed.

Definition before (p q : nat * nat) : Prop := fst p < fst q \/ (fst p = fst q /\ snd p < snd q).

Lemma location_lt source a b : at_boundary (as_bytes source) (N.to_nat (uval a)) -> at_boundary (as_bytes source) (N.to_nat (uval b)) ->
  (uval a < uval b)%N -> before (location source a) (location source b).
Proof.
  intros Ha Hb Hab. set (i := N.to_nat (uval a)) in *. set (j := N.to_nat (uval b)) in *. assert (i < j) as Hij by lia.
  destruct (location_at source a i eq_refl Ha) as (init & t & E & Hv & ->).
  destruct (location_at source b j eq_refl Hb) as (init' & t' & E' & Hv' & ->).
  set (w := Utf8.between (as_bytes source) i j).
  assert (take j (as_bytes source) = take i (as_bytes source) ++ w) as Ej.
  { unfold w, Utf8.between. replace j with (i + (j - i)) at 1 by lia. by rewrite take_take_drop. }
  assert (valid w) as Hw by (apply valid_between; [done|done|lia]).
  assert (w <> []) as Hne.
  { intros Ew. apply (f_equal length) in Ew. unfold w in Ew. rewrite length_between in Ew; [cbn in Ew; lia|]. destruct Hb. lia. }
  destruct (split_on LF w) as [|h more] eqn:Es; [by apply split_on_nonempty in Es|].
  rewrite Ej, (split_on_app _ _ _ _ _ _ _ E Es) in E'. unfold before. cbn [fst snd].
  destruct more as [|m more].
  - apply app_inj_tail in E' as [<- <-]. right. split; [done|].
    pose proof (join_split LF w) as Ew. rewrite Es in Ew. cbn in Ew. subst h.
    rewrite characters_app, length_app by done. destruct (valid_inv w Hw) as [->|(cs & c & r & -> & Hs & Hr)]; [done|].
    rewrite (characters_seq cs c r Hs Hr). cbn. lia.
  - left. apply (f_equal length) in E'. rewrite !length_app in E'. cbn in E'. lia.
Qed.

(** ** Quotes *)

Lemma ended_lines_lookup init p more : p <> [] ->
  ended_lines (init ++ p :: more) !! length init = Some (match more with [] => p | _ => strip_return p end).
Proof.
  intros Hp. induction init as [|q init IH]; cbn.
  - destruct more; [by destruct p|done].
  - destruct (init ++ p :: more) as [|r l] eqn:E; [by destruct init|]. apply IH.
Qed.

(** The rest of a line, without the carriage return before a line feed. *)
Lemma strip_rest t cs c h : valid h -> char_seq cs c -> c <> RETURN -> exists r tail,
  strip_return (t ++ cs ++ h) = t ++ cs ++ r /\ valid r /\ h = r ++ tail /\
  (tail = [] /\ list.last (t ++ cs ++ r) <> Some (byte_of RETURN) \/ tail = [byte_of RETURN]).
Proof.
  intros Hh Hs Hc. unfold strip_return. destruct (list.last (t ++ cs ++ h)) as [b|] eqn:El.
  2: { exists h, []. rewrite app_nil_r, El. split_and!; [done..|by left]. }
  destruct (N.eqb_spec (uval b) RETURN) as [Eb|Hne].
  2: { exists h, []. rewrite app_nil_r, El. split_and!; [done..|left]. split; [done|]. intros [= ->]. by apply Hne. }
  assert (b = byte_of RETURN) as -> by by apply uint_eq.
  destruct (decide (h = [])) as [->|Hne].
  - exfalso. rewrite app_nil_r in El. pose proof (Utf8.seq_length _ _ Hs) as Hl.
    rewrite last_app in El. destruct (list.last cs) as [b'|] eqn:E; [|apply last_None in E; subst; cbn in Hl; lia].
    injection El as ->. apply last_Some in E as [l ->].
    assert (l ++ [byte_of RETURN] = [byte_of RETURN]) as E by (apply (seq_ascii _ c); [done|apply elem_of_app; right; by apply list_elem_of_singleton|done]).
    rewrite E in Hs. pose proof (seq_first _ _ Hs []) as Hf. by injection Hf as <-.
  - destruct (exists_last Hne) as (r & b' & ->). exists r, [byte_of RETURN]. rewrite !app_assoc, last_snoc in El. injection El as ->.
    split_and!; [by rewrite !app_assoc, removelast_last| |done|by right].
    pose proof (valid_take (r ++ [byte_of RETURN]) (length r) Hh) as Hv. rewrite take_app_length, drop_app_length in Hv. apply Hv.
    by apply (valid_seq [byte_of RETURN] RETURN), ascii_seq.
Qed.

(** Line [number] of the source is [pre ++ post], with [pre] before offset [i]: no line feed is in it, one is before it
    unless it is the first line, and it ends at a line feed, with or without a carriage return, or at the end. *)
Definition source_line (source : list u8) (i number : nat) (pre post : list u8) : Prop :=
  exists start ending rest, source = start ++ pre ++ post ++ ending ++ rest /\ i = length (start ++ pre) /\
    number = count_newlines start + 1 /\ (start = [] \/ list.last start = Some (byte_of NEWLINE)) /\
    count_newlines (pre ++ post) = 0 /\
    (ending = [] /\ rest = [] \/
     ending = [byte_of NEWLINE] /\ list.last (pre ++ post) <> Some (byte_of RETURN) \/
     ending = [byte_of RETURN; byte_of NEWLINE]).

Lemma piece_one_line text piece : piece ∈ split_on LF text -> count_newlines piece = 0.
Proof.
  intros Hp. unfold count_newlines. apply length_zero_iff_nil. destruct (filter _ piece) as [|b l] eqn:Ef; [done|]. exfalso.
  assert (b ∈ filter (fun b => uval b = NEWLINE) piece) as [Hb Hin]%list_elem_of_filter by (rewrite Ef; apply list_elem_of_here).
  pose proof (split_on_pieces LF text piece b Hp Hin) as Hc. unfold is_char in Hc. change (ch LF) with NEWLINE in Hc.
  by apply N.eqb_neq in Hc.
Qed.

(** Whole lines, and what follows them. *)
Lemma split_start init t text : split_on LF text = init ++ [t] -> exists start, text = start ++ t /\
  count_newlines start = length init /\ (start = [] \/ list.last start = Some (byte_of NEWLINE)).
Proof.
  intros E. pose proof (join_split LF text) as Ej. rewrite E in Ej. change (ch LF) with NEWLINE in Ej.
  pose proof (split_on_length LF text) as Hl. rewrite E, length_app in Hl. cbn in Hl. change (ch LF) with NEWLINE in Hl.
  assert (count_newlines t = 0) as Ht.
  { apply (piece_one_line text). rewrite E. apply elem_of_app. right. by apply list_elem_of_singleton. }
  destruct (decide (init = [])) as [->|Hne].
  - exists []. rewrite <- Ej. split_and!; [done|done|by left].
  - rewrite join_snoc in Ej by done. exists (join [byte_of NEWLINE] init ++ [byte_of NEWLINE]).
    split_and!; [by rewrite <- app_assoc| |right; apply last_snoc].
    rewrite <- Ej, !filter_app, !length_app in Hl. unfold count_newlines in *. rewrite filter_app, length_app. lia.
Qed.

(** The line of a character, as [lines] gives it. *)
Lemma line_at source offset c l : at_boundary (as_bytes source) (N.to_nat (uval offset)) ->
  first_char (drop (N.to_nat (uval offset)) (as_bytes source)) = Some (c, l) -> c <> NEWLINE -> c <> RETURN ->
  exists pre post, source_line (as_bytes source) (N.to_nat (uval offset)) (fst (location source offset)) pre post /\
    lines (as_bytes source) !! (fst (location source offset) - 1) = Some (pre ++ post) /\
    snd (location source offset) = length (characters pre) + 1 /\
    characters (pre ++ post) !! length (characters pre) = Some c.
Proof.
  set (i := N.to_nat (uval offset)). intros Hb Hf Hn Hr. destruct (location_at source offset i eq_refl Hb) as (init & t & E & Hv & ->).
  destruct Hb as [Hi Hvd]. destruct (valid_inv _ Hvd) as [E0|(cs & c' & r & Er & Hs & Hvr)]; [by rewrite E0 in Hf|].
  rewrite Er, (seq_first _ _ Hs) in Hf. injection Hf as -> <-.
  assert (forall b, b ∈ cs -> is_char b LF = false) as Hno.
  { intros b Hbc. apply not_true_iff_false. unfold is_char. intros Eb%N.eqb_eq. change (ch LF) with 10%N in Eb.
    assert (cs = [b]) as -> by (apply (seq_ascii _ c); [done|done|rewrite Eb; done]).
    pose proof (seq_first _ _ Hs []) as Hf. cbn in Hf. rewrite Eb in Hf. by injection Hf as <-. }
  destruct (split_on LF r) as [|h more] eqn:Es; [by apply split_on_nonempty in Es|].
  assert (split_on LF (as_bytes source) = init ++ (t ++ cs ++ h) :: more) as Esrc.
  { rewrite <- (take_drop i (as_bytes source)), Er. apply (split_on_app _ _ _ _ _ _ _ E).
    apply (split_on_app LF cs r [] cs h more); [by apply split_on_none|done]. }
  assert (valid h) as Hh.
  { pose proof (split_on_valid LF r Hvr ltac:(done)) as Hall. rewrite Es in Hall. by apply Forall_inv in Hall. }
  pose proof (Utf8.seq_length _ _ Hs) as Hl. assert (valid cs) as Hcs by by eapply valid_seq.
  destruct (split_start init t _ E) as (start & Estart & Hstart & Hlast).
  assert (count_newlines (t ++ cs ++ h) = 0) as Hzero.
  { apply (piece_one_line (as_bytes source)). rewrite Esrc. apply elem_of_app. right. apply list_elem_of_here. }
  assert (exists r' ending rest, match more with [] => t ++ cs ++ h | _ => strip_return (t ++ cs ++ h) end = t ++ cs ++ r' /\ valid r' /\
    r = r' ++ ending ++ rest /\ count_newlines (t ++ cs ++ r') = 0 /\ (ending = [] /\ rest = [] \/
     ending = [byte_of NEWLINE] /\ list.last (t ++ cs ++ r') <> Some (byte_of RETURN) \/
     ending = [byte_of RETURN; byte_of NEWLINE])) as (r' & ending & rest & Etext & Hr' & Erest & Hz & Hend).
  { pose proof (join_split LF r) as Ej. rewrite Es in Ej. change (ch LF) with NEWLINE in Ej. destruct more as [|m more].
    - exists h, [], []. rewrite !app_nil_r. split_and!; [done|done|by rewrite <- Ej|done|by left].
    - destruct (strip_rest t cs c h Hh Hs Hr) as (r' & tail & E' & Hvr' & -> & Htail).
      exists r', (tail ++ [byte_of NEWLINE]), (join [byte_of NEWLINE] (m :: more)). split_and!; [done|done| | |].
      + rewrite <- Ej. change (join [byte_of NEWLINE] ((r' ++ tail) :: m :: more)) with ((r' ++ tail) ++ [byte_of NEWLINE] ++ join [byte_of NEWLINE] (m :: more)).
        by rewrite <- !app_assoc.
      + rewrite !app_assoc in Hzero. unfold count_newlines in Hzero |- *. rewrite filter_app, length_app in Hzero. rewrite app_assoc. lia.
      + right. destruct Htail as [[-> Hlst]| ->]; [by left|by right]. }
  exists t, (cs ++ r'). cbn [fst snd]. rewrite !Nat.add_sub. split_and!.
  - exists start, ending, rest. split_and!; [|rewrite <- Estart, length_take; lia|lia|done|done|done].
    rewrite <- (take_drop i (as_bytes source)) at 1. rewrite Er, Estart, Erest. by rewrite <- !app_assoc.
  - unfold lines. rewrite Esrc, ended_lines_lookup, Etext; [done|]. destruct t; [|done]. by destruct cs; [cbn in Hl; lia|].
  - done.
  - rewrite characters_app by (done || by apply valid_app). rewrite (characters_seq cs c r' Hs Hr').
    by apply list_lookup_middle.
Qed.

Lemma write_quote_total output source line column : 1 <= line -> 1 <= column -> is_Some (write_quote output source line column).
Proof.
  intros Hl Hc. unfold write_quote, checked_sub. rewrite (proj2 (Nat.leb_le 1 line)) by done. cbn [mbind option_bind].
  case_bool_decide; [by eexists|]. rewrite (proj2 (Nat.leb_le 1 column)) by done. cbn [mbind option_bind].
  rewrite (proj2 (Nat.leb_le _ _)) by lia. by eexists.
Qed.

(** The number of digits decides where the text of a quoted line begins. *)
Lemma number_width n : length (number n) = 1 <-> n < 10.
Proof. unfold number, dec, decimal. rewrite digits_of_single by lia. lia. Qed.

(** ** Sorting *)

Section sort.
Context {A K : Type} `{OrderedLaws K} (sort_key : A -> K).

Definition key_le (x y : A) : Prop := le (sort_key x) (sort_key y).

Lemma sort_insert_perm x l : sort_insert sort_key x l ≡ₚ x :: l.
Proof.
  induction l as [|y l IH]; [done|]. cbn. destruct (compare _ _); [done| |done]. rewrite IH. constructor.
Qed.

Lemma sort_perm l : sort_by_key sort_key l ≡ₚ l.
Proof. induction l as [|x l IH]; [done|]. cbn. by rewrite sort_insert_perm, IH. Qed.

Lemma sort_insert_sorted x l : StronglySorted key_le l -> StronglySorted key_le (sort_insert sort_key x l).
Proof.
  induction l as [|y l IH]; intros Hl; cbn; [repeat constructor|].
  pose proof Hl as [Hs Hy]%StronglySorted_inv. destruct (compare (sort_key y) (sort_key x)) eqn:E.
  - constructor; [done|]. apply compare_eq in E. constructor; [by unfold key_le, le; rewrite E, compare_refl|].
    apply (list.Forall_impl _ _ _ Hy). intros z Hz. unfold key_le in *. by rewrite <- E.
  - constructor; [by apply IH|]. rewrite sort_insert_perm. constructor; [|done]. unfold key_le, le. by rewrite E.
  - constructor; [done|]. apply compare_gt in E. assert (key_le x y) as Hxy by (unfold key_le, le; by rewrite E).
    constructor; [done|]. apply (list.Forall_impl _ _ _ Hy). intros z Hz. unfold key_le in *. by etransitivity.
Qed.

Lemma sort_sorted l : StronglySorted key_le (sort_by_key sort_key l).
Proof. induction l as [|x l IH]; [constructor|by apply sort_insert_sorted]. Qed.

Lemma sort_id l : StronglySorted key_le l -> sort_by_key sort_key l = l.
Proof.
  induction l as [|x l IH]; intros Hl; [done|]. apply StronglySorted_inv in Hl as [Hs Hx].
  change (sort_by_key sort_key (x :: l)) with (sort_insert sort_key x (sort_by_key sort_key l)). rewrite IH by done.
  destruct l as [|y l]; [done|]. apply Forall_inv in Hx. cbn. destruct (compare (sort_key y) (sort_key x)) eqn:E; [done| |done].
  unfold key_le, le in Hx. apply compare_gt in E. by rewrite E in Hx.
Qed.
End sort.

(** ** Edits *)

Definition start_of (edit : Edit) : nat := N.to_nat (uval (Span_start (Edit_span edit))).
Definition end_of (edit : Edit) : nat := N.to_nat (uval (Span_end (Edit_span edit))).

(** The edit is a range of the text between character boundaries. *)
Definition in_text (text : list u8) (edit : Edit) : Prop :=
  start_of edit <= end_of edit /\ at_boundary text (start_of edit) /\ at_boundary text (end_of edit).

(** One of the edits ends before the other starts. *)
Definition apart (a b : Edit) : Prop := end_of a <= start_of b \/ end_of b <= start_of a.

(** One edit by itself. *)
Definition replace_range (edit : Edit) (text : list u8) : list u8 :=
  take (start_of edit) text ++ as_bytes (Edit_text edit) ++ drop (end_of edit) text.

(** The edits follow each other from the cursor on. *)
Fixpoint separated (text : list u8) (cursor : nat) (edits : list Edit) : Prop :=
  match edits with
  | [] => True
  | edit :: edits => cursor <= start_of edit /\ in_text text edit /\ separated text (end_of edit) edits
  end.

(** The text from the cursor on, with the edits. *)
Fixpoint splice (text : list u8) (cursor : nat) (edits : list Edit) : list u8 :=
  match edits with
  | [] => drop cursor text
  | edit :: edits => Utf8.between text cursor (start_of edit) ++ as_bytes (Edit_text edit) ++ splice text (end_of edit) edits
  end.

Lemma apply_edit_Some text output cursor edit state : valid text ->
  apply_edit text (output, cursor) edit = Some state <->
  (cursor <= start_of edit /\ in_text text edit) /\
  state = (output ++ Utf8.between text cursor (start_of edit) ++ as_bytes (Edit_text edit), end_of edit).
Proof.
  intros Hv. unfold apply_edit, in_text, start_of, end_of. set (s := uval _). set (e := uval _).
  destruct (N.ltb_spec s (N.of_nat cursor)) as [|H1]; cbn [orb]; [split; [done|intros [[? _] _]; lia]|].
  destruct (N.ltb_spec e s) as [|H2]; cbn [orb]; [split; [done|intros [(_ & ? & _) _]; lia]|].
  destruct (N.ltb_spec (N.of_nat (length text)) e) as [|H3]; cbn [orb].
  { split; [done|]. intros [(_ & _ & _ & [? _]) _]. lia. }
  destruct (is_char_boundary text (N.to_nat s)) eqn:Es; cbn [negb orb].
  2: { split; [done|]. intros [(_ & _ & Hb%at_boundary_is & _) _]. congruence. }
  destruct (is_char_boundary text (N.to_nat e)) eqn:Ee; cbn [negb orb].
  2: { split; [done|]. intros [(_ & _ & _ & Hb%at_boundary_is) _]. congruence. }
  split; [|by intros [_ ->]]. intros [= <-]. split; [|done]. split_and!; [lia|lia|by apply is_boundary_at..].
Qed.

Definition apply_loop (text : list u8) (state : option (list u8 * nat)) (edits : list Edit) : option (list u8 * nat) :=
  foldl (fun state edit => state ← state; apply_edit text state edit) state edits.

Lemma apply_loop_None text edits : apply_loop text None edits = None.
Proof. by induction edits. Qed.

Lemma apply_loop_Some text output cursor edits out : valid text ->
  (state ← apply_loop text (Some (output, cursor)) edits; let '(output, cursor) := state in Some (output ++ drop cursor text)) = Some out <->
  separated text cursor edits /\ out = output ++ splice text cursor edits.
Proof.
  intros Hv. revert output cursor. induction edits as [|edit edits IH]; intros output cursor.
  - cbn. naive_solver.
  - change (apply_loop text (Some (output, cursor)) (edit :: edits)) with (apply_loop text (apply_edit text (output, cursor) edit) edits).
    cbn [separated splice]. destruct (apply_edit text (output, cursor) edit) as [state|] eqn:E.
    + apply (apply_edit_Some text output cursor edit state Hv) in E as [[H1 H2] ->]. rewrite IH, <- !app_assoc. naive_solver.
    + rewrite apply_loop_None. cbn. split; [done|]. intros [(H1 & H2 & _) _].
      pose proof (proj2 (apply_edit_Some text output cursor edit _ Hv) (conj (conj H1 H2) eq_refl)). congruence.
Qed.

Lemma apply_edits_Some text edits out : apply_edits text edits = Some out <->
  separated (as_bytes text) 0 (sort_by_key edit_key edits) /\ out = splice (as_bytes text) 0 (sort_by_key edit_key edits).
Proof. exact (apply_loop_Some (as_bytes text) [] 0 (sort_by_key edit_key edits) out (as_bytes_valid text)). Qed.

Lemma apart_sym a b : apart a b -> apart b a.
Proof. unfold apart. tauto. Qed.

Lemma pairs_perm {A} (R : A -> A -> Prop) l l' : (forall x y, R x y -> R y x) -> l ≡ₚ l' -> ForallOrdPairs R l -> ForallOrdPairs R l'.
Proof.
  intros Hsym Hp. induction Hp as [|x l l' Hp IH|x y l|l l' l'' _ IH1 _ IH2]; intros Hl; [done|..|by auto].
  - inversion Hl as [|? ? Hx Hl']; subst. constructor; [by rewrite <- Hp|by apply IH].
  - inversion Hl as [|? ? Hy Hl']; subst. inversion Hl' as [|? ? Hx Hl'']; subst. apply Forall_cons_iff in Hy as [Hyx Hy].
    constructor; [constructor; [by apply Hsym|done]|by constructor].
Qed.

(** Sorted edits follow each other exactly when they are ranges of the text that do not overlap. *)
Lemma separated_sorted text cursor edits : StronglySorted (key_le edit_key) edits ->
  separated text cursor edits <->
  Forall (in_text text) edits /\ Forall (fun e => cursor <= start_of e) edits /\ ForallOrdPairs apart edits.
Proof.
  revert cursor. induction edits as [|e edits IH]; intros cursor Hs.
  { cbn. split; [|done]. intros _. split_and!; constructor. }
  apply StronglySorted_inv in Hs as [Hs He]. cbn [separated]. rewrite IH by done. split.
  - intros (H1 & H2 & H3 & H4 & H5). split_and!; [by constructor|constructor; [done|]|constructor; [|done]].
    + apply (list.Forall_impl _ _ _ H4). intros f Hf. destruct H2. lia.
    + apply (list.Forall_impl _ _ _ H4). intros f Hf. by left.
  - intros (H1 & H2 & H3). apply Forall_cons_iff in H1 as [H1 H1']. apply Forall_cons_iff in H2 as [H2 H2'].
    inversion H3 as [|? ? Ha H3']; subst. split_and!; [done..| |done].
    apply list.Forall_forall. intros f Hf. rewrite list.Forall_forall in He, Ha, H1'.
    specialize (He f Hf). specialize (Ha f Hf). destruct (H1' f Hf) as [Hle _].
    unfold key_le, le, edit_key, compare, pair_ordered, compare_pair in He. cbn [fst snd] in He.
    unfold apart, start_of, end_of in *. destruct Ha as [|Ha]; [done|].
    destruct (compare _ (uval (Span_start (Edit_span f)))) eqn:E; unfold compare, N_ordered in *.
    + apply N.compare_eq_iff in E. rewrite N.compare_ngt_iff in He. lia.
    + rewrite N.compare_lt_iff in E. lia.
    + done.
Qed.

Lemma splice_replaces text cursor edits : separated text cursor edits -> cursor <= length text ->
  take cursor (foldr replace_range text edits) = take cursor text /\
  drop cursor (foldr replace_range text edits) = splice text cursor edits.
Proof.
  revert cursor. induction edits as [|e edits IH]; intros cursor Hs Hc; [done|].
  cbn [separated] in Hs. destruct Hs as (H1 & (H2 & [Hl _] & [He _]) & Hs). destruct (IH _ Hs He) as [Ht Hd].
  cbn [foldr splice]. unfold replace_range at 1 3. rewrite Hd.
  assert (take (start_of e) (foldr replace_range text edits) = take (start_of e) text) as ->.
  { replace (start_of e) with (start_of e `min` end_of e) by lia. by rewrite <- !take_take, Ht. }
  assert (length (take (start_of e) text) = start_of e) as El by (rewrite length_take; lia).
  split.
  - rewrite take_app_le by lia. rewrite take_take. f_equal. lia.
  - rewrite drop_app_le by lia. unfold Utf8.between. rewrite take_drop_commute.
    by replace (cursor + (start_of e - cursor)) with (start_of e) by lia.
Qed.

Lemma splice_valid text cursor edits : valid text -> at_boundary text cursor -> separated text cursor edits -> valid (splice text cursor edits).
Proof.
  intros Hv. revert cursor. induction edits as [|e edits IH]; intros cursor Hc Hs; [apply Hc|].
  cbn [separated splice] in *. destruct Hs as (H1 & (H2 & H3 & H4) & Hs). apply valid_app; [by apply valid_between|].
  apply valid_app; [apply as_bytes_valid|by apply IH].
Qed.
