(* ===== verification/Trap.v ===== *)
(** * Trap reports

    [src/src/trap.rs]: the kinds of traps, the line that the crash handler of [src/src/runtime/backtrace.c] writes and
    its reader, the names of frames, the frames that a symbolizer names, and the report with its JSON and its lines.
    [serde_json::from_str] is a parameter. *)
From Stdlib Require Import Ascii.
From stdpp Require Import list strings.
From S2P Require Import Prelude Wire Utf8 Kinds Json Render.
Local Open Scope nat_scope.

(** ** Kinds *)

Inductive TrapKind :=
| Assert | IntegerDivisionByZero | IntegerDivisionOverflow | BoundsCheck | AllocationSize | AllocationFailure
| RangeStepZero | MatchFailure | PatternMismatch | StringConcatOverflow | NumericRuntime | WasmRuntime | Encoding
| DebugOutput | StackOverflow | Overflow | TrapKind_ContractRequires | TrapKind_ContractEnsures.

Definition description (kind : TrapKind) : string :=
  match kind with
  | Assert => "assertion failed"
  | IntegerDivisionByZero => "integer division by zero"
  | IntegerDivisionOverflow => "integer division overflow"
  | BoundsCheck => "index out of bounds"
  | AllocationSize => "allocation size overflow"
  | AllocationFailure => "allocation failed"
  | RangeStepZero => "range step is zero"
  | MatchFailure => "non-exhaustive match"
  | PatternMismatch => "pattern mismatch"
  | StringConcatOverflow => "string length overflow"
  | NumericRuntime => "numeric runtime trap"
  | WasmRuntime => "wasm runtime trap"
  | Encoding => "invalid Unicode encoding"
  | DebugOutput => "debug output failed"
  | StackOverflow => "stack overflow"
  | Overflow => "unhandled OverflowException: arithmetic operation resulted in an overflow"
  | TrapKind_ContractRequires => "contract requires failed"
  | TrapKind_ContractEnsures => "contract ensures failed"
  end.

Definition diagnostic_kind (kind : TrapKind) : option DiagnosticKind :=
  match kind with
  | TrapKind_ContractRequires => Some ContractRequires
  | TrapKind_ContractEnsures => Some ContractEnsures
  | _ => None
  end.

(** ** Reports *)

Definition MAX_TRAP_FRAMES : nat := 32.

Record RawTrapReport := mk_RawTrapReport {
  raw_site : u32;
  raw_slide : u64;
  raw_truncated : bool;
  raw_addresses : list u64 }.

Record TrapFrame := mk_TrapFrame {
  frame_function : option RString;
  frame_path : option RString;
  frame_line : option u32;
  frame_column : option u32;
  frame_address : u64 }.

Record TrapReport := mk_TrapReport {
  report_kind : RString;
  report_site : u32;
  report_frames : list TrapFrame;
  report_resolved : bool;
  report_truncated : bool }.

(** The object of one frame. *)
Definition frame_json (frame : TrapFrame) : list u8 :=
  txt "{" ++
  match frame_function frame with Some function => key "function" ++ json_string (as_bytes function) ++ txt "," | None => [] end ++
  match frame_path frame with Some path => key "path" ++ json_string (as_bytes path) ++ txt "," | None => [] end ++
  match frame_line frame with Some line => key "line" ++ dec (uval line) ++ txt "," | None => [] end ++
  match frame_column frame with Some column => key "column" ++ dec (uval column) ++ txt "," | None => [] end ++
  key "address" ++ DQ ++ txt "0x" ++ hex (uval (frame_address frame)) ++ DQ ++ txt "}".

(** [TrapReport::json] *)
Definition trap_json (report : TrapReport) : list u8 :=
  txt "{" ++ key "kind" ++ json_string (as_bytes (report_kind report)) ++ txt "," ++ key "site" ++ dec (uval (report_site report)) ++
  txt "," ++ key "frames" ++ txt "[" ++ join (txt ",") (frame_json <$> report_frames report) ++ txt "]" ++
  (if report_truncated report then txt "," ++ key "truncated" ++ txt "true" else []) ++ txt "}".

Definition frame_text (frame : TrapFrame) : list u8 :=
  let function := match frame_function frame with Some function => as_bytes function | None => txt "?" end in
  match frame_path frame, frame_line frame, frame_column frame with
  | Some path, Some line, Some column =>
    txt "  at " ++ function ++ txt " (" ++ as_bytes path ++ txt ":" ++ dec (uval line) ++ txt ":" ++ dec (uval column) ++ txt ")"
  | Some path, Some line, None => txt "  at " ++ function ++ txt " (" ++ as_bytes path ++ txt ":" ++ dec (uval line) ++ txt ")"
  | _, _, _ => txt "  at " ++ function
  end.

(** [TrapReport::lines] *)
Definition trap_lines (report : TrapReport) : list (list u8) :=
  if bool_decide (report_frames report = []) then []
  else if negb (report_resolved report) then
    [txt "  note: frames are not resolved; install llvm-symbolizer or set TSUZURI_LLVM_SYMBOLIZER"]
  else (frame_text <$> report_frames report) ++ (if report_truncated report then [txt "  ... (more frames omitted)"] else []).

(** ** The report file *)

(** [from_str_radix] of digits of the radix, into a type of [w] bits. *)
Definition parse_radix (radix w : N) (digits : list u8) : option (uint w) :=
  uint_try (foldl (fun acc b => acc * radix + default 0 (to_digit radix b))%N 0%N digits).

Definition hexadecimal (field : list u8) : option u64 :=
  digits ← strip_prefix (txt "0x") field;
  if bool_decide (digits = []) || negb (forallb is_ascii_hexdigit digits) then None else parse_radix 16 64 digits.

Fixpoint trim_end_matches (f : u8 -> bool) (bs : list u8) : list u8 :=
  match bs with
  | [] => []
  | b :: bs => match trim_end_matches f bs with [] => if f b then [] else [b] | rest => b :: rest end
  end.

Definition parse_report_line (line : list u8) : option RawTrapReport :=
  match split_on " " (trim_end_matches is_newline line) with
  | version :: site :: slide :: truncated :: fields =>
    if negb (bool_decide (version = txt "tz-trap/1")) then None
    else if bool_decide (site = []) || negb (forallb is_ascii_digit site) then None
    else
      site ← parse_radix 10 32 site;
      slide ← hexadecimal slide;
      truncated ← (if bool_decide (truncated = txt "0") then Some false
        else if bool_decide (truncated = txt "1") then Some true else None);
      addresses ← mapM hexadecimal fields;
      if length addresses <=? MAX_TRAP_FRAMES then Some (mk_RawTrapReport site slide truncated addresses) else None
  | _ => None
  end.

(** What [tsuzuri_trap_backtrace] of [src/src/runtime/backtrace.c] writes. *)
Definition report_line (raw : RawTrapReport) : list u8 :=
  txt "tz-trap/1 " ++ dec (uval (raw_site raw)) ++ txt " 0x" ++ hex (uval (raw_slide raw)) ++
  (if raw_truncated raw then txt " 1" else txt " 0") ++
  concat ((fun address => txt " 0x" ++ hex (uval address)) <$> raw_addresses raw) ++ EOL.

(** ** Names of frames *)

(** [rsplit_once('.')] *)
Fixpoint rsplit_once (c : Ascii.ascii) (bs : list u8) : option (list u8 * list u8) :=
  match bs with
  | [] => None
  | b :: bs =>
    match rsplit_once c bs with
    | Some (left_, right_) => Some (b :: left_, right_)
    | None => if is_char b c then Some ([], bs) else None
    end
  end.
#[global] Arguments rsplit_once c%_char_scope bs.

Definition level_byte (b : u8) : bool := is_ascii_lowercase b || is_ascii_digit b || is_char b "_".

Definition or_else {A} (o p : option A) : option A := match o with Some _ => o | None => p end.

(** One turn of the loop of [without_clone_suffixes]: the name without its last suffix. *)
Definition strip_clone_suffix (name : list u8) : option (list u8) :=
  '(rest, last) ← rsplit_once "." name;
  let digits := negb (bool_decide (last = [])) && forallb is_ascii_digit last in
  let level := negb (bool_decide (last = [])) && forallb level_byte last in
  or_else (if digits then or_else (strip_suffix (txt ".$mono") rest) (strip_suffix (txt ".cold") rest) else None)
    (if level then strip_suffix (txt ".cpu") rest else None).

Fixpoint without_clone_suffixes_loop (fuel : nat) (name : list u8) : list u8 :=
  match fuel with
  | O => name
  | S fuel => match strip_clone_suffix name with Some stripped => without_clone_suffixes_loop fuel stripped | None => name end
  end.

(** Every turn makes the name shorter. *)
Definition without_clone_suffixes (name : list u8) : list u8 := without_clone_suffixes_loop (length name) name.

Definition non_empty (bs : list u8) : option (list u8) := if bool_decide (bs = []) then None else Some bs.

Definition display_name (linkage : list u8) : option (list u8) :=
  match strip_prefix (txt "tz.fn.") linkage with
  | Some rest => non_empty (without_clone_suffixes rest)
  | None =>
    match strip_prefix (txt "tz_") linkage ≫= non_empty with
    | Some rest => non_empty (without_clone_suffixes rest)
    | None =>
      number ← strip_prefix (txt "tz.specialized.") linkage;
      if negb (bool_decide (number = [])) && forallb is_ascii_digit number then Some linkage else None
    end
  end.

(** ** Frames of the symbolizer *)

(** What the code uses of [serde_json::Value]. *)
Class JsonValue (Value : Type) := {
  from_str : list u8 -> option Value;
  as_array : Value -> option (list Value);
  get : Value -> string -> option Value;
  as_str : Value -> option RString;
  as_u64 : Value -> option u64 }.

(** [contains] *)
Fixpoint contains (pattern bs : list u8) : bool :=
  starts_with pattern bs || match bs with _ :: bs => contains pattern bs | [] => false end.

Section symbolizer.
Context `{JsonValue Value} (export : list u8 -> bool) (slide : u64).

Definition symbol_number (symbol : Value) (name : string) : option u32 :=
  value ← get symbol name;
  value ← as_u64 value;
  value ← uint_try (w := 32) (uval value);
  if (uval value =? 0)%N then None else Some value.

Definition wrapping_sub (a b : u64) : u64 := uint_wrap 64 (uval a + 2 ^ 64 - uval b).

(** The frame of one symbol and whether it is a cold part; [None] for a symbol that is not shown. *)
Definition symbol_frame (address : u64) (symbol : Value) : option (TrapFrame * bool) :=
  let linkage := match get symbol "FunctionName" ≫= as_str with Some name => as_bytes name | None => [] end in
  name ← display_name linkage;
  if starts_with (txt "tz_") linkage && negb (export name) then None
  else
    let path := path ← get symbol "FileName" ≫= as_str; if bool_decide (as_bytes path = []) then None else Some path in
    let line := symbol_number symbol "Line" in
    let located := match path, line with Some _, Some _ => true | _, _ => false end in
    let frame := mk_TrapFrame (from_utf8 name) (if located then path else None) (if located then line else None)
      (if located then symbol_number symbol "Column" else None) (wrapping_sub address slide) in
    Some (frame, contains (txt ".cold.") linkage).

(** The frames so far, the last one first, each with its mark of a cold part. *)
Definition merge_frame (frames : list (TrapFrame * bool)) (new : TrapFrame * bool) : list (TrapFrame * bool) :=
  let '(frame, is_cold) := new in
  match frames with
  | (last, cold) :: rest =>
    if bool_decide (frame_function last = frame_function frame) && (is_cold || cold) then
      if is_cold then frames else (frame, is_cold) :: rest
    else (frame, is_cold) :: frames
  | [] => [(frame, is_cold)]
  end.

Definition entry_symbols (entry : Value) : list Value := default [] (get entry "Symbol" ≫= as_array).

(** The symbols that are shown, with their frames. *)
Definition shown_frames (entries : list (Value * u64)) : list (TrapFrame * bool) :=
  concat ((fun e => omap (symbol_frame (snd e)) (entry_symbols (fst e))) <$> entries).
End symbolizer.

Definition frames_from_symbolizer `{JsonValue Value} (output : list u8) (raw : RawTrapReport) (export : list u8 -> bool)
  : option (list TrapFrame) :=
  value ← from_str output;
  entries ← as_array value;
  if negb (length entries =? length (raw_addresses raw)) then None
  else
    let shown := shown_frames export (raw_slide raw) (zip entries (raw_addresses raw)) in
    Some (reverse (fst <$> foldl merge_frame [] shown)).
