(* ===== verification/TrapLaws.v ===== *)
(** * Laws of trap reports

    Reading a report line back, the suffixes of clones, and the merging of cold parts. *)
From Stdlib Require Import Ascii.
From stdpp Require Import list strings.
From S2P Require Import Prelude Wire Utf8 Json JsonLaws Render RenderLaws Trap.
Local Open Scope nat_scope.

(** ** Fields *)

Lemma split_on_cons c p rest : (forall b, b ∈ p -> is_char b c = false) ->
  split_on c (p ++ byte_of (ch c) :: rest) = p :: split_on c rest.
Proof.
  intros Hp. assert (split_on c (byte_of (ch c) :: rest) = [] :: split_on c rest) as E.
  { cbn [split_on]. unfold is_char. rewrite byte_of_value by (apply N_ascii_bounded). by rewrite N.eqb_refl. }
  rewrite (split_on_app c p _ [] p [] (split_on c rest)); [|by apply split_on_none|done]. by rewrite app_nil_r.
Qed.

Lemma split_on_join c p ps : Forall (fun p => forall b, b ∈ p -> is_char b c = false) (p :: ps) ->
  split_on c (join [byte_of (ch c)] (p :: ps)) = p :: ps.
Proof.
  revert p. induction ps as [|q ps IH]; intros p Hp; apply Forall_cons_iff in Hp as [Hp Hps]; [by apply split_on_none|].
  change (join [byte_of (ch c)] (p :: q :: ps)) with (p ++ byte_of (ch c) :: join [byte_of (ch c)] (q :: ps)).
  by rewrite split_on_cons, IH.
Qed.

Lemma trim_end_all f ys : Forall (fun b => f b = true) ys -> trim_end_matches f ys = [].
Proof. intros Hy. induction Hy as [|b ys Hb _ IH]; [done|]. cbn. by rewrite IH, Hb. Qed.

Lemma trim_end_app f xs ys : Forall (fun b => f b = false) xs -> Forall (fun b => f b = true) ys ->
  trim_end_matches f (xs ++ ys) = xs.
Proof.
  intros Hx Hy. induction Hx as [|b xs Hb _ IH]; [by apply trim_end_all|]. cbn. rewrite IH, Hb. by destruct xs.
Qed.

(** ** Numbers *)

Lemma parse_radix_of {w} (radix : N) (digit : N -> u8) fuel (n : uint w) : (1 < radix)%N ->
  (forall d, (d < radix)%N -> to_digit radix (digit d) = Some d) -> (uval n < radix ^ N.of_nat fuel)%N ->
  parse_radix radix w (digits_of radix digit fuel (uval n) []) = Some n.
Proof.
  intros Hr Hd Hn. unfold parse_radix. rewrite digits_of_value; [|done| |done].
  - apply uint_try_uval.
  - intros d Hlt. by rewrite Hd.
Qed.

Lemma parse_dec {w} (n : uint w) : (w <= 64)%N -> parse_radix 10 w (dec (uval n)) = Some n.
Proof.
  intros Hw. apply parse_radix_of; [lia|by intros d Hd; apply decimal_digit|].
  pose proof (uval_bound n). assert (2 ^ w <= 2 ^ 64)%N by (apply N.pow_le_mono_r; lia).
  change (10 ^ N.of_nat 20)%N with 100000000000000000000%N. lia.
Qed.

Lemma parse_hex (n : u64) : parse_radix 16 64 (hex (uval n)) = Some n.
Proof. apply parse_radix_of; [lia|by intros d Hd; apply hex_digit_digit|]. apply (uval_bound n). Qed.

Lemma forallb_Forall (f : u8 -> bool) l : Forall (fun b => f b = true) l -> forallb f l = true.
Proof. intros Hl. apply forallb_forall. intros b Hb%list_elem_of_In. by apply (proj1 (list.Forall_forall _ _) Hl). Qed.

Lemma hexadecimal_of (n : u64) : hexadecimal (txt "0x" ++ hex (uval n)) = Some n.
Proof.
  unfold hexadecimal. rewrite strip_prefix_app. cbn [mbind option_bind]. rewrite bool_decide_eq_false_2 by apply hex_nonempty.
  rewrite (forallb_Forall _ _ (hex_digits (uval n))). apply parse_hex.
Qed.

(** ** The report line *)

Definition report_fields (raw : RawTrapReport) : list (list u8) :=
  [dec (uval (raw_site raw)); txt "0x" ++ hex (uval (raw_slide raw)); if raw_truncated raw then txt "1" else txt "0"] ++
  ((fun address => txt "0x" ++ hex (uval address)) <$> raw_addresses raw).

Lemma report_line_join raw : report_line raw = join [byte_of (ch " ")] (txt "tz-trap/1" :: report_fields raw) ++ EOL.
Proof.
  rewrite join_cons. unfold report_line, report_fields. rewrite fmap_app, concat_app, <- !app_assoc.
  cbn [fmap list_fmap concat]. rewrite <- !app_assoc. cbn [app].
  assert ((fun address => txt " 0x" ++ hex (uval address)) <$> raw_addresses raw =
    (fun q => [byte_of (ch " ")] ++ q) <$> ((fun address => txt "0x" ++ hex (uval address)) <$> raw_addresses raw)) as ->.
  { rewrite <- list_fmap_compose. by apply list_fmap_ext. }
  by destruct (raw_truncated raw).
Qed.

(** Bytes of a field: no space, and no end of a line. *)
Definition field_byte (b : u8) : bool := negb (is_char b " ") && negb (is_newline b).

Lemma hexdigit_field b : is_ascii_hexdigit b = true -> field_byte b = true.
Proof.
  unfold is_ascii_hexdigit, is_digit, to_digit, in_range, field_byte, is_newline, is_char.
  change (ch "0") with 48%N. change (ch "9") with 57%N. change (ch "a") with 97%N. change (ch "f") with 102%N.
  change (ch "A") with 65%N. change (ch "F") with 70%N. change (ch " ") with 32%N. unfold NEWLINE, RETURN.
  repeat (case_match; try done); repeat match goal with H : (_ && _) = true |- _ => apply andb_prop in H as [? ?] end;
  repeat match goal with H : (_ <=? _)%N = true |- _ => apply N.leb_le in H end;
  repeat rewrite (proj2 (N.eqb_neq (uval b) _)) by lia; done.
Qed.

Lemma digit_hexdigit b : is_ascii_digit b = true -> is_ascii_hexdigit b = true.
Proof.
  unfold is_ascii_digit, is_ascii_hexdigit, is_digit, to_digit. intros Hd. rewrite Hd. unfold in_range in Hd.
  apply andb_prop in Hd as [H1%N.leb_le H2%N.leb_le]. change (ch "0") with 48%N in *. change (ch "9") with 57%N in *.
  by rewrite (proj2 (N.ltb_lt _ 16)) by lia.
Qed.

Lemma report_fields_bytes raw : Forall (Forall (fun b => field_byte b = true)) (txt "tz-trap/1" :: report_fields raw).
Proof.
  assert (forall n, Forall (fun b => field_byte b = true) (txt "0x" ++ hex n)) as Hhex.
  { intros n. apply Forall_app. split; [by repeat constructor|]. apply (list.Forall_impl _ _ _ (hex_digits n)), hexdigit_field. }
  unfold report_fields. constructor; [by repeat constructor|]. apply Forall_app. split.
  - constructor; [|constructor; [apply Hhex|]].
    + apply (list.Forall_impl _ _ _ (dec_digits _)). intros b Hb. by apply hexdigit_field, digit_hexdigit.
    + destruct (raw_truncated raw); by repeat constructor.
  - apply Forall_fmap, list.Forall_forall. intros address _. apply Hhex.
Qed.

Lemma join_Forall (P : u8 -> Prop) s ps : Forall P s -> Forall (Forall P) ps -> Forall P (join s ps).
Proof.
  intros Hs Hp. induction Hp as [|p ps Hp _ IH]; [constructor|]. destruct ps as [|q ps]; [done|].
  change (join s (p :: q :: ps)) with (p ++ s ++ join s (q :: ps)). apply Forall_app. split; [done|]. apply Forall_app. by split.
Qed.

Lemma report_line_fields raw : split_on " " (trim_end_matches is_newline (report_line raw)) = txt "tz-trap/1" :: report_fields raw.
Proof.
  rewrite report_line_join. pose proof (report_fields_bytes raw) as Hb. rewrite trim_end_app.
  - apply split_on_join. apply (list.Forall_impl _ _ _ Hb). intros p Hp b Hin.
    pose proof (proj1 (list.Forall_forall _ _) Hp b Hin) as Hf. cbn beta in Hf. unfold field_byte in Hf. by destruct (is_char b " ").
  - apply join_Forall; [by repeat constructor|]. apply (list.Forall_impl _ _ _ Hb). intros p Hp.
    apply (list.Forall_impl _ _ _ Hp). intros b Hf. unfold field_byte in Hf. destruct (is_newline b); [|done]. by rewrite andb_false_r in Hf.
  - by repeat constructor.
Qed.

Lemma parse_fields line site slide truncated addresses (raw : RawTrapReport) :
  split_on " " (trim_end_matches is_newline line) = txt "tz-trap/1" :: report_fields raw ->
  length (raw_addresses raw) <= MAX_TRAP_FRAMES ->
  raw = mk_RawTrapReport site slide truncated addresses -> parse_report_line line = Some raw.
Proof.
  intros E Hl Hraw. unfold parse_report_line, report_fields in *. rewrite E. subst raw. cbn [raw_site raw_slide raw_truncated raw_addresses app] in *.
  rewrite bool_decide_eq_true_2 by done. cbn [negb]. rewrite bool_decide_eq_false_2 by apply dec_nonempty.
  rewrite (forallb_Forall _ _ (dec_digits _)). cbn [negb orb]. rewrite parse_dec by lia. cbn [mbind option_bind].
  rewrite hexadecimal_of. cbn [mbind option_bind].
  assert (mapM hexadecimal ((fun address => txt "0x" ++ hex (uval address)) <$> addresses) = Some addresses) as ->.
  { apply mapM_Some, Forall2_fmap_l, Forall2_same_length_lookup_2; [done|]. intros i x y Hx Hy. simplify_eq. apply hexadecimal_of. }
  destruct truncated; cbn [mbind option_bind]; by rewrite (proj2 (Nat.leb_le _ _)).
Qed.

(** ** Suffixes of clones *)

Inductive clone_suffix : list u8 -> Prop :=
| suffix_mono digits : digits <> [] -> forallb is_ascii_digit digits = true -> clone_suffix (txt ".$mono." ++ digits)
| suffix_cold digits : digits <> [] -> forallb is_ascii_digit digits = true -> clone_suffix (txt ".cold." ++ digits)
| suffix_cpu level : level <> [] -> forallb level_byte level = true -> clone_suffix (txt ".cpu." ++ level).

Lemma rsplit_once_Some c bs l r : rsplit_once c bs = Some (l, r) -> bs = l ++ byte_of (ch c) :: r.
Proof.
  revert l r. induction bs as [|b bs IH]; intros l r; [done|]. cbn. destruct (rsplit_once c bs) as [[l' r']|].
  - intros [= <- <-]. by rewrite (IH l' r' eq_refl).
  - destruct (is_char b c) eqn:E; [|done]. intros [= <- <-]. unfold is_char in E. apply N.eqb_eq in E. by rewrite (byte_of_eq (ch c) b).
Qed.

Lemma rsplit_once_none c bs : (forall b, b ∈ bs -> is_char b c = false) -> rsplit_once c bs = None.
Proof.
  induction bs as [|b bs IH]; intros Hno; [done|]. cbn. rewrite IH by (intros b' Hb'; apply Hno; by apply list_elem_of_further).
  by rewrite (Hno b) by apply list_elem_of_here.
Qed.

Lemma rsplit_once_last c l r : (forall b, b ∈ r -> is_char b c = false) -> rsplit_once c (l ++ byte_of (ch c) :: r) = Some (l, r).
Proof.
  intros Hr. induction l as [|b l IH]; cbn.
  - rewrite rsplit_once_none by done. unfold is_char. rewrite byte_of_value by apply N_ascii_bounded. by rewrite N.eqb_refl.
  - by rewrite IH.
Qed.

Lemma level_byte_dot b : level_byte b = true -> is_char b "." = false.
Proof.
  intros Hb. apply not_true_iff_false. unfold is_char. intros E%N.eqb_eq. change (ch ".") with 46%N in E.
  rewrite <- (byte_of_eq 46 b) in Hb by done. done.
Qed.

Lemma digit_level b : is_ascii_digit b = true -> level_byte b = true.
Proof. unfold level_byte. intros ->. by rewrite orb_true_r. Qed.

Lemma strip_suffix_neq s t r : length s = length t -> s <> t -> strip_suffix s (r ++ t) = None.
Proof.
  intros Hl Hne. destruct (strip_suffix s (r ++ t)) as [x|] eqn:E; [|done]. apply strip_suffix_Some in E.
  apply app_inj_2 in E as [_ E]; [by subst|done].
Qed.

Lemma strip_suffix_app s r : strip_suffix s (r ++ s) = Some r.
Proof. by apply strip_suffix_Some. Qed.

(** The last byte tells the suffixes apart. *)
Lemma strip_suffix_last s t r b c : list.last s = Some b -> list.last t = Some c -> b <> c -> strip_suffix s (r ++ t) = None.
Proof.
  intros Hs Ht Hne. destruct (strip_suffix s (r ++ t)) as [x|] eqn:E; [|done]. apply strip_suffix_Some in E.
  apply (f_equal list.last) in E. rewrite !last_app, Hs, Ht in E. congruence.
Qed.

(** A suffix is taken off, whatever it follows. *)
Lemma strip_clone_app base suffix : clone_suffix suffix -> strip_clone_suffix (base ++ suffix) = Some base.
Proof.
  intros Hs. unfold strip_clone_suffix. destruct Hs as [digits Hne Hd|digits Hne Hd|level Hne Hd].
  - change (txt ".$mono." ++ digits) with (txt ".$mono" ++ byte_of (ch ".") :: digits). rewrite app_assoc, rsplit_once_last.
    2: { intros b Hb. by eapply level_byte_dot, digit_level, forallb_elem. }
    cbn [mbind option_bind]. rewrite bool_decide_eq_false_2, Hd by done. cbn [negb andb]. by rewrite strip_suffix_app.
  - change (txt ".cold." ++ digits) with (txt ".cold" ++ byte_of (ch ".") :: digits). rewrite app_assoc, rsplit_once_last.
    2: { intros b Hb. by eapply level_byte_dot, digit_level, forallb_elem. }
    cbn [mbind option_bind]. rewrite bool_decide_eq_false_2, Hd by done. cbn [negb andb].
    rewrite (strip_suffix_last (txt ".$mono") (txt ".cold") base (byte_of (ch "o")) (byte_of (ch "d"))) by done.
    cbn [or_else]. by rewrite strip_suffix_app.
  - change (txt ".cpu." ++ level) with (txt ".cpu" ++ byte_of (ch ".") :: level). rewrite app_assoc, rsplit_once_last.
    2: { intros b Hb. by eapply level_byte_dot, forallb_elem. }
    cbn [mbind option_bind]. rewrite bool_decide_eq_false_2, Hd by done. cbn [negb andb].
    rewrite (strip_suffix_last (txt ".$mono") (txt ".cpu") base (byte_of (ch "o")) (byte_of (ch "u"))) by done.
    rewrite (strip_suffix_last (txt ".cold") (txt ".cpu") base (byte_of (ch "d")) (byte_of (ch "u"))) by done.
    rewrite strip_suffix_app. by destruct (forallb is_ascii_digit level).
Qed.

(** And only a suffix is. *)
Lemma strip_clone_Some name base : strip_clone_suffix name = Some base -> exists suffix, clone_suffix suffix /\ name = base ++ suffix.
Proof.
  unfold strip_clone_suffix. destruct (rsplit_once "." name) as [[rest last]|] eqn:E; [|done]. apply rsplit_once_Some in E as ->.
  cbn [mbind option_bind]. destruct (bool_decide_reflect (last = [])) as [|Hne]; [done|]. cbn [negb andb].
  assert (forall s, strip_suffix s rest = Some base -> rest ++ byte_of (ch ".") :: last = base ++ (s ++ txt ".") ++ last) as Happ.
  { intros s ->%strip_suffix_Some. by rewrite <- !app_assoc. }
  destruct (forallb is_ascii_digit last) eqn:Ed.
  - destruct (strip_suffix (txt ".$mono") rest) as [r|] eqn:E1.
    { intros [= ->]. exists (txt ".$mono." ++ last). split; [by apply suffix_mono|by apply (Happ (txt ".$mono"))]. }
    destruct (strip_suffix (txt ".cold") rest) as [r|] eqn:E2.
    { intros [= ->]. exists (txt ".cold." ++ last). split; [by apply suffix_cold|by apply (Happ (txt ".cold"))]. }
    cbn [or_else]. destruct (forallb level_byte last) eqn:El; [|done]. intros Hcpu.
    exists (txt ".cpu." ++ last). split; [by apply suffix_cpu|by apply (Happ (txt ".cpu"))].
  - cbn [or_else]. destruct (forallb level_byte last) eqn:El; [|done]. intros Hcpu.
    exists (txt ".cpu." ++ last). split; [by apply suffix_cpu|by apply (Happ (txt ".cpu"))].
Qed.

Lemma clone_suffix_length suffix : clone_suffix suffix -> 0 < length suffix.
Proof. destruct 1; rewrite length_app; cbn; lia. Qed.

Lemma strip_clones_loop fuel base suffixes : strip_clone_suffix base = None -> Forall clone_suffix suffixes ->
  length (base ++ concat suffixes) <= fuel -> without_clone_suffixes_loop fuel (base ++ concat suffixes) = base.
Proof.
  intros Hb. revert fuel. induction suffixes as [|s suffixes IH] using rev_ind; intros fuel Hs Hf.
  - cbn. rewrite app_nil_r in *. destruct fuel as [|fuel]; [done|]. cbn. by rewrite Hb.
  - apply Forall_app in Hs as [Hss Hs%Forall_inv]. rewrite concat_app in *. cbn [concat] in *. rewrite app_nil_r in *.
    rewrite app_assoc in *. rewrite length_app in Hf. pose proof (clone_suffix_length s Hs).
    destruct fuel as [|fuel]; [lia|]. cbn. rewrite strip_clone_app by done. apply IH; [done|lia].
Qed.


(** Every name is a name without a suffix of a clone, and suffixes. *)
Lemma clone_suffixes_of n name : length name <= n -> exists base suffixes, name = base ++ concat suffixes /\
  strip_clone_suffix base = None /\ Forall clone_suffix suffixes.
Proof.
  revert name. induction n as [|n IH]; intros name Hl.
  - exists [], []. destruct name; [done|cbn in Hl; lia].
  - destruct (strip_clone_suffix name) as [rest|] eqn:E; [|exists name, []; by rewrite app_nil_r].
    apply strip_clone_Some in E as (s & Hs & ->). pose proof (clone_suffix_length s Hs). rewrite length_app in Hl.
    destruct (IH rest) as (base & suffixes & -> & Hb & Hss); [lia|]. exists base, (suffixes ++ [s]). split_and!; [|done|].
    + rewrite concat_app. cbn. by rewrite app_nil_r, app_assoc.
    + apply Forall_app. split; [done|by constructor].
Qed.

Lemma without_clone_suffixes_spec base suffixes : strip_clone_suffix base = None -> Forall clone_suffix suffixes ->
  without_clone_suffixes (base ++ concat suffixes) = base.
Proof. intros Hb Hs. by apply strip_clones_loop. Qed.

(** ** Cold parts *)

Section merge.
Implicit Types (f g : TrapFrame * bool) (kept shown : list (TrapFrame * bool)).

Definition same_function f g : Prop := frame_function (fst f) = frame_function (fst g).

(** Two frames of one function follow each other only when neither is a cold part. *)
Fixpoint separate kept : Prop :=
  match kept with
  | f :: rest => match rest with g :: _ => same_function f g -> snd f = false /\ snd g = false | [] => True end /\ separate rest
  | [] => True
  end.

Definition hot kept : list (TrapFrame * bool) := filter (fun f => snd f = false) kept.

Record merged kept shown : Prop := {
  merged_separate : separate kept;
  merged_sublist : kept `sublist_of` shown;
  merged_hot : hot kept = hot shown;
  merged_functions f : f ∈ shown -> exists g, g ∈ kept /\ same_function f g }.

Lemma merged_nil : merged [] [].
Proof. split; [done..|]. by intros f ?%elem_of_nil. Qed.

Lemma merge_step kept shown f : merged kept shown -> merged (merge_frame kept f) (f :: shown).
Proof.
  intros [Hs Hsub Hh Hf]. destruct f as [f cold_f]. destruct kept as [|[g cold_g] rest]; cbn [merge_frame].
  { split; [done|by apply sublist_skip|unfold hot in *; rewrite !filter_cons; by destruct cold_f; cbn; rewrite <- Hh|].
    intros h [->|Hin]%elem_of_cons; [by exists (f, cold_f); split; [apply list_elem_of_here|]|].
    destruct (Hf h Hin) as (k & ?%elem_of_nil & _). done. }
  destruct (bool_decide_reflect (frame_function g = frame_function f)) as [E|E]; cbn [andb].
  2: { split; [cbn; split; [intros H; destruct E; symmetry; exact H|done]|by apply sublist_skip|unfold hot in *; rewrite !filter_cons in *; by rewrite <- Hh|].
       intros h [->|(k & Hk & Hhk)%Hf]%elem_of_cons; [by exists (f, cold_f); split; [apply list_elem_of_here|]|].
       exists k. split; [by apply list_elem_of_further|done]. }
  destruct cold_f; cbn [orb].
  - split; [done|by apply sublist_cons|done|].
    intros h [->|(k & Hk & Hhk)%Hf]%elem_of_cons; [|by exists k]. exists (g, cold_g). by split; [apply list_elem_of_here|].
  - destruct cold_g.
    + split.
      * destruct Hs as [Hg Hs]. cbn. split; [|done]. destruct rest as [|[h cold_h] rest]; [done|].
        unfold same_function in *. cbn in *. intros Efh. destruct Hg as [? _]; [congruence|done].
      * apply sublist_skip. etransitivity; [|exact Hsub]. by apply sublist_cons.
      * unfold hot in *. rewrite !filter_cons in *. cbn in *. by rewrite <- Hh.
      * intros h [->|(k & [->|Hk]%elem_of_cons & Hhk)%Hf]%elem_of_cons; [by exists (f, false); split; [apply list_elem_of_here|]|..].
        -- exists (f, false). split; [apply list_elem_of_here|]. unfold same_function in *. cbn in *. congruence.
        -- exists k. split; [by apply list_elem_of_further|done].
    + split; [done|by apply sublist_skip|unfold hot in *; rewrite !filter_cons in *; by rewrite <- Hh|].
      intros h [->|(k & Hk & Hhk)%Hf]%elem_of_cons; [by exists (f, false); split; [apply list_elem_of_here|]|].
      exists k. split; [by apply list_elem_of_further|done].
Qed.

Lemma merge_all shown : merged (foldl merge_frame [] shown) (reverse shown).
Proof.
  induction shown as [|f shown IH] using rev_ind; [apply merged_nil|].
  rewrite foldl_app, reverse_app. cbn. by apply merge_step.
Qed.

Lemma separate_snoc kept f : separate kept ->
  (forall g, list.last kept = Some g -> same_function f g -> snd f = false /\ snd g = false) -> separate (kept ++ [f]).
Proof.
  induction kept as [|g kept IH]; intros Hs Hl; [done|]. destruct kept as [|h kept].
  - cbn. split; [|done]. intros E. destruct (Hl g eq_refl); [by symmetry|done].
  - cbn in Hs. destruct Hs as [Hg Hs]. change (separate (g :: (h :: kept) ++ [f])). cbn [separate app]. split; [done|].
    apply IH; [done|]. intros k Hk. apply Hl. by rewrite last_cons, Hk.
Qed.

Lemma separate_reverse kept : separate kept -> separate (reverse kept).
Proof.
  induction kept as [|f kept IH]; intros Hs; [done|]. rewrite reverse_cons. cbn in Hs. destruct Hs as [Hf Hs].
  apply separate_snoc; [by apply IH|]. intros g. rewrite last_reverse. destruct kept as [|h kept]; [done|]. by intros [= ->].
Qed.

Lemma sublist_reverse {A} (l k : list A) : l `sublist_of` k -> reverse l `sublist_of` reverse k.
Proof. intros Hs. induction Hs; rewrite ?reverse_cons; [done|by apply sublist_app|by apply sublist_inserts_r]. Qed.

Lemma merged_reverse kept shown : merged kept (reverse shown) -> merged (reverse kept) shown.
Proof.
  intros [Hs Hsub Hh Hf]. split.
  - by apply separate_reverse.
  - rewrite <- (reverse_involutive shown). by apply sublist_reverse.
  - unfold hot in *. by rewrite filter_reverse, Hh, filter_reverse, reverse_involutive.
  - intros f Hin. destruct (Hf f) as (g & Hg & E); [by apply elem_of_reverse|]. exists g. by rewrite elem_of_reverse.
Qed.
End merge.

(** ** The report as a value *)

Definition frame_value (frame : TrapFrame) : Json :=
  Json_Object (opt_member "function" text_value (frame_function frame) ++ opt_member "path" text_value (frame_path frame) ++
    opt_member "line" number_value (frame_line frame) ++ opt_member "column" number_value (frame_column frame) ++
    [(txt "address", Json_String (txt "0x" ++ hex (uval (frame_address frame))))]).

Definition trap_value (report : TrapReport) : Json :=
  Json_Object ([(txt "kind", text_value (report_kind report)); (txt "site", number_value (report_site report));
    (txt "frames", Json_Array (frame_value <$> report_frames report))] ++
    (if report_truncated report then [(txt "truncated", Json_Bool true)] else [])).


Lemma address_bytes n : Forall (fun b => plain b /\ (uval b < 0x80)%N) (txt "0x" ++ hex n).
Proof.
  apply Forall_app. split; [by repeat constructor|]. apply digits_of_all; [lia| |done]. intros d Hd.
  assert (forallb (fun d => bool_decide (plain (hex_digit d) /\ (uval (hex_digit d) < 0x80)%N)) (N.of_nat <$> seq 0 16) = true) as Hall by by vm_compute.
  rewrite forallb_forall in Hall. specialize (Hall d). rewrite bool_decide_eq_true in Hall.
  apply Hall, in_map_iff. exists (N.to_nat d). split; [by rewrite N2Nat.id|]. apply in_seq. lia.
Qed.

Lemma hex_string n : json_string (txt "0x" ++ hex n) = DQ ++ (txt "0x" ++ hex n) ++ DQ.
Proof. pose proof (address_bytes n) as Hb. apply list.Forall_and in Hb as [Hp Ha]. by apply json_string_plain. Qed.

Lemma frame_json_text frame : frame_json frame = json_text (frame_value frame).
Proof.
  unfold frame_value. rewrite !app_assoc, object_snoc, !commas_app, !commas_opt by (vm_compute; reflexivity).
  rewrite member_key by (vm_compute; reflexivity). cbn [json_text]. rewrite hex_string. unfold frame_json. by rewrite <- !app_assoc.
Qed.

(** [TrapReport::json] writes the value of the report. *)
Lemma trap_json_text report : trap_json report = json_text (trap_value report).
Proof.
  unfold trap_value. cbn [app]. rewrite object_cons. change (?a :: ?b :: ?l) with ([a; b] ++ l). rewrite more_app.
  rewrite !member_key by (vm_compute; reflexivity). unfold more_members. cbn [fmap list_fmap concat]. 
  rewrite !member_key by (vm_compute; reflexivity). unfold trap_json. 
  assert (json_text (Json_Array (frame_value <$> report_frames report)) = txt "[" ++ join (txt ",") (frame_json <$> report_frames report) ++ txt "]") as E.
  { cbn [json_text]. do 3 f_equal. rewrite <- list_fmap_compose. apply list_fmap_ext. intros i f _. symmetry. apply frame_json_text. }
  rewrite E. destruct (report_truncated report); cbn [fmap list_fmap concat]; rewrite ?member_key by (vm_compute; reflexivity); 
    rewrite <- ?app_assoc; done.
Qed.

Lemma frame_valid frame : json_valid (frame_value frame).
Proof.
  apply json_valid_object. repeat (apply Forall_app; split); try (apply opt_valid; [done|]; intros a; first [apply text_valid|by apply number_valid]).
  constructor; [|done]. split; [done|]. pose proof (address_bytes (uval (frame_address frame))) as Hb.
  apply list.Forall_and in Hb as [_ Ha]. by apply ascii_valid.
Qed.

Lemma trap_valid report : json_valid (trap_value report).
Proof.
  apply json_valid_object. apply Forall_app. split; [|by destruct (report_truncated report); repeat constructor].
  repeat (constructor; [split; [done|first [apply text_valid|by apply number_valid|idtac]]|]); [|done].
  apply json_valid_array, Forall_fmap, list.Forall_forall. intros f _. apply frame_valid.
Qed.
