(* ===== verification/Report.v ===== *)
(** * Diagnostics

    [src/src/diagnostic.rs]: the data of a diagnostic and its builders, the rendered text and the JSON, the collector and
    the set that is reported. A [&'static str] is a [RString]; [render_with] is [None] where a subtraction would panic. *)
From Stdlib Require Import Ascii.
From stdpp Require Import list strings.
From S2P Require Import Prelude Wire Utf8 Syntax Kinds Json Ordered Render Trap.
Local Open Scope nat_scope.

Definition MAX_REPORTED_ERRORS : nat := 50.
Definition MAX_UNIQUE_DIAGNOSTICS : nat := 1000.
Definition MAX_RELATED : nat := 16.
Definition MAX_FIXES : nat := 8.
Definition MAX_EDITS : nat := 64.
Definition MAX_CANDIDATES : nat := 10.
Definition MAX_SCOPE : nat := 32.

(** ** The data *)

Inductive RelatedRole :=
| MovedHere | BorrowedHere | BorrowUsedHere | DeclaredHere | ExpectedBecause | FirstDefinedHere | ViaCall | RequiredBy
| RelatedRole_Note.

Definition role_str (role : RelatedRole) : string :=
  match role with
  | MovedHere => "moved_here"
  | BorrowedHere => "borrowed_here"
  | BorrowUsedHere => "borrow_used_here"
  | DeclaredHere => "declared_here"
  | ExpectedBecause => "expected_because"
  | FirstDefinedHere => "first_defined_here"
  | ViaCall => "via_call"
  | RequiredBy => "required_by"
  | RelatedRole_Note => "note"
  end.

Inductive Applicability := Certain | Likely | Maybe.

Definition applicability_str (applicability : Applicability) : string :=
  match applicability with Certain => "certain" | Likely => "likely" | Maybe => "maybe" end.

Record Related := mk_Related {
  Related_role : RelatedRole;
  Related_message : RString;
  Related_span : Span }.

Record Fix := mk_Fix {
  Fix_title : RString;
  Fix_applicability : Applicability;
  Fix_edits : list Edit }.

Record Candidate := mk_Candidate {
  Candidate_name : RString;
  Candidate_signature : RString;
  Candidate_how : RString }.

Record ScopeEntry := mk_ScopeEntry {
  ScopeEntry_name : RString;
  ScopeEntry_ty : RString }.

Record Detail := mk_Detail {
  Detail_expected : option RString;
  Detail_found : option RString;
  Detail_candidates : list Candidate;
  Detail_scope : list ScopeEntry;
  Detail_builtin : option (RString * Span) }.

Definition Detail_default : Detail := mk_Detail None None [] [] None.

Record DiagnosticData := mk_DiagnosticData {
  d_severity : Severity;
  d_code : RString;
  d_message : RString;
  d_span : Span;
  d_kind : option RString;
  d_related : list Related;
  d_help : option RString;
  d_fixes : list Fix;
  d_detail : Detail;
  d_trap : option TrapReport }.

(** ** Builders *)

Module Diagnostic.

Definition build (severity : Severity) (code : RString) (kind : option RString) (message : RString) (span : Span) : DiagnosticData :=
  mk_DiagnosticData severity code message span kind [] None [] Detail_default None.

(** [Diagnostic::of] *)
Definition of_kind (kind : DiagnosticKind) (message : RString) (span : Span) : DiagnosticData :=
  build (severity kind) (str (kind_code kind)) (Some (str (kind_id kind))) message span.

Definition recode (kind : DiagnosticKind) (d : DiagnosticData) : DiagnosticData :=
  mk_DiagnosticData (severity kind) (str (kind_code kind)) (d_message d) (d_span d) (Some (str (kind_id kind)))
    (d_related d) (d_help d) (d_fixes d) (d_detail d) (d_trap d).

Definition string_of (s : RString) : string :=
  String.string_of_list_ascii ((fun b => Ascii.ascii_of_N (uval b)) <$> as_bytes s).

Definition kind_of (d : DiagnosticData) : option DiagnosticKind := kind ← d_kind d; from_id (string_of kind).

Definition with_kind (kind : RString) (d : DiagnosticData) : DiagnosticData :=
  mk_DiagnosticData (d_severity d) (d_code d) (d_message d) (d_span d) (Some kind) (d_related d) (d_help d) (d_fixes d)
    (d_detail d) (d_trap d).

Definition add_related (role : RelatedRole) (message : RString) (span : Span) (d : DiagnosticData) : DiagnosticData :=
  if length (d_related d) <? MAX_RELATED then
    mk_DiagnosticData (d_severity d) (d_code d) (d_message d) (d_span d) (d_kind d)
      (d_related d ++ [mk_Related role message span]) (d_help d) (d_fixes d) (d_detail d) (d_trap d)
  else d.

Definition with_trap (report : TrapReport) (d : DiagnosticData) : DiagnosticData :=
  mk_DiagnosticData (d_severity d) (d_code d) (d_message d) (d_span d) (d_kind d) (d_related d) (d_help d) (d_fixes d)
    (d_detail d) (Some report).

Definition with_help (help : RString) (d : DiagnosticData) : DiagnosticData :=
  mk_DiagnosticData (d_severity d) (d_code d) (d_message d) (d_span d) (d_kind d) (d_related d) (Some help) (d_fixes d)
    (d_detail d) (d_trap d).

(** [Diagnostic::fix] *)
Definition add_fix (title : RString) (applicability : Applicability) (edits : list Edit) (d : DiagnosticData) : DiagnosticData :=
  if (length (d_fixes d) <? MAX_FIXES) && negb (bool_decide (length edits = 0)) && (length edits <=? MAX_EDITS) then
    mk_DiagnosticData (d_severity d) (d_code d) (d_message d) (d_span d) (d_kind d) (d_related d) (d_help d)
      (d_fixes d ++ [mk_Fix title applicability edits]) (d_detail d) (d_trap d)
  else d.

Definition with_detail (detail : Detail) (d : DiagnosticData) : DiagnosticData :=
  mk_DiagnosticData (d_severity d) (d_code d) (d_message d) (d_span d) (d_kind d) (d_related d) (d_help d) (d_fixes d)
    detail (d_trap d).

Definition expected_found (expected found : RString) (d : DiagnosticData) : DiagnosticData :=
  with_detail (mk_Detail (Some expected) (Some found) (Detail_candidates (d_detail d)) (Detail_scope (d_detail d))
    (Detail_builtin (d_detail d))) d.

Definition with_candidates (candidates : list Candidate) (d : DiagnosticData) : DiagnosticData :=
  with_detail (mk_Detail (Detail_expected (d_detail d)) (Detail_found (d_detail d)) (take MAX_CANDIDATES candidates)
    (Detail_scope (d_detail d)) (Detail_builtin (d_detail d))) d.

Definition with_scope (scope : list ScopeEntry) (d : DiagnosticData) : DiagnosticData :=
  with_detail (mk_Detail (Detail_expected (d_detail d)) (Detail_found (d_detail d)) (Detail_candidates (d_detail d))
    (take MAX_SCOPE scope) (Detail_builtin (d_detail d))) d.

(** ** Rendering *)

Section render.
Context (d : DiagnosticData) (path source : RString) (lookup : usize -> option (RString * RString)).

(** The path and text of the source that a span is in. *)
Definition with_source {T} (span : Span) (use_source : RString -> RString -> T) : option T :=
  match Span_source span with
  | None => Some (use_source path source)
  | Some index =>
    if bool_decide (Span_source span = Span_source (d_span d)) then Some (use_source path source)
    else '(path, source) ← lookup index; Some (use_source path source)
  end.

Definition fix_resolves (fix_ : Fix) : bool :=
  forallb (fun edit => match with_source (Edit_span edit) (fun _ _ => tt) with Some _ => true | None => false end) (Fix_edits fix_).

(** The text of a related location in its source. *)
Definition render_note (related : Related) (path source : RString) : option (list u8) :=
  let '(line, column) := location source (Span_start (Related_span related)) in
  write_quote (EOL ++ txt "  note: " ++ as_bytes (Related_message related) ++ EOL ++ txt "    --> " ++ as_bytes path ++ txt ":" ++
    number line ++ txt ":" ++ number column) source line column.

Definition render_related (output : option (list u8)) (related : Related) : option (list u8) :=
  output ← output;
  match with_source (Related_span related) (render_note related) with
  | Some note => note ← note; Some (output ++ note)
  | None => Some output
  end.

Definition render_fix (fix_ : Fix) : list u8 :=
  if fix_resolves fix_ then
    EOL ++ txt "  fix (" ++ txt (applicability_str (Fix_applicability fix_)) ++ txt "): " ++ as_bytes (Fix_title fix_)
  else [].

Definition render_with (severity : RString) : option (list u8) :=
  let '(line, column) := location source (Span_start (d_span d)) in
  output ← write_quote (as_bytes path ++ txt ":" ++ number line ++ txt ":" ++ number column ++ txt ": " ++ as_bytes severity ++
    txt "[" ++ as_bytes (d_code d) ++ txt "]: " ++ as_bytes (d_message d)) source line column;
  let output := output ++ match d_trap d with Some trap => concat ((fun line => EOL ++ line) <$> trap_lines trap) | None => [] end in
  output ← foldl render_related (Some output) (d_related d);
  let output := output ++ match d_help d with Some help => EOL ++ txt "  help: " ++ as_bytes help | None => [] end in
  Some (output ++ concat (render_fix <$> d_fixes d)).

(** ** JSON *)

Definition related_json (related : Related) (path source : RString) : list u8 :=
  txt "{" ++ key "role" ++ json_string (txt (role_str (Related_role related))) ++ txt "," ++
  key "message" ++ json_string (as_bytes (Related_message related)) ++ txt "," ++
  key "path" ++ json_string (as_bytes path) ++ txt "," ++ key "span" ++ span_json source (Related_span related) ++ txt "}".

Definition candidate_json (candidate : Candidate) : list u8 :=
  txt "{" ++ key "name" ++ json_string (as_bytes (Candidate_name candidate)) ++ txt "," ++
  key "signature" ++ json_string (as_bytes (Candidate_signature candidate)) ++ txt "," ++
  key "how" ++ json_string (as_bytes (Candidate_how candidate)) ++ txt "}".

Definition scope_json (entry : ScopeEntry) : list u8 :=
  txt "{" ++ key "name" ++ json_string (as_bytes (ScopeEntry_name entry)) ++ txt "," ++
  key "type" ++ json_string (as_bytes (ScopeEntry_ty entry)) ++ txt "}".

Definition edit_json (edit : Edit) (path source : RString) : list u8 :=
  txt "{" ++ key "path" ++ json_string (as_bytes path) ++ txt "," ++ key "span" ++ span_json source (Edit_span edit) ++ txt "," ++
  key "text" ++ json_string (as_bytes (Edit_text edit)) ++ txt "}".

Definition fix_json (fix_ : Fix) : list u8 :=
  let edits := omap (fun edit => with_source (Edit_span edit) (edit_json edit)) (Fix_edits fix_) in
  txt "{" ++ key "title" ++ json_string (as_bytes (Fix_title fix_)) ++ txt "," ++
  key "applicability" ++ json_string (txt (applicability_str (Fix_applicability fix_))) ++ txt "," ++
  key "edits" ++ txt "[" ++ join (txt ",") edits ++ txt "]" ++ txt "}".

(** A member with an array, left out when the array is empty. *)
Definition json_array (name : string) (items : list (list u8)) : list u8 :=
  if bool_decide (length items = 0) then [] else txt "," ++ key name ++ txt "[" ++ join (txt ",") items ++ txt "]".

Definition json_with (severity : RString) : list u8 :=
  let string (name : string) (value : option RString) :=
    match value with Some value => txt "," ++ key name ++ json_string (as_bytes value) | None => [] end in
  txt "{" ++ key "severity" ++ json_string (as_bytes severity) ++ txt "," ++ key "code" ++ json_string (as_bytes (d_code d)) ++
  txt "," ++ key "message" ++ json_string (as_bytes (d_message d)) ++ txt "," ++ key "path" ++ json_string (as_bytes path) ++
  txt "," ++ key "span" ++ span_json source (d_span d) ++
  string "kind" (d_kind d) ++
  json_array "related" (omap (fun related => with_source (Related_span related) (related_json related)) (d_related d)) ++
  string "help" (d_help d) ++
  string "expected" (Detail_expected (d_detail d)) ++
  string "found" (Detail_found (d_detail d)) ++
  json_array "candidates" (candidate_json <$> Detail_candidates (d_detail d)) ++
  json_array "scope" (scope_json <$> Detail_scope (d_detail d)) ++
  json_array "fixes" (fix_json <$> filter (fun fix_ => fix_resolves fix_ = true) (d_fixes d)) ++
  match d_trap d with Some trap => txt "," ++ key "trap" ++ trap_json trap | None => [] end ++ txt "}".
End render.

Definition no_lookup (_ : usize) : option (RString * RString) := None.

Definition render (d : DiagnosticData) (path source : RString) : option (list u8) :=
  render_with d path source no_lookup (str (severity_str (d_severity d))).

Definition json (d : DiagnosticData) (path source : RString) : list u8 :=
  json_with d path source no_lookup (str (severity_str (d_severity d))).
End Diagnostic.

(** ** The collector *)

#[export] Instance Severity_eq_dec : EqDecision Severity.
Proof. solve_decision. Defined.

(** [Error] comes before [Warning]. *)
Definition severity_number (severity : Severity) : N := match severity with Severity_Error => 0 | Severity_Warning => 1 end.
#[export] Instance severity_number_inj : Inj (=) (=) severity_number.
Proof. by intros [] []. Qed.
#[export] Instance Severity_ordered : Ordered Severity := fun s t => compare (severity_number s) (severity_number t).
#[export] Instance Severity_ordered_laws : OrderedLaws Severity.
Proof. exact (ordered_by severity_number). Qed.

(** Source, start, end, severity, code and message. *)
Abbreviation DiagnosticKey := (usize * usize * usize * Severity * RString * RString)%type.

Record DiagnosticSet := mk_DiagnosticSet {
  diagnostics : list DiagnosticData;
  omitted : nat;
  omitted_is_lower_bound : bool;
  counts : list (Severity * RString * nat) }.

Module Diagnostics.

Record Diagnostics := mk_Diagnostics {
  entries : list (DiagnosticKey * DiagnosticData);
  root : usize }.

Definition new (root : usize) : Diagnostics := mk_Diagnostics [] root.

Definition is_full (c : Diagnostics) : bool := MAX_UNIQUE_DIAGNOSTICS <=? length (entries c).

Definition diagnostic_key (root : usize) (d : DiagnosticData) : DiagnosticKey :=
  (default root (Span_source (d_span d)), Span_start (d_span d), Span_end (d_span d), d_severity d, d_code d, d_message d).

Definition push (d : DiagnosticData) (c : Diagnostics) : Diagnostics :=
  if is_full c then c else mk_Diagnostics (map_or_insert (diagnostic_key (root c) d) d (entries c)) (root c).

Fixpoint extend (ds : list DiagnosticData) (c : Diagnostics) : Diagnostics :=
  match ds with
  | [] => c
  | d :: ds => let c := push d c in if is_full c then c else extend ds c
  end.

Definition is_error (d : DiagnosticData) : bool := bool_decide (d_severity d = Severity_Error).

(** The error that [check] returns; [None] is [Ok(())]. *)
Definition check (c : Diagnostics) : option DiagnosticData := head (filter (fun d => is_error d = true) (snd <$> entries c)).

(** [*counts.entry(..).or_insert(0) += 1] *)
Definition count_one (counts : list (Severity * RString * nat)) (d : DiagnosticData) : list (Severity * RString * nat) :=
  map_insert (d_severity d, d_code d) (default 0 (map_get (d_severity d, d_code d) counts) + 1) counts.

Definition finish (c : Diagnostics) : DiagnosticSet :=
  mk_DiagnosticSet (take MAX_REPORTED_ERRORS (snd <$> entries c)) (length (entries c) - MAX_REPORTED_ERRORS) (is_full c)
    (foldl count_one [] (snd <$> entries c)).

Definition into_vec (c : Diagnostics) : list DiagnosticData := snd <$> entries c.
End Diagnostics.

Definition from_diagnostics (ds : list DiagnosticData) (root : usize) : DiagnosticSet :=
  Diagnostics.finish (Diagnostics.extend ds (Diagnostics.new root)).

Definition first (set : DiagnosticSet) : option DiagnosticData := head (diagnostics set).

Definition omission_note (set : DiagnosticSet) : option (list u8) :=
  if omitted set =? 0 then None
  else
    let is_warning d := bool_decide (d_severity d = Severity_Warning) in
    Some ((if omitted_is_lower_bound set then txt "at least " else []) ++ number (omitted set) ++ txt " more " ++
      (if forallb is_warning (diagnostics set) then txt "warnings"
       else if existsb is_warning (diagnostics set) then txt "diagnostics" else txt "errors") ++ txt " not shown").
