(* ===== verification/ReportLaws.v ===== *)
(** * Laws of diagnostics

    The JSON of a diagnostic is the text of a value; rendering never panics; what the collector holds. *)
From Stdlib Require Import Ascii Sorted.
From stdpp Require Import list strings.
From S2P Require Import Prelude Wire Utf8 Syntax Kinds Json JsonLaws Ordered Render RenderLaws Trap.
From S2P Require Import TrapLaws Report.
Local Open Scope nat_scope.

(** ** The value that a diagnostic is written as *)

Definition nat_value (n : nat) : Json := Json_Number (number n).
Definition literal_value (s : string) : Json := Json_String (txt s).

Definition span_value (source : RString) (span : Span) : Json :=
  let '(line, column) := location source (Span_start span) in
  let '(end_line, end_column) := location source (Span_end span) in
  Json_Object [(txt "start", number_value (Span_start span)); (txt "end", number_value (Span_end span));
    (txt "line", nat_value line); (txt "column", nat_value column);
    (txt "end_line", nat_value end_line); (txt "end_column", nat_value end_column)].

(** A text that fits in memory. *)
Definition fits (source : RString) : Prop := (N.of_nat (length (as_bytes source)) < 2 ^ 63)%N.

Lemma chars_length fuel bs : length (chars fuel bs) <= fuel.
Proof. revert bs. induction fuel as [|fuel IH]; intros bs; [done|]. cbn. destruct (first_char bs) as [[c l]|]; cbn; [specialize (IH (drop l bs)); lia|lia]. Qed.

Lemma split_piece_length c bs piece : piece ∈ split_on c bs -> length piece <= length bs.
Proof.
  revert piece. induction bs as [|b bs IH]; intros piece; cbn; [by intros ->%list_elem_of_singleton|].
  pose proof (split_on_nonempty c bs) as Hne. destruct (is_char b c).
  - intros [->|Hin%IH]%elem_of_cons; cbn; lia.
  - destruct (split_on c bs) as [|p ps]; [done|]. intros [->|Hin]%elem_of_cons; cbn.
    + specialize (IH p (list_elem_of_here _ _)). lia.
    + specialize (IH piece (list_elem_of_further _ _ _ Hin)). lia.
Qed.

Lemma location_bound source offset : fits source ->
  (N.of_nat (fst (location source offset)) < 2 ^ 64)%N /\ (N.of_nat (snd (location source offset)) < 2 ^ 64)%N.
Proof.
  unfold fits, location. set (offset' := floor_boundary _ _). set (prefix := take offset' (as_bytes source)). intros Hf. cbn [fst snd].
  assert (length prefix <= length (as_bytes source)) as Hp by (unfold prefix; rewrite length_take; lia).
  assert (count_newlines prefix <= length prefix) as Hc by apply length_filter.
  assert (length (characters (default [] (list.last (split_on LF prefix)))) <= length prefix) as Hl.
  { etransitivity; [apply chars_length|]. destruct (list.last (split_on LF prefix)) as [p|] eqn:E; [|cbn; lia].
    apply last_Some in E as [l E]. apply (split_piece_length LF). rewrite E. apply elem_of_app. right. by apply list_elem_of_singleton. }
  lia.
Qed.

Ltac members :=
  apply json_valid_object; repeat (apply list.Forall_cons_2; [split; [done|cbn [snd]; try apply text_valid]|]); try apply list.Forall_nil_2.

Ltac literals := repeat rewrite member_key by (vm_compute; reflexivity).

Ltac object :=
  rewrite object_cons; unfold more_members; cbn [fmap list_fmap concat]; literals; cbn [json_text]; rewrite <- ?app_assoc.

Lemma span_json_text source span : span_json source span = json_text (span_value source span).
Proof.
  unfold span_json, span_value. destruct (location source (Span_start span)) as [line column].
  destruct (location source (Span_end span)) as [end_line end_column]. object. unfold nat_value, number_value. done.
Qed.

Section value.
Context (d : DiagnosticData) (path source : RString) (lookup : usize -> option (RString * RString)).

Definition related_value (related : Related) (path source : RString) : Json :=
  Json_Object [(txt "role", literal_value (role_str (Related_role related))); (txt "message", text_value (Related_message related));
    (txt "path", text_value path); (txt "span", span_value source (Related_span related))].

Definition candidate_value (candidate : Candidate) : Json :=
  Json_Object [(txt "name", text_value (Candidate_name candidate)); (txt "signature", text_value (Candidate_signature candidate));
    (txt "how", text_value (Candidate_how candidate))].

Definition scope_value (entry : ScopeEntry) : Json :=
  Json_Object [(txt "name", text_value (ScopeEntry_name entry)); (txt "type", text_value (ScopeEntry_ty entry))].

Definition edit_value (edit : Edit) (path source : RString) : Json :=
  Json_Object [(txt "path", text_value path); (txt "span", span_value source (Edit_span edit)); (txt "text", text_value (Edit_text edit))].

(** What is shown of a list of places: those in sources that are known. *)
Definition known {A} (span : A -> Span) (value : A -> RString -> RString -> Json) (items : list A) : list Json :=
  omap (fun item => Diagnostic.with_source d path source lookup (span item) (value item)) items.

Definition fix_value (fix_ : Fix) : Json :=
  Json_Object [(txt "title", text_value (Fix_title fix_)); (txt "applicability", literal_value (applicability_str (Fix_applicability fix_)));
    (txt "edits", Json_Array (known Edit_span edit_value (Fix_edits fix_)))].

(** A member for a list that is not empty. *)
Definition array_member (name : string) (items : list Json) : list (list u8 * Json) :=
  if bool_decide (length items = 0) then [] else [(txt name, Json_Array items)].

Definition diagnostic_value (severity : RString) : Json :=
  Json_Object ([(txt "severity", text_value severity); (txt "code", text_value (d_code d)); (txt "message", text_value (d_message d));
    (txt "path", text_value path); (txt "span", span_value source (d_span d))] ++
    opt_member "kind" text_value (d_kind d) ++
    array_member "related" (known Related_span related_value (d_related d)) ++
    opt_member "help" text_value (d_help d) ++
    opt_member "expected" text_value (Detail_expected (d_detail d)) ++
    opt_member "found" text_value (Detail_found (d_detail d)) ++
    array_member "candidates" (candidate_value <$> Detail_candidates (d_detail d)) ++
    array_member "scope" (scope_value <$> Detail_scope (d_detail d)) ++
    array_member "fixes" (fix_value <$> filter (fun fix_ => Diagnostic.fix_resolves d path source lookup fix_ = true) (d_fixes d)) ++
    opt_member "trap" trap_value (d_trap d)).

Lemma with_source_map {S T} (f : S -> T) span use_source :
  Diagnostic.with_source d path source lookup span (fun path source => f (use_source path source)) =
  f <$> Diagnostic.with_source d path source lookup span use_source.
Proof.
  unfold Diagnostic.with_source. destruct (Span_source span) as [index|]; [|done].
  case_bool_decide; [done|]. by destruct (lookup index) as [[]|].
Qed.

Lemma known_text {A} (span : A -> Span) (json : A -> RString -> RString -> list u8) value items :
  (forall item p s, json item p s = json_text (value item p s)) ->
  omap (fun item => Diagnostic.with_source d path source lookup (span item) (json item)) items = json_text <$> known span value items.
Proof.
  intros Hj. unfold known. induction items as [|item items IH]; [done|]. cbn.
  assert (Diagnostic.with_source d path source lookup (span item) (json item) =
    json_text <$> Diagnostic.with_source d path source lookup (span item) (value item)) as ->.
  { rewrite <- with_source_map. unfold Diagnostic.with_source. rewrite !Hj. destruct (Span_source (span item)) as [index|]; [|done].
    case_bool_decide; [done|]. destruct (lookup index) as [[p s]|]; [|done]. cbn. by rewrite Hj. }
  destruct (Diagnostic.with_source d path source lookup (span item) (value item)); cbn; by rewrite IH.
Qed.

Lemma related_text related p s : Diagnostic.related_json related p s = json_text (related_value related p s).
Proof. unfold Diagnostic.related_json, related_value. object. by rewrite span_json_text. Qed.

Lemma candidate_text candidate : Diagnostic.candidate_json candidate = json_text (candidate_value candidate).
Proof. unfold Diagnostic.candidate_json, candidate_value. by object. Qed.

Lemma scope_text entry : Diagnostic.scope_json entry = json_text (scope_value entry).
Proof. unfold Diagnostic.scope_json, scope_value. by object. Qed.

Lemma edit_text_json edit p s : Diagnostic.edit_json edit p s = json_text (edit_value edit p s).
Proof. unfold Diagnostic.edit_json, edit_value. object. by rewrite span_json_text. Qed.

Lemma fix_text fix_ : Diagnostic.fix_json d path source lookup fix_ = json_text (fix_value fix_).
Proof.
  unfold Diagnostic.fix_json, fix_value. object. by rewrite (known_text Edit_span Diagnostic.edit_json edit_value _ edit_text_json).
Qed.

Lemma more_array name items texts : literal name -> texts = json_text <$> items ->
  more_members (array_member name items) = Diagnostic.json_array name texts.
Proof.
  intros Hn ->. unfold array_member, Diagnostic.json_array. rewrite length_fmap. case_bool_decide; [done|].
  unfold more_members. cbn [fmap list_fmap concat]. rewrite member_key by done. cbn [json_text]. by rewrite <- ?app_assoc, app_nil_r.
Qed.

Lemma texts_of {A} (json : A -> list u8) (value : A -> Json) (items : list A) : (forall item, json item = json_text (value item)) ->
  json <$> items = json_text <$> (value <$> items).
Proof. intros Hj. rewrite <- list_fmap_compose. apply list_fmap_ext. intros i x _. apply Hj. Qed.

(** [json_with] writes the value. *)
Lemma json_with_text severity : Diagnostic.json_with d path source lookup severity = json_text (diagnostic_value severity).
Proof.
  unfold diagnostic_value. cbn [app]. rewrite object_cons.
  match goal with |- context [more_members (?a :: ?b :: ?c :: ?e :: ?rest)] => change (a :: b :: c :: e :: rest) with ([a; b; c; e] ++ rest) end.
  rewrite !more_app, !more_opt by (vm_compute; reflexivity).
  rewrite (more_array "related" _ _ ltac:(vm_compute; reflexivity) (known_text Related_span Diagnostic.related_json related_value (d_related d) related_text)).
  rewrite (more_array "candidates" _ (Diagnostic.candidate_json <$> Detail_candidates (d_detail d)) ltac:(vm_compute; reflexivity)
    (texts_of _ _ _ candidate_text)).
  rewrite (more_array "scope" _ (Diagnostic.scope_json <$> Detail_scope (d_detail d)) ltac:(vm_compute; reflexivity) (texts_of _ _ _ scope_text)).
  rewrite (more_array "fixes" _ (Diagnostic.fix_json d path source lookup <$>
    filter (fun fix_ => Diagnostic.fix_resolves d path source lookup fix_ = true) (d_fixes d)) ltac:(vm_compute; reflexivity) (texts_of _ _ _ fix_text)).
  unfold more_members. cbn [fmap list_fmap concat]. literals. rewrite <- span_json_text. unfold Diagnostic.json_with.
  destruct (d_trap d) as [trap|]; rewrite ?trap_json_text; cbn [json_text text_value]; by rewrite <- ?app_assoc.
Qed.

Lemma nat_valid n : (N.of_nat n < 2 ^ 64)%N -> json_valid (nat_value n).
Proof. intros Hn. apply dec_number. etransitivity; [exact Hn|done]. Qed.

(** Valid, when every text fits in memory. *)
Lemma span_valid s span : fits s -> json_valid (span_value s span).
Proof.
  intros Hf. unfold span_value. pose proof (location_bound s (Span_start span) Hf) as Hs. pose proof (location_bound s (Span_end span) Hf) as He.
  destruct (location s (Span_start span)) as [line column]. destruct (location s (Span_end span)) as [end_line end_column].
  cbn [fst snd] in *. destruct Hs, He. members; [by apply number_valid..|by apply nat_valid|by apply nat_valid|by apply nat_valid|by apply nat_valid].
Qed.

Lemma known_valid {A} (span : A -> Span) (value : A -> RString -> RString -> Json) items :
  fits source -> (forall index p s, lookup index = Some (p, s) -> fits s) ->
  (forall item p s, fits s -> json_valid (value item p s)) -> json_valid (Json_Array (known span value items)).
Proof.
  intros Hs Hl Hv. apply json_valid_array, list.Forall_forall. intros v (item & _ & Hw)%list_elem_of_omap.
  unfold Diagnostic.with_source in Hw. destruct (Span_source (span item)) as [index|]; [|injection Hw as <-; by apply Hv].
  case_bool_decide; [injection Hw as <-; by apply Hv|]. destruct (lookup index) as [[p s]|] eqn:E; [|done].
  injection Hw as <-. eapply Hv, Hl, E.
Qed.

Lemma related_valid related p s : fits s -> json_valid (related_value related p s).
Proof. intros Hs. members; [by destruct (Related_role related)|by apply span_valid]. Qed.

Lemma edit_valid edit p s : fits s -> json_valid (edit_value edit p s).
Proof. intros Hs. members. by apply span_valid. Qed.

Lemma array_member_valid name items : valid (txt name) -> Forall json_valid items ->
  Forall (fun m => valid (fst m) /\ json_valid (snd m)) (array_member name items).
Proof.
  intros Hn Hi. unfold array_member. case_bool_decide; [done|]. constructor; [|done]. split; [done|]. by apply json_valid_array.
Qed.

Lemma diagnostic_valid severity : fits source -> (forall index p s, lookup index = Some (p, s) -> fits s) ->
  json_valid (diagnostic_value severity).
Proof.
  intros Hs Hl. apply json_valid_object. repeat (apply Forall_app; split);
    first [by (apply opt_valid; [done|apply text_valid])|by (apply opt_valid; [done|apply trap_valid])|apply array_member_valid; [done|]|idtac].
  - apply json_valid_object. members. by apply span_valid.
  - apply json_valid_array, known_valid; [done..|]. apply related_valid.
  - apply Forall_fmap, list.Forall_forall. intros c _. cbn beta. members.
  - apply Forall_fmap, list.Forall_forall. intros c _. cbn beta. members.
  - apply Forall_fmap, list.Forall_forall. intros f _. cbn beta. members; [by destruct (Fix_applicability f)|].
    apply known_valid; [done..|]. apply edit_valid.
Qed.
End value.

(** ** Rendering *)

Section render.
Context (d : DiagnosticData) (path source : RString) (lookup : usize -> option (RString * RString)).

Lemma render_note_total related p s : is_Some (Diagnostic.render_note related p s).
Proof.
  unfold Diagnostic.render_note. pose proof (location_positive s (Span_start (Related_span related))) as [Hl Hc].
  destruct (location s _). by apply write_quote_total.
Qed.

Lemma render_related_total related output : is_Some (Diagnostic.render_related d path source lookup (Some output) related).
Proof.
  unfold Diagnostic.render_related. cbn [mbind option_bind]. unfold Diagnostic.with_source.
  assert (forall p s, is_Some (note ← Diagnostic.render_note related p s; Some (output ++ note))) as Hn.
  { intros p s. destruct (render_note_total related p s) as [n ->]. by eexists. }
  destruct (Span_source (Related_span related)) as [index|]; [|apply Hn].
  case_bool_decide; [apply Hn|]. destruct (lookup index) as [[p s]|]; [apply Hn|by eexists].
Qed.

Lemma render_all_total related output : is_Some (foldl (Diagnostic.render_related d path source lookup) (Some output) related).
Proof.
  revert output. induction related as [|r related IH]; intros output; [by eexists|]. cbn [foldl].
  by destruct (render_related_total r output) as [o ->].
Qed.
End render.

(** ** The collector *)

Import Diagnostics.

(** The first diagnostic of every key, for the keys that were not seen before. *)
Fixpoint firsts (root : usize) (seen : list DiagnosticKey) (ds : list DiagnosticData) : list (DiagnosticKey * DiagnosticData) :=
  match ds with
  | [] => []
  | d :: ds =>
    let k := diagnostic_key root d in
    if decide (k ∈ seen) then firsts root seen ds else (k, d) :: firsts root (k :: seen) ds
  end.

Lemma firsts_ext root seen seen' ds : (forall k, k ∈ seen <-> k ∈ seen') -> firsts root seen ds = firsts root seen' ds.
Proof.
  revert seen seen'. induction ds as [|d ds IH]; intros seen seen' Hs; [done|]. cbn.
  rewrite (decide_ext _ _ _ _ (Hs (diagnostic_key root d))). case_decide; [by apply IH|]. f_equal. apply IH.
  intros k. rewrite !elem_of_cons. by rewrite Hs.
Qed.

Record holds (root : usize) (c : Diagnostics) (found : list (DiagnosticKey * DiagnosticData)) : Prop := {
  holds_root : Diagnostics.root c = root;
  holds_ascending : ascending (entries c);
  holds_limit : length (entries c) <= MAX_UNIQUE_DIAGNOSTICS;
  holds_entries e : e ∈ entries c <-> e ∈ found }.

Lemma elem_of_fst {A B} (k : A) (l : list (A * B)) : k ∈ l.*1 <-> exists v, (k, v) ∈ l.
Proof.
  rewrite list_elem_of_fmap. split.
  - intros ([k' v] & -> & Hin). by exists v.
  - intros [v Hin]. by exists (k, v).
Qed.

Lemma extend_holds root ds c found : holds root c found -> length found = length (entries c) ->
  let more := take (MAX_UNIQUE_DIAGNOSTICS - length found) (firsts root (found.*1) ds) in
  holds root (extend ds c) (found ++ more) /\ length (found ++ more) = length (entries (extend ds c)).
Proof.
  revert c found. induction ds as [|d ds IH]; intros c found Hh Hl.
  { cbn. rewrite take_nil, app_nil_r. done. }
  destruct Hh as [Hr Ha Hm He]. cbn [extend]. set (k := diagnostic_key root d).
  assert (forall v, (k, v) ∈ entries c <-> (k, v) ∈ found) as Hek by (intros v; apply He).
  destruct (decide (length (entries c) = MAX_UNIQUE_DIAGNOSTICS)) as [Hfull|Hnot].
  { assert (is_full c = true) as Ef by (apply Nat.leb_le; lia). unfold push. rewrite Ef, Ef.
    replace (MAX_UNIQUE_DIAGNOSTICS - length found) with 0 by lia. cbn zeta. rewrite take_0, app_nil_r. by split. }
  assert (is_full c = false) as Ef by (apply Nat.leb_gt; lia). unfold push. rewrite Ef, Hr. fold k.
  cbn [firsts]. fold k. destruct (decide (k ∈ found.*1)) as [Hin|Hno].
  - assert (map_or_insert k d (entries c) = entries c) as ->.
    { apply elem_of_fst in Hin as [v Hv%Hek%map_get_Some]; [|done]. unfold map_or_insert. by rewrite Hv. }
    assert (mk_Diagnostics (entries c) root = c) as -> by (rewrite <- Hr; by destruct c). rewrite Ef. by apply IH.
  - assert (map_get k (entries c) = None) as Hn.
    { apply map_get_None; [done|]. intros v Hv%Hek. apply Hno, elem_of_fst. by exists v. }
    unfold map_or_insert. rewrite Hn. set (c' := mk_Diagnostics (map_insert k d (entries c)) root).
    assert (length (entries c') = S (length (entries c))) as Hl' by (apply length_map_insert; done).
    assert (holds root c' (found ++ [(k, d)])) as Hh'.
    { split; [done|by apply map_insert_ascending|lia|]. intros e. cbn [entries c']. rewrite elem_of_map_insert, elem_of_app, list_elem_of_singleton, <- He by done.
      split; [naive_solver|]. intros [Hin| ->]; [|by left]. right. split; [done|]. intros Hk. apply Hno, elem_of_fst. exists (snd e).
      apply He. rewrite <- Hk. by destruct e. }
    replace (MAX_UNIQUE_DIAGNOSTICS - length found) with (S (MAX_UNIQUE_DIAGNOSTICS - length (found ++ [(k, d)]))) by (rewrite length_app; cbn [length]; lia).
    cbn [take]. change (found ++ (k, d) :: ?l) with (found ++ [(k, d)] ++ l). rewrite app_assoc.
    destruct (decide (length (entries c') = MAX_UNIQUE_DIAGNOSTICS)) as [Hf'|Hnf].
    + assert (is_full c' = true) as -> by (apply Nat.leb_le; lia).
      replace (MAX_UNIQUE_DIAGNOSTICS - length (found ++ [(k, d)])) with 0 by (rewrite length_app; cbn [length]; lia). rewrite take_0, app_nil_r.
      split; [done|]. rewrite length_app. cbn [length]. lia.
    + assert (is_full c' = false) as -> by (apply Nat.leb_gt; lia).
      rewrite (firsts_ext root (k :: found.*1) ((found ++ [(k, d)]).*1)).
      * apply IH; [done|]. rewrite length_app. cbn [length]. lia.
      * intros k'. rewrite fmap_app, elem_of_app, elem_of_cons. cbn. rewrite list_elem_of_singleton. tauto.
Qed.

(** Counting the diagnostics of every severity and code. *)
Definition of_code (k : Severity * RString) (d : DiagnosticData) : Prop := (d_severity d, d_code d) = k.
#[export] Instance of_code_dec k d : Decision (of_code k d).
Proof. unfold of_code. apply _. Defined.

Lemma counts_spec ds m : ascending m -> ascending (foldl count_one m ds) /\
  forall k, default 0 (map_get k (foldl count_one m ds)) = default 0 (map_get k m) + length (filter (of_code k) ds).
Proof.
  revert m. induction ds as [|d ds IH]; intros m Hm; cbn [foldl]; [split; [done|intros k; cbn; lia]|].
  destruct (IH (count_one m d)) as [Ha Hk]; [by apply map_insert_ascending|]. split; [done|]. intros k. rewrite Hk.
  unfold count_one. rewrite map_get_insert by done. rewrite filter_cons.
  destruct (decide (of_code k d)) as [<-|Hne]; [rewrite decide_True by done; cbn [default length]; unfold id; lia|].
  rewrite decide_False; [done|]. intros ->. by apply Hne.
Qed.

Lemma extend_new root ds : let found := take MAX_UNIQUE_DIAGNOSTICS (firsts root [] ds) in
  holds root (extend ds (new root)) found /\ length (entries (extend ds (new root))) = length found.
Proof.
  destruct (extend_holds root ds (new root) []) as [Hh Hl]; [|done|].
  - split; [done|constructor|cbn [entries new length]; lia|done].
  - cbn [length] in *. rewrite Nat.sub_0_r in *. cbn [app fmap list_fmap] in *. split; [done|]. by rewrite Hl.
Qed.
