(* ===== verification/TrapSites.v ===== *)
(** * Sites of traps

    The sites of [src/src/trap.rs]: their messages and the side table that maps a site to its source. *)
From Stdlib Require Import Ascii.
From stdpp Require Import list strings.
From S2P Require Import Prelude Wire Utf8 Syntax Kinds Json Render Trap Report.
Local Open Scope nat_scope.

Record TrapSource := mk_TrapSource {
  source_path : RString;
  source_text : RString }.

Record TrapSite := mk_TrapSite {
  site_id : u32;
  site_kind : TrapKind;
  site_span : Span }.

(** The two offsets of a span are boundaries of the text, in order. *)
Definition span_in_text (text : list u8) (span : Span) : bool :=
  let start := uval (Span_start span) in
  let end_ := uval (Span_end span) in
  if (start <=? end_)%N && (end_ <=? N.of_nat (length text))%N then
    is_char_boundary text (N.to_nat start) && is_char_boundary text (N.to_nat end_)
  else false.

Definition usize_zero : usize := uint_wrap 64 0.

(** [slice.get(index)] *)
Definition slice_get {A} (l : list A) (index : usize) : option A :=
  if (uval index <? N.of_nat (length l))%N then l !! N.to_nat (uval index) else None.

Definition site_source (site : TrapSite) (sources : list TrapSource) : Result TrapSource DiagnosticData :=
  match slice_get sources (default usize_zero (Span_source (site_span site))) with
  | Some source =>
    if span_in_text (as_bytes (source_text source)) (site_span site) then Ok source
    else Err (Diagnostic.of_kind InvalidTrapSourceMap (str "trap information requires a valid source map") (site_span site))
  | None => Err (Diagnostic.of_kind InvalidTrapSourceMap (str "trap information requires a valid source map") (site_span site))
  end.

Definition message (site : TrapSite) (sources : list TrapSource) : Result (list u8) DiagnosticData :=
  match site_source site sources with
  | Ok source =>
    let '(line, column) := location (source_text source) (Span_start (site_span site)) in
    Ok (txt "trap: " ++ txt (description (site_kind site)) ++ txt " at " ++ as_bytes (source_path source) ++ txt ":" ++
      number line ++ txt ":" ++ number column)
  | Err e => Err e
  end.

Definition text (site : TrapSite) (sources : list TrapSource) : list u8 :=
  match message site sources with
  | Ok message => default message (Utf8.strip_prefix (txt "trap: ") message)
  | Err _ => txt (description (site_kind site))
  end.

Definition site_json (site : TrapSite) (source : TrapSource) : list u8 :=
  txt "{" ++ key "id" ++ dec (uval (site_id site)) ++ txt "," ++
  key "kind" ++ json_string (txt (description (site_kind site))) ++ txt "," ++
  key "path" ++ json_string (as_bytes (source_path source)) ++ txt "," ++
  key "span" ++ span_json (source_text source) (site_span site) ++ txt "}".

(** The loop of [side_table]; [first] is [index == 0]. *)
Fixpoint side_table_sites (first : bool) (sites : list TrapSite) (sources : list TrapSource) (output : list u8)
  : Result (list u8) DiagnosticData :=
  match sites with
  | [] => Ok output
  | site :: sites =>
    match site_source site sources with
    | Ok source => side_table_sites false sites sources (output ++ (if first then [] else txt ",") ++ site_json site source)
    | Err e => Err e
    end
  end.

Definition side_table (sites : list TrapSite) (sources : list TrapSource) : Result (list u8) DiagnosticData :=
  match side_table_sites true sites sources (txt "{" ++ key "version" ++ txt "1," ++ key "sites" ++ txt "[") with
  | Ok output => Ok (output ++ txt "]}" ++ EOL)
  | Err e => Err e
  end.
