(* ===== verification/ReportTheorems.v ===== *)
(** * Diagnostics, positions and trap reports

    The theorems about [src/src/diagnostic.rs] and [src/src/trap.rs]: JSON that reads back, positions, quotes, edits,
    the collected set, and the reports of traps. *)
From Stdlib Require Import Ascii Sorted.
From stdpp Require Import list strings.
From S2P Require Import Prelude Wire Utf8 Syntax Kinds Json JsonLaws Ordered Render RenderLaws Trap.
From S2P Require Import TrapLaws Report ReportLaws TrapSites.
Local Open Scope nat_scope.

(** ** JSON *)

(** C22: The JSON of a diagnostic is one JSON object, whatever its texts hold: a reader of JSON gives back the
    severity, the code, the message, the path and the span, and then exactly the members that the diagnostic has
    values for, in their order, with the related locations and the edits whose source is known. *)
Theorem json_with_reads d path source lookup severity :
  fits source -> (forall index p s, lookup index = Some (p, s) -> fits s) ->
  json_parse (Diagnostic.json_with d path source lookup severity) = Some (diagnostic_value d path source lookup severity).
Proof. intros Hs Hl. rewrite json_with_text. by apply json_parse_text, diagnostic_valid. Qed.

(** Rendering a diagnostic never panics: no subtraction of the quotes goes below zero, whatever the spans, the
    sources and the texts are. *)
Lemma render_with_returns d path source lookup severity : is_Some (Diagnostic.render_with d path source lookup severity).
Proof.
  unfold Diagnostic.render_with. pose proof (location_positive source (Span_start (d_span d))) as [Hl Hc].
  destruct (location source (Span_start (d_span d))) as [line column]. cbn [fst snd] in *.
  match goal with |- is_Some (write_quote ?o _ _ _ ≫= _) => destruct (write_quote_total o source line column Hl Hc) as [output ->] end.
  cbn [mbind option_bind].
  match goal with |- is_Some (foldl ?f (Some ?o) ?l ≫= _) => destruct (render_all_total d path source lookup l o) as [o' ->] end.
  by eexists.
Qed.

(** ** Positions *)

(** C23: Line and column are a position: later boundaries of a text have later positions, in the order of lines and
    then of columns, so two boundaries never share one; any other offset has the position of the last boundary
    before it, and one past the end that of the end. *)
Theorem location_orders source : 
  (forall a b, at_boundary (as_bytes source) (N.to_nat (uval a)) -> at_boundary (as_bytes source) (N.to_nat (uval b)) ->
    (uval a < uval b)%N <-> before (location source a) (location source b)) /\
  (forall offset, exists boundary, location source offset = location source boundary /\
    at_boundary (as_bytes source) (N.to_nat (uval boundary)) /\ (uval boundary <= uval offset)%N /\
    forall i, at_boundary (as_bytes source) i -> i <= N.to_nat (uval offset) -> i <= N.to_nat (uval boundary)).
Proof.
  split; [|apply location_floor]. intros a b Ha Hb. split; [by apply location_lt|]. intros Hab.
  destruct (N.lt_trichotomy (uval a) (uval b)) as [H|[H|H]]; [done|..]; exfalso; unfold before in Hab.
  - apply uint_eq in H as ->. lia.
  - pose proof (location_lt source b a Hb Ha H) as Hba. unfold before in Hba. lia.
Qed.

(** C36: The quote of a character. It shows a part of the line of the source that holds the character ([source_line]):
    the line from at most 40 characters before the character on, and 120 characters of it or what there is; below, a caret
    after as many spaces as characters are shown before the character. But the row of the caret begins with six columns
    and the one above it with five and the digits of the line number, so the caret is under the character exactly when
    the line number has one digit. *)
Theorem write_quote_caret output source offset c len :
  at_boundary (as_bytes source) (N.to_nat (uval offset)) ->
  first_char (drop (N.to_nat (uval offset)) (as_bytes source)) = Some (c, len) -> c <> NEWLINE -> c <> RETURN ->
  let '(line, column) := location source offset in
  exists pre post left_ shown right_, source_line (as_bytes source) (N.to_nat (uval offset)) line pre post /\
    characters (pre ++ post) = left_ ++ shown ++ right_ /\
    length left_ = length (characters pre) - 40 /\ length shown = Nat.min 120 (length (shown ++ right_)) /\
    let indent := length (characters pre) - length left_ in
    shown !! indent = Some c /\
    write_quote output source line column = Some (output ++ EOL ++ (txt "  " ++ number line ++ txt " | ") ++ from_characters shown ++
      EOL ++ txt "    | " ++ replicate indent (byte_of 32) ++ txt "^") /\
    (length (txt "  " ++ number line ++ txt " | ") = length (txt "    | ") <-> line < 10).
Proof.
  intros Hb Hf Hn Hr. destruct (line_at source offset c len Hb Hf Hn Hr) as (pre & post & Hline & Ht & Ecol & Hc).
  pose proof (location_positive source offset) as [Hl1 _]. destruct (location source offset) as [line column]. cbn [fst snd] in *. subst column.
  set (text := pre ++ post) in *. set (k := length (characters pre)) in *. pose proof (lookup_lt_Some _ _ _ Hc) as Hk.
  exists pre, post, (take (k - 40) (characters text)), (take 120 (drop (k - 40) (characters text))), (drop 120 (drop (k - 40) (characters text))).
  cbn zeta. fold k. rewrite length_take, Nat.min_l by lia. split_and!; [done|by rewrite !take_drop|done| | | |].
  - rewrite take_drop, length_take. done.
  - rewrite lookup_take_lt by lia. rewrite lookup_drop. by replace (k - 40 + (k - (k - 40))) with k by lia.
  - unfold write_quote, checked_sub. rewrite (proj2 (Nat.leb_le 1 line)) by done. cbn [mbind option_bind]. rewrite Ht. cbn [default]. unfold id. cbn zeta.
    rewrite bool_decide_eq_false_2 by (intros E; rewrite E in Hc; discriminate Hc).
    rewrite (proj2 (Nat.leb_le 1 (k + 1))) by lia. cbn [mbind option_bind]. rewrite (proj2 (Nat.leb_le _ _)) by lia.
    cbn [mbind option_bind]. replace (k + 1 - 41) with (k - 40) by lia. rewrite Nat.add_sub. by rewrite <- !app_assoc.
  - rewrite !length_app, <- number_width. change (length (txt "  ")) with 2. change (length (txt " | ")) with 3.
    change (length (txt "    | ")) with 6. lia.
Qed.

(** ** Edits *)

(** C24: [apply_edits] accepts exactly the edits that are ranges of the text between character boundaries and do not
    overlap, in any order; the result is valid text, and it is what replacing each range by itself gives, from the
    last edit to the first. *)
Theorem apply_edits_replaces text edits :
  match apply_edits text edits with
  | Some out =>
    Forall (in_text (as_bytes text)) edits /\ ForallOrdPairs apart edits /\ valid out /\
    out = foldr replace_range (as_bytes text) (sort_by_key edit_key edits)
  | None => ~ (Forall (in_text (as_bytes text)) edits /\ ForallOrdPairs apart edits)
  end.
Proof.
  pose proof (sort_perm edit_key edits) as Hp. pose proof (sort_sorted edit_key edits) as Hs.
  pose proof (separated_sorted (as_bytes text) 0 _ Hs) as Hsep.
  assert (separated (as_bytes text) 0 (sort_by_key edit_key edits) <-> Forall (in_text (as_bytes text)) edits /\ ForallOrdPairs apart edits) as Hiff.
  { rewrite Hsep. assert (Forall (in_text (as_bytes text)) (sort_by_key edit_key edits) <-> Forall (in_text (as_bytes text)) edits) as -> by by rewrite Hp.
    split.
    - intros (H1 & _ & H3). split; [done|]. exact (pairs_perm apart _ _ apart_sym Hp H3).
    - intros [H1 H3]. split_and!; [done|apply list.Forall_forall; intros; lia|]. exact (pairs_perm apart _ _ apart_sym (symmetry Hp) H3). }
  destruct (apply_edits text edits) as [out|] eqn:E.
  - apply apply_edits_Some in E as [Hsp ->]. destruct (proj1 Hiff Hsp) as [H1 H2]. split_and!; [done|done| |].
    + apply splice_valid; [apply as_bytes_valid|apply at_boundary_0, as_bytes_valid|done].
    + destruct (splice_replaces _ 0 _ Hsp ltac:(lia)) as [_ Hd]. by rewrite <- Hd, drop_0.
  - intros Hok. apply Hiff in Hok. pose proof (proj2 (apply_edits_Some text edits _) (conj Hok eq_refl)). congruence.
Qed.

(** ** The collected set *)

(** C25: What is reported: the first diagnostic of each key (source, span, severity, code, message), of the first
    1000 keys that come, in ascending order of their keys; the first 50 of them are shown and the rest counted as
    omitted, which is a lower bound exactly when there are 1000; and the counts are, for each severity and code,
    how many were collected. *)
Theorem from_diagnostics_collects ds root : exists collected : list (DiagnosticKey * DiagnosticData),
  let found := take MAX_UNIQUE_DIAGNOSTICS (firsts root [] ds) in
  ascending collected /\ (forall e, e ∈ collected <-> e ∈ found) /\ length collected = length found /\
  diagnostics (from_diagnostics ds root) = take MAX_REPORTED_ERRORS (collected.*2) /\
  length (diagnostics (from_diagnostics ds root)) + omitted (from_diagnostics ds root) = length collected /\
  (omitted_is_lower_bound (from_diagnostics ds root) = true <-> MAX_UNIQUE_DIAGNOSTICS <= length (firsts root [] ds)) /\
  (forall k, default 0 (map_get k (counts (from_diagnostics ds root))) = length (filter (of_code k) (collected.*2))).
Proof.
  destruct (extend_new root ds) as [[Hr Ha Hm He] Hl]. unfold from_diagnostics, Diagnostics.finish. cbn [diagnostics omitted omitted_is_lower_bound counts].
  set (c := Diagnostics.extend ds (Diagnostics.new root)) in *. exists (Diagnostics.entries c). cbn zeta. split_and!; [done|done|done|done| | |].
  - rewrite length_take, length_fmap. lia.
  - unfold Diagnostics.is_full. rewrite Nat.leb_le, Hl, length_take. lia.
  - intros k. destruct (counts_spec (Diagnostics.entries c).*2 []) as [_ Hk]; [constructor|]. apply Hk.
Qed.

(** ** Traps *)

(** The reader of the report file takes back what the crash handler writes: every site, slide, mark of
    truncation and list of at most 32 addresses. *)
Lemma parse_report_line_of raw : length (raw_addresses raw) <= MAX_TRAP_FRAMES -> parse_report_line (report_line raw) = Some raw.
Proof. intros Hl. destruct raw as [site slide truncated addresses]. eapply parse_fields; [apply report_line_fields|done|done]. Qed.

(** The name of a frame is the name of its function: for a linkage name that the compiler makes of a name and any
    number of suffixes of clones and specializations, [display_name] gives the name, when the name itself does not end
    with such a suffix; and every name is of this form, so the loop that takes the suffixes off always finds the end. *)
Lemma display_name_base :
  (forall base suffixes, strip_clone_suffix base = None -> base <> [] -> Forall clone_suffix suffixes ->
    display_name (txt "tz.fn." ++ base ++ concat suffixes) = Some base) /\
  (forall rest, exists base suffixes, rest = base ++ concat suffixes /\ strip_clone_suffix base = None /\ Forall clone_suffix suffixes /\
    display_name (txt "tz.fn." ++ rest) = if bool_decide (base = []) then None else Some base).
Proof.
  assert (forall base suffixes, strip_clone_suffix base = None -> Forall clone_suffix suffixes ->
    display_name (txt "tz.fn." ++ base ++ concat suffixes) = if bool_decide (base = []) then None else Some base) as H.
  { intros base suffixes Hb Hs. unfold display_name. rewrite strip_prefix_app. by rewrite without_clone_suffixes_spec. }
  split.
  - intros base suffixes Hb Hne Hs. rewrite H by done. by rewrite bool_decide_eq_false_2.
  - intros rest. destruct (clone_suffixes_of (length rest) rest) as (base & suffixes & -> & Hb & Hs); [done|].
    exists base, suffixes. split_and!; [done..|by apply H].
Qed.

(** C26: [frames_from_symbolizer] answers exactly when the output is an array with an entry for each address. It keeps
    the shown symbols in their order; it drops none that is not a cold part, and none without keeping a frame of the
    same function; and two frames of one function follow each other only when neither is a cold part. *)
Theorem frames_from_symbolizer_merges `{JsonValue Value} output raw export :
  match frames_from_symbolizer output raw export with
  | Some frames => exists value entries kept, from_str output = Some value /\ as_array value = Some entries /\
      length entries = length (raw_addresses raw) /\ frames = kept.*1 /\
      merged kept (shown_frames export (raw_slide raw) (zip entries (raw_addresses raw)))
  | None => forall value entries, from_str output = Some value -> as_array value = Some entries ->
      length entries <> length (raw_addresses raw)
  end.
Proof.
  unfold frames_from_symbolizer. destruct (from_str output) as [value|]; [|done]. cbn [mbind option_bind].
  destruct (as_array value) as [entries|] eqn:Ea; [|by intros ? ? [= <-]; rewrite Ea]. cbn [mbind option_bind].
  destruct (Nat.eqb_spec (length entries) (length (raw_addresses raw))) as [E|E]; cbn [negb].
  - exists value, entries. eexists. split_and!; [done..|symmetry; apply fmap_reverse|].
    apply merged_reverse, merge_all.
  - intros ? ? [= <-]. rewrite Ea. by intros [= <-].
Qed.

(** ** The side table *)

(** The object of one site. *)
Definition site_value (site : TrapSite) (source : TrapSource) : Json :=
  Json_Object [(txt "id", number_value (site_id site)); (txt "kind", literal_value (description (site_kind site)));
    (txt "path", text_value (source_path source)); (txt "span", span_value (source_text source) (site_span site))].

Definition side_table_value (sites : list (TrapSite * TrapSource)) : Json :=
  Json_Object [(txt "version", Json_Number (txt "1")); (txt "sites", Json_Array ((fun s => site_value (fst s) (snd s)) <$> sites))].

Lemma site_json_text site source : site_json site source = json_text (site_value site source).
Proof. unfold site_json, site_value. object. unfold number_value. by rewrite span_json_text. Qed.

Lemma side_table_loop sites sources : forall first output,
  match side_table_sites first sites sources output with
  | Ok out => exists placed, Forall2 (fun site source => site_source site sources = Ok source) sites placed /\
      let texts := (fun s => site_json (fst s) (snd s)) <$> zip sites placed in
      out = output ++ (if first then join (txt ",") texts else concat ((fun t => txt "," ++ t) <$> texts))
  | Err e => exists site, site ∈ sites /\ site_source site sources = Err e
  end.
Proof.
  induction sites as [|site sites IH]; intros first output; cbn [side_table_sites].
  { exists []. split; [constructor|]. destruct first; cbn; by rewrite app_nil_r. }
  destruct (site_source site sources) as [source|e] eqn:Es.
  - specialize (IH false (output ++ (if first then [] else txt ",") ++ site_json site source)).
    destruct (side_table_sites false sites sources _) as [out|e].
    + destruct IH as (placed & Hp & ->). exists (source :: placed). split; [by constructor|]. cbn [zip zip_with fmap list_fmap fst snd].
      destruct first.
      * rewrite join_cons. by rewrite <- !app_assoc.
      * cbn [concat]. by rewrite <- !app_assoc.
    + destruct IH as (s & Hs & E). exists s. split; [by apply list_elem_of_further|done].
  - exists site. split; [apply list_elem_of_here|done].
Qed.

Lemma site_source_in site sources source : site_source site sources = Ok source -> source ∈ sources.
Proof.
  unfold site_source, slice_get. destruct (_ <? _)%N; [|done]. destruct (sources !! _) as [s|] eqn:E; [|done].
  destruct (span_in_text _ _); [|done]. intros [= ->]. by eapply list_elem_of_lookup_2.
Qed.

(** The side table is a JSON object with one entry for each site, in order, with its id, its description, the
    path of its source and its span; it fails exactly when some site has no source or a span that is no range of
    characters of its source, with a diagnostic that points at such a site. *)
Lemma side_table_reads sites sources : Forall (fun source => fits (source_text source)) sources ->
  match side_table sites sources with
  | Ok out => exists placed, Forall2 (fun site source => site_source site sources = Ok source) sites placed /\
      json_parse out = Some (side_table_value (zip sites placed))
  | Err e => exists site, site ∈ sites /\ site_source site sources = Err e /\ d_span e = site_span site /\
      Diagnostic.kind_of e = Some InvalidTrapSourceMap
  end.
Proof.
  intros Hf. unfold side_table. set (head := txt "{" ++ _). pose proof (side_table_loop sites sources true head) as Hl.
  destruct (side_table_sites true sites sources head) as [out|e].
  - destruct Hl as (placed & Hp & ->). exists placed. split; [done|].
    assert (Forall (fun s => fits (source_text (snd s))) (zip sites placed)) as Hz.
    { induction Hp as [|site source sites placed Hs _ IH]; [constructor|]. cbn. constructor; [|done].
      apply site_source_in in Hs. by apply (proj1 (list.Forall_forall _ _) Hf). }
    assert ((head ++ join (txt ",") ((fun s => site_json (fst s) (snd s)) <$> zip sites placed)) ++ txt "]}" ++ EOL =
      json_text (side_table_value (zip sites placed)) ++ EOL) as ->.
    { assert ((fun s => site_json (fst s) (snd s)) <$> zip sites placed = json_text <$> ((fun s => site_value (fst s) (snd s)) <$> zip sites placed)) as ->.
      { rewrite <- list_fmap_compose. apply list_fmap_ext. intros i s _. apply site_json_text. }
      unfold side_table_value, head. object. done. }
    apply json_parse_white; [|by repeat constructor]. unfold side_table_value. members; [done|].
    apply json_valid_array, Forall_fmap. apply (list.Forall_impl _ _ _ Hz). intros s Hs. cbn beta.
    members; [by apply number_valid|by destruct (site_kind (fst s))|by apply span_valid].
  - destruct Hl as (site & Hs & E). exists site. split_and!; [done..| |]; revert E; unfold site_source;
      (destruct (slice_get _ _) as [source|]; [destruct (span_in_text _ _); [done|]|]); intros [= <-]; done.
Qed.

(** ** Builders *)

Import Diagnostic.

(** The diagnostics that the builders make. *)
Inductive built : DiagnosticData -> Prop :=
| built_of kind message span : built (of_kind kind message span)
| built_recode d kind : built d -> built (recode kind d)
| built_kind d kind : built d -> built (with_kind kind d)
| built_related d role message span : built d -> built (add_related role message span d)
| built_trap d report : built d -> built (with_trap report d)
| built_help d help : built d -> built (with_help help d)
| built_fix d title applicability edits : built d -> built (add_fix title applicability edits d)
| built_expected d expected found : built d -> built (expected_found expected found d)
| built_candidates d candidates : built d -> built (with_candidates candidates d)
| built_scope d scope : built d -> built (with_scope scope d).

Record limits (d : DiagnosticData) : Prop := {
  limit_related : length (d_related d) <= MAX_RELATED;
  limit_fixes : length (d_fixes d) <= MAX_FIXES;
  limit_edits : Forall (fun f => 1 <= length (Fix_edits f) <= MAX_EDITS) (d_fixes d);
  limit_candidates : length (Detail_candidates (d_detail d)) <= MAX_CANDIDATES;
  limit_scope : length (Detail_scope (d_detail d)) <= MAX_SCOPE }.

(** However a diagnostic is built, it keeps at most 16 related locations, 8 fixes of 1 to 64 edits each, 10
    candidates and 32 entries of the scope. *)
Lemma builders_keep_limits d : built d -> limits d.
Proof.
  induction 1 as [| | |d role message span _ IH| | |d title applicability edits _ IH| |d candidates _ IH|d scope _ IH];
    try (by destruct IHbuilt); [split; cbn; unfold MAX_RELATED, MAX_FIXES, MAX_CANDIDATES, MAX_SCOPE; (lia || constructor)|..].
  - unfold add_related. destruct (Nat.ltb_spec (length (d_related d)) MAX_RELATED); [|done]. destruct IH. split; try done.
    cbn [d_related]. rewrite length_app. cbn [length]. lia.
  - unfold add_fix. destruct (Nat.ltb_spec (length (d_fixes d)) MAX_FIXES); [|done]. cbn [andb].
    case_bool_decide; [done|]. cbn [negb andb]. destruct (Nat.leb_spec (length edits) MAX_EDITS); [|done].
    destruct IH. split; try done; cbn [d_fixes].
    + rewrite length_app. cbn [length]. lia.
    + apply Forall_app. split; [done|]. constructor; [cbn [Fix_edits]; lia|constructor].
  - destruct IH. split; try done. cbn [d_detail with_candidates with_detail Detail_candidates]. rewrite length_take. lia.
  - destruct IH. split; try done. cbn [d_detail with_scope with_detail Detail_scope]. rewrite length_take. lia.
Qed.

Lemma kind_ids_ascii kind : string_of (str (kind_id kind)) = kind_id kind.
Proof.
  assert (forallb (fun kind => bool_decide (string_of (str (kind_id kind)) = kind_id kind)) ALL = true) as Hall by by vm_compute.
  rewrite forallb_forall in Hall. apply (bool_decide_eq_true_1 _ (Hall kind (proj1 (list_elem_of_In _ _) (ALL_complete kind)))).
Qed.

(** The registry and the diagnostics agree: the kind of a diagnostic is found again from its identifier, for each
    of the kinds, both when it is made and when it is recoded; two kinds never share an identifier; and the kinds of a
    code are those of the registry with the code, in the order of their identifiers. *)
Lemma kind_of_registered kind message span d :
  kind_of (of_kind kind message span) = Some kind /\ kind_of (recode kind d) = Some kind /\
  d_severity (recode kind d) = severity kind /\ d_message (recode kind d) = d_message d /\
  (forall other, kind_id kind = kind_id other -> kind = other) /\
  kinds_with_code (kind_code kind) = filter (fun other => kind_code other = kind_code kind) ALL /\ kind ∈ kinds_with_code (kind_code kind).
Proof.
  assert (forall d, d_kind d = Some (str (kind_id kind)) -> kind_of d = Some kind) as Hk.
  { intros d' E. unfold kind_of. rewrite E. cbn [mbind option_bind]. rewrite kind_ids_ascii. apply from_id_complete. }
  split_and!; [by apply Hk|by apply Hk|reflexivity|reflexivity|apply kind_id_inj|apply kinds_with_code_registry|].
  rewrite kinds_with_code_registry. apply list_elem_of_filter. split; [reflexivity|apply ALL_complete].
Qed.

(** ** Examples *)

Definition example_span (a b : N) : Span := mk_Span (uint_wrap 64 a) (uint_wrap 64 b) None.

Definition example_diagnostic : DiagnosticData :=
  add_fix (str "t") Certain [mk_Edit (example_span 9 9) (str "x")] (add_related RelatedRole_Note (str "r") (example_span 0 3)
    (of_kind UnexpectedCharacter (str "a\") (example_span 4 5))).

Lemma json_with_reads_witness :
  json_parse (json_with example_diagnostic (str "M.tz") (str "let x = 1") no_lookup (str "error")) =
    Some (diagnostic_value example_diagnostic (str "M.tz") (str "let x = 1") no_lookup (str "error")).
Proof. apply json_with_reads; [done|]. by intros index p s E. Defined.

(** The quote of [d] in the second line of a text. *)
Lemma write_quote_caret_witness : exists pre post left_ shown right_,
  source_line (txt "a" ++ [byte_of NEWLINE] ++ txt "bc d") 5 2 pre post /\ characters (pre ++ post) = left_ ++ shown ++ right_ /\
  shown !! (length (characters pre) - length left_) = Some 100%N.
Proof.
  destruct (write_quote_caret [] (mk_RString (txt "a" ++ [byte_of NEWLINE] ++ txt "bc d") eq_refl) (uint_wrap 64 5) 100%N 1)
    as (pre & post & left_ & shown & right_ & H1 & H2 & _ & _ & H3 & _);
    [split; [apply Nat.leb_le; vm_compute; reflexivity|vm_compute; reflexivity]|vm_compute; reflexivity|done|done|].
  by exists pre, post, left_, shown, right_.
Defined.

Definition example_raw : RawTrapReport := mk_RawTrapReport (uint_wrap 32 2) (uint_wrap 64 0x2188000) false [uint_wrap 64 0x1021884e4; uint_wrap 64 0x10218856c].

Definition example_site : TrapSite := mk_TrapSite (uint_wrap 32 1) BoundsCheck (example_span 0 2).
Definition example_source : TrapSource := mk_TrapSource (str "M.tz") (str "a[1]").

(** The values of a reader of JSON. *)
Definition digits_value (text : list u8) : option u64 := if forallb is_ascii_digit text then parse_radix 10 64 text else None.

Definition json_values : JsonValue Json := {|
  from_str := json_parse;
  as_array v := match v with Json_Array items => Some items | _ => None end;
  get v name := match v with Json_Object members => '(_, m) ← list_find (fun m => fst m = txt name) members; Some (snd m) | _ => None end;
  as_str v := match v with Json_String text => from_utf8 text | _ => None end;
  as_u64 v := match v with Json_Number text => digits_value text | _ => None end |}.

Definition example_output : list u8 :=
  let symbol (name : string) := txt "{" ++ key "FunctionName" ++ json_string (txt name) ++ txt "}" in
  let entry (name : string) := txt "{" ++ key "Symbol" ++ txt "[" ++ symbol name ++ txt "]}" in
  txt "[" ++ entry "tz.fn.Main.foo.cold.1" ++ txt "," ++ entry "tz.fn.Main.foo" ++ txt "]".

(** The cold part of a function and the function are one frame. *)
Lemma frames_from_symbolizer_merges_witness : exists kept,
  frames_from_symbolizer (H := json_values) example_output example_raw (fun _ => false) = Some (kept.*1) /\
  frame_function <$> kept.*1 = [from_utf8 (txt "Main.foo")] /\ separate kept.
Proof.
  pose proof (frames_from_symbolizer_merges (H := json_values) example_output example_raw (fun _ => false)) as Hm.
  destruct (frames_from_symbolizer (H := json_values) example_output example_raw (fun _ => false)) as [frames|] eqn:E;
    [|vm_compute in E; discriminate E].
  destruct Hm as (value & entries & kept & _ & _ & _ & -> & [Hs _ _ _]). exists kept. split_and!; [done| |done].
  assert (option_map (fun fs : list TrapFrame => frame_function <$> fs) (Some (kept.*1)) = Some [from_utf8 (txt "Main.foo")]) as Ht
    by (rewrite <- E; vm_compute; reflexivity).
  by injection Ht.
Defined.
