(* ===== verification/Types.v ===== *)
(** * The types of the checker

    [Type] of [src/src/check.rs] with its constructors and walks, and the partial constructors of
    [src/src/higher_kinds.rs]. A boxed value is the value; the identifier of a declaration or of an inference variable is
    an index, a [nat]. *)
From Stdlib Require Import Ascii.
From stdpp Require Import list strings.
From S2P Require Import Prelude Wire Faults Utf8 Text Render Trap Kinds Syntax Report.
Local Open Scope nat_scope.

(** ** Computations that only read, and may panic *)

Definition Try (A : Type) : Type := Result A Fault.
#[export] Instance Try_ret : MRet Try := fun _ a => Ok a.
#[export] Instance Try_bind : MBind Try := fun _ _ k m => match m with Ok a => k a | Err e => Err e end.
Definition panic {A} : Try A := Err Panic.
Definition or_panic {A} (o : option A) : Try A := match o with Some a => Ok a | None => panic end.

Inductive ParameterConvention := ParameterConvention_Own | ParameterConvention_Read | ParameterConvention_Mut.
#[export] Instance ParameterConvention_eq_dec : EqDecision ParameterConvention.
Proof. solve_decision. Defined.

Inductive SharedKind := SharedKind_Rc | SharedKind_RcWeak | SharedKind_Arc | SharedKind_ArcWeak.
#[export] Instance SharedKind_eq_dec : EqDecision SharedKind.
Proof. solve_decision. Defined.

Inductive SimdKind := SimdKind_Signed | SimdKind_Unsigned | SimdKind_Float | SimdKind_Mask.
#[export] Instance SimdKind_eq_dec : EqDecision SimdKind.
Proof. solve_decision. Defined.

Record SimdType := mk_SimdType {
  SimdType_bits : u16;
  SimdType_kind : SimdKind;
  SimdType_width : u16 }.
#[export] Instance SimdType_eq_dec : EqDecision SimdType.
Proof. solve_decision. Defined.

Record DynType := mk_DynType {
  DynType_classes : list RString;
  DynType_copy : bool;
  DynType_send : bool;
  DynType_borrowed : bool }.
#[export] Instance DynType_eq_dec : EqDecision DynType.
Proof. solve_decision. Defined.

(** The constructors that a partial application holds, with the number of their arguments. *)
Inductive Constructor :=
| Constructor_Record (id arity : nat)
| Constructor_Union (id arity : nat)
| Constructor_Array
| Constructor_List
| Constructor_Vec.
#[export] Instance Constructor_eq_dec : EqDecision Constructor.
Proof. solve_decision. Defined.

Definition arity (constructor : Constructor) : nat :=
  match constructor with Constructor_Record _ n | Constructor_Union _ n => n | _ => 1 end.

(** [Type]. The fields of [Partial] and of [FunctionParameters] are arguments of their variants. *)
Inductive Ty :=
| Ty_Error
| Ty_Variable (name : RString)
| Ty_Infer (id : nat)
| Ty_Partial (constructor : Constructor) (trailing : list Ty)
| Ty_Application (head : Ty) (arguments : list Ty)
| Ty_Integer (bits : u16) (signed : bool)
| Ty_Binary (bits : u16)
| Ty_Decimal (bits : u16)
| Ty_Simd (ty : SimdType)
| Ty_Bool
| Ty_Unit
| Ty_Char
| Ty_Utf8Char
| Ty_String
| Ty_Utf8String
| Ty_Record (id : nat) (arguments : list Ty)
| Ty_Union (id : nat) (arguments : list Ty)
| Ty_Array (element : Ty)
| Ty_ArrayView (element : Ty)
| Ty_FixedArray (element length : Ty)
| Ty_Length (length : u64)
| Ty_List (element : Ty)
| Ty_Vec (element : Ty)
| Ty_Tuple (elements : list Ty)
| Ty_Once (result : Ty)
| Ty_Handle (name : RString)
| Ty_Function (parameters : list Ty) (conventions : list ParameterConvention) (pure_ : bool) (result : Ty)
| Ty_Reference (target : Ty) (mutable : bool)
| Ty_Dyn (dyn : DynType)
| Ty_Shared (value : Ty) (kind : SharedKind).

#[export] Instance Ty_eq_dec : EqDecision Ty.
Proof.
  refine (fix go (t1 t2 : Ty) : Decision (t1 = t2) := let _ : EqDecision Ty := @go in
    match t1, t2 with
    | Ty_Error, Ty_Error | Ty_Bool, Ty_Bool | Ty_Unit, Ty_Unit | Ty_Char, Ty_Char | Ty_Utf8Char, Ty_Utf8Char
    | Ty_String, Ty_String | Ty_Utf8String, Ty_Utf8String => left _
    | Ty_Variable x, Ty_Variable y | Ty_Handle x, Ty_Handle y => cast_if (decide (x = y))
    | Ty_Infer x, Ty_Infer y => cast_if (decide (x = y))
    | Ty_Partial x xs, Ty_Partial y ys => cast_if_and (decide (x = y)) (decide (xs = ys))
    | Ty_Application x xs, Ty_Application y ys => cast_if_and (decide (x = y)) (decide (xs = ys))
    | Ty_Integer x a, Ty_Integer y b => cast_if_and (decide (x = y)) (decide (a = b))
    | Ty_Binary x, Ty_Binary y | Ty_Decimal x, Ty_Decimal y => cast_if (decide (x = y))
    | Ty_Simd x, Ty_Simd y => cast_if (decide (x = y))
    | Ty_Record x xs, Ty_Record y ys | Ty_Union x xs, Ty_Union y ys => cast_if_and (decide (x = y)) (decide (xs = ys))
    | Ty_Array x, Ty_Array y | Ty_ArrayView x, Ty_ArrayView y | Ty_List x, Ty_List y | Ty_Vec x, Ty_Vec y
    | Ty_Once x, Ty_Once y => cast_if (decide (x = y))
    | Ty_FixedArray x n, Ty_FixedArray y m => cast_if_and (decide (x = y)) (decide (n = m))
    | Ty_Length n, Ty_Length m => cast_if (decide (n = m))
    | Ty_Tuple xs, Ty_Tuple ys => cast_if (decide (xs = ys))
    | Ty_Function xs c p r, Ty_Function ys d q t =>
      cast_if_and4 (decide (xs = ys)) (decide (c = d)) (decide (p = q)) (decide (r = t))
    | Ty_Reference x a, Ty_Reference y b => cast_if_and (decide (x = y)) (decide (a = b))
    | Ty_Dyn x, Ty_Dyn y => cast_if (decide (x = y))
    | Ty_Shared x a, Ty_Shared y b => cast_if_and (decide (x = y)) (decide (a = b))
    | _, _ => right _
    end); congruence.
Defined.

(** ** Kinds of shared pointers *)

Module Shared.

Definition ALL : list SharedKind := [SharedKind_Rc; SharedKind_RcWeak; SharedKind_Arc; SharedKind_ArcWeak].

Definition atomic (kind : SharedKind) : bool := match kind with SharedKind_Arc | SharedKind_ArcWeak => true | _ => false end.
Definition weak (kind : SharedKind) : bool := match kind with SharedKind_RcWeak | SharedKind_ArcWeak => true | _ => false end.

Definition name (kind : SharedKind) : string :=
  match kind with
  | SharedKind_Rc => "Rc"
  | SharedKind_RcWeak => "Rc.Weak"
  | SharedKind_Arc => "Arc"
  | SharedKind_ArcWeak => "Arc.Weak"
  end.

Definition NAMESPACE : string := "std".

Definition named (text : list u8) : option SharedKind :=
  let text := default text (rest ← Utf8.strip_prefix (txt NAMESPACE) text; Utf8.strip_prefix (txt "::") rest) in
  head (filter (fun kind => txt (name kind) = text) ALL).

Definition strong (kind : SharedKind) : SharedKind := if atomic kind then SharedKind_Arc else SharedKind_Rc.
Definition weakened (kind : SharedKind) : SharedKind := if atomic kind then SharedKind_ArcWeak else SharedKind_RcWeak.

End Shared.

(** ** Vectors *)

Module Simd.

(** [self.width / self.bits]: a division by zero panics. *)
Definition lanes (ty : SimdType) : Try N :=
  if (uval (SimdType_bits ty) =? 0)%N then panic else Ok (uval (SimdType_width ty) / uval (SimdType_bits ty))%N.

Definition name (ty : SimdType) : Try (list u8) :=
  let bits := dec (uval (SimdType_bits ty)) in
  let element :=
    match SimdType_kind ty with
    | SimdKind_Signed => txt "i" ++ bits
    | SimdKind_Unsigned => txt "i" ++ bits ++ txt "u"
    | SimdKind_Float => txt "f" ++ bits
    | SimdKind_Mask => txt "mask" ++ bits
    end in
  lanes ← lanes ty;
  mret (element ++ txt "x" ++ dec lanes).

End Simd.

(** ** Functions *)

Definition is_own (mode : ParameterConvention) : bool :=
  match mode with ParameterConvention_Own => true | _ => false end.

(** The [while] loop of [function_with_conventions]: it joins the parameters of a result that is itself an ordinary
    function with parameters. *)
Fixpoint flatten (parameters : list Ty) (conventions : list ParameterConvention) (result : Ty) :
    list Ty * list ParameterConvention * Ty :=
  match result with
  | Ty_Function (more :: types) more_conventions false tail =>
    let conventions :=
      match more_conventions with
      | _ :: _ => resize (length parameters) ParameterConvention_Own conventions ++ more_conventions
      | [] =>
        match conventions with
        | _ :: _ => resize (length parameters + length (more :: types)) ParameterConvention_Own conventions
        | [] => conventions
        end
      end in
    flatten (parameters ++ more :: types) conventions tail
  | _ => (parameters, conventions, result)
  end.

Definition function_with_conventions (parameters : list Ty) (result : Ty) (conventions : list ParameterConvention)
    (pure_ : bool) : Ty :=
  let conventions := if forallb is_own conventions then [] else conventions in
  let '(parameters, conventions, result) :=
    match parameters with
    | _ :: _ => if pure_ then (parameters, conventions, result) else flatten parameters conventions result
    | [] => (parameters, conventions, result)
    end in
  Ty_Function parameters conventions pure_ result.

(** [Type::function] *)
Definition function (parameters : list Ty) (result : Ty) : Ty := function_with_conventions parameters result [] false.

Fixpoint function_purity (ty : Ty) : option bool :=
  match ty with
  | Ty_Function _ _ pure_ _ => Some pure_
  | Ty_Reference inner false => function_purity inner
  | _ => None
  end.

Fixpoint set_function_purity (pure_ : bool) (ty : Ty) : Ty :=
  match ty with
  | Ty_Function parameters conventions _ result => Ty_Function parameters conventions pure_ result
  | Ty_Reference inner false => Ty_Reference (set_function_purity pure_ inner) false
  | _ => ty
  end.

Fixpoint contains_error (ty : Ty) : bool :=
  match ty with
  | Ty_Error => true
  | Ty_Partial _ trailing => existsb contains_error trailing
  | Ty_Application head_ arguments => contains_error head_ || existsb contains_error arguments
  | Ty_Array ty | Ty_ArrayView ty | Ty_List ty | Ty_Vec ty | Ty_Once ty | Ty_Shared ty _ | Ty_Reference ty _ =>
    contains_error ty
  | Ty_Function parameters _ _ result => existsb contains_error parameters || contains_error result
  | Ty_Tuple elements => existsb contains_error elements
  | Ty_FixedArray element length => contains_error element || contains_error length
  | Ty_Record _ arguments | Ty_Union _ arguments => existsb contains_error arguments
  | _ => false
  end.

(** The length of a fixed-length array is not searched. *)
Fixpoint contains_constructor (ty : Ty) : bool :=
  match ty with
  | Ty_Partial _ _ | Ty_Application _ _ => true
  | Ty_Array ty | Ty_ArrayView ty | Ty_FixedArray ty _ | Ty_List ty | Ty_Vec ty | Ty_Once ty | Ty_Shared ty _
  | Ty_Reference ty _ => contains_constructor ty
  | Ty_Function parameters _ _ result => existsb contains_constructor parameters || contains_constructor result
  | Ty_Tuple elements => existsb contains_constructor elements
  | Ty_Record _ arguments | Ty_Union _ arguments => existsb contains_constructor arguments
  | _ => false
  end.

(** The type of a call with [count] arguments. What is not a function, or has fewer parameters, panics. *)
Definition after_arguments (ty : Ty) (count : nat) : Try Ty :=
  if contains_error ty then Ok Ty_Error
  else
    match ty with
    | Ty_Function parameters conventions pure_ result =>
      if count =? length parameters then Ok result
      else if count <=? length parameters then
        Ok (function_with_conventions (drop count parameters) result (drop count conventions) pure_)
      else panic
    | _ => panic
    end.

(** [FunctionParameters::convention] *)
Definition convention (conventions : list ParameterConvention) (index : nat) : ParameterConvention :=
  default ParameterConvention_Own (conventions !! index).

(** ** Kinds of types *)

Definition is_numeric (ty : Ty) : bool := match ty with Ty_Integer _ _ | Ty_Binary _ | Ty_Decimal _ => true | _ => false end.
Definition is_scalar (ty : Ty) : bool := is_numeric ty || match ty with Ty_Bool | Ty_Char | Ty_Utf8Char => true | _ => false end.
Definition is_integer (ty : Ty) : bool := match ty with Ty_Integer _ _ => true | _ => false end.
Definition is_float (ty : Ty) : bool := match ty with Ty_Binary _ | Ty_Decimal _ => true | _ => false end.
Definition is_string (ty : Ty) : bool := match ty with Ty_String | Ty_Utf8String => true | _ => false end.

(** [Type::I32], [Type::I64] and [Type::F64] *)
Definition I32 : Ty := Ty_Integer (uint_wrap 16 32) true.
Definition I64 : Ty := Ty_Integer (uint_wrap 16 64) true.
Definition F64 : Ty := Ty_Binary (uint_wrap 16 64).

(** ** Slices and references *)

Definition slice_element (ty : Ty) : option Ty :=
  match ty with
  | Ty_Reference (Ty_Array element) false => Some element
  | Ty_Reference (Ty_ArrayView element) true => Some element
  | _ => None
  end.

Definition is_view (ty : Ty) : bool := match ty with Ty_Reference (Ty_ArrayView _) true => true | _ => false end.

Definition fixed_length (ty : Ty) : option u64 :=
  match ty with Ty_FixedArray _ (Ty_Length length) => Some length | _ => None end.

Definition dereferenced (ty : Ty) : option Ty :=
  match ty with
  | Ty_Reference (Ty_ArrayView element) _ => Some (Ty_Array element)
  | Ty_Reference inner _ => Some inner
  | _ => None
  end.

(** ** How types display *)

Inductive ModuleOrigin := ModuleOrigin_User | ModuleOrigin_Std.
#[export] Instance ModuleOrigin_eq_dec : EqDecision ModuleOrigin.
Proof. solve_decision. Defined.

(** What the functions on types read of the declarations; the memo of [recursive] is in [RecursiveTypes]. *)
Record CheckedRecord := mk_CheckedRecord {
  CheckedRecord_name : RString;
  CheckedRecord_origin : ModuleOrigin;
  CheckedRecord_parameters : list RString;
  CheckedRecord_fields : list (RString * Ty);
  CheckedRecord_user_drop : bool;
  CheckedRecord_exclusive_regions : u16;
  CheckedRecord_size : option usize;
  CheckedRecord_span : Span }.

Record CheckedUnion := mk_CheckedUnion {
  CheckedUnion_name : RString;
  CheckedUnion_origin : ModuleOrigin;
  CheckedUnion_parameters : list RString;
  CheckedUnion_cases : list (RString * option Ty);
  CheckedUnion_user_drop : bool;
  CheckedUnion_size : option usize;
  CheckedUnion_span : Span }.

Record TypeContext := mk_TypeContext {
  records : list CheckedRecord;
  unions : list CheckedUnion }.

Definition namespace_display (dotted : list u8) : list u8 := Text.join (txt "::") (split_on "."%char dotted).

Definition declaration_display (qualified : list u8) : list u8 :=
  match rsplit_once "."%char qualified with
  | Some (key, name) => namespace_display key ++ txt "." ++ name
  | None => qualified
  end.

(** [rsplit('.').next()] *)
Definition module_stem (module_ : list u8) : list u8 :=
  match rsplit_once "."%char module_ with Some (_, stem) => stem | None => module_ end.

Definition type_display (qualified : list u8) : list u8 :=
  match rsplit_once "."%char qualified with
  | Some (key, name) => if bool_decide (module_stem key = name) then namespace_display key else declaration_display qualified
  | None => declaration_display qualified
  end.

Definition constructor_name (types : TypeContext) (constructor : Constructor) : Try (list u8) :=
  match constructor with
  | Constructor_Record id _ => record ← or_panic (records types !! id); mret (as_bytes (CheckedRecord_name record))
  | Constructor_Union id _ => union_ ← or_panic (unions types !! id); mret (as_bytes (CheckedUnion_name union_))
  | Constructor_Array => mret (txt "Array")
  | Constructor_List => mret (txt "List")
  | Constructor_Vec => mret (txt "Vec")
  end.

(** [DynType::display] *)
Definition dyn_display (dyn : DynType) : list u8 :=
  let names := (fun name => type_display (as_bytes name)) <$> DynType_classes dyn in
  let names := names ++ (if DynType_copy dyn then [txt "Copy"] else []) ++ (if DynType_send dyn then [txt "Send"] else []) in
  let text :=
    match names with
    | [name] => txt "dyn " ++ name
    | _ => txt "dyn (" ++ Text.join (txt ", ") names ++ txt ")"
    end in
  text ++ (if DynType_borrowed dyn then txt " {_}" else []).

Definition is_function (ty : Ty) : bool := match ty with Ty_Function _ _ _ _ => true | _ => false end.

(** A function inside a type is in parentheses. *)
Definition parenthesized (ty : Ty) (text : list u8) : list u8 :=
  if is_function ty then txt "(" ++ text ++ txt ")" else text.

Fixpoint display (types : TypeContext) (ty : Ty) : Try (list u8) :=
  let applied (text : list u8) (arguments : list Ty) : Try (list u8) :=
    match arguments with
    | [] => mret text
    | _ => arguments ← mapM (display types) arguments; mret (text ++ txt "<" ++ Text.join (txt ", ") arguments ++ txt ">")
    end in
  match ty with
  | Ty_Error => mret (txt "an erroneous type")
  | Ty_Variable name =>
    mret (match Utf8.strip_prefix (txt "#") (as_bytes name) with Some length => length | None => txt "'" ++ as_bytes name end)
  | Ty_Infer _ => mret (txt "an undetermined type")
  | Ty_Partial constructor trailing => name ← constructor_name types constructor; applied name trailing
  | Ty_Application head_ arguments =>
    head_ ← display types head_;
    arguments ← mapM (display types) arguments;
    mret (head_ ++ txt "<" ++ Text.join (txt ", ") arguments ++ txt ">")
  | Ty_Integer bits signed => mret (txt "i" ++ dec (uval bits) ++ (if signed then [] else txt "u"))
  | Ty_Binary bits => mret (txt "f" ++ dec (uval bits))
  | Ty_Decimal bits => mret (txt "d" ++ dec (uval bits))
  | Ty_Simd ty => Simd.name ty
  | Ty_Bool => mret (txt "bool")
  | Ty_Char => mret (txt "char")
  | Ty_Utf8Char => mret (txt "utf8char")
  | Ty_Unit => mret (txt "unit")
  | Ty_String => mret (txt "string")
  | Ty_Utf8String => mret (txt "utf8string")
  | Ty_Reference target mutable =>
    inner ← display types target;
    mret (txt "ref " ++ (if mutable then txt "mut " else []) ++ parenthesized target inner)
  | Ty_Record id arguments => record ← or_panic (records types !! id); applied (type_display (as_bytes (CheckedRecord_name record))) arguments
  | Ty_Union id arguments => union_ ← or_panic (unions types !! id); applied (type_display (as_bytes (CheckedUnion_name union_))) arguments
  | Ty_Vec element => text ← display types element; mret (txt "Vec<" ++ text ++ txt ">")
  | Ty_Array element => text ← display types element; mret (txt "[" ++ text ++ txt "]")
  | Ty_ArrayView element => text ← display types element; mret (txt "[" ++ text ++ txt "..]")
  | Ty_FixedArray element length =>
    element ← display types element;
    length ← display types length;
    mret (txt "[" ++ element ++ txt "; " ++ length ++ txt "]")
  | Ty_Length length => mret (dec (uval length))
  | Ty_List element => text ← display types element; mret (txt "[|" ++ text ++ txt "|]")
  | Ty_Tuple elements =>
    elements ← mapM (fun ty => text ← display types ty; mret (parenthesized ty text)) elements;
    mret (txt "(" ++ Text.join (txt " * ") elements ++ txt ")")
  | Ty_Once _ => mret (txt "tzroutine body")
  | Ty_Handle name => mret (type_display (as_bytes name))
  | Ty_Dyn dyn => mret (dyn_display dyn)
  | Ty_Shared value kind => text ← display types value; mret (txt (Shared.name kind) ++ txt "<" ++ text ++ txt ">")
  | Ty_Function parameters _ pure_ result =>
    ordinary ←
      match parameters with
      | [] => result ← display types result; mret (txt "fn() -> " ++ result)
      | _ =>
        parts ← mapM (fun ty => text ← display types ty; mret (parenthesized ty text)) parameters;
        result ← display types result;
        mret (Text.join (txt " -> ") (parts ++ [result]))
      end;
    mret (if pure_ then txt "pure (" ++ ordinary ++ txt ")" else ordinary)
  end.
