(* ===== verification/Inference.v ===== *)
(** * Inference of types

    [Inference] of [src/src/polymorph.rs] with the functions on types that it uses, and the application and the
    decomposition of constructors of [src/src/higher_kinds.rs]. A recursion that follows solutions takes fuel, because
    a cycle of solutions would not end it. *)
From stdpp Require Import list strings.
From S2P Require Import Prelude Wire Faults Utf8 Text Render Kinds Syntax Ordered Report Types.
Local Open Scope nat_scope.
Local Open Scope monad_scope.

(** ** Constructors *)

Definition starts_with_hash (name : RString) : bool := match as_bytes name with b :: _ => (uval b =? 35)%N | [] => false end.

(** [higher_kinds::apply]. A constructor of one argument is complete with one, so [remove(0)] has it. *)
Definition apply (head_ : Ty) (arguments : list Ty) : Ty :=
  match head_ with
  | Ty_Partial constructor trailing =>
    if length arguments + length trailing =? arity constructor then
      let complete := arguments ++ trailing in
      match constructor, complete with
      | Constructor_Record id _, _ => Ty_Record id complete
      | Constructor_Union id _, _ => Ty_Union id complete
      | Constructor_Array, element :: _ => Ty_Array element
      | Constructor_List, element :: _ => Ty_List element
      | Constructor_Vec, element :: _ => Ty_Vec element
      | _, [] => Ty_Application head_ arguments
      end
    else Ty_Application head_ arguments
  | _ => Ty_Application head_ arguments
  end.

Definition is_length (argument : Ty) : bool :=
  match argument with
  | Ty_Length _ => true
  | Ty_Variable name => starts_with_hash name
  | _ => false
  end.

(** [higher_kinds::decompose] *)
Definition decompose (ty : Ty) : option (Constructor * list Ty) :=
  match ty with
  | Ty_Record id arguments =>
    if existsb is_length arguments then None else Some (Constructor_Record id (length arguments), arguments)
  | Ty_Union id arguments =>
    if existsb is_length arguments then None else Some (Constructor_Union id (length arguments), arguments)
  | Ty_Array element => Some (Constructor_Array, [element])
  | Ty_List element => Some (Constructor_List, [element])
  | Ty_Vec element => Some (Constructor_Vec, [element])
  | _ => None
  end.

(** ** Walks *)

Section map_type.
Context {S : Type} (f : Ty -> S -> Ty * S).

Fixpoint map_state {A B} (g : A -> S -> B * S) (l : list A) (s : S) : list B * S :=
  match l with
  | [] => ([], s)
  | x :: l => let '(y, s) := g x s in let '(ys, s) := map_state g l s in (y :: ys, s)
  end.

(** The closure [f] and its captured state [S]; it sees the types that have no parts. *)
Fixpoint map_type (ty : Ty) (s : S) : Ty * S :=
  match ty with
  | Ty_Partial constructor trailing =>
    let '(trailing, s) := map_state map_type trailing s in (Ty_Partial constructor trailing, s)
  | Ty_Application head_ arguments =>
    let '(head_, s) := map_type head_ s in
    let '(arguments, s) := map_state map_type arguments s in (apply head_ arguments, s)
  | Ty_Array element => let '(element, s) := map_type element s in (Ty_Array element, s)
  | Ty_ArrayView element => let '(element, s) := map_type element s in (Ty_ArrayView element, s)
  | Ty_FixedArray element length =>
    let '(element, s) := map_type element s in
    let '(length, s) := map_type length s in (Ty_FixedArray element length, s)
  | Ty_List element => let '(element, s) := map_type element s in (Ty_List element, s)
  | Ty_Vec element => let '(element, s) := map_type element s in (Ty_Vec element, s)
  | Ty_Shared value kind => let '(value, s) := map_type value s in (Ty_Shared value kind, s)
  | Ty_Tuple elements => let '(elements, s) := map_state map_type elements s in (Ty_Tuple elements, s)
  | Ty_Once result => let '(result, s) := map_type result s in (Ty_Once result, s)
  | Ty_Reference target mutable => let '(target, s) := map_type target s in (Ty_Reference target mutable, s)
  | Ty_Function parameters conventions pure_ result =>
    let '(parameters, s) := map_state map_type parameters s in
    let '(result, s) := map_type result s in
    (function_with_conventions parameters result conventions pure_, s)
  | Ty_Record id ((_ :: _) as arguments) =>
    let '(arguments, s) := map_state map_type arguments s in (Ty_Record id arguments, s)
  | Ty_Union id ((_ :: _) as arguments) =>
    let '(arguments, s) := map_state map_type arguments s in (Ty_Union id arguments, s)
  | _ => f ty s
  end.
End map_type.

(** A walk that looks for a type without changing any: [flag |= seen(ty); ty.clone()]. *)
Definition any_leaf (seen : Ty -> bool) (ty : Ty) : bool := snd (map_type (fun ty flag => (ty, flag || seen ty)) ty false).

Definition is_unknown (ty : Ty) : bool := match ty with Ty_Variable _ | Ty_Infer _ => true | _ => false end.
Definition is_infer (ty : Ty) : bool := match ty with Ty_Infer _ => true | _ => false end.

(** [variables]: the names in order, each once. *)
Definition variables (ty : Ty) : list RString :=
  let insert ty (names : list (RString * unit)) :=
    (ty, match ty with Ty_Variable name => map_insert name tt names | _ => names end) in
  fst <$> snd (map_type insert ty []).

Definition substitute (ty : Ty) (substitutions : list (RString * Ty)) : Ty :=
  fst (map_type (fun ty (s : unit) =>
    (match ty with Ty_Variable name => default ty (map_get name substitutions) | _ => ty end, s)) ty tt).

(** ** Sizes *)

Definition MAX_NESTING : nat := 128.

(** [all]: it stops at the first element that fails. *)
Fixpoint all_state {S A} (g : A -> S -> bool * S) (l : list A) (s : S) : bool * S :=
  match l with
  | [] => (true, s)
  | x :: l => let '(r, s) := g x s in if r then all_state g l s else (false, s)
  end.

(** [visit] of [type_size] *)
Fixpoint visit (ty : Ty) (depth : nat) (count : N) : bool * N :=
  let count := (count + 1)%N in
  if (MAX_NESTING <? depth) || (4096 <? count)%N then (false, count)
  else
    let below ty := visit ty (S depth) in
    match ty with
    | Ty_Partial _ trailing => all_state below trailing count
    | Ty_Application head_ arguments =>
      let '(r, count) := below head_ count in
      if r then all_state below arguments count else (false, count)
    | Ty_Array ty | Ty_ArrayView ty | Ty_List ty | Ty_Vec ty | Ty_Once ty | Ty_Shared ty _ | Ty_Reference ty _ =>
      below ty count
    | Ty_Function parameters _ _ result =>
      let '(r, count) := all_state below parameters count in
      if r then below result count else (false, count)
    | Ty_Tuple elements => all_state below elements count
    | Ty_FixedArray element length =>
      let '(r, count) := below element count in
      if r then below length count else (false, count)
    | Ty_Record _ arguments | Ty_Union _ arguments => all_state below arguments count
    | _ => (true, count)
    end.

Definition type_size (ty : Ty) : option N :=
  let '(fits, count) := visit ty 0 0%N in if fits then Some count else None.

(** A message or a displayed type as a [String]. *)
Definition text_of (bs : list u8) : RString := default (str "") (from_utf8 bs).

Definition bounded_type (ty : Ty) (span : Span) : Result unit DiagnosticData :=
  if contains_error ty || bool_decide (is_Some (type_size ty)) then Ok tt
  else
    Err (Diagnostic.of_kind PolymorphicTypeExpansionLimit
      (str "polymorphic type expansion exceeds the compiler limit; simplify the type or recursion") span).

Definition require_concrete (ty : Ty) (span : Span) : Result unit DiagnosticData :=
  if contains_error ty then Ok tt
  else if any_leaf is_unknown ty then
    Err (Diagnostic.of_kind ConcreteTypeRequired (str "a concrete type is required here; add a type annotation") span)
  else bounded_type ty span.

(** ** The state *)

Record Inference := mk_Inference {
  solutions : list (option Ty);
  defaults : list (nat * Ty) }.

Definition new : Inference := mk_Inference [] [].

Definition fresh (s : Inference) : Ty * Inference :=
  (Ty_Infer (length (solutions s)), mk_Inference (solutions s ++ [None]) (defaults s)).

(** The loop that follows solved variables, which opens [resolve] and [reaches]. *)
Fixpoint chase (fuel : nat) (s : Inference) (ty : Ty) : Try Ty :=
  match fuel with
  | O => Err OutOfFuel
  | S fuel =>
    match ty with
    | Ty_Infer id =>
      solution ← or_panic (solutions s !! id);
      match solution with Some solution => chase fuel s solution | None => mret ty end
    | _ => mret ty
    end
  end.

Fixpoint resolve (fuel : nat) (s : Inference) (ty : Ty) : Try Ty :=
  match fuel with
  | O => Err OutOfFuel
  | S fuel =>
    let resolve := resolve fuel s in
    ty ← chase fuel s ty;
    match ty with
    | Ty_Partial constructor trailing => trailing ← mapM resolve trailing; mret (Ty_Partial constructor trailing)
    | Ty_Application head_ arguments =>
      head_ ← resolve head_;
      arguments ← mapM resolve arguments;
      mret (apply head_ arguments)
    | Ty_Array element => element ← resolve element; mret (Ty_Array element)
    | Ty_ArrayView element => element ← resolve element; mret (Ty_ArrayView element)
    | Ty_FixedArray element length =>
      element ← resolve element;
      length ← resolve length;
      mret (Ty_FixedArray element length)
    | Ty_List element => element ← resolve element; mret (Ty_List element)
    | Ty_Vec element => element ← resolve element; mret (Ty_Vec element)
    | Ty_Shared value kind => value ← resolve value; mret (Ty_Shared value kind)
    | Ty_Tuple elements => elements ← mapM resolve elements; mret (Ty_Tuple elements)
    | Ty_Once result => result ← resolve result; mret (Ty_Once result)
    | Ty_Reference target mutable => target ← resolve target; mret (Ty_Reference target mutable)
    | Ty_Function parameters conventions pure_ result =>
      parameters ← mapM resolve parameters;
      result ← resolve result;
      mret (function_with_conventions parameters result conventions pure_)
    | Ty_Record id arguments => arguments ← mapM resolve arguments; mret (Ty_Record id arguments)
    | Ty_Union id arguments => arguments ← mapM resolve arguments; mret (Ty_Union id arguments)
    | _ => mret ty
    end
  end.

(** ** Unification *)

(** A diagnostic of the code, or a fault of the model: a panic, or the end of the fuel. *)
Inductive Failure :=
| Rejected (d : DiagnosticData)
| Broken (fault : Fault).

(** A call that only reads. *)
Definition reading {S A} (m : S -> Try A) : M Failure S A := fun s =>
  match m s with Ok a => (Ok a, s) | Err fault => (Err (Broken fault), s) end.

Definition checking {S A} (r : Result A DiagnosticData) : M Failure S A :=
  match r with Ok a => ret a | Err d => fail (Rejected d) end.

(** [map_err] with a closure that reads the state at the error. *)
Definition map_err {S A} (m : M Failure S A) (f : DiagnosticData -> M Failure S DiagnosticData) : M Failure S A := fun s =>
  match m s with
  | (Err (Rejected d), s) => (let? d := f d in fail (Rejected d)) s
  | result => result
  end.

(** [mismatch] on the displayed types *)
Definition mismatch (expected found : list u8) (span : Span) : DiagnosticData :=
  Diagnostic.expected_found (text_of expected) (text_of found)
    (Diagnostic.of_kind TypeMismatch (text_of (txt "expected " ++ expected ++ txt ", found " ++ found)) span).

Definition mismatch_of (types : TypeContext) (expected actual : Ty) (span : Span) : Try DiagnosticData :=
  expected ← display types expected;
  found ← display types actual;
  mret (mismatch expected found span).

Definition is_mismatch (d : DiagnosticData) : bool := bool_decide (d_code d = str "E1003").

Definition update (id : nat) (ty : Ty) : M Failure Inference unit := fun s =>
  if id <? length (solutions s) then (Ok tt, mk_Inference (<[id := Some ty]> (solutions s)) (defaults s))
  else (Err (Broken Panic), s).

(** The arm of an inference variable and another type. *)
Definition bind_variable (id : nat) (ty : Ty) (span : Span) : M Failure Inference unit :=
  if any_leaf (fun ty => bool_decide (ty = Ty_Infer id)) ty then
    fail (Rejected (Diagnostic.of_kind InfiniteInferredType (str "infinite inferred type") span))
  else checking (bounded_type ty span) ;;; update id ty.

Section unify.
Context (types : TypeContext) (span : Span).

Definition not_unified (actual expected : Ty) : M Failure Inference unit :=
  let? d := reading (fun _ => mismatch_of types expected actual span) in fail (Rejected d).

Section arms.
Context (resolve : Inference -> Ty -> Try Ty) (unify : Ty -> Ty -> M Failure Inference unit).

Definition unify_all (lefts rights : list Ty) : M Failure Inference unit :=
  for_each (fun '(left_, right_) => unify left_ right_) (zip lefts rights).

(** The arm of an application and a type that is not an inference variable. *)
Definition unify_application (head_ : Ty) (arguments : list Ty) (concrete : Ty) : M Failure Inference unit :=
  let incompatible :=
    fail (Rejected (Diagnostic.of_kind ConstructorKindMismatch
      (str "type constructor application has an incompatible kind") span)) in
  match decompose concrete with
  | Some (constructor, complete) =>
    if length arguments <=? length complete then
      unify head_ (Ty_Partial constructor (drop (length arguments) complete)) ;;;
      unify_all arguments complete
    else incompatible
  | None => incompatible
  end.

(** A mismatch inside an argument of known types shows the whole types. *)
Definition unify_arguments (actual expected : Ty) (lefts rights : list Ty) : M Failure Inference unit :=
  for_each (fun '(left_, right_) =>
    map_err (unify left_ right_) (fun error =>
      if is_mismatch error && negb (any_leaf is_infer actual) && negb (any_leaf is_infer expected) then
        reading (fun _ => mismatch_of types expected actual (d_span error))
      else ret error)) (zip lefts rights).

(** What is left of a function after its first [common] parameters. *)
Definition tail (common : nat) (parameters : list Ty) (result : Ty) : Ty :=
  if length parameters =? common then result else function (drop common parameters) result.

Definition unify_resolved (actual expected : Ty) : M Failure Inference unit :=
  match actual, expected with
  | Ty_Partial left_ lefts, Ty_Partial right_ rights =>
    if bool_decide (left_ = right_) && (length lefts =? length rights) then unify_all lefts rights
    else not_unified actual expected
  | Ty_Application left_ lefts, Ty_Application right_ rights =>
    if length lefts =? length rights then unify left_ right_ ;;; unify_all lefts rights
    else unify_application left_ lefts expected
  | Ty_Application _ _, Ty_Infer id => bind_variable id actual span
  | Ty_Infer id, Ty_Application _ _ => bind_variable id expected span
  | Ty_Application head_ arguments, concrete | concrete, Ty_Application head_ arguments =>
    unify_application head_ arguments concrete
  | Ty_Infer _, Ty_ArrayView _ | Ty_ArrayView _, Ty_Infer _ => not_unified actual expected
  | Ty_Infer id, ty | ty, Ty_Infer id => bind_variable id ty span
  | Ty_Array a, Ty_Array b | Ty_ArrayView a, Ty_ArrayView b | Ty_List a, Ty_List b | Ty_Vec a, Ty_Vec b
  | Ty_Once a, Ty_Once b => unify a b
  | Ty_Reference a n, Ty_Reference b m => if eqb n m then unify a b else not_unified actual expected
  | Ty_Shared a n, Ty_Shared b m => if bool_decide (n = m) then unify a b else not_unified actual expected
  | Ty_FixedArray a n, Ty_FixedArray b m =>
    map_err (unify n m) (fun error =>
      if is_mismatch error then
        let? expected := reading (fun s => resolve s expected) in
        let? expected := reading (fun _ => display types expected) in
        let? actual := reading (fun s => resolve s actual) in
        let? actual := reading (fun _ => display types actual) in
        ret (mismatch expected actual (d_span error))
      else ret error) ;;;
    unify a b
  | Ty_Tuple a, Ty_Tuple b => if length a =? length b then unify_all a b else not_unified actual expected
  | Ty_Record a_id a, Ty_Record b_id b | Ty_Union a_id a, Ty_Union b_id b =>
    if (a_id =? b_id) && (length a =? length b) then unify_arguments actual expected a b
    else not_unified actual expected
  | Ty_Function a _ a_pure x, Ty_Function b _ b_pure y =>
    if eqb (length a =? 0) (length b =? 0) && eqb a_pure b_pure && (negb a_pure || (length a =? length b)) then
      unify_all a b ;;;
      let common := Nat.min (length a) (length b) in
      unify (tail common a x) (tail common b y)
    else not_unified actual expected
  | _, _ => not_unified actual expected
  end.
End arms.

Fixpoint unify (fuel : nat) (actual expected : Ty) : M Failure Inference unit :=
  match fuel with
  | O => fail (Broken OutOfFuel)
  | S fuel =>
    let? actual := reading (fun s => resolve fuel s actual) in
    let? expected := reading (fun s => resolve fuel s expected) in
    if bool_decide (actual = expected) || contains_error actual || contains_error expected then ret tt
    else unify_resolved (resolve fuel) (unify fuel) actual expected
  end.
End unify.

(** ** Open variables and numeric defaults *)

(** [any] of a closure that may panic. *)
Fixpoint any {A} (f : A -> Try bool) (l : list A) : Try bool :=
  match l with
  | [] => Ok false
  | x :: l => match f x with Ok false => any f l | r => r end
  end.

Definition or_else (m n : Try bool) : Try bool := match m with Ok false => n | r => r end.

Fixpoint reaches (fuel : nat) (s : Inference) (open : nat -> bool) (ty : Ty) : Try bool :=
  match fuel with
  | O => Err OutOfFuel
  | S fuel =>
    let reaches := reaches fuel s open in
    match chase fuel s ty with
    | Err fault => Err fault
    | Ok (Ty_Infer id) => Ok (open id)
    | Ok (Ty_Partial _ trailing) => any reaches trailing
    | Ok (Ty_Application head_ arguments) => or_else (reaches head_) (any reaches arguments)
    | Ok (Ty_Array inner | Ty_ArrayView inner | Ty_List inner | Ty_Vec inner | Ty_Shared inner _ | Ty_Once inner
        | Ty_Reference inner _) => reaches inner
    | Ok (Ty_FixedArray element length) => or_else (reaches element) (reaches length)
    | Ok (Ty_Tuple elements) => any reaches elements
    | Ok (Ty_Function parameters _ _ result) => or_else (any reaches parameters) (reaches result)
    | Ok (Ty_Record _ arguments | Ty_Union _ arguments) => any reaches arguments
    | Ok _ => Ok false
    end
  end.

Definition mentions (fuel : nat) (s : Inference) (ty : Ty) (root : nat) : Try bool :=
  reaches fuel s (fun id => id =? root) ty.

Definition is_open (fuel : nat) (s : Inference) (ty : Ty) : Try bool := reaches fuel s (fun _ => true) ty.

Definition default_numeric (ty default : Ty) (s : Inference) : Inference :=
  match ty with
  | Ty_Infer id => mk_Inference (solutions s) (map_or_insert id default (defaults s))
  | _ => s
  end.

Definition is_numeric_literal (fuel : nat) (s : Inference) (ty : Ty) : Try bool :=
  root ← resolve fuel s ty;
  if is_infer root then
    any (fun '(id, _) => other ← resolve fuel s (Ty_Infer id); mret (bool_decide (other = root))) (defaults s)
  else mret false.

(** [find] of the first default whose variable resolves to [root]. *)
Fixpoint find_default (fuel : nat) (s : Inference) (root : Ty) (l : list (nat * Ty)) : Try (option Ty) :=
  match l with
  | [] => mret None
  | (id, default) :: l =>
    other ← resolve fuel s (Ty_Infer id);
    if bool_decide (other = root) then mret (Some default) else find_default fuel s root l
  end.

Definition numeric_default (fuel : nat) (s : Inference) (ty : Ty) : Try (option Ty) :=
  root ← resolve fuel s ty;
  if is_infer root then find_default fuel s root (defaults s) else mret None.

Definition apply_default (fuel : nat) (entry : nat * Ty) : M Failure Inference unit :=
  let? root := reading (fun s => resolve fuel s (Ty_Infer entry.1)) in
  match root with Ty_Infer root => update root entry.2 | _ => ret tt end.

Definition apply_defaults (fuel : nat) : M Failure Inference unit := fun s =>
  for_each (apply_default fuel) (defaults s) s.
