(* ===== verification/TypeLaws.v ===== *)
(** * Types as terms

    The parts of a type and induction on them; the walks of [Types] and [Inference] as one operation on parts; and the
    reference reading of types, first-order terms in curried form, in which a complete application is the type that it
    makes and a function that returns a function is a function of more parameters. *)
From Stdlib Require Import Bool.
From stdpp Require Import list.
From S2P Require Import Prelude Faults Types Inference.
Local Open Scope nat_scope.

(** ** Parts *)

Definition parts (ty : Ty) : list Ty :=
  match ty with
  | Ty_Partial _ tys | Ty_Tuple tys | Ty_Record _ tys | Ty_Union _ tys => tys
  | Ty_Application head_ arguments => head_ :: arguments
  | Ty_Array ty | Ty_ArrayView ty | Ty_List ty | Ty_Vec ty | Ty_Once ty | Ty_Shared ty _ | Ty_Reference ty _ => [ty]
  | Ty_FixedArray element length => [element; length]
  | Ty_Function parameters _ _ result => parameters ++ [result]
  | _ => []
  end.

Lemma Ty_parts_ind (P : Ty -> Prop) : (forall t, Forall P (parts t) -> P t) -> forall t, P t.
Proof.
  intros H. fix go 1. intros t. apply H.
  destruct t; cbn [parts];
    repeat first [apply Forall_app_2 | exact (Forall_nil _) | match goal with |- Forall _ (_ :: _) => constructor; [apply go|] end];
    match goal with
    | |- Forall P ?l => exact ((fix all ts := match ts return Forall P ts with
      | [] => Forall_nil P
      | t :: ts => Forall_cons P t ts (go t) (all ts)
      end) l)
    end.
Qed.

(** [P] holds of the type and of every type inside it. *)
Inductive every (P : Ty -> Prop) (t : Ty) : Prop :=
| every_intro : P t -> Forall (every P) (parts t) -> every P t.

(** The inference variable [id] occurs in a type. *)
Inductive occurs (id : nat) : Ty -> Prop :=
| occurs_here : occurs id (Ty_Infer id)
| occurs_below t p : p ∈ parts t -> occurs id p -> occurs id t.

Lemma every_iff P t : every P t <-> P t /\ Forall (every P) (parts t).
Proof. split; [by intros []|by intros []; constructor]. Qed.

Lemma every_root P t : every P t -> P t.
Proof. by intros []. Qed.

Lemma every_parts P t : every P t -> Forall (every P) (parts t).
Proof. by intros []. Qed.

Lemma every_part P t p : every P t -> p ∈ parts t -> every P p.
Proof. intros [_ H]. by apply list.Forall_forall. Qed.

Lemma every_impl (P Q : Ty -> Prop) t : (forall u, P u -> Q u) -> every P t -> every Q t.
Proof.
  intros H. induction t as [t IH] using Ty_parts_ind. intros [Ht Hts]. constructor; [auto|].
  apply list.Forall_forall. intros p Hp. rewrite !list.Forall_forall in IH, Hts. auto.
Qed.

Lemma every_and (P Q : Ty -> Prop) t : every P t -> every Q t -> every (fun u => P u /\ Q u) t.
Proof.
  induction t as [t IH] using Ty_parts_ind. intros [Hp Hps] [Hq Hqs]. constructor; [done|].
  apply list.Forall_forall. intros p ?. rewrite !list.Forall_forall in IH, Hps, Hqs. auto.
Qed.

Lemma every_occurs (P : nat -> Prop) t :
  every (fun u => forall id, u = Ty_Infer id -> P id) t <-> forall id, occurs id t -> P id.
Proof.
  split.
  - intros H id Ho. induction Ho as [|t p Hp Ho IH]; [by apply (every_root _ _ H)|]. apply IH. by eapply every_part.
  - induction t as [t IH] using Ty_parts_ind. intros H. constructor.
    + intros id ->. apply H. constructor.
    + apply list.Forall_forall. intros p Hp. rewrite list.Forall_forall in IH. apply IH; [done|].
      intros id Ho. apply H. by econstructor.
Qed.

Lemma occurs_dec id t : occurs id t \/ every (fun u => u <> Ty_Infer id) t.
Proof.
  induction t as [t IH] using Ty_parts_ind. destruct (decide (t = Ty_Infer id)) as [->|Hne]; [left; constructor|].
  assert (Exists (occurs id) (parts t) \/ Forall (every (fun u => u <> Ty_Infer id)) (parts t)) as [H|H].
  { induction IH as [|u us [Hu|Hu] _ [Hus|Hus]]; auto. }
  - apply list.Exists_exists in H as (p & ? & ?). left. by econstructor.
  - right. by constructor.
Qed.

Lemma occurs_parts id t : occurs id t -> t = Ty_Infer id \/ exists p, p ∈ parts t /\ occurs id p.
Proof. intros []; eauto. Qed.

(** ** A type over new parts *)

Definition rebuild (t : Ty) (ts : list Ty) : Ty :=
  match t, ts with
  | Ty_Partial constructor _, _ => Ty_Partial constructor ts
  | Ty_Application _ _, head_ :: arguments => apply head_ arguments
  | Ty_Array _, [t] => Ty_Array t
  | Ty_ArrayView _, [t] => Ty_ArrayView t
  | Ty_List _, [t] => Ty_List t
  | Ty_Vec _, [t] => Ty_Vec t
  | Ty_Once _, [t] => Ty_Once t
  | Ty_Shared _ kind, [t] => Ty_Shared t kind
  | Ty_Reference _ mutable, [t] => Ty_Reference t mutable
  | Ty_FixedArray _ _, [t; n] => Ty_FixedArray t n
  | Ty_Tuple _, _ => Ty_Tuple ts
  | Ty_Record id _, _ => Ty_Record id ts
  | Ty_Union id _, _ => Ty_Union id ts
  | Ty_Function parameters conventions pure_ _, _ =>
    function_with_conventions (take (length parameters) ts) (default Ty_Error (ts !! length parameters)) conventions pure_
  | _, _ => t
  end.

Lemma mapM_try_app {A B} (f : A -> Try B) l k :
  mapM f (l ++ k) = (xs ← mapM f l; ys ← mapM f k; mret (xs ++ ys)).
Proof.
  induction l as [|x l IH]; cbn; [by destruct (mapM f k)|]. destruct (f x); [|done]. cbn. rewrite IH.
  destruct (mapM f l); [|done]. cbn. by destruct (mapM f k).
Qed.

Lemma mapM_try_Ok {A B} (f : A -> Try B) l ys : mapM f l = Ok ys <-> Forall2 (fun x y => f x = Ok y) l ys.
Proof.
  revert ys. induction l as [|x l IH]; intros ys; cbn.
  - split; [by intros [= <-]|by intros H; inversion H].
  - split.
    + destruct (f x) as [y|] eqn:Hx; [|done]. cbn. destruct (mapM f l) as [k|] eqn:Hl; [|done]. intros [= <-].
      constructor; [done|]. by apply IH.
    + intros H. inversion H as [|? y ? k Hx Hk]; subst. rewrite Hx. cbn. apply IH in Hk. by rewrite Hk.
Qed.

(** [resolve] follows the solved variables at the root, then does the parts in order. *)
Lemma resolve_S n s t :
  resolve (S n) s t = (t ← chase n s t; ts ← mapM (resolve n s) (parts t); mret (rebuild t ts)).
Proof.
  cbn [resolve]. destruct (chase n s t) as [u|]; [|done]. cbn [mbind Try_bind].
  destruct u; cbn [parts mapM]; try done;
    repeat (match goal with |- context [mapM (resolve n s) (_ ++ _)] => rewrite mapM_try_app end);
    repeat match goal with
    | |- context [mapM (resolve n s) ?l] =>
      let E := fresh in destruct (mapM (resolve n s) l) eqn:E; [apply mapM_try_Ok, Forall2_length in E|done]; cbn [mbind Try_bind]
    | |- context [resolve n s ?u] => destruct (resolve n s u); [|done]; cbn [mbind Try_bind mapM]
    end; try done.
  cbn. destruct (resolve n s u) as [r|]; [|done]. cbn. by rewrite H, take_app_length, lookup_app_r, Nat.sub_diag by done.
Qed.


(** ** Terms *)

Inductive Label :=
| Label_Leaf (t : Ty)
| Label_Constructor (constructor : Constructor)
| Label_View
| Label_Fixed
| Label_Tuple (n : nat)
| Label_Once
| Label_Arrow
| Label_Thunk
| Label_Pure (n : nat)
| Label_Reference (mutable : bool)
| Label_Shared (kind : SharedKind).

Inductive Term :=
| Unknown (id : nat)
| Constant (label : Label)
| Apply (f x : Term).

(** The arguments of a constructor, the last one first, so that a partial constructor is a prefix. *)
Definition apps (f : Term) (xs : list Term) : Term := foldr (fun x f => Apply f x) f xs.

Definition arrow (x r : Term) : Term := Apply (Apply (Constant Label_Arrow) x) r.
Definition arrows (xs : list Term) (r : Term) : Term := foldr arrow r xs.

Definition function_term (xs : list Term) (pure_ : bool) (r : Term) : Term :=
  if pure_ then Apply (apps (Constant (Label_Pure (length xs))) xs) r
  else match xs with [] => Apply (Constant Label_Thunk) r | _ => arrows xs r end.

Fixpoint term (t : Ty) : Term :=
  match t with
  | Ty_Infer id => Unknown id
  | Ty_Partial constructor trailing => apps (Constant (Label_Constructor constructor)) (term <$> trailing)
  | Ty_Application head_ arguments => apps (term head_) (term <$> arguments)
  | Ty_Record id arguments => apps (Constant (Label_Constructor (Constructor_Record id (length arguments)))) (term <$> arguments)
  | Ty_Union id arguments => apps (Constant (Label_Constructor (Constructor_Union id (length arguments)))) (term <$> arguments)
  | Ty_Array t => apps (Constant (Label_Constructor Constructor_Array)) [term t]
  | Ty_List t => apps (Constant (Label_Constructor Constructor_List)) [term t]
  | Ty_Vec t => apps (Constant (Label_Constructor Constructor_Vec)) [term t]
  | Ty_ArrayView t => Apply (Constant Label_View) (term t)
  | Ty_FixedArray t n => Apply (Apply (Constant Label_Fixed) (term n)) (term t)
  | Ty_Tuple ts => apps (Constant (Label_Tuple (length ts))) (term <$> ts)
  | Ty_Once t => Apply (Constant Label_Once) (term t)
  | Ty_Function parameters _ pure_ result => function_term (term <$> parameters) pure_ (term result)
  | Ty_Reference t mutable => Apply (Constant (Label_Reference mutable)) (term t)
  | Ty_Shared t kind => Apply (Constant (Label_Shared kind)) (term t)
  | _ => Constant (Label_Leaf t)
  end.

(** A substitution gives a term to each inference variable. *)
Fixpoint sub (theta : nat -> Term) (t : Term) : Term :=
  match t with
  | Unknown id => theta id
  | Constant label => Constant label
  | Apply f x => Apply (sub theta f) (sub theta x)
  end.

Lemma sub_apps theta f xs : sub theta (apps f xs) = apps (sub theta f) (sub theta <$> xs).
Proof. unfold apps. induction xs as [|x xs IH]; cbn; [done|]. by rewrite IH. Qed.

Lemma sub_arrows theta xs r : sub theta (arrows xs r) = arrows (sub theta <$> xs) (sub theta r).
Proof. unfold arrows. induction xs as [|x xs IH]; cbn; [done|]. by rewrite IH. Qed.

#[global] Arguments apps : simpl never.
#[global] Arguments arrows : simpl never.

Lemma sub_function theta xs pure_ r :
  sub theta (function_term xs pure_ r) = function_term (sub theta <$> xs) pure_ (sub theta r).
Proof.
  unfold function_term. destruct pure_; cbn; [by rewrite sub_apps, length_fmap|].
  destruct xs; [done|]. by rewrite sub_arrows.
Qed.

Lemma sub_Unknown t : sub Unknown t = t.
Proof. induction t as [| |f IHf x IHx]; cbn; [done..|]. by rewrite IHf, IHx. Qed.

Lemma apps_app f xs ys : apps f (xs ++ ys) = apps (apps f ys) xs.
Proof. apply foldr_app. Qed.

Lemma arrows_app xs ys r : arrows (xs ++ ys) r = arrows xs (arrows ys r).
Proof. apply foldr_app. Qed.

Lemma term_apply head_ arguments : term (apply head_ arguments) = apps (term head_) (term <$> arguments).
Proof.
  destruct head_ as [| | |constructor trailing| | | | | | | | | | | | | | | | | | | | | | | | | |]; try done. cbn.
  destruct (Nat.eqb_spec (length arguments + length trailing) (arity constructor)) as [E|]; [|done].
  rewrite <- apps_app, <- fmap_app. destruct constructor; cbn in E |- *; rewrite ?length_app; cbn; [by rewrite E..| | |];
    destruct arguments as [|x [|y arguments]]; cbn in E; try lia; (destruct trailing as [|z [|w trailing]]; cbn in E; try lia; done).
Qed.

Lemma term_flatten ps c r :
  ps <> [] ->
  let '(ps', _, r') := flatten ps c r in ps' <> [] /\ arrows (term <$> ps') (term r') = arrows (term <$> ps) (term r).
Proof.
  revert ps c. induction r as [r IH] using Ty_parts_ind. intros ps c Hps.
  destruct r as [| | | | | | | | | | | | | | | | | | | | | | | | | |more mc pure_ tail_| | |]; try done.
  destruct pure_; [by destruct more|]. destruct more as [|m more]; [done|]. cbn [flatten]. cbv zeta.
  match goal with |- context [flatten (ps ++ m :: more) ?c' tail_] => generalize c' end. intros c'.
  cbn [parts] in IH. apply Forall_app in IH as [_ [IH _]%Forall_cons_iff].
  specialize (IH (ps ++ m :: more) c'). destruct (flatten (ps ++ m :: more) c' tail_) as [[ps' c''] r'].
  destruct IH as [Hne IH]; [by destruct ps|]. split; [done|]. by rewrite IH, fmap_app, arrows_app.
Qed.

Lemma term_function ps r c pure_ :
  term (function_with_conventions ps r c pure_) = function_term (term <$> ps) pure_ (term r).
Proof.
  unfold function_with_conventions. destruct ps as [|p ps]; [done|]. destruct pure_; [done|].
  set (c' := if forallb is_own c then [] else c).
  pose proof (term_flatten (p :: ps) c' r ltac:(done)) as H. destruct (flatten (p :: ps) c' r) as [[ps' c''] r'].
  destruct H as [Hne H]. cbn [term]. destruct ps' as [|q ps']; [done|]. exact H.
Qed.

Lemma Forall2_snoc_l {A B} (R : A -> B -> Prop) xs x ys :
  Forall2 R (xs ++ [x]) ys -> exists ys' y, ys = ys' ++ [y] /\ Forall2 R xs ys' /\ R x y.
Proof.
  intros H. apply Forall2_app_inv_l in H as (ys' & k & H & Hk & ->). inversion Hk as [|? y ? ? Hxy Hnil]; subst.
  inversion Hnil; subst. by exists ys', y.
Qed.

Lemma rebuild_function ps c p r ps' r' : length ps' = length ps ->
  rebuild (Ty_Function ps c p r) (ps' ++ [r']) = function_with_conventions ps' r' c p.
Proof. intros E. cbn [rebuild]. by rewrite <- E, take_app_length, lookup_app_r, Nat.sub_diag by done. Qed.

(** Equal parts give equal types, under any two substitutions. *)
Lemma term_rebuild' theta theta' t ts : is_infer t = false ->
  Forall2 (fun t t' => sub theta (term t') = sub theta' (term t)) (parts t) ts ->
  sub theta (term (rebuild t ts)) = sub theta' (term t).
Proof.
  intros Hi H. pose proof H as Hl%Forall2_length.
  assert (forall l k, Forall2 (fun t t' => sub theta (term t') = sub theta' (term t)) l k ->
    sub theta <$> (term <$> k) = sub theta' <$> (term <$> l)) as Hmap.
  { intros l k Hlk. rewrite <- !list_fmap_compose. induction Hlk as [|x y xs ys E _ IH]; [done|]. cbn. by rewrite E, IH. }
  destruct t; try done; cbn [parts] in H, Hl;
    try (inversion H; subst; done);
    try (apply Hmap in H; cbn [rebuild term]; by rewrite !sub_apps, H, ?Hl);
    try (apply Forall2_cons_inv_l in H as (u & us & E & ->%Forall2_nil_inv_l & ->); cbn; rewrite ?sub_apps; cbn; by rewrite E).
  - apply Forall2_cons_inv_l in H as (u & us & E & Hus & ->). cbn [rebuild]. rewrite term_apply. cbn [term].
    by rewrite !sub_apps, E, (Hmap _ _ Hus).
  - apply Forall2_cons_inv_l in H as (u & us & E & (v & vs & E' & ->%Forall2_nil_inv_l & ->)%Forall2_cons_inv_l & ->).
    cbn. by rewrite E, E'.
  - apply Forall2_snoc_l in H as (ps & r & -> & Hps & E). rewrite rebuild_function by (by symmetry; eapply Forall2_length).
    rewrite term_function. cbn [term]. by rewrite !sub_function, E, (Hmap _ _ Hps).
Qed.

Lemma term_rebuild theta t ts :
  Forall2 (fun t t' => sub theta (term t') = sub theta (term t)) (parts t) ts ->
  sub theta (term (rebuild t ts)) = sub theta (term t).
Proof. intros H. destruct (is_infer t) eqn:Hi; [by destruct t|by apply term_rebuild']. Qed.

Lemma every_apply P head_ arguments :
  every P head_ -> Forall (every P) arguments -> P (apply head_ arguments) -> every P (apply head_ arguments).
Proof.
  intros Hh Ha Hp. constructor; [done|]. clear Hp. pose proof (every_parts _ _ Hh) as Hps.
  destruct head_ as [| | |constructor trailing| | | | | | | | | | | | | | | | | | | | | | | | | |]; try by constructor.
  cbn. destruct (length arguments + length trailing =? arity constructor); [|by constructor].
  assert (Forall (every P) (arguments ++ trailing)) as Hall by (apply Forall_app; split; [done|exact Hps]).
  destruct constructor; [done..| | |]; destruct (arguments ++ trailing) as [|x l]; cbn;
    first [by apply Forall_cons_iff | apply Forall_cons_iff in Hall as [? _]; by apply Forall_singleton].
Qed.

Lemma flatten_parts (P : Ty -> Prop) ps c r :
  (forall u, P u -> Forall P (parts u)) -> Forall P ps -> P r ->
  let '(ps', _, r') := flatten ps c r in Forall P ps' /\ P r'.
Proof.
  intros Hparts. revert ps c. induction r as [r IH] using Ty_parts_ind. intros ps c Hps Hr.
  destruct r as [| | | | | | | | | | | | | | | | | | | | | | | | | |more mc pure_ tail_| | |]; try done.
  destruct pure_; [by destruct more|]. destruct more as [|m more]; [done|].
  cbn [flatten]. cbv zeta. match goal with |- context [flatten (ps ++ m :: more) ?c' tail_] => generalize c' end. intros c'.
  cbn [parts] in IH. apply Forall_app in IH as [_ [IH _]%Forall_cons_iff].
  pose proof (Hparts _ Hr) as [Hmore [Htail _]%Forall_cons_iff]%Forall_app. apply IH; [|done].
  apply Forall_app. by split.
Qed.

Lemma every_function P ps r c pure_ :
  Forall (every P) ps -> every P r -> P (function_with_conventions ps r c pure_) ->
  every P (function_with_conventions ps r c pure_).
Proof.
  intros Hps Hr Hp. constructor; [done|]. clear Hp. unfold function_with_conventions.
  destruct ps as [|p ps]; [by apply Forall_singleton|].
  destruct pure_; [apply (Forall_app (every P) (p :: ps) [r]); split; [done|by apply Forall_singleton]|].
  set (c' := if forallb is_own c then [] else c).
  pose proof (flatten_parts (every P) (p :: ps) c' r (every_parts P) Hps Hr) as H.
  destruct (flatten (p :: ps) c' r) as [[ps' c''] r']. destruct H as [Hps' Hr']. cbn [parts]. apply Forall_app.
  split; [done|by apply Forall_singleton].
Qed.

Lemma every_rebuild P t ts :
  length ts = length (parts t) -> Forall (every P) ts -> P (rebuild t ts) -> every P (rebuild t ts).
Proof.
  intros Hl Hts Hp. destruct t; cbn [parts] in Hl; try (constructor; done);
    try (destruct ts as [|u [|v ts]]; cbn in Hl; try lia; exact (every_intro P _ Hp Hts)).
  - destruct ts as [|h args]; cbn in Hl; [lia|]. apply Forall_cons_iff in Hts as [Hh Hargs]. by apply every_apply.
  - destruct ts as [|u [|v [|w ts]]]; cbn in Hl; try lia. exact (every_intro P _ Hp Hts).
  - rewrite length_app in Hl. cbn in Hl. destruct (exists_last (l := ts)) as (ps & r & ->); [by intros ->; cbn in Hl; lia|].
    rewrite length_app in Hl. cbn in Hl. apply Forall_app in Hts as [Hps [Hr _]%Forall_cons_iff].
    rewrite rebuild_function in Hp |- * by lia. by apply every_function.
Qed.

(** The root of a rebuilt type is a variable only where the type was one. *)
Lemma rebuild_infer t ts id : length ts = length (parts t) -> rebuild t ts = Ty_Infer id -> t = Ty_Infer id.
Proof.
  intros Hl. destruct t; cbn [parts] in Hl; try done; try (destruct ts as [|u [|v ts]]; cbn in Hl; try lia; done).
  - destruct ts as [|h args]; [done|]. cbn. destruct h; try done. cbn. destruct (_ =? _); [|done].
    destruct constructor; try done; by destruct (args ++ trailing).
  - by destruct ts as [|u [|v [|w ts]]].
  - cbn. unfold function_with_conventions. by destruct (match take _ _ with [] => _ | _ => _ end) as [[? ?] ?].
Qed.

(** ** Walks that look *)

Definition is_compound (t : Ty) : bool :=
  match t with
  | Ty_Record _ ts | Ty_Union _ ts => negb (length ts =? 0)
  | Ty_Partial _ _ | Ty_Tuple _ | Ty_Function _ _ _ _ => true
  | _ => negb (length (parts t) =? 0)
  end.

Lemma map_state_app {S A B} (g : A -> S -> B * S) l k s :
  map_state g (l ++ k) s = let '(xs, s) := map_state g l s in let '(ys, s) := map_state g k s in (xs ++ ys, s).
Proof.
  revert s. induction l as [|x l IH]; intros s; cbn; [by destruct (map_state g k s)|].
  destruct (g x s) as [y s1]. rewrite IH. destruct (map_state g l s1) as [xs s2]. by destruct (map_state g k s2).
Qed.

Lemma map_state_length {S A B} (g : A -> S -> B * S) l s : length (fst (map_state g l s)) = length l.
Proof.
  revert s. induction l as [|x l IH]; intros s; cbn; [done|]. destruct (g x s) as [y s1]. specialize (IH s1).
  destruct (map_state g l s1). cbn in *. by rewrite IH.
Qed.

Lemma map_type_eq {S} (f : Ty -> S -> Ty * S) t s :
  map_type f t s =
  if is_compound t then let '(ts, s) := map_state (map_type f) (parts t) s in (rebuild t ts, s) else f t s.
Proof.
  destruct t; try done; cbn;
    try (destruct (map_type f _ s); done);
    try (destruct (map_state (map_type f) _ s); done);
    try (destruct arguments as [|x args]; [done|]; cbn; destruct (map_type f x s) as [y s1];
      by destruct (map_state (map_type f) args s1)).
  - destruct (map_type f t s) as [h s1]. by destruct (map_state (map_type f) arguments s1).
  - destruct (map_type f t1 s) as [e s1]. by destruct (map_type f t2 s1).
  - rewrite map_state_app. pose proof (map_state_length (map_type f) parameters s) as Hl.
    destruct (map_state (map_type f) parameters s) as [ps s1]. cbn in Hl |- *. destruct (map_type f t s1) as [r s2].
    by rewrite <- Hl, take_app_length, lookup_app_r, Nat.sub_diag by done.
Qed.

(** A walk finds [seen] on the types without parts, and only those are looked at. *)
Lemma any_leaf_false seen t :
  (forall u, is_compound u = true -> seen u = false) -> any_leaf seen t = false <-> every (fun u => seen u = false) t.
Proof.
  intros Hseen. unfold any_leaf. set (f := fun ty flag => (ty, flag || seen ty)).
  enough (forall flag, snd (map_type f t flag) = false <-> flag = false /\ every (fun u => seen u = false) t) as H.
  { rewrite H. naive_solver. }
  induction t as [t IH] using Ty_parts_ind. intros flag. rewrite map_type_eq, every_iff. destruct (is_compound t) eqn:E.
  - assert (snd (map_state (map_type f) (parts t) flag) = false <->
      flag = false /\ Forall (every (fun u => seen u = false)) (parts t)) as Hm.
    { revert flag. induction IH as [|u us Hu _ IHus]; intros flag; cbn; [split; [by split; [|constructor]|by intros []]|].
      specialize (Hu flag). destruct (map_type f u flag) as [v flag1]. specialize (IHus flag1).
      destruct (map_state (map_type f) us flag1) as [vs flag2]. cbn in *. rewrite IHus, Hu, Forall_cons_iff. naive_solver. }
    destruct (map_state (map_type f) (parts t) flag). cbn in *. rewrite Hm. specialize (Hseen _ E). naive_solver.
  - assert (parts t = []) as ->.
    { destruct t; try done; by destruct arguments. }
    cbn. rewrite orb_false_iff. split; [intros []; by repeat split|naive_solver].
Qed.

Lemma is_infer_true t : is_infer t = true <-> exists id, t = Ty_Infer id.
Proof. split; [destruct t; try done; eauto|by intros [? ->]]. Qed.

Lemma any_leaf_occurs id t : any_leaf (fun ty => bool_decide (ty = Ty_Infer id)) t = false <-> ~ occurs id t.
Proof.
  rewrite any_leaf_false.
  - split.
    + intros H Ho. apply (every_impl _ (fun u => forall i, u = Ty_Infer i -> i <> id)) in H.
      * by apply (proj1 (every_occurs (fun i => i <> id) t) H id).
      * intros u Hu%bool_decide_eq_false i -> ->. done.
    + intros H. destruct (occurs_dec id t) as [|He]; [done|]. eapply every_impl; [|exact He]. intros u Hu.
      by apply bool_decide_eq_false.
  - intros u Hu. apply bool_decide_eq_false. by intros ->.
Qed.
