(* ===== verification/InferenceLaws.v ===== *)
(** * Well-formed types, solutions and the substitutions that satisfy them

    The types that the checker builds, the resolution of a type under solutions without a cycle, and what resolving
    keeps: the reading of the type under every substitution that satisfies the solutions. *)
From Stdlib Require Import Bool.
From stdpp Require Import list.
From S2P Require Import Prelude Wire Faults Text Types Inference TypeLaws.
Local Open Scope nat_scope.

(** ** Well-formed types *)

Section well_formed.
Context (types : TypeContext) (variables : nat) (strict : bool).

Definition named (constructor : Constructor) : Prop :=
  match constructor with
  | Constructor_Record id _ => id < length (records types)
  | Constructor_Union id _ => id < length (unions types)
  | _ => True
  end.

(** A declaration or a variable exists, an application has arguments and a partial constructor lacks some. A [strict]
    type has no erroneous part. *)
Definition node (t : Ty) : Prop :=
  match t with
  | Ty_Error => strict = false
  | Ty_Infer id => id < variables
  | Ty_Partial constructor trailing => named constructor /\ length trailing < arity constructor
  | Ty_Application _ arguments => arguments <> []
  | Ty_Simd ty => uval (SimdType_bits ty) <> 0%N
  | Ty_Record id arguments => named (Constructor_Record id (length arguments))
  | Ty_Union id arguments => named (Constructor_Union id (length arguments))
  | _ => True
  end.

Abbreviation well_formed := (every node).

Lemma node_apply head_ arguments : node head_ -> arguments <> [] -> node (apply head_ arguments).
Proof.
  intros Hh Ha. destruct head_; try done. cbn in Hh |- *. destruct (_ =? _); [|done].
  destruct constructor; try exact (proj1 Hh); by destruct (arguments ++ trailing).
Qed.

Lemma node_rebuild t ts : node t -> Forall well_formed ts -> length ts = length (parts t) -> node (rebuild t ts).
Proof.
  intros Ht Hts Hl. destruct t; cbn [parts] in Hl; try done;
    try (destruct ts as [|u [|v ts]]; cbn in Hl; try lia; done).
  - cbn in Ht |- *. by rewrite Hl.
  - destruct ts as [|h args]; [done|]. apply Forall_cons_iff in Hts as [[Hh _] _]. apply node_apply; [done|].
    destruct arguments; [done|]. by destruct args.
  - by destruct ts as [|u [|v [|w ts]]].
  - cbn. unfold function_with_conventions. by destruct (match take _ _ with [] => _ | _ => _ end) as [[? ?] ?].
Qed.

Lemma well_formed_rebuild t ts :
  node t -> Forall well_formed ts -> length ts = length (parts t) -> well_formed (rebuild t ts).
Proof. intros. apply every_rebuild; [done..|]. by apply node_rebuild. Qed.

Lemma well_formed_function ps r : Forall well_formed ps -> well_formed r -> well_formed (function ps r).
Proof.
  intros. apply every_function; [done..|]. unfold function_with_conventions.
  by destruct (match ps with [] => _ | _ => _ end) as [[? ?] ?].
Qed.

(** ** What a message reads *)

Lemma mapM_returns {A B} (f : A -> Try B) l : Forall (fun x => exists y, f x = Ok y) l -> exists ys, mapM f l = Ok ys.
Proof.
  induction 1 as [|x l [y Hy] _ [ys IH]]; [by exists []|]. exists (y :: ys). cbn. rewrite Hy. cbn. by rewrite IH.
Qed.

Lemma constructor_name_returns constructor : named constructor -> exists bs, constructor_name types constructor = Ok bs.
Proof.
  destruct constructor; cbn; try (eexists; reflexivity).
  - intros [name ->]%lookup_lt_is_Some. by eexists.
  - intros [name ->]%lookup_lt_is_Some. by eexists.
Qed.

Lemma simd_name_returns ty : uval (SimdType_bits ty) <> 0%N -> exists bs, Simd.name ty = Ok bs.
Proof. intros H. unfold Simd.name, Simd.lanes. rewrite (proj2 (N.eqb_neq _ _) H). by eexists. Qed.

Lemma display_returns t : well_formed t -> exists bs, display types t = Ok bs.
Proof.
  induction t as [t IH] using Ty_parts_ind. intros [Ht Hts].
  assert (Forall (fun t => exists bs, display types t = Ok bs) (parts t)) as Hall.
  { apply list.Forall_forall. intros u Hu. rewrite !list.Forall_forall in IH, Hts. auto. }
  clear IH Hts. assert (forall l, Forall (fun t => exists bs, display types t = Ok bs) l ->
    exists bs, mapM (fun ty => text ← display types ty; mret (parenthesized ty text)) l = Ok bs) as Hpar.
  { intros l Hl. apply mapM_returns. eapply list.Forall_impl; [exact Hl|]. intros u [bs E]. exists (parenthesized u bs). cbn. by rewrite E. }
  destruct t; cbn [parts] in Hall; try (eexists; reflexivity);
    try (apply Forall_cons_iff in Hall as [[bs E] _]; cbn; rewrite E; by eexists).
  - cbn in Ht. destruct Ht as [[bs E]%constructor_name_returns _]. cbn. rewrite E. apply mapM_returns in Hall as [bss Hbss].
    destruct trailing; [by eexists|]. cbn [mbind Try_bind]. rewrite Hbss. by eexists.
  - apply Forall_cons_iff in Hall as [[bs E] Hargs]. apply mapM_returns in Hargs as [bss Hbss]. cbn. rewrite E. cbn.
    rewrite Hbss. by eexists.
  - by apply simd_name_returns.
  - cbn in Ht. apply lookup_lt_is_Some in Ht as [name Hname]. apply mapM_returns in Hall as [bss Hbss]. cbn. rewrite Hname.
    destruct arguments; [by eexists|]. cbn [or_panic mbind Try_bind]. rewrite Hbss. by eexists.
  - cbn in Ht. apply lookup_lt_is_Some in Ht as [name Hname]. apply mapM_returns in Hall as [bss Hbss]. cbn. rewrite Hname.
    destruct arguments; [by eexists|]. cbn [or_panic mbind Try_bind]. rewrite Hbss. by eexists.
  - apply Forall_cons_iff in Hall as [[bs E] [[bs' E'] _]%Forall_cons_iff]. cbn. rewrite E. cbn. rewrite E'. by eexists.
  - apply Hpar in Hall as [bss Hbss]. cbn [display]. rewrite Hbss. by eexists.
  - apply Forall_app in Hall as [[bss Hbss]%Hpar [[bs E] _]%Forall_cons_iff]. cbn [display].
    destruct parameters; rewrite ?Hbss; cbn [mbind Try_bind]; rewrite E; by eexists.
Qed.

End well_formed.

Abbreviation well_formed types variables strict := (every (node types variables strict)).

Lemma contains_error_every t : contains_error t = false <-> every (fun u => u <> Ty_Error) t.
Proof.
  induction t as [t IH] using Ty_parts_ind. rewrite every_iff.
  assert (forall l, Forall (fun t => contains_error t = false <-> every (fun u => u <> Ty_Error) t) l ->
    existsb contains_error l = false <-> Forall (every (fun u => u <> Ty_Error)) l) as Hl.
  { induction 1 as [|x l Hx _ IHl]; cbn; [by split|]. by rewrite orb_false_iff, Forall_cons_iff, Hx, IHl. }
  assert (forall x l, Forall (fun t => contains_error t = false <-> every (fun u => u <> Ty_Error) t) (x :: l) ->
    contains_error x || existsb contains_error l = false <-> Forall (every (fun u => u <> Ty_Error)) (x :: l)) as Hc.
  { intros x l H. exact (Hl (x :: l) H). }
  assert (forall l x, Forall (fun t => contains_error t = false <-> every (fun u => u <> Ty_Error) t) (l ++ [x]) ->
    existsb contains_error l || contains_error x = false <-> Forall (every (fun u => u <> Ty_Error)) (l ++ [x])) as Hs.
  { intros l x [H1%Hl H2%Hl]%Forall_app. rewrite orb_false_iff, Forall_app, H1. cbn in H2. rewrite orb_false_r in H2. by rewrite H2. }
  destruct t; cbn [parts] in IH |- *; cbn [contains_error].
  all: try (split; [done|by intros [? _]]).
  all: try (rewrite (Hl _ IH); split; [by split|by intros [_ ?]]).
  all: try (rewrite (Hc _ _ IH); split; [by split|by intros [_ ?]]).
  all: try (rewrite (Hs _ _ IH); split; [by split|by intros [_ ?]]).
  all: try (apply Hl in IH; cbn [existsb] in IH; rewrite orb_false_r in IH; rewrite IH; split; [by split|by intros [_ ?]]).
  all: try (split; [by repeat constructor|done]).
Qed.

Lemma well_formed_strict types n t : well_formed types n true t -> contains_error t = false.
Proof. intros H. apply contains_error_every. eapply every_impl; [|exact H]. by intros u Hu ->. Qed.

Lemma well_formed_clean types n strict t : well_formed types n strict t -> contains_error t = false -> well_formed types n true t.
Proof.
  intros H Hc%contains_error_every. eapply every_impl; [|exact (every_and _ _ _ H Hc)]. intros u [Hu Hne].
  by destruct u.
Qed.

(** ** Solutions *)

Definition solved (s : Inference) (id : nat) (t : Ty) : Prop := solutions s !! id = Some (Some t).
Definition open (s : Inference) (id : nat) : Prop := solutions s !! id = Some None.

(** [y] occurs in the solution of [x]. *)
Definition below (s : Inference) (y x : nat) : Prop := exists t, solved s x t /\ occurs y t.

(** No variable occurs in itself, however many solutions one follows. *)
Definition acyclic (s : Inference) : Prop := forall id, Acc (below s) id.

(** A substitution satisfies the solutions. *)
Definition models (theta : nat -> Term) (s : Inference) : Prop :=
  forall id t, solved s id t -> theta id = sub theta (term t).

Definition equates (theta : nat -> Term) (a b : Ty) : Prop := sub theta (term a) = sub theta (term b).

Record state_ok (types : TypeContext) (n : nat) (strict : bool) (s : Inference) : Prop := {
  state_variables : length (solutions s) = n;
  state_solutions : forall id t, solved s id t -> well_formed types n strict t;
  state_acyclic : acyclic s }.

Lemma open_solved s id t : open s id -> solved s id t -> False.
Proof. unfold open, solved. congruence. Qed.

Lemma open_acc s id : open s id -> Acc (below s) id.
Proof. intros Ho. constructor. intros y (t & Ht & _). by apply open_solved with (t := t) in Ho. Qed.

Lemma Forall2_left {A B} (P : A -> Prop) (R Q : A -> B -> Prop) l k :
  Forall P l -> Forall2 R l k -> (forall x y, P x -> R x y -> Q x y) -> Forall2 Q l k.
Proof. intros Hl H HQ. induction H; constructor; apply Forall_cons_iff in Hl as [? ?]; auto. Qed.

Section resolve.
Context (types : TypeContext) (n : nat) (strict : bool) (s : Inference).

Lemma chase_spec fuel t t' :
  (forall id t, solved s id t -> well_formed types n strict t) -> chase fuel s t = Ok t' ->
  (well_formed types n strict t -> well_formed types n strict t') /\
  (forall id, t' = Ty_Infer id -> open s id) /\
  (forall theta, models theta s -> sub theta (term t') = sub theta (term t)).
Proof.
  intros Hs. revert t. induction fuel as [|fuel IH]; intros t; cbn; [done|].
  destruct t; try (by intros [= <-]). unfold or_panic. destruct (solutions s !! id) as [[t|]|] eqn:E; cbn; [| |done].
  - intros H. apply IH in H as (Hw & Ho & Hm). split; [|split; [done|]].
    + intros _. by eapply Hw, Hs.
    + intros theta Ht. rewrite Hm by done. symmetry. by apply Ht.
  - intros [= <-]. split; [done|]. split; [|done]. by intros id' [= ->].
Qed.

(** What resolving gives: the open variables only, and the same type under the solutions. *)
Lemma resolve_spec fuel t r :
  (forall id t, solved s id t -> well_formed types n strict t) -> well_formed types n strict t ->
  resolve fuel s t = Ok r ->
  well_formed types n strict r /\ (forall id, occurs id r -> open s id) /\
  (forall theta, models theta s -> sub theta (term r) = sub theta (term t)).
Proof.
  intros Hs. revert t r. induction fuel as [|fuel IH]; intros t r Ht; [done|].
  rewrite resolve_S. destruct (chase fuel s t) as [u|] eqn:Hu; [|done]. cbn.
  destruct (mapM (resolve fuel s) (parts u)) as [ts|] eqn:Hts; [|done]. cbn. intros [= <-].
  apply chase_spec in Hu as (Hw & Ho & Hm); [|done]. specialize (Hw Ht). apply mapM_try_Ok in Hts.
  pose proof Hts as Hl%Forall2_length.
  assert (Forall2 (fun t r => well_formed types n strict r /\ (forall id, occurs id r -> open s id) /\
    forall theta, models theta s -> sub theta (term r) = sub theta (term t)) (parts u) ts) as Hall.
  { eapply Forall2_left; [exact (every_parts _ _ Hw)|exact Hts|]. intros x y Hx E. by apply IH. }
  split; [|split].
  - apply well_formed_rebuild; [by apply every_root| |done].
    eapply Forall2_Forall_r; [exact Hall|]. apply list.Forall_forall. by intros x _ y (? & _).
  - apply every_occurs. apply every_rebuild; [done| |].
    + eapply Forall2_Forall_r; [exact Hall|]. apply list.Forall_forall. intros x _ y (_ & Hy & _). by apply every_occurs.
    + intros id E. apply rebuild_infer in E; [|done]. by apply Ho.
  - intros theta Htheta. rewrite term_rebuild; [by apply Hm|]. apply (list.Forall2_impl _ _ _ _ Hall). intros x y (_ & _ & Hxy). by apply Hxy.
Qed.

(** A type whose variables are open resolves to itself, but for the form of functions and applications. *)
Lemma resolve_open fuel t r :
  (forall id, occurs id t -> open s id) -> resolve fuel s t = Ok r -> term r = term t.
Proof.
  revert t r. induction fuel as [|fuel IH]; intros t r Ht; [done|]. rewrite resolve_S.
  assert (chase fuel s t = Ok t \/ chase fuel s t = Err OutOfFuel) as [->| ->]; [|cbn|done].
  { destruct fuel as [|fuel]; [by right|left]. cbn. destruct t; try done. rewrite (Ht id) by constructor. done. }
  destruct (mapM (resolve fuel s) (parts t)) as [ts|] eqn:Hts; [|done]. cbn. intros [= <-].
  rewrite <- (sub_Unknown (term (rebuild t ts))), <- (sub_Unknown (term t)). apply term_rebuild.
  apply mapM_try_Ok in Hts. assert (Forall (fun p => forall id, occurs id p -> open s id) (parts t)) as Hps.
  { apply list.Forall_forall. intros p Hp id Ho. apply Ht. by econstructor. }
  clear Ht. induction Hts as [|p q ps qs Hpq _ IHps]; [done|]. apply Forall_cons_iff in Hps as [Hp Hps].
  constructor; [|by apply IHps]. by rewrite (IH _ _ Hp Hpq).
Qed.

(** ** Fuel *)

Lemma chase_more fuel fuel' t r : chase fuel s t = Ok r -> fuel <= fuel' -> chase fuel' s t = Ok r.
Proof.
  revert fuel' t. induction fuel as [|fuel IH]; intros fuel' t; [done|]. destruct fuel' as [|fuel']; [lia|].
  cbn. destruct t; try done. destruct (or_panic (solutions s !! id)) as [[u|]|]; cbn; try done. intros. apply IH; [done|lia].
Qed.

Lemma resolve_more fuel fuel' t r : resolve fuel s t = Ok r -> fuel <= fuel' -> resolve fuel' s t = Ok r.
Proof.
  revert fuel' t r. induction fuel as [|fuel IH]; intros fuel' t r; [done|]. destruct fuel' as [|fuel']; [lia|].
  rewrite !resolve_S. destruct (chase fuel s t) as [u|] eqn:Hu; [|done]. intros H Hle.
  rewrite (chase_more _ fuel' _ _ Hu) by lia. cbn in H |- *.
  destruct (mapM (resolve fuel s) (parts u)) as [ts|] eqn:Hts; [|done]. cbn in H. apply mapM_try_Ok in Hts.
  enough (mapM (resolve fuel' s) (parts u) = Ok ts) as ->; [done|]. apply mapM_try_Ok.
  eapply list.Forall2_impl; [exact Hts|]. intros x y Hxy. apply IH; [done|lia].
Qed.

Definition resolves (t : Ty) : Prop := exists fuel r, resolve fuel s t = Ok r.

Lemma resolves_all ts : Forall resolves ts -> exists fuel rs, mapM (resolve fuel s) ts = Ok rs.
Proof.
  induction 1 as [|t ts (f & r & Hr) _ (g & rs & Hrs)]; [by exists 0, []|].
  exists (Nat.max f g), (r :: rs). apply mapM_try_Ok. apply mapM_try_Ok in Hrs. constructor.
  - apply (resolve_more _ _ _ _ Hr). lia.
  - eapply list.Forall2_impl; [exact Hrs|]. intros x y Hxy. apply (resolve_more _ _ _ _ Hxy). lia.
Qed.

Lemma mapM_resolve_more fuel fuel' ts rs :
  mapM (resolve fuel s) ts = Ok rs -> fuel <= fuel' -> mapM (resolve fuel' s) ts = Ok rs.
Proof.
  rewrite !mapM_try_Ok. intros H Hle. eapply list.Forall2_impl; [exact H|]. intros x y Hxy. by apply (resolve_more fuel).
Qed.

Lemma resolve_solution fuel id u r : solved s id u -> resolve fuel s u = Ok r -> resolve (S fuel) s (Ty_Infer id) = Ok r.
Proof.
  intros E Hr. destruct fuel as [|fuel]; [done|]. rewrite resolve_S in Hr |- *.
  cbn [chase]. unfold or_panic. rewrite E. cbn [mbind Try_bind].
  destruct (chase fuel s u) as [v|] eqn:Hv; [|done]. cbn [mbind Try_bind] in Hr |- *.
  destruct (mapM (resolve fuel s) (parts v)) as [ts|] eqn:Hts; [|done]. apply (mapM_resolve_more _ (S fuel)) in Hts; [|lia].
  by rewrite Hts.
Qed.

Lemma resolves_solution id u : solved s id u -> resolves u -> resolves (Ty_Infer id).
Proof. intros E (fuel & r & Hr). exists (S fuel), r. by eapply resolve_solution. Qed.

Lemma resolve_agree fuel fuel' t r r' : resolve fuel s t = Ok r -> resolve fuel' s t = Ok r' -> r = r'.
Proof.
  intros H H'. apply (resolve_more _ (Nat.max fuel fuel')) in H; [|lia]. apply (resolve_more _ (Nat.max fuel fuel')) in H'; [|lia].
  congruence.
Qed.

Lemma resolves_parts u : is_infer u = false -> Forall resolves (parts u) -> resolves u.
Proof.
  intros Hu (fuel & ts & Hts)%resolves_all. exists (S (S fuel)), (rebuild u ts). rewrite resolve_S.
  assert (chase (S fuel) s u = Ok u) as -> by (by destruct u). cbn [mbind Try_bind].
  by rewrite (mapM_resolve_more _ (S fuel) _ _ Hts) by lia.
Qed.

Lemma resolves_occurs t : (forall id, occurs id t -> resolves (Ty_Infer id)) -> resolves t.
Proof.
  induction t as [t IH] using Ty_parts_ind. intros H. destruct (is_infer t) eqn:Ei.
  - apply is_infer_true in Ei as [id ->]. apply H. constructor.
  - apply resolves_parts; [done|]. apply list.Forall_forall. intros p Hp. rewrite list.Forall_forall in IH.
    apply IH; [done|]. intros id Ho. apply H. by econstructor.
Qed.

(** Resolving ends, and does not panic, when the variables exist and no solution is cyclic. *)
Lemma resolve_returns t : state_ok types n strict s -> well_formed types n strict t -> resolves t.
Proof.
  intros [Hn Hs Hacyclic]. assert (forall t id, well_formed types n strict t -> occurs id t -> id < length (solutions s)) as Hin.
  { intros u id Hu. revert id. apply every_occurs. eapply every_impl; [|exact Hu]. intros v Hv id ->. rewrite Hn. exact Hv. }
  intros Ht. apply resolves_occurs. intros id Hid%Hin; [|done]. clear t Ht. induction (Hacyclic id) as [id _ IH].
  destruct (lookup_lt_is_Some_2 _ _ Hid) as [[u|] E].
  - apply (resolves_solution id u E), resolves_occurs. intros y Hy. apply IH; [by exists u|].
    apply (Hin u); [by eapply Hs|done].
  - exists 2, (Ty_Infer id). cbn. unfold or_panic. by rewrite E.
Qed.
End resolve.
