(* ===== verification/UnifyLaws.v ===== *)
(** * Which types unify, and the outcome

    Terms compared by their heads, the cases of two resolved types, and what binding a variable does to the solutions.
    What a computation that makes pairs of types equal does to the solutions is one relation, with rules for sequences,
    changed diagnostics and bound variables. *)
From Stdlib Require Import Bool.
From stdpp Require Import list.
From S2P Require Import Prelude Wire Syntax Faults Kinds Text Render Report Types Inference.
From S2P Require Import TypeLaws.
From S2P Require Import InferenceLaws.
Local Open Scope nat_scope.
Local Open Scope monad_scope.

(** ** Terms *)

Fixpoint head_label (t : Term) : option Label :=
  match t with Unknown _ => None | Constant label => Some label | Apply f _ => head_label f end.

Fixpoint arity_of (t : Term) : nat := match t with Apply f _ => S (arity_of f) | _ => 0 end.

Fixpoint term_size (t : Term) : nat := match t with Apply f x => S (term_size f + term_size x) | _ => 1 end.

Lemma apps_inj f g xs ys : length xs = length ys -> apps f xs = apps g ys <-> f = g /\ xs = ys.
Proof.
  unfold apps. revert ys. induction xs as [|x xs IH]; intros [|y ys]; cbn; try done; [naive_solver|].
  intros [= Hl]. split; [intros [= H ->]; apply IH in H as [-> ->]; done|by intros [-> [= -> ->]]].
Qed.

Lemma head_apps f xs : head_label (apps f xs) = head_label f.
Proof. unfold apps. by induction xs. Qed.

Lemma arity_apps f xs : arity_of (apps f xs) = length xs + arity_of f.
Proof. unfold apps. induction xs as [|x xs IH]; cbn; [done|]. by rewrite IH. Qed.

Lemma size_positive t : 0 < term_size t.
Proof. destruct t; cbn; lia. Qed.

Lemma size_apps f xs : term_size f <= term_size (apps f xs) /\ (xs <> [] -> term_size f < term_size (apps f xs)) /\
  forall x, x ∈ xs -> term_size x < term_size (apps f xs).
Proof.
  unfold apps. induction xs as [|x xs (IH1 & IH2 & IH3)]; cbn; [split; [done|split; [done|by intros x ?%elem_of_nil]]|].
  split; [lia|split; [lia|]]. intros y [->|Hy]%elem_of_cons; [lia|]. specialize (IH3 _ Hy). lia.
Qed.

Lemma size_arrows xs r : term_size r <= term_size (arrows xs r) /\ (xs <> [] -> term_size r < term_size (arrows xs r)) /\
  forall x, x ∈ xs -> term_size x < term_size (arrows xs r).
Proof.
  unfold arrows. induction xs as [|x xs (IH1 & IH2 & IH3)]; cbn; [split; [done|split; [done|by intros x ?%elem_of_nil]]|].
  split; [lia|split; [lia|]]. intros y [->|Hy]%elem_of_cons; [lia|]. specialize (IH3 _ Hy). lia.
Qed.

Lemma size_function xs pure_ r : term_size r < term_size (function_term xs pure_ r) /\
  forall x, x ∈ xs -> term_size x < term_size (function_term xs pure_ r).
Proof.
  unfold function_term. destruct pure_.
  - cbn. split; [lia|]. intros x Hx. pose proof (proj2 (proj2 (size_apps (Constant (Label_Pure (length xs))) xs)) x Hx). lia.
  - destruct xs as [|x xs]; [cbn; split; [lia|by intros x ?%elem_of_nil]|].
    pose proof (size_arrows (x :: xs) r) as (_ & H & Hx). split; [by apply H|done].
Qed.

(** A part of a well-formed type is a smaller term. *)
Lemma part_smaller types n strict theta t p : node types n strict t -> p ∈ parts t ->
  term_size (sub theta (term p)) < term_size (sub theta (term t)).
Proof.
  intros Ht Hp.
  assert (forall f ts, p ∈ ts -> term_size (sub theta (term p)) < term_size (sub theta (apps f (term <$> ts)))) as Happs.
  { intros f ts Hts. rewrite sub_apps. apply size_apps. apply list_elem_of_fmap. exists (term p). split; [done|].
    by apply list_elem_of_fmap_2. }
  destruct t; cbn [parts] in Hp; try (by apply elem_of_nil in Hp); try (cbn [term]; apply Happs; done);
    try (apply list_elem_of_singleton in Hp as ->; cbn [term]; unfold apps; cbn; lia).
  - cbn in Ht |- *. apply elem_of_cons in Hp as [->|Hp]; [|by apply Happs]. rewrite sub_apps.
    apply (proj1 (proj2 (size_apps (sub theta (term t)) (sub theta <$> (term <$> arguments))))). by destruct arguments.
  - apply elem_of_cons in Hp as [->|Hp%list_elem_of_singleton]; [cbn; lia|]. subst. cbn. lia.
  - cbn [term]. rewrite sub_function. apply elem_of_app in Hp as [Hp|Hp%list_elem_of_singleton].
    + apply size_function. apply list_elem_of_fmap. exists (term p). split; [done|]. by apply list_elem_of_fmap_2.
    + subst. exact (proj1 (size_function _ _ _)).
Qed.

(** A variable inside another type is smaller than it, so no substitution makes them equal. *)
Lemma occurs_smaller types n strict theta id t : well_formed types n strict t -> occurs id t ->
  term_size (theta id) <= term_size (sub theta (term t)) /\ (t <> Ty_Infer id -> term_size (theta id) < term_size (sub theta (term t))).
Proof.
  intros Ht Ho. induction Ho as [|t p Hp Ho IH]; [by split|].
  destruct (IH (every_part _ _ _ Ht Hp)) as [IH1 _].
  pose proof (part_smaller types n strict theta t p (every_root _ _ Ht) Hp). split; intros; lia.
Qed.

Lemma occurs_distinct types n strict theta id t : well_formed types n strict t -> occurs id t -> t <> Ty_Infer id ->
  ~ equates theta (Ty_Infer id) t.
Proof. intros Ht Ho Hne E. pose proof (proj2 (occurs_smaller _ _ _ theta _ _ Ht Ho) Hne) as H. unfold equates in E. cbn in E. rewrite E in H. lia. Qed.

(** ** Roots *)

(** The label and the number of arguments of a type that is neither a variable nor an application. *)
Definition root (t : Ty) : option (Label * nat) :=
  match t with
  | Ty_Infer _ | Ty_Application _ _ => None
  | Ty_Partial constructor trailing => Some (Label_Constructor constructor, length trailing)
  | Ty_Record id arguments => Some (Label_Constructor (Constructor_Record id (length arguments)), length arguments)
  | Ty_Union id arguments => Some (Label_Constructor (Constructor_Union id (length arguments)), length arguments)
  | Ty_Array _ => Some (Label_Constructor Constructor_Array, 1)
  | Ty_List _ => Some (Label_Constructor Constructor_List, 1)
  | Ty_Vec _ => Some (Label_Constructor Constructor_Vec, 1)
  | Ty_ArrayView _ => Some (Label_View, 1)
  | Ty_FixedArray _ _ => Some (Label_Fixed, 2)
  | Ty_Tuple ts => Some (Label_Tuple (length ts), length ts)
  | Ty_Once _ => Some (Label_Once, 1)
  | Ty_Function parameters _ true _ => Some (Label_Pure (length parameters), S (length parameters))
  | Ty_Function [] _ false _ => Some (Label_Thunk, 1)
  | Ty_Function _ _ false _ => Some (Label_Arrow, 2)
  | Ty_Reference _ mutable => Some (Label_Reference mutable, 1)
  | Ty_Shared _ kind => Some (Label_Shared kind, 1)
  | _ => Some (Label_Leaf t, 0)
  end.

Lemma root_term theta t label k : root t = Some (label, k) ->
  head_label (sub theta (term t)) = Some label /\ arity_of (sub theta (term t)) = k.
Proof.
  destruct t; cbn; try done; try (by intros [= <- <-]);
    try (intros [= <- <-]; rewrite sub_apps, head_apps, arity_apps; cbn; by rewrite !length_fmap, Nat.add_0_r).
  intros H. rewrite sub_function. unfold function_term. destruct pure_; [|destruct parameters; cbn in H |- *; by simplify_eq].
  assert (Label_Pure (length parameters) = label /\ S (length parameters) = k) as [<- <-] by (destruct parameters; naive_solver).
  cbn [head_label arity_of]. by rewrite head_apps, arity_apps, !length_fmap, Nat.add_0_r.
Qed.

Lemma root_distinct theta a b x y : root a = Some x -> root b = Some y -> x <> y -> ~ equates theta a b.
Proof.
  destruct x as [l k], y as [l' k']. intros [Ha Ha']%(root_term theta) [Hb Hb']%(root_term theta) Hne E. unfold equates in E.
  rewrite E in Ha, Ha'. rewrite Ha in Hb. injection Hb as ->. by rewrite Ha' in Hb'; subst.
Qed.

(** A substitution that makes no variable the target of an exclusive slice, which is never a type on its own. *)
Definition plain (theta : nat -> Term) : Prop := forall id, head_label (theta id) <> Some Label_View.

Lemma plain_view theta id t : plain theta -> ~ equates theta (Ty_Infer id) (Ty_ArrayView t).
Proof. intros Hp E. apply (Hp id). unfold equates in E. cbn in E. by rewrite E. Qed.

(** ** The cases of two resolved types *)

Inductive unary : (Ty -> Ty) -> Prop :=
| unary_array : unary Ty_Array
| unary_view : unary Ty_ArrayView
| unary_list : unary Ty_List
| unary_vec : unary Ty_Vec
| unary_once : unary Ty_Once
| unary_reference mutable : unary (fun t => Ty_Reference t mutable)
| unary_shared kind : unary (fun t => Ty_Shared t kind).

Definition is_application (t : Ty) : bool := match t with Ty_Application _ _ => true | _ => false end.
Definition is_array_view (t : Ty) : bool := match t with Ty_ArrayView _ => true | _ => false end.

(** The pairs that an arm of [unify] takes apart. *)
Inductive shape : Ty -> Ty -> Prop :=
| shape_partial c l r : length l = length r -> shape (Ty_Partial c l) (Ty_Partial c r)
| shape_applications h l g r : length l = length r -> shape (Ty_Application h l) (Ty_Application g r)
| shape_lengths h l g r : length l <> length r -> shape (Ty_Application h l) (Ty_Application g r)
| shape_left h l t : is_infer t = false -> is_application t = false -> shape (Ty_Application h l) t
| shape_right t h l : is_infer t = false -> is_application t = false -> shape t (Ty_Application h l)
| shape_variable id t : is_array_view t = false -> shape (Ty_Infer id) t
| shape_variable_right t id : is_array_view t = false -> is_infer t = false -> shape t (Ty_Infer id)
| shape_unary f a b : unary f -> shape (f a) (f b)
| shape_fixed a n b m : shape (Ty_FixedArray a n) (Ty_FixedArray b m)
| shape_tuple l r : length l = length r -> shape (Ty_Tuple l) (Ty_Tuple r)
| shape_record id l r : length l = length r -> shape (Ty_Record id l) (Ty_Record id r)
| shape_union id l r : length l = length r -> shape (Ty_Union id l) (Ty_Union id r)
| shape_function a c p x b d y : (a = [] <-> b = []) -> (p = true -> length a = length b) ->
    shape (Ty_Function a c p x) (Ty_Function b d p y).

Definition clashes (types : TypeContext) (span : Span) (a b : Ty) : Prop :=
  (forall resolve unify, unify_resolved types span resolve unify a b = not_unified types span a b) /\
  forall theta, plain theta -> ~ equates theta a b.

Lemma function_root a c p x : exists label k, root (Ty_Function a c p x) = Some (label, k) /\
  ((exists n, label = Label_Pure n) \/ label = Label_Thunk \/ label = Label_Arrow).
Proof. destruct p; [|destruct a]; cbn; try (by eexists _, _; eauto). destruct a; eexists _, _; eauto. Qed.

Lemma clashes_root types span a b x y :
  (forall resolve unify, unify_resolved types span resolve unify a b = not_unified types span a b) ->
  root a = Some x -> root b = Some y -> x <> y -> clashes types span a b.
Proof. intros H Ha Hb Hne. split; [done|]. intros theta _. by eapply root_distinct. Qed.

Lemma clashes_function_left types span a c p x b l k :
  (forall resolve unify, unify_resolved types span resolve unify (Ty_Function a c p x) b = not_unified types span (Ty_Function a c p x) b) ->
  root b = Some (l, k) -> (forall n, l <> Label_Pure n) -> l <> Label_Thunk -> l <> Label_Arrow ->
  clashes types span (Ty_Function a c p x) b.
Proof.
  intros H Hb H1 H2 H3. destruct (function_root a c p x) as (l' & k' & Ha & Hl). eapply clashes_root; [done..|].
  intros [= -> ->]. destruct Hl as [[? ->]|[->| ->]]; naive_solver.
Qed.

Lemma clashes_function_right types span a c p x b l k :
  (forall resolve unify, unify_resolved types span resolve unify b (Ty_Function a c p x) = not_unified types span b (Ty_Function a c p x)) ->
  root b = Some (l, k) -> (forall n, l <> Label_Pure n) -> l <> Label_Thunk -> l <> Label_Arrow ->
  clashes types span b (Ty_Function a c p x).
Proof.
  intros H Hb H1 H2 H3. destruct (function_root a c p x) as (l' & k' & Ha & Hl). eapply clashes_root; [done..|].
  intros [= -> ->]. destruct Hl as [[? ->]|[->| ->]]; naive_solver.
Qed.

Lemma shape_or_clash types n strict span a b : node types n strict a -> node types n strict b -> a <> b ->
  shape a b \/ clashes types span a b.
Proof.
  intros Ha Hb Hne.
  destruct a, b;
    try (right; eapply clashes_root; [reflexivity..|congruence]);
    try (right; eapply clashes_function_left; [reflexivity..|by intros| |]; discriminate);
    try (right; eapply clashes_function_right; [reflexivity..|by intros| |]; discriminate);
    try (left; by constructor);
    try (left; first [exact (shape_unary _ a b unary_array) | exact (shape_unary _ a b unary_view)
      | exact (shape_unary _ a b unary_list) | exact (shape_unary _ a b unary_vec) | exact (shape_unary _ a b unary_once)]);
    try (right; eapply clashes_root; [reflexivity..|]; cbn in Ha, Hb; intros [= E H]; subst; cbn in Ha, Hb; lia).
  - right. split; [done|]. intros theta Hp. by apply plain_view.
  - destruct (decide (constructor = constructor0)) as [<-|Hc]; [|right; eapply clashes_root; [|done..|congruence]].
    + destruct (decide (length trailing = length trailing0)) as [Hl|Hl]; [left; by constructor|].
      right. eapply clashes_root; [|done..|congruence]. intros R U. cbn.
      by rewrite (proj2 (Nat.eqb_neq _ _) Hl), andb_false_r.
    + intros R U. cbn. by rewrite bool_decide_eq_false_2.
  - left. destruct (decide (length arguments = length arguments0)); [by apply shape_applications|by apply shape_lengths].
  - destruct (decide (id = id0 /\ length arguments = length arguments0)) as [[<- Hl]|Hl]; [left; by constructor|].
    right. eapply clashes_root; [|done..|naive_solver]. intros R U. cbn.
    destruct (Nat.eqb_spec id id0), (Nat.eqb_spec (length arguments) (length arguments0)); naive_solver.
  - destruct (decide (id = id0 /\ length arguments = length arguments0)) as [[<- Hl]|Hl]; [left; by constructor|].
    right. eapply clashes_root; [|done..|naive_solver]. intros R U. cbn.
    destruct (Nat.eqb_spec id id0), (Nat.eqb_spec (length arguments) (length arguments0)); naive_solver.
  - right. split; [done|]. intros theta Hp E. by apply (plain_view theta id a Hp).
  - destruct (decide (length elements = length elements0)) as [Hl|Hl]; [left; by constructor|].
    right. eapply clashes_root; [|done..|naive_solver]. intros R U. cbn. by rewrite (proj2 (Nat.eqb_neq _ _) Hl).
  - destruct (decide ((parameters = [] <-> parameters0 = []) /\ pure_ = pure_0 /\ (pure_ = true -> length parameters = length parameters0)))
      as [(H1 & <- & H3)|H]; [left; by constructor|].
    right. assert (forall R U, unify_resolved types span R U (Ty_Function parameters conventions pure_ a)
      (Ty_Function parameters0 conventions0 pure_0 b) = not_unified types span (Ty_Function parameters conventions pure_ a)
      (Ty_Function parameters0 conventions0 pure_0 b)) as HU.
    { intros R U. cbn. destruct (eqb (length parameters =? 0) (length parameters0 =? 0) && eqb pure_ pure_0 &&
        (negb pure_ || (length parameters =? length parameters0))) eqn:E; [|done].
      apply andb_prop in E as [[E1%eqb_prop E2%eqb_prop]%andb_prop E3]. exfalso. apply H. split; [|split; [done|]].
      - destruct parameters, parameters0; naive_solver.
      - intros ->. by apply Nat.eqb_eq in E3. }
    destruct pure_, pure_0; [| | |]; destruct parameters, parameters0; eapply clashes_root; try done; cbn; naive_solver.
  - destruct (decide (mutable = mutable0)) as [<-|Hm]; [left; exact (shape_unary _ a b (unary_reference mutable))|].
    right. eapply clashes_root; [|done..|congruence]. intros R U. cbn. destruct mutable, mutable0; done.
  - destruct (decide (kind = kind0)) as [<-|Hm]; [left; exact (shape_unary _ a b (unary_shared kind))|].
    right. eapply clashes_root; [|done..|congruence]. intros R U. cbn. by rewrite bool_decide_eq_false_2.
Qed.

(** ** More solutions *)

Record extends (s s' : Inference) : Prop := {
  extends_defaults : defaults s' = defaults s;
  extends_solutions : Forall2 (fun o o' => is_Some o -> o' = o) (solutions s) (solutions s') }.

Definition count_open (s : Inference) : nat := length (filter (fun o => o = None) (solutions s)).

#[export] Instance extends_refl : Reflexive extends.
Proof. intros s. split; [done|]. induction (solutions s); by constructor. Qed.

#[export] Instance extends_trans : Transitive extends.
Proof.
  intros s1 s2 s3 [D1 H1] [D2 H2]. split; [congruence|]. revert H2. generalize (solutions s3).
  induction H1 as [|x y l k E1 _ IH]; intros m H2; inversion H2 as [|? z ? m' E2 Hm]; subst; constructor; [|by apply IH].
  intros Ho. specialize (E1 Ho). subst. by apply E2.
Qed.

Lemma extends_solved s s' id t : extends s s' -> solved s id t -> solved s' id t.
Proof.
  intros [_ H] Hs. destruct (Forall2_lookup_l _ _ _ _ _ H Hs) as (o & Ho & E). unfold solved. rewrite Ho. f_equal. by apply E.
Qed.

Lemma extends_length s s' : extends s s' -> length (solutions s') = length (solutions s).
Proof. intros [_ H]. symmetry. by eapply Forall2_length. Qed.

Lemma models_extends theta s s' : extends s s' -> models theta s' -> models theta s.
Proof. intros He Hm id t Hs. apply Hm. by apply (extends_solved s). Qed.

(** More solutions are fewer open variables. *)
Lemma extends_count s s' : extends s s' -> s' = s \/ count_open s' < count_open s.
Proof.
  intros [Hd H]. destruct s as [l d], s' as [k d']. cbn in *. subst d'. unfold count_open. cbn.
  enough (k = l \/ length (filter (fun o => o = None) k) < length (filter (fun o => o = None) l)) as [->|?]; auto.
  induction H as [|o o' l k E _ IH]; [by left|]. rewrite !filter_cons. destruct o as [t|].
  - rewrite E by done. destruct (decide (Some t = None)) as [?|_]; [done|]. destruct IH as [->|IH]; auto.
  - destruct (decide (None = @None Ty)) as [_|?]; [|done]. destruct (decide (o' = None)) as [->|Ho]; cbn.
    + destruct IH as [->|IH]; [by left|right; lia].
    + right. destruct IH as [->|IH]; lia.
Qed.

(** ** Diagnostics *)

(** The diagnostics that say that no types fit. *)
Definition says_clash (d : DiagnosticData) : Prop :=
  d_kind d = Some (str (kind_id TypeMismatch)) \/ d_kind d = Some (str (kind_id InfiniteInferredType)).

(** [E1003] among the diagnostics of [unify] is a mismatch. *)
Definition honest (d : DiagnosticData) : Prop := is_mismatch d = true -> says_clash d.

Lemma mismatch_clash e f span : says_clash (mismatch e f span).
Proof. by left. Qed.

Lemma of_kind_honest kind message span :
  bool_decide (str (kind_code kind) = str "E1003") = false -> honest (Diagnostic.of_kind kind message span).
Proof. intros H. unfold honest, is_mismatch. cbn. by rewrite H. Qed.

Lemma application_honest message span : honest (Diagnostic.of_kind ConstructorKindMismatch message span).
Proof. by apply of_kind_honest. Qed.

Lemma expansion_honest message span : honest (Diagnostic.of_kind PolymorphicTypeExpansionLimit message span).
Proof. by apply of_kind_honest. Qed.

Lemma application_silent message span : ~ says_clash (Diagnostic.of_kind ConstructorKindMismatch message span).
Proof. intros [H|H]; by apply (bool_decide_eq_true_2 (Some _ = Some _)) in H. Qed.

Lemma expansion_silent message span : ~ says_clash (Diagnostic.of_kind PolymorphicTypeExpansionLimit message span).
Proof. intros [H|H]; by apply (bool_decide_eq_true_2 (Some _ = Some _)) in H. Qed.

(** ** Outcomes *)

Definition all_equal (theta : nat -> Term) (pairs : list (Ty * Ty)) : Prop := Forall (fun p => equates theta p.1 p.2) pairs.

Section outcome.
Context (types : TypeContext) (n : nat) (strict : bool).

Record outcome (s : Inference) (pairs : list (Ty * Ty)) (result : Result unit Failure * Inference) : Prop := {
  outcome_state : state_ok types n strict result.2;
  outcome_extends : extends s result.2;
  outcome_principal : forall theta, models theta s -> all_equal theta pairs -> models theta result.2;
  outcome_sound : result.1 = Ok tt -> strict = true -> forall theta, models theta result.2 -> all_equal theta pairs;
  outcome_rejected : forall d, result.1 = Err (Rejected d) -> honest d /\
    (says_clash d -> forall theta, plain theta -> models theta s -> ~ all_equal theta pairs);
  outcome_panic : result.1 <> Err (Broken Panic) }.

Lemma outcome_ret s : state_ok types n strict s -> outcome s [] (ret tt s).
Proof. intros Hs. split; try done. intros _ _ theta _. by constructor. Qed.

Lemma outcome_fail s pairs d : state_ok types n strict s -> honest d ->
  (says_clash d -> forall theta, plain theta -> models theta s -> ~ all_equal theta pairs) ->
  outcome s pairs (fail (Rejected d) s).
Proof. intros Hs Hh H. split; try done. by intros d' [= <-]. Qed.

Lemma outcome_fuel s pairs : state_ok types n strict s -> outcome s pairs (fail (Broken OutOfFuel) s).
Proof. intros Hs. by split. Qed.

Lemma outcome_bind s pairs pairs' m k :
  outcome s pairs (m s) ->
  (forall s', m s = (Ok tt, s') -> state_ok types n strict s' -> extends s s' -> outcome s' pairs' (k s')) ->
  outcome s (pairs ++ pairs') (bind m (fun _ => k) s).
Proof.
  intros [H1 H2 H3 H4 H5 H6] Hk. unfold bind. destruct (m s) as [[[]|e] s1]; cbn in *.
  - destruct (Hk s1 eq_refl H1 H2) as [K1 K2 K3 K4 K5 K6]. split; [done|by trans s1| | | |done].
    + intros theta Hm [Ha Hb]%Forall_app. by apply K3; [apply H3|].
    + intros Hr Hstrict theta Hm. apply Forall_app. split; [|by apply K4].
      apply H4; [done..|]. by eapply models_extends.
    + intros d Hd. destruct (K5 d Hd) as [Hh Hc]. split; [done|]. intros Hd' theta Hp Hm [Ha Hb]%Forall_app.
      by apply (Hc Hd' theta Hp (H3 _ Hm Ha)).
  - split; try done.
    + intros theta Hm [Ha Hb]%Forall_app. by apply H3.
    + intros d Hd. destruct (H5 d Hd) as [Hh Hc]. split; [done|]. intros Hd' theta Hp Hm [Ha Hb]%Forall_app.
      by apply (Hc Hd' theta Hp Hm).
Qed.

(** Pairs that stand for the same equations. *)
Lemma outcome_iff s pairs pairs' r :
  (forall theta, models theta s -> all_equal theta pairs <-> all_equal theta pairs') ->
  outcome s pairs r -> outcome s pairs' r.
Proof.
  intros Hiff [H1 H2 H3 H4 H5 H6]. split; try done.
  - intros theta Hm Ha. apply H3; [done|]. by apply Hiff.
  - intros Hr Hstrict theta Hm. apply Hiff; [by eapply models_extends|by apply H4].
  - intros d Hd. destruct (H5 d Hd) as [Hh Hc]. split; [done|]. intros Hd' theta Hp Hm Ha.
    apply (Hc Hd' theta Hp Hm). by apply Hiff.
Qed.

Lemma outcome_for_each {A} (body : A -> M Failure Inference unit) (pair : A -> Ty * Ty) l s :
  state_ok types n strict s ->
  (forall x s, x ∈ l -> state_ok types n strict s -> outcome s [pair x] (body x s)) ->
  outcome s (pair <$> l) (for_each body l s).
Proof.
  revert s. induction l as [|x l IH]; intros s Hs Hbody; [by apply outcome_ret|].
  change (outcome s ([pair x] ++ (pair <$> l)) (bind (body x) (fun _ => for_each body l) s)). apply outcome_bind.
  - apply Hbody; [constructor|done].
  - intros s' _ Hs' _. apply IH; [done|]. intros y s2 Hy. apply Hbody. by constructor.
Qed.

(** A closure of [map_err] that runs out of fuel, or changes one diagnostic of a clash into another. *)
Lemma outcome_map_err s pairs m f :
  outcome s pairs (m s) ->
  (forall d s', honest d -> state_ok types n strict s' ->
    f d s' = (Err (Broken OutOfFuel), s') \/
    exists d', f d s' = (Ok d', s') /\ honest d' /\ (says_clash d' -> says_clash d)) ->
  outcome s pairs (map_err m f s).
Proof.
  intros [H1 H2 H3 H4 H5 H6] Hf. unfold map_err. destruct (m s) as [[[]|[d|e]] s1]; cbn in *; [by split| |by split].
  destruct (H5 d eq_refl) as [Hh Hc]. unfold bind. destruct (Hf d s1 Hh H1) as [->|(d' & -> & Hh' & Hd')]; [by split|].
  split; try done. cbn. intros d2 [= <-]. split; [done|]. intros Hd2. apply Hc. by apply Hd'.
Qed.
End outcome.

(** ** Binding a variable *)

Definition bound (s : Inference) (id : nat) (t : Ty) : Inference :=
  mk_Inference (<[id := Some t]> (solutions s)) (defaults s).

Lemma solved_bound s id t x u : open s id -> solved (bound s id t) x u <-> (x = id /\ u = t) \/ (x <> id /\ solved s x u).
Proof.
  intros Hid%lookup_lt_Some. unfold solved, bound. cbn. destruct (decide (x = id)) as [->|Hne].
  - rewrite list_lookup_insert_eq by done. naive_solver.
  - rewrite list_lookup_insert_ne by done. naive_solver.
Qed.

Lemma models_bound theta s id t : open s id ->
  models theta (bound s id t) <-> models theta s /\ theta id = sub theta (term t).
Proof.
  intros Hid. split.
  - intros Hm. split; [|by apply Hm, solved_bound; [|left]]. intros x u Hx. apply Hm, solved_bound; [done|].
    right. split; [|done]. intros ->. by apply (open_solved s id u).
  - intros [Hm Ht] x u [[-> ->]|[_ Hx]]%solved_bound; [done|by apply Hm|done].
Qed.

Lemma extends_bound s id t : open s id -> extends s (bound s id t).
Proof.
  intros Hid. split; [done|]. cbn. unfold open in Hid. generalize dependent id. induction (solutions s) as [|o l IH]; intros [|id] Hid; [done..| |].
  - injection Hid as ->. cbn. constructor; [by intros [? ?]|]. apply (extends_solutions (mk_Inference l []) (mk_Inference l [])). reflexivity.
  - cbn. constructor; [done|]. by apply IH.
Qed.

(** A solution of open variables, not the bound one among them, makes no cycle. *)
Lemma acyclic_bound s id t : acyclic s -> open s id -> (forall y, occurs y t -> open s y) -> ~ occurs id t ->
  acyclic (bound s id t).
Proof.
  intros Ha Hid Ht Ho.
  assert (forall y, open s y -> y <> id -> Acc (below (bound s id t)) y) as Hopen.
  { intros y Hy Hne. constructor. intros z (u & [[? _]|[_ Hu]]%solved_bound & _); [done| |done]. by apply (open_solved s y u) in Hy. }
  assert (Acc (below (bound s id t)) id) as Hnew.
  { constructor. intros y (u & [[_ ->]|[? _]]%solved_bound & Hy); [|done|done]. apply Hopen; [by apply Ht|]. by intros ->. }
  intros x. induction (Ha x) as [x _ IH]. destruct (decide (x = id)) as [->|Hne]; [done|]. constructor.
  intros y (u & [[? _]|[_ Hu]]%solved_bound & Hy); [done| |done]. apply IH. by exists u.
Qed.

Section binding.
Context (types : TypeContext) (n : nat) (strict : bool).

Lemma outcome_variable s id t span :
  state_ok types n strict s -> open s id -> well_formed types n strict t -> (forall y, occurs y t -> open s y) ->
  t <> Ty_Infer id -> outcome types n strict s [(Ty_Infer id, t)] (bind_variable id t span s).
Proof.
  intros Hs Hid Ht Hopen Hne. unfold bind_variable.
  destruct (any_leaf (fun ty => bool_decide (ty = Ty_Infer id)) t) eqn:Ho.
  - apply outcome_fail; [done|by intros _; right|]. intros _ theta _ _ [E _]%Forall_cons_iff. cbn in E.
    destruct (occurs_dec id t) as [Ht'|Ht']; [by eapply occurs_distinct in E|].
    assert (~ occurs id t) as H%any_leaf_occurs; [|congruence]. intros H.
    apply (proj1 (every_occurs (fun i => i <> id) t)) in H; [done|]. eapply every_impl; [|exact Ht']. by intros u Hu i -> ->.
  - apply any_leaf_occurs in Ho. unfold bind, checking, bounded_type.
    destruct (contains_error t || bool_decide (is_Some (type_size t))).
    + unfold ret, update. pose proof (lookup_lt_Some _ _ _ Hid) as Hlt. rewrite (proj2 (Nat.ltb_lt _ _) Hlt).
      fold (bound s id t). split; [| | | |by intros d [=]|by intros [=]].
      * destruct Hs as [H1 H2 H3]. split; [cbn; by rewrite length_insert| |by apply acyclic_bound].
        intros x u [[_ ->]|[_ Hx]]%solved_bound; [done|by eapply H2|done].
      * by apply extends_bound.
      * intros theta Hm [E _]%Forall_cons_iff. by apply models_bound.
      * intros _ _ theta [_ E]%models_bound; [|done]. by apply Forall_singleton.
    + apply outcome_fail; [done|apply expansion_honest|]. by intros ?%expansion_silent.
Qed.
End binding.

(** ** The parts of two types *)

Lemma equates_sym theta a b : equates theta a b <-> equates theta b a.
Proof. by split; intros E; symmetry. Qed.

Lemma all_equal_single theta a b : all_equal theta [(a, b)] <-> equates theta a b.
Proof. split; [by intros [H _]%Forall_cons_iff|by intros H; constructor]. Qed.

Lemma all_equal_app theta ps qs : all_equal theta (ps ++ qs) <-> all_equal theta ps /\ all_equal theta qs.
Proof. apply Forall_app. Qed.

Lemma all_equal_zip theta l r : length l = length r ->
  all_equal theta (zip l r) <-> sub theta <$> (term <$> l) = sub theta <$> (term <$> r).
Proof.
  unfold all_equal. revert r. induction l as [|a l IH]; intros [|b r] Hl; try done. injection Hl as Hl. cbn.
  rewrite Forall_cons_iff, IH by done. cbn. unfold equates. split; [by intros [-> ->]|by intros [= -> ->]].
Qed.

Lemma apps_equal theta f g l r : length l = length r ->
  sub theta (apps f (term <$> l)) = sub theta (apps g (term <$> r)) <-> sub theta f = sub theta g /\ all_equal theta (zip l r).
Proof. intros Hl. rewrite !sub_apps, apps_inj, all_equal_zip by (by rewrite ?length_fmap). done. Qed.

Lemma arrows_inj xs ys r t : length xs = length ys -> arrows xs r = arrows ys t <-> xs = ys /\ r = t.
Proof.
  unfold arrows. revert ys. induction xs as [|x xs IH]; intros [|y ys]; cbn; try done; [naive_solver|].
  intros [= Hl]. unfold arrow. split; [intros [= -> H]; by apply IH in H as [-> ->]|by intros [[= -> ->] ->]].
Qed.

Lemma decompose_term t constructor complete : decompose t = Some (constructor, complete) ->
  term t = apps (Constant (Label_Constructor constructor)) (term <$> complete) /\ arity constructor = length complete /\
  parts t = complete.
Proof.
  destruct t; cbn; try done; try (by intros [= <- <-]); destruct (existsb is_length arguments); try done; by intros [= <- <-].
Qed.

Lemma decompose_named types n strict t constructor complete : decompose t = Some (constructor, complete) ->
  node types n strict t -> named types constructor.
Proof.
  destruct t; cbn; try done; try (by intros [= <- <-]); destruct (existsb is_length arguments); try done; by intros [= <- <-].
Qed.

Lemma term_tail common ps r : common <= length ps -> term (tail common ps r) = arrows (term <$> drop common ps) (term r).
Proof.
  intros Hc. unfold tail. destruct (Nat.eqb_spec (length ps) common) as [<-|Hne].
  - by rewrite drop_all.
  - unfold function. rewrite term_function. unfold function_term.
    destruct (drop common ps) eqn:E; [|done]. apply (f_equal length) in E. rewrite length_drop in E. cbn in E. lia.
Qed.

Lemma zip_take {A B} (l : list A) (r : list B) : zip l (take (length l) r) = zip l r.
Proof. revert r. induction l as [|x l IH]; intros [|y r]; cbn; [done..|]. by rewrite IH. Qed.

Lemma zip_take_l {A B} (l : list A) (r : list B) k : Nat.min (length l) (length r) <= k -> zip (take k l) (take k r) = zip l r.
Proof.
  revert l r. induction k as [|k IH]; intros [|x l] [|y r] Hk; cbn in *; try done; try lia. by rewrite IH by lia.
Qed.

Lemma equates_function theta a c p x b d y :
  (a = [] <-> b = []) -> (p = true -> length a = length b) ->
  let common := Nat.min (length a) (length b) in
  equates theta (Ty_Function a c p x) (Ty_Function b d p y) <->
  all_equal theta (zip a b ++ [(tail common a x, tail common b y)]).
Proof.
  intros Hnil Hpure common. rewrite all_equal_app, all_equal_single. unfold equates. cbn [term]. rewrite !sub_function.
  rewrite !term_tail by (unfold common; lia). unfold function_term.
  destruct p; [|destruct a as [|a0 a], b as [|b0 b]].
  - specialize (Hpure eq_refl). assert (drop common a = []) as -> by (apply drop_ge; lia).
    assert (drop common b = []) as -> by (apply drop_ge; lia). cbn [fmap list_fmap]. unfold arrows. cbn [foldr].
    rewrite !length_fmap, Hpure, all_equal_zip by done. split.
    + intros [= E ->]. apply apps_inj in E as [_ E]; [done|by rewrite !length_fmap].
    + by intros [-> ->].
  - rewrite !drop_nil. unfold arrows, all_equal. cbn. split; [intros [= ->]; split; [constructor|done]|by intros [_ ->]].
  - by pose proof (proj1 Hnil eq_refl).
  - by pose proof (proj2 Hnil eq_refl).
  - set (l := a0 :: a) in *. set (r := b0 :: b) in *.
    assert (forall k, match sub theta <$> (term <$> l) with [] => k | _ => arrows (sub theta <$> (term <$> l)) (sub theta (term x)) end =
      arrows (sub theta <$> (term <$> l)) (sub theta (term x))) as -> by done.
    assert (forall k, match sub theta <$> (term <$> r) with [] => k | _ => arrows (sub theta <$> (term <$> r)) (sub theta (term y)) end =
      arrows (sub theta <$> (term <$> r)) (sub theta (term y))) as -> by done.
    rewrite <- (zip_take_l l r common) by lia. rewrite all_equal_zip by (rewrite !length_take; lia).
    rewrite !sub_arrows. rewrite <- (take_drop common l) at 1. rewrite <- (take_drop common r) at 1.
    rewrite !fmap_app, !arrows_app. rewrite arrows_inj by (rewrite !length_fmap, !length_take; lia). done.
Qed.

(** ** Reading never panics *)

Lemma mapM_try_Err {A B} (f : A -> Try B) l e : mapM f l = Err e -> exists x, x ∈ l /\ f x = Err e.
Proof.
  induction l as [|x l IH]; cbn; [done|]. destruct (f x) as [y|e'] eqn:Hx.
  - cbn. destruct (mapM f l) as [ys|e']; [done|]. intros [= ->]. destruct (IH eq_refl) as (z & Hz & E). exists z. by split; [right|].
  - intros [= ->]. exists x. by split; [left|].
Qed.

Section panics.
Context (types : TypeContext) (n : nat) (strict : bool) (s : Inference).
Context (Hs : state_ok types n strict s).

Lemma chase_no_panic fuel t : well_formed types n strict t -> chase fuel s t <> Err Panic.
Proof.
  revert t. induction fuel as [|fuel IH]; intros t Ht; [done|]. cbn. destruct t; try done.
  assert (id < length (solutions s)) as [o Ho]%lookup_lt_is_Some by (rewrite (state_variables _ _ _ _ Hs); exact (every_root _ _ Ht)).
  rewrite Ho. cbn. destruct o as [u|]; [|done]. apply IH. by eapply (state_solutions _ _ _ _ Hs).
Qed.

Lemma resolve_no_panic fuel t : well_formed types n strict t -> resolve fuel s t <> Err Panic.
Proof.
  revert t. induction fuel as [|fuel IH]; intros t Ht; [done|]. rewrite resolve_S.
  pose proof (chase_no_panic fuel t Ht) as Hc. destruct (chase fuel s t) as [u|e] eqn:Hu; [|done]. cbn.
  apply (chase_spec types n strict) in Hu as [Hw _]; [|by apply Hs]. specialize (Hw Ht).
  destruct (mapM (resolve fuel s) (parts u)) as [ts|e] eqn:E; [done|]. cbn. intros [= ->].
  apply mapM_try_Err in E as (x & Hx & E). apply (IH x); [|done]. by eapply every_part.
Qed.

(** A type that resolves, or the end of the fuel. *)
Lemma resolve_cases fuel t : well_formed types n strict t ->
  resolve fuel s t = Err OutOfFuel \/
  exists r, resolve fuel s t = Ok r /\ well_formed types n strict r /\ (forall id, occurs id r -> open s id) /\
    forall theta, models theta s -> sub theta (term r) = sub theta (term t).
Proof.
  intros Ht. pose proof (resolve_no_panic fuel t Ht) as Hp. destruct (resolve fuel s t) as [r|[]] eqn:Hr; [right|done|by left].
  exists r. split; [done|]. eapply resolve_spec; [by apply Hs|done..].
Qed.
End panics.

(** ** Every arm *)

Section arms.
Context (types : TypeContext) (span : Span) (n : nat) (strict : bool).
Context (fuel : nat) (rec : Ty -> Ty -> M Failure Inference unit).
Context (Hrec : forall s a b, state_ok types n strict s -> well_formed types n strict a -> well_formed types n strict b ->
  outcome types n strict s [(a, b)] (rec a b s)).

Abbreviation outcome := (outcome types n strict).
Abbreviation well_formed := (well_formed types n strict).
Abbreviation state_ok := (state_ok types n strict).

Lemma mismatch_of_returns expected actual span' : well_formed expected -> well_formed actual ->
  exists d, mismatch_of types expected actual span' = Ok d /\ says_clash d.
Proof.
  intros [e He]%display_returns [f Hf]%display_returns. unfold mismatch_of. rewrite He. cbn. rewrite Hf. cbn.
  eexists. split; [done|]. apply mismatch_clash.
Qed.

Lemma outcome_clash s a b : state_ok s -> well_formed a -> well_formed b ->
  (forall theta, plain theta -> ~ equates theta a b) -> outcome s [(a, b)] (not_unified types span a b s).
Proof.
  intros Hs Ha Hb Hne. unfold not_unified, bind, reading. destruct (mismatch_of_returns b a span Hb Ha) as (d & -> & Hd).
  apply outcome_fail; [done|by intros _|]. intros _ theta Hp _ [E _]%Forall_cons_iff. by apply (Hne theta).
Qed.

Lemma outcome_all s l r : state_ok s -> Forall well_formed l -> Forall well_formed r ->
  outcome s (zip l r) (unify_all rec l r s).
Proof.
  intros Hs Hl Hr. unfold unify_all. rewrite <- (list_fmap_id (zip l r)) at 1.
  apply (outcome_for_each types n strict (fun '(a, b) => rec a b) id); [done|].
  intros [a b] s' Hab Hs'. apply Hrec; [done|..].
  - apply list_elem_of_In, in_combine_l, list_elem_of_In in Hab. by eapply list.Forall_forall in Hl.
  - apply list_elem_of_In, in_combine_r, list_elem_of_In in Hab. by eapply list.Forall_forall in Hr.
Qed.

Lemma outcome_arguments s a b l r : state_ok s -> well_formed a -> well_formed b -> Forall well_formed l -> Forall well_formed r ->
  outcome s (zip l r) (unify_arguments types rec a b l r s).
Proof.
  intros Hs Ha Hb Hl Hr. unfold unify_arguments. rewrite <- (list_fmap_id (zip l r)) at 1.
  apply (outcome_for_each types n strict (fun '(x, y) => map_err (rec x y) _) id); [done|].
  intros [x y] s' Hxy Hs'. apply outcome_map_err.
  - apply Hrec; [done|..].
    + apply list_elem_of_In, in_combine_l, list_elem_of_In in Hxy. by eapply list.Forall_forall in Hl.
    + apply list_elem_of_In, in_combine_r, list_elem_of_In in Hxy. by eapply list.Forall_forall in Hr.
  - intros d s2 Hh _. right. destruct (is_mismatch d) eqn:Hd; [|by exists d]. cbn [andb].
    destruct (negb (any_leaf is_infer a) && negb (any_leaf is_infer b)); [|by exists d].
    unfold reading. destruct (mismatch_of_returns b a (d_span d) Hb Ha) as (d' & -> & Hd'). exists d'.
    split; [done|]. split; [by intros _|]. intros _. by apply Hh.
Qed.

Lemma outcome_application s h l t : state_ok s -> well_formed (Ty_Application h l) -> well_formed t ->
  outcome s [(Ty_Application h l, t)] (unify_application span rec h l t s).
Proof.
  intros Hs Ha Ht. unfold unify_application.
  assert (forall s, state_ok s -> outcome s [(Ty_Application h l, t)]
    (fail (Rejected (Diagnostic.of_kind ConstructorKindMismatch
      (str "type constructor application has an incompatible kind") span)) s)) as Hfail.
  { intros s' Hs'. apply outcome_fail; [done|apply application_honest|]. by intros ?%application_silent. }
  destruct (decompose t) as [[c complete]|] eqn:E; [|by apply Hfail].
  destruct (Nat.leb_spec (length l) (length complete)) as [Hle|_]; [|by apply Hfail].
  pose proof E as (Eterm & Earity & Eparts)%decompose_term.
  pose proof (every_parts _ _ Ha) as [Hh Hl]%Forall_cons_iff. pose proof (every_parts _ _ Ht) as Hc. rewrite Eparts in Hc.
  eapply outcome_iff; [|apply (outcome_bind types n strict s [(h, Ty_Partial c (drop (length l) complete))] (zip l complete))].
  - intros theta _. rewrite all_equal_app, !all_equal_single. unfold equates. rewrite Eterm. cbn [term].
    rewrite <- (take_drop (length l) complete) at 3. rewrite fmap_app, apps_app, apps_equal by (rewrite length_take; lia).
    by rewrite zip_take.
  - apply Hrec; [done..|]. constructor; [|cbn [parts]; by apply Forall_drop]. cbn. split.
    + exact (decompose_named _ _ _ _ _ _ E (every_root _ _ Ht)).
    + rewrite Earity, length_drop. destruct l; [by apply every_root in Ha|]. cbn in *. lia.
  - intros s' _ Hs' _. by apply outcome_all.
Qed.

Lemma outcome_unary f s a b : unary f -> state_ok s -> well_formed (f a) -> well_formed (f b) ->
  outcome s [(f a, f b)] (rec a b s).
Proof.
  intros Hf Hs Ha Hb.
  assert (a ∈ parts (f a) /\ b ∈ parts (f b)) as [Ha' Hb'] by (by destruct Hf; split; apply list_elem_of_singleton).
  eapply outcome_iff; [|apply Hrec; [done|exact (every_part _ _ _ Ha Ha')|exact (every_part _ _ _ Hb Hb')]].
  intros theta _. rewrite !all_equal_single. unfold equates.
  destruct Hf; cbn [term]; unfold apps; cbn; (split; [by intros ->|by intros [= ->]]).
Qed.

Lemma outcome_fixed s a k b m : state_ok s -> well_formed (Ty_FixedArray a k) -> well_formed (Ty_FixedArray b m) ->
  outcome s [(Ty_FixedArray a k, Ty_FixedArray b m)]
    (unify_resolved types span (resolve fuel) rec (Ty_FixedArray a k) (Ty_FixedArray b m) s).
Proof.
  intros Hs Ha Hb. pose proof (every_parts _ _ Ha) as [Ha1 [Ha2 _]%Forall_cons_iff]%Forall_cons_iff.
  pose proof (every_parts _ _ Hb) as [Hb1 [Hb2 _]%Forall_cons_iff]%Forall_cons_iff.
  eapply outcome_iff; [|cbn [unify_resolved]; apply (outcome_bind types n strict s [(k, m)] [(a, b)])].
  - intros theta _. rewrite all_equal_app, !all_equal_single. unfold equates. cbn. split; [by intros [-> ->]|by intros [= -> ->]].
  - apply outcome_map_err; [by apply Hrec|]. intros d s' Hh Hs'. destruct (is_mismatch d) eqn:Hd; [|right; by exists d].
    unfold bind, reading.
    destruct (resolve_cases types n strict s' Hs' fuel _ Hb) as [->|(e & -> & [et ->]%display_returns & _)]; [by left|].
    destruct (resolve_cases types n strict s' Hs' fuel _ Ha) as [->|(f & -> & [ft ->]%display_returns & _)]; [by left|].
    right. eexists. split; [done|]. split; [by intros _; left|]. intros _. by apply Hh.
  - intros s' _ Hs' _. by apply Hrec.
Qed.

Lemma tail_well_formed common ps r : Forall well_formed ps -> well_formed r -> well_formed (tail common ps r).
Proof.
  intros Hps Hr. unfold tail. destruct (_ =? _); [done|]. apply well_formed_function; [by apply Forall_drop|done].
Qed.

Lemma outcome_functions s a c p x b d y : (a = [] <-> b = []) -> (p = true -> length a = length b) ->
  state_ok s -> well_formed (Ty_Function a c p x) -> well_formed (Ty_Function b d p y) ->
  outcome s [(Ty_Function a c p x, Ty_Function b d p y)]
    (unify_resolved types span (resolve fuel) rec (Ty_Function a c p x) (Ty_Function b d p y) s).
Proof.
  intros Hnil Hpure Hs Ha Hb. cbn [unify_resolved].
  assert (eqb (length a =? 0) (length b =? 0) && eqb p p && (negb p || (length a =? length b)) = true) as ->.
  { rewrite eqb_reflx, andb_true_r. apply andb_true_intro. split; [apply eqb_true_iff; destruct a, b; naive_solver|].
    destruct p; [|done]. by apply Nat.eqb_eq, Hpure. }
  pose proof (every_parts _ _ Ha) as [Ha1 [Ha2 _]%Forall_cons_iff]%Forall_app.
  pose proof (every_parts _ _ Hb) as [Hb1 [Hb2 _]%Forall_cons_iff]%Forall_app.
  set (common := Nat.min (length a) (length b)).
  apply (outcome_iff types n strict s (zip a b ++ [(tail common a x, tail common b y)])); [intros theta _; rewrite all_equal_single; symmetry; exact (equates_function theta a c p x b d y Hnil Hpure)|].
  apply (outcome_bind types n strict s (zip a b) [(tail common a x, tail common b y)]); [by apply outcome_all|]. intros s' _ Hs' _. apply Hrec; [done|by apply tail_well_formed..].
Qed.

Lemma outcome_swap s a b r : outcome s [(a, b)] r -> outcome s [(b, a)] r.
Proof. apply outcome_iff. intros theta _. by rewrite !all_equal_single, equates_sym. Qed.

Lemma outcome_apps f g l r s :
  length l = length r -> forall a b, (forall theta, equates theta a b <-> sub theta f = sub theta g /\ all_equal theta (zip l r)) ->
  f = g -> state_ok s -> Forall well_formed l -> Forall well_formed r -> outcome s [(a, b)] (unify_all rec l r s).
Proof.
  intros Hl a b Heq -> Hs Hwl Hwr. eapply outcome_iff; [|by apply outcome_all]. intros theta _.
  rewrite all_equal_single, Heq. naive_solver.
Qed.

Lemma outcome_resolved s a b : state_ok s -> well_formed a -> well_formed b ->
  (forall id, occurs id a -> open s id) -> (forall id, occurs id b -> open s id) -> a <> b ->
  outcome s [(a, b)] (unify_resolved types span (resolve fuel) rec a b s).
Proof.
  intros Hs Ha Hb Hoa Hob Hne.
  destruct (shape_or_clash types n strict span a b (every_root _ _ Ha) (every_root _ _ Hb) Hne) as [Hshape|[-> Hclash]];
    [|by apply outcome_clash].
  destruct Hshape as [c l r Hl|h l g r Hl|h l g r Hl|h l t Hi Happ|t h l Hi Happ|id t Hv|t id Hv Hi|f a b Hf|a k b m|l r Hl|id l r Hl|id l r Hl
    |a c p x b d y Hnil Hpure].
  - cbn [unify_resolved]. rewrite bool_decide_eq_true_2, (proj2 (Nat.eqb_eq _ _) Hl) by done. cbn [andb].
    apply (outcome_apps (Constant (Label_Constructor c)) (Constant (Label_Constructor c)));
      [done|intros theta; by apply apps_equal|done|done|exact (every_parts _ _ Ha)|exact (every_parts _ _ Hb)].
  - cbn [unify_resolved]. rewrite (proj2 (Nat.eqb_eq _ _) Hl).
    pose proof (every_parts _ _ Ha) as [Ha1 Ha2]%Forall_cons_iff. pose proof (every_parts _ _ Hb) as [Hb1 Hb2]%Forall_cons_iff.
    eapply outcome_iff; [|apply (outcome_bind types n strict s [(h, g)] (zip l r)); [by apply Hrec|intros s' _ Hs' _; by apply outcome_all]].
    intros theta _. rewrite all_equal_app, !all_equal_single. symmetry. by apply apps_equal.
  - cbn [unify_resolved]. rewrite (proj2 (Nat.eqb_neq _ _) Hl). by apply outcome_application.
  - replace (unify_resolved types span (resolve fuel) rec (Ty_Application h l) t) with (unify_application span rec h l t)
      by (by destruct t).
    by apply outcome_application.
  - replace (unify_resolved types span (resolve fuel) rec t (Ty_Application h l)) with (unify_application span rec h l t)
      by (by destruct t).
    by apply outcome_swap, outcome_application.
  - replace (unify_resolved types span (resolve fuel) rec (Ty_Infer id) t) with (bind_variable id t span) by (by destruct t).
    apply outcome_variable; try done. apply Hoa. constructor. 
  - replace (unify_resolved types span (resolve fuel) rec t (Ty_Infer id)) with (bind_variable id t span) by (by destruct t).
    apply outcome_swap, outcome_variable; try done. apply Hob. constructor.
  - replace (unify_resolved types span (resolve fuel) rec (f a) (f b)) with (rec a b)
      by (destruct Hf; cbn; rewrite ?eqb_reflx, ?bool_decide_eq_true_2 by done; done).
    by apply outcome_unary.
  - by apply outcome_fixed.
  - cbn [unify_resolved]. rewrite (proj2 (Nat.eqb_eq _ _) Hl).
    apply (outcome_apps (Constant (Label_Tuple (length l))) (Constant (Label_Tuple (length r))));
      [done|intros theta; by apply apps_equal|by rewrite Hl|done|exact (every_parts _ _ Ha)|exact (every_parts _ _ Hb)].
  - cbn [unify_resolved]. rewrite Nat.eqb_refl, (proj2 (Nat.eqb_eq _ _) Hl). cbn [andb].
    eapply outcome_iff; [|apply outcome_arguments; [done..|exact (every_parts _ _ Ha)|exact (every_parts _ _ Hb)]]. intros theta _.
    rewrite all_equal_single. unfold equates. cbn [term]. rewrite apps_equal, Hl by done. naive_solver.
  - cbn [unify_resolved]. rewrite Nat.eqb_refl, (proj2 (Nat.eqb_eq _ _) Hl). cbn [andb].
    eapply outcome_iff; [|apply outcome_arguments; [done..|exact (every_parts _ _ Ha)|exact (every_parts _ _ Hb)]]. intros theta _.
    rewrite all_equal_single. unfold equates. cbn [term]. rewrite apps_equal, Hl by done. naive_solver.
  - by apply outcome_functions.
Qed.
End arms.

Lemma unify_outcome types span n strict fuel s a b :
  state_ok types n strict s -> well_formed types n strict a -> well_formed types n strict b ->
  outcome types n strict s [(a, b)] (unify types span fuel a b s).
Proof.
  revert s a b. induction fuel as [|fuel IH]; intros s a b Hs Ha Hb; [by apply outcome_fuel|].
  cbn [unify]. unfold bind at 1, reading at 1.
  destruct (resolve_cases types n strict s Hs fuel a Ha) as [->|(a' & -> & Ha' & Hoa & Hma)]; [by apply outcome_fuel|].
  unfold bind at 1, reading at 1.
  destruct (resolve_cases types n strict s Hs fuel b Hb) as [->|(b' & -> & Hb' & Hob & Hmb)]; [by apply outcome_fuel|].
  eapply outcome_iff with (pairs := [(a', b')]).
  { intros theta Hm. rewrite !all_equal_single. unfold equates. by rewrite Hma, Hmb. }
  destruct (bool_decide (a' = b') || contains_error a' || contains_error b') eqn:E.
  - split; try done. intros _ -> theta _. apply all_equal_single.
    rewrite (well_formed_strict _ _ _ Ha'), (well_formed_strict _ _ _ Hb'), !orb_false_r in E. apply bool_decide_eq_true in E. by subst.
  - apply orb_false_iff in E as [[Hne%bool_decide_eq_false _]%orb_false_iff _].
    apply outcome_resolved; try done.
Qed.
