(* ===== verification/UnifyFuel.v ===== *)
(** * Unification ends; the models of the solutions

    A computation with fuel settles when more fuel gives the same result, which is not the end of the fuel. [unify]
    settles: a sub-problem is smaller, or a variable that was open is solved. Solutions without a cycle have a most general
    model; [reaches] sees the open variables of the resolved type; and [apply_defaults] gives each open variable of a number
    literal the default that [numeric_default] finds. *)
From Stdlib Require Import Bool.
From stdpp Require Import list.
From S2P Require Import Prelude Wire Syntax Faults Kinds Text Render Report Types Inference.
From S2P Require Import TypeLaws.
From S2P Require Import InferenceLaws UnifyLaws.
Local Open Scope nat_scope.
Local Open Scope monad_scope.

(** ** Computations that settle *)

Definition eventually {A} (m : nat -> A) (a : A) : Prop := exists enough, forall fuel, enough <= fuel -> m fuel = a.

Lemma eventually_const {A} (a : A) : eventually (fun _ => a) a.
Proof. by exists 0. Qed.

Lemma eventually_map {A B} (f : A -> B) m a : eventually m a -> eventually (fun fuel => f (m fuel)) (f a).
Proof. intros [k H]. exists k. intros fuel Hf. by rewrite H. Qed.

Lemma eventually_next {A B} (m : nat -> A) (m' : nat -> B) a b : eventually m a -> (forall fuel, m fuel = a -> m' fuel = b) -> eventually m' b.
Proof. intros [k H] H'. exists k. intros fuel Hf. by apply H', H. Qed.

Lemma eventually_both {A B} (m : nat -> A) (m' : nat -> B) a b : eventually m a -> eventually m' b ->
  eventually (fun fuel => (m fuel, m' fuel)) (a, b).
Proof. intros [k H] [l H']. exists (Nat.max k l). intros fuel Hf. by rewrite H, H' by lia. Qed.

Lemma eventually_unique {A} (m : nat -> A) a b : eventually m a -> eventually m b -> a = b.
Proof. intros [k H] [l H']. rewrite <- (H (Nat.max k l)) by lia. apply H'. lia. Qed.

Lemma eventually_some {A} (m : nat -> A) a : eventually m a -> exists fuel, m fuel = a.
Proof. intros [k H]. exists k. by apply H. Qed.

Section settles.
Context {A : Type}.

Definition settles (m : nat -> M Failure Inference A) (s : Inference) : Prop :=
  exists r, r.1 <> Err (Broken OutOfFuel) /\ eventually (fun fuel => m fuel s) r.

Lemma settles_const m s : (m s).1 <> Err (Broken OutOfFuel) -> settles (fun _ => m) s.
Proof. intros H. exists (m s). split; [done|apply eventually_const]. Qed.
End settles.

Lemma settles_bind {A B} (m : nat -> M Failure Inference A) (k : nat -> A -> M Failure Inference B) s :
  settles m s -> (forall a s1, eventually (fun fuel => m fuel s) (Ok a, s1) -> settles (fun fuel => k fuel a) s1) ->
  settles (fun fuel => bind (m fuel) (k fuel)) s.
Proof.
  intros ([[a|e] s1] & Hr & Hm) Hk.
  - destruct (Hk a s1 Hm) as (r & Hr' & Hk'). exists r. split; [done|].
    eapply eventually_next; [exact (eventually_both _ _ _ _ Hm Hk')|]. intros fuel [= E1 E2]. unfold bind. by rewrite E1.
  - exists (Err e, s1). split; [by intros [= ->]|]. eapply eventually_next; [exact Hm|]. intros fuel E. unfold bind. by rewrite E.
Qed.

Lemma settles_reading {A} (m : nat -> Inference -> Try A) s a : eventually (fun fuel => m fuel s) (Ok a) ->
  settles (fun fuel => reading (m fuel)) s.
Proof. intros H. exists (Ok a, s). split; [done|]. eapply eventually_next; [exact H|]. intros fuel E. unfold reading. by rewrite E. Qed.

Lemma settles_map_err {A} (m : nat -> M Failure Inference A) f s :
  settles m s -> (forall d s1, eventually (fun fuel => m fuel s) (Err (Rejected d), s1) -> settles (fun fuel => f fuel d) s1) ->
  settles (fun fuel => map_err (m fuel) (f fuel)) s.
Proof.
  intros ([[a|[d|e]] s1] & Hr & Hm) Hf.
  - exists (Ok a, s1). split; [done|]. eapply eventually_next; [exact Hm|]. intros fuel E. unfold map_err. by rewrite E.
  - destruct (Hf d s1 Hm) as ([[d'|e] s2] & Hr' & Hk).
    + exists (Err (Rejected d'), s2). split; [done|]. eapply eventually_next; [exact (eventually_both _ _ _ _ Hm Hk)|].
      intros fuel [= E1 E2]. unfold map_err, bind. by rewrite E1, E2.
    + exists (Err e, s2). split; [by intros [= ->]|]. eapply eventually_next; [exact (eventually_both _ _ _ _ Hm Hk)|].
      intros fuel [= E1 E2]. unfold map_err, bind. by rewrite E1, E2.
  - exists (Err (Broken e), s1). split; [done|]. eapply eventually_next; [exact Hm|]. intros fuel E. unfold map_err. by rewrite E.
Qed.

(** A loop settles when its bodies do, in the states that [good] describes. *)
Lemma settles_for_each {A} (good : Inference -> Prop) (body : nat -> A -> M Failure Inference unit) l s :
  good s ->
  (forall x s, x ∈ l -> good s -> settles (fun fuel => body fuel x) s) ->
  (forall x fuel s s1, x ∈ l -> good s -> body fuel x s = (Ok tt, s1) -> good s1) ->
  settles (fun fuel => for_each (body fuel) l) s.
Proof.
  revert s. induction l as [|x l IH]; intros s Hs Hbody Hgood; [by apply settles_const|].
  change (settles (fun fuel => bind (body fuel x) (fun _ => for_each (body fuel) l)) s).
  apply (settles_bind (fun fuel => body fuel x) (fun fuel _ => for_each (body fuel) l)).
  - apply Hbody; [constructor|done].
  - intros [] s1 [fuel E]%eventually_some. apply IH.
    + eapply Hgood; [constructor|done..].
    + intros y s2 Hy. apply Hbody. by constructor.
    + intros y f s2 s3 Hy. apply Hgood. by constructor.
Qed.

(** ** Resolving *)

Lemma resolve_settles types n strict s t : state_ok types n strict s -> well_formed types n strict t ->
  exists r, eventually (fun fuel => resolve fuel s t) (Ok r) /\ well_formed types n strict r /\ forall id, occurs id r -> open s id.
Proof.
  intros Hs Ht. destruct (resolve_returns types n strict s t Hs Ht) as (fuel & r & Hr). exists r. split.
  - exists fuel. intros fuel' Hf. by apply (resolve_more s fuel).
  - apply (resolve_spec types n strict) in Hr as (? & ? & _); [done|by apply Hs|done].
Qed.

(** ** Unification *)

Section unify.
Context (types : TypeContext) (span : Span) (n : nat) (strict : bool).

Abbreviation well_formed := (well_formed types n strict).
Abbreviation state_ok := (state_ok types n strict).
Abbreviation unifies a b := (settles (fun fuel => unify types span fuel a b)).

Lemma not_unified_settles s a b : well_formed a -> well_formed b -> settles (fun _ => not_unified types span a b) s.
Proof.
  intros Ha Hb. apply settles_const. unfold not_unified, bind, reading.
  by destruct (mismatch_of_returns types n strict b a span Hb Ha) as (d & -> & _).
Qed.

Lemma bind_variable_settles s id t : settles (fun _ => bind_variable id t span) s.
Proof.
  apply settles_const. unfold bind_variable. destruct (any_leaf _ t); [done|]. unfold bind, checking, bounded_type.
  destruct (_ || _); [|done]. cbn. unfold update. by destruct (id <? _).
Qed.

Section smaller.
Context (s : Inference) (a b : Ty).
Context (Hs : state_ok s) (Ha : well_formed a) (Hb : well_formed b).
Context (Hoa : forall id, occurs id a -> open s id) (Hob : forall id, occurs id b -> open s id).

(** The states that the sub-problems start in. *)
Definition good (s' : Inference) : Prop := state_ok s' /\ extends s s'.

Context (Hsmaller : forall x y s', well_formed x -> well_formed y ->
  (forall id, occurs id x -> open s id) -> (forall id, occurs id y -> open s id) ->
  term_size (term x) + term_size (term y) < term_size (term a) + term_size (term b) -> good s' -> unifies x y s').

Lemma good_unify fuel x y s' s1 : well_formed x -> well_formed y -> good s' ->
  unify types span fuel x y s' = (Ok tt, s1) -> good s1.
Proof.
  intros Hx Hy [Hs' He] E. pose proof (unify_outcome types span n strict fuel s' x y Hs' Hx Hy) as [H1 H2 _ _ _ _].
  rewrite E in H1, H2. split; [done|]. by trans s'.
Qed.

Lemma part_open t p : p ∈ parts t -> (forall id, occurs id t -> open s id) -> forall id, occurs id p -> open s id.
Proof. intros Hp H id Ho. apply H. by econstructor. Qed.

Lemma term_smaller t p : well_formed t -> p ∈ parts t -> term_size (term p) < term_size (term t).
Proof.
  intros Ht Hp. pose proof (part_smaller types n strict Unknown t p (every_root _ _ Ht) Hp) as H. by rewrite !sub_Unknown in H.
Qed.

Lemma unifies_parts x y s' : x ∈ parts a -> y ∈ parts b -> good s' -> unifies x y s'.
Proof.
  intros Hx Hy Hg. pose proof (term_smaller a x Ha Hx). pose proof (term_smaller b y Hb Hy).
  apply Hsmaller; [exact (every_part _ _ _ Ha Hx)|exact (every_part _ _ _ Hb Hy)|exact (part_open a x Hx Hoa)|exact (part_open b y Hy Hob)
    |lia|done].
Qed.

Lemma zip_parts l r x y : (forall x, x ∈ l -> x ∈ parts a) -> (forall y, y ∈ r -> y ∈ parts b) ->
  (x, y) ∈ zip l r -> x ∈ parts a /\ y ∈ parts b.
Proof. intros Hl Hr Hxy. split; [by eapply Hl, elem_of_zip_l|by eapply Hr, elem_of_zip_r]. Qed.

Lemma good_unify_parts fuel x y s' s1 : x ∈ parts a -> y ∈ parts b -> good s' ->
  unify types span fuel x y s' = (Ok tt, s1) -> good s1.
Proof. intros Hx Hy. by apply good_unify; [exact (every_part _ _ _ Ha Hx)|exact (every_part _ _ _ Hb Hy)]. Qed.

Lemma all_settles l r s' : (forall x, x ∈ l -> x ∈ parts a) -> (forall y, y ∈ r -> y ∈ parts b) -> good s' ->
  settles (fun fuel => unify_all (unify types span fuel) l r) s'.
Proof.
  intros Hl Hr Hg. apply (settles_for_each good (fun fuel '(x, y) => unify types span fuel x y)); [done|..].
  - intros [x y] s1 [Hx Hy]%zip_parts Hg1; [|done..]. by apply unifies_parts.
  - intros [x y] fuel s1 s2 [Hx Hy]%zip_parts Hg1 E; [|done..]. by eapply good_unify_parts.
Qed.

Lemma arguments_settle l r s' : (forall x, x ∈ l -> x ∈ parts a) -> (forall y, y ∈ r -> y ∈ parts b) -> good s' ->
  settles (fun fuel => unify_arguments types (unify types span fuel) a b l r) s'.
Proof.
  intros Hl Hr Hg. unfold unify_arguments.
  apply (settles_for_each good (fun fuel '(x, y) => map_err (unify types span fuel x y) _)); [done|..].
  - intros [x y] s1 [Hx Hy]%zip_parts Hg1; [|done..]. apply (settles_map_err (fun fuel => unify types span fuel x y)
      (fun _ error => if is_mismatch error && negb (any_leaf is_infer a) && negb (any_leaf is_infer b) then
        reading (fun _ => mismatch_of types b a (d_span error)) else ret error)); [by apply unifies_parts|].
    intros d s2 _. apply settles_const. destruct (_ && _); [|done]. unfold reading.
    by destruct (mismatch_of_returns types n strict b a (d_span d) Hb Ha) as (d' & -> & _).
  - intros [x y] fuel s1 s2 [Hx Hy]%zip_parts Hg1 E; [|done..]. unfold map_err in E.
    destruct (unify types span fuel x y s1) as [[[]|[d|e]] s3] eqn:E'; [|unfold bind in E; by destruct (_ s3) as [[?|?] ?]|done].
    injection E as <-. by eapply good_unify_parts.
Qed.

(** An application and a type with parts of a constructor, on either side. *)
Lemma application_settles h l t s' : (Ty_Application h l = a /\ t = b) \/ (Ty_Application h l = b /\ t = a) -> good s' ->
  settles (fun fuel => unify_application span (unify types span fuel) h l t) s'.
Proof.
  intros Hab Hg. unfold unify_application. destruct (decompose t) as [[c complete]|] eqn:E; [|by apply settles_const].
  destruct (Nat.leb_spec (length l) (length complete)) as [Hle|_]; [|by apply settles_const].
  assert (well_formed (Ty_Application h l) /\ well_formed t /\ (forall id, occurs id (Ty_Application h l) -> open s id) /\
    (forall id, occurs id t -> open s id) /\
    term_size (term (Ty_Application h l)) + term_size (term t) = term_size (term a) + term_size (term b)) as (Hh & Ht & Hoh & Hot & Hsize).
  { destruct Hab as [[<- ->]|[<- ->]]; split_and!; try done. lia. }
  pose proof E as (Eterm & Earity & Eparts)%decompose_term.
  assert (well_formed (Ty_Partial c (drop (length l) complete))) as Hp.
  { constructor; [|cbn [parts]; apply Forall_drop; rewrite <- Eparts; by apply every_parts]. cbn. split.
    - exact (decompose_named _ _ _ _ _ _ E (every_root _ _ Ht)).
    - rewrite Earity, length_drop. destruct l; [by apply every_root in Hh|]. cbn in *. lia. }
  assert (well_formed h) as Hwh by (apply (every_part _ _ _ Hh); left).
  assert (forall x y, x ∈ h :: l -> y ∈ complete -> forall s', good s' -> unifies x y s') as Hpair.
  { intros x y Hx Hy s1 Hg1. rewrite <- Eparts in Hy.
    pose proof (term_smaller (Ty_Application h l) x Hh Hx). pose proof (term_smaller t y Ht Hy).
    apply Hsmaller; [exact (every_part _ _ _ Hh Hx)|exact (every_part _ _ _ Ht Hy)|exact (part_open (Ty_Application h l) x Hx Hoh)
      |exact (part_open t y Hy Hot)|lia|done]. }
  apply (settles_bind (fun fuel => unify types span fuel h (Ty_Partial c (drop (length l) complete)))
    (fun fuel _ => unify_all (unify types span fuel) l complete)).
  - apply Hsmaller; try done.
    + apply (part_open (Ty_Application h l)); [left|done].
    + intros id Ho. apply occurs_parts in Ho as [?|(p & Hp' & Ho)]; [done|]. cbn [parts] in Hp'. apply Hot.
      apply (occurs_below _ _ p); [|done]. rewrite Eparts. rewrite <- (take_drop (length l) complete). apply elem_of_app. by right.
    + pose proof (term_smaller (Ty_Application h l) h Hh (list_elem_of_here _ _)).
      enough (term_size (term (Ty_Partial c (drop (length l) complete))) <= term_size (term t)) by lia.
      assert (term t = apps (term (Ty_Partial c (drop (length l) complete))) (term <$> take (length l) complete)) as ->.
      { rewrite Eterm. cbn [term]. by rewrite <- apps_app, <- fmap_app, take_drop. }
      apply size_apps.
  - intros [] s1 [fuel E1]%eventually_some. apply (settles_for_each good (fun fuel '(x, y) => unify types span fuel x y)).
    + exact (good_unify fuel h _ s' s1 Hwh Hp Hg E1).
    + intros [x y] s2 Hxy Hg2. apply Hpair; [right; by eapply elem_of_zip_l|by eapply elem_of_zip_r|done].
    + intros [x y] fuel' s2 s3 Hxy Hg2 E2. eapply (good_unify fuel' x y); [| |done..].
      * apply (every_part _ _ _ Hh). right. by eapply elem_of_zip_l.
      * apply (every_part _ _ _ Ht). rewrite Eparts. by eapply elem_of_zip_r.
Qed.

Lemma fixed_settles a1 k b1 m s' : a = Ty_FixedArray a1 k -> b = Ty_FixedArray b1 m -> good s' ->
  settles (fun fuel => unify_resolved types span (resolve fuel) (unify types span fuel) a b) s'.
Proof.
  intros Ea Eb Hg. rewrite Ea, Eb. cbn [unify_resolved]. rewrite <- Ea, <- Eb.
  assert (k ∈ parts a /\ m ∈ parts b) as [Hk Hm] by (rewrite Ea, Eb; split; right; left).
  assert (a1 ∈ parts a /\ b1 ∈ parts b) as [Ha1 Hb1] by (rewrite Ea, Eb; split; left).
  apply (settles_bind (fun fuel => map_err (unify types span fuel k m) (fun error => if is_mismatch error then
      let? expected := reading (fun s => resolve fuel s b) in
      let? expected := reading (fun _ => display types expected) in
      let? actual := reading (fun s => resolve fuel s a) in
      let? actual := reading (fun _ => display types actual) in
      ret (mismatch expected actual (d_span error)) else ret error)) (fun fuel _ => unify types span fuel a1 b1)).
  - apply (settles_map_err (fun fuel => unify types span fuel k m) (fun fuel error => if is_mismatch error then
      let? expected := reading (fun s => resolve fuel s b) in
      let? expected := reading (fun _ => display types expected) in
      let? actual := reading (fun s => resolve fuel s a) in
      let? actual := reading (fun _ => display types actual) in
      ret (mismatch expected actual (d_span error)) else ret error)); [by apply unifies_parts|].
    intros d s1 [fuel E]%eventually_some. destruct (is_mismatch d); [|by apply settles_const].
    assert (state_ok s1) as Hs1.
    { pose proof (unify_outcome types span n strict fuel s' k m (proj1 Hg) (every_part _ _ _ Ha Hk) (every_part _ _ _ Hb Hm)) as [H _ _ _ _ _].
      by rewrite E in H. }
    destruct (resolve_settles types n strict s1 b Hs1 Hb) as (rb & Hrb & Hwb & _).
    destruct (resolve_settles types n strict s1 a Hs1 Ha) as (ra & Hra & Hwa & _).
    destruct (display_returns types n strict rb Hwb) as [eb Heb]. destruct (display_returns types n strict ra Hwa) as [ea Hea].
    eexists (Ok _, s1). split; [done|]. eapply eventually_next; [exact (eventually_both _ _ _ _ Hra Hrb)|].
    intros fuel' [= E1 E2]. unfold bind, reading. rewrite E2, Heb, E1, Hea. reflexivity.
  - intros [] s1 [fuel E]%eventually_some. apply unifies_parts; [done..|].
    unfold map_err in E. destruct (unify types span fuel k m s') as [[[]|[d|e]] s3] eqn:E'; [|unfold bind in E; by destruct (_ s3) as [[?|?] ?]|done].
    injection E as <-. exact (good_unify_parts fuel k m s' s3 Hk Hm Hg E').
Qed.

Lemma tail_open common ps r : (forall z, z ∈ ps -> forall id, occurs id z -> open s id) ->
  (forall id, occurs id r -> open s id) -> forall id, occurs id (tail common ps r) -> open s id.
Proof.
  intros Hps Hr. unfold tail. destruct (_ =? _); [done|]. apply every_occurs, every_function.
  - apply Forall_drop, list.Forall_forall. intros z Hz. by apply every_occurs, Hps.
  - by apply every_occurs.
  - intros id E. unfold function_with_conventions in E. by destruct (match drop common ps with [] => _ | _ => _ end) as [[? ?] ?].
Qed.

Lemma tail_smaller common ps c p r : common <= length ps -> (p = true -> common = length ps) -> (ps <> [] -> 0 < common) ->
  term_size (term (tail common ps r)) < term_size (term (Ty_Function ps c p r)).
Proof.
  intros Hle Hp Hne. rewrite term_tail by done. cbn [term].
  destruct p; [|destruct ps as [|q ps]].
  - rewrite Hp, drop_all by done. exact (proj1 (size_function (term <$> ps) true (term r))).
  - rewrite drop_nil. unfold arrows. cbn. lia.
  - specialize (Hne ltac:(done)). assert (arrows (term <$> q :: ps) (term r) =
      arrows (term <$> take common (q :: ps)) (arrows (term <$> drop common (q :: ps)) (term r))) as E.
    { by rewrite <- arrows_app, <- fmap_app, take_drop. }
    change (term_size (arrows (term <$> drop common (q :: ps)) (term r)) < term_size (arrows (term <$> q :: ps) (term r))).
    rewrite E. apply (proj1 (proj2 (size_arrows _ _))). destruct common; [lia|done].
Qed.

Lemma functions_settle l c p x r d y s' : a = Ty_Function l c p x -> b = Ty_Function r d p y ->
  (l = [] <-> r = []) -> (p = true -> length l = length r) -> good s' ->
  settles (fun fuel => unify_resolved types span (resolve fuel) (unify types span fuel) a b) s'.
Proof.
  intros Ea Eb Hnil Hpure Hg. rewrite Ea, Eb. cbn [unify_resolved]. rewrite <- Ea, <- Eb.
  destruct (_ && _); [|by apply not_unified_settles].
  set (common := Nat.min (length l) (length r)).
  assert (forall z, z ∈ l -> z ∈ parts a) as Hl by (intros z Hz; rewrite Ea; apply elem_of_app; by left).
  assert (forall z, z ∈ r -> z ∈ parts b) as Hr by (intros z Hz; rewrite Eb; apply elem_of_app; by left).
  assert (x ∈ parts a) as Hx by (rewrite Ea; apply elem_of_app; right; left).
  assert (y ∈ parts b) as Hy by (rewrite Eb; apply elem_of_app; right; left).
  assert (Forall well_formed l /\ Forall well_formed r) as [Hwl Hwr].
  { split; apply list.Forall_forall; intros z Hz; [exact (every_part _ _ _ Ha (Hl z Hz))|exact (every_part _ _ _ Hb (Hr z Hz))]. }
  apply (settles_bind (fun fuel => unify_all (unify types span fuel) l r)
    (fun fuel _ => unify types span fuel (tail common l x) (tail common r y))); [by apply all_settles|].
  intros [] s1 [fuel E]%eventually_some. assert (well_formed x /\ well_formed y) as [Hwx Hwy].
  { split; [exact (every_part _ _ _ Ha Hx)|exact (every_part _ _ _ Hb Hy)]. }
  apply Hsmaller; [by apply tail_well_formed|by apply tail_well_formed|..].
  - apply tail_open; [|exact (part_open a x Hx Hoa)]. intros z Hz. exact (part_open a z (Hl z Hz) Hoa).
  - apply tail_open; [|exact (part_open b y Hy Hob)]. intros z Hz. exact (part_open b z (Hr z Hz) Hob).
  - rewrite Ea, Eb. apply Nat.add_lt_mono; apply tail_smaller; unfold common;
      try lia; try (intros Hp; specialize (Hpure Hp); lia); intros Hne; destruct l, r; cbn; naive_solver lia.
  - assert (outcome types n strict s' (zip l r) (unify_all (unify types span fuel) l r s')) as [H1 H2 _ _ _ _].
    { apply outcome_all; [|by apply Hg|done|done]. intros. by apply unify_outcome. }
    rewrite E in H1, H2. split; [done|]. by trans s'; [apply Hg|].
Qed.

End smaller.

Lemma settles_ext {A} (m m' : nat -> M Failure Inference A) s : (forall fuel, m fuel s = m' fuel s) -> settles m' s -> settles m s.
Proof. intros H (r & Hr & E). exists r. split; [done|]. eapply eventually_next; [exact E|]. intros fuel <-. apply H. Qed.

Lemma resolved_settles s a b :
  state_ok s -> well_formed a -> well_formed b ->
  (forall id, occurs id a -> open s id) -> (forall id, occurs id b -> open s id) ->
  (forall x y s', well_formed x -> well_formed y ->
    (forall id, occurs id x -> open s id) -> (forall id, occurs id y -> open s id) ->
    term_size (term x) + term_size (term y) < term_size (term a) + term_size (term b) -> good s s' -> unifies x y s') ->
  a <> b -> settles (fun fuel => unify_resolved types span (resolve fuel) (unify types span fuel) a b) s.
Proof.
  intros Hs Ha Hb Hoa Hob Hsmaller Hne. assert (good s s) as Hg by done.
  destruct (shape_or_clash types n strict span a b (every_root _ _ Ha) (every_root _ _ Hb) Hne) as [Hshape|[Hclash _]];
    [|by apply (settles_ext _ (fun _ => not_unified types span a b)); [intros; by rewrite Hclash|apply not_unified_settles]].
  pose proof (all_settles s a b Ha Hb Hoa Hob Hsmaller) as Hall.
  pose proof (arguments_settle s a b Ha Hb Hoa Hob Hsmaller) as Harguments.
  pose proof (application_settles s a b Ha Hb Hoa Hob Hsmaller) as Happlication.
  pose proof (unifies_parts s a b Ha Hb Hoa Hob Hsmaller) as Hparts.
  destruct Hshape as [c l r Hl|h l g r Hl|h l g r Hl|h l t Hi Happ|t h l Hi Happ|id t Hv|t id Hv Hi|f x y Hf|x k y m|l r Hl|id l r Hl|id l r Hl
    |l c p x r d y Hnil Hpure].
  - eapply settles_ext; [intros fuel; cbn [unify_resolved]; by rewrite bool_decide_eq_true_2, (proj2 (Nat.eqb_eq _ _) Hl)|].
    by apply Hall.
  - apply (settles_ext _ (fun fuel => unify types span fuel h g ;;; unify_all (unify types span fuel) l r)).
    { intros fuel. cbn [unify_resolved]. by rewrite (proj2 (Nat.eqb_eq _ _) Hl). }
    apply (settles_bind (fun fuel => unify types span fuel h g) (fun fuel _ => unify_all (unify types span fuel) l r)).
    + by apply Hparts; [left..|].
    + intros [] s1 [fuel E]%eventually_some. apply Hall; [by right..|].
      by apply (good_unify_parts s (Ty_Application h l) (Ty_Application g r) Ha Hb fuel h g s); [left..| |].
  - eapply settles_ext; [intros fuel; cbn [unify_resolved]; by rewrite (proj2 (Nat.eqb_neq _ _) Hl)|].
    apply Happlication; [by left|done].
  - apply (settles_ext _ (fun fuel => unify_application span (unify types span fuel) h l t)); [by intros; destruct t|].
    apply Happlication; [by left|done].
  - apply (settles_ext _ (fun fuel => unify_application span (unify types span fuel) h l t)); [by intros; destruct t|].
    apply Happlication; [by right|done].
  - apply (settles_ext _ (fun _ => bind_variable id t span)); [by intros; destruct t|apply bind_variable_settles].
  - apply (settles_ext _ (fun _ => bind_variable id t span)); [by intros; destruct t|apply bind_variable_settles].
  - apply (settles_ext _ (fun fuel => unify types span fuel x y)).
    + intros fuel. destruct Hf; cbn [unify_resolved]; rewrite ?eqb_reflx, ?bool_decide_eq_true_2 by done; done.
    + by apply Hparts; [destruct Hf; left..|].
  - by eapply fixed_settles.
  - apply (settles_ext _ (fun fuel => unify_all (unify types span fuel) l r)); [|by apply Hall].
    intros fuel. cbn [unify_resolved]. by rewrite (proj2 (Nat.eqb_eq _ _) Hl).
  - apply (settles_ext _ (fun fuel => unify_arguments types (unify types span fuel) (Ty_Record id l) (Ty_Record id r) l r)); [|by apply Harguments].
    intros fuel. cbn [unify_resolved]. by rewrite Nat.eqb_refl, (proj2 (Nat.eqb_eq _ _) Hl).
  - apply (settles_ext _ (fun fuel => unify_arguments types (unify types span fuel) (Ty_Union id l) (Ty_Union id r) l r)); [|by apply Harguments].
    intros fuel. cbn [unify_resolved]. by rewrite Nat.eqb_refl, (proj2 (Nat.eqb_eq _ _) Hl).
  - by eapply functions_settle.
Qed.

(** [unify] ends: the measure is the number of open variables, then the size of the resolved types. *)
Lemma unify_settles s a b : state_ok s -> well_formed a -> well_formed b -> unifies a b s.
Proof.
  remember (count_open s) as k eqn:Hk. revert s Hk a b. induction k as [k IHk] using (well_founded_induction lt_wf). intros s Hk.
  enough (forall m a b a' b', state_ok s -> well_formed a -> well_formed b ->
    eventually (fun fuel => resolve fuel s a) (Ok a') -> eventually (fun fuel => resolve fuel s b) (Ok b') ->
    term_size (term a') + term_size (term b') = m -> unifies a b s) as H.
  { intros a b Hs Ha Hb. destruct (resolve_settles types n strict s a Hs Ha) as (a' & Hra & _).
    destruct (resolve_settles types n strict s b Hs Hb) as (b' & Hrb & _). by eapply H. }
  intros m. induction m as [m IHm] using (well_founded_induction lt_wf). intros a b a' b' Hs Ha Hb Hra Hrb Hm.
  destruct (resolve_settles types n strict s a Hs Ha) as (a2 & Hra2 & Hwa & Hoa).
  pose proof (eventually_unique _ _ _ Hra Hra2) as [= <-]. destruct (resolve_settles types n strict s b Hs Hb) as (b2 & Hrb2 & Hwb & Hob).
  pose proof (eventually_unique _ _ _ Hrb Hrb2) as [= <-]. clear Hra2 Hrb2.
  assert (exists r, r.1 <> Err (Broken OutOfFuel) /\ eventually (fun fuel =>
    (if bool_decide (a' = b') || contains_error a' || contains_error b' then ret tt
     else unify_resolved types span (resolve fuel) (unify types span fuel) a' b') s) r) as (r & Hr & E).
  { destruct (bool_decide (a' = b') || contains_error a' || contains_error b') eqn:E; [by apply settles_const|].
    apply orb_false_iff in E as [[Hne%bool_decide_eq_false _]%orb_false_iff _].
    apply resolved_settles; try done. intros x y s' Hx Hy Hox Hoy Hsize [Hs' He].
    destruct (extends_count s s' He) as [->|Hlt]; [|by apply (IHk (count_open s')); [lia|..]].
    destruct (resolve_settles types n strict s x Hs Hx) as (x' & Hrx & _). destruct (resolve_settles types n strict s y Hs Hy) as (y' & Hry & _).
    assert (term x' = term x /\ term y' = term y) as [Ex Ey].
    { split; [destruct (eventually_some _ _ Hrx) as [fuel H]|destruct (eventually_some _ _ Hry) as [fuel H]]; by eapply resolve_open. }
    eapply (IHm (term_size (term x') + term_size (term y'))); [rewrite Ex, Ey; lia|done..]. }
  exists r. split; [done|]. destruct (eventually_both _ _ _ _ (eventually_both _ _ _ _ Hra Hrb) E) as [enough H].
  exists (S enough). intros [|fuel] Hf; [lia|]. specialize (H fuel ltac:(lia)). injection H as E1 E2 E3.
  cbn [unify]. unfold bind at 1, reading at 1. rewrite E1. unfold bind at 1, reading at 1. by rewrite E2.
Qed.
End unify.

(** ** The most general model *)

Definition canonical (fuel : nat) (s : Inference) (id : nat) : Term :=
  match resolve fuel s (Ty_Infer id) with Ok r => term r | Err _ => Unknown id end.

Section models.
Context (types : TypeContext) (n : nat) (strict : bool) (s : Inference).
Context (Hs : state_ok types n strict s).

Lemma enough_fuel m : m <= n -> exists fuel, forall id, id < m -> exists r, resolve fuel s (Ty_Infer id) = Ok r.
Proof.
  induction m as [|m IH]; intros Hm; [exists 0; lia|]. destruct IH as [f Hf]; [lia|].
  destruct (resolve_returns types n strict s (Ty_Infer m) Hs) as (g & r & Hr); [constructor; [exact Hm|constructor]|].
  exists (Nat.max f g). intros id Hid. destruct (decide (id = m)) as [->|Hne].
  - exists r. apply (resolve_more _ _ _ _ _ Hr). lia.
  - destruct (Hf id) as [r' Hr']; [lia|]. exists r'. apply (resolve_more _ _ _ _ _ Hr'). lia.
Qed.

Section canonical.
Context (fuel : nat) (Hfuel : forall id, id < n -> exists r, resolve fuel s (Ty_Infer id) = Ok r).

Lemma canonical_variable k id r : id < n -> resolve k s (Ty_Infer id) = Ok r -> canonical fuel s id = term r.
Proof.
  intros Hid Hr. unfold canonical. destruct (Hfuel id Hid) as [r' Hr']. rewrite Hr'. by rewrite (resolve_agree s _ _ _ _ _ Hr Hr').
Qed.

(** The resolved type is the type under the canonical substitution. *)
Lemma resolve_canonical k t r : well_formed types n strict t -> resolve k s t = Ok r -> term r = sub (canonical fuel s) (term t).
Proof.
  revert t r. induction k as [|k IH]; intros t r Ht Hr; [done|]. destruct (is_infer t) eqn:Hi.
  - apply is_infer_true in Hi as [id ->]. symmetry. eapply canonical_variable; [exact (every_root _ _ Ht)|exact Hr].
  - rewrite resolve_S in Hr. assert (chase k s t = Ok t \/ chase k s t = Err OutOfFuel) as [E|E].
    { destruct k; [by right|left]. by destruct t. }
    + rewrite E in Hr. cbn in Hr. destruct (mapM (resolve k s) (parts t)) as [ts|] eqn:Hts; [|done]. cbn in Hr. injection Hr as <-.
      rewrite <- (sub_Unknown (term (rebuild t ts))). apply term_rebuild'; [done|]. apply mapM_try_Ok in Hts.
      eapply Forall2_left; [exact (every_parts _ _ Ht)|exact Hts|]. intros x y Hx Hxy. rewrite sub_Unknown. by apply IH.
    + by rewrite E in Hr.
Qed.

Lemma canonical_models : models (canonical fuel s) s.
Proof.
  intros id t Hid. assert (id < n) as Hlt.
  { rewrite <- (state_variables _ _ _ _ Hs). by eapply lookup_lt_Some. }
  pose proof (state_solutions _ _ _ _ Hs id t Hid) as Ht.
  destruct (resolve_returns types n strict s t Hs Ht) as (k & r & Hr).
  rewrite <- (resolve_canonical k t r Ht Hr). by eapply canonical_variable, resolve_solution.
Qed.

Lemma canonical_general theta : models theta s -> forall t, sub theta (sub (canonical fuel s) t) = sub theta t.
Proof.
  intros Hm. induction t as [id|label|f IHf x IHx]; cbn; [|done|by rewrite IHf, IHx]. unfold canonical.
  destruct (resolve fuel s (Ty_Infer id)) as [r|] eqn:Hr; [|done]. destruct (decide (id < n)) as [Hid|Hid].
  - apply (resolve_spec types n strict) in Hr as (_ & _ & H); [|apply Hs|by constructor; [|constructor]]. by rewrite H.
  - exfalso. assert (solutions s !! id = None) as E.
    { apply lookup_ge_None. rewrite (state_variables _ _ _ _ Hs). lia. }
    destruct fuel as [|[|f]]; [done..|]. rewrite resolve_S in Hr. cbn [chase] in Hr. unfold or_panic in Hr. by rewrite E in Hr.
Qed.
End canonical.

Lemma most_general : exists theta, models theta s /\ forall theta', models theta' s -> forall t, sub theta' (sub theta t) = sub theta' t.
Proof.
  destruct (enough_fuel n) as [fuel Hfuel]; [done|]. exists (canonical fuel s). split.
  - by apply canonical_models.
  - by apply canonical_general.
Qed.

(** Types that every model makes equal resolve to the same term. *)
Lemma resolve_equal a b k l ra rb : well_formed types n strict a -> well_formed types n strict b ->
  (forall theta, models theta s -> equates theta a b) -> resolve k s a = Ok ra -> resolve l s b = Ok rb -> term ra = term rb.
Proof.
  intros Ha Hb Heq Hra Hrb. destruct (enough_fuel n) as [fuel Hfuel]; [done|].
  rewrite (resolve_canonical fuel Hfuel _ _ _ Ha Hra), (resolve_canonical fuel Hfuel _ _ _ Hb Hrb).
  by apply Heq, canonical_models.
Qed.
End models.

(** ** Open variables *)

Fixpoint unknown_in (id : nat) (t : Term) : Prop :=
  match t with Unknown x => x = id | Constant _ => False | Apply f x => unknown_in id f \/ unknown_in id x end.

Lemma unknown_apps id f xs : unknown_in id (apps f xs) <-> unknown_in id f \/ Exists (unknown_in id) xs.
Proof. unfold apps. induction xs as [|x xs IH]; cbn; [rewrite Exists_nil|rewrite Exists_cons, IH]; tauto. Qed.

Lemma unknown_arrows id xs r : unknown_in id (arrows xs r) <-> unknown_in id r \/ Exists (unknown_in id) xs.
Proof. unfold arrows. induction xs as [|x xs IH]; cbn; [rewrite Exists_nil|rewrite Exists_cons, IH]; tauto. Qed.

Lemma unknown_function id xs p r : unknown_in id (function_term xs p r) <-> unknown_in id r \/ Exists (unknown_in id) xs.
Proof.
  unfold function_term. destruct p; [cbn; rewrite unknown_apps; cbn; tauto|]. destruct xs; [cbn; rewrite Exists_nil; tauto|].
  apply unknown_arrows.
Qed.

Lemma occurs_iff id t : occurs id t <-> t = Ty_Infer id \/ Exists (occurs id) (parts t).
Proof.
  rewrite list.Exists_exists. split.
  - intros [?|(p & ? & ?)]%occurs_parts; [by left|right; by exists p].
  - intros [->|(p & ? & ?)]; [constructor|by econstructor].
Qed.

Lemma Exists_fmap_iff {A B} (P : B -> Prop) (Q : A -> Prop) (f : A -> B) l :
  Forall (fun x => P (f x) <-> Q x) l -> Exists P (f <$> l) <-> Exists Q l.
Proof. induction 1 as [|x l Hx _ IH]; cbn; [by rewrite !Exists_nil|]. by rewrite !Exists_cons, Hx, IH. Qed.

(** The variables of a type are those of its term. *)
Lemma occurs_term id t : occurs id t <-> unknown_in id (term t).
Proof.
  induction t as [t IH] using Ty_parts_ind. rewrite occurs_iff.
  assert (Forall (fun t => unknown_in id (term t) <-> occurs id t) (parts t)) as Hall.
  { eapply list.Forall_impl; [exact IH|]. intros u Hu. by rewrite Hu. }
  clear IH. destruct t; cbn [parts] in Hall |- *; cbn [term];
    rewrite ?Exists_cons, ?Exists_nil; rewrite ?unknown_apps, ?(Exists_fmap_iff _ (occurs id)) by done; cbn;
    try (split; [by intros [?|?]|done]); try (split; [by intros [[= ->]|?]|by intros ->; left]);
    try (split; [intros [?|?]; [done|by right]|intros [?|?]; [done|by right]]);
    try (apply Forall_cons_iff in Hall as [Hu _]; rewrite ?Exists_cons, ?Exists_nil, ?Hu; naive_solver).
  - apply Forall_cons_iff in Hall as [Hu Hargs]. rewrite (Exists_fmap_iff _ (occurs id)) by done. rewrite Hu. naive_solver.
  - apply Forall_cons_iff in Hall as [Hu [Hv _]%Forall_cons_iff]. rewrite Hu, Hv. naive_solver.
  - apply Forall_app in Hall as [Hps [Hr _]%Forall_cons_iff]. rewrite unknown_function, (Exists_fmap_iff _ (occurs id)), Hr by done.
    rewrite Exists_app, Exists_cons, Exists_nil. naive_solver.
Qed.

Lemma occurs_rebuild id t ts : is_infer t = false -> length ts = length (parts t) ->
  occurs id (rebuild t ts) <-> Exists (occurs id) ts.
Proof.
  intros Hi Hl.
  assert (forall l, Exists (unknown_in id) (term <$> l) <-> Exists (occurs id) l) as Hmap.
  { intros l. apply Exists_fmap_iff, list.Forall_forall. intros u _. by rewrite occurs_term. }
  rewrite occurs_term. destruct t; try done; cbn [parts] in Hl;
    try (destruct ts; [|done]; cbn; rewrite Exists_nil; done);
    try (cbn [rebuild term]; rewrite unknown_apps, Hmap; cbn; tauto);
    try (destruct ts as [|u [|v ts]]; cbn in Hl; try lia; cbn [rebuild term];
      rewrite ?unknown_apps, !Exists_cons, !Exists_nil, (occurs_term id u); cbn; tauto).
  - destruct ts as [|h args]; [done|]. cbn [rebuild]. rewrite term_apply, unknown_apps, Hmap, Exists_cons, occurs_term. done.
  - destruct ts as [|u [|v [|w ts]]]; try done. cbn. rewrite !Exists_cons, Exists_nil, (occurs_term id u), (occurs_term id v). tauto.
  - rewrite length_app in Hl. cbn in Hl. destruct (exists_last (l := ts)) as (ps & r & ->); [by intros ->; cbn in Hl; lia|].
    rewrite length_app in Hl. cbn in Hl. rewrite rebuild_function by lia.
    rewrite term_function, unknown_function, Hmap, Exists_app, Exists_cons, Exists_nil, (occurs_term id r). tauto.
Qed.

Definition any_open (p : nat -> bool) (t : Ty) : Prop := exists id, occurs id t /\ p id = true.

Lemma any_open_rebuild p t ts : is_infer t = false -> length ts = length (parts t) ->
  any_open p (rebuild t ts) <-> Exists (any_open p) ts.
Proof.
  intros Hi Hl. unfold any_open. rewrite list.Exists_exists. split.
  - intros (id & (x & Hx & Ho)%(occurs_rebuild id t ts Hi Hl)%list.Exists_exists & Hp). eauto.
  - intros (x & Hx & id & Ho & Hp). exists id. split; [|done]. apply occurs_rebuild, list.Exists_exists; eauto.
Qed.

(** A search that agrees with a property of what it searches. *)
Definition decides (m : Try bool) (P : Prop) : Prop := exists b, m = Ok b /\ (b = true <-> P).

Lemma decides_any {A B} (f : A -> Try bool) (P : B -> Prop) l k :
  Forall2 (fun x y => decides (f x) (P y)) l k -> decides (any f l) (Exists P k).
Proof.
  induction 1 as [|x y l k (b & Hx & Hb) _ (c & Hl & Hc)]; [exists false; split; [done|by rewrite Exists_nil]|].
  cbn. rewrite Hx. destruct b.
  - exists true. split; [done|]. rewrite Exists_cons. naive_solver.
  - exists c. split; [done|]. rewrite Exists_cons. naive_solver.
Qed.

Lemma any_app {A} (f : A -> Try bool) l k : any f (l ++ k) = or_else (any f l) (any f k).
Proof. induction l as [|x l IH]; cbn; [done|]. by destruct (f x) as [[]|]. Qed.

Lemma any_single {A} (f : A -> Try bool) x : any f [x] = f x.
Proof. cbn. by destruct (f x) as [[]|]. Qed.

Lemma reaches_S fuel s p t : reaches (S fuel) s p t =
  match chase fuel s t with
  | Err fault => Err fault
  | Ok (Ty_Infer id) => Ok (p id)
  | Ok u => any (reaches fuel s p) (parts u)
  end.
Proof.
  cbn [reaches]. destruct (chase fuel s t) as [u|]; [|done]. destruct u; cbn [parts]; rewrite ?any_app, ?any_single; try done.
  - cbn. by destruct (reaches fuel s p u) as [[]|].
  - cbn. destruct (reaches fuel s p u1) as [[]|]; [done| |done]. cbn. by destruct (reaches fuel s p u2) as [[]|].
Qed.

(** [reaches] searches the resolved type without building it. *)
Lemma reaches_decides fuel s p t r : resolve fuel s t = Ok r -> decides (reaches fuel s p t) (any_open p r).
Proof.
  revert t r. induction fuel as [|fuel IH]; intros t r; [done|]. rewrite resolve_S, reaches_S.
  destruct (chase fuel s t) as [u|]; [|done]. cbn [mbind Try_bind].
  destruct (mapM (resolve fuel s) (parts u)) as [ts|] eqn:Hts; [|done]. intros [= <-]. apply mapM_try_Ok in Hts.
  destruct (is_infer u) eqn:Hi.
  - apply is_infer_true in Hi as [id ->]. exists (p id). split; [done|]. unfold any_open. split.
    + intros Hp. exists id. split; [constructor|done].
    + intros (y & Ho & Hp). apply occurs_parts in Ho as [[= ->]|(q & Hq & _)]; [done|by apply elem_of_nil in Hq].
  - assert (decides (any (reaches fuel s p) (parts u)) (Exists (any_open p) ts)) as (b & Hb & Hiff).
    { apply decides_any. eapply list.Forall2_impl; [exact Hts|]. intros x y Hxy. by apply IH. }
    exists b. split; [by destruct u|]. rewrite Hiff. symmetry. apply any_open_rebuild; [done|]. symmetry. by eapply Forall2_length.
Qed.

(** ** Numeric defaults *)

(** The type at the end of the solutions of a variable: it is a variable only if that one is open. *)
Definition leads (s : Inference) (id : nat) (u : Ty) : Prop := eventually (fun fuel => chase fuel s (Ty_Infer id)) (Ok u).

Lemma resolve_root fuel s t u : chase fuel s t = Ok u -> forall x, resolve (S fuel) s t = Ok (Ty_Infer x) <-> u = Ty_Infer x.
Proof.
  intros E x. rewrite resolve_S, E. cbn [mbind Try_bind]. split.
  - destruct (mapM (resolve fuel s) (parts u)) as [ts|] eqn:Hts; [|done]. intros [= H]. apply mapM_try_Ok, Forall2_length in Hts.
    by eapply rebuild_infer.
  - by intros ->.
Qed.

Lemma resolve_numeric fuel s t u : chase fuel s t = Ok u -> is_numeric u = true -> resolve (S fuel) s t = Ok u.
Proof. intros E Hu. rewrite resolve_S, E. by destruct u. Qed.

Lemma chase_bound s x d fuel t u : open s x -> is_infer d = false -> chase fuel s t = Ok u ->
  (u = Ty_Infer x -> chase (S fuel) (bound s x d) t = Ok d) /\ (u <> Ty_Infer x -> chase fuel (bound s x d) t = Ok u).
Proof.
  intros Hx Hd. revert t. induction fuel as [|fuel IH]; intros t E; [done|]. destruct (is_infer t) eqn:Hi.
  - apply is_infer_true in Hi as [id ->]. cbn [chase] in E. unfold or_panic in E.
    destruct (solutions s !! id) as [[v|]|] eqn:Hid; cbn in E; [| |done].
    + assert (solutions (bound s x d) !! id = Some (Some v)) as Hid'.
      { apply (solved_bound s x d id v Hx). right. split; [|done]. intros ->. by apply (open_solved s x v). }
      destruct (IH v E) as [H1 H2]. split; intros Hu.
      * cbn [chase]. unfold or_panic. rewrite Hid'. by apply H1.
      * cbn [chase]. unfold or_panic. rewrite Hid'. by apply H2.
    + injection E as <-. split.
      * intros [= ->]. cbn [chase]. unfold or_panic. rewrite (proj2 (solved_bound s x d x d Hx)) by (by left). cbn. by destruct d.
      * intros Hne. cbn [chase]. unfold or_panic. cbn [bound solutions]. rewrite list_lookup_insert_ne by congruence. by rewrite Hid.
  - assert (u = t) as -> by (destruct t; try done; cbn in E; by injection E). split; [by intros ->|]. by destruct t.
Qed.

Lemma chase_extends s s' fuel t u : extends s s' -> is_infer u = false -> chase fuel s t = Ok u -> chase fuel s' t = Ok u.
Proof.
  intros He Hu. revert t. induction fuel as [|fuel IH]; intros t E; [done|]. destruct (is_infer t) eqn:Hi; [|by destruct t].
  apply is_infer_true in Hi as [id ->]. cbn [chase] in *. unfold or_panic in *.
  destruct (solutions s !! id) as [[v|]|] eqn:Hid; cbn in E; [|by injection E as <-|done].
  rewrite (extends_solved s s' id v He Hid). by apply IH.
Qed.

Section defaults.
Context (types : TypeContext) (n : nat) (strict : bool).

Abbreviation state_ok := (state_ok types n strict).

Lemma variable_leads s id : state_ok s -> id < n -> exists u, leads s id u.
Proof.
  intros Hs Hid. destruct (resolve_returns types n strict s (Ty_Infer id) Hs) as (fuel & r & Hr); [by constructor; [|constructor]|].
  destruct fuel as [|fuel]; [done|]. rewrite resolve_S in Hr. destruct (chase fuel s (Ty_Infer id)) as [u|] eqn:E; [|done].
  exists u, fuel. intros fuel' Hf. by apply (chase_more s fuel).
Qed.

Lemma leads_resolves s id u : state_ok s -> id < n -> leads s id u ->
  exists r, eventually (fun fuel => resolve fuel s (Ty_Infer id)) (Ok r) /\
    (forall x, r = Ty_Infer x <-> u = Ty_Infer x) /\ (is_numeric u = true -> r = u).
Proof.
  intros Hs Hid [k Hk]. destruct (resolve_settles types n strict s (Ty_Infer id) Hs) as (r & Hr & _); [by constructor; [|constructor]|].
  exists r. split; [done|]. destruct Hr as [l Hl]. specialize (Hl (S (Nat.max k l)) ltac:(lia)). specialize (Hk (Nat.max k l) ltac:(lia)).
  split.
  - intros x. rewrite <- (resolve_root _ _ _ _ Hk x), Hl. naive_solver.
  - intros Hu. rewrite (resolve_numeric _ _ _ _ Hk Hu) in Hl. congruence.
Qed.

Lemma leads_open s id x : state_ok s -> id < n -> leads s id (Ty_Infer x) -> open s x.
Proof.
  intros Hs Hid [k Hk]. specialize (Hk k ltac:(lia)). apply (chase_spec types n strict) in Hk as (_ & H & _); [by apply H|apply Hs].
Qed.

Lemma leads_bound s x d id u : open s x -> is_infer d = false -> leads s id u ->
  leads (bound s x d) id (if decide (u = Ty_Infer x) then d else u).
Proof.
  intros Hx Hd [k Hk]. destruct (decide (u = Ty_Infer x)) as [E|E].
  - exists (S k). intros [|fuel] Hf; [lia|]. by apply (chase_bound s x d fuel _ u Hx Hd (Hk fuel ltac:(lia))).
  - exists k. intros fuel Hf. by apply (chase_bound s x d fuel _ u Hx Hd (Hk fuel Hf)).
Qed.

Lemma leads_extends s s' id u : extends s s' -> is_infer u = false -> leads s id u -> leads s' id u.
Proof. intros He Hu [k Hk]. exists k. intros fuel Hf. by apply (chase_extends s s'), Hk. Qed.

Lemma numeric_infer d : is_numeric d = true -> is_infer d = false.
Proof. by destruct d. Qed.

Lemma numeric_bound s x d : state_ok s -> open s x -> is_numeric d = true -> state_ok (bound s x d) /\ extends s (bound s x d).
Proof.
  intros [H1 H2 H3] Hx Hd. assert (forall y, ~ occurs y d) as Hno.
  { intros y Ho. destruct d; try done; apply occurs_parts in Ho as [?|(p & Hp & _)]; [done|by apply elem_of_nil in Hp|done|by apply elem_of_nil in Hp|done|by apply elem_of_nil in Hp]. }
  split; [|by apply extends_bound]. split.
  - cbn. by rewrite length_insert.
  - intros id t [[_ ->]|[_ Ht]]%solved_bound; [|by eapply H2|done]. destruct d; try done; by constructor; [|constructor].
  - apply acyclic_bound; [done..| |apply Hno]. intros y Ho. by apply Hno in Ho.
Qed.

(** The first default whose variable has the open variable [x] as its root. *)
Definition finds (s : Inference) (x : nat) (l : list (nat * Ty)) (found : option Ty) : Prop :=
  eventually (fun fuel => find_default fuel s (Ty_Infer x) l) (Ok found).

Lemma finds_cons s x i d l found u : state_ok s -> i < n -> leads s i u -> finds s x ((i, d) :: l) found ->
  if decide (u = Ty_Infer x) then found = Some d else finds s x l found.
Proof.
  intros Hs Hi Hu Hf. destruct (leads_resolves s i u Hs Hi Hu) as (r & [k Hk] & Hr & _). destruct Hf as [l' Hf].
  destruct (decide (u = Ty_Infer x)) as [E|E].
  - specialize (Hf (Nat.max k l') ltac:(lia)). cbn in Hf. rewrite Hk in Hf by lia. cbn in Hf.
    rewrite bool_decide_eq_true_2 in Hf by (by apply Hr). by injection Hf.
  - exists (Nat.max k l'). intros fuel Hfuel. specialize (Hf fuel ltac:(lia)). cbn in Hf. rewrite Hk in Hf by lia. cbn in Hf.
    by rewrite bool_decide_eq_false_2 in Hf by (by intros ?%Hr).
Qed.

Lemma finds_bound s y d x l found : state_ok s -> open s y -> is_numeric d = true -> x <> y -> Forall (fun e => e.1 < n) l ->
  finds s x l found -> finds (bound s y d) x l found.
Proof.
  intros Hs Hy Hd Hne Hl. pose proof (numeric_bound s y d Hs Hy Hd) as [Hs' _].
  induction Hl as [|[i e] l Hi _ IH]; intros Hf; [destruct Hf as [k Hf]; specialize (Hf k ltac:(lia)); by exists 0|].
  cbn in Hi. destruct (variable_leads s i Hs Hi) as [u Hu]. pose proof (finds_cons _ _ _ _ _ _ _ Hs Hi Hu Hf) as Hc.
  pose proof (leads_bound s y d i u Hy (numeric_infer d Hd) Hu) as Hu'.
  destruct (leads_resolves _ i _ Hs' Hi Hu') as (r & [k Hk] & Hr & _). destruct (decide (u = Ty_Infer x)) as [->|E].
  - subst found. exists k. intros fuel Hfuel. cbn. rewrite Hk by done. cbn. rewrite bool_decide_eq_true_2; [done|].
    apply Hr. rewrite decide_False by congruence. done.
  - destruct (IH Hc) as [k' Hk']. exists (Nat.max k k'). intros fuel Hfuel. cbn. rewrite Hk by lia. cbn.
    rewrite bool_decide_eq_false_2; [apply Hk'; lia|]. intros Hrx%Hr. revert Hrx. destruct (decide (u = Ty_Infer y)) as [_|_]; [|done].
    by intros ->.
Qed.

(** The loop over the defaults ends; each open root takes its first default and the other roots stay open. *)
Lemma defaults_settle l s : state_ok s -> Forall (fun e => e.1 < n /\ is_numeric e.2 = true) l ->
  exists s', eventually (fun fuel => for_each (apply_default fuel) l s) (Ok tt, s') /\ state_ok s' /\ extends s s' /\
    forall id x found, id < n -> leads s id (Ty_Infer x) -> finds s x l found -> leads s' id (default (Ty_Infer x) found).
Proof.
  revert s. induction l as [|[i d] l IH]; intros s Hs Hl.
  - exists s. split; [by exists 0|]. split; [done|]. split; [done|]. intros id x found Hid Hroot [k Hf]. specialize (Hf k ltac:(lia)).
    by injection Hf as <-.
  - apply Forall_cons_iff in Hl as [[Hi Hd] Hl]. cbn in Hi, Hd. destruct (variable_leads s i Hs Hi) as [u Hu].
    destruct (leads_resolves s i u Hs Hi Hu) as (r & [k Hk] & Hr & _). destruct (is_infer u) eqn:Hui.
    + apply is_infer_true in Hui as [y ->]. pose proof (leads_open s i y Hs Hi Hu) as Hy.
      pose proof (numeric_bound s y d Hs Hy Hd) as [Hs1 He1].
      destruct (IH (bound s y d) Hs1 Hl) as (s' & [k' Hk'] & Hs' & He' & Hroots). exists s'. split; [|split; [done|split; [by trans (bound s y d)|]]].
      * exists (Nat.max k k'). intros fuel Hf. cbn [for_each]. unfold bind, apply_default, reading. cbn [fst snd]. unfold bind. rewrite Hk by lia.
        rewrite (proj2 (Hr y) eq_refl). unfold update. rewrite (proj2 (Nat.ltb_lt _ _) (lookup_lt_Some _ _ _ Hy)). apply Hk'. lia.
      * intros id x found Hid Hroot Hf. pose proof (finds_cons _ _ _ _ _ _ _ Hs Hi Hu Hf) as Hc.
        pose proof (leads_bound s y d id _ Hy (numeric_infer d Hd) Hroot) as Hroot'. destruct (decide (Ty_Infer y = Ty_Infer x)) as [[= <-]|Hne].
        -- subst found. rewrite decide_True in Hroot' by done. cbn. by apply (leads_extends (bound s y d)); [|apply numeric_infer|].
        -- rewrite decide_False in Hroot' by congruence. apply Hroots; [done..|].
           apply finds_bound; try done; [congruence|]. eapply list.Forall_impl; [exact Hl|]. by intros e [? _].
    + destruct (IH s Hs Hl) as (s' & [k' Hk'] & Hs' & He' & Hroots). exists s'. split; [|split; [done|split; [done|]]].
      * exists (Nat.max k k'). intros fuel Hf. cbn [for_each]. unfold bind, apply_default, reading. cbn [fst snd]. unfold bind. rewrite Hk by lia.
        destruct (is_infer r) eqn:Hri; [apply is_infer_true in Hri as [z Hz]; apply Hr in Hz; by subst|].
        replace (match r with Ty_Infer root => update root d | _ => ret tt end) with (ret (E := Failure) (S := Inference) tt) by (by destruct r).
        apply Hk'. lia.
      * intros id x found Hid Hroot Hf. pose proof (finds_cons _ _ _ _ _ _ _ Hs Hi Hu Hf) as Hc.
        rewrite decide_False in Hc by (by intros ->). by apply Hroots.
Qed.
End defaults.
