(* ===== verification/FunctionLaws.v ===== *)
(** * Functions, sizes and texts of types

    The parameters of a function with their conventions, which [function_with_conventions] joins; the constructors
    and the nesting of a type, which [type_size] measures without a walk past its limits; and [Type::display], which writes
    well-formed UTF-8, so that the messages of [unify] are its strings as they are. *)
From Stdlib Require Import Bool.
From stdpp Require Import list.
From Stdlib Require Import Ascii Bool.
From stdpp Require Import list strings.
From S2P Require Import Prelude Wire Faults Utf8 Text Render RenderLaws Trap TrapLaws Types.
From S2P Require Import Inference.
From S2P Require Import TypeLaws.
Local Open Scope nat_scope.

(** ** Parameters *)

(** The parameters with their conventions. *)
Definition modes (parameters : list Ty) (conventions : list ParameterConvention) : list (Ty * ParameterConvention) :=
  imap (fun index parameter => (parameter, convention conventions index)) parameters.

(** The parameters of an ordinary function through the functions that it returns, and the last result. *)
Fixpoint uncurried (ty : Ty) : list (Ty * ParameterConvention) * Ty :=
  match ty with
  | Ty_Function (more :: types) conventions false tail =>
    let '(parameters, result) := uncurried tail in (modes (more :: types) conventions ++ parameters, result)
  | _ => ([], ty)
  end.

(** No function has more conventions than parameters. *)
Definition fits (ty : Ty) : Prop :=
  match ty with Ty_Function parameters conventions _ _ => length conventions <= length parameters | _ => True end.

Lemma modes_app ps qs c : modes (ps ++ qs) c = modes ps c ++ modes qs (drop (length ps) c).
Proof.
  unfold modes. rewrite imap_app. f_equal. apply imap_ext. intros i x _. f_equal. unfold convention. by rewrite lookup_drop.
Qed.

Lemma modes_ext ps c d : (forall i, i < length ps -> convention c i = convention d i) -> modes ps c = modes ps d.
Proof. intros H. apply imap_ext. intros i x Hx. f_equal. apply H. by eapply lookup_lt_Some. Qed.

Lemma convention_resize c k i : i < k -> convention (resize k ParameterConvention_Own c) i = convention c i.
Proof.
  intros Hi. unfold convention. destruct (decide (i < length c)) as [Hc|Hc].
  - by rewrite lookup_resize.
  - rewrite lookup_resize_new by lia. by rewrite (lookup_ge_None_2 c i) by lia.
Qed.

Lemma convention_beyond c i : length c <= i -> convention c i = ParameterConvention_Own.
Proof. intros H. unfold convention. by rewrite lookup_ge_None_2. Qed.

Lemma modes_joined ps qs c d : length c <= length ps ->
  modes (ps ++ qs) (match d with _ :: _ => resize (length ps) ParameterConvention_Own c ++ d
    | [] => match c with _ :: _ => resize (length ps + length qs) ParameterConvention_Own c | [] => c end end) = modes ps c ++ modes qs d.
Proof.
  intros Hc. rewrite modes_app. destruct d as [|m d].
  - f_equal; apply modes_ext; intros i Hi; destruct c as [|k c]; try done.
    + by rewrite convention_resize by lia.
    + unfold convention. by rewrite lookup_drop.
    + unfold convention at 1. rewrite lookup_drop. fold (convention (resize (length ps + length qs) ParameterConvention_Own (k :: c)) (length ps + i)).
      rewrite convention_resize, !convention_beyond by (cbn in *; lia). done.
  - f_equal.
    + apply modes_ext. intros i Hi. unfold convention at 1. rewrite lookup_app_l by (by rewrite length_resize).
      fold (convention (resize (length ps) ParameterConvention_Own c) i). by apply convention_resize.
    + by rewrite drop_app_length' by (by rewrite length_resize).
Qed.

Lemma flatten_modes ps c r : length c <= length ps -> every fits r ->
  let '(ps', c', r') := flatten ps c r in
  modes ps' c' = modes ps c ++ (uncurried r).1 /\ r' = (uncurried r).2 /\ length c' <= length ps'.
Proof.
  revert ps c. induction r as [r IH] using Ty_parts_ind. intros ps c Hc Hr.
  destruct r as [| | | | | | | | | | | | | | | | | | | | | | | | | |more d pure_ tail_| | |];
    try (cbn; by rewrite app_nil_r).
  destruct pure_; [destruct more; cbn; by rewrite app_nil_r|]. destruct more as [|m more]; [cbn; by rewrite app_nil_r|].
  cbn [flatten]. cbv zeta. cbn [parts] in IH. apply Forall_app in IH as [_ [IH _]%Forall_cons_iff].
  pose proof (every_root _ _ Hr) as Hd. cbn in Hd. pose proof (every_parts _ _ Hr) as [_ [Ht _]%Forall_cons_iff]%Forall_app.
  match goal with |- context [flatten (ps ++ m :: more) ?x tail_] => set (c' := x) end.
  assert (length c' <= length (ps ++ m :: more)) as Hc'.
  { subst c'. rewrite length_app. destruct d as [|e d]; [destruct c|]; rewrite ?length_app, ?length_resize; cbn in *; lia. }
  specialize (IH (ps ++ m :: more) c' Hc' Ht). destruct (flatten (ps ++ m :: more) c' tail_) as [[ps' c''] r'].
  cbn [uncurried]. destruct (uncurried tail_) as [us u]. destruct IH as (-> & -> & Hl). split; [|done].
  subst c'. rewrite (modes_joined ps (m :: more) c d Hc). cbn [fst]. by rewrite app_assoc.
Qed.

Lemma modes_own ps c : forallb is_own c = true -> modes ps c = modes ps [].
Proof.
  intros H. apply modes_ext. intros i _. unfold convention. destruct (c !! i) as [m|] eqn:E; [|done]. cbn.
  rewrite forallb_forall in H. apply list_elem_of_lookup_2, list_elem_of_In, H in E. by destruct m.
Qed.

Lemma uncurried_result t : uncurried (uncurried t).2 = ([], (uncurried t).2).
Proof.
  induction t as [t IH] using Ty_parts_ind.
  destruct t as [| | | | | | | | | | | | | | | | | | | | | | | | | |[|more types] c [] tail_| | |]; try done.
  cbn [parts] in IH. apply Forall_app in IH as [_ [IH _]%Forall_cons_iff]. cbn. by destruct (uncurried tail_).
Qed.

(** ** Sizes *)

(** The number of constructors and the nesting of a type. *)
Fixpoint nodes (ty : Ty) : nat :=
  S match ty with
    | Ty_Partial _ tys | Ty_Tuple tys | Ty_Record _ tys | Ty_Union _ tys => sum_list (nodes <$> tys)
    | Ty_Application head_ arguments => nodes head_ + sum_list (nodes <$> arguments)
    | Ty_Array ty | Ty_ArrayView ty | Ty_List ty | Ty_Vec ty | Ty_Once ty | Ty_Shared ty _ | Ty_Reference ty _ => nodes ty
    | Ty_FixedArray element length => nodes element + nodes length
    | Ty_Function parameters _ _ result => sum_list (nodes <$> parameters) + nodes result
    | _ => 0
    end.

Fixpoint nesting (ty : Ty) : nat :=
  let above tys := max_list (S <$> tys) in
  match ty with
  | Ty_Partial _ tys | Ty_Tuple tys | Ty_Record _ tys | Ty_Union _ tys => above (nesting <$> tys)
  | Ty_Application head_ arguments => above (nesting head_ :: (nesting <$> arguments))
  | Ty_Array ty | Ty_ArrayView ty | Ty_List ty | Ty_Vec ty | Ty_Once ty | Ty_Shared ty _ | Ty_Reference ty _ => above [nesting ty]
  | Ty_FixedArray element length => above [nesting element; nesting length]
  | Ty_Function parameters _ _ result => above ((nesting <$> parameters) ++ [nesting result])
  | _ => 0
  end.

Lemma nodes_parts t : nodes t = S (sum_list (nodes <$> parts t)).
Proof. destruct t; cbn [nodes parts fmap list_fmap sum_list foldr]; rewrite ?fmap_app, ?sum_list_with_app; cbn; try lia. Qed.

Lemma nesting_parts t : nesting t = max_list (S <$> (nesting <$> parts t)).
Proof. destruct t; cbn [nesting parts fmap list_fmap]; rewrite ?fmap_app; done. Qed.

Lemma all_state_app {S A} (g : A -> S -> bool * S) l k s :
  all_state g (l ++ k) s = let '(r, s) := all_state g l s in if r then all_state g k s else (false, s).
Proof. revert s. induction l as [|x l IH]; intros s; cbn; [done|]. destruct (g x s) as [[] s1]; [apply IH|done]. Qed.

Lemma all_state_single {S A} (g : A -> S -> bool * S) x s : all_state g [x] s = g x s.
Proof. cbn. by destruct (g x s) as [[] ?]. Qed.

Lemma visit_eq t depth count :
  visit t depth count =
  if (MAX_NESTING <? depth) || (4096 <? count + 1)%N then (false, (count + 1)%N)
  else all_state (fun ty => visit ty (S depth)) (parts t) (count + 1)%N.
Proof.
  destruct t; cbn [visit]; destruct ((MAX_NESTING <? depth) || (4096 <? count + 1)%N); try done;
    cbn [parts]; rewrite ?all_state_app, ?all_state_single; try done.
  - cbn [all_state]. destruct (visit t1 (S depth) (count + 1)) as [[] c]; [by destruct (visit t2 (S depth) c) as [[] ?]|done].
  - destruct (all_state _ parameters (count + 1)%N) as [[] c]; [by rewrite all_state_single|done].
Qed.

Lemma max_list_le l k : max_list l <= k <-> Forall (fun x => x <= k) l.
Proof. induction l as [|x l IH]; cbn; [by split; [constructor|lia]|]. rewrite Forall_cons_iff, <- IH. lia. Qed.

Definition within (depth nested count size : nat) : bool := (depth + nested <=? MAX_NESTING) && (count + size <=? 4096).

Lemma visit_spec t depth count :
  if within depth (nesting t) count (nodes t) then visit t depth (N.of_nat count) = (true, N.of_nat (count + nodes t))
  else (visit t depth (N.of_nat count)).1 = false.
Proof.
  revert depth count. induction t as [t IH] using Ty_parts_ind. intros depth count.
  assert (forall count, if (forallb (fun p => S depth + nesting p <=? MAX_NESTING) (parts t)) && (count + sum_list (nodes <$> parts t) <=? 4096)
    then all_state (fun ty => visit ty (S depth)) (parts t) (N.of_nat count) = (true, N.of_nat (count + sum_list (nodes <$> parts t)))
    else count <= 4096 -> (all_state (fun ty => visit ty (S depth)) (parts t) (N.of_nat count)).1 = false) as Hall.
  { clear count. induction IH as [|p ps Hp _ IHps]; intros count.
    - cbn. rewrite Nat.add_0_r. destruct (Nat.leb_spec count 4096); [done|lia].
    - specialize (Hp (S depth) count). cbn [forallb fmap list_fmap sum_list_with]. cbn [all_state]. unfold within in Hp.
      destruct (Nat.leb_spec (S depth + nesting p) MAX_NESTING) as [Hd|Hd]; cbn [andb] in Hp |- *.
      + destruct (Nat.leb_spec (count + nodes p) 4096) as [Hc|Hc].
        * rewrite Hp. specialize (IHps (count + nodes p)). cbn in IHps |- *. rewrite Nat.add_assoc. destruct (forallb _ ps && _); [done|auto].
        * cbn in Hp |- *. rewrite (proj2 (Nat.leb_gt _ _)) by (cbn; lia). rewrite andb_false_r. intros _.
          by destruct (visit p (S depth) (N.of_nat count)) as [[] c].
      + cbn in Hp |- *. intros _. by destruct (visit p (S depth) (N.of_nat count)) as [[] c]. }
  rewrite visit_eq. replace (N.of_nat count + 1)%N with (N.of_nat (S count)) by lia. specialize (Hall (S count)).
  unfold within. rewrite nesting_parts, nodes_parts.
  destruct (Nat.ltb_spec MAX_NESTING depth) as [Hd|Hd]; cbn [orb].
  { by rewrite (proj2 (Nat.leb_gt _ _)) by lia. }
  destruct (N.ltb_spec 4096 (N.of_nat (S count))) as [Hc|Hc].
  { rewrite (proj2 (Nat.leb_gt (count + _) _)) by lia. by rewrite andb_false_r. }
  replace (count + S (sum_list (nodes <$> parts t))) with (S count + sum_list (nodes <$> parts t)) by lia.
  assert ((depth + max_list (S <$> (nesting <$> parts t)) <=? MAX_NESTING) =
    forallb (fun p => S depth + nesting p <=? MAX_NESTING) (parts t)) as ->.
  { apply eq_true_iff_eq. rewrite Nat.leb_le, forallb_forall. rewrite <- list_fmap_compose. split.
    - intros H p Hp. apply Nat.leb_le. pose proof (max_list_elem_of_le (S (nesting p)) (compose S nesting <$> parts t)) as Hm.
      specialize (Hm ltac:(apply (list_elem_of_fmap_2 (compose S nesting)); by apply list_elem_of_In)). lia.
    - intros H. enough (max_list (compose S nesting <$> parts t) <= MAX_NESTING - depth) by lia. apply max_list_le.
      apply Forall_fmap, list.Forall_forall. intros p Hp%list_elem_of_In. specialize (H p Hp). apply Nat.leb_le in H. change (S (nesting p) <= MAX_NESTING - depth). lia. }
  destruct (_ && _); [done|]. apply Hall. lia.
Qed.

(** [type_size] counts the constructors of a type within its limits. *)
Lemma type_size_spec t :
  type_size t = if (nesting t <=? MAX_NESTING) && (nodes t <=? 4096) then Some (N.of_nat (nodes t)) else None.
Proof.
  unfold type_size. pose proof (visit_spec t 0 0) as H. unfold within in H. cbn [Nat.add] in H.
  change (N.of_nat 0) with 0%N in H. destruct ((nesting t <=? MAX_NESTING) && (nodes t <=? 4096)).
  - by rewrite H.
  - by destruct (visit t 0 0) as [[] c].
Qed.

Lemma valid_around bs : valid bs -> forall l b r, bs = l ++ b :: r -> (uval b < 0x80)%N -> valid l /\ valid r.
Proof.
  intros Hv. induction Hv as [|cs c r0 Hs Hr IH] using valid_ind; intros l b r E Hb; [by destruct l|].
  apply app_eq_inv in E as [(k & -> & E)|(k & E & ->)].
  - destruct k as [|x k].
    + cbn in E. subst r0. rewrite app_nil_r in Hs. destruct (IH [] b r eq_refl Hb) as [_ ?]. split; [by eapply valid_seq|done].
    + injection E as <- ->. assert (l ++ b :: k = [b]) as E.
      { apply (seq_ascii _ c); [done| |done]. apply elem_of_app. right. left. }
      destruct l as [|? [|? ?]]; [|done..]. injection E as ->. done.
  - subst l. destruct (IH _ b r eq_refl Hb) as [? ?]. split; [|done]. apply valid_app; [by eapply valid_seq|done].
Qed.

Lemma join_valid separator pieces : valid separator -> Forall valid pieces -> valid (Text.join separator pieces).
Proof.
  intros Hs Hp. induction Hp as [|p ps Hp Hps IH]; [done|]. cbn. destruct ps as [|q ps]; [done|]. by repeat apply valid_app.
Qed.

Lemma dec_valid k : valid (dec k).
Proof.
  apply ascii_valid. eapply list.Forall_impl; [apply dec_digits|]. intros b Hb. unfold is_ascii_digit in Hb. 
  apply andb_prop in Hb as [_ H%N.leb_le]. eapply N.le_lt_trans; [exact H|done].
Qed.

Lemma rsplit_valid c bs l r : (ch c < 0x80)%N -> valid bs -> rsplit_once c bs = Some (l, r) -> valid l /\ valid r.
Proof.
  intros Hc Hv ->%rsplit_once_Some. eapply valid_around; [exact Hv|done|]. rewrite byte_of_value; [done|]. lia.
Qed.

Lemma namespace_display_valid bs : valid bs -> valid (namespace_display bs).
Proof. intros H. apply join_valid; [done|]. by apply split_on_valid. Qed.

Lemma declaration_display_valid bs : valid bs -> valid (declaration_display bs).
Proof.
  intros H. unfold declaration_display. destruct (rsplit_once _ bs) as [[l r]|] eqn:E; [|done].
  apply rsplit_valid in E as [Hl Hr]; [|done..]. apply valid_app; [by apply namespace_display_valid|]. by apply valid_app.
Qed.

Lemma type_display_valid bs : valid bs -> valid (type_display bs).
Proof.
  intros H. unfold type_display. destruct (rsplit_once _ bs) as [[l r]|] eqn:E; [|by apply declaration_display_valid].
  apply rsplit_valid in E as [Hl Hr]; [|done..]. destruct (bool_decide _); [by apply namespace_display_valid|by apply declaration_display_valid].
Qed.

Lemma name_valid (name : RString) : valid (as_bytes name).
Proof. apply as_bytes_valid. Qed.

Lemma dyn_display_valid dyn : valid (dyn_display dyn).
Proof.
  unfold dyn_display.
  assert (Forall valid ((fun name => type_display (as_bytes name)) <$> DynType_classes dyn)) as H.
  { apply Forall_fmap, list.Forall_forall. intros name _. apply type_display_valid, name_valid. }
  set (names := ((fun name => type_display (as_bytes name)) <$> DynType_classes dyn) ++ _). assert (Forall valid names) as Hn.
  { subst names. apply Forall_app. split; [done|]. apply Forall_app. split; [destruct (DynType_copy dyn)|destruct (DynType_send dyn)]; by repeat (constructor; [done|]). }
  apply valid_app; [|by destruct (DynType_borrowed dyn)].
  assert (valid (txt "dyn (" ++ Text.join (txt ", ") names ++ txt ")")) as Hmany.
  { apply valid_app; [done|]. apply valid_app; [|done]. by apply join_valid. }
  destruct names as [|name [|? ?]]; [done| |done]. apply valid_app; [done|]. by apply Forall_cons_iff in Hn as [? _].
Qed.

(** What a computation gives, when it gives something. *)
Definition gives (m : Try (list u8)) : Prop := forall bs, m = Ok bs -> valid bs.

Lemma gives_ret bs : valid bs -> gives (mret bs).
Proof. by intros H ? [= <-]. Qed.

Lemma gives_bind {A} (m : Try A) (k : A -> Try (list u8)) (P : A -> Prop) :
  (forall a, m = Ok a -> P a) -> (forall a, P a -> gives (k a)) -> gives (a ← m; k a).
Proof. intros Hm Hk bs. destruct m as [a|]; [|done]. by apply Hk, Hm. Qed.

Lemma gives_all {A} (f : A -> Try (list u8)) l : Forall (fun x => gives (f x)) l -> forall bss, mapM f l = Ok bss -> Forall valid bss.
Proof.
  intros H bss E%mapM_try_Ok. induction E as [|x y l k E _ IH]; [done|]. apply Forall_cons_iff in H as [Hx Hl].
  constructor; [by apply Hx|by apply IH].
Qed.

Lemma parenthesized_valid t bs : valid bs -> valid (parenthesized t bs).
Proof. intros H. unfold parenthesized. destruct (is_function t); [|done]. apply valid_app; [done|]. by apply valid_app. Qed.

Ltac texts := repeat first [apply valid_app | apply dec_valid | apply name_valid | apply type_display_valid | apply parenthesized_valid | done].

Lemma name_gives {A} (o : option A) k : (forall name, gives (k name)) -> gives (name ← or_panic o; k name).
Proof. intros H. apply (gives_bind _ _ (fun _ => True)); [done|]. by intros name _. Qed.

Lemma constructor_name_gives types c : gives (constructor_name types c).
Proof. destruct c; cbn; first [apply name_gives; intros name|idtac]; apply gives_ret; texts. Qed.

Lemma applied_gives types text arguments : valid text -> Forall (fun t => gives (display types t)) arguments ->
  gives (match arguments with
    | [] => mret text
    | _ => arguments ← mapM (display types) arguments; mret (text ++ txt "<" ++ Text.join (txt ", ") arguments ++ txt ">")
    end).
Proof.
  intros Ht Ha. destruct arguments as [|a l]; [by apply gives_ret|]. apply (gives_bind _ _ (Forall valid)); [by apply gives_all|].
  intros bss Hb. apply gives_ret. texts. by apply join_valid.
Qed.

Lemma display_valid types t : gives (display types t).
Proof.
  induction t as [t IH] using Ty_parts_ind.
  assert (forall l, Forall (fun t => gives (display types t)) l ->
    Forall (fun t => gives (text ← display types t; mret (parenthesized t text))) l) as Hpar.
  { intros l Hl. eapply list.Forall_impl; [exact Hl|]. intros u Hu. apply (gives_bind _ _ valid Hu). intros bs Hb. apply gives_ret. texts. }
  destruct t; cbn [parts] in IH; cbn [display]; cbv zeta; try (apply gives_ret; texts; done);
    try (apply Forall_cons_iff in IH as [Hu _]; apply (gives_bind _ _ valid Hu); intros bs Hb; apply gives_ret; texts; done).
  - apply gives_ret. destruct (Utf8.strip_prefix (txt "#") (as_bytes name)) as [l|] eqn:E; [|texts].
    apply strip_prefix_Some in E. by eapply (valid_around _ (name_valid name) [] _ l E).
  - apply (gives_bind _ _ valid); [apply constructor_name_gives|]. intros name Hn. by apply applied_gives.
  - apply Forall_cons_iff in IH as [Hh Ha]. apply (gives_bind _ _ valid Hh). intros h Hh'.
    apply (gives_bind _ _ (Forall valid)); [by apply gives_all|]. intros bss Hb. apply gives_ret. texts. by apply join_valid.
  - apply gives_ret. texts. by destruct signed.
  - unfold Simd.name. apply (gives_bind _ _ (fun _ => True)); [done|]. intros lanes _. apply gives_ret.
    destruct (SimdType_kind ty); texts.
  - apply name_gives. intros name. apply applied_gives; [texts|done].
  - apply name_gives. intros name. apply applied_gives; [texts|done].
  - apply Forall_cons_iff in IH as [Hu [Hv _]%Forall_cons_iff]. apply (gives_bind _ _ valid Hu). intros bs Hb.
    apply (gives_bind _ _ valid Hv). intros bs' Hb'. apply gives_ret. texts.
  - apply (gives_bind _ _ (Forall valid)); [by apply gives_all, Hpar|]. intros bss Hb. apply gives_ret. texts. by apply join_valid.
  - apply Forall_app in IH as [Hps [Hr _]%Forall_cons_iff]. apply (gives_bind _ _ valid).
    + destruct parameters as [|p ps].
      * apply (gives_bind _ _ valid Hr). intros bs Hb. apply gives_ret. texts.
      * apply (gives_bind _ _ (Forall valid)); [by apply gives_all, Hpar|]. intros bss Hb. apply (gives_bind _ _ valid Hr).
        intros bs Hb'. apply gives_ret. apply join_valid; [done|]. apply Forall_app. split; [done|by apply Forall_singleton].
    + intros bs Hb. apply gives_ret. destruct pure_; texts.
  - apply Forall_cons_iff in IH as [Hu _]. apply (gives_bind _ _ valid Hu). intros bs Hb. apply gives_ret. texts. by destruct mutable.
  - apply gives_ret, dyn_display_valid.
  - apply Forall_cons_iff in IH as [Hu _]. apply (gives_bind _ _ valid Hu). intros bs Hb. apply gives_ret. destruct kind; texts.
Qed.

(** [text_of] keeps well-formed bytes. *)
Lemma text_of_valid bs : valid bs -> as_bytes (text_of bs) = bs.
Proof.
  intros H. unfold text_of. destruct (from_utf8 bs) as [s|] eqn:E; [by apply from_utf8_Some in E|].
  assert (from_utf8 bs = Some (mk_RString bs H)) as E' by (by apply from_utf8_Some). congruence.
Qed.
