(* ===== verification/InferenceTheorems.v ===== *)
(** * Type inference: the theorems

    What the rest of the checker relies on: unification gives exactly the solutions that make two types equal, or says
    why there are none; it ends and does not panic; the state never holds a cycle; the defaults complete it. *)
From Stdlib Require Import Bool.
From stdpp Require Import list.
From S2P Require Import Prelude Wire Faults Text Kinds Syntax Ordered Render Report Types Inference.
From S2P Require Import TypeLaws InferenceLaws UnifyLaws UnifyFuel.
From S2P Require Import FunctionLaws Utf8.
Local Open Scope nat_scope.
Local Open Scope monad_scope.

(** ** The states that the checker reaches *)

Abbreviation variables_of s := (length (solutions s)).

Inductive reachable (types : TypeContext) : Inference -> Prop :=
| reachable_new : reachable types new
| reachable_fresh s : reachable types s -> reachable types (fresh s).2
| reachable_unify s span fuel a b : reachable types s -> well_formed types (variables_of s) false a ->
    well_formed types (variables_of s) false b -> reachable types (unify types span fuel a b s).2
| reachable_default s ty default : reachable types s -> well_formed types (variables_of s) false ty ->
    is_numeric default = true -> reachable types (default_numeric ty default s)
| reachable_apply s fuel : reachable types s -> reachable types (apply_defaults fuel s).2.

(** The defaults belong to variables and are numeric. *)
Definition defaults_ok (s : Inference) : Prop :=
  ascending (defaults s) /\ Forall (fun e => e.1 < variables_of s /\ is_numeric e.2 = true) (defaults s).

Lemma node_more types n m strict t : n <= m -> node types n strict t -> node types m strict t.
Proof. intros Hle. destruct t; cbn; try done. lia. Qed.

Lemma new_ok types strict : state_ok types 0 strict new.
Proof. split; [done|by intros id t ?|]. intros id. constructor. by intros y (t & ? & _). Qed.

Lemma solved_fresh s id t : solved (fresh s).2 id t -> solved s id t.
Proof.
  unfold solved, fresh. cbn. rewrite lookup_app. destruct (solutions s !! id) as [o|] eqn:E; [done|].
  by destruct (id - length (solutions s)) as [|[]].
Qed.

Lemma fresh_ok types n strict s : state_ok types n strict s -> state_ok types (S n) strict (fresh s).2.
Proof.
  intros [H1 H2 H3]. split.
  - cbn. rewrite length_app. cbn. lia.
  - intros id t Ht%solved_fresh. eapply every_impl; [|by eapply H2]. intros u. apply node_more. lia.
  - intros id. induction (H3 id) as [id _ IH]. constructor. intros y (t & Ht%solved_fresh & Hy). apply IH. by exists t.
Qed.

Lemma for_each_kept {A} (P : Inference -> Prop) (body : A -> M Failure Inference unit) l s :
  (forall x s, x ∈ l -> P s -> P (body x s).2) -> P s -> P (for_each body l s).2.
Proof.
  revert s. induction l as [|x l IH]; intros s Hb Hs; [done|]. cbn. unfold bind.
  pose proof (Hb x s ltac:(left) Hs) as Hx. destruct (body x s) as [[[]|e] s1]; [|done]. apply IH; [|done].
  intros y s2 Hy. apply Hb. by right.
Qed.

Lemma apply_default_ok types n strict fuel id d s : id < n -> is_numeric d = true -> state_ok types n strict s ->
  state_ok types n strict (apply_default fuel (id, d) s).2 /\ extends s (apply_default fuel (id, d) s).2.
Proof.
  intros Hid Hd Hs. unfold apply_default, bind, reading. cbn [fst snd].
  destruct (resolve fuel s (Ty_Infer id)) as [r|] eqn:Hr; [|done].
  apply (resolve_spec types n strict) in Hr as (_ & Ho & _); [|apply Hs|by constructor; [|constructor]].
  destruct (is_infer r) eqn:Hr.
  - apply is_infer_true in Hr as [x ->]. specialize (Ho x ltac:(constructor)). unfold update.
    rewrite (proj2 (Nat.ltb_lt _ _) (lookup_lt_Some _ _ _ Ho)). exact (numeric_bound types n strict s x d Hs Ho Hd).
  - replace (match r with Ty_Infer root => update root d | _ => ret tt end) with (ret (E := Failure) (S := Inference) tt) by (by destruct r).
    by split.
Qed.

Lemma reachable_state types s : reachable types s -> state_ok types (variables_of s) false s /\ defaults_ok s.
Proof.
  induction 1 as [|s _ [IH [Hm Hd]]|s span fuel a b _ [IH [Hm Hd]] Ha Hb|s ty d _ [IH [Hm Hd]] Hty Hn|s fuel _ [IH [Hm Hd]]].
  - split; [apply new_ok|]. split; [constructor|by constructor].
  - split; [|split; [done|]].
    + replace (variables_of (fresh s).2) with (S (variables_of s)) by (cbn; rewrite length_app; cbn; lia). by apply fresh_ok.
    + eapply list.Forall_impl; [exact Hd|]. intros e [? ?]. split; [|done]. cbn. rewrite length_app. lia.
  - pose proof (unify_outcome types span _ _ fuel s a b IH Ha Hb) as [H1 H2 _ _ _ _]. unfold defaults_ok.
    rewrite (extends_length _ _ H2), (extends_defaults _ _ H2). by split.
  - unfold default_numeric. destruct (is_infer ty) eqn:Ety; [|by destruct ty]. apply is_infer_true in Ety as [id ->].
    split; [by destruct IH; split|]. split; [by apply map_or_insert_ascending|]. cbn [defaults solutions].
    apply list.Forall_forall. intros e [He|[-> _]]%elem_of_map_or_insert; [|split; [exact (every_root _ _ Hty)|done]|done].
    rewrite list.Forall_forall in Hd. by apply Hd.
  - assert (state_ok types (variables_of s) false (apply_defaults fuel s).2 /\ extends s (apply_defaults fuel s).2) as [H1 H2].
    { unfold apply_defaults. apply (for_each_kept (fun s' => state_ok types (variables_of s) false s' /\ extends s s')); [|by split].
      intros [id d] s1 Hin [Hs1 He]. rewrite list.Forall_forall in Hd. destruct (Hd _ Hin) as [Hid Hdn].
      destruct (apply_default_ok types _ _ fuel id d s1 Hid Hdn Hs1) as [? ?]. split; [done|]. by trans s1. }
    unfold defaults_ok. rewrite (extends_length _ _ H2), (extends_defaults _ _ H2). by split.
Qed.

(** ** A small program *)

Definition sample_types : TypeContext := mk_TypeContext
  [mk_CheckedRecord (str "Geometry.Point.Point") ModuleOrigin_User [] [] false (uint_wrap 16 0) None
    (mk_Span (uint_wrap 64 0) (uint_wrap 64 0) None)] [].

(** Three variables. *)
Definition sample : Inference := (fresh (fresh (fresh new).2).2).2.

(** ['0 -> Array<'1>] and [i32 -> '2]. *)
Definition sample_left : Ty := Ty_Function [Ty_Infer 0] [] false (Ty_Array (Ty_Infer 1)).
Definition sample_right : Ty := Ty_Function [I32] [] false (Ty_Infer 2).
Definition sample_span : Span := mk_Span (uint_wrap 64 3) (uint_wrap 64 9) None.

Lemma sample_ok strict : state_ok sample_types 3 strict sample.
Proof. do 3 apply fresh_ok. apply new_ok. Defined.

Ltac well_formed_now :=
  repeat match goal with
  | |- every _ _ => constructor; cbn
  | |- Forall _ _ => constructor
  | |- node _ _ _ _ => cbn
  | |- _ < _ => lia
  | |- True => exact I
  | |- _ => done
  end.

Lemma sample_left_ok strict : well_formed sample_types 3 strict sample_left.
Proof. well_formed_now. Defined.

Lemma sample_right_ok strict : well_formed sample_types 3 strict sample_right.
Proof. well_formed_now. Defined.

(** ** Properties *)

(** C6: When [unify] succeeds on types without errors, the substitutions that satisfy the new solutions are exactly
    those that satisfied the old ones and make the two types equal: no equation is lost and none is invented. The two
    types then resolve to the same type, up to conventions; and the state keeps its invariant. *)
Theorem unify_exact types span n fuel s s' a b :
  state_ok types n true s -> well_formed types n true a -> well_formed types n true b ->
  unify types span fuel a b s = (Ok tt, s') ->
  (forall theta, models theta s' <-> models theta s /\ equates theta a b) /\
  (forall k l ra rb, resolve k s' a = Ok ra -> resolve l s' b = Ok rb -> term ra = term rb) /\
  state_ok types n true s'.
Proof.
  intros Hs Ha Hb E. pose proof (unify_outcome types span n true fuel s a b Hs Ha Hb) as [H1 H2 H3 H4 _ _]. rewrite E in H1, H2, H3, H4.
  assert (forall theta, models theta s' <-> models theta s /\ equates theta a b) as Hiff.
  { intros theta. split.
    - intros Hm. split; [by eapply models_extends|]. by apply all_equal_single, H4.
    - intros [Hm Heq]. by apply H3, all_equal_single. }
  split; [done|]. split; [|done]. intros k l ra rb. eapply resolve_equal; [exact H1|done..|]. intros theta Hm. by apply Hiff.
Qed.

Lemma unify_exact_witness :
  exists s', unify sample_types sample_span 9 sample_left sample_right sample = (Ok tt, s') /\
  (forall theta, models theta s' -> theta 0 = sub theta (term I32) /\ equates theta sample_left sample_right) /\
  resolve 9 s' sample_right = Ok (Ty_Function [I32] [] false (Ty_Array (Ty_Infer 1))).
Proof.
  eexists. split; [vm_compute; reflexivity|]. split; [|vm_compute; reflexivity]. intros theta Hm. split.
  - apply (Hm 0 I32). reflexivity.
  - eapply (unify_exact sample_types sample_span 3 9 sample _ sample_left sample_right (sample_ok true) (sample_left_ok true)
      (sample_right_ok true)); [vm_compute; reflexivity|exact Hm].
Defined.

(** C9: A type mismatch ([E1003]) and an infinite type ([E1015]) are never reported for types that some types fit: no
    substitution that satisfies the solutions at the start, and makes no variable the target of an exclusive slice,
    makes the two types equal. Every diagnostic with the code of a mismatch is one of these two. *)
Theorem unify_rejects types span n strict fuel s s' a b d :
  state_ok types n strict s -> well_formed types n strict a -> well_formed types n strict b ->
  unify types span fuel a b s = (Err (Rejected d), s') ->
  (is_mismatch d = true -> says_clash d) /\
  (says_clash d -> forall theta, plain theta -> models theta s -> ~ equates theta a b).
Proof.
  intros Hs Ha Hb E. pose proof (unify_outcome types span n strict fuel s a b Hs Ha Hb) as [_ _ _ _ H _]. rewrite E in H.
  destruct (H d eq_refl) as [Hh Hc]. split; [done|]. intros Hd theta Hp Hm Heq. apply (Hc Hd theta Hp Hm). by apply all_equal_single.
Qed.

Lemma unify_rejects_witness :
  exists d s', unify sample_types sample_span 9 (Ty_Tuple [Ty_Infer 0; Ty_Infer 0]) (Ty_Tuple [I32; Ty_Bool]) sample = (Err (Rejected d), s') /\
  says_clash d /\ Detail_expected (d_detail d) = Some (str "bool") /\
  ~ equates (fun _ => term I32) (Ty_Tuple [Ty_Infer 0; Ty_Infer 0]) (Ty_Tuple [I32; Ty_Bool]).
Proof.
  eexists _, _. split; [vm_compute; reflexivity|]. split; [by left|]. split; [vm_compute; reflexivity|].
  assert (well_formed sample_types 3 false (Ty_Tuple [Ty_Infer 0; Ty_Infer 0])) as Ha by well_formed_now.
  assert (well_formed sample_types 3 false (Ty_Tuple [I32; Ty_Bool])) as Hb by well_formed_now.
  eapply (unify_rejects sample_types sample_span 3 false 9 sample _ _ _ _ (sample_ok false) Ha Hb).
  - vm_compute. reflexivity.
  - left. vm_compute. reflexivity.
  - intros id. discriminate.
  - intros id t Hid. destruct id as [|[|[|id]]]; discriminate.
Defined.

(** C8: [unify] ends and does not panic: with enough fuel, and with any more, it gives one result, which is success or
    a diagnostic, and the state keeps its invariant in both cases. *)
Theorem unify_ends types span n strict s a b :
  state_ok types n strict s -> well_formed types n strict a -> well_formed types n strict b ->
  exists enough r s', (forall fuel, enough <= fuel -> unify types span fuel a b s = (r, s')) /\
    (r = Ok tt \/ exists d, r = Err (Rejected d)) /\ state_ok types n strict s'.
Proof.
  intros Hs Ha Hb. destruct (unify_settles types span n strict s a b Hs Ha Hb) as ([r s'] & Hr & [enough E]).
  exists enough, r, s'. split; [done|]. pose proof (unify_outcome types span n strict enough s a b Hs Ha Hb) as [H1 _ _ _ _ H6].
  rewrite E in H1, H6 by done. cbn in Hr, H1, H6. split; [|done]. destruct r as [[]|[d|[]]]; [by left|right; by exists d|done..].
Qed.

Lemma unify_ends_witness :
  exists enough r s', (forall fuel, enough <= fuel -> unify sample_types sample_span fuel sample_left sample_right sample = (r, s')) /\
    (r = Ok tt \/ exists d, r = Err (Rejected d)) /\ state_ok sample_types 3 false s'.
Proof. exact (unify_ends sample_types sample_span 3 false sample sample_left sample_right (sample_ok false) (sample_left_ok false) (sample_right_ok false)). Defined.

(** C10: Every state that the checker reaches by creating variables, unifying well-formed types, recording and applying
    numeric defaults holds well-formed solutions without a cycle and ordered numeric defaults of its variables; whatever
    fuel the calls had, so also after a call that failed in the middle. *)
Theorem inference_invariant types s : reachable types s ->
  acyclic s /\ (forall id t, solved s id t -> well_formed types (variables_of s) false t) /\ defaults_ok s.
Proof. intros [[_ H2 H3] H]%reachable_state. by split. Qed.

Lemma inference_invariant_witness :
  acyclic (unify sample_types sample_span 9 sample_left sample_right sample).2.
Proof.
  apply (inference_invariant sample_types). apply reachable_unify; [|exact (sample_left_ok false)|exact (sample_right_ok false)].
  do 3 apply reachable_fresh. apply reachable_new.
Defined.

(** C19: The solutions have a most general model: a substitution that satisfies them, through which every other one
    that does factors. So a state of the checker is never contradictory, and what resolving shows holds in all of them. *)
Theorem solutions_most_general types n strict s : state_ok types n strict s ->
  exists theta, models theta s /\ (forall theta', models theta' s -> forall t, sub theta' (sub theta t) = sub theta' t) /\
  (forall fuel t r, well_formed types n strict t -> resolve fuel s t = Ok r -> term r = sub theta (term t)).
Proof.
  intros Hs. destruct (enough_fuel types n strict s Hs n (le_n n)) as [fuel Hfuel]. exists (canonical fuel s). split; [|split].
  - by eapply canonical_models.
  - by eapply canonical_general.
  - intros k t r. by eapply resolve_canonical.
Qed.

(** After unifying [sample_left] and [sample_right], ['0] is [i32] and ['2] is [Array<'1>]; ['1] is open. *)
Definition solved_sample : Inference := (unify sample_types sample_span 9 sample_left sample_right sample).2.

Lemma solved_sample_ok : state_ok sample_types 3 true solved_sample.
Proof.
  apply (unify_outcome sample_types sample_span 3 true 9 sample sample_left sample_right (sample_ok true) (sample_left_ok true)
    (sample_right_ok true)).
Qed.

Lemma solutions_most_general_witness : solutions solved_sample = [Some I32; None; Some (Ty_Array (Ty_Infer 1))] /\
  ~ models (fun _ => term Ty_Bool) solved_sample /\
  exists theta, models theta solved_sample /\ theta 0 = term I32 /\ theta 2 = sub theta (term (Ty_Array (Ty_Infer 1))) /\
    term (Ty_Function [I32] [] false (Ty_Array (Ty_Infer 1))) = sub theta (term sample_left).
Proof.
  split; [vm_compute; reflexivity|]. split; [intros Hm; specialize (Hm 0 I32 eq_refl); discriminate|].
  destruct (solutions_most_general sample_types 3 true solved_sample solved_sample_ok) as (theta & Hm & _ & Hr).
  exists theta. split; [exact Hm|]. split; [exact (Hm 0 I32 eq_refl)|]. split; [exact (Hm 2 (Ty_Array (Ty_Infer 1)) eq_refl)|].
  apply (Hr 9 sample_left _ (sample_left_ok true)). vm_compute. reflexivity.
Defined.

(** [is_open] and [mentions], which search a type without copying it, agree with resolving it: they find exactly the
    open variables of the resolved type. *)
Lemma reaches_resolved fuel s t r root : resolve fuel s t = Ok r ->
  (exists b, is_open fuel s t = Ok b /\ (b = true <-> exists id, occurs id r)) /\
  (exists b, mentions fuel s t root = Ok b /\ (b = true <-> occurs root r)).
Proof.
  intros Hr. split.
  - destruct (reaches_decides fuel s (fun _ => true) t r Hr) as (b & Hb & Hiff). exists b. split; [done|]. rewrite Hiff.
    unfold any_open. naive_solver.
  - destruct (reaches_decides fuel s (fun id => id =? root) t r Hr) as (b & Hb & Hiff). exists b. split; [done|]. rewrite Hiff.
    unfold any_open. split; [by intros (id & Ho & ->%Nat.eqb_eq)|]. intros Ho. exists root. by rewrite Nat.eqb_refl.
Qed.

(** C20: [apply_defaults] ends without a panic and completes the state: an open variable of a number literal whose default
    [numeric_default] finds resolves to that default afterwards, and a variable that it finds no default for stays open. *)
Theorem apply_defaults_completes types n strict s :
  state_ok types n strict s -> Forall (fun e => e.1 < n /\ is_numeric e.2 = true) (defaults s) ->
  exists enough s', (forall fuel, enough <= fuel -> apply_defaults fuel s = (Ok tt, s')) /\ state_ok types n strict s' /\
    forall id root found, id < n ->
      eventually (fun fuel => resolve fuel s (Ty_Infer id)) (Ok (Ty_Infer root)) ->
      eventually (fun fuel => numeric_default fuel s (Ty_Infer id)) (Ok found) ->
      eventually (fun fuel => resolve fuel s' (Ty_Infer id)) (Ok (default (Ty_Infer root) found)).
Proof.
  intros Hs Hd. destruct (defaults_settle types n strict (defaults s) s Hs Hd) as (s' & [enough H] & Hs' & He & Hroots).
  exists enough, s'. split; [exact H|]. split; [done|]. intros id root found Hid Hroot Hfound.
  destruct (variable_leads types n strict s id Hs Hid) as [u Hu].
  destruct (leads_resolves types n strict s id u Hs Hid Hu) as (r & Hr & Hru & _).
  pose proof (eventually_unique _ _ _ Hroot Hr) as [= <-]. pose proof (proj1 (Hru root) eq_refl) as ->.
  assert (finds s root (defaults s) found) as Hf.
  { unfold finds. eapply eventually_next; [exact (eventually_both _ _ _ _ Hroot Hfound)|]. intros fuel [= E1 E2].
    unfold numeric_default in E2. rewrite E1 in E2. exact E2. }
  pose proof (Hroots id root found Hid Hu Hf) as Hl. destruct (leads_resolves types n strict s' id _ Hs' Hid Hl) as (r' & Hr' & Hru' & Hnum).
  destruct found as [d|]; cbn in *.
  - rewrite Hnum in Hr'; [done|]. destruct Hf as [k Hf]. specialize (Hf k ltac:(lia)). clear - Hf Hd.
    induction Hd as [|[i e] l [_ He] _ IH]; cbn in Hf; [done|]. destruct (resolve k s (Ty_Infer i)); cbn in Hf; [|done].
    destruct (bool_decide _); [by injection Hf as <-|by apply IH].
  - by rewrite (proj2 (Hru' root) eq_refl) in Hr'.
Qed.

Definition sample_defaults : Inference := default_numeric (Ty_Infer 2) F64 (default_numeric (Ty_Infer 0) I32 sample).

Lemma apply_defaults_completes_witness : exists enough s',
  (forall fuel, enough <= fuel -> apply_defaults fuel sample_defaults = (Ok tt, s')) /\
  eventually (fun fuel => resolve fuel s' (Ty_Infer 2)) (Ok F64) /\
  eventually (fun fuel => resolve fuel s' (Ty_Infer 1)) (Ok (Ty_Infer 1)).
Proof.
  destruct (apply_defaults_completes sample_types 3 true sample_defaults) as (enough & s' & H & _ & Hroots).
  - destruct (sample_ok true) as [H1 H2 H3]. by split.
  - cbn. repeat constructor.
  - exists enough, s'. split; [exact H|]. split.
    + apply (Hroots 2 2 (Some F64)); [lia|..].
      * exists 2. intros [|[|fuel]] Hf; [lia|lia|]. reflexivity.
      * exists 2. intros [|[|fuel]] Hf; [lia|lia|]. reflexivity.
    + apply (Hroots 1 1 None); [lia|..].
      * exists 2. intros [|[|fuel]] Hf; [lia|lia|]. reflexivity.
      * exists 2. intros [|[|fuel]] Hf; [lia|lia|]. reflexivity.
Defined.

(** [function_with_conventions] makes one function of a function that returns functions: its parameters are those
    of the outer function followed by those of the ordinary functions that it returns, each with its own convention, and
    its result is the last one. A pure function, and one without parameters, keeps its result. *)
Lemma function_joins parameters conventions pure_ result :
  length conventions <= length parameters -> every fits result ->
  exists parameters' conventions' result',
    function_with_conventions parameters result conventions pure_ = Ty_Function parameters' conventions' pure_ result' /\
    (if pure_ || (length parameters =? 0) then modes parameters' conventions' = modes parameters conventions /\ result' = result
     else modes parameters' conventions' = modes parameters conventions ++ (uncurried result).1 /\ result' = (uncurried result).2 /\
       uncurried result' = ([], result')) /\
    length conventions' <= length parameters'.
Proof.
  intros Hc Hr. unfold function_with_conventions.
  set (c' := if forallb is_own conventions then [] else conventions).
  assert (modes parameters c' = modes parameters conventions /\ length c' <= length parameters) as [Hm Hl].
  { subst c'. destruct (forallb is_own conventions) eqn:E; [|done]. split; [symmetry; by apply modes_own|cbn; lia]. }
  destruct parameters as [|p ps]; [exists [], c', result; rewrite orb_true_r; done|].
  destruct pure_; [by exists (p :: ps), c', result|]. cbn [orb length Nat.eqb].
  pose proof (flatten_modes (p :: ps) c' result Hl Hr) as H. destruct (flatten (p :: ps) c' result) as [[ps' c''] r'].
  destruct H as (H1 & -> & H3). exists ps', c'', (uncurried result).2. split; [done|]. split; [|done].
  split; [by rewrite H1, Hm|]. split; [done|]. apply uncurried_result.
Qed.

(** [type_size] is the number of constructors of a type that nests at most [MAX_NESTING] deep and has at most 4096
    constructors, and none of a larger one, although its walk stops at the first limit it passes. So a type that
    [bounded_type] accepts is within both limits, or has an erroneous part. *)
Lemma type_size_counts t span :
  type_size t = (if (nesting t <=? MAX_NESTING) && (nodes t <=? 4096) then Some (N.of_nat (nodes t)) else None) /\
  (bounded_type t span = Ok tt <-> contains_error t = true \/ (nesting t <= MAX_NESTING /\ nodes t <= 4096)).
Proof.
  pose proof (type_size_spec t) as H. split; [done|]. unfold bounded_type. rewrite H.
  destruct (contains_error t); cbn [orb]; [naive_solver|].
  destruct (Nat.leb_spec (nesting t) MAX_NESTING) as [H1|H1], (Nat.leb_spec (nodes t) 4096) as [H2|H2]; cbn [andb].
  - rewrite bool_decide_eq_true_2 by done. naive_solver.
  - rewrite bool_decide_eq_false_2 by (by intros []). split; [done|]. intros [?|[_ ?]]; [done|lia].
  - rewrite bool_decide_eq_false_2 by (by intros []). split; [done|]. intros [?|[? _]]; [done|lia].
  - rewrite bool_decide_eq_false_2 by (by intros []). split; [done|]. intros [?|[? _]]; [done|lia].
Qed.

(** The diagnostic of a mismatch between two well-formed types is made without a panic, and its texts are well-formed:
    the message is [expected E, found F] and the machine-readable detail holds [E] and [F], where [E] and [F] are the
    displayed types. *)
Lemma mismatch_message types n strict expected actual span :
  well_formed types n strict expected -> well_formed types n strict actual ->
  exists e f d, display types expected = Ok e /\ display types actual = Ok f /\ mismatch_of types expected actual span = Ok d /\
    valid e /\ valid f /\ as_bytes (d_message d) = txt "expected " ++ e ++ txt ", found " ++ f /\
    (as_bytes <$> Detail_expected (d_detail d)) = Some e /\ (as_bytes <$> Detail_found (d_detail d)) = Some f /\
    d_span d = span.
Proof.
  intros [e He]%display_returns [f Hf]%display_returns. pose proof (display_valid types expected e He) as Ve.
  pose proof (display_valid types actual f Hf) as Vf. exists e, f, (mismatch e f span). unfold mismatch_of. rewrite He. cbn [mbind Try_bind].
  rewrite Hf. split_and!; try done.
  - apply text_of_valid. apply valid_app; [done|]. apply valid_app; [done|]. by apply valid_app.
  - cbn. by rewrite text_of_valid.
  - cbn. by rewrite text_of_valid.
Qed.
