(* ===== verification/Token.v ===== *)
(** * Tokens

    [TokenKind], [Token] and the types they hold ([src/src/syntax.rs]), the diagnostics of the lexer,
    and the literal suffixes of [src/src/numeric.rs]. A diagnostic is its kind and its span; its text is not modelled. *)
From S2P Require Import Prelude Wire Syntax Utf8.
From S2P Require Export Kinds.
From stdpp Require Import strings.
Local Open Scope N_scope.

Definition MAX_SOURCE_BYTES : nat := Z.to_nat (4 * 1024 * 1024).
#[global] Arguments MAX_SOURCE_BYTES : simpl never.

Definition MAX_UNIQUE_DIAGNOSTICS : nat := 1000.
#[global] Arguments MAX_UNIQUE_DIAGNOSTICS : simpl never.

Definition MAX_FORMAT_FIELD : N := 4096.

(** The year of the edition. *)
Definition Edition : Type := u16.
Definition E2026 : Edition := uint_wrap 16 2026.
Definition E2027 : Edition := uint_wrap 16 2027.

(** [Span::new] on positions of a source text. *)
Definition Span_new (start end_ : nat) : Span :=
  mk_Span (uint_wrap 64 (N.of_nat start)) (uint_wrap 64 (N.of_nat end_)) None.

Definition start_of (span : Span) : nat := N.to_nat (uval (Span_start span)).
Definition end_of (span : Span) : nat := N.to_nat (uval (Span_end span)).

Record InterpolationPiece := mk_InterpolationPiece {
  piece_text : StringLiteral;
  piece_spec : option FormatSpec }.

Inductive TokenKind :=
| TokenKind_Ident (name : RString)
| TokenKind_DocComment (text : RString)
| TokenKind_TypeVariable (name : RString)
| TokenKind_Integer (text : RString)
| TokenKind_BigInteger (text : RString)
| TokenKind_Float (text : RString)
| TokenKind_String (literal : StringLiteral)
| TokenKind_ByteString (bytes : list u8)
| TokenKind_ScalarString (scalars : list u32)
| TokenKind_InterpolationStart (piece : InterpolationPiece)
| TokenKind_InterpolationMiddle (piece : InterpolationPiece)
| TokenKind_InterpolationEnd (piece : InterpolationPiece)
| TokenKind_Char (unit_ : u16)
| TokenKind_Utf8Char (scalar : u32)
| TokenKind_Fn
| TokenKind_Def
| TokenKind_Rec
| TokenKind_And
| TokenKind_Export
| TokenKind_Extern
| TokenKind_Private
| TokenKind_Record
| TokenKind_Union
| TokenKind_Type
| TokenKind_Const
| TokenKind_Test
| TokenKind_Bench
| TokenKind_Class
| TokenKind_Instance
| TokenKind_Deriving
| TokenKind_Dyn
| TokenKind_Let
| TokenKind_Do
| TokenKind_Return
| TokenKind_Yield
| TokenKind_For
| TokenKind_In
| TokenKind_To
| TokenKind_Downto
| TokenKind_While
| TokenKind_Break
| TokenKind_Continue
| TokenKind_Mut
| TokenKind_Ref
| TokenKind_Deref
| TokenKind_New
| TokenKind_As
| TokenKind_If
| TokenKind_Then
| TokenKind_Elif
| TokenKind_Else
| TokenKind_Match
| TokenKind_With
| TokenKind_When
| TokenKind_True
| TokenKind_False
| TokenKind_LeftParen
| TokenKind_RightParen
| TokenKind_LeftBrace
| TokenKind_RightBrace
| TokenKind_LeftBracket
| TokenKind_RightBracket
| TokenKind_LeftList
| TokenKind_RightList
| TokenKind_Colon
| TokenKind_DoubleColon
| TokenKind_PathSep
| TokenKind_Semicolon
| TokenKind_Comma
| TokenKind_Dot
| TokenKind_DotDot
| TokenKind_DotDotEqual
| TokenKind_DotDotLess
| TokenKind_At
| TokenKind_Hash
| TokenKind_Question
| TokenKind_Arrow
| TokenKind_FatArrow
| TokenKind_Equal
| TokenKind_Plus
| TokenKind_Minus
| TokenKind_Star
| TokenKind_Slash
| TokenKind_Backslash
| TokenKind_Percent
| TokenKind_Bang
| TokenKind_Tilde
| TokenKind_EqualEqual
| TokenKind_BangEqual
| TokenKind_Less
| TokenKind_LessEqual
| TokenKind_Greater
| TokenKind_GreaterEqual
| TokenKind_AndAnd
| TokenKind_OrOr
| TokenKind_Ampersand
| TokenKind_Pipe
| TokenKind_Caret
| TokenKind_DoubleLess
| TokenKind_DoubleGreater
| TokenKind_TripleLess
| TokenKind_TripleGreater
| TokenKind_DoubleStar
| TokenKind_TripleAmpersand
| TokenKind_TriplePipe
| TokenKind_TripleCaret
| TokenKind_TripleTilde
| TokenKind_PipeForward
| TokenKind_End.

Record Token := mk_Token {
  token_kind : TokenKind;
  token_span : Span }.

Record Diagnostic := mk_Diagnostic {
  diagnostic_kind : DiagnosticKind;
  diagnostic_span : Span }.

(** ** Literal suffixes *)

Definition NUMERIC_NAMES : list (list u8) := txt <$>
  ["i8"; "i16"; "i32"; "i64"; "i128"; "i8u"; "i16u"; "i32u"; "i64u"; "i128u"; "f16"; "f32"; "f64";
   "f128"; "d32"; "d64"; "d128"; "ubyte"; "sbyte"; "byte"]%string.

Definition SHORT_SUFFIXES : list (list u8 * list u8) := (fun p => (txt p.1, txt p.2)) <$>
  [("y", "i8"); ("uy", "i8u"); ("s", "i16"); ("us", "i16u"); ("u", "i32u"); ("l", "i64"); ("ul", "i64u");
   ("L", "i128"); ("UL", "i128u"); ("hf", "f16"); ("f", "f32"); ("F", "f128"); ("hm", "d32"); ("m", "d64");
   ("M", "d128")]%string.

(** [suffix_type] *)
Definition suffix_type (suffix : list u8) : option (list u8) :=
  match list_find (eq suffix) NUMERIC_NAMES with
  | Some (_, name) => Some name
  | None => (fun found => found.2.2) <$> list_find (fun p => p.1 = suffix) SHORT_SUFFIXES
  end.

Definition is_numeric_name (name : list u8) : bool := bool_decide (name ∈ NUMERIC_NAMES).

Definition short_suffix_type (suffix : list u8) : option (list u8) :=
  (fun found => found.2.2) <$> list_find (fun p => p.1 = suffix) SHORT_SUFFIXES.

(** The loop of [literal_parts]. *)
Fixpoint parts_with (names : list (list u8)) (text : list u8) : list u8 * option (list u8) :=
  match names with
  | [] => (text, None)
  | name :: names =>
    if starts_with (txt "0x") text && (starts_with (txt "f") name || starts_with (txt "d") name) then parts_with names text
    else
      match Utf8.strip_suffix name text with
      | Some number => (number, Some name)
      | None => parts_with names text
      end
  end.

Definition literal_parts (text : list u8) : list u8 * option (list u8) := parts_with NUMERIC_NAMES text.
