(* ===== verification/Lexer.v ===== *)
(** * The lexer

    [src/src/lexer.rs]. The source is the bytes of a [&str]; [Lexer] holds the fields that change, the
    position and the open interpolation holes, innermost first. A slice or an index that Rust would
    panic on is the error [Panic]. A [while] loop is [loop], with fuel that no call uses up. *)
From Stdlib Require Import Ascii.
From stdpp Require Import strings.
From S2P Require Import Prelude Wire Syntax Utf8 Token.
From S2P Require Export Chars.
Local Open Scope N_scope.
Local Open Scope monad_scope.

Inductive LexError :=
| Diagnosed (diagnostic : Diagnostic)
| Panic
| OutOfFuel.

Record OpenHole := mk_OpenHole {
  hole_utf8 : bool;
  hole_depth : nat;
  hole_start : nat }.

Record Lexer := mk_Lexer {
  position : nat;
  holes : list OpenHole }.

Inductive TextEnd := TextEnd_Quote | TextEnd_Hole.

Section lexer.
Context (source : list u8) (edition : Edition) (gated : list (list u8 * Edition)).

Abbreviation LM := (M LexError Lexer).

(** Whether [word], if it is a keyword, is reserved in [edition]. *)
Definition reserved_in (word : list u8) : bool :=
  negb (existsb (fun p => bool_decide (p.1 = word) && (uval edition <? uval p.2)) gated).

Definition error {A} (kind : DiagnosticKind) (start end_ : nat) : LM A :=
  fail (Diagnosed (mk_Diagnostic kind (Span_new start end_))).

Definition get_position : LM nat := fun s => (Ok (position s), s).
Definition set_position (p : nat) : LM unit := fun s => (Ok tt, mk_Lexer p (holes s)).
Definition advance (n : nat) : LM unit := fun s => (Ok tt, mk_Lexer (position s + n) (holes s)).
Definition get_holes : LM (list OpenHole) := fun s => (Ok (holes s), s).
Definition set_holes (h : list OpenHole) : LM unit := fun s => (Ok tt, mk_Lexer (position s) h).

Definition at_source_end : LM bool := fun s => (Ok (Nat.leb (length source) (position s)), s).

(** [source.as_bytes()[i]] *)
Definition byte_at (i : nat) : LM u8 := ok_or (source !! i) Panic.

(** [source.as_bytes().get(i)] at the position plus [offset]. *)
Definition peek (offset : nat) : LM (option u8) := fun s => (Ok (source !! (position s + offset)%nat), s).

Definition peek_is (offset : nat) (p : u8 -> bool) : LM bool :=
  let? b := peek offset in ret (match b with Some b => p b | None => false end).

(** [&source[a..]] and [&source[a..b]] *)
Definition slice_from (a : nat) : LM (list u8) :=
  if is_char_boundary source a then ret (drop a source) else fail Panic.

Definition slice_bytes (a b : nat) : LM (list u8) :=
  if (a <=? b)%nat && is_char_boundary source a && is_char_boundary source b
  then ret (between source a b) else fail Panic.

(** A [String] of bytes that are valid text. *)
Definition to_owned (bs : list u8) : LM RString := ok_or (from_utf8 bs) Panic.

Definition slice (a b : nat) : LM RString := let? bs := slice_bytes a b in to_owned bs.

Definition rest : LM (list u8) := let? p := get_position in slice_from p.

Definition rest_starts_with (prefix : list u8) : LM bool :=
  let? r := rest in ret (starts_with prefix r).

(** [rest().chars().next()] with its length. *)
Definition next_char : LM (option (N * nat)) := let? r := rest in ret (first_char r).

Definition next_char_unwrap : LM (N * nat) := let? c := next_char in ok_or c Panic.

(** A [while] loop: [inl] goes on, [inr] leaves it. Every turn of the lexer's loops moves forward. *)
Fixpoint loop_from {A R} (fuel : nat) (turn : A -> LM (A + R)) (a : A) : LM R :=
  match fuel with
  | O => fail OutOfFuel
  | S fuel =>
    let? x := turn a in
    match x with inl a => loop_from fuel turn a | inr r => ret r end
  end.

Definition loop {A R} (turn : A -> LM (A + R)) (a : A) : LM R := loop_from (S (length source)) turn a.

(** [while position < len && p(bytes[position]) { position += 1 }] *)
Definition skip_while (p : u8 -> bool) : LM unit :=
  loop (fun _ =>
    let? more := peek_is 0 p in
    if more : bool then advance 1 ;;; ret (inl tt) else ret (inr tt)) tt.

(** ** Comments and words *)

Definition comment_turn (depth : nat) : LM (nat + bool) :=
  let? end_ := at_source_end in
  if end_ : bool then ret (inr false)
  else
    let? opens := rest_starts_with (txt "/*") in
    if opens : bool then advance 2 ;;; ret (inl (S depth))
    else
      let? closes := rest_starts_with (txt "*/") in
      if closes : bool then
        advance 2 ;;;
        ret (if Nat.eqb (pred depth) 0 then inr true else inl (pred depth))
      else
        let? c := next_char_unwrap in
        advance c.2 ;;; ret (inl depth).

Definition comment : LM unit :=
  let? start := get_position in
  advance 2 ;;;
  let? closed := loop comment_turn 1%nat in
  if closed : bool then ret tt
  else let? p := get_position in error UnterminatedBlockComment start p.

Definition KEYWORDS : list (list u8 * TokenKind) := (fun p => (txt p.1, p.2)) <$>
  [("fn", TokenKind_Fn); ("def", TokenKind_Def); ("rec", TokenKind_Rec); ("and", TokenKind_And);
   ("export", TokenKind_Export); ("extern", TokenKind_Extern); ("private", TokenKind_Private);
   ("record", TokenKind_Record); ("union", TokenKind_Union); ("type", TokenKind_Type);
   ("const", TokenKind_Const); ("test", TokenKind_Test); ("bench", TokenKind_Bench);
   ("class", TokenKind_Class); ("instance", TokenKind_Instance); ("deriving", TokenKind_Deriving);
   ("dyn", TokenKind_Dyn); ("let", TokenKind_Let); ("do", TokenKind_Do); ("return", TokenKind_Return);
   ("yield", TokenKind_Yield); ("for", TokenKind_For); ("in", TokenKind_In); ("to", TokenKind_To);
   ("downto", TokenKind_Downto); ("while", TokenKind_While); ("break", TokenKind_Break);
   ("continue", TokenKind_Continue); ("mut", TokenKind_Mut); ("ref", TokenKind_Ref);
   ("deref", TokenKind_Deref); ("new", TokenKind_New); ("as", TokenKind_As); ("if", TokenKind_If);
   ("then", TokenKind_Then); ("elif", TokenKind_Elif); ("else", TokenKind_Else);
   ("match", TokenKind_Match); ("with", TokenKind_With); ("when", TokenKind_When);
   ("true", TokenKind_True); ("false", TokenKind_False)]%string.

Definition identifier : LM TokenKind :=
  let? start := get_position in
  skip_while is_word_byte ;;;
  let? p := get_position in
  let? word := slice start p in
  ret (if reserved_in (as_bytes word) then
         match list_find (fun p => p.1 = as_bytes word) KEYWORDS with
         | Some (_, (_, kind)) => kind
         | None => TokenKind_Ident word
         end
       else TokenKind_Ident word).

(** ** Numbers *)

Definition digits_turn (radix : N) (previous_digit : bool) : LM (bool + unit) :=
  let? b := peek 0 in
  match b with
  | None => ret (inr tt)
  | Some b =>
    if is_digit radix b then advance 1 ;;; ret (inl true)
    else if is_char b "_" then
      let? next_digit := peek_is 1 (is_digit radix) in
      if negb previous_digit || negb next_digit then
        let? p := get_position in error NumericSeparatorMisplaced p (p + 1)
      else advance 1 ;;; ret (inl false)
    else ret (inr tt)
  end.

Definition digits (radix : N) : LM unit :=
  let? start := get_position in
  loop (digits_turn radix) false ;;;
  let? p := get_position in
  if Nat.eqb p start then error ExpectedDigit start start else ret tt.

(** The digits, the fraction and the exponent of a number: the radix, and whether it is a float. *)
Definition number_digits : LM (N * bool) :=
  let? hexadecimal := rest_starts_with (txt "0x") in
  let? binary := rest_starts_with (txt "0b") in
  let radix := if hexadecimal : bool then 16 else if binary : bool then 2 else 10 in
  if negb (radix =? 10) then advance 2 ;;; digits radix ;;; ret (radix, false)
  else
    digits 10 ;;;
    let? point := peek_is 0 (fun b => is_char b ".") in
    let? after := peek_is 1 is_ascii_digit in
    let? float :=
      (if point && after : bool then advance 1 ;;; digits 10 ;;; ret true else ret false) in
    let? exponent := peek_is 0 (fun b => is_char b "e" || is_char b "E") in
    if exponent : bool then
      advance 1 ;;;
      let? sign := peek_is 0 (fun b => is_char b "+" || is_char b "-") in
      (if sign : bool then advance 1 else ret tt) ;;;
      digits 10 ;;; ret (radix, true)
    else ret (radix, float).

(** [text.replace('_', "")] *)
Definition without_separators (text : list u8) : list u8 := filter (fun b => is_char b "_" = false) text.

Definition number : LM TokenKind :=
  let? start := get_position in
  let? (radix, float) := number_digits in
  let? suffix_start := get_position in
  skip_while is_word_byte ;;;
  let? p := get_position in
  let? suffix := slice_bytes suffix_start p in
  let? text := slice_bytes start suffix_start in
  let number_text := without_separators text in
  if bool_decide (suffix = txt "I") then
    if float : bool then error BigintSuffixWithFraction start p
    else let? text := to_owned number_text in ret (TokenKind_BigInteger text)
  else
    let? name :=
      (if bool_decide (suffix = []) then ret []
       else match suffix_type suffix with
       | Some name => ret name
       | None => error InvalidNumericLiteral start p
       end) in
    let float_suffix := starts_with (txt "f") name || starts_with (txt "d") name in
    if negb (radix =? 10) && float_suffix then error FloatSuffixOnHexOrBinaryLiteral start p
    else
      let? text := to_owned (number_text ++ name) in
      ret (if float || float_suffix then TokenKind_Float text else TokenKind_Integer text).

(** ** Escapes, characters and strings *)

Definition unicode_escape (utf8 : bool) : LM u32 :=
  let? braced := rest_starts_with (txt "{") in
  (if braced : bool then advance 1 else ret tt) ;;;
  let? digits := get_position in
  loop (fun _ =>
    let? hexadecimal := peek_is 0 is_ascii_hexdigit in
    let? p := get_position in
    if hexadecimal && (braced || (p - digits <? 4)%nat) then advance 1 ;;; ret (inl tt)
    else ret (inr tt)) tt ;;;
  let? p := get_position in
  let? text := slice_bytes digits p in
  let value :=
    match from_str_radix_16 text with
    | Some value =>
      if (uval value <=? 0x10FFFF) && (negb utf8 || is_scalar (uval value)) then Some value else None
    | None => None
    end in
  let valid_length :=
    if braced : bool then negb (bool_decide (text = [])) && (negb utf8 || (length text <=? 6)%nat)
    else Nat.eqb (length text) 4 in
  let? closes := rest_starts_with (txt "}") in
  match value with
  | Some value =>
    if negb valid_length || (braced && negb closes) then error InvalidUnicodeScalarEscape digits p
    else (if braced : bool then advance 1 else ret tt) ;;; ret value
  | None => error InvalidUnicodeScalarEscape digits p
  end.

(** The escapes that both characters and strings have: the character after the backslash. *)
Definition character_escape (utf8 : bool) (start : nat) (escape : N) : LM u32 :=
  let fails : LM u32 := let? p := get_position in error Utf8charNotOneScalar start p in
  if (escape =? ch "'") || (escape =? ch "\") then ret (uint_wrap 32 escape)
  else if escape =? ch "n" then ret (uint_wrap 32 10)
  else if escape =? ch "r" then ret (uint_wrap 32 13)
  else if escape =? ch "t" then ret (uint_wrap 32 9)
  else if escape =? ch "0" then ret (uint_wrap 32 0)
  else
    let? brace := rest_starts_with (txt "{") in
    if (escape =? ch "u") && (negb utf8 || brace) then
      let? before := get_position in
      let? value := unicode_escape utf8 in
      let? p := get_position in
      if (8 <? p - before)%nat then fails else ret value
    else fails.

Definition character (utf8 : bool) : LM TokenKind :=
  let? start := get_position in
  advance 1 ;;;
  let fails {A} : LM A := let? p := get_position in error Utf8charNotOneScalar start p in
  let? first := next_char in
  match first with
  | None => fails
  | Some (character, len) =>
    advance len ;;;
    let? value :=
      (if (character =? ch "'") || (character =? NEWLINE) || (character =? RETURN) then fails
       else if character =? ch "\" then
         let? escape := next_char in
         match escape with
         | None => fails
         | Some (escape, len) => advance len ;;; character_escape utf8 start escape
         end
       else ret (uint_wrap 32 character)) in
    let? closes := rest_starts_with (txt "'") in
    if negb closes || (negb utf8 && (0xFFFF <? uval value)) || (utf8 && negb (is_scalar (uval value))) then fails
    else
      advance 1 ;;;
      ret (if utf8 then TokenKind_Utf8Char value else TokenKind_Char (uint_wrap 16 (uval value)))
  end.

Definition char_or_type_variable : LM TokenKind :=
  let? start := get_position in
  let? underscore := peek_is 1 (fun b => is_char b "_") in
  let? quote := peek_is 2 (fun b => is_char b "'") in
  if underscore && negb quote then
    advance 1 ;;;
    let? p := get_position in error InvalidTypeVariableStart start p
  else
    let? letter := peek_is 1 is_ascii_alphabetic in
    if letter : bool then
      advance 1 ;;;
      identifier ;;;
      let? closes := rest_starts_with (txt "'") in
      if negb closes then
        let? p := get_position in
        let? name := slice (start + 1) p in
        ret (TokenKind_TypeVariable name)
      else
        let? p := get_position in
        if negb (Nat.eqb (p - start) 2) then
          advance 1 ;;;
          let? p := get_position in error CharLiteralNotOneUnit start p
        else set_position start ;;; character false
    else character false.

Definition empty_literal (utf8 : bool) : StringLiteral :=
  if utf8 then StringLiteral_Utf8 (mk_RString [] eq_refl) else StringLiteral_Utf16 [].

Definition push_codepoint (text : StringLiteral) (codepoint : u32) : LM StringLiteral :=
  let c := uval codepoint in
  match text with
  | StringLiteral_Utf16 units =>
    ret (StringLiteral_Utf16
      (if c <=? 0xFFFF then units ++ [uint_wrap 16 c]
       else
         let value := c - 0x10000 in
         units ++ [uint_wrap 16 (N.lor 0xD800 (uval (uint_wrap 16 (N.shiftr value 10))));
                   uint_wrap 16 (N.lor 0xDC00 (uval (uint_wrap 16 (N.land value 0x3FF))))]))
  | StringLiteral_Utf8 text =>
    if is_scalar c then
      let? text := to_owned (as_bytes text ++ encode_utf8 c) in ret (StringLiteral_Utf8 text)
    else fail Panic
  end.

(** The character [c], already consumed, or the escape that it starts; [None] at the end of the source. *)
Definition string_char (c : N) (utf8 : bool) (start : nat) : LM (option u32) :=
  if c =? ch "\" then
    let? next := next_char in
    match next with
    | None => ret None
    | Some (escape, len) =>
      advance len ;;;
      if (escape =? 34) || (escape =? ch "\") then ret (Some (uint_wrap 32 escape))
      else if escape =? ch "n" then ret (Some (uint_wrap 32 10))
      else if escape =? ch "r" then ret (Some (uint_wrap 32 13))
      else if escape =? ch "t" then ret (Some (uint_wrap 32 9))
      else if escape =? ch "0" then ret (Some (uint_wrap 32 0))
      else
        let? brace := rest_starts_with (txt "{") in
        if (escape =? ch "u") && (negb utf8 || brace) then
          let? value := unicode_escape utf8 in ret (Some value)
        else
          let? p := get_position in error InvalidStringEscape (p - len - 1) p
    end
  else if (c =? NEWLINE) || (c =? RETURN) then
    let? p := get_position in error RawNewlineInString start p
  else ret (Some (uint_wrap 32 c)).

(** [None] stands for the [break] at a backslash that ends the source. *)
Definition string_turn (utf8 : bool) (start : nat) (text : StringLiteral)
    : LM (StringLiteral + option StringLiteral) :=
  let? end_ := at_source_end in
  if end_ : bool then ret (inr None)
  else
    let? (c, len) := next_char_unwrap in
    advance len ;;;
    if c =? 34 then ret (inr (Some text))
    else
      let? codepoint := string_char c utf8 start in
      match codepoint with
      | None => ret (inr None)
      | Some codepoint => let? text := push_codepoint text codepoint in ret (inl text)
      end.

Definition unterminated {A} (start : nat) : LM A :=
  let? p := get_position in error UnterminatedStringLiteral start p.

Definition string_ (utf8 : bool) : LM TokenKind :=
  let? start := get_position in
  advance 1 ;;;
  let? text := loop (string_turn utf8 start) (empty_literal utf8) in
  match text with
  | Some text => ret (TokenKind_String text)
  | None => unterminated start
  end.

(** ** Interpolated strings *)

Definition interpolated_turn (utf8 : bool) (start : nat) (text : StringLiteral)
    : LM (StringLiteral + option (StringLiteral * TextEnd)) :=
  let? end_ := at_source_end in
  if end_ : bool then ret (inr None)
  else
    let? (c, len) := next_char_unwrap in
    advance len ;;;
    let push (codepoint : u32) := let? text := push_codepoint text codepoint in ret (inl text) in
    if c =? 34 then ret (inr (Some (text, TextEnd_Quote)))
    else if c =? ch "{" then
      let? again := rest_starts_with (txt "{") in
      if again : bool then advance 1 ;;; push (uint_wrap 32 (ch "{"))
      else ret (inr (Some (text, TextEnd_Hole)))
    else if c =? ch "}" then
      let? again := rest_starts_with (txt "}") in
      if again : bool then advance 1 ;;; push (uint_wrap 32 (ch "}"))
      else let? p := get_position in error SingleClosingBraceInInterpolation (p - 1) p
    else
      let? codepoint := string_char c utf8 start in
      match codepoint with
      | None => ret (inr None)
      | Some codepoint => push codepoint
      end.

Definition interpolated_text (utf8 : bool) (start : nat) : LM (StringLiteral * TextEnd) :=
  let? text := loop (interpolated_turn utf8 start) (empty_literal utf8) in
  match text with
  | Some text => ret text
  | None => unterminated start
  end.

Definition interpolated (utf8 : bool) (start : nat) : LM TokenKind :=
  advance 1 ;;;
  let? (text, end_) := interpolated_text utf8 start in
  match end_ with
  | TextEnd_Quote => ret (TokenKind_String text)
  | TextEnd_Hole =>
    let? p := get_position in
    let? holes := get_holes in
    set_holes (mk_OpenHole utf8 0 (p - 1) :: holes) ;;;
    ret (TokenKind_InterpolationStart (mk_InterpolationPiece text None))
  end.

(** ** Format specs *)

Definition align_of (c : N) : option FormatAlign :=
  if c =? ch "<" then Some FormatAlign_Left
  else if c =? ch ">" then Some FormatAlign_Right
  else if c =? ch "^" then Some FormatAlign_Center
  else None.

Definition is_digit_char (c : N) : bool := in_range (ch "0") (ch "9") c.

(** The digits of [chars] from [index]. *)
Fixpoint digit_run (chars : list N) : list N :=
  match chars with
  | c :: chars => if is_digit_char c then c :: digit_run chars else []
  | [] => []
  end.

Definition decimal_value (digits : list N) : N := foldl (fun acc c => acc * 10 + (c - ch "0")) 0 digits.

(** The closure [number] of [parse_format_spec]: the new index and the number, if there is one. *)
Definition spec_number (fails : forall A, LM A) (chars : list N) (index : nat) (zero_allowed : bool)
    : LM (nat * option u16) :=
  let digits := digit_run (drop index chars) in
  if bool_decide (digits = []) then ret (index, None)
  else
    let leading_zero := bool_decide (head digits = Some (ch "0")) && (negb zero_allowed || (1 <? length digits)%nat) in
    if leading_zero || (4 <? length digits)%nat then fails _
    else
      match uint_try (w := 16) (decimal_value digits) with
      | None => fails _
      | Some value =>
        if MAX_FORMAT_FIELD <? uval value then fails _
        else ret ((index + length digits)%nat, Some value)
      end.

Definition format_kind_of (c : N) : option FormatKind :=
  if c =? ch "x" then Some FormatKind_LowerHex
  else if c =? ch "X" then Some FormatKind_UpperHex
  else if c =? ch "o" then Some FormatKind_Octal
  else if c =? ch "b" then Some FormatKind_Binary
  else if c =? ch "e" then Some FormatKind_Exponent
  else if c =? ch "f" then Some FormatKind_Fixed
  else None.

Definition is_char_at (chars : list N) (index : nat) (c : N) : bool :=
  bool_decide (chars !! index = Some c).

(** The fill, the alignment and the index after them. *)
Definition spec_align (malformed : forall A, LM A) (chars : list N) : LM (N * option FormatAlign * nat) :=
  match (chars !! 1%nat) ≫= align_of with
  | Some found =>
    let? fill := ok_or (chars !! 0%nat) Panic in
    if bool_decide (fill ∈ [ch "{"; ch "}"; 34; ch "\"; RETURN; NEWLINE]) then malformed _
    else ret (fill, Some found, 2%nat)
  | None =>
    let? first := ok_or (chars !! 0%nat) Panic in
    match align_of first with
    | Some found => ret (32, Some found, 1%nat)
    | None => ret (32, None, 0%nat)
    end
  end.

Definition parse_format_spec (text : list u8) (start end_ : nat) : LM (option FormatSpec) :=
  if bool_decide (text = []) then ret None
  else
    let malformed A : LM A := error InvalidFormatSpec start end_ in
    let out_of_range A : LM A := error FormatFieldOutOfRange start end_ in
    let chars := chars (length text) text in
    let? (fill, align, index) := spec_align malformed chars in
    let plus := is_char_at chars index (ch "+") in
    let index := (index + if plus then 1 else 0)%nat in
    let? (index, width) := spec_number out_of_range chars index false in
    let width := default (uint_wrap 16 0) width in
    let? (index, precision) :=
      (if is_char_at chars index (ch ".") then
         let? (index, precision) := spec_number out_of_range chars (index + 1) true in
         match precision with
         | Some precision => ret (index, Some precision)
         | None => malformed _
         end
       else ret (index, None)) in
    let? (index, kind) :=
      match chars !! index with
      | Some c =>
        match format_kind_of c with
        | Some kind => ret ((index + 1)%nat, Some kind)
        | None => malformed _
        end
      | None => ret (index, None)
      end in
    if negb (Nat.eqb index (length chars)) then malformed _
    else
      match kind, precision with
      | Some (FormatKind_LowerHex | FormatKind_UpperHex | FormatKind_Octal | FormatKind_Binary), Some _ =>
        error FormatPrecisionOnInteger start end_
      | Some (FormatKind_Exponent | FormatKind_Fixed), None => error FormatTypeNeedsPrecision start end_
      | _, _ =>
        let? fill := ok_or (from_u32 (uint_wrap 32 fill)) Panic in
        ret (Some (mk_FormatSpec fill align plus width precision kind (Span_new start end_)))
      end.

(** The characters that [tail.find] looks for: a closing brace, a line break or a quote. *)
Definition spec_end (b : u8) : bool := is_char b "}" || is_newline b || (uval b =? 34).

Definition format_spec (opened : nat) : LM (option FormatSpec) :=
  let? p := get_position in
  let text_start := (p + 1)%nat in
  let? tail := slice_from text_start in
  match list_find (fun b => spec_end b = true) tail with
  | Some (length, b) =>
    if is_char b "}" then
      let? text := slice_bytes text_start (text_start + length) in
      let? spec := parse_format_spec text text_start (text_start + length) in
      set_position (text_start + length + 1) ;;; ret spec
    else error UnterminatedInterpolationHole opened (p + 1)
  | None => error UnterminatedInterpolationHole opened (p + 1)
  end.

Definition hole_end (start : nat) : LM TokenKind :=
  let? open := get_holes in
  let? hole := ok_or (head open) Panic in
  let? colon := rest_starts_with (txt ":") in
  let? spec := (if colon : bool then format_spec (hole_start hole) else advance 1 ;;; ret None) in
  let? (text, end_) := interpolated_text (hole_utf8 hole) start in
  let piece := mk_InterpolationPiece text spec in
  match end_ with
  | TextEnd_Quote => set_holes (tail open) ;;; ret (TokenKind_InterpolationEnd piece)
  | TextEnd_Hole =>
    let? p := get_position in
    set_holes (mk_OpenHole (hole_utf8 hole) 0 (p - 1) :: tail open) ;;;
    ret (TokenKind_InterpolationMiddle piece)
  end.

(** ** The suffix [B] *)

Definition at_byte_suffix : LM bool :=
  let? b := peek_is 0 (fun b => is_char b "B") in
  let? word := peek_is 1 is_word_byte in
  ret (b && negb word).

Definition byte_suffix (kind : TokenKind) (start : nat) : LM TokenKind :=
  let? suffix := at_byte_suffix in
  if negb suffix then ret kind
  else
    advance 1 ;;;
    let? p := get_position in
    match kind with
    | TokenKind_Char unit_ =>
      if uval unit_ <? 0x80 then
        let? text := to_owned (decimal 5 (uval unit_) [] ++ txt "i8u") in ret (TokenKind_Integer text)
      else error ByteLiteralNotAscii start p
    | TokenKind_String (StringLiteral_Utf16 units) =>
      if forallb (fun unit_ => uval unit_ <? 0x80) units then
        ret (TokenKind_ByteString ((fun unit_ => uint_wrap 8 (uval unit_)) <$> units))
      else error ByteLiteralNotAscii start p
    | TokenKind_String (StringLiteral_Utf8 text) =>
      ret (TokenKind_ScalarString (uint_wrap 32 <$> chars (length (as_bytes text)) (as_bytes text)))
    | _ => error ByteSuffixOnUnsupportedLiteral start p
    end.

Definition no_byte_suffix (kind : TokenKind) (start : nat) : LM TokenKind :=
  let? suffix := at_byte_suffix in
  if suffix : bool then
    advance 1 ;;;
    let? p := get_position in error ByteSuffixOnInterpolatedString start p
  else ret kind.

(** ** Symbols *)

Definition LONG_SYMBOLS : list (list u8 * TokenKind) := (fun p => (txt p.1, p.2)) <$>
  [("[|", TokenKind_LeftList); ("<<<", TokenKind_TripleLess); (">>>", TokenKind_TripleGreater);
   ("&&&", TokenKind_TripleAmpersand); ("|||", TokenKind_TriplePipe); ("^^^", TokenKind_TripleCaret);
   ("~~~", TokenKind_TripleTilde); ("|]", TokenKind_RightList); ("->", TokenKind_Arrow);
   ("=>", TokenKind_FatArrow); ("::", TokenKind_DoubleColon); ("..=", TokenKind_DotDotEqual);
   ("..<", TokenKind_DotDotLess); ("..", TokenKind_DotDot); ("**", TokenKind_DoubleStar);
   ("==", TokenKind_EqualEqual); ("!=", TokenKind_BangEqual); ("<=", TokenKind_LessEqual);
   (">=", TokenKind_GreaterEqual); ("&&", TokenKind_AndAnd); ("||", TokenKind_OrOr);
   ("<<", TokenKind_DoubleLess); (">>", TokenKind_DoubleGreater); ("|>", TokenKind_PipeForward)]%string.

Definition SHORT_SYMBOLS : list (N * TokenKind) :=
  [(ch "(", TokenKind_LeftParen); (ch ")", TokenKind_RightParen); (ch "{", TokenKind_LeftBrace);
   (ch "}", TokenKind_RightBrace); (ch "[", TokenKind_LeftBracket); (ch "]", TokenKind_RightBracket);
   (ch ":", TokenKind_Colon); (ch ";", TokenKind_Semicolon); (ch ",", TokenKind_Comma);
   (ch ".", TokenKind_Dot); (ch "@", TokenKind_At); (ch "#", TokenKind_Hash); (ch "?", TokenKind_Question);
   (ch "=", TokenKind_Equal); (ch "+", TokenKind_Plus); (ch "-", TokenKind_Minus); (ch "*", TokenKind_Star);
   (ch "/", TokenKind_Slash); (ch "\", TokenKind_Backslash); (ch "%", TokenKind_Percent);
   (ch "!", TokenKind_Bang); (ch "~", TokenKind_Tilde); (ch "<", TokenKind_Less);
   (ch ">", TokenKind_Greater); (ch "&", TokenKind_Ampersand); (ch "|", TokenKind_Pipe);
   (ch "^", TokenKind_Caret)].

Definition symbol : LM TokenKind :=
  let? text := rest in
  if starts_with (txt ">=>") text then advance 1 ;;; ret TokenKind_Greater
  else
    match list_find (fun p => starts_with p.1 text = true) LONG_SYMBOLS with
    | Some (_, (long, kind)) => advance (length long) ;;; ret kind
    | None =>
      let? (c, len) := next_char_unwrap in
      match list_find (fun p => p.1 = c) SHORT_SYMBOLS with
      | Some (_, (_, kind)) => advance len ;;; ret kind
      | None =>
        let? p := get_position in error UnexpectedCharacter p (p + len)
      end
    end.

(** ** Tokens *)

(** [///]: the documentation after one optional space. *)
Definition doc_comment (start : nat) : LM Token :=
  advance 3 ;;;
  let? space := rest_starts_with (txt " ") in
  (if space : bool then advance 1 else ret tt) ;;;
  let? text_start := get_position in
  skip_while (fun b => negb (is_newline b)) ;;;
  let? p := get_position in
  let? text := slice text_start p in
  ret (mk_Token (TokenKind_DocComment text) (Span_new start p)).

(** The kind of a token that is not trivia and does not close a hole. *)
Definition literal_or_symbol (start : nat) (byte : u8) : LM TokenKind :=
  let quote : list u8 := [byte_of 34] in
  let? u8_char := rest_starts_with (txt "u8'") in
  let? u8_string := rest_starts_with (txt "u8" ++ quote) in
  let? u8_interpolated := rest_starts_with (txt "u8$" ++ quote) in
  let? interpolated_ := rest_starts_with (txt "$" ++ quote) in
  if is_char byte "'" then
    let? kind := char_or_type_variable in byte_suffix kind start
  else if u8_char : bool then
    advance 2 ;;; let? kind := character true in byte_suffix kind start
  else if u8_string : bool then
    advance 2 ;;; let? kind := string_ true in byte_suffix kind start
  else if u8_interpolated : bool then
    advance 3 ;;; let? kind := interpolated true start in no_byte_suffix kind start
  else if interpolated_ : bool then
    advance 1 ;;; let? kind := interpolated false start in no_byte_suffix kind start
  else if is_ascii_alphabetic byte || is_char byte "_" then identifier
  else if is_ascii_digit byte then number
  else if uval byte =? 34 then
    let? kind := string_ false in byte_suffix kind start
  else symbol.

(** The brackets inside the innermost hole. *)
Definition count_brackets (kind : TokenKind) (holes : list OpenHole) : list OpenHole :=
  match holes with
  | [] => []
  | mk_OpenHole utf8 depth start :: holes =>
    mk_OpenHole utf8
      match kind with
      | TokenKind_LeftParen | TokenKind_LeftBracket | TokenKind_LeftBrace | TokenKind_LeftList => S depth
      | TokenKind_RightParen | TokenKind_RightBracket | TokenKind_RightBrace | TokenKind_RightList => pred depth
      | _ => depth
      end start :: holes
  end.

Definition is_interpolation_end (kind : TokenKind) : bool :=
  match kind with TokenKind_InterpolationEnd _ => true | _ => false end.

(** Whether [byte] closes the innermost hole. *)
Definition closes_hole (open : list OpenHole) (byte : u8) (next : option u8) : bool :=
  match open with
  | [] => false
  | hole :: _ =>
    Nat.eqb (hole_depth hole) 0 &&
    (is_char byte "}" ||
     (is_char byte ":" && negb (match next with Some b => is_char b ":" | None => false end)))
  end.

Definition token : LM (option Token) :=
  let? start := get_position in
  let? byte := byte_at start in
  let? open := get_holes in
  if is_ascii_whitespace byte then
    match open with
    | hole :: _ =>
      if is_newline byte then error InterpolationHoleSpansLines (hole_start hole) (start + 1)
      else advance 1 ;;; ret None
    | [] => advance 1 ;;; ret None
    end
  else
    let? line := rest_starts_with (txt "//") in
    let? block := rest_starts_with (txt "/*") in
    if negb (bool_decide (open = [])) && (line || block) then
      error CommentInInterpolationHole start (start + 2)
    else
      let? doc := rest_starts_with (txt "///") in
      if doc : bool then let? token := doc_comment start in ret (Some token)
      else if line : bool then
        skip_while (fun b => negb (uval b =? NEWLINE)) ;;; ret None
      else if block : bool then comment ;;; ret None
      else
        let? next := peek 1 in
        let? kind :=
          (if closes_hole open byte next then
             let? kind := hole_end start in
             if is_interpolation_end kind then no_byte_suffix kind start else ret kind
           else
             let? kind := literal_or_symbol start byte in
             let? open := get_holes in
             set_holes (count_brackets kind open) ;;; ret kind) in
        let? p := get_position in
        ret (Some (mk_Token kind (Span_new start p))).

(** ** Recovery and the loop over the source *)

(** Whether a lexeme that failed may be a string, which recovery skips to the end of the line. *)
Definition string_start (in_hole : bool) (first : N) (text : list u8) : bool :=
  let quote : list u8 := [byte_of 34] in
  (first =? 34) || in_hole ||
  existsb (fun prefix => starts_with prefix text) [txt "u8" ++ quote; txt "$" ++ quote; txt "u8$" ++ quote].

Definition recover (start : nat) (in_hole : bool) : LM unit :=
  let? text := slice_from start in
  let? (first, len) := ok_or (first_char text) Panic in
  let? p := get_position in
  set_position (Nat.max p (start + len)) ;;;
  let? p := get_position in
  if string_start in_hole first text then
    if match source !! (p - 1)%nat with Some b => is_newline b | None => false end then ret tt
    else
      loop (fun _ =>
        let? end_ := at_source_end in
        if end_ : bool then ret (inr tt)
        else
          let? text := rest in
          if starts_with [byte_of NEWLINE] text || starts_with [byte_of RETURN] text then ret (inr tt)
          else let? c := next_char_unwrap in advance c.2 ;;; ret (inl tt)) tt
  else if in_range (ch "0") (ch "9") first then skip_while is_word_byte
  else ret tt.

(** One turn of the loop of [tokens]. *)
Definition tokens_turn (recovering : bool) (acc : list Token * list Diagnostic)
    : LM (list Token * list Diagnostic + list Token * list Diagnostic) := fun s =>
  let (tokens, diagnostics) := acc in
  if (length source <=? position s)%nat then (Ok (inr acc), s)
  else
    let start := position s in
    let in_hole := negb (bool_decide (holes s = [])) in
    match token s with
    | (Ok (Some token), s) => (Ok (inl (tokens ++ [token], diagnostics)), s)
    | (Ok None, s) => (Ok (inl acc), s)
    | (Err (Diagnosed error), s) =>
      let diagnostics := diagnostics ++ [error] in
      if negb recovering || Nat.eqb (length diagnostics) MAX_UNIQUE_DIAGNOSTICS then
        (Ok (inr (tokens, diagnostics)), mk_Lexer (length source) [])
      else
        (recover start in_hole ;;; ret (inl (tokens, diagnostics))) (mk_Lexer (position s) [])
    | (Err e, s) => (Err e, s)
    end.

(** ** Namespace paths *)

(** [source.get(a..b)] *)
Definition get_slice (a b : nat) : option (list u8) :=
  if (a <=? b)%nat && is_char_boundary source a && is_char_boundary source b then Some (between source a b) else None.

Definition is_segment (token : Token) : bool :=
  match token_kind token with
  | TokenKind_Ident name => negb (bool_decide (as_bytes name = txt "_"))
  | _ => false
  end.

Definition is_double_colon (token : Token) : bool :=
  match token_kind token with TokenKind_DoubleColon => true | _ => false end.

(** A [DoubleColon] directly between two identifiers; [None] is an index out of range. *)
Definition joins (tokens : list Token) (at_ : nat) : option bool :=
  here ← tokens !! at_;
  if negb (is_double_colon here) then Some false
  else
    before ← (match at_ with O => None | S at_ => tokens !! at_ end);
    Some (is_segment before &&
      match tokens !! S at_ with
      | Some after =>
        is_segment after &&
        Nat.eqb (end_of (token_span before)) (start_of (token_span here)) &&
        Nat.eqb (end_of (token_span here)) (start_of (token_span after))
      | None => false
      end).

(** The last separator of the chain. *)
Fixpoint chain (fuel : nat) (tokens : list Token) (last : nat) : option nat :=
  match fuel with
  | O => None
  | S fuel =>
    if (last + 2 <? length tokens)%nat then
      more ← joins tokens (last + 2);
      if more : bool then chain fuel tokens (last + 2) else Some last
    else Some last
  end.

Definition is_declarator (token : Token) : bool :=
  match token_kind token with TokenKind_Def | TokenKind_Rec | TokenKind_And => true | _ => false end.

Definition is_header_word (token : Token) : bool :=
  match token_kind token with
  | TokenKind_Ident word =>
    bool_decide (as_bytes word = txt "namespace") || bool_decide (as_bytes word = txt "using")
  | _ => false
  end.

Definition is_header (tokens : list Token) (at_ : nat) : option bool :=
  if (2 <=? at_)%nat then
    word ← tokens !! (at_ - 2)%nat;
    if is_header_word word then
      if Nat.eqb at_ 2 then Some true
      else
        before ← tokens !! (at_ - 3)%nat;
        Some match get_slice (end_of (token_span before)) (start_of (token_span word)) with
             | Some gap => existsb is_newline gap
             | None => false
             end
    else Some false
  else Some false.

Definition is_module (token : Token) : bool :=
  match token_kind token with
  | TokenKind_Ident name => match as_bytes name with b :: _ => is_ascii_uppercase b | [] => false end
  | _ => false
  end.

(** [for separator in (at..=last).step_by(2)] *)
Definition separate (tokens : list Token) (at_ last : nat) : list Token :=
  imap (fun i token =>
    if (at_ <=? i)%nat && (i <=? last)%nat && Nat.even (i - at_)
    then mk_Token TokenKind_PathSep (token_span token) else token) tokens.

Fixpoint mark_paths (fuel : nat) (tokens : list Token) (at_ : nat) : option (list Token) :=
  match fuel with
  | O => None
  | S fuel =>
    if (at_ + 1 <? length tokens)%nat then
      declared ← (if (2 <=? at_)%nat then is_declarator <$> tokens !! (at_ - 2)%nat else Some false);
      joined ← (if declared : bool then Some false else joins tokens at_);
      if negb joined then mark_paths fuel tokens (at_ + 1)
      else
        last ← chain (length tokens) tokens at_;
        header ← is_header tokens at_;
        module ← is_module <$> tokens !! (last + 1)%nat;
        mark_paths fuel (if header || module : bool then separate tokens at_ last else tokens) (last + 2)
    else Some tokens
  end.

Definition tokens (recovering : bool) : LM (list Token * list Diagnostic) :=
  let? (tokens, diagnostics) := loop (tokens_turn recovering) ([], []) in
  let? open := get_holes in
  let? p := get_position in
  let diagnostics := diagnostics ++
    match open with
    | hole :: _ => [mk_Diagnostic UnterminatedInterpolationHole (Span_new (hole_start hole) p)]
    | [] => []
    end in
  let tokens := tokens ++ [mk_Token TokenKind_End (Span_new p p)] in
  let? tokens := ok_or (mark_paths (S (length tokens)) tokens 1) Panic in
  ret (tokens, diagnostics).

(** ** Entry points *)

Definition shebang_length : LM nat :=
  if negb (starts_with (txt "#!") source) then ret 0%nat
  else
    let end_ := match list_find (fun b => uval b = NEWLINE) source with
                | Some (i, _) => i
                | None => length source
                end in
    let? line := slice_bytes 0 end_ in
    ret (match last line with
         | Some b => if uval b =? RETURN then (end_ - 1)%nat else end_
         | None => end_
         end).

Definition content_start : LM nat :=
  if starts_with (byte_of <$> [0xEF; 0xBB; 0xBF]) source then ret 3%nat else shebang_length.

Definition tokenize (recovering : bool) : LM (list Token * list Diagnostic) :=
  if (MAX_SOURCE_BYTES <? length source)%nat then
    ret ([], [mk_Diagnostic SourceTooLarge (Span_new 0 0)])
  else
    let? start := content_start in
    set_position start ;;; tokens recovering.

(** ** Trivia *)

Inductive TriviaKind := Whitespace | Newline | LineComment | BlockComment.

Record Trivia := mk_Trivia {
  trivia_kind : TriviaKind;
  trivia_text : RString;
  trivia_span : Span }.

Record TokenWithTrivia := mk_TokenWithTrivia {
  with_token : Token;
  leading : list Trivia }.

(** One piece of trivia at the position, before a token that starts at [limit]. *)
Definition trivia_piece (limit : nat) : LM TriviaKind :=
  let? start := get_position in
  let? text := rest in
  if starts_with (txt "/*") text then comment ;;; ret BlockComment
  else if starts_with (txt "//") text then
    let? text := slice_from start in
    let end_ := match list_find (fun b => uval b = NEWLINE) text with
                | Some (offset, _) => (start + offset)%nat
                | None => length source
                end in
    set_position end_ ;;;
    (if (end_ <? length source)%nat then
       let? b := byte_at (end_ - 1) in
       if uval b =? RETURN then set_position (end_ - 1) else ret tt
     else ret tt) ;;;
    ret LineComment
  else if starts_with [byte_of RETURN; byte_of NEWLINE] text then advance 2 ;;; ret Newline
  else if starts_with [byte_of RETURN] text || starts_with [byte_of NEWLINE] text then advance 1 ;;; ret Newline
  else
    loop (fun _ =>
      let? p := get_position in
      if (p <? limit)%nat then
        let? b := byte_at p in
        if is_ascii_whitespace b && negb (is_newline b) then advance 1 ;;; ret (inl tt) else ret (inr tt)
      else ret (inr tt)) tt ;;;
    ret Whitespace.

Definition trivia_turn (limit : nat) (leading : list Trivia) : LM (list Trivia + list Trivia) :=
  let? start := get_position in
  if (limit <=? start)%nat then ret (inr leading)
  else
    let? kind := trivia_piece limit in
    let? p := get_position in
    let? text := slice start p in
    ret (inl (leading ++ [mk_Trivia kind text (Span_new start p)])).

Fixpoint attach_trivia (tokens : list Token) : LM (list TokenWithTrivia) :=
  match tokens with
  | [] => ret []
  | token :: tokens =>
    let? leading := loop (trivia_turn (start_of (token_span token))) [] in
    set_position (end_of (token_span token)) ;;;
    let? rest := attach_trivia tokens in
    ret (mk_TokenWithTrivia token leading :: rest)
  end.
End lexer.

Definition EDITION_KEYWORDS : list (list u8 * Edition) := [].

(** What a computation on a source gives from the start. *)
Definition run_lexer {A} (m : M LexError Lexer A) : Result A LexError := fst (m (mk_Lexer 0 [])).

Definition lex_all (source : list u8) (edition : Edition) : Result (list Token * list Diagnostic) LexError :=
  run_lexer (tokenize source edition EDITION_KEYWORDS true).

Definition lex (source : list u8) (edition : Edition) : Result (list Token) LexError :=
  match run_lexer (tokenize source edition EDITION_KEYWORDS false) with
  | Ok (tokens, []) => Ok tokens
  | Ok (_, diagnostic :: _) => Err (Diagnosed diagnostic)
  | Err e => Err e
  end.

Definition lex_with_trivia (source : list u8) (edition : Edition) : Result (list TokenWithTrivia) LexError :=
  match lex source edition with
  | Ok tokens =>
    run_lexer (let? start := content_start source in set_position start ;;; attach_trivia source tokens)
  | Err e => Err e
  end.

(** ** [numeric_suffix] *)

(** [while bytes.get(at).is_some_and(..) { at += 1 }] on the bytes from [at]. *)
Fixpoint skip_digits (radix : N) (bytes : list u8) : list u8 :=
  match bytes with
  | b :: rest => if is_char b "_" || is_digit radix b then skip_digits radix rest else bytes
  | [] => []
  end.

Definition numeric_suffix (text : list u8) : list u8 :=
  if starts_with (txt "0x") text then skip_digits 16 (drop 2 text)
  else if starts_with (txt "0b") text then skip_digits 2 (drop 2 text)
  else
    let bytes := skip_digits 10 text in
    let bytes :=
      match bytes with
      | point :: (digit :: _) as after =>
        if is_char point "." && is_ascii_digit digit then skip_digits 10 after else bytes
      | _ => bytes
      end in
    match bytes with
    | e :: (next :: after') as after =>
      if (is_char e "e" || is_char e "E") &&
         (is_ascii_digit next || is_char next "+" || is_char next "-") then
        if is_char next "+" || is_char next "-" then skip_digits 10 after' else skip_digits 10 after
      else bytes
    | _ => bytes
    end.
