(* ===== verification/LexerLaws.v ===== *)
(** * Laws of the lexer's primitives

    [wp source m Q s]: from [s], [m] ends with [Q] or with a diagnostic whose span lies in the source between
    character boundaries; it does not panic and its loops end. *)
From stdpp Require Import strings.
From S2P Require Import Prelude Wire Syntax Utf8 Token Lexer.
Local Open Scope nat_scope.
Local Open Scope monad_scope.

Abbreviation LM := (M LexError Lexer).

(** From [s], [m] ends with [Q], or with a diagnostic and a state that satisfy [E]. *)
Definition wpe (E : Diagnostic -> Lexer -> Prop) {A} (m : LM A) (Q : A -> Lexer -> Prop) (s : Lexer) : Prop :=
  match m s with
  | (Ok a, s') => Q a s'
  | (Err (Diagnosed d), s') => E d s'
  | (Err _, _) => False
  end.

(** No diagnostic. *)
Definition quiet (d : Diagnostic) (s : Lexer) : Prop := False.

Section laws.
Context (source : list u8).

Abbreviation boundary := (at_boundary source).

(** ** Diagnostics and results *)

(** The span between two character boundaries. *)
Definition span_in (span : Span) : Prop :=
  exists a b, span = Span_new a b /\ a <= b /\ boundary a /\ boundary b.

Definition reported (d : Diagnostic) (s : Lexer) : Prop :=
  span_in (diagnostic_span d) /\ boundary (position s).

(** The laws hold whatever may be said of a diagnostic. *)
Context (E : Diagnostic -> Lexer -> Prop).

Abbreviation wp := (wpe E).

Lemma lwp_ret {A} (a : A) (Q : A -> Lexer -> Prop) s : Q a s -> wp (ret a) Q s.
Proof. done. Qed.

Lemma lwp_bind {A B} (m : LM A) (k : A -> LM B) Q s : wp m (fun a => wp (k a) Q) s -> wp (bind m k) Q s.
Proof. unfold wpe, bind. by destruct (m s) as [[a|[d| |]] s']. Qed.

Lemma lwp_mono {A} (m : LM A) (P Q : A -> Lexer -> Prop) s :
  wp m P s -> (forall a s', P a s' -> Q a s') -> wp m Q s.
Proof. unfold wpe. destruct (m s) as [[a|[d| |]] s']; auto. Qed.

(** What [m] gives is also what it computes. *)
Lemma lwp_eq {A} (m : LM A) Q s : wp m Q s -> wp m (fun a s' => Q a s' /\ m s = (Ok a, s')) s.
Proof. unfold wpe. by destruct (m s) as [[a|[d| |]] s']. Qed.

Lemma wp_ok_or {A} (o : option A) a (Q : A -> Lexer -> Prop) s : o = Some a -> Q a s -> wp (ok_or o Panic) Q s.
Proof. by intros ->. Qed.

Lemma wp_get_position (Q : nat -> Lexer -> Prop) s : Q (position s) s -> wp get_position Q s.
Proof. done. Qed.

Lemma wp_set_position p (Q : unit -> Lexer -> Prop) s : Q tt (mk_Lexer p (holes s)) -> wp (set_position p) Q s.
Proof. done. Qed.

Lemma wp_advance n (Q : unit -> Lexer -> Prop) s : Q tt (mk_Lexer (position s + n) (holes s)) -> wp (advance n) Q s.
Proof. done. Qed.

Lemma wp_get_holes (Q : list OpenHole -> Lexer -> Prop) s : Q (holes s) s -> wp get_holes Q s.
Proof. done. Qed.

Lemma wp_set_holes h (Q : unit -> Lexer -> Prop) s : Q tt (mk_Lexer (position s) h) -> wp (set_holes h) Q s.
Proof. done. Qed.

Lemma wp_at_source_end (Q : bool -> Lexer -> Prop) s :
  Q (length source <=? position s) s -> wp (at_source_end source) Q s.
Proof. done. Qed.

Lemma wp_peek offset (Q : option u8 -> Lexer -> Prop) s : Q (source !! (position s + offset)) s -> wp (peek source offset) Q s.
Proof. done. Qed.

Lemma wp_peek_is offset p (Q : bool -> Lexer -> Prop) s :
  Q (match source !! (position s + offset) with Some b => p b | None => false end) s -> wp (peek_is source offset p) Q s.
Proof. done. Qed.

Lemma wp_error {A} kind a b (Q : A -> Lexer -> Prop) s :
  a <= b -> boundary a -> boundary b -> boundary (position s) -> wpe reported (error kind a b) Q s.
Proof. intros Hab Ha Hb Hs. split; [|done]. by exists a, b. Qed.

Lemma wp_slice_from a (Q : list u8 -> Lexer -> Prop) s : boundary a -> Q (drop a source) s -> wp (slice_from source a) Q s.
Proof. intros Ha HQ. unfold slice_from. by rewrite (at_boundary_is _ _ Ha). Qed.

Lemma wp_slice_bytes a b (Q : list u8 -> Lexer -> Prop) s :
  boundary a -> boundary b -> a <= b -> Q (between source a b) s -> wp (slice_bytes source a b) Q s.
Proof.
  intros Ha Hb Hab HQ. unfold slice_bytes.
  by rewrite (proj2 (Nat.leb_le a b) Hab), (at_boundary_is _ _ Ha), (at_boundary_is _ _ Hb).
Qed.

Lemma from_utf8_valid bs : valid bs -> exists t, from_utf8 bs = Some t /\ as_bytes t = bs.
Proof. intros Hv. exists (mk_RString bs Hv). split; [|done]. by apply from_utf8_Some. Qed.

Lemma wp_to_owned bs (Q : RString -> Lexer -> Prop) s :
  valid bs -> (forall t, as_bytes t = bs -> Q t s) -> wp (to_owned bs) Q s.
Proof. intros Hv HQ. destruct (from_utf8_valid bs Hv) as (t & Et & Ht). unfold to_owned. rewrite Et. by apply HQ. Qed.

Lemma wp_slice a b (Q : RString -> Lexer -> Prop) s :
  boundary a -> boundary b -> a <= b -> (forall t, as_bytes t = between source a b -> Q t s) -> wp (slice source a b) Q s.
Proof.
  intros Ha Hb Hab HQ. apply lwp_bind, wp_slice_bytes; [done..|]. apply wp_to_owned; [|done]. by apply valid_between.
Qed.

Lemma wp_rest (Q : list u8 -> Lexer -> Prop) s :
  boundary (position s) -> Q (drop (position s) source) s -> wp (rest source) Q s.
Proof. intros Hs HQ. apply lwp_bind, wp_get_position. by apply wp_slice_from. Qed.

Lemma wp_rest_starts_with prefix (Q : bool -> Lexer -> Prop) s :
  boundary (position s) -> Q (starts_with prefix (drop (position s) source)) s -> wp (rest_starts_with source prefix) Q s.
Proof. intros Hs HQ. apply lwp_bind. by apply wp_rest. Qed.

(** A character is at the position. *)
Record char_here (s : Lexer) (c : N) (len : nat) : Prop := {
  here_first : first_char (drop (position s) source) = Some (c, len);
  here_scalar : is_scalar c = true;
  here_len : 1 <= len;
  here_next : boundary (position s + len);
  here_inside : position s < length source;
  here_bytes : take len (drop (position s) source) = encode_utf8 c }.

Lemma char_at s : boundary (position s) -> position s < length source -> exists c len, char_here s c len.
Proof.
  intros Hs Hlt. destruct (first_char_at source _ Hs Hlt) as (c & l & Hf & Hsc & Hl & Hn & Ht).
  exists c, l. by split.
Qed.

(** Inside a character no other one starts. *)
Lemma here_other s c len i b : char_here s c len -> 0 < i < len -> source !! (position s + i) = Some b -> is_boundary_byte b = false.
Proof.
  intros [_ Hc _ _ _ Ht] Hi Hb. apply (seq_inside _ _ (encode_seq c Hc) i); [lia|]. rewrite <- Ht, lookup_take_lt by lia.
  by rewrite lookup_drop.
Qed.

Lemma wp_next_char (Q : option (N * nat) -> Lexer -> Prop) s : boundary (position s) ->
  (position s = length source -> Q None s) ->
  (forall c len, char_here s c len -> Q (Some (c, len)) s) -> wp (next_char source) Q s.
Proof.
  intros Hs Hnone Hsome. apply lwp_bind, wp_rest; [done|]. apply lwp_ret.
  destruct (decide (position s < length source)) as [Hlt|Hge].
  - destruct (char_at s Hs Hlt) as (c & l & Hc). rewrite (here_first _ _ _ Hc). by apply Hsome.
  - rewrite drop_ge by lia. apply Hnone. destruct Hs as [Hs _]. lia.
Qed.

Lemma wp_next_char_unwrap (Q : N * nat -> Lexer -> Prop) s : boundary (position s) -> position s < length source ->
  (forall c len, char_here s c len -> Q (c, len) s) -> wp (next_char_unwrap source) Q s.
Proof.
  intros Hs Hlt HQ. apply lwp_bind, wp_next_char; [done|lia|]. intros c l Hc. eapply wp_ok_or; [done|]. by apply HQ.
Qed.

(** ** Loops *)

Lemma wp_loop {A R} (turn : A -> LM (A + R)) (I : A -> Lexer -> Prop) (Q : R -> Lexer -> Prop) a s :
  I a s -> (forall a s, I a s -> position s <= length source) ->
  (forall a s, I a s -> wp (turn a) (fun x s' =>
    match x with inl a' => I a' s' /\ position s < position s' | inr r => Q r s' end) s) ->
  wp (loop source turn a) Q s.
Proof.
  intros Ha Hb Hturn. unfold loop. assert (length source - position s < S (length source)) as Hfuel by lia.
  revert Hfuel. generalize (S (length source)). intros fuel. revert a s Ha.
  induction fuel as [|fuel IH]; intros a s Ha Hfuel; [lia|]. cbn [loop_from]. apply lwp_bind.
  eapply lwp_mono; [by apply Hturn|]. intros [a'|r] s' Hx; [|by apply lwp_ret]. destruct Hx as [Ha' Hlt].
  apply IH; [done|]. pose proof (Hb _ _ Ha'). lia.
Qed.

(** ** Moving forward *)

(** The position moves forward to a boundary; the holes stay. *)
Definition moves (s s' : Lexer) : Prop :=
  position s <= position s' /\ boundary (position s') /\ holes s' = holes s.

Lemma moves_refl s : boundary (position s) -> moves s s.
Proof. intros Hs. split_and!; done. Qed.

Lemma moves_trans s1 s2 s3 : moves s1 s2 -> moves s2 s3 -> moves s1 s3.
Proof. intros (H1 & _ & E1) (H2 & B2 & E2). split_and!; [lia|done|congruence]. Qed.

(** A run of ASCII bytes from [p] to [q] that cannot go on. *)
Definition run_of (f : u8 -> bool) (p q : nat) : Prop :=
  p <= q /\ (forall i, p <= i < q -> exists b, source !! i = Some b /\ f b = true) /\
  (forall b, source !! q = Some b -> f b = false).

Lemma run_of_nil f p : (forall b, source !! p = Some b -> f b = false) -> run_of f p p.
Proof. intros Hp. split_and!; [lia| |done]. intros i Hi. lia. Qed.

Lemma run_of_cons f p q b : source !! p = Some b -> f b = true -> run_of f (S p) q -> run_of f p q.
Proof.
  intros Hb Hf (Hle & Hin & Hend). split_and!; [lia| |done]. intros i Hi.
  destruct (decide (i = p)) as [->|]; [by exists b|]. apply Hin. lia.
Qed.

(** Bytes that [f] accepts are ASCII. *)
Definition ascii_only (f : u8 -> bool) : Prop := forall b, f b = true -> (uval b < 0x80)%N.

(** Skipping either ASCII bytes, or up to an ASCII byte. *)
Definition skips_text (f : u8 -> bool) : Prop := ascii_only f \/ ascii_only (fun b => negb (f b)).

Lemma run_between f p q : run_of f p q -> Forall (fun b => f b = true) (between source p q).
Proof.
  intros (Hle & Hin & _). apply list.Forall_forall. intros b [i Hi]%list_elem_of_lookup.
  unfold between in Hi. apply lookup_take_Some in Hi as [Hi Hlt]. rewrite lookup_drop in Hi.
  destruct (Hin (p + i)) as (b' & Hb' & Hf); [lia|]. congruence.
Qed.

(** The position inside a run: every byte from the start on is accepted. *)
Lemma boundary_run f p i : ascii_only f -> boundary p ->
  (forall j, p <= j < i -> exists b, source !! j = Some b /\ f b = true) -> p <= i -> boundary i.
Proof.
  intros Hf Hp Hin Hle. induction i as [|i IH]; [by replace 0 with p by lia|].
  destruct (decide (p = S i)) as [->|]; [done|].
  destruct (Hin i) as (b & Hb & Hfb); [lia|]. eapply at_boundary_ascii; [|done|by apply Hf].
  apply IH; [|lia]. intros j Hj. apply Hin. lia.
Qed.

(** A byte that is not a continuation byte is at a boundary of valid text. *)
Lemma boundary_at_byte i b : valid source -> source !! i = Some b -> is_boundary_byte b = true -> boundary i.
Proof.
  intros Hv. revert i. unfold at_boundary.
  induction Hv as [|cs c r Hs Hr IH] using valid_ind; intros i Hb Hbd; [done|].
  assert (is_Some ((cs ++ r) !! i)) as Hlt%lookup_lt_is_Some by by eexists.
  split; [lia|]. destruct (decide (i < length cs)) as [Hi|Hi].
  - rewrite lookup_app_l in Hb by done. destruct i as [|i]; [by apply valid_app; [eapply valid_seq|]|].
    rewrite (seq_inside _ _ Hs (S i) b) in Hbd; [done|lia|done].
  - rewrite drop_app_ge by lia. rewrite lookup_app_r in Hb by lia. by apply IH.
Qed.

Lemma ascii_boundary_byte b : (uval b < 0x80)%N -> is_boundary_byte b = true.
Proof. intros Hb. unfold is_boundary_byte, cont_in. by rewrite (proj2 (N.leb_gt 0x80 (uval b)) Hb). Qed.

Lemma boundary_at_ascii i b : valid source -> source !! i = Some b -> (uval b < 0x80)%N -> boundary i.
Proof. intros Hv Hb Ha. eapply boundary_at_byte; [done..|]. by apply ascii_boundary_byte. Qed.

Lemma wp_skip_while f (Q : unit -> Lexer -> Prop) s : position s <= length source ->
  (forall q, run_of f (position s) q -> q <= length source -> Q tt (mk_Lexer q (holes s))) ->
  wp (skip_while source f) Q s.
Proof.
  intros Hs HQ. apply (wp_loop _ (fun _ s' => position s <= position s' <= length source /\ holes s' = holes s /\
    forall i, position s <= i < position s' -> exists b, source !! i = Some b /\ f b = true)).
  - split_and!; [lia|done|done|]. intros i Hi. lia.
  - intros _ s' [? _]. lia.
  - intros _ [p h] ([Hle Hp] & Hh & Hin). simpl in *. apply lwp_bind, wp_peek_is. rewrite Nat.add_0_r; simpl.
    destruct (source !! p) as [b|] eqn:Hb; [destruct (f b) eqn:Hf|].
    + apply lwp_bind, wp_advance, lwp_ret. simpl. apply lookup_lt_Some in Hb as ?. split; [|lia].
      split_and!; [lia|lia|done|]. intros i Hi. destruct (decide (i = p)) as [->|]; [by exists b|]. apply Hin. lia.
    + apply lwp_ret. subst h. apply HQ; [|done]. split_and!; [lia|done|]. intros b' Hb'. congruence.
    + apply lwp_ret. subst h. apply HQ; [|done]. split_and!; [lia|done|]. intros b' Hb'. congruence.
Qed.

(** Where a run of text ends there is a character boundary. *)
Lemma run_boundary f p q : valid source -> skips_text f -> boundary p -> q <= length source -> run_of f p q -> boundary q.
Proof.
  intros Hv [Hf|Hf] Hp Hq (Hle & Hin & Hend); [by eapply boundary_run|].
  destruct (source !! q) as [b|] eqn:Hb.
  - eapply boundary_at_ascii; [done..|]. apply Hf. by rewrite (Hend b).
  - apply lookup_ge_None in Hb. replace q with (length source) by lia. apply at_boundary_end.
Qed.
End laws.

#[global] Arguments wp_loop source {E A R} turn I Q a s.

(** A computation that reports nothing does as well where reports are allowed. *)
Lemma wp_quiet E {A} (m : LM A) Q s : wpe quiet m Q s -> wpe E m Q s.
Proof. unfold wpe. by destruct (m s) as [[a|[d| |]] s']. Qed.

(** A diagnostic may only be reported inside the source. *)
Abbreviation wp source := (wpe (reported source)).
