(* ===== verification/LexerScan.v ===== *)
(** * Words, comments, numbers and characters

    What the scanning functions of the lexer do from a character boundary of valid text: where they stop,
    what they read, and that they fail only with a diagnostic inside the source. *)
From Stdlib Require Import Ascii.
From stdpp Require Import strings.
From S2P Require Import Prelude.
From S2P Require Import Wire.
From S2P Require Import Syntax.
From S2P Require Import Utf8.
From S2P Require Import Token.
From S2P Require Import Lexer.
From S2P Require Import LexerLaws.
Local Open Scope nat_scope.
Local Open Scope monad_scope.

(** One primitive of the lexer. *)
Ltac wp_step :=
  lazymatch goal with
  | |- wpe _ (bind _ _) _ _ => apply lwp_bind
  | |- wpe _ (ret _) _ _ => apply lwp_ret
  | |- wpe _ get_position _ _ => apply wp_get_position
  | |- wpe _ (set_position _) _ _ => apply wp_set_position
  | |- wpe _ (advance _) _ _ => apply wp_advance
  | |- wpe _ get_holes _ _ => apply wp_get_holes
  | |- wpe _ (set_holes _) _ _ => apply wp_set_holes
  | |- wpe _ (at_source_end _) _ _ => apply wp_at_source_end
  | |- wpe _ (peek _ _) _ _ => apply wp_peek
  | |- wpe _ (peek_is _ _ _) _ _ => apply wp_peek_is
  end; cbn [position holes].

Ltac wp_steps := repeat wp_step.

(** The condition of an [if]. *)
Ltac wp_if E :=
  lazymatch goal with |- wpe _ (if ?c then _ else _) _ _ => destruct c eqn:E end.

Create HintDb lexer.

Lemma ascii_txt_dec bs : forallb (fun b => (uval b <? 0x80)%N) bs = true -> ascii bs.
Proof.
  induction bs as [|b bs IH]; simpl; intros H; [constructor|]. apply andb_prop in H as [Hb H].
  constructor; [by apply N.ltb_lt|by apply IH].
Qed.

Ltac ascii_txt := apply ascii_txt_dec; vm_compute; reflexivity.

(** The digits of a number are ASCII. *)
Lemma decimal_ascii fuel n digits : ascii digits -> ascii (decimal fuel n digits).
Proof.
  apply digits_of_all; [done|]. intros d Hd. change (ch "0") with 48%N. rewrite byte_of_value; lia.
Qed.

(** Byte classes that hold ASCII only. *)
Ltac byte_class :=
  intros b; unfold is_word_byte, is_ascii_alphanumeric, is_ascii_alphabetic, is_ascii_uppercase, is_ascii_lowercase,
    is_ascii_digit, is_newline, is_char, in_range, NEWLINE, RETURN;
  repeat match goal with |- context [ch ?c] => let v := eval vm_compute in (ch c) in change (ch c) with v end;
  rewrite ?orb_true_iff, ?andb_true_iff, ?negb_true_iff, ?negb_false_iff, ?N.leb_le, ?N.eqb_eq; lia.

Lemma word_ascii : ascii_only is_word_byte.
Proof. byte_class. Qed.

Lemma digit_value radix b v : to_digit radix b = Some v -> (v < radix)%N /\ (uval b < 0x80)%N.
Proof.
  unfold to_digit, in_range. cbv zeta.
  repeat match goal with |- context [ch ?c] => let v := eval vm_compute in (ch c) in change (ch c) with v end.
  match goal with |- match ?value with _ => _ end = _ -> _ => destruct value as [v'|] eqn:E end; [|done].
  destruct (N.ltb_spec v' radix); [|done]. intros [= <-]. split; [done|].
  repeat match type of E with context [if ?c then _ else _] => destruct c eqn:?; try done end; byte_cases; lia.
Qed.

Lemma digit_ascii radix : ascii_only (is_digit radix).
Proof. intros b. unfold is_digit. destruct (to_digit radix b) as [v|] eqn:E; [|done]. intros _. by eapply digit_value. Qed.

(** A digit or a separator. *)
Definition digitish (radix : N) (b : u8) : bool := is_digit radix b || is_char b "_".

Lemma digitish_ascii radix : ascii_only (digitish radix).
Proof.
  intros b [H|H]%orb_prop; [by eapply digit_ascii|]. apply N.eqb_eq in H. rewrite H. done.
Qed.
#[export] Hint Resolve word_ascii digit_ascii digitish_ascii : lexer.

Definition is_exponent (b : u8) : bool := is_char b "e" || is_char b "E".
Definition is_sign (b : u8) : bool := is_char b "+" || is_char b "-".

(** A byte of the digits of a number. *)
Definition number_byte (hexadecimal : bool) (b : u8) : bool :=
  if hexadecimal then is_ascii_hexdigit b || is_char b "x"
  else is_ascii_digit b || is_char b "." || is_exponent b || is_sign b || is_char b "b".

Lemma digit_10 b : is_digit 10 b = is_ascii_digit b.
Proof.
  unfold is_digit, to_digit, is_ascii_digit. cbv zeta. destruct (in_range (ch "0") (ch "9") (uval b)) eqn:E0.
  { unfold in_range in E0. apply andb_prop in E0 as [E0%N.leb_le E9%N.leb_le]. change (ch "0") with 48%N in *. change (ch "9") with 57%N in *.
    destruct (N.ltb_spec (uval b - 48) 10); [done|lia]. }
  destruct (in_range (ch "a") (ch "f") (uval b)) eqn:E1; [|destruct (in_range (ch "A") (ch "F") (uval b)) eqn:E2; [|done]].
  - apply andb_prop in E1 as [E1%N.leb_le _]. change (ch "a") with 97%N in *.
    destruct (N.ltb_spec (uval b - 97 + 10) 10); [lia|done].
  - apply andb_prop in E2 as [E2%N.leb_le _]. change (ch "A") with 65%N in *.
    destruct (N.ltb_spec (uval b - 65 + 10) 10); [lia|done].
Qed.

(** The format spec that a token holds. *)
Definition spec_of (kind : TokenKind) : option FormatSpec :=
  match kind with
  | TokenKind_InterpolationStart piece | TokenKind_InterpolationMiddle piece | TokenKind_InterpolationEnd piece => piece_spec piece
  | _ => None
  end.

(** A kind with no format spec that is not [PathSep], which only
    [mark_paths] makes. *)
Definition plain (kind : TokenKind) : bool :=
  match kind with
  | TokenKind_PathSep => false
  | _ => match spec_of kind with None => true | Some _ => false end
  end.

Lemma forallb_found {A} (f : A -> bool) (P : A -> Prop) `{forall x, Decision (P x)} xs i x :
  forallb f xs = true -> list_find P xs = Some (i, x) -> f x = true.
Proof. intros Hf (Hx & _)%list_find_Some. eapply forallb_elem; [done|]. by eapply list_elem_of_lookup_2. Qed.

Lemma keywords_plain : forallb (fun p => plain p.2) KEYWORDS = true.
Proof. by vm_compute. Qed.

(** ** Block comments *)

Lemma starts_with_lookup prefix (source : list u8) x : starts_with prefix (drop x source) = true <->
  forall i b, prefix !! i = Some b -> source !! (x + i) = Some b.
Proof.
  rewrite starts_with_true. split.
  - intros [r E] i b Hb. rewrite <- lookup_drop, E. by apply lookup_app_l_Some.
  - intros H. exists (drop (length prefix) (drop x source)). rewrite <- (take_drop (length prefix) (drop x source)) at 1. f_equal.
    apply list_eq. intros i. destruct (decide (i < length prefix)) as [Hi|Hi].
    + destruct (lookup_lt_is_Some_2 prefix i Hi) as [b Hb]. rewrite lookup_take_lt by done. by rewrite lookup_drop, Hb, (H i b Hb).
    + rewrite (proj2 (lookup_ge_None prefix i)) by lia. apply lookup_ge_None. rewrite length_take. lia.
Qed.

Lemma starts_with_2 a b (source : list u8) x : starts_with [a; b] (drop x source) = true <->
  source !! x = Some a /\ source !! S x = Some b.
Proof.
  rewrite starts_with_lookup. split.
  - intros H. pose proof (H 0 a eq_refl) as H0. pose proof (H 1 b eq_refl) as H1. rewrite Nat.add_0_r in H0. by rewrite Nat.add_1_r in H1.
  - intros [Ha Hb] [|[|i]] c; simpl; intros [= <-]; [by rewrite Nat.add_0_r|by rewrite Nat.add_1_r].
Qed.

Lemma starts_with_1 a (source : list u8) x : starts_with [a] (drop x source) = true <-> source !! x = Some a.
Proof.
  rewrite starts_with_lookup. split.
  - intros H. pose proof (H 0 a eq_refl) as H0. by rewrite Nat.add_0_r in H0.
  - intros Ha [|i] c; simpl; intros [= <-]. by rewrite Nat.add_0_r.
Qed.

Definition slash : u8 := byte_of 47.
Definition star : u8 := byte_of 42.
(** The text that follows inside [depth] open block comments, up to the end of the outermost one: the pairs open and
    close comments from the left, and any other byte is part of the comment. *)
Inductive closes : nat -> list u8 -> Prop :=
| closes_end : closes 0 []
| closes_open depth text : closes (S (S depth)) text -> closes (S depth) (slash :: star :: text)
| closes_close depth text : closes depth text -> closes (S depth) (star :: slash :: text)
| closes_byte depth b text : starts_with [slash; star] (b :: text) = false -> starts_with [star; slash] (b :: text) = false ->
    closes (S depth) text -> closes (S depth) (b :: text).

Lemma starts_with_pair a b text : starts_with [a; b] (a :: b :: text) = true.
Proof. apply starts_with_true. by exists text. Qed.

Lemma closes_open_inv depth text : closes (S depth) (slash :: star :: text) -> closes (S (S depth)) text.
Proof. inversion 1 as [|d t Ht|d t Ht|d b t Ho]; subst; [done|]. by rewrite starts_with_pair in Ho. Qed.

Lemma closes_close_inv depth text : closes (S depth) (star :: slash :: text) -> closes depth text.
Proof. inversion 1 as [|d t Ht|d t Ht|d b t Ho Hc]; subst; [done|]. by rewrite starts_with_pair in Hc. Qed.

Lemma closes_byte_inv depth text : closes (S depth) text -> starts_with [slash; star] text = false ->
  starts_with [star; slash] text = false -> exists b rest, text = b :: rest /\ closes (S depth) rest.
Proof.
  inversion 1 as [|d t Ht|d t Ht|d b t Ho Hc Ht]; subst; intros Eo Ec.
  - by rewrite starts_with_pair in Eo.
  - by rewrite starts_with_pair in Ec.
  - by exists b, t.
Qed.

Lemma closes_0 text : closes 0 text -> text = [].
Proof. by inversion 1. Qed.

Lemma closes_length depth text : closes depth text -> 2 * depth <= length text.
Proof. induction 1; simpl in *; lia. Qed.

(** One whole block comment, with the comments inside it. *)
Definition block_comment (text : list u8) : Prop := exists rest, text = slash :: star :: rest /\ closes 1 rest.

Section scan.
Context (source : list u8) (Hv : valid source) (edition : Edition) (gated : list (list u8 * Edition)).

Abbreviation boundary := (at_boundary source).
Abbreviation moves := (moves source).
Abbreviation text_at s := (drop (position s) source).

(** The position has moved [n] bytes at least. *)
Definition forward (n : nat) (s s' : Lexer) : Prop := moves s s' /\ position s + n <= position s'.

Lemma forward_boundary n s s' : forward n s s' -> boundary (position s').
Proof. by intros [(_ & ? & _) _]. Qed.

Lemma forward_holes n s s' : forward n s s' -> holes s' = holes s.
Proof. by intros [(_ & _ & ?) _]. Qed.

Lemma forward_le n s s' : forward n s s' -> position s + n <= position s'.
Proof. by intros [_ ?]. Qed.

Lemma forward_to n s q : position s + n <= q -> boundary q -> forward n s (mk_Lexer q (holes s)).
Proof. intros. split; [split_and!; [simpl; lia|done|done]|done]. Qed.

Lemma forward_refl s : boundary (position s) -> forward 0 s s.
Proof. intros. split; [by apply moves_refl|lia]. Qed.

Lemma forward_trans n m s1 s2 s3 : forward n s1 s2 -> forward m s2 s3 -> forward (n + m) s1 s3.
Proof. intros [H1 L1] [H2 L2]. split; [by eapply moves_trans|lia]. Qed.

Lemma forward_weaken n m s s' : forward n s s' -> m <= n -> forward m s s'.
Proof. intros [H L] Hm. split; [done|lia]. Qed.

Lemma forward_next n m s1 s2 s3 : forward n s1 s2 -> forward m s2 s3 -> forward n s1 s3.
Proof. intros H1 H2. eapply forward_weaken; [by eapply forward_trans|lia]. Qed.

Lemma forward_char s c len : char_here source s c len -> forward 1 s (mk_Lexer (position s + len) (holes s)).
Proof. intros Hc. pose proof (here_len _ _ _ _ Hc). apply forward_to; [lia|by apply (here_next _ _ _ _ Hc)]. Qed.

Lemma boundary_le p : boundary p -> p <= length source.
Proof. by intros [? _]. Qed.

(** An ASCII byte at the position. *)
Lemma forward_byte s b : boundary (position s) -> source !! position s = Some b -> (uval b < 0x80)%N ->
  forward 1 s (mk_Lexer (position s + 1) (holes s)).
Proof. intros Hs Hb Ha. apply forward_to; [done|]. rewrite Nat.add_1_r. by eapply at_boundary_ascii. Qed.

Lemma forward_prefix s prefix : boundary (position s) -> starts_with prefix (text_at s) = true -> ascii prefix ->
  forward (length prefix) s (mk_Lexer (position s + length prefix) (holes s)).
Proof. intros Hs Hp Ha. apply forward_to; [done|]. by apply at_boundary_prefix. Qed.

(** The byte at the start of a prefix. *)
Lemma prefix_byte p b prefix : starts_with (b :: prefix) (drop p source) = true -> source !! p = Some b.
Proof. intros [r E]%starts_with_true. rewrite <- (Nat.add_0_r p), <- lookup_drop. by rewrite E. Qed.

(** ** Comments *)

Lemma between_S p q b : source !! p = Some b -> p < q -> between source p q = b :: between source (S p) q.
Proof. intros Hb Hq. unfold between. rewrite (drop_S _ _ _ Hb). by replace (q - p) with (S (q - S p)) by lia. Qed.

Lemma between_pair p q a b : starts_with [a; b] (drop p source) = true -> p + 2 <= q ->
  between source p q = a :: b :: between source (p + 2) q.
Proof.
  intros [Ha Hb]%starts_with_2 Hq. rewrite (between_S p q a Ha), (between_S (S p) q b Hb) by lia.
  by replace (S (S p)) with (p + 2) by lia.
Qed.

Lemma between_starts prefix p q : starts_with prefix (drop p source) = false -> starts_with prefix (between source p q) = false.
Proof.
  intros H. apply not_true_is_false. intros [r E]%starts_with_true. apply not_true_iff_false in H. apply H, starts_with_true.
  exists (r ++ drop (q - p) (drop p source)). unfold between in E. by rewrite app_assoc, <- E, take_drop.
Qed.

(** A block comment in the source. *)
Lemma block_comment_at p q : q <= length source -> block_comment (between source p q) <->
  starts_with [slash; star] (drop p source) = true /\ p + 2 <= q /\ closes 1 (between source (p + 2) q).
Proof.
  intros Hq. split.
  - intros (rest & E & Hc). pose proof (closes_length _ _ Hc) as Hl. pose proof (f_equal length E) as El. simpl in El.
    unfold between in El. rewrite length_take, length_drop in El.
    assert (starts_with [slash; star] (drop p source) = true) as Hs.
    { apply starts_with_true. exists (rest ++ drop (q - p) (drop p source)). rewrite <- (take_drop (q - p) (drop p source)) at 1.
      unfold between in E. by rewrite E. }
    split_and!; [done|lia|]. rewrite (between_pair p q slash star Hs) in E by lia. by injection E as <-.
  - intros (Hs & Hle & Hc). exists (between source (p + 2) q). by rewrite (between_pair p q slash star Hs).
Qed.

(** Neither pair of the comment brackets is at [p]. *)
Definition plain_at (p : nat) : Prop :=
  starts_with [slash; star] (drop p source) = false /\ starts_with [star; slash] (drop p source) = false.

Lemma closes_step depth p q : plain_at p -> q <= length source ->
  p < q /\ closes (S depth) (between source (S p) q) <-> p <= q /\ closes (S depth) (between source p q).
Proof.
  intros [Ho Hc] Hq. split.
  - intros [Hlt Hs]. split; [lia|]. destruct (lookup_lt_is_Some_2 source p) as [b Hb]; [lia|]. pose proof (between_S p q b Hb Hlt) as E.
    apply (between_starts _ p q) in Ho, Hc. rewrite E in *. by constructor.
  - intros [Hle Hs]. destruct (decide (p = q)) as [->|]; [unfold between in Hs; rewrite Nat.sub_diag in Hs; inversion Hs|].
    split; [lia|]. destruct (lookup_lt_is_Some_2 source p) as [b Hb]; [lia|]. pose proof (between_S p q b Hb ltac:(lia)) as E.
    apply (between_starts _ p q) in Ho, Hc. destruct (closes_byte_inv depth _ Hs Ho Hc) as (b' & rest & E' & Hr).
    rewrite E in E'. by injection E' as <- <-.
Qed.

Lemma closes_steps depth n : forall p q, (forall i, i < n -> plain_at (p + i)) -> q <= length source ->
  p + n <= q /\ closes (S depth) (between source (p + n) q) <-> p <= q /\ closes (S depth) (between source p q).
Proof.
  induction n as [|n IH]; intros p q Hp Hq; [by rewrite Nat.add_0_r|].
  rewrite <- (closes_step depth p q); [|rewrite <- (Nat.add_0_r p); apply Hp; lia|done].
  replace (p + S n) with (S p + n) by lia. rewrite <- Nat.le_succ_l. apply IH; [|done].
  intros i Hi. replace (S p + i) with (p + S i) by lia. apply Hp. lia.
Qed.

(** A character that starts neither pair. *)
Lemma char_plain s c len : char_here source s c len -> plain_at (position s) -> forall i, i < len -> plain_at (position s + i).
Proof.
  intros Hc Hp [|i] Hi; [by rewrite Nat.add_0_r|].
  split; apply not_true_is_false; intros [Hb _]%starts_with_2;
    pose proof (here_other _ _ _ _ _ _ Hc (conj (Nat.lt_0_succ i) Hi) Hb) as Hn; by vm_compute in Hn.
Qed.

Lemma comment_spec s : boundary (position s) -> boundary (position s + 2) ->
  wp source (comment source) (fun _ s' => forward 2 s s' /\ closes 1 (between source (position s + 2) (position s'))) s.
Proof.
  intros Hs H2. unfold comment. wp_steps. eapply lwp_mono.
  - apply (wp_loop _ _ (fun depth s' => forward 2 s s' /\ 1 <= depth /\ forall q, position s' <= q <= length source ->
        closes depth (between source (position s') q) -> closes 1 (between source (position s + 2) q))
      (fun closed s' => forward 2 s s' /\ (closed = true -> closes 1 (between source (position s + 2) (position s'))))).
    + split_and!; [by apply forward_to; [lia|]|done|done].
    + intros _ s' [Hs' _]. by eapply boundary_le, forward_boundary.
    + intros depth s' (Hs' & Hd & Hin). pose proof (forward_boundary _ _ _ Hs') as Hb. pose proof (forward_le _ _ _ Hs').
      destruct depth as [|depth]; [lia|].
      unfold comment_turn. wp_steps. destruct (Nat.leb_spec (length source) (position s')) as [|Hlt]; wp_steps; [done|].
      apply wp_rest_starts_with; [done|]. destruct (starts_with (txt "/*") _) eqn:Eo; wp_steps.
      { split; [|simpl; lia]. split_and!; [|lia|].
        - apply (forward_prefix _ (txt "/*")) in Eo; [|done|ascii_txt]. by eapply forward_next.
        - intros q Hq Hc. simpl in Hq. apply Hin; [lia|]. rewrite (between_pair _ _ slash star Eo) by lia. by constructor. }
      apply wp_rest_starts_with; [done|]. destruct (starts_with (txt "*/") _) eqn:Ec; wp_steps.
      { pose proof (fun q => between_pair (position s') q star slash Ec) as Hpair.
        apply (forward_prefix _ (txt "*/")) in Ec; [|done|ascii_txt].
        assert (forward 2 s (mk_Lexer (position s' + 2) (holes s'))) as Hf by (by eapply forward_next).
        pose proof (boundary_le _ (forward_boundary _ _ _ Hf)) as Hle. simpl in Hle.
        cbn [pred]. destruct depth as [|depth]; cbn [Nat.eqb].
        - split; [done|]. intros _. apply Hin; [simpl; lia|]. rewrite Hpair by (simpl; lia). simpl. constructor.
          unfold between. rewrite Nat.sub_diag. constructor.
        - split; [|simpl; lia]. split_and!; [done|lia|]. intros q Hq Hc. simpl in Hq. apply Hin; [lia|].
          rewrite Hpair by lia. by constructor. }
      apply wp_next_char_unwrap; [done..|]. intros c len Hc. wp_steps. pose proof (here_len _ _ _ _ Hc).
      split; [|simpl; lia]. split_and!; [eapply forward_next; [done|by eapply forward_char]|lia|].
      intros q Hq Hcl. simpl in Hq. apply Hin; [lia|].
      apply (closes_steps depth len (position s') q (char_plain _ _ _ Hc (conj Eo Ec))); [lia|]. split; [lia|done].
  - intros closed s' [Hs' Hc]. destruct closed; wp_steps; [by split; [|apply Hc]|].
    apply wp_error; [pose proof (forward_le _ _ _ Hs'); lia|done|by eapply forward_boundary..].
Qed.

(** At a block comment, [comment] reads it and nothing else. *)
Lemma comment_reads p q : boundary p -> boundary (p + 2) -> p + 2 <= q <= length source -> closes 1 (between source (p + 2) q) ->
  comment source (mk_Lexer p []) = (Ok tt, mk_Lexer q []).
Proof.
  intros Hp H2 Hq Hcl.
  assert (wpe quiet (comment source) (fun _ s' => s' = mk_Lexer q []) (mk_Lexer p [])) as Hw.
  { unfold comment. wp_steps. eapply lwp_mono.
    - apply (wp_loop _ _ (fun depth s' => boundary (position s') /\ holes s' = [] /\ 1 <= depth /\ position s' <= q /\
          closes depth (between source (position s') q)) (fun closed s' => closed = true /\ s' = mk_Lexer q [])).
      + by split_and!; [|..|lia|simpl; lia|].
      + intros _ s' [Hb _]. by eapply boundary_le.
      + intros depth s' (Hb & Hh & Hd & Hle & Hc). destruct depth as [|depth]; [lia|].
        unfold comment_turn. wp_steps. destruct (Nat.leb_spec (length source) (position s')) as [Hge|Hlt]; wp_steps.
        { exfalso. replace q with (position s') in Hc by lia. unfold between in Hc. rewrite Nat.sub_diag in Hc. inversion Hc. }
        apply wp_rest_starts_with; [done|]. destruct (starts_with (txt "/*") _) eqn:Eo; wp_steps.
        { pose proof (closes_length _ _ Hc) as Hl. rewrite length_between in Hl by lia. pose proof Eo as Eo'.
          apply (forward_prefix (mk_Lexer (position s') []) (txt "/*")) in Eo'; [|done|ascii_txt].
          rewrite (between_pair _ _ slash star Eo) in Hc by lia. apply closes_open_inv in Hc.
          split; [|simpl; lia]. simpl. split_and!; [apply (forward_boundary _ _ _ Eo')|done|lia|lia|done]. }
        apply wp_rest_starts_with; [done|]. destruct (starts_with (txt "*/") _) eqn:Ec; wp_steps.
        { pose proof (closes_length _ _ Hc) as Hl. rewrite length_between in Hl by lia. pose proof Ec as Ec'.
          apply (forward_prefix (mk_Lexer (position s') []) (txt "*/")) in Ec'; [|done|ascii_txt].
          rewrite (between_pair _ _ star slash Ec) in Hc by lia. apply closes_close_inv in Hc. cbn [pred].
          destruct depth as [|depth]; cbn [Nat.eqb].
          - split; [done|]. rewrite Hh. f_equal. apply closes_0 in Hc. apply (f_equal length) in Hc. rewrite length_between in Hc by lia. simpl in Hc. lia.
          - split; [|simpl; lia]. simpl. split_and!; [apply (forward_boundary _ _ _ Ec')|done|lia|lia|done]. }
        apply wp_next_char_unwrap; [done..|]. intros c len Hch. wp_steps. pose proof (here_len _ _ _ _ Hch).
        pose proof (here_next _ _ _ _ Hch).
        destruct (proj2 (closes_steps depth len (position s') q (char_plain _ _ _ Hch (conj Eo Ec)) ltac:(lia))) as [Hle' Hc']; [by split|].
        split; [|simpl; lia]. by split_and!.
    - intros closed s' [-> ->]. by wp_steps. }
  unfold wpe in Hw. destruct (comment source (mk_Lexer p [])) as [[[]|[d| |]] s']; [by subst|done..].
Qed.

(** ** Words *)

Lemma skip_while_spec E f s : skips_text f -> boundary (position s) ->
  wpe E (skip_while source f)
    (fun _ s' => exists q, s' = mk_Lexer q (holes s) /\ run_of source f (position s) q /\ boundary q) s.
Proof.
  intros Hf Hs. apply wp_skip_while; [by apply boundary_le|]. intros q Hq Hle. exists q. split_and!; [done..|].
  by eapply run_boundary.
Qed.

Lemma run_forward f s q : run_of source f (position s) q -> boundary q -> forward 0 s (mk_Lexer q (holes s)).
Proof. intros (Hle & _) Hq. apply forward_to; [lia|done]. Qed.

Lemma identifier_spec s : boundary (position s) ->
  wp source (identifier source edition gated) (fun kind s' => forward 0 s s' /\
    run_of source is_word_byte (position s) (position s') /\ plain kind = true) s.
Proof.
  intros Hs. unfold identifier. wp_steps. eapply lwp_mono; [apply skip_while_spec; [left; apply word_ascii|done]|].
  intros _ ? (q & -> & Hr & Hq). wp_steps. pose proof (proj1 Hr).
  apply wp_slice; [done..|]. intros t Ht. wp_steps. split; [by apply (run_forward _ _ _ Hr)|]. split; [done|].
  destruct (reserved_in _ _ _); [|done]. destruct (list_find _ KEYWORDS) as [[i [w kind]]|] eqn:E; [|done].
  exact (forallb_found _ _ _ _ _ keywords_plain E).
Qed.

(** ** Digits *)

Definition digit_at (radix : N) (p : nat) : Prop := exists b, source !! p = Some b /\ is_digit radix b = true.

(** A run of digits that starts and ends with one. *)
Definition digit_string (radix : N) (p q : nat) : Prop :=
  run_of source (digitish radix) p q /\ digit_at radix p /\ digit_at radix (q - 1).

Lemma digit_string_lt radix p q : digit_string radix p q -> p < q.
Proof.
  intros [(Hle & _ & Hend) [(b & Hb & Hd) _]]. destruct (decide (p = q)) as [<-|]; [|lia].
  pose proof (Hend b Hb) as Hf. unfold digitish in Hf. by rewrite Hd in Hf.
Qed.

(** The digits read so far, from [start] to the position; [previous] says whether the last byte is a digit. *)
Definition reading (radix : N) (s : Lexer) (previous : bool) (s' : Lexer) : Prop :=
  forward 0 s s' /\
  (forall i, position s <= i < position s' -> exists b, source !! i = Some b /\ digitish radix b = true) /\
  if previous then position s < position s' /\ digit_at radix (position s) /\ digit_at radix (position s' - 1)
  else position s' = position s \/ digit_at radix (position s) /\ digit_at radix (position s').

Lemma reading_next radix s (previous previous' : bool) p b : reading radix s previous (mk_Lexer p (holes s)) ->
  source !! p = Some b -> digitish radix b = true ->
  (if previous' then is_digit radix b = true else previous = true /\ digit_at radix (p + 1)) ->
  reading radix s previous' (mk_Lexer (p + 1) (holes s)) /\ p < p + 1.
Proof.
  intros (Hf & Hin & Hprev) Hb Hd Hnext. split; [|lia]. pose proof (forward_le _ _ _ Hf) as Hle. simpl in *.
  split; [|split].
  - eapply forward_next; [done|]. apply (forward_byte (mk_Lexer p (holes s)) b); [by eapply (forward_boundary _ _ _ Hf)|done|].
    by eapply digitish_ascii.
  - intros i Hi. destruct (decide (i = p)) as [->|]; [by exists b|]. apply Hin. simpl in *. lia.
  - simpl. destruct previous'.
    + split_and!; [lia| |exists b; by rewrite Nat.add_sub]. destruct previous; [apply Hprev|].
      destruct Hprev as [->|[? _]]; [by exists b|done].
    + right. destruct Hnext as [-> ?]. split; [apply Hprev|done].
Qed.

Lemma digits_spec radix s : boundary (position s) ->
  wp source (digits source radix) (fun _ s' => forward 1 s s' /\ digit_string radix (position s) (position s')) s.
Proof.
  intros Hs. unfold digits. wp_steps. eapply lwp_mono.
  - apply (wp_loop _ _ (reading radix s) (fun _ s' => forward 0 s s' /\
      run_of source (digitish radix) (position s) (position s') /\
      (position s < position s' -> digit_string radix (position s) (position s')))).
    + split; [by apply forward_refl|]. split; [|by left]. intros i Hi. lia.
    + intros _ s' [Hs' _]. by eapply boundary_le, forward_boundary.
    + intros previous [p h] Hread. pose proof Hread as (Hf & Hin & Hprev). pose proof (forward_boundary _ _ _ Hf) as Hb.
      pose proof (forward_le _ _ _ Hf) as Hle. pose proof (forward_holes _ _ _ Hf) as Hh. simpl in *. subst h.
      assert ((forall b, source !! p = Some b -> digitish radix b = false) ->
        forward 0 s (mk_Lexer p (holes s)) /\ run_of source (digitish radix) (position s) p /\
        (position s < p -> digit_string radix (position s) p)) as Hstop.
      { intros Hend. assert (run_of source (digitish radix) (position s) p) as Hr by (split_and!; [lia|done|done]).
        split_and!; [done..|]. intros Hlt. split; [done|]. destruct previous; [apply Hprev|].
        destruct Hprev as [->|[_ (b & Eb & Hd)]]; [lia|]. specialize (Hend b Eb). unfold digitish in Hend. by rewrite Hd in Hend. }
      unfold digits_turn. wp_steps. rewrite Nat.add_0_r. destruct (source !! p) as [b|] eqn:Ep; [|wp_steps; by apply Hstop].
      destruct (is_digit radix b) eqn:Hd; wp_steps.
      { apply (reading_next _ _ previous _ _ b); [done|done|by unfold digitish; rewrite Hd|done]. }
      destruct (is_char b "_") eqn:Hu; wp_steps.
      2: { apply Hstop. intros ? [= <-]. unfold digitish. by rewrite Hd, Hu. }
      assert (boundary (p + 1)).
      { rewrite Nat.add_1_r. eapply at_boundary_ascii; [done..|]. apply N.eqb_eq in Hu. by rewrite Hu. }
      wp_if E; wp_steps; [apply wp_error; [lia|done..]|]. apply orb_false_iff in E as [E1%negb_false_iff E2%negb_false_iff].
      apply (reading_next _ _ previous _ _ b); [done|done|unfold digitish; rewrite Hu; by apply orb_true_r|].
      split; [done|]. unfold digit_at. destruct (source !! (p + 1)) as [d|]; [by exists d|done].
  - intros _ s' (Hf & Hr & Hfirst). wp_steps. pose proof (forward_le _ _ _ Hf).
    destruct (Nat.eqb_spec (position s') (position s)) as [E|E].
    { apply wp_error; [done..|]. by eapply forward_boundary. }
    wp_steps. split; [split; [apply Hf|lia]|]. apply Hfirst. lia.
Qed.

(** ** Numbers *)

Definition fraction_shape (p q : nat) (float : bool) : Prop :=
  if float then (exists b, source !! p = Some b /\ is_char b "." = true) /\ digit_string 10 (p + 1) q
  else q = p /\ forall b d, source !! p = Some b -> is_char b "." = true -> source !! (p + 1) = Some d ->
    is_ascii_digit d = false.

Definition exponent_shape (p q : nat) (float : bool) : Prop :=
  if float then (exists b, source !! p = Some b /\ is_exponent b = true) /\
    ((exists b, source !! (p + 1) = Some b /\ is_sign b = true) /\ digit_string 10 (p + 2) q \/
     digit_string 10 (p + 1) q)
  else q = p /\ forall b, source !! p = Some b -> is_exponent b = false.

(** The digits of a number from [p] to [q], its radix and whether it has a fraction or an exponent. *)
Definition number_shape (p q : nat) (radix : N) (float : bool) : Prop :=
  let hexadecimal := starts_with (txt "0x") (drop p source) in
  let binary := starts_with (txt "0b") (drop p source) in
  if hexadecimal then radix = 16%N /\ float = false /\ digit_string 16 (p + 2) q
  else if binary then radix = 2%N /\ float = false /\ digit_string 2 (p + 2) q
  else radix = 10%N /\ exists m1 m2 fraction exponent, digit_string 10 p m1 /\ fraction_shape m1 m2 fraction /\
    exponent_shape m2 q exponent /\ float = fraction || exponent.

(** [digits] after a step. *)
Lemma digits_after n radix s s' Q : forward n s s' ->
  (forall s'', forward n s s'' -> digit_string radix (position s') (position s'') -> Q tt s'') ->
  wp source (digits source radix) Q s'.
Proof.
  intros Hs HQ. eapply lwp_mono; [apply digits_spec; by eapply forward_boundary|].
  intros [] s'' [Hf Hd]. apply HQ; [by eapply forward_next|done].
Qed.

Lemma is_char_ascii b c : is_char b c = true -> (ch c < 0x80)%N -> (uval b < 0x80)%N.
Proof. by intros ->%N.eqb_eq. Qed.

Lemma byte_after n s s' (f : u8 -> bool) : forward n s s' -> ascii_only f ->
  match source !! position s' with Some b => f b | None => false end = true ->
  forward n s (mk_Lexer (position s' + 1) (holes s')).
Proof.
  intros Hs Hf Hb. destruct (source !! position s') as [b|] eqn:E; [|done].
  eapply forward_next; [done|]. eapply forward_byte; [by eapply forward_boundary|done|by apply Hf].
Qed.

Lemma exponent_ascii : ascii_only is_exponent.
Proof. unfold is_exponent. byte_class. Qed.

Lemma sign_ascii : ascii_only is_sign.
Proof. unfold is_sign. byte_class. Qed.

Lemma point_ascii : ascii_only (fun b => is_char b ".").
Proof. byte_class. Qed.

Lemma found_byte (f : u8 -> bool) p : match source !! p with Some b => f b | None => false end = true ->
  exists b, source !! p = Some b /\ f b = true.
Proof. destruct (source !! p) as [b|]; [|done]. by exists b. Qed.

Lemma not_found_byte (f : u8 -> bool) p b : match source !! p with Some b => f b | None => false end = false ->
  source !! p = Some b -> f b = false.
Proof. by intros H E; rewrite E in H. Qed.

Lemma number_digits_spec s : boundary (position s) ->
  wp source (number_digits source) (fun r s' => forward 1 s s' /\ number_shape (position s) (position s') r.1 r.2) s.
Proof.
  intros Hs. unfold number_digits, number_shape. wp_steps. apply wp_rest_starts_with; [done|]. wp_steps.
  apply wp_rest_starts_with; [done|].
  destruct (starts_with (txt "0x") (text_at s)) eqn:Ex; [|destruct (starts_with (txt "0b") (text_at s)) eqn:Eb];
    cbn [negb N.eqb Pos.eqb]; wp_steps.
  { apply (forward_prefix s (txt "0x")) in Ex; [|done|ascii_txt].
    eapply (digits_after 1); [eapply (forward_weaken 2); [exact Ex|lia]|]. intros s' Hf Hd. by wp_steps. }
  { apply (forward_prefix s (txt "0b")) in Eb; [|done|ascii_txt].
    eapply (digits_after 1); [eapply (forward_weaken 2); [exact Eb|lia]|]. intros s' Hf Hd. by wp_steps. }
  eapply lwp_mono; [by apply digits_spec|]. intros [] s1 [Hf1 Hd1]. wp_steps. rewrite Nat.add_0_r.
  set (more := match source !! position s1 with Some b => is_char b "." | None => false end &&
    match source !! (position s1 + 1) with Some b => is_ascii_digit b | None => false end).
  eapply (lwp_mono _ _ (fun fraction s2 => forward 1 s s2 /\ fraction_shape (position s1) (position s2) fraction)).
  { unfold more. destruct (_ && _) eqn:E; wp_steps.
    - apply andb_prop in E as [Ep _]. apply found_byte in Ep as ?.
      eapply digits_after; [exact (byte_after _ _ _ _ Hf1 point_ascii Ep)|]. intros s2 Hf2 Hd2. by wp_steps.
    - split; [done|]. split; [done|]. intros b d Hb Hp Hd. rewrite Hb, Hd, Hp in E. done. }
  intros fraction s2 [Hf2 Hd2]. wp_steps. rewrite Nat.add_0_r.
  destruct (match source !! position s2 with Some b => _ | None => false end) eqn:Ee; wp_steps.
  2: { split; [done|]. split; [done|]. exists (position s1), (position s2), fraction, false.
    split_and!; [done..| |by rewrite orb_false_r]. split; [done|]. intros b Hb. by apply (not_found_byte is_exponent _ b Ee). }
  apply (found_byte is_exponent) in Ee as Ee'. pose proof (byte_after _ _ _ is_exponent Hf2 exponent_ascii Ee) as Hf3.
  assert (forall k s4, k = position s2 + 1 \/
      (exists b, source !! (position s2 + 1) = Some b /\ is_sign b = true) /\ k = position s2 + 2 ->
    forward 1 s s4 -> digit_string 10 k (position s4) -> forward 1 s s4 /\ 10%N = 10%N /\
    exists m1 m2 fraction exponent, digit_string 10 (position s) m1 /\ fraction_shape m1 m2 fraction /\
      exponent_shape m2 (position s4) exponent /\ true = fraction || exponent) as Hend.
  { intros k s4 Hk Hf4 Hd4. split; [done|]. split; [done|]. exists (position s1), (position s2), fraction, true.
    split_and!; [done..| |by rewrite orb_true_r]. split; [done|]. destruct Hk as [<-|[Hb <-]]; [by right|by left]. }
  destruct (match source !! (position s2 + 1 + 0) with Some b => _ | None => false end) eqn:Es; wp_steps.
  - rewrite Nat.add_0_r in Es. pose proof (byte_after _ _ _ is_sign Hf3 sign_ascii Es) as Hf4. simpl in Hf4.
    eapply digits_after; [done|]. intros s4 Hf Hd. wp_steps. apply (Hend (position s2 + 1 + 1)); [|done..]. right.
    split; [by apply found_byte in Es|lia].
  - eapply digits_after; [done|]. intros s4 Hf Hd. wp_steps. apply (Hend (position s2 + 1)); [by left|done..].
Qed.

(** Every byte from [p] to [q] satisfies [P]. *)
Definition range_of (P : u8 -> Prop) (p q : nat) : Prop := p <= q /\ forall i, p <= i < q -> exists b, source !! i = Some b /\ P b.

Lemma range_trans P p q r : range_of P p q -> range_of P q r -> range_of P p r.
Proof. intros [Hp Hpq] [Hq Hqr]. split; [lia|]. intros i Hi. destruct (decide (i < q)); [apply Hpq|apply Hqr]; lia. Qed.

Lemma range_nil P p : range_of P p p.
Proof. split; [done|lia]. Qed.

Lemma range_run (P : u8 -> Prop) f p q : (forall b, f b = true -> P b) -> run_of source f p q -> range_of P p q.
Proof. intros Hf (Hle & Hin & _). split; [done|]. intros i Hi. destruct (Hin i Hi) as (b & Hb & Hfb). exists b. auto. Qed.

Lemma range_byte (P : u8 -> Prop) (f : u8 -> bool) p : (forall b, f b = true -> P b) ->
  (exists b, source !! p = Some b /\ f b = true) -> range_of P p (p + 1).
Proof. intros Hf (b & Hb & Hfb). split; [lia|]. intros i Hi. exists b. replace i with p by lia. auto. Qed.

Lemma range_prefix (P : u8 -> Prop) p prefix : starts_with prefix (drop p source) = true -> Forall P prefix ->
  range_of P p (p + length prefix).
Proof.
  intros [r E]%starts_with_true Ha. split; [lia|]. intros i Hi.
  destruct (lookup_lt_is_Some_2 prefix (i - p)) as [b Hb]; [lia|]. exists b. split.
  - replace i with (p + (i - p)) by lia. rewrite <- lookup_drop, E. by apply lookup_app_l_Some.
  - by apply (Forall_lookup_1 _ _ _ _ Ha Hb).
Qed.

Lemma range_between P p q : range_of P p q -> Forall P (between source p q).
Proof.
  intros [Hle Hin]. apply list.Forall_forall. intros b [i Hi]%list_elem_of_lookup.
  unfold between in Hi. apply lookup_take_Some in Hi as [Hi Hlt]. rewrite lookup_drop in Hi.
  destruct (Hin (p + i)) as (b' & Hb' & Hf); [lia|]. congruence.
Qed.

(** A byte of the spelling of the digits. *)
Definition spelling_byte (hexadecimal : bool) (b : u8) : Prop := number_byte hexadecimal b || is_char b "_" = true.

Lemma digit_string_range (P : u8 -> Prop) radix p q : (forall b, digitish radix b = true -> P b) -> digit_string radix p q -> range_of P p q.
Proof. intros HP [Hr _]. by eapply range_run. Qed.

Lemma digitish_spelling b : digitish 10 b = true -> spelling_byte false b.
Proof. unfold digitish, spelling_byte, number_byte. rewrite digit_10. intros [->| ->]%orb_prop; by rewrite ?orb_true_r. Qed.

Lemma fraction_range p q float : fraction_shape p q float -> range_of (spelling_byte false) p q.
Proof.
  destruct float; simpl; [|intros [-> _]; apply range_nil]. intros [Hp Hd]. eapply range_trans; [eapply range_byte, Hp|].
  - intros b Hb. unfold spelling_byte, number_byte. by rewrite Hb, !orb_true_r.
  - by eapply digit_string_range, Hd; apply digitish_spelling.
Qed.

Lemma exponent_range p q float : exponent_shape p q float -> range_of (spelling_byte false) p q.
Proof.
  destruct float; simpl; [|intros [-> _]; apply range_nil]. intros [He H]. eapply range_trans; [eapply range_byte, He|].
  { intros b Hb. unfold spelling_byte, number_byte. by rewrite Hb, !orb_true_r. }
  destruct H as [[Hs Hd]|Hd]; [|by eapply digit_string_range, Hd; apply digitish_spelling].
  eapply (range_trans _ _ (p + 1 + 1)); [eapply range_byte, Hs|].
  - intros b Hb. unfold spelling_byte, number_byte. by rewrite Hb, !orb_true_r.
  - replace (p + 1 + 1) with (p + 2) by lia. by eapply digit_string_range, Hd; apply digitish_spelling.
Qed.

Lemma number_range p q radix float : number_shape p q radix float -> range_of (spelling_byte (radix =? 16)%N) p q.
Proof.
  unfold number_shape. destruct (starts_with (txt "0x") _) eqn:Ex; [|destruct (starts_with (txt "0b") _) eqn:Eb].
  - intros (-> & _ & Hd). eapply range_trans; [apply (range_prefix _ p (txt "0x")); [done|by repeat constructor]|].
    eapply digit_string_range, Hd. intros b Hb. unfold digitish in Hb. unfold spelling_byte, number_byte, is_ascii_hexdigit. simpl.
    apply orb_prop in Hb as [->| ->]; by rewrite ?orb_true_r.
  - intros (-> & _ & Hd). eapply range_trans; [apply (range_prefix _ p (txt "0b")); [done|by repeat constructor]|].
    eapply digit_string_range, Hd. intros b Hb. apply digitish_spelling. unfold digitish in *. apply orb_prop in Hb as [Hb| ->]; [|by rewrite orb_true_r].
    unfold is_digit in *. destruct (to_digit 2 b) as [v|] eqn:E; [|done]. unfold to_digit in *. cbv zeta in *.
    destruct (in_range (ch "0") (ch "9") (uval b)) eqn:E0; [|destruct (in_range _ _ _) in E; [|destruct (in_range _ _ _) in E]].
    + unfold in_range in E0. apply andb_prop in E0 as [_ E9%N.leb_le]. change (ch "9") with 57%N in E9. change (ch "0") with 48%N.
      destruct (N.ltb_spec (uval b - 48) 10); [done|lia].
    + destruct (N.ltb_spec (uval b - ch "a" + 10) 2); [lia|done].
    + destruct (N.ltb_spec (uval b - ch "A" + 10) 2); [lia|done].
    + done.
  - intros (-> & m1 & m2 & fraction & exponent & Hd & Hf & He & _).
    eapply range_trans; [eapply digit_string_range, Hd; apply digitish_spelling|].
    eapply range_trans; [by eapply fraction_range|by eapply exponent_range].
Qed.

Lemma spelling_ascii hexadecimal b : spelling_byte hexadecimal b -> (uval b < 0x80)%N.
Proof.
  unfold spelling_byte, number_byte. intros [H|H]%orb_prop; [|by apply (is_char_ascii b "_")].
  destruct hexadecimal.
  - apply orb_prop in H as [H|H]; [by apply (digit_ascii 16)|by apply (is_char_ascii b "x")].
  - apply orb_prop in H as [H|H]; [|by apply (is_char_ascii b "b")].
    apply orb_prop in H as [H|H]; [|by apply sign_ascii].
    apply orb_prop in H as [H|H]; [|by apply exponent_ascii].
    apply orb_prop in H as [H|H]; [|by apply (is_char_ascii b ".")].
    apply (digit_ascii 10). by rewrite digit_10.
Qed.

Lemma number_ascii p q radix float : number_shape p q radix float -> ascii (between source p q).
Proof. intros H%number_range%range_between. eapply Forall_impl; [done|]. apply spelling_ascii. Qed.

(** The type name of a suffix; the empty suffix has the empty name. *)
Definition suffix_name (suffix : list u8) : option (list u8) :=
  if bool_decide (suffix = []) then Some [] else suffix_type suffix.

Definition is_float_name (name : list u8) : bool := starts_with (txt "f") name || starts_with (txt "d") name.

(** The token of the number [text] with [suffix]. *)
Definition number_token (text suffix : list u8) (radix : N) (float : bool) (kind : TokenKind) : Prop :=
  exists t : RString,
  if bool_decide (suffix = txt "I") then kind = TokenKind_BigInteger t /\ float = false /\ as_bytes t = without_separators text
  else exists name, suffix_name suffix = Some name /\ as_bytes t = without_separators text ++ name /\
    (radix = 10%N \/ is_float_name name = false) /\
    kind = (if float || is_float_name name then TokenKind_Float t else TokenKind_Integer t).

Lemma without_separators_ascii text : ascii text -> ascii (without_separators text).
Proof.
  unfold ascii. rewrite !list.Forall_forall. intros H b [_ Hb]%list_elem_of_filter. by apply H.
Qed.

Lemma names_ascii : forallb (forallb (fun b => (uval b <? 0x80)%N)) NUMERIC_NAMES = true.
Proof. by vm_compute. Qed.

Lemma shorts_ascii : forallb (fun p => forallb (fun b => (uval b <? 0x80)%N) p.2) SHORT_SUFFIXES = true.
Proof. by vm_compute. Qed.

Lemma suffix_type_from suffix name : suffix_type suffix = Some name ->
  name ∈ NUMERIC_NAMES /\ suffix = name \/ (suffix, name) ∈ SHORT_SUFFIXES.
Proof.
  unfold suffix_type. destruct (list_find (eq suffix) NUMERIC_NAMES) as [[i n]|] eqn:E.
  - intros [= ->]. apply list_find_Some in E as (E & -> & _). left. split; [by eapply list_elem_of_lookup_2|done].
  - intros ([j [s n]] & Ej & ->)%fmap_Some. right. apply list_find_Some in Ej as (Ej & <- & _). by eapply list_elem_of_lookup_2.
Qed.

Lemma suffix_name_ascii suffix name : suffix_name suffix = Some name -> ascii name.
Proof.
  unfold suffix_name. case_bool_decide; [by intros [= <-]; constructor|]. intros [[Hn _]|Hn]%suffix_type_from; apply ascii_txt_dec.
  - by apply (forallb_elem _ _ _ names_ascii).
  - by apply (forallb_elem _ _ (suffix, name) shorts_ascii).
Qed.

Lemma number_spec s : boundary (position s) ->
  wp source (number source) (fun kind s' => forward 1 s s' /\ exists m radix float,
    number_shape (position s) m radix float /\ m <= position s' /\ run_of source is_word_byte m (position s') /\
    number_token (between source (position s) m) (between source m (position s')) radix float kind) s.
Proof.
  intros Hs. unfold number. wp_steps. eapply lwp_mono; [by apply number_digits_spec|].
  intros [radix float] s1 [Hf1 Hn]. simpl in Hn. pose proof (forward_boundary _ _ _ Hf1) as Hb1.
  pose proof (forward_le _ _ _ Hf1). wp_steps. eapply lwp_mono; [apply skip_while_spec; [left; apply word_ascii|done]|].
  intros _ ? (q & -> & Hr & Hq). pose proof (proj1 Hr). wp_steps.
  apply wp_slice_bytes; [done..|]. wp_steps. apply wp_slice_bytes; [done|done|lia|]. cbv zeta.
  set (text := between source (position s) (position s1)). set (suffix := between source (position s1) q).
  assert (ascii (without_separators text)) as Ha.
  { by eapply without_separators_ascii, number_ascii. }
  assert (forall kind, number_token text suffix radix float kind ->
    forward 1 s (mk_Lexer q (holes s1)) /\ exists m radix float, number_shape (position s) m radix float /\ m <= q /\
      run_of source is_word_byte m q /\ number_token (between source (position s) m) (between source m q) radix float kind) as Hend.
  { intros kind Hk. split; [eapply forward_next; [done|by eapply run_forward]|]. by exists (position s1), radix, float. }
  unfold number_token in Hend. case_bool_decide as Es.
  - destruct float; [apply wp_error; [lia|done..]|]. wp_steps. apply wp_to_owned; [by apply ascii_valid|].
    intros t Ht. wp_steps. apply Hend. by exists t.
  - wp_steps. eapply (lwp_mono _ _ (fun name s' => s' = mk_Lexer q (holes s1) /\ suffix_name suffix = Some name)).
    { unfold suffix_name. case_bool_decide; wp_steps; [done|]. destruct (suffix_type suffix); wp_steps; [done|].
      apply wp_error; [lia|done..]. }
    intros name ? [-> Hname]. cbv zeta. fold (is_float_name name). destruct (negb _ && _) eqn:E; [apply wp_error; [lia|done..]|].
    wp_steps. apply wp_to_owned.
    { apply ascii_valid, Forall_app. split; [done|by eapply suffix_name_ascii]. }
    intros t Ht. wp_steps. apply Hend. exists t, name. split_and!; [done..| |done].
    apply andb_false_iff in E as [E|E]; [left|by right]. apply negb_false_iff in E. by apply N.eqb_eq.
Qed.
End scan.
