(* ===== verification/LexerText.v ===== *)
(** * Characters, strings, format specs and suffixes

    The text functions of the lexer from a character boundary of valid text: they move forward, fail only
    with a diagnostic inside the source, and never build a [String] that is not UTF-8. Then what [parse_format_spec]
    accepts, the end of an interpolation hole, and the suffix [B]. *)
From Stdlib Require Import Ascii.
From stdpp Require Import strings.
From S2P Require Import Prelude Wire Syntax Utf8 Token Lexer LexerLaws LexerScan.
Local Open Scope nat_scope.
Local Open Scope monad_scope.

Section text.
Context (source : list u8) (Hv : valid source) (edition : Edition) (gated : list (list u8 * Edition)).

Abbreviation boundary := (at_boundary source).
Abbreviation forward := (forward source).
Abbreviation text_at s := (drop (position s) source).

(** An error whose span starts at a boundary before the position. *)
Lemma wp_fails {A} kind n s s' a (Q : A -> Lexer -> Prop) : forward n s s' -> a <= position s -> boundary a ->
  wp source (let? p := get_position in error kind a p) Q s'.
Proof.
  intros Hf Ha Hb. pose proof (forward_le _ _ _ _ Hf). wp_steps.
  apply wp_error; [lia|done|by eapply forward_boundary..].
Qed.

(** A prefix at the position, if it is there, can be stepped over. *)
Lemma wp_starts n s s' prefix (Q : bool -> Lexer -> Prop) : forward n s s' -> ascii prefix ->
  (forall b, starts_with prefix (text_at s') = b ->
    (b = true -> forward (n + length prefix) s (mk_Lexer (position s' + length prefix) (holes s'))) -> Q b s') ->
  wp source (rest_starts_with source prefix) Q s'.
Proof.
  intros Hf Ha HQ. apply wp_rest_starts_with; [by eapply forward_boundary|]. apply HQ; [done|]. intros Hp.
  eapply forward_trans; [done|]. apply forward_prefix; [by eapply forward_boundary|done..].
Qed.

(** The value of a code point that may be pushed on text of the encoding. *)
Definition pushable (utf8 : bool) (codepoint : u32) : Prop :=
  (uval codepoint <= 0x10FFFF)%N /\ (utf8 = true -> is_scalar (uval codepoint) = true).

Lemma scalar_le c : is_scalar c = true -> (c <= 0x10FFFF)%N.
Proof. intros Hc%scalar_bounds. lia. Qed.

Lemma pushable_scalar utf8 c : is_scalar c = true -> pushable utf8 (uint_wrap 32 c).
Proof.
  intros Hc. pose proof (scalar_le c Hc). unfold pushable. rewrite uval_wrap_small; [done|].
  apply (N.le_lt_trans _ 0x10FFFF); [done|by vm_compute].
Qed.

Lemma unicode_escape_spec utf8 s : boundary (position s) ->
  wp source (unicode_escape source utf8) (fun value s' => forward 0 s s' /\ pushable utf8 value) s.
Proof.
  intros Hs. pose proof (forward_refl source s Hs) as H0. unfold unicode_escape. wp_step.
  apply (wp_starts 0 s); [done|ascii_txt|]. intros braced Eb Hbr. wp_step.
  eapply (lwp_mono _ _ (fun _ s1 => forward 0 s s1)).
  { destruct braced; wp_steps; [by eapply forward_weaken; [apply Hbr|lia]|done]. }
  intros [] s1 Hf1. pose proof (forward_boundary _ _ _ _ Hf1) as Hb1. do 2 wp_step. wp_step.
  eapply (lwp_mono _ _ (fun _ s2 => forward 0 s1 s2)).
  { apply (wp_loop _ _ (fun _ s2 => forward 0 s1 s2)).
    - by apply forward_refl.
    - intros _ s2 Hs2. by eapply boundary_le, forward_boundary.
    - intros [] s2 Hs2. wp_steps. rewrite Nat.add_0_r. destruct (_ && _) eqn:E; wp_steps; [|done].
      apply andb_prop in E as [E _]. split; [|simpl; lia].
      apply (byte_after _ _ _ _ is_ascii_hexdigit Hs2); [|done]. intros b Hb. by eapply digit_ascii. }
  intros [] s2 Hf2. pose proof (forward_boundary _ _ _ _ Hf2) as Hb2. pose proof (forward_le _ _ _ _ Hf2).
  wp_steps. apply wp_slice_bytes; [done|done|lia|]. cbv zeta. wp_step.
  assert (forward 0 s s2) as Hf by by eapply forward_next.
  apply (wp_starts 0 s); [done|ascii_txt|]. intros closes Ec Hcl.
  destruct (from_str_radix_16 _) as [value|]; [|by apply wp_error; [lia|done..]].
  destruct ((uval value <=? 0x10FFFF)%N && _) eqn:Ev; [|by apply wp_error; [lia|done..]].
  wp_if El; [by apply wp_error; [lia|done..]|].
  apply andb_prop in Ev as [Ev1%N.leb_le Ev2]. apply orb_false_iff in El as [_ El].
  assert (pushable utf8 value) as Hp.
  { split; [done|]. intros ->. by apply orb_prop in Ev2 as [?|?]. }
  wp_step. destruct braced; wp_steps; [|done]. destruct closes; [|done]. split; [|done].
  eapply forward_weaken; [by apply Hcl|lia].
Qed.

(** ** Characters *)

Lemma character_escape_spec utf8 start escape n s s' : forward n s s' -> start <= position s -> boundary start ->
  is_scalar escape = true ->
  wp source (character_escape source utf8 start escape) (fun value s'' => forward n s s'') s'.
Proof.
  intros Hf Hle Hb Hc. unfold character_escape. cbv zeta.
  repeat match goal with |- wpe _ (if ?c then ret _ else _) _ _ => destruct c; [by wp_steps|] end.
  wp_step. apply (wp_starts n s); [done|ascii_txt|]. intros brace _ _.
  wp_if E; [|by eapply wp_fails]. wp_steps.
  eapply lwp_mono; [apply unicode_escape_spec; by eapply forward_boundary|]. intros value s2 [Hf2 _]. wp_steps.
  assert (forward n s s2) by by eapply forward_next. destruct (8 <? _); [by eapply wp_fails|by wp_steps].
Qed.

Lemma wp_char n s s' (Q : option (N * nat) -> Lexer -> Prop) : forward n s s' -> Q None s' ->
  (forall c len, is_scalar c = true -> 1 <= len -> forward (n + 1) s (mk_Lexer (position s' + len) (holes s')) ->
    first_char (text_at s') = Some (c, len) -> Q (Some (c, len)) s') -> wp source (next_char source) Q s'.
Proof.
  intros Hf Hn HQ. apply wp_next_char; [by eapply forward_boundary|by intros _|]. intros c len Hc.
  apply HQ; [exact (here_scalar _ _ _ _ Hc)|exact (here_len _ _ _ _ Hc)| |exact (here_first _ _ _ _ Hc)].
  eapply forward_trans; [done|by apply (forward_char _ _ c)].
Qed.

(** The opening quote. *)
Definition quote_at (p : nat) : Prop := exists b, source !! p = Some b /\ (uval b < 0x80)%N.

Lemma step_quote s : boundary (position s) -> quote_at (position s) -> forward 1 s (mk_Lexer (position s + 1) (holes s)).
Proof. intros Hs (b & Hb & Ha). by eapply forward_byte. Qed.

Lemma character_spec utf8 s : boundary (position s) -> quote_at (position s) ->
  wp source (character source utf8) (fun kind s' => forward 1 s s' /\ plain kind = true) s.
Proof.
  intros Hs Hq. pose proof (step_quote s Hs Hq) as H1. unfold character. cbv zeta. wp_steps.
  apply (wp_char 1 s); [done|by eapply wp_fails|]. intros c len Hc Hlen Hf _. wp_steps.
  apply (forward_weaken _ _ 1) in Hf; [|lia].
  eapply (lwp_mono _ _ (fun _ s' => forward 1 s s')).
  { wp_if E; [by eapply wp_fails|]. clear E. destruct (c =? ch "\")%N; wp_steps; [|done].
    apply (wp_char 1 s); [done|by eapply wp_fails|]. intros c' len' Hc' Hlen' Hf' _. wp_steps.
    apply (character_escape_spec _ _ _ 1 s); [|done..]. eapply forward_weaken; [done|lia]. }
  intros value s2 Hf2. wp_steps. apply (wp_starts 1 s); [done|ascii_txt|]. intros closes Ec Hcl.
  wp_if E; [by eapply wp_fails|]. wp_steps. destruct closes; [|done].
  split; [eapply forward_weaken; [by apply Hcl|lia]|by destruct utf8].
Qed.

Lemma char_or_type_variable_spec s : boundary (position s) -> quote_at (position s) ->
  wp source (char_or_type_variable source edition gated) (fun kind s' => forward 1 s s' /\ plain kind = true) s.
Proof.
  intros Hs Hq. pose proof (step_quote s Hs Hq) as H1. pose proof (forward_boundary _ _ _ _ H1) as Hb1.
  unfold char_or_type_variable. wp_steps. destruct (_ && _); wp_steps.
  { apply wp_error; [lia|done..]. }
  destruct (match source !! (position s + 1) with Some b => _ | None => false end); [|by apply character_spec].
  wp_steps. eapply lwp_mono; [by apply identifier_spec|]. intros _ s2 [Hf2 _]. wp_steps.
  assert (forward 1 s s2) as Hf by by eapply forward_next.
  pose proof (forward_boundary _ _ _ _ Hf) as Hb2. pose proof (forward_le _ _ _ _ Hf2). cbn [position] in *.
  apply (wp_starts 1 s); [done|ascii_txt|]. intros closes Ec Hcl. destruct closes; cbn [negb].
  - wp_steps. destruct (Nat.eqb _ 2); cbn [negb]; wp_steps.
    + pose proof (forward_holes _ _ _ _ Hf) as Hh. eapply lwp_mono; [by apply character_spec|].
      intros k s3 Hf3. by destruct s as [p h]; simpl in *; subst.
    + apply wp_error; [lia|done|apply (forward_boundary _ _ _ _ (Hcl eq_refl))..].
  - wp_steps. apply wp_slice; [done|done|lia|]. intros t _. by wp_steps.
Qed.

(** ** Strings *)

Definition is_utf8 (text : StringLiteral) : bool :=
  match text with StringLiteral_Utf8 _ => true | StringLiteral_Utf16 _ => false end.

Lemma push_codepoint_spec utf8 text c s (Q : StringLiteral -> Lexer -> Prop) :
  is_utf8 text = utf8 -> pushable utf8 c -> (forall text', is_utf8 text' = utf8 -> Q text' s) ->
  wp source (push_codepoint text c) Q s.
Proof.
  intros Ht [_ Hc] HQ. destruct text as [units|t]; simpl in Ht; subst; [by apply HQ|].
  unfold push_codepoint. rewrite Hc by done. apply lwp_bind, wp_to_owned; [|intros t' _; by apply HQ].
  apply valid_app; [exact (as_bytes_valid t)|by apply valid_encode, Hc].
Qed.

(** Taking a character. *)
Lemma wp_take {E} n s s' (Q : N * nat -> Lexer -> Prop) : forward n s s' -> position s' < length source ->
  (forall c len, is_scalar c = true -> forward (n + 1) s (mk_Lexer (position s' + len) (holes s')) -> 1 <= len ->
    ((c < 0x80)%N -> len = 1) -> Q (c, len) s') -> wpe E (next_char_unwrap source) Q s'.
Proof.
  intros Hf Hlt HQ. pose proof (forward_boundary _ _ _ _ Hf) as Hb. apply wp_next_char_unwrap; [done..|].
  intros c len Hc. apply HQ; [exact (here_scalar _ _ _ _ Hc)| |exact (here_len _ _ _ _ Hc)|].
  - eapply forward_trans; [done|by apply (forward_char _ _ c)].
  - intros Ha. by destruct (first_char_ascii source (position s') c len Hb (here_first _ _ _ _ Hc) Ha).
Qed.

Lemma string_char_spec c utf8 start n s s' : forward n s s' -> start <= position s -> boundary start -> is_scalar c = true ->
  (c = ch "\" -> boundary (position s' - 1)) ->
  wp source (string_char source c utf8 start)
    (fun o s'' => forward n s s'' /\ match o with Some v => pushable utf8 v | None => True end) s'.
Proof.
  intros Hf Hle Hb Hc Hback. unfold string_char. destruct (N.eqb_spec c (ch "\")) as [Ec|_].
  2: { wp_if E; [by eapply wp_fails|]. wp_steps. split; [done|]. by apply pushable_scalar. }
  wp_step. apply (wp_char n s); [done|by wp_steps|]. intros c' len Hc' Hlen Hf' _.
  apply (forward_weaken _ _ n) in Hf'; [|lia]. wp_steps.
  wp_if E; [wp_steps; split; [done|by apply pushable_scalar]|].
  repeat match goal with |- wpe _ (if ?c then ret _ else _) _ _ =>
    destruct c; [wp_steps; split; [done|by apply pushable_scalar]|] end.
  wp_step. apply (wp_starts n s); [done|ascii_txt|]. intros brace _ _.
  wp_if Eu; wp_steps.
  - eapply lwp_mono; [apply unicode_escape_spec; by eapply (forward_boundary _ _ _ _ Hf')|].
    intros value s2 [Hf2 Hp]. wp_steps. split; [by eapply forward_next|done].
  - apply wp_error; [lia| |by apply (forward_boundary _ _ _ _ Hf')..].
    replace (position s' + len - len - 1) with (position s' - 1) by lia. by apply Hback.
Qed.

Lemma string_turn_spec utf8 start n s text s' : forward n s s' -> start <= position s -> boundary start -> is_utf8 text = utf8 ->
  wp source (string_turn source utf8 start text) (fun x s'' => forward n s s'' /\
    match x with
    | inl text => is_utf8 text = utf8 /\ position s' < position s''
    | inr (Some text) => is_utf8 text = utf8
    | inr None => True
    end) s'.
Proof.
  intros Hf Hle Hb Ht. unfold string_turn. wp_steps.
  destruct (Nat.leb_spec (length source) (position s')) as [|Hlt]; wp_steps; [done|].
  apply (wp_take n s); [done..|]. intros c len Hc Hf' Hlen Ha.
  apply (forward_weaken _ _ n) in Hf' as Hf2; [|lia]. wp_steps.
  destruct (c =? 34)%N; wp_steps; [done|]. eapply lwp_mono.
  - apply (string_char_spec c utf8 start 0 (mk_Lexer (position s' + len) (holes s'))).
    + apply forward_refl. by eapply forward_boundary.
    + pose proof (forward_le _ _ _ _ Hf). simpl. lia.
    + done.
    + done.
    + intros ->. rewrite Ha by (by vm_compute). simpl. rewrite Nat.add_sub. by eapply forward_boundary.
  - intros [v|] s2 [Hf3 Hp]; wp_steps; [|split; [by eapply forward_next|done]].
    apply (push_codepoint_spec utf8); [done..|]. intros text' Ht'. wp_steps. split; [by eapply forward_next|].
    split; [done|]. pose proof (forward_le _ _ _ _ Hf3). simpl in *. lia.
Qed.

Lemma empty_utf8 utf8 : is_utf8 (empty_literal utf8) = utf8.
Proof. by destruct utf8. Qed.

Lemma wp_unterminated {A} n s s' start (Q : A -> Lexer -> Prop) : forward n s s' -> start <= position s -> boundary start ->
  wp source (unterminated start) Q s'.
Proof. apply wp_fails. Qed.

Lemma string_spec utf8 s : boundary (position s) -> quote_at (position s) ->
  wp source (string_ source utf8) (fun kind s' => forward 1 s s' /\
    exists text, kind = TokenKind_String text /\ is_utf8 text = utf8) s.
Proof.
  intros Hs Hq. pose proof (step_quote s Hs Hq) as H1. unfold string_. wp_steps. eapply lwp_mono.
  - apply (wp_loop _ _ (fun text s' => forward 1 s s' /\ is_utf8 text = utf8)
      (fun o s' => forward 1 s s' /\ match o with Some text => is_utf8 text = utf8 | None => True end)).
    + split; [done|apply empty_utf8].
    + intros _ s' [Hs' _]. by eapply boundary_le, forward_boundary.
    + intros text s' [Hf Ht]. eapply lwp_mono; [by apply (string_turn_spec _ _ 1 s)|].
      intros [text'|o] s2 [Hf2 Hx]; [destruct Hx; done|]. by destruct o.
  - intros [text|] s' [Hf Ht]; [|by eapply wp_unterminated]. wp_steps. split; [done|]. by exists text.
Qed.

(** ** Interpolated strings *)

(** A text ended: after an opening brace, the brace is one byte before the position. *)
Definition text_end (utf8 : bool) (s : Lexer) (o : option (StringLiteral * TextEnd)) : Prop :=
  match o with
  | Some (text, TextEnd_Hole) => is_utf8 text = utf8 /\ boundary (position s - 1)
  | Some (text, TextEnd_Quote) => is_utf8 text = utf8
  | None => True
  end.

Lemma interpolated_turn_spec utf8 start n s text s' : forward n s s' -> start <= position s -> boundary start -> is_utf8 text = utf8 ->
  wp source (interpolated_turn source utf8 start text) (fun x s'' => forward n s s'' /\
    match x with
    | inl text => is_utf8 text = utf8 /\ position s' < position s''
    | inr o => text_end utf8 s'' o
    end) s'.
Proof.
  intros Hf Hle Hb Ht. unfold interpolated_turn. wp_steps.
  destruct (Nat.leb_spec (length source) (position s')) as [|Hlt]; wp_steps; [done|].
  apply (wp_take n s); [done..|]. intros c len Hc Hf' Hlen Ha. cbv zeta.
  apply (forward_weaken _ _ n) in Hf' as Hf2; [|lia]. wp_step.
  assert (Hpush : forall s2 codepoint, forward n s s2 -> position s' < position s2 -> pushable utf8 codepoint ->
    wp source (let? text := push_codepoint text codepoint in ret (inl text)) (fun x s'' => forward n s s'' /\
      match x with
      | inl text => is_utf8 text = utf8 /\ position s' < position s''
      | inr o => text_end utf8 s'' o
      end) s2).
  { intros s2 v Hs2 Hl2 Hp. wp_step. apply (push_codepoint_spec utf8); [done..|]. intros text' Ht'. by wp_steps. }
  wp_step. destruct (c =? 34)%N; wp_steps; [done|].
  assert (forall a, c = ch a -> (ch a < 0x80)%N -> len = 1 /\ boundary (position s' + len - 1)) as Hone.
  { intros a -> Hlt'. rewrite Ha by done. rewrite Nat.add_sub. split; [done|by eapply forward_boundary]. }
  destruct (N.eqb_spec c (ch "{")) as [Ec|_].
  { destruct (Hone "{"%char Ec) as [-> Hb1]; [by vm_compute|]. wp_step. apply (wp_starts n s); [done|ascii_txt|].
    intros again _ Hag. destruct again; [|wp_steps; by split]. do 2 wp_step. apply Hpush; [|simpl; lia|by apply pushable_scalar].
    eapply forward_weaken; [by apply Hag|lia]. }
  destruct (N.eqb_spec c (ch "}")) as [Ec|_].
  { destruct (Hone "}"%char Ec) as [-> Hb1]; [by vm_compute|]. wp_step. apply (wp_starts n s); [done|ascii_txt|].
    intros again _ Hag. destruct again; [do 2 wp_step|wp_steps].
    - apply Hpush; [|simpl; lia|by apply pushable_scalar]. eapply forward_weaken; [by apply Hag|lia].
    - apply wp_error; [lia|done|by apply (forward_boundary _ _ _ _ Hf2)..]. }
  wp_step. eapply lwp_mono.
  - apply (string_char_spec c utf8 start 0 (mk_Lexer (position s' + len) (holes s'))).
    + apply forward_refl. by apply (forward_boundary _ _ _ _ Hf2).
    + pose proof (forward_le _ _ _ _ Hf). simpl. lia.
    + done.
    + done.
    + intros Ec. by apply (Hone "\"%char Ec).
  - intros [v|] s2 [Hf3 Hp]; [|wp_steps; split; [by eapply forward_next|done]].
    apply Hpush; [by eapply forward_next| |done]. pose proof (forward_le _ _ _ _ Hf3). simpl in *. lia.
Qed.

Lemma interpolated_text_spec utf8 start n s s' : forward n s s' -> start <= position s -> boundary start ->
  wp source (interpolated_text source utf8 start) (fun x s'' => forward n s s'' /\ text_end utf8 s'' (Some x)) s'.
Proof.
  intros Hf Hle Hb. unfold interpolated_text. wp_step. eapply lwp_mono.
  - apply (wp_loop _ _ (fun text s' => forward n s s' /\ is_utf8 text = utf8)
      (fun o s' => forward n s s' /\ text_end utf8 s' o)).
    + split; [done|apply empty_utf8].
    + intros _ s2 [Hs2 _]. by eapply boundary_le, forward_boundary.
    + intros text s2 [Hf2 Ht]. eapply lwp_mono; [by apply (interpolated_turn_spec _ _ n s)|].
      intros [text'|o] s3 [Hf3 Hx]; [destruct Hx; done|done].
  - intros [x|] s2 [Hf2 Hx]; [|by eapply wp_unterminated]. by wp_steps.
Qed.
End text.

(** ** Characters of a text *)

Lemma chars_seq fuel cs c r : char_seq cs c -> chars (S fuel) (cs ++ r) = c :: chars fuel r.
Proof. intros Hs. cbn [chars]. by rewrite (seq_first _ _ Hs), drop_app_length. Qed.

(** The characters are scalars, and their encodings make up the text. *)
Lemma chars_valid text : valid text -> forall fuel, length text <= fuel ->
  Forall (fun c => is_scalar c = true) (chars fuel text) /\ concat (encode_utf8 <$> chars fuel text) = text.
Proof.
  intros Hv. induction Hv as [|cs c r Hs Hr IH] using valid_ind; intros fuel Hf.
  { destruct fuel; by split. }
  rewrite length_app in Hf. pose proof (seq_length _ _ Hs).
  destruct fuel as [|fuel]; [lia|]. rewrite (chars_seq _ _ _ _ Hs). destruct (IH fuel) as [H1 H2]; [lia|].
  split; [constructor; [by apply (seq_scalar _ _ Hs)|done]|]. rewrite fmap_cons. cbn [concat]. by rewrite (seq_encode _ _ Hs), H2.
Qed.

Lemma chars_scalar text c i : valid text -> chars (length text) text !! i = Some c -> is_scalar c = true.
Proof. intros Hv Hc. destruct (chars_valid text Hv (length text)) as [H _]; [done|]. by apply (Forall_lookup_1 _ _ _ _ H Hc). Qed.

Lemma chars_nonempty text : valid text -> text <> [] -> exists c, chars (length text) text !! 0 = Some c.
Proof.
  intros Hv Hne. destruct (chars_valid text Hv (length text)) as [_ H]; [done|].
  destruct (chars (length text) text) as [|c cs]; [by simpl in H|]. by exists c.
Qed.

Lemma from_u32_scalar c : is_scalar c = true -> exists x, from_u32 (uint_wrap 32 c) = Some x /\ uval (char_u32 x) = c.
Proof.
  intros Hc. pose proof (scalar_le c Hc). assert (uval (uint_wrap 32 c) = c) as E.
  { apply uval_wrap_small, (N.le_lt_trans _ 0x10FFFF); [done|by vm_compute]. }
  assert (is_scalar (uval (uint_wrap 32 c)) = true) as Hs by by rewrite E.
  exists (mk_char (uint_wrap 32 c) Hs). split; [by apply from_u32_Some|done].
Qed.

(** ** Format specs *)

Definition spec_fill_ok (c : N) : Prop := c ∉ [ch "{"; ch "}"; 34%N; ch "\"; RETURN; NEWLINE].

Definition spec_precision_ok (kind : option FormatKind) (precision : option u16) : Prop :=
  match kind with
  | Some (FormatKind_LowerHex | FormatKind_UpperHex | FormatKind_Octal | FormatKind_Binary) => precision = None
  | Some (FormatKind_Exponent | FormatKind_Fixed) => precision <> None
  | None => True
  end.

(** What the lexer guarantees of a format spec. *)
Record spec_ok (spec : FormatSpec) : Prop := mk_spec_ok {
  ok_fill : spec_fill_ok (uval (char_u32 (FormatSpec_fill spec)));
  ok_no_align : FormatSpec_align spec = None -> uval (char_u32 (FormatSpec_fill spec)) = 32%N;
  ok_width : (uval (FormatSpec_width spec) <= MAX_FORMAT_FIELD)%N;
  ok_precision p : FormatSpec_precision spec = Some p -> (uval p <= MAX_FORMAT_FIELD)%N;
  ok_kind : spec_precision_ok (FormatSpec_kind spec) (FormatSpec_precision spec) }.

Section spec.
Context (source : list u8) (Hv : valid source) (edition : Edition) (gated : list (list u8 * Edition)).

Abbreviation boundary := (at_boundary source).
Abbreviation forward := (forward source).
Abbreviation text_at s := (drop (position s) source).

Lemma wp_spec_number (E : Diagnostic -> Lexer -> Prop) fails chars index zero s (Q : nat * option u16 -> Lexer -> Prop) :
  (forall A (R : A -> Lexer -> Prop), wpe E (fails A) R s) ->
  (forall index' v, match v with Some v => (uval v <= MAX_FORMAT_FIELD)%N | None => True end -> Q (index', v) s) ->
  wpe E (spec_number fails chars index zero) Q s.
Proof.
  intros Hfail HQ. unfold spec_number. cbv zeta. wp_if Ez; [wp_steps; by apply HQ|]. wp_if El; [done|].
  destruct (uint_try _) as [v|]; [|done]. destruct (N.ltb_spec MAX_FORMAT_FIELD (uval v)); [done|]. wp_steps. by apply HQ.
Qed.

Lemma space_fill_ok : spec_fill_ok 32.
Proof. unfold spec_fill_ok. apply (bool_decide_unpack _). by vm_compute. Qed.

Lemma spec_align_spec (E : Diagnostic -> Lexer -> Prop) malformed text s : valid text -> text <> [] ->
  (forall A (R : A -> Lexer -> Prop), wpe E (malformed A) R s) ->
  wpe E (spec_align malformed (chars (length text) text)) (fun r s' => s' = s /\ is_scalar r.1.1 = true /\
    spec_fill_ok r.1.1 /\ (r.1.2 = None -> r.1.1 = 32%N)) s.
Proof.
  intros Ht Hne Hfail. destruct (chars_nonempty text Ht Hne) as [c Hc]. unfold spec_align. rewrite Hc. cbn [ok_or].
  destruct (_ ≫= align_of) as [found|].
  - wp_steps. wp_if Ez; [done|]. wp_steps. simpl. split_and!; [done|by eapply chars_scalar| |done].
    by apply bool_decide_eq_false_1 in Ez.
  - wp_steps. destruct (align_of c); wp_steps; simpl; (split_and!; [done..|apply space_fill_ok|done]).
Qed.

(** The result of [parse_format_spec]. *)
Definition parsed (text : list u8) (span : Span) (o : option FormatSpec) : Prop :=
  match o with
  | Some spec => spec_ok spec /\ FormatSpec_span spec = span
  | None => text = []
  end.

Lemma parse_format_spec_spec (E : Diagnostic -> Lexer -> Prop) text start end_ s : valid text ->
  (forall kind, E (mk_Diagnostic kind (Span_new start end_)) s) ->
  wpe E (parse_format_spec text start end_) (fun o s' => s' = s /\ parsed text (Span_new start end_) o) s.
Proof.
  intros Ht He. unfold parse_format_spec. case_bool_decide as Hne; [by wp_steps|]. cbv zeta.
  assert (forall A kind (R : A -> Lexer -> Prop), wpe E (error kind start end_) R s) as Hfail.
  { intros A kind R. apply He. }
  wp_step. eapply lwp_mono; [by apply spec_align_spec|]. intros [[fill align] index] ? (-> & Hsc & Hfill & Hspace).
  simpl in Hsc, Hfill, Hspace. wp_step. apply wp_spec_number; [done|]. intros index' width Hw. wp_step.
  eapply (lwp_mono _ _ (fun r s' => s' = s /\ match r.2 with Some v => (uval v <= MAX_FORMAT_FIELD)%N | None => True end)).
  { wp_if Ep; wp_steps; [|done]. apply wp_spec_number; [done|]. intros i [v|] Hv'; [|done]. by wp_steps. }
  intros [index2 precision] ? [-> Hprec]. simpl in Hprec. wp_step.
  eapply (lwp_mono _ _ (fun _ s' => s' = s)).
  { destruct (chars _ _ !! index2) as [c|]; [|by wp_steps]. destruct (format_kind_of c); [by wp_steps|done]. }
  intros [index3 kind] ? ->. wp_if El; [done|].
  destruct (from_u32_scalar fill Hsc) as (x & Hx & Exf).
  assert (spec_precision_ok kind precision -> wpe E (let? fill := ok_or (from_u32 (uint_wrap 32 fill)) Panic in
    ret (Some (mk_FormatSpec fill align (is_char_at (chars (length text) text) index (ch "+"))
      (default (uint_wrap 16 0) width) precision kind (Span_new start end_))))
    (fun o s' => s' = s /\ parsed text (Span_new start end_) o) s) as Hend.
  { intros Hk. rewrite Hx. cbn [ok_or]. wp_steps. split; [done|]. split; [|done].
    split; cbn [FormatSpec_fill FormatSpec_align FormatSpec_width FormatSpec_precision FormatSpec_kind].
    - by rewrite Exf.
    - by rewrite Exf.
    - destruct width; [done|by vm_compute].
    - by intros p ->.
    - done. }
  destruct kind as [[]|], precision as [v|]; try done; by apply Hend.
Qed.

Lemma is_char_boundary_after i b : source !! i = Some b -> (uval b < 0x80)%N -> boundary i /\ boundary (i + 1).
Proof.
  intros Hb Ha. assert (boundary i) by by eapply boundary_at_ascii. split; [done|]. rewrite Nat.add_1_r. by eapply at_boundary_ascii.
Qed.

Lemma spec_end_ascii : ascii_only spec_end.
Proof. unfold spec_end. byte_class. Qed.

Lemma format_spec_spec opened n s s' : forward n s s' -> boundary (position s' + 1) -> opened <= position s' -> boundary opened ->
  wp source (format_spec source opened) (fun o s'' => forward n s s'' /\ position s' < position s'' /\
    forall spec, o = Some spec -> spec_ok spec) s'.
Proof.
  intros Hf Hb1 Hle Hbo. unfold format_spec. wp_steps. apply wp_slice_from; [done|].
  destruct (list_find _ _) as [[i b]|] eqn:E.
  2: { apply wp_error; [lia|done|done|by eapply forward_boundary]. }
  destruct (is_char b "}") eqn:Ec.
  2: { apply wp_error; [lia|done|done|by eapply forward_boundary]. }
  apply list_find_Some in E as (Eb & Hend & _). rewrite lookup_drop in Eb.
  destruct (is_char_boundary_after _ _ Eb (spec_end_ascii _ Hend)) as [Hb2 Hb3]. wp_step.
  apply wp_slice_bytes; [done|done|lia|]. wp_step. eapply lwp_mono.
  - apply parse_format_spec_spec; [apply valid_between; [done..|lia]|]. intros kind.
    apply (wp_error source kind _ _ (fun (_ : unit) _ => False)); [lia|done|done|by eapply forward_boundary].
  - intros o ? [-> Ho]. wp_steps. split; [|split; [lia|]].
    2: { intros spec ->. apply Ho. }
    eapply forward_next; [done|]. apply (forward_to _ 0); [lia|done].
Qed.
End spec.
