(* ===== verification/LexerTokens.v ===== *)
(** * Tokens and the loop over the source

    [token] moves forward and gives a token over the bytes it read, or nothing over white space or a comment;
    recovery moves past the error; so [tokens] ends, with tokens in order. *)
From Stdlib Require Import Ascii.
From stdpp Require Import strings.
From S2P Require Import Prelude.
From S2P Require Import Wire.
From S2P Require Import Syntax.
From S2P Require Import Utf8.
From S2P Require Import Token.
From S2P Require Import Lexer.
From S2P Require Import LexerLaws.
From S2P Require Import LexerScan.
From S2P Require Import LexerText.
Local Open Scope nat_scope.
Local Open Scope monad_scope.

Lemma long_symbols_ok : forallb (fun p => forallb (fun b => (uval b <? 0x80)%N) p.1 && (1 <=? length p.1) && plain p.2) LONG_SYMBOLS = true.
Proof. by vm_compute. Qed.

Lemma short_symbols_ok : forallb (fun p => plain p.2) SHORT_SYMBOLS = true.
Proof. by vm_compute. Qed.

Section tokens.
Context (source : list u8) (Hv : valid source) (edition : Edition) (gated : list (list u8 * Edition)).

Abbreviation boundary := (at_boundary source).
Abbreviation forward := (forward source).
Abbreviation text_at s := (drop (position s) source).

(** The holes start at boundaries before [p]. *)
Definition holes_ok (p : nat) (open : list OpenHole) : Prop :=
  Forall (fun hole => boundary (hole_start hole) /\ hole_start hole <= p) open.

(** A well-formed state of the lexer. *)
Definition ok (s : Lexer) : Prop := boundary (position s) /\ holes_ok (position s) (holes s).

(** The state moves on to a well-formed state. *)
Definition steps (s s' : Lexer) : Prop := position s < position s' /\ ok s'.

Lemma holes_ok_le p q open : holes_ok p open -> p <= q -> holes_ok q open.
Proof. intros H Hle. eapply Forall_impl; [done|]. intros hole [? ?]. split; [done|lia]. Qed.

Lemma ok_forward n s s' : ok s -> forward n s s' -> ok s'.
Proof.
  intros [_ Hh] Hf. split; [by eapply forward_boundary|]. rewrite (forward_holes _ _ _ _ Hf).
  eapply holes_ok_le; [done|]. pose proof (forward_le _ _ _ _ Hf). lia.
Qed.

Lemma steps_forward n s s' : ok s -> forward (S n) s s' -> steps s s'.
Proof. intros Hok Hf. split; [|by eapply ok_forward]. pose proof (forward_le _ _ _ _ Hf). lia. Qed.

(** ** The suffix [B] *)

Lemma at_byte_suffix_spec n s s' (Q : bool -> Lexer -> Prop) : forward n s s' ->
  (forall b, (b = true -> forward n s (mk_Lexer (position s' + 1) (holes s'))) -> Q b s') ->
  wp source (at_byte_suffix source) Q s'.
Proof.
  intros Hf HQ. unfold at_byte_suffix. wp_steps. apply HQ. rewrite Nat.add_0_r. intros [Hb _]%andb_prop.
  apply (byte_after _ _ _ _ (fun b => is_char b "B") Hf); [byte_class|done].
Qed.

Lemma byte_suffix_spec kind start n s s' : forward n s s' -> start <= position s -> boundary start ->
  plain kind = true ->
  wp source (byte_suffix source kind start) (fun kind s'' => forward n s s'' /\ plain kind = true) s'.
Proof.
  intros Hf Hle Hb Hk. unfold byte_suffix. wp_step. apply (at_byte_suffix_spec n s); [done|]. intros suffix Hs.
  destruct suffix; cbn [negb]; [|by wp_steps]. specialize (Hs eq_refl). pose proof (forward_le _ _ _ _ Hs) as Hl.
  pose proof (forward_boundary _ _ _ _ Hs) as Hb'. simpl in Hl, Hb'. wp_steps.
  destruct kind; try (by apply wp_error; [lia|done..]).
  - destruct literal as [units|t]; [|by wp_steps]. wp_if E; [by wp_steps|by apply wp_error; [lia|done..]].
  - wp_if E; [|by apply wp_error; [lia|done..]]. wp_step. apply wp_to_owned; [|intros t _; by wp_steps].
    apply ascii_valid, Forall_app. split; [apply decimal_ascii; constructor|ascii_txt].
Qed.

(** [no_byte_suffix] checks a token whose first byte is at [start]. *)
Lemma no_byte_suffix_spec kind start s : ok s -> start <= position s -> boundary start ->
  wp source (no_byte_suffix source kind start) (fun kind' s' => s' = s /\ kind' = kind) s.
Proof.
  intros Hok Hle Hb. unfold no_byte_suffix. wp_step. apply (at_byte_suffix_spec 0 s); [apply forward_refl, Hok|].
  intros suffix Hs. destruct suffix; wp_steps; [|done]. specialize (Hs eq_refl).
  apply wp_error; [lia|done|by apply (forward_boundary _ _ _ _ Hs)..].
Qed.

(** ** Holes *)

Lemma interpolated_spec utf8 start s : ok s -> quote_at source (position s) -> start <= position s -> boundary start ->
  wp source (interpolated source utf8 start) (fun kind s' => steps s s' /\ plain kind = true) s.
Proof.
  intros Hok Hq Hle Hb. destruct Hok as [Hs Hh]. pose proof (step_quote source s Hs Hq) as H1.
  unfold interpolated. wp_steps.
  eapply lwp_mono; [by apply (interpolated_text_spec source utf8 start 1 s)|].
  intros [text end_] s' [Hf Hx]. pose proof (ok_forward _ _ _ (conj Hs Hh) Hf) as Hok'.
  pose proof (forward_le _ _ _ _ Hf). destruct end_; wp_steps; [split; [split; [lia|done]|done]|].
  split; [|done]. split; [simpl; lia|]. destruct Hok' as [Hb' Hh']. split; [done|]. constructor; [|done].
  simpl. destruct Hx as [_ Hx]. split; [done|lia].
Qed.

(** What [token] guarantees of a kind. *)
Definition kind_ok (kind : TokenKind) : Prop :=
  kind <> TokenKind_PathSep /\ forall spec, spec_of kind = Some spec -> spec_ok spec.

Lemma plain_ok kind : plain kind = true -> kind_ok kind.
Proof.
  intros E. split; [by intros ->|]. intros spec Hs. unfold plain in E. rewrite Hs in E. by destruct kind.
Qed.

Lemma hole_end_spec hole open s : ok s -> holes s = hole :: open -> quote_at source (position s) ->
  wp source (hole_end source (position s)) (fun kind s' => steps s s' /\ kind_ok kind) s.
Proof.
  intros Hok Eh Hq. destruct Hok as [Hs Hh]. pose proof (step_quote source s Hs Hq) as H1.
  pose proof Hh as Hh0. rewrite Eh in Hh0. apply Forall_cons_1 in Hh0 as [[Hb0 Hl0] _].
  unfold hole_end. wp_step. wp_step. rewrite Eh. cbn [head ok_or]. wp_steps.
  apply (wp_starts source 0 s); [by apply forward_refl|ascii_txt|]. intros colon _ _. wp_step.
  eapply (lwp_mono _ _ (fun o s' => forward 1 s s' /\ forall spec, o = Some spec -> spec_ok spec)).
  { destruct colon; wp_steps; [|done]. eapply lwp_mono.
    - apply (format_spec_spec source Hv _ 0 s); [by apply forward_refl|by apply (forward_boundary _ _ _ _ H1)|done|done].
    - intros o s' (Hf & Hlt & Ho). split; [|done]. destruct Hf as [Hm _]. split; [done|lia]. }
  intros spec s1 [Hf1 Hspec]. wp_step.
  eapply lwp_mono; [by apply (interpolated_text_spec source (hole_utf8 hole) (position s) 1 s)|].
  intros [text end_] s2 [Hf2 Hx]. pose proof (ok_forward _ _ _ (conj Hs Hh) Hf2) as [Hb2 Hh2].
  pose proof (forward_le _ _ _ _ Hf2). assert (holes_ok (position s2) open) as Hopen.
  { rewrite (forward_holes _ _ _ _ Hf2), Eh in Hh2. by apply Forall_cons_1 in Hh2 as [_ ?]. }
  destruct end_; wp_steps; (split; [split; [simpl; lia|]|done]); (split; [done|]); [done|].
  constructor; [|done]. simpl. destruct Hx as [_ Hx]. split; [done|lia].
Qed.

(** ** Symbols and literals *)

Lemma symbol_spec s : boundary (position s) -> position s < length source ->
  wp source (symbol source) (fun kind s' => forward 1 s s' /\ plain kind = true) s.
Proof.
  intros Hs Hlt. unfold symbol. wp_step. apply wp_rest; [done|]. destruct (starts_with (txt ">=>") _) eqn:Eg.
  { wp_steps. split; [|done]. eapply forward_byte; [done|exact (prefix_byte source _ (byte_of 62) (txt "=>") Eg)|by vm_compute]. }
  destruct (list_find _ LONG_SYMBOLS) as [[i [long kind]]|] eqn:El.
  { wp_steps. pose proof (forallb_found _ _ _ _ _ long_symbols_ok El) as Ho. cbn [fst snd] in Ho.
    apply andb_prop in Ho as [Ho Hn]. apply andb_prop in Ho as [Ha Hl%Nat.leb_le].
    apply list_find_Some in El as (_ & Hp & _). split; [|done].
    eapply forward_weaken; [apply (forward_prefix source s long); [done|exact Hp|by apply ascii_txt_dec]|done]. }
  wp_step. apply (wp_take source 0 s); [by apply forward_refl|done|]. intros c len Hc Hf _ _.
  destruct (list_find _ SHORT_SYMBOLS) as [[i [c' kind]]|] eqn:Es; wp_steps.
  - split; [done|]. exact (forallb_found _ _ _ _ _ short_symbols_ok Es).
  - apply wp_error; [lia|done| |done]. by apply (forward_boundary _ _ _ _ Hf).
Qed.

Lemma prefix_last p prefix b : starts_with (prefix ++ [b]) (drop p source) = true -> source !! (p + length prefix) = Some b.
Proof.
  intros [r E]%starts_with_true. rewrite <- lookup_drop, E, <- app_assoc. by apply list_lookup_middle.
Qed.

(** The state after the bytes of a literal's prefix, at its quote. *)
Lemma after_prefix s prefix b : ok s -> starts_with (prefix ++ [b]) (text_at s) = true -> ascii prefix -> (uval b < 0x80)%N ->
  ok (mk_Lexer (position s + length prefix) (holes s)) /\ quote_at source (position s + length prefix).
Proof.
  intros Hok Hp Ha Hb. split; [|exists b; split; [by apply prefix_last|done]].
  apply (ok_forward (length prefix) s); [done|]. apply forward_prefix; [apply Hok| |done].
  apply starts_with_true in Hp as [r E]. apply starts_with_true. exists (b :: r). by rewrite E, <- app_assoc.
Qed.

Lemma steps_from n s h s' : steps (mk_Lexer (position s + n) h) s' -> steps s s'.
Proof. intros [Hlt Hok]. split; [simpl in Hlt; lia|done]. Qed.

Lemma suffixed {start} (m : M LexError Lexer TokenKind) s s0 : ok s -> ok s0 -> start = position s0 -> start <= position s ->
  wp source m (fun kind s' => forward 1 s s' /\ plain kind = true) s ->
  wp source (let? kind := m in byte_suffix source kind start) (fun kind s' => steps s0 s' /\ kind_ok kind) s.
Proof.
  intros Hok Hok0 -> Hle Hm. wp_step. eapply lwp_mono; [exact Hm|]. intros kind s1 [Hf1 Hk].
  eapply lwp_mono; [apply (byte_suffix_spec _ _ 1 s); [done|done|apply Hok0|done]|].
  intros kind' s2 [Hf2 Hk2]. split; [|by apply plain_ok]. destruct (steps_forward 0 s s2 Hok Hf2) as [? ?].
  split; [lia|done].
Qed.

Lemma hole_literal {start utf8} n s s0 h : ok (mk_Lexer n h) -> ok s0 -> start = position s0 -> start <= n ->
  quote_at source n -> s = mk_Lexer n h ->
  wp source (let? kind := interpolated source utf8 start in no_byte_suffix source kind start)
    (fun kind s' => steps s0 s' /\ kind_ok kind) s.
Proof.
  intros Hok Hok0 -> Hle Hq ->. wp_step. eapply lwp_mono; [apply interpolated_spec; [done|done|done|apply Hok0]|].
  intros kind s1 [[Hlt Hok1] Hk]. simpl in Hlt. eapply lwp_mono; [apply no_byte_suffix_spec; [done|lia|apply Hok0]|].
  intros kind' s2 [-> ->]. split; [|by apply plain_ok]. split; [lia|done].
Qed.

Lemma number_token_spec text suffix radix float kind : number_token text suffix radix float kind -> plain kind = true.
Proof.
  intros [t H]. destruct (bool_decide _); [by destruct H as [-> _]|]. destruct H as (name & _ & _ & _ & ->). by destruct (_ || _).
Qed.

Lemma literal_or_symbol_spec s byte : ok s -> source !! position s = Some byte ->
  wp source (literal_or_symbol source edition gated (position s) byte) (fun kind s' => steps s s' /\ kind_ok kind) s.
Proof.
  intros Hok Eb. pose proof (proj1 Hok) as Hs. assert (position s < length source) as Hlt by by eapply lookup_lt_Some.
  unfold literal_or_symbol. cbv zeta.
  do 4 (wp_step; apply wp_rest_starts_with; [done|]).
  wp_if E39. { apply N.eqb_eq in E39. apply suffixed; [done..|]. apply char_or_type_variable_spec; [done..|]. exists byte. by rewrite E39. }
  wp_if Ec. { destruct (after_prefix s (txt "u8") (byte_of 39)) as [Hok' Hq]; [done|done|ascii_txt|done|].
    do 2 wp_step. apply suffixed; [done..|simpl; lia|]. apply character_spec; [apply Hok'|done]. }
  wp_if Es. { destruct (after_prefix s (txt "u8") (byte_of 34)) as [Hok' Hq]; [done|done|ascii_txt|done|].
    do 2 wp_step. apply suffixed; [done..|simpl; lia|]. eapply lwp_mono; [apply string_spec; [apply Hok'|done]|].
    intros kind s' [Hf (text & -> & _)]. done. }
  wp_if Eu. { destruct (after_prefix s (txt "u8$") (byte_of 34)) as [Hok' Hq]; [done|done|ascii_txt|done|].
    do 2 wp_step. by eapply hole_literal; [exact Hok'|..|lia|done|]. }
  wp_if Ei. { destruct (after_prefix s (txt "$") (byte_of 34)) as [Hok' Hq]; [done|done|ascii_txt|done|].
    do 2 wp_step. by eapply hole_literal; [exact Hok'|..|lia|done|]. }
  wp_if Ea. { eapply lwp_mono; [by apply identifier_spec|]. intros kind s' (Hf & Hr & Hk).
    split; [|by apply plain_ok]. eapply (steps_forward 0); [done|]. destruct Hf as [Hm _]. split; [done|].
    destruct (decide (position s = position s')) as [E|]; [|destruct Hm; lia]. exfalso. destruct Hr as (_ & _ & Hend).
    rewrite <- E in Hend. specialize (Hend _ Eb). unfold is_word_byte, is_ascii_alphanumeric in Hend.
    by destruct (is_ascii_alphabetic byte), (is_char byte "_"), (is_ascii_digit byte). }
  wp_if Ed. { eapply lwp_mono; [by apply number_spec|]. intros kind s' (Hf & m & radix & float & _ & _ & _ & Hk).
    split; [by eapply steps_forward|]. by eapply plain_ok, number_token_spec. }
  wp_if E34. { apply N.eqb_eq in E34. apply suffixed; [done..|].
    eapply lwp_mono; [apply string_spec; [done|exists byte; by rewrite E34]|]. intros kind s' [Hf (text & -> & _)]. done. }
  eapply lwp_mono; [by apply symbol_spec|]. intros kind s' [Hf Hk]. split; [by eapply steps_forward|by apply plain_ok].
Qed.

(** ** Tokens and the gaps between them *)

(** One white space, or one comment. *)
Inductive gap_item (p : nat) : nat -> Prop :=
| gap_space b : source !! p = Some b -> is_ascii_whitespace b = true -> gap_item p (p + 1)
| gap_line q : starts_with (txt "//") (drop p source) = true ->
    run_of source (fun b => negb (uval b =? NEWLINE)%N) p q -> q <= length source -> gap_item p q
| gap_block q : q <= length source -> block_comment (between source p q) -> gap_item p q.

(** White space and comments from [p] to [q]. *)
Inductive gap (p : nat) : nat -> Prop :=
| gap_nil : gap p p
| gap_cons m q : gap_item p m -> p < m -> gap m q -> gap p q.

Lemma gap_snoc p q r : gap p q -> gap_item q r -> q < r -> gap p r.
Proof. induction 1 as [p|p m q Hi Hlt _ IH]; intros Hr Hqr; eapply gap_cons; eauto using gap_nil. Qed.

Lemma gap_le p q : gap p q -> p <= q.
Proof. induction 1; lia. Qed.

(** A byte that can start a token. *)
Definition token_byte (p : nat) : Prop := exists b, source !! p = Some b /\ is_ascii_whitespace b = false.

Lemma whitespace_ascii : ascii_only is_ascii_whitespace.
Proof. unfold is_ascii_whitespace. byte_class. Qed.

Lemma not_newline_text : skips_text (fun b => negb (uval b =? NEWLINE)%N).
Proof. right. byte_class. Qed.

Lemma newline_ascii : ascii_only is_newline.
Proof. byte_class. Qed.

Lemma not_line_end_text : skips_text (fun b => negb (is_newline b)).
Proof. right. intros b. rewrite negb_involutive. apply newline_ascii. Qed.

Lemma doc_comment_spec s : ok s -> starts_with (txt "///") (text_at s) = true ->
  wp source (doc_comment source (position s)) (fun t s' => steps s s' /\
    exists text, t = mk_Token (TokenKind_DocComment text) (Span_new (position s) (position s'))) s.
Proof.
  intros Hok Hp. pose proof (proj1 Hok) as Hs. apply (forward_prefix source s (txt "///")) in Hp; [|done|ascii_txt].
  unfold doc_comment. do 2 wp_step. apply (forward_weaken _ _ 1) in Hp; [|cbn; lia].
  wp_step. apply (wp_starts source 1 s); [exact Hp|ascii_txt|]. intros space _ Hsp. wp_step.
  eapply (lwp_mono _ _ (fun _ s' => forward 1 s s')).
  { destruct space; wp_steps; [|done]. eapply forward_weaken; [by apply Hsp|lia]. }
  intros [] s1 Hf1. pose proof (forward_boundary _ _ _ _ Hf1) as Hb1. wp_steps.
  eapply lwp_mono; [by apply skip_while_spec; [done|apply not_line_end_text|]|]. intros _ ? (q & -> & Hr & Hq).
  pose proof (proj1 Hr). wp_steps. apply wp_slice; [done..|]. intros t _. wp_steps. split; [|by exists t].
  eapply (steps_forward 0); [done|]. eapply forward_next; [done|by eapply run_forward].
Qed.

(** What a call of [token] gives. *)
Definition token_result (s : Lexer) (o : option Token) (s' : Lexer) : Prop :=
  match o with
  | None => holes s' = holes s /\ gap_item (position s) (position s')
  | Some t => token_span t = Span_new (position s) (position s') /\ token_byte (position s) /\ kind_ok (token_kind t)
  end.

Lemma count_brackets_ok p kind open : holes_ok p open -> holes_ok p (count_brackets kind open).
Proof. destruct open as [|[utf8 depth start] open]; [done|]. intros [? ?]%Forall_cons_1. by constructor. Qed.

Lemma wp_hole_error {A} kind start s n (Q : A -> Lexer -> Prop) : ok s -> start <= position s -> boundary start ->
  boundary (position s + n) -> wp source (error kind start (position s + n)) Q s.
Proof. intros Hok Hle Hb Hn. apply wp_error; [lia|done|done|apply Hok]. Qed.

Lemma token_spec s : ok s -> position s < length source ->
  wp source (token source edition gated) (fun o s' => steps s s' /\ token_result s o s') s.
Proof.
  intros Hok Hlt. pose proof (proj1 Hok) as Hs. destruct (lookup_lt_is_Some_2 source (position s) Hlt) as [byte Eb].
  unfold token. do 2 wp_step. wp_step. eapply wp_ok_or; [exact Eb|]. do 2 wp_step. wp_if Ew.
  { pose proof (forward_byte source s byte Hs Eb (whitespace_ascii _ Ew)) as Hf.
    assert (forall s', s' = mk_Lexer (position s + 1) (holes s) -> steps s s' /\ token_result s None s') as Hend.
    { intros ? ->. split; [by apply (steps_forward 0)|]. split; [done|by eapply gap_space]. }
    destruct (holes s) as [|hole open] eqn:Eh; [wp_steps; apply Hend; by rewrite Eh|]. wp_if En; [|wp_steps; apply Hend; by rewrite Eh].
    pose proof (proj2 Hok) as Hh. rewrite Eh in Hh. apply Forall_cons_1 in Hh as [[Hb0 Hl0] _].
    apply wp_hole_error; [done..|by apply (forward_boundary _ _ _ _ Hf)]. }
  wp_step. apply wp_rest_starts_with; [done|]. wp_step. apply wp_rest_starts_with; [done|].
  assert (Hcomment : starts_with (txt "//") (text_at s) || starts_with (txt "/*") (text_at s) = true -> boundary (position s + 2)).
  { intros [H|H]%orb_prop; [apply (forward_prefix source s (txt "//")) in H|apply (forward_prefix source s (txt "/*")) in H];
      try done; try ascii_txt; by apply (forward_boundary _ _ _ _ H). }
  wp_if Eh. { apply andb_prop in Eh as [_ Eh]. apply wp_hole_error; [done|done|done|by apply Hcomment]. }
  wp_step. apply wp_rest_starts_with; [done|]. wp_if Ed.
  { wp_step. eapply lwp_mono; [by apply doc_comment_spec|]. intros t s' (Hst & text & ->). wp_steps. split; [done|].
    split; [done|]. split; [by exists byte|by apply plain_ok]. }
  wp_if El.
  { wp_step. eapply lwp_mono; [by apply skip_while_spec; [done|apply not_newline_text|]|]. intros _ ? (q & -> & Hr & Hq).
    wp_steps. assert (position s < q) as Hpq.
    { destruct (decide (position s = q)) as [E|]; [|pose proof (proj1 Hr); lia]. exfalso. destruct Hr as (_ & _ & Hend).
      rewrite <- E in Hend. apply (prefix_byte source _ (byte_of 47) (txt "/")) in El. by specialize (Hend _ El). }
    split; [split; [done|]|split; [done|by apply gap_line; [|..|apply Hq]]].
    eapply ok_forward; [done|by eapply run_forward]. }
  wp_if Ebl.
  { wp_step.
    eapply lwp_mono; [apply comment_spec; [done|by apply Hcomment]|].
    intros [] s' [Hf Hc]. wp_steps. split; [by eapply steps_forward|]. split; [by eapply forward_holes|].
    pose proof (boundary_le _ _ (forward_boundary _ _ _ _ Hf)). apply gap_block; [done|].
    apply block_comment_at; [done|]. split_and!; [done|by apply (forward_le _ _ _ _ Hf)|done]. }
  do 3 wp_step. eapply (lwp_mono _ _ (fun kind s' => steps s s' /\ kind_ok kind)).
  2: { intros kind s' [Hst Hk]. wp_steps. split; [done|]. split; [done|]. split; [by exists byte|done]. }
  wp_if Ecl.
  - wp_step. unfold closes_hole in Ecl. destruct (holes s) as [|hole open] eqn:Eo; [done|].
    eapply lwp_mono; [eapply hole_end_spec; [done|exact Eo|]|].
    { exists byte. split; [done|]. apply andb_prop in Ecl as [_ [E|E]%orb_prop].
      - by apply N.eqb_eq in E as ->.
      - apply andb_prop in E as [E _]. by apply N.eqb_eq in E as ->. }
    intros kind s' [Hst Hk]. destruct (is_interpolation_end kind); wp_steps; [|done].
    eapply lwp_mono; [apply no_byte_suffix_spec; [apply Hst| |done]|]; [destruct Hst; lia|]. by intros kind' s2 [-> ->].
  - wp_step. eapply lwp_mono; [by apply literal_or_symbol_spec|]. intros kind s' [[Hlt' Hok'] Hk]. wp_steps.
    split; [|done]. split; [done|]. split; [apply Hok'|by apply count_brackets_ok, Hok'].
Qed.
End tokens.
