(* ===== verification/LexerRun.v ===== *)
(** * The loop of the lexer

    The loop of [tokens] ends; its tokens lie in order between the start and the end of the source, and
    without a diagnostic only white space and comments lie between them. [mark_paths] ends, keeps every span, and turns
    only a [::] that joins two identifiers into [PathSep]. *)
From Stdlib Require Import Ascii.
From stdpp Require Import strings.
From S2P Require Import Prelude Wire Syntax Utf8 Token Lexer LexerLaws LexerScan LexerText.
From S2P Require Import LexerTokens.
Local Open Scope nat_scope.
Local Open Scope monad_scope.

Section run.
Context (source : list u8) (Hv : valid source) (edition : Edition) (gated : list (list u8 * Edition)).

Abbreviation boundary := (at_boundary source).
Abbreviation forward := (forward source).
Abbreviation text_at s := (drop (position s) source).
Abbreviation ok := (ok source).

#[global] Instance gap_preorder : PreOrder (gap source).
Proof.
  split; [intros p; apply gap_nil|]. intros p q r. induction 1 as [|p m q Hi Hlt _ IH]; [done|]. intros Hr. eapply gap_cons; eauto.
Qed.

(** ** Tokens in order *)

(** The bytes of a token. *)
Definition lexeme (a b : nat) : Prop := a < b /\ boundary a /\ boundary b /\ token_byte source a.

(** The tokens from [p] to [q], with [R] between the end of one and the start of the next. *)
Fixpoint tiles (R : nat -> nat -> Prop) (p : nat) (tokens : list Token) (q : nat) : Prop :=
  match tokens with
  | [] => R p q
  | token :: tokens => exists a b, token_span token = Span_new a b /\ R p a /\ lexeme a b /\ tiles R b tokens q
  end.

Section tiles.
Context (R : nat -> nat -> Prop) `{!PreOrder R}.

Lemma tiles_extend p tokens q r : tiles R p tokens q -> R q r -> tiles R p tokens r.
Proof.
  revert p. induction tokens as [|t ts IH]; intros p; simpl; [by intros ??; etrans|].
  intros (a & b & E & Hr & Hl & Ht) Hq. exists a, b. split_and!; [done..|by apply IH].
Qed.

Lemma tiles_snoc p tokens q token a b : tiles R p tokens q -> R q a -> token_span token = Span_new a b -> lexeme a b ->
  tiles R p (tokens ++ [token]) b.
Proof.
  revert p. induction tokens as [|t ts IH]; intros p; simpl.
  - intros Hp Hq E Hl. exists a, b. split_and!; [done|by etrans|done|done].
  - intros (a' & b' & E & Hr & Hl & Ht) Hq E' Hl'. exists a', b'. split_and!; [done..|by apply IH].
Qed.
End tiles.

Lemma tiles_mono (R S : nat -> nat -> Prop) p tokens q : (forall a b, R a b -> S a b) -> tiles R p tokens q -> tiles S p tokens q.
Proof.
  intros HRS. revert p. induction tokens as [|t ts IH]; intros p; simpl; [apply HRS|].
  intros (a & b & E & Hr & Hl & Ht). exists a, b. split_and!; [done|by apply HRS|done|by apply IH].
Qed.

(** ** Recovery *)

Lemma recover_spec start in_hole p : boundary start -> start < length source -> boundary p ->
  wpe quiet (recover source start in_hole) (fun _ s' => start < position s' /\ boundary (position s') /\ holes s' = [])
    (mk_Lexer p []).
Proof.
  intros Hs Hlt Hp. unfold recover. wp_step. apply wp_slice_from; [done|]. wp_step.
  destruct (first_char_at source start Hs Hlt) as (c & len & Hf & _ & Hlen & Hn & _).
  eapply wp_ok_or; [exact Hf|]. cbv beta iota. wp_steps. set (q := Nat.max p (start + len)).
  assert (boundary q) as Hq by (unfold q; destruct (Nat.max_spec p (start + len)) as [[_ ->]|[_ ->]]; done).
  assert (start < q) as Hsq by lia.
  assert (forall (m : M LexError Lexer unit), wpe quiet m (fun _ => forward 0 (mk_Lexer q [])) (mk_Lexer q []) ->
    wpe quiet m (fun _ s' => start < position s' /\ boundary (position s') /\ holes s' = []) (mk_Lexer q [])) as Hfwd.
  { intros m Hm. eapply lwp_mono; [exact Hm|]. intros [] s' Hf'. pose proof (forward_le _ _ _ _ Hf'). simpl in *.
    split_and!; [lia|by eapply forward_boundary|by apply (forward_holes _ _ _ _ Hf')]. }
  assert (forward 0 (mk_Lexer q []) (mk_Lexer q [])) as H0 by by apply forward_refl.
  wp_if E.
  - wp_if En; [wp_steps; done|]. apply Hfwd, (wp_loop _ _ (fun _ => forward 0 (mk_Lexer q []))); [done| |].
    { intros _ s' Hs'. by eapply boundary_le, forward_boundary. }
    intros [] s' Hs'. pose proof (forward_boundary _ _ _ _ Hs') as Hb. wp_steps.
    destruct (Nat.leb_spec (length source) (position s')); wp_steps; [done|]. apply wp_rest; [done|].
    wp_if El; [by wp_steps|]. wp_step. apply (wp_take source 0 s'); [by apply forward_refl|done|].
    intros c' len' _ Hf' Hl' _. wp_steps. split; [by eapply forward_next|simpl; lia].
  - wp_if Ed; [|wp_steps; done]. apply Hfwd. eapply lwp_mono; [by apply skip_while_spec; [|left; apply word_ascii|]|].
    intros _ ? (r & -> & Hr & Hb). by eapply run_forward.
Qed.

(** ** The loop *)

Definition reports (diagnostics : list Diagnostic) : Prop :=
  Forall (fun d => span_in source (diagnostic_span d)) diagnostics.

(** The tokens and diagnostics that the loop has at [p]. *)
Record gathered (start : nat) (acc : list Token * list Diagnostic) (p : nat) : Prop := mk_gathered {
  gathered_tokens : tiles le start acc.1 p;
  gathered_tiled : acc.2 = [] -> tiles (gap source) start acc.1 p;
  gathered_kinds : Forall (fun t => kind_ok (token_kind t)) acc.1;
  gathered_reports : reports acc.2 }.

Definition loop_invariant (start : nat) (acc : list Token * list Diagnostic) (s : Lexer) : Prop :=
  ok s /\ gathered start acc (position s) /\ length acc.2 < MAX_UNIQUE_DIAGNOSTICS.

(** The end of the loop; only a loop that did not stop early leaves a hole open. *)
Definition loop_result (start : nat) (acc : list Token * list Diagnostic) (s : Lexer) : Prop :=
  ok s /\ position s = length source /\ gathered start acc (length source) /\
  length acc.2 + match holes s with [] => 0 | _ => 1 end <= MAX_UNIQUE_DIAGNOSTICS.

Lemma gathered_token start acc s s' token : gathered start acc (position s) -> ok s -> steps source s s' ->
  token_result source s (Some token) s' -> gathered start (acc.1 ++ [token], acc.2) (position s').
Proof.
  intros [Ht Hg Hk Hr] Hok [Hlt Hok'] (E & Hb & Hkind).
  assert (lexeme (position s) (position s')) as Hl by (split_and!; [done|apply Hok|apply Hok'|done]).
  split; cbn [fst snd]; [by eapply tiles_snoc; [apply _|..]| | |done].
  - intros Hd. eapply tiles_snoc; [apply _|by apply Hg|done|done|done].
  - apply Forall_app. split; [done|]. by constructor.
Qed.

Lemma gathered_gap start acc s s' : gathered start acc (position s) -> steps source s s' ->
  token_result source s None s' -> gathered start acc (position s').
Proof.
  intros [Ht Hg Hk Hr] [Hlt _] (_ & Hi). split; [| |done|done].
  - eapply tiles_extend; [apply _|done|lia].
  - intros Hd. eapply tiles_extend; [apply _|by apply Hg|]. by eapply gap_cons; [..|apply gap_nil].
Qed.

Lemma gathered_error start acc d p q : gathered start acc p -> span_in source (diagnostic_span d) -> p <= q ->
  gathered start (acc.1, acc.2 ++ [d]) q.
Proof.
  intros [Ht _ Hk Hr] Hd Hle. split; [|by destruct acc.2|done|].
  - by eapply tiles_extend; [apply _|..].
  - apply Forall_app. split; [done|]. by constructor.
Qed.

Lemma tokens_turn_spec recovering start acc s : loop_invariant start acc s ->
  wpe quiet (tokens_turn source edition gated recovering acc) (fun x s' =>
    match x with
    | inl acc' => loop_invariant start acc' s' /\ position s < position s'
    | inr acc' => loop_result start acc' s'
    end) s.
Proof.
  intros (Hok & Hg & Hlen). destruct acc as [ts ds]. unfold wpe at 1, tokens_turn.
  destruct (Nat.leb_spec (length source) (position s)) as [Hend|Hlt].
  { pose proof (boundary_le _ _ (proj1 Hok)) as Hle. assert (position s = length source) as E by lia.
    split; [done|]. split; [done|]. rewrite E in Hg. split; [done|]. simpl in *. destruct (holes s); lia. }
  cbv zeta. pose proof (token_spec source Hv edition gated s Hok Hlt) as Ht. unfold wpe in Ht.
  destruct (token source edition gated s) as [[[t|]|[d| |]] s']; [| | |done..].
  - destruct Ht as [Hst Hr]. split; [|apply Hst]. split; [apply Hst|]. split; [|done].
    exact (gathered_token start (ts, ds) s s' t Hg Hok Hst Hr).
  - destruct Ht as [Hst Hr]. split; [|apply Hst]. split; [apply Hst|]. split; [|done]. by eapply gathered_gap.
  - destruct Ht as [Hd Hb]. assert (length (ds ++ [d]) <= MAX_UNIQUE_DIAGNOSTICS) as Hlen'.
    { rewrite length_app. simpl in *. lia. }
    destruct (negb recovering || _) eqn:Estop.
    + split; [split; [apply at_boundary_end|constructor]|]. split; [done|]. split; [|by rewrite Nat.add_0_r].
      eapply (gathered_error start (ts, ds) d); [done|done|]. apply (boundary_le source), Hok.
    + apply lwp_bind. apply orb_false_iff in Estop as [_ Estop%Nat.eqb_neq].
      eapply lwp_mono; [apply recover_spec; [apply Hok|done|done]|].
      intros [] s2 (Hlt2 & Hb2 & Hh2). apply lwp_ret. split; [|done]. split; [split; [done|by rewrite Hh2; constructor]|].
      split; [|simpl in *; lia]. eapply (gathered_error start (ts, ds) d); [done|done|lia].
Qed.

Lemma tokens_loop_spec recovering start s : start = position s -> boundary start -> holes s = [] ->
  wpe quiet (loop source (tokens_turn source edition gated recovering) ([], [])) (loop_result start) s.
Proof.
  intros -> Hb Hh. apply (wp_loop _ _ (loop_invariant (position s))).
  - split; [split; [done|by rewrite Hh; constructor]|]. split; [|unfold MAX_UNIQUE_DIAGNOSTICS; simpl; lia].
    split; simpl; [done|intros _; reflexivity|constructor|constructor].
  - intros acc s' (Hok & _). by apply (boundary_le source), Hok.
  - intros acc s' Hi. by apply tokens_turn_spec.
Qed.
End run.

(** The token at [i] as a separator. *)
Definition separator (token : Token) : Token := mk_Token TokenKind_PathSep (token_span token).

(** [ts'] is [ts] with some of its joining [::] as separators. *)
Definition marked (ts ts' : list Token) : Prop :=
  length ts' = length ts /\
  forall i t t', ts !! i = Some t -> ts' !! i = Some t' -> t' = t \/ joins ts i = Some true /\ t' = separator t.

Lemma marked_refl ts : marked ts ts.
Proof. split; [done|]. intros i t t' Ht Ht'. left. congruence. Qed.

Lemma joins_inv ts i : joins ts i = Some true <->
  exists before here after, 1 <= i /\ ts !! (i - 1) = Some before /\ ts !! i = Some here /\ ts !! S i = Some after /\
    is_double_colon here = true /\ is_segment before = true /\ is_segment after = true /\
    end_of (token_span before) = start_of (token_span here) /\ end_of (token_span here) = start_of (token_span after).
Proof.
  unfold joins. split.
  - intros H. apply bind_Some in H as (here & Eh & H). destruct (is_double_colon here) eqn:Ed; [|done]. cbn [negb] in H.
    destruct i as [|i]; [done|]. apply bind_Some in H as (before & Eb & H). injection H as H.
    apply andb_prop in H as [Hb H]. destruct (ts !! S (S i)) as [after|] eqn:Ea; [|done].
    apply andb_prop in H as [H Hj2%Nat.eqb_eq]. apply andb_prop in H as [Ha Hj1%Nat.eqb_eq].
    exists before, here, after. simpl. rewrite Nat.sub_0_r. split_and!; done || lia.
  - intros (before & here & after & Hi & Eb & Eh & Ea & Hd & Hb & Ha & Hj1 & Hj2). rewrite Eh. simpl. rewrite Hd. simpl.
    destruct i as [|i]; [lia|]. simpl in Eb. rewrite Nat.sub_0_r in Eb. rewrite Eb, Ea. simpl.
    by rewrite Hb, Ha, Hj1, Hj2, !Nat.eqb_refl.
Qed.

Lemma joins_total ts i : 1 <= i -> i < length ts -> exists b, joins ts i = Some b.
Proof.
  intros Hi Hlt. unfold joins. destruct (lookup_lt_is_Some_2 ts i Hlt) as [here ->]. simpl.
  destruct (is_double_colon here); [|by eexists]. destruct i as [|i]; [lia|].
  destruct (lookup_lt_is_Some_2 ts i ltac:(lia)) as [before ->]. simpl. by eexists.
Qed.

Lemma marked_lookup ts ts' i t' : marked ts ts' -> ts' !! i = Some t' -> exists t, ts !! i = Some t /\ (t' = t \/ t' = separator t).
Proof.
  intros [Hl H] Ht'. destruct (lookup_lt_is_Some_2 ts i) as [t Ht]; [rewrite <- Hl; by eapply lookup_lt_Some|].
  exists t. split; [done|]. destruct (H i t t' Ht Ht') as [->|[_ ->]]; [by left|by right].
Qed.

Lemma joins_marked ts ts' i : marked ts ts' -> joins ts' i = Some true -> joins ts i = Some true.
Proof.
  intros Hm (before & here & after & Hi & Eb & Eh & Ea & Hd & Hb & Ha & Hj1 & Hj2)%joins_inv. apply joins_inv.
  destruct (marked_lookup _ _ _ _ Hm Eb) as (before' & Eb' & [->| ->]); [|done].
  destruct (marked_lookup _ _ _ _ Hm Eh) as (here' & Eh' & [->| ->]); [|done].
  destruct (marked_lookup _ _ _ _ Hm Ea) as (after' & Ea' & [->| ->]); [|done]. by exists before', here', after'.
Qed.

Lemma marked_trans ts1 ts2 ts3 : marked ts1 ts2 -> marked ts2 ts3 -> marked ts1 ts3.
Proof.
  intros Hm [Hl H]. split; [rewrite Hl; apply Hm|]. intros i t t3 Ht Ht3.
  destruct (lookup_lt_is_Some_2 ts2 i) as [t2 Ht2]; [rewrite <- Hl; by eapply lookup_lt_Some|].
  destruct (proj2 Hm i t t2 Ht Ht2) as [->|[Hj ->]], (H i _ t3 Ht2 Ht3) as [->|[Hj' ->]]; eauto.
  right. split; [by eapply joins_marked|done].
Qed.

(** The separators of the chain from [at_] to [last]. *)
Definition chained (ts : list Token) (at_ last : nat) : Prop :=
  forall i, at_ <= i <= last -> Nat.even (i - at_) = true -> joins ts i = Some true.

Lemma chain_total fuel ts last : joins ts last = Some true -> length ts < fuel + last ->
  exists last', chain fuel ts last = Some last' /\ last <= last' /\ chained ts last last'.
Proof.
  revert last. induction fuel as [|fuel IH]; intros last Hj Hf.
  { apply joins_inv in Hj as (? & ? & ? & _ & _ & Eh & _). apply lookup_lt_Some in Eh. lia. }
  assert (chained ts last last) as Hone by (intros i Hi _; by replace i with last by lia).
  cbn [chain]. destruct (Nat.ltb_spec (last + 2) (length ts)) as [Hlt|]; [|by exists last].
  destruct (joins_total ts (last + 2)) as [b Hb]; [lia|done|]. rewrite Hb. simpl. destruct b; [|by exists last].
  destruct (IH (last + 2) Hb) as (last' & -> & Hle & Hc); [lia|]. exists last'. split_and!; [done|lia|].
  intros i Hi He. destruct (decide (i < last + 2)) as [Hi'|Hi'].
  - destruct (decide (i = last)) as [->|]; [done|]. by replace (i - last) with 1 in He by lia.
  - apply Hc; [lia|]. replace (i - last) with (S (S (i - (last + 2)))) in He by lia. done.
Qed.

Lemma chained_bound ts at_ last : at_ <= last -> Nat.even (last - at_) = true -> chained ts at_ last -> S last < length ts.
Proof.
  intros Hle He Hc. destruct (proj1 (joins_inv _ _) (Hc last ltac:(lia) He)) as (? & ? & ? & _ & _ & _ & Ea & _).
  by apply lookup_lt_Some in Ea.
Qed.

Lemma chain_even fuel ts at_ last : chain fuel ts at_ = Some last -> Nat.even (last - at_) = true /\ at_ <= last.
Proof.
  revert at_. induction fuel as [|fuel IH]; intros at_; [done|]. cbn [chain].
  assert (Nat.even (at_ - at_) = true) as H0 by by rewrite Nat.sub_diag.
  destruct (_ <? _); [|by intros [= <-]]. destruct (joins ts (at_ + 2)) as [b|]; [|done]. simpl.
  destruct b; [|by intros [= <-]]. intros [He Hle]%IH. split; [|lia].
  replace (last - at_) with (S (S (last - (at_ + 2)))) by lia. done.
Qed.

Lemma separate_marked ts at_ last : chained ts at_ last -> marked ts (separate ts at_ last).
Proof.
  intros Hc. unfold separate. split; [by rewrite length_imap|]. intros i t t' Ht Ht'. rewrite list_lookup_imap, Ht in Ht'.
  simpl in Ht'. destruct (_ && _) eqn:E; injection Ht' as <-; [|by left]. right.
  apply andb_prop in E as [E He]. apply andb_prop in E as [E1%Nat.leb_le E2%Nat.leb_le]. split; [|done]. by apply Hc.
Qed.

Lemma is_header_total source ts at_ : at_ < length ts -> exists b, is_header source ts at_ = Some b.
Proof.
  intros Hlt. unfold is_header. destruct (Nat.leb_spec 2 at_); [|by eexists].
  destruct (lookup_lt_is_Some_2 ts (at_ - 2)) as [word ->]; [lia|]. simpl. destruct (is_header_word word); [|by eexists].
  destruct (Nat.eqb_spec at_ 2); [by eexists|].
  destruct (lookup_lt_is_Some_2 ts (at_ - 3)) as [before ->]; [lia|]. by eexists.
Qed.

(** The fuel [S (length tokens)] is enough, and no index is out of range. *)
Lemma mark_paths_total source fuel ts at_ : 1 <= at_ <= S (length ts) -> S (length ts) < fuel + at_ ->
  exists ts', mark_paths source fuel ts at_ = Some ts' /\ marked ts ts'.
Proof.
  revert ts at_. induction fuel as [|fuel IH]; intros ts at_ H1 Hf; [lia|].
  cbn [mark_paths]. destruct (Nat.ltb_spec (at_ + 1) (length ts)) as [Hlt|Hge]; [|exists ts; split; [done|apply marked_refl]].
  assert (exists b, (if 2 <=? at_ then is_declarator <$> ts !! (at_ - 2) else Some false) = Some b) as [declared ->].
  { destruct (2 <=? at_); [|by eexists]. destruct (lookup_lt_is_Some_2 ts (at_ - 2)) as [t ->]; [lia|]. by eexists. }
  cbn [mbind option_bind]. assert (exists b, (if declared then Some false else joins ts at_) = Some b /\
    (b = true -> joins ts at_ = Some true)) as (joined & -> & Hj).
  { destruct declared; [by eexists|]. destruct (joins_total ts at_) as [b Hb]; [lia..|]. exists b. rewrite Hb. by split; [|intros ->]. }
  cbn [mbind option_bind]. destruct joined; cbn [negb]; [|apply IH; lia].
  destruct (chain_total (length ts) ts at_ (Hj eq_refl)) as (last & El & Hle & Hc); [lia|]. rewrite El. cbn [mbind option_bind].
  destruct (is_header_total source ts at_) as [header ->]; [lia|]. cbn [mbind option_bind].
  destruct (chain_even _ _ _ _ El) as [He _]. pose proof (chained_bound _ _ _ Hle He Hc) as Hb.
  destruct (lookup_lt_is_Some_2 ts (last + 1)) as [t ->]; [lia|]. cbn [fmap option_fmap option_map mbind option_bind].
  assert (marked ts (if header || is_module t then separate ts at_ last else ts)) as Hm.
  { destruct (_ || _); [by apply separate_marked|apply marked_refl]. }
  destruct (IH (if header || is_module t then separate ts at_ last else ts) (last + 2)) as (ts' & E & Hm').
  - rewrite (proj1 Hm). lia.
  - rewrite (proj1 Hm). lia.
  - exists ts'. split; [done|by eapply marked_trans].
Qed.

Lemma marked_spans ts ts' : marked ts ts' -> token_span <$> ts' = token_span <$> ts.
Proof.
  intros Hm. apply list_eq. intros i. rewrite !list_lookup_fmap. destruct (ts' !! i) as [t'|] eqn:E'.
  - destruct (marked_lookup _ _ _ _ Hm E') as (t & -> & [->| ->]); done.
  - apply lookup_ge_None in E'. rewrite (proj1 Hm) in E'. by rewrite (proj2 (lookup_ge_None _ _) E').
Qed.

(** The last token joins nothing. *)
Lemma marked_last ts t ts' : marked (ts ++ [t]) ts' -> exists ts2, ts' = ts2 ++ [t] /\ length ts2 = length ts.
Proof.
  intros [Hl H]. rewrite length_app in Hl. simpl in Hl.
  destruct ts' as [|t' ts' _] using rev_ind; [simpl in Hl; lia|]. rewrite length_app in Hl. simpl in Hl.
  exists ts'. split; [|lia]. f_equal. f_equal.
  destruct (H (length ts) t t') as [->|[Hj _]]; [by apply list_lookup_middle| |done|].
  - apply list_lookup_middle. lia.
  - apply joins_inv in Hj as (? & ? & ? & _ & _ & _ & Ea & _). apply lookup_lt_Some in Ea. rewrite length_app in Ea. simpl in Ea. lia.
Qed.

(** A separator in the result stands directly between two identifiers of the result. *)
Lemma marked_separators ts ts' i t : marked ts ts' -> Forall (fun t => token_kind t <> TokenKind_PathSep) ts ->
  ts' !! i = Some t -> token_kind t = TokenKind_PathSep ->
  exists before after, 1 <= i /\ ts' !! (i - 1) = Some before /\ ts' !! S i = Some after /\
    is_segment before = true /\ is_segment after = true /\
    end_of (token_span before) = start_of (token_span t) /\ end_of (token_span t) = start_of (token_span after).
Proof.
  intros Hm Hraw Et Hk. destruct (marked_lookup _ _ _ _ Hm Et) as (t0 & Et0 & _).
  destruct (proj2 Hm i t0 t Et0 Et) as [->|[Hj ->]].
  { by destruct (Forall_lookup_1 _ _ _ _ Hraw Et0). }
  apply joins_inv in Hj as (before & here & after & Hi & Eb & Eh & Ea & Hd & Hb & Ha & Hj1 & Hj2).
  assert (here = t0) as -> by congruence.
  assert (forall j u, ts !! j = Some u -> is_segment u = true -> ts' !! j = Some u) as Hkeep.
  { intros j u Eu Hu. destruct (lookup_lt_is_Some_2 ts' j) as [u' Eu']; [rewrite (proj1 Hm); by eapply lookup_lt_Some|].
    destruct (proj2 Hm j u u' Eu Eu') as [->|[(? & u2 & ? & _ & _ & Eu2 & _ & Hd2 & _)%joins_inv ->]]; [done|].
    assert (u2 = u) as -> by congruence. unfold is_double_colon in Hd2. unfold is_segment in Hu. by destruct (token_kind u). }
  exists before, after. split_and!; auto.
Qed.
