(* ===== verification/LexerTrivia.v ===== *)
(** * Trivia, and the results of the entry points

    Between two tokens of a source that lexes, [lex_with_trivia] reads exactly the white space and the comments
    that the lexer skipped. Where the content starts, the tokens that [tokens] gives, and why [lex] and
    [lex_all] agree. *)
From Stdlib Require Import Ascii.
From stdpp Require Import strings.
From S2P Require Import Prelude Wire Syntax Utf8 Token Lexer LexerLaws LexerScan LexerText.
From S2P Require Import LexerTokens.
From S2P Require Import LexerRun.
Local Open Scope nat_scope.
Local Open Scope monad_scope.

Definition cr : u8 := byte_of RETURN.
Definition lf : u8 := byte_of NEWLINE.

(** White space inside a line. *)
Definition is_blank (b : u8) : bool := is_ascii_whitespace b && negb (is_newline b).

(** What the text of a piece of trivia looks like. *)
Definition trivia_ok (kind : TriviaKind) (text : list u8) : Prop :=
  match kind with
  | Whitespace => text <> [] /\ Forall (fun b => is_blank b = true) text
  | Newline => text = [lf] \/ text = [cr] \/ text = [cr; lf]
  | LineComment => starts_with (txt "//") text = true /\ Forall (fun b => uval b <> NEWLINE) text
  | BlockComment => block_comment text
  end.

Section trivia.
Context (source : list u8) (Hv : valid source).

Abbreviation boundary := (at_boundary source).
Abbreviation forward := (forward source).

(** The gap before [limit] goes on at [x], perhaps inside a CRLF. *)
Definition remaining (x limit : nat) : Prop :=
  gap source x limit \/ source !! x = Some cr /\ source !! S x = Some lf /\ gap source (S x) limit.

(** A token starts at [limit], or the source ends there. *)
Definition token_limit (limit : nat) : Prop :=
  limit <= length source /\ forall b, source !! limit = Some b -> is_ascii_whitespace b = false.

Lemma gap_inv x limit : gap source x limit -> x < limit -> exists m, gap_item source x m /\ x < m /\ gap source m limit.
Proof. intros H Hlt. destruct H as [|m q Hi Hm Hg]; [lia|]. by exists m. Qed.

(** Before [limit], a white space byte is an item of its own. *)
Lemma gap_space_inv x limit b : gap source x limit -> x < limit -> source !! x = Some b -> is_ascii_whitespace b = true ->
  gap source (S x) limit.
Proof.
  intros Hg Hlt Hb Hw. destruct (gap_inv _ _ Hg Hlt) as (m & Hi & _ & Hm).
  destruct Hi as [b' Hb' _|q Hp _ _|q Hq Hp]; [by rewrite Nat.add_1_r in Hm|..]; [|apply block_comment_at in Hp as [Hp _]; [|done]];
    apply (starts_with_2 slash) in Hp as [Hs _]; rewrite Hs in Hb; injection Hb as <-; by vm_compute in Hw.
Qed.

(** A byte of the gap is before [limit]. *)
Lemma space_before x limit b : gap source x limit -> token_limit limit -> source !! x = Some b -> is_ascii_whitespace b = true ->
  x < limit.
Proof.
  intros Hg [_ Hl] Hb Hw. pose proof (gap_le _ _ _ Hg). destruct (decide (x = limit)) as [->|]; [|lia].
  by rewrite (Hl b Hb) in Hw.
Qed.

Lemma remaining_le x limit : token_limit limit -> remaining x limit -> x <= limit.
Proof. intros _ [Hg|(_ & _ & Hg)]; apply gap_le in Hg; lia. Qed.

(** ** Line comments *)

Lemma newline_dec (b : u8) : Decision (uval b = NEWLINE).
Proof. apply _. Defined.

Lemma find_newline x q : run_of source (fun b => negb (uval b =? NEWLINE)%N) x q -> q <= length source ->
  match list_find (fun b => uval b = NEWLINE) (drop x source) with
  | Some (offset, _) => x + offset
  | None => length source
  end = q.
Proof.
  intros (Hle & Hin & Hend) Hq. destruct (list_find _ _) as [[i b]|] eqn:E.
  - apply list_find_Some in E as (Eb & Hn & Hbefore). rewrite lookup_drop in Eb.
    destruct (lt_eq_lt_dec (x + i) q) as [[Hlt|Heq]|Hgt]; [|done|].
    + destruct (Hin (x + i)) as (b' & Eb' & Hb'); [lia|]. rewrite Eb in Eb'. injection Eb' as <-. by rewrite Hn in Hb'.
    + destruct (lookup_lt_is_Some_2 source q) as [b' Eb']; [apply lookup_lt_Some in Eb; lia|].
      exfalso. apply (Hbefore (q - x) b'); [|lia|].
      * rewrite lookup_drop. by replace (x + (q - x)) with q by lia.
      * apply Hend in Eb'. by apply negb_false_iff, N.eqb_eq in Eb'.
  - apply list_find_None in E. destruct (decide (q = length source)) as [|Hne]; [done|].
    destruct (lookup_lt_is_Some_2 source q) as [b' Eb']; [lia|]. exfalso.
    pose proof (Hend _ Eb') as Hn. apply negb_false_iff, N.eqb_eq in Hn.
    refine (Forall_lookup_1 _ _ (q - x) b' E _ Hn). rewrite lookup_drop. by replace (x + (q - x)) with q by lia.
Qed.

(** ** One piece *)

(** What a piece of trivia from [x] gives. *)
Definition piece_result (x limit : nat) (kind : TriviaKind) (s' : Lexer) : Prop :=
  exists q, s' = mk_Lexer q [] /\ x < q <= limit /\ boundary q /\ remaining q limit /\ trivia_ok kind (between source x q).

Lemma between_prefix x q prefix : starts_with prefix (drop x source) = true -> x + length prefix <= q ->
  starts_with prefix (between source x q) = true.
Proof.
  rewrite !starts_with_true. intros [r E] Hq. unfold between. rewrite E, take_app_ge by lia. by eexists.
Qed.

Lemma between_one x b : source !! x = Some b -> between source x (S x) = [b].
Proof. intros Hb. unfold between. rewrite (drop_S _ _ _ Hb). by replace (S x - x) with 1 by lia. Qed.

Lemma between_two x a b : source !! x = Some a -> source !! S x = Some b -> between source x (S (S x)) = [a; b].
Proof.
  intros Ha Hb. rewrite (between_app source x (S x)) by lia. by rewrite (between_one _ _ Ha), (between_one _ _ Hb).
Qed.

Lemma piece_block x limit : gap source x limit -> x < limit -> starts_with (txt "/*") (drop x source) = true ->
  token_limit limit -> boundary x ->
  wpe quiet (comment source ;;; ret BlockComment) (piece_result x limit) (mk_Lexer x []).
Proof.
  intros Hg Hlt Hp [Hl _] Hx. destruct (gap_inv _ _ Hg Hlt) as (m & Hi & Hm & Hg').
  assert (boundary (x + 2)) as H2.
  { apply (at_boundary_prefix source x (txt "/*")); [done|done|ascii_txt]. }
  assert (m <= length source /\ block_comment (between source x m)) as [Hlm Hb].
  { pose proof (proj1 (starts_with_2 slash star _ _) Hp) as [H0 H1]. destruct Hi as [b Hb Hw|q Hq _ _|q Hq Hb].
    - rewrite H0 in Hb. injection Hb as <-. by vm_compute in Hw.
    - apply (starts_with_2 slash slash) in Hq as [_ Hq]. by rewrite H1 in Hq.
    - done. }
  pose proof (proj1 (block_comment_at source x m Hlm) Hb) as (_ & Hle & Hc).
  pose proof (comment_reads source x m Hx H2 (conj Hle Hlm) Hc) as E.
  pose proof (comment_spec source (mk_Lexer x []) Hx H2) as Hs. unfold wpe in Hs. rewrite E in Hs. destruct Hs as [Hs _].
  apply lwp_bind. unfold wpe at 1. rewrite E. apply lwp_ret. exists m.
  split_and!; [done|lia|by apply gap_le in Hg'|by apply (forward_boundary _ _ _ _ Hs)|by left|done].
Qed.

Lemma run_bytes x m q (P : u8 -> Prop) : (forall i b, x <= i < m -> source !! i = Some b -> P b) -> q <= m ->
  Forall P (between source x q).
Proof.
  intros H Hq. apply list.Forall_forall. intros b [i Hi]%list_elem_of_lookup.
  unfold between in Hi. apply lookup_take_Some in Hi as [Hi Hlt]. rewrite lookup_drop in Hi. apply (H (x + i)); [lia|done].
Qed.

(** The code of [trivia_piece] at a line comment. *)
Definition line_comment (start : nat) : M LexError Lexer TriviaKind :=
  let? text := slice_from source start in
  let end_ := match list_find (fun b => uval b = NEWLINE) text with
              | Some (offset, _) => (start + offset)%nat
              | None => length source
              end in
  set_position end_ ;;;
  (if (end_ <? length source)%nat then
     let? b := byte_at source (end_ - 1) in
     if (uval b =? RETURN)%N then set_position (end_ - 1) else ret tt
   else ret tt) ;;;
  ret LineComment.

Lemma uval_inj (a b : u8) : uval a = uval b -> a = b.
Proof. apply uint_eq. Qed.

Lemma piece_line x limit : gap source x limit -> x < limit -> starts_with (txt "//") (drop x source) = true ->
  token_limit limit -> boundary x -> wpe quiet (line_comment x) (piece_result x limit) (mk_Lexer x []).
Proof.
  intros Hg Hlt Hp [Hl _] Hx. destruct (gap_inv _ _ Hg Hlt) as (m & Hi & Hm & Hg').
  pose proof (proj1 (starts_with_2 slash slash _ _) Hp) as [H0 H1]. pose proof (gap_le _ _ _ Hg') as Hml.
  assert (run_of source (fun b => negb (uval b =? NEWLINE)%N) x m) as Hr.
  { destruct Hi as [b Hb Hw|q _ Hr _|q Hlq Hq]; [|done|].
    - rewrite H0 in Hb. injection Hb as <-. by vm_compute in Hw.
    - apply block_comment_at in Hq as [[_ Hq]%starts_with_2 _]; [|done]. by rewrite H1 in Hq. }
  assert (Hok : forall q, x + 2 <= q <= m -> trivia_ok LineComment (between source x q)).
  { intros q Hq. split; [apply between_prefix; [done|change (length (txt "//")) with 2; lia]|].
    apply (run_bytes x m); [|lia]. intros i b Hi' Eb. destruct (proj1 (proj2 Hr) i Hi') as (b' & Eb' & Hb').
    rewrite Eb in Eb'. injection Eb' as <-. by apply negb_true_iff, N.eqb_neq in Hb'. }
  assert (x + 2 <= m) as H2m.
  { destruct (decide (m = S x)) as [->|]; [|lia]. pose proof (proj2 (proj2 Hr) slash H1) as Hs. by vm_compute in Hs. }
  assert (boundary m) as Hbm.
  { eapply (run_boundary source _ x m); [done|apply not_newline_text|done|lia|done]. }
  assert (piece_result x limit LineComment (mk_Lexer m [])) as Hend.
  { exists m. split_and!; [done|lia|lia|done|by left|by apply Hok]. }
  unfold line_comment. wp_step. apply wp_slice_from; [done|]. rewrite (find_newline x m Hr) by lia. wp_step. wp_step. wp_step.
  destruct (Nat.ltb_spec m (length source)) as [Hmlt|_]; wp_steps; [|done].
  destruct (lookup_lt_is_Some_2 source (m - 1)) as [b Eb]; [lia|]. eapply wp_ok_or; [exact Eb|].
  destruct (N.eqb_spec (uval b) RETURN) as [Hcr|_]; wp_steps; [|done].
  assert (b = cr) as -> by by apply uval_inj. assert (source !! m = Some lf) as Em.
  { destruct (lookup_lt_is_Some_2 source m Hmlt) as [c Ec]. rewrite Ec. f_equal. apply uval_inj.
    pose proof (proj2 (proj2 Hr) c Ec) as Hc. by apply negb_false_iff, N.eqb_eq in Hc. }
  assert (x + 2 <= m - 1) as Hx2.
  { destruct (decide (m - 1 = S x)) as [E|]; [rewrite E, H1 in Eb; discriminate|]. lia. }
  exists (m - 1). split_and!; [done|lia|lia|by eapply boundary_at_ascii| |apply Hok; lia].
  right. replace (S (m - 1)) with m by lia. split_and!; done.
Qed.

(** Line breaks. *)
Lemma remaining_newline x limit b : remaining x limit -> x < limit -> source !! x = Some b -> is_newline b = true ->
  gap source (S x) limit.
Proof.
  intros [Hg|(_ & _ & Hg)] Hlt Hb Hn; [|done]. eapply gap_space_inv; [done..|].
  unfold is_newline in Hn. unfold is_ascii_whitespace. by destruct (uval b =? NEWLINE)%N, (uval b =? RETURN)%N; rewrite ?orb_true_r.
Qed.

Lemma piece_newlines x limit : remaining x limit -> x < limit -> token_limit limit -> boundary x ->
  starts_with [cr; lf] (drop x source) = true ->
  wpe quiet (advance 2 ;;; ret Newline) (piece_result x limit) (mk_Lexer x []).
Proof.
  intros Hr Hlt Hl Hx [H0 H1]%starts_with_2. wp_steps. exists (S (S x)).
  pose proof (remaining_newline _ _ _ Hr Hlt H0 eq_refl) as Hg.
  assert (S x < limit) as Hlt' by by eapply space_before.
  pose proof (gap_space_inv _ _ _ Hg Hlt' H1 eq_refl) as Hg2.
  split_and!; [f_equal; lia|lia|by apply gap_le in Hg2| |by left|].
  - eapply at_boundary_ascii; [eapply at_boundary_ascii; [done..|by vm_compute]|done|by vm_compute].
  - right. right. by apply between_two.
Qed.

Lemma piece_newline x limit b : remaining x limit -> x < limit -> boundary x -> source !! x = Some b -> is_newline b = true ->
  wpe quiet (advance 1 ;;; ret Newline) (piece_result x limit) (mk_Lexer x []).
Proof.
  intros Hr Hlt Hx Hb Hn. wp_steps. exists (S x). pose proof (remaining_newline _ _ _ Hr Hlt Hb Hn) as Hg.
  split_and!; [f_equal; lia|lia|by apply gap_le in Hg| |by left|].
  - eapply at_boundary_ascii; [done..|by apply newline_ascii].
  - rewrite (between_one _ _ Hb). apply orb_prop in Hn as [Hn|Hn]; apply N.eqb_eq in Hn.
    + left. f_equal. by apply uval_inj.
    + right. left. f_equal. by apply uval_inj.
Qed.

(** The code of [trivia_piece] at white space inside a line. *)
Definition blanks (limit : nat) : M LexError Lexer TriviaKind :=
  loop source (fun _ =>
    let? p := get_position in
    if (p <? limit)%nat then
      let? b := byte_at source p in
      if is_ascii_whitespace b && negb (is_newline b) then advance 1 ;;; ret (inl tt) else ret (inr tt)
    else ret (inr tt)) tt ;;;
  ret Whitespace.

Lemma piece_blanks x limit b : gap source x limit -> x < limit -> token_limit limit -> boundary x ->
  source !! x = Some b -> is_blank b = true ->
  wpe quiet (blanks limit) (piece_result x limit) (mk_Lexer x []).
Proof.
  intros Hg Hlt [Hl Ht] Hx Hb Hbl. unfold blanks. wp_step. eapply lwp_mono.
  - apply (wp_loop _ _
      (fun _ s' => exists q, s' = mk_Lexer q [] /\ x <= q <= limit /\ boundary q /\ gap source q limit /\
        Forall (fun b => is_blank b = true) (between source x q))
      (fun _ s' => exists q, s' = mk_Lexer q [] /\ x < q <= limit /\ boundary q /\ gap source q limit /\
        Forall (fun b => is_blank b = true) (between source x q))).
    + exists x. split_and!; [done|lia|lia|done|done|]. unfold between. rewrite Nat.sub_diag. constructor.
    + intros _ s' (q & -> & Hq & _). simpl. lia.
    + intros _ s' (q & -> & Hq & Hbq & Hgq & Hall). wp_steps.
      destruct (Nat.ltb_spec q limit) as [Hql|Hql]; wp_steps; [|by exists q; split_and!; [done|lia|lia|..]].
      destruct (lookup_lt_is_Some_2 source q) as [c Ec]; [lia|]. eapply wp_ok_or; [exact Ec|]. fold (is_blank c).
      destruct (is_blank c) eqn:Hc; wp_steps.
      * apply andb_prop in Hc as Hc'. destruct Hc' as [Hw _]. pose proof (gap_space_inv _ _ _ Hgq Hql Ec Hw) as Hg2.
        split; [|lia]. exists (S q). split_and!; [f_equal; lia|lia|lia| |done|].
        { eapply at_boundary_ascii; [done..|by apply whitespace_ascii]. }
        rewrite (between_app source x q) by lia. apply Forall_app. split; [done|]. rewrite (between_one _ _ Ec). by repeat constructor.
      * exists q. split_and!; [done| |lia|done..]. destruct (decide (x = q)) as [<-|]; [|lia]. congruence.
  - intros [] s' (q & -> & Hq & Hbq & Hgq & Hall). wp_steps. exists q. split_and!; [done|lia|lia|done|by left|]. split; [|done].
    intros E. apply (f_equal length) in E. rewrite length_between in E by (split; [lia|by apply boundary_le]). simpl in E. lia.
Qed.

Lemma trivia_piece_spec x limit : remaining x limit -> x < limit -> token_limit limit -> boundary x ->
  wpe quiet (trivia_piece source limit) (piece_result x limit) (mk_Lexer x []).
Proof.
  intros Hr Hlt Hl Hx. unfold trivia_piece. wp_steps. apply wp_rest; [done|]. cbn [position].
  assert (forall a b, starts_with [a; b] (drop x source) = true -> a <> cr -> gap source x limit) as Hgap.
  { intros a b [H0 _]%starts_with_2 Ha. destruct Hr as [|(H0' & _)]; [done|]. congruence. }
  wp_if Eb. { apply piece_block; [|done..]. by apply (Hgap slash star). }
  wp_if El. { apply piece_line; [|done..]. by apply (Hgap slash slash). }
  wp_if Ecl. { by apply piece_newlines. }
  wp_if En.
  { apply orb_prop in En as [En|En]; apply starts_with_1 in En.
    - by apply (piece_newline x limit cr).
    - by apply (piece_newline x limit lf). }
  apply orb_false_iff in En as [En1 En2].
  assert (gap source x limit) as Hg.
  { destruct Hr as [|(H0 & _)]; [done|]. pose proof (proj2 (starts_with_1 cr _ _) H0). unfold cr in *. congruence. }
  destruct (gap_inv _ _ Hg Hlt) as (m & Hi & _ & _). destruct Hi as [b Hb Hw|q Hq _ _|q Hq [Hp _]%block_comment_at]; [|congruence|change (txt "/*") with [slash; star] in *; congruence|done].
  apply (piece_blanks x limit b); [done..|]. unfold is_blank. rewrite Hw. simpl. apply negb_true_iff.
  unfold is_newline. apply orb_false_iff. split; apply N.eqb_neq; intros E.
  - assert (b = lf) as -> by by apply uval_inj. pose proof (proj2 (starts_with_1 lf _ _) Hb). unfold lf in *. congruence.
  - assert (b = cr) as -> by by apply uval_inj. pose proof (proj2 (starts_with_1 cr _ _) Hb). unfold cr in *. congruence.
Qed.

(** ** The trivia before a token *)

(** Pieces of trivia that read the source from [p] to [q]. *)
Fixpoint pieces (p : nat) (leading : list Trivia) (q : nat) : Prop :=
  match leading with
  | [] => p = q
  | piece :: leading => exists m, p < m /\ trivia_span piece = Span_new p m /\
      as_bytes (trivia_text piece) = between source p m /\
      trivia_ok (trivia_kind piece) (as_bytes (trivia_text piece)) /\ pieces m leading q
  end.

Lemma pieces_snoc p leading m q piece : pieces p leading m -> m < q -> trivia_span piece = Span_new m q ->
  as_bytes (trivia_text piece) = between source m q -> trivia_ok (trivia_kind piece) (as_bytes (trivia_text piece)) ->
  pieces p (leading ++ [piece]) q.
Proof.
  revert p. induction leading as [|t leading IH]; intros p; simpl.
  - intros -> Hlt Hs Ht Hok. by exists q.
  - intros (k & Hk & Hs & Ht & Hok & Hp) Hlt Hs' Ht' Hok'. exists k. split_and!; [done..|by apply IH].
Qed.

Definition leading_text (leading : list Trivia) : list u8 := concat ((fun piece => as_bytes (trivia_text piece)) <$> leading).

Lemma pieces_text p leading q : pieces p leading q -> p <= q /\ leading_text leading = between source p q.
Proof.
  unfold leading_text. revert p. induction leading as [|t leading IH]; intros p; cbn [pieces].
  - intros ->. unfold between. by rewrite Nat.sub_diag.
  - rewrite fmap_cons. cbn [concat]. intros (m & Hm & _ & Ht & _ & [Hle Hp]%IH). split; [lia|]. rewrite Ht, Hp. symmetry. apply between_app. lia.
Qed.

Lemma trivia_turn_spec start limit leading x : token_limit limit -> boundary limit -> boundary x -> remaining x limit ->
  pieces start leading x ->
  wpe quiet (trivia_turn source limit leading) (fun r s' => match r with
    | inl leading' => exists q, s' = mk_Lexer q [] /\ x < q <= limit /\ boundary q /\ remaining q limit /\ pieces start leading' q
    | inr leading' => s' = mk_Lexer limit [] /\ pieces start leading' limit
    end) (mk_Lexer x []).
Proof.
  intros Hl Hbl Hx Hr Hp. pose proof (remaining_le _ _ Hl Hr) as Hle. unfold trivia_turn. wp_steps.
  destruct (Nat.leb_spec limit x); wp_steps.
  { assert (x = limit) as -> by lia. done. }
  eapply lwp_mono; [by apply trivia_piece_spec|]. intros kind s' (q & -> & Hq & Hbq & Hrq & Hok). wp_steps.
  apply wp_slice; [done|done|lia|]. intros t Ht. wp_steps. exists q. split_and!; [done|lia|lia|done|done|].
  eapply pieces_snoc; [done|lia|done..|]. simpl. by rewrite Ht.
Qed.

Lemma leading_spec x limit : token_limit limit -> boundary limit -> boundary x -> gap source x limit ->
  wpe quiet (loop source (trivia_turn source limit) []) (fun leading s' => s' = mk_Lexer limit [] /\ pieces x leading limit)
    (mk_Lexer x []).
Proof.
  intros Hl Hbl Hx Hg. apply (wp_loop _ _ (fun leading s' => exists q, s' = mk_Lexer q [] /\ x <= q <= limit /\
    boundary q /\ remaining q limit /\ pieces x leading q)).
  - exists x. split_and!; [done|lia|by apply gap_le in Hg|done|by left|done].
  - intros _ s' (q & -> & Hq & _). destruct Hl. simpl. lia.
  - intros leading s' (q & -> & Hq & Hbq & Hrq & Hp). eapply lwp_mono; [by apply trivia_turn_spec|].
    intros [leading'|leading'] s2; [|done]. intros (q' & -> & Hq' & Hb' & Hr' & Hp'). split; [|simpl; lia].
    exists q'. split_and!; [done|lia|lia|done..].
Qed.

(** ** All tokens *)

(** The bytes of the source that a token and its trivia come from. *)
Definition full_text (t : TokenWithTrivia) : list u8 :=
  leading_text (leading t) ++ between source (start_of (token_span (with_token t))) (end_of (token_span (with_token t))).

Hypothesis source_fits : (N.of_nat (length source) < 2 ^ 64)%N.

Lemma start_of_new a b : a <= length source -> start_of (Span_new a b) = a.
Proof. intros Ha. unfold start_of, Span_new. cbn [Span_start]. rewrite uval_wrap_small; lia. Qed.

Lemma end_of_new a b : b <= length source -> end_of (Span_new a b) = b.
Proof. intros Ha. unfold end_of, Span_new. cbn [Span_end]. rewrite uval_wrap_small; lia. Qed.

(** A token of [attach_trivia] with what it reads. *)
Definition attached (token : Token) (t : TokenWithTrivia) : Prop :=
  with_token t = token /\ exists p, pieces p (leading t) (start_of (token_span token)).

Lemma attach_one token tokens p a b (Q : list TokenWithTrivia -> Lexer -> Prop) :
  token_span token = Span_new a b -> boundary p -> boundary a -> a <= b -> boundary b -> gap source p a -> token_limit a ->
  (forall leading, pieces p leading a -> wpe quiet (attach_trivia source tokens)
    (fun rest s' => Q (mk_TokenWithTrivia token leading :: rest) s') (mk_Lexer b [])) ->
  wpe quiet (attach_trivia source (token :: tokens)) Q (mk_Lexer p []).
Proof.
  intros Es Hp Ha Hab Hb Hg Hl Hk. cbn [attach_trivia]. rewrite Es, start_of_new, end_of_new by by apply boundary_le.
  wp_step. eapply lwp_mono; [by apply leading_spec|]. intros leading s' [-> Hpl]. wp_step. wp_step. wp_step.
  eapply lwp_mono; [by apply Hk|]. intros rest s2 HQ. by wp_steps.
Qed.

Lemma attach_trivia_spec body p : boundary p -> tiles source (gap source) p body (length source) ->
  let tokens := body ++ [mk_Token TokenKind_End (Span_new (length source) (length source))] in
  wpe quiet (attach_trivia source tokens) (fun result _ =>
    Forall2 attached tokens result /\ concat (full_text <$> result) = drop p source) (mk_Lexer p []).
Proof.
  cbv zeta. revert p. pose proof (at_boundary_end source) as Hend.
  assert (Htext : forall leading token a b, token_span token = Span_new a b -> a <= length source -> b <= length source ->
    full_text (mk_TokenWithTrivia token leading) = leading_text leading ++ between source a b).
  { intros leading token a b Es Ha Hb. unfold full_text. simpl. by rewrite Es, start_of_new, end_of_new. }
  induction body as [|token body IH]; intros p Hp; cbn [app tiles].
  - intros Hg. apply (attach_one _ _ _ (length source) (length source)); [done..|split; [done|]|].
    { intros b Hb. apply lookup_lt_Some in Hb. lia. }
    intros leading Hl. cbn [attach_trivia]. wp_steps. split.
    + repeat constructor. exists p. cbn [token_span Lexer.leading]. by rewrite start_of_new.
    + rewrite fmap_cons. cbn [concat fmap list_fmap]. rewrite (Htext _ _ (length source) (length source)) by done. destruct (pieces_text _ _ _ Hl) as [_ ->].
      unfold between at 2. rewrite Nat.sub_diag, !app_nil_r. unfold between. apply take_ge. rewrite length_drop. lia.
  - intros (a & b & Es & Hg & (Hab & Ha & Hb & Htb) & Ht).
    apply (attach_one _ _ _ a b); [done|done|done|lia|done|done| |].
    { split; [by apply boundary_le|]. intros c Ec. destruct Htb as (c' & Ec' & Hw). congruence. }
    intros leading Hl. eapply lwp_mono; [by apply IH|]. intros result s' [Hf Hc]. split.
    + constructor; [|done]. split; [done|]. exists p. cbn [Lexer.leading]. rewrite Es, start_of_new; [done|by apply boundary_le].
    + rewrite fmap_cons. cbn [concat]. rewrite Hc, (Htext _ _ _ _ Es) by by apply boundary_le.
      destruct (pieces_text _ _ _ Hl) as [Hle ->]. rewrite <- (between_app source p a b) by lia.
      unfold between. replace (drop b source) with (drop (b - p) (drop p source)) by (rewrite drop_drop; f_equal; lia).
      apply take_drop.
Qed.
End trivia.

(** The token that ends the tokens of a source. *)
Definition end_token (source : list u8) : Token := mk_Token TokenKind_End (Span_new (length source) (length source)).

(** A separator stands directly between two identifiers. *)
Definition separators_join (tokens : list Token) : Prop := forall i t,
  tokens !! i = Some t -> token_kind t = TokenKind_PathSep ->
  exists before after, 1 <= i /\ tokens !! (i - 1) = Some before /\ tokens !! S i = Some after /\
    is_segment before = true /\ is_segment after = true /\
    end_of (token_span before) = start_of (token_span t) /\ end_of (token_span t) = start_of (token_span after).

(** What the lexer guarantees of its tokens and diagnostics, from [start] on. *)
Record well_lexed (source : list u8) (start : nat) (tokens : list Token) (diagnostics : list Diagnostic) : Prop := mk_well_lexed {
  lexed_tokens : exists body, tokens = body ++ [end_token source] /\ tiles source le start body (length source) /\
    (diagnostics = [] -> tiles source (gap source) start body (length source));
  lexed_specs : Forall (fun t => forall spec, spec_of (token_kind t) = Some spec -> spec_ok spec) tokens;
  lexed_separators : separators_join tokens;
  lexed_reports : Forall (fun d => span_in source (diagnostic_span d)) diagnostics;
  lexed_count : length diagnostics <= MAX_UNIQUE_DIAGNOSTICS }.

Section result.
Context (source : list u8) (Hv : valid source) (edition : Edition) (gated : list (list u8 * Edition)).

Abbreviation boundary := (at_boundary source).

Lemma tiles_spans R p ts ts' q : token_span <$> ts' = token_span <$> ts -> tiles source R p ts q -> tiles source R p ts' q.
Proof.
  revert p ts'. induction ts as [|t ts IH]; intros p [|t' ts']; try done.
  rewrite !fmap_cons. intros [= E Es] (a & b & Et & H). cbn [tiles]. exists a, b. rewrite E. destruct H as (Hr & Hl & Ht).
  split_and!; [done..|by apply IH].
Qed.

Lemma marked_kinds ts ts' : marked ts ts' -> Forall (fun t => kind_ok (token_kind t)) ts ->
  Forall (fun t => forall spec, spec_of (token_kind t) = Some spec -> spec_ok spec) ts'.
Proof.
  intros Hm Hk. apply Forall_lookup_2. intros i t' Et'. destruct (marked_lookup _ _ _ _ Hm Et') as (t & Et & [->| ->]); [|done].
  apply (Forall_lookup_1 _ _ _ _ Hk Et).
Qed.

(** The diagnostic of a hole that is still open. *)
Definition open_hole (s : Lexer) : list Diagnostic :=
  match holes s with
  | hole :: _ => [mk_Diagnostic UnterminatedInterpolationHole (Span_new (hole_start hole) (position s))]
  | [] => []
  end.

(** The tokens after the loop. *)
Definition finish (acc : list Token * list Diagnostic) (s : Lexer) : Result (list Token * list Diagnostic) LexError * Lexer :=
  let tokens := acc.1 ++ [mk_Token TokenKind_End (Span_new (position s) (position s))] in
  match mark_paths source (S (length tokens)) tokens 1 with
  | Some tokens => (Ok (tokens, acc.2 ++ open_hole s), s)
  | None => (Err Panic, s)
  end.

Lemma tokens_eq recovering s :
  tokens source edition gated recovering s =
  match loop source (tokens_turn source edition gated recovering) ([], []) s with
  | (Ok acc, s') => finish acc s'
  | (Err e, s') => (Err e, s')
  end.
Proof.
  unfold tokens, bind. destruct (loop _ _ _ s) as [[[ts ds]|e] s']; [|done]. unfold finish, get_holes, get_position. cbn [fst snd].
  destruct (mark_paths _ _ _ _); done.
Qed.

Lemma finish_spec start acc s : loop_result source start acc s -> exists tokens,
  finish acc s = (Ok (tokens, acc.2 ++ open_hole s), s) /\ well_lexed source start tokens (acc.2 ++ open_hole s).
Proof.
  intros (Hok & Hp & [Ht Hg Hk Hr] & Hlen). unfold finish. rewrite Hp. fold (end_token source).
  destruct (mark_paths_total source (S (length (acc.1 ++ [end_token source]))) (acc.1 ++ [end_token source]) 1) as (ts' & -> & Hm);
    [lia..|].
  assert (Forall (fun t => kind_ok (token_kind t)) (acc.1 ++ [end_token source])) as Hk'.
  { apply Forall_app. split; [done|]. repeat constructor; done. }
  exists ts'. split; [done|]. destruct (marked_last _ _ _ Hm) as (body & -> & Hbl). split.
  - exists body. split; [done|]. pose proof (marked_spans _ _ Hm) as Es. rewrite !fmap_app in Es.
    apply app_inj_1 in Es as [Es _]; [|by rewrite !length_fmap].
    split; [by eapply tiles_spans|]. intros [Hd _]%app_nil. eapply tiles_spans; [done|by apply Hg].
  - by eapply marked_kinds.
  - intros i t Et Ek. eapply marked_separators; [done| |done..]. eapply Forall_impl; [done|]. by intros u [Hu _].
  - apply Forall_app. split; [done|]. unfold open_hole. destruct Hok as [Hb Hh]. destruct (holes s) as [|hole hs]; constructor; [|constructor].
    apply Forall_cons_1 in Hh as [[Hhb Hhl] _]. simpl. by exists (hole_start hole), (position s).
  - rewrite length_app. unfold open_hole. destruct (holes s); simpl; lia.
Qed.

Lemma tokens_spec recovering start : boundary start -> exists tokens_ diagnostics s',
  tokens source edition gated recovering (mk_Lexer start []) = (Ok (tokens_, diagnostics), s') /\
  well_lexed source start tokens_ diagnostics.
Proof.
  intros Hb. rewrite tokens_eq.
  pose proof (tokens_loop_spec source Hv edition gated recovering start (mk_Lexer start []) eq_refl Hb eq_refl) as Hl.
  unfold wpe in Hl. destruct (loop _ _ _ _) as [[acc|e] s'] eqn:E.
  - destruct (finish_spec _ _ _ Hl) as (ts & -> & Hw). by eexists _, _, _.
  - by destruct e.
Qed.

(** ** Where the content starts *)

Lemma bom_valid r : valid ((byte_of <$> [0xEF; 0xBB; 0xBF]%N) ++ r) -> valid r.
Proof. exact (fun H => H). Qed.

Lemma content_start_spec s : wpe quiet (content_start source) (fun start s' => s' = s /\ boundary start) s.
Proof.
  unfold content_start. wp_if Eb; wp_steps.
  { split; [done|]. apply starts_with_true in Eb as [r E]. split.
    - rewrite E, length_app. simpl. lia.
    - rewrite E. apply bom_valid. by rewrite E in Hv. }
  unfold shebang_length. wp_if Es; wp_steps; [split; [done|by apply at_boundary_0]|]. clear Es Eb.
  set (q := match list_find _ source with Some (i, _) => i | None => length source end).
  assert (boundary q) as Hq.
  { unfold q. destruct (list_find _ source) as [[i b]|] eqn:E; [|apply at_boundary_end].
    apply list_find_Some in E as (Eb & Hb & _). eapply boundary_at_ascii; [done..|by rewrite Hb]. }
  apply wp_slice_bytes; [by apply at_boundary_0|done|lia|]. wp_steps. split; [done|].
  destruct (last (between source 0 q)) as [b|] eqn:El; [|done]. destruct (N.eqb_spec (uval b) RETURN) as [Hb|]; [|done].
  rewrite last_lookup in El. pose proof (boundary_le _ _ Hq). rewrite length_between in El by lia.
  unfold between in El. apply lookup_take_Some in El as [El _]. rewrite drop_0, Nat.sub_0_r in El.
  replace (q - 1) with (pred q) by lia. eapply boundary_at_ascii; [done..|by rewrite Hb].
Qed.

(** The start of the content as a number. *)
Definition content_from : nat := match content_start source (mk_Lexer 0 []) with (Ok start, _) => start | _ => 0 end.

Lemma content_start_eq s : content_start source s = (Ok content_from, s) /\ boundary content_from.
Proof.
  pose proof (content_start_spec s) as H. pose proof (content_start_spec (mk_Lexer 0 [])) as H0.
  assert (content_start source s = (fst (content_start source (mk_Lexer 0 [])), s)) as E.
  { unfold content_start, shebang_length, slice_bytes, bind, ret, fail. repeat (case_match; simplify_eq; try done). }
  unfold content_from. unfold wpe in H, H0. rewrite E in H |- *.
  destruct (content_start source (mk_Lexer 0 [])) as [[start|e] s']; simpl in *; [|by destruct e].
  split; [done|apply H].
Qed.

Lemma tokenize_eq recovering s : length source <= MAX_SOURCE_BYTES ->
  tokenize source edition gated recovering s = tokens source edition gated recovering (mk_Lexer content_from (holes s)).
Proof.
  intros Hl. unfold tokenize. rewrite (proj2 (Nat.ltb_ge _ _) Hl). unfold bind at 1.
  by rewrite (proj1 (content_start_eq s)).
Qed.

Lemma tokenize_large recovering s : MAX_SOURCE_BYTES < length source ->
  tokenize source edition gated recovering s = (Ok ([], [mk_Diagnostic SourceTooLarge (Span_new 0 0)]), s).
Proof. intros Hl. unfold tokenize. by rewrite (proj2 (Nat.ltb_lt _ _) Hl). Qed.

(** ** With and without recovery *)

Lemma loop_step {A R} fuel (turn : A -> M LexError Lexer (A + R)) a s :
  loop_from (S fuel) turn a s =
  match turn a s with
  | (Ok (inl a), s) => loop_from fuel turn a s
  | (Ok (inr r), s) => (Ok r, s)
  | (Err e, s) => (Err e, s)
  end.
Proof. cbn [loop_from]. unfold bind. by destruct (turn a s) as [[[a'|r]|e] s']. Qed.

Abbreviation run_loop recovering fuel := (loop_from fuel (tokens_turn source edition gated recovering)).

(** Once there is a first diagnostic, it stays the first one. *)
Lemma loop_first fuel ts d ds s acc s' : run_loop true fuel (ts, d :: ds) s = (Ok acc, s') -> head acc.2 = Some d.
Proof.
  revert ts ds s. induction fuel as [|fuel IH]; intros ts ds s; [done|]. rewrite loop_step. unfold tokens_turn at 1.
  destruct (_ <=? _); [by intros [= <- _]|]. cbv zeta.
  destruct (token source edition gated s) as [[[t|]|[d'| |]] s1]; [by apply IH..| |done|done].
  destruct (_ || _); [by intros [= <- _]|]. unfold bind. destruct (recover _ _ _ _) as [[[]|e] s2]; [by apply IH|done].
Qed.

(** Until the first diagnostic both loops do the same. *)
Definition agree (acc : list Token * list Diagnostic) (s : Lexer)
    (recovered : Result (list Token * list Diagnostic) LexError * Lexer) : Prop :=
  match acc.2 with
  | [] => recovered = (Ok acc, s)
  | d :: _ => holes s = [] /\ length acc.2 = 1 /\ forall acc2 s2, recovered = (Ok acc2, s2) -> head acc2.2 = Some d
  end.

Lemma loop_agree fuel ts s acc s' : run_loop false fuel (ts, []) s = (Ok acc, s') -> agree acc s' (run_loop true fuel (ts, []) s).
Proof.
  revert ts s. induction fuel as [|fuel IH]; intros ts s; [done|]. rewrite !loop_step. unfold tokens_turn at 1 3.
  destruct (_ <=? _); [by intros [= <- <-]|]. cbv zeta.
  destruct (token source edition gated s) as [[[t|]|[d'| |]] s1]; [by apply IH..| |done|done].
  cbn [negb orb app]. intros [= <- <-]. split; [done|]. split; [done|]. intros acc2 s2.
  destruct (Nat.eqb _ _); [by intros [= <- _]|]. unfold bind. destruct (recover _ _ _ _) as [[[]|e] s3]; [by apply loop_first|done].
Qed.

(** [tokens] without recovery gives the tokens of [tokens] with recovery, or its first diagnostic. *)
Lemma tokens_agree start ts ds s : boundary start ->
  tokens source edition gated true (mk_Lexer start []) = (Ok (ts, ds), s) ->
  exists ts' s', tokens source edition gated false (mk_Lexer start []) = (Ok (ts', take 1 ds), s') /\ (ds = [] -> ts' = ts).
Proof.
  intros Hb Ht. rewrite tokens_eq in Ht |- *.
  pose proof (tokens_loop_spec source Hv edition gated false start (mk_Lexer start []) eq_refl Hb eq_refl) as Hl.
  unfold wpe in Hl. destruct (loop _ (tokens_turn _ _ _ false) _ _) as [[acc|e] s'] eqn:E; [|by destruct e].
  pose proof (loop_agree _ _ _ _ _ E) as Ha. destruct (finish_spec _ _ _ Hl) as (ts' & Ef & Hw).
  unfold agree in Ha. unfold loop in Ht. destruct acc as [ts0 [|d ds0]]; cbn [fst snd] in *.
  - rewrite Ha in Ht. rewrite Ef in Ht |- *. injection Ht as <- <- <-. exists ts', s'. split; [|done].
    unfold open_hole. by destruct (holes s').
  - destruct Ha as (Hh & Hone & Hhead). destruct ds0; [|simpl in Hone; lia]. unfold open_hole in Ef. rewrite Hh in Ef.
    destruct (run_loop true _ _ _) as [[acc2|e] s2]; [|done]. specialize (Hhead acc2 s2 eq_refl).
    unfold finish in Ht. destruct (mark_paths _ _ _ _); [|done]. injection Ht as <- <- <-.
    destruct (acc2.2) as [|d2 ds2]; [done|]. injection Hhead as ->. exists ts', s'. by rewrite Ef.
Qed.
End result.
