(* ===== verification/LexerNumbers.v ===== *)
(** * Numbers and their suffixes

    [numeric_suffix] on the spelling of a number finds the suffix that [number] read, and [literal_parts]
    on the text of its token finds the digits and the name of the suffix. *)
From Stdlib Require Import Ascii.
From stdpp Require Import strings.
From S2P Require Import Prelude.
From S2P Require Import Wire.
From S2P Require Import Syntax.
From S2P Require Import Utf8.
From S2P Require Import Token.
From S2P Require Import Lexer.
From S2P Require Import LexerLaws.
From S2P Require Import LexerScan.
Local Open Scope nat_scope.

(** ** Bytes *)

Ltac known_byte :=
  repeat match goal with
  | H : (_ || _) = true |- _ => apply orb_prop in H as [H|H]
  | H : is_char ?b ?c = true |- _ => unfold is_char in H; apply N.eqb_eq in H
  end;
  unfold is_digit, to_digit, is_char, in_range;
  repeat match goal with H : uval _ = _ |- _ => rewrite H; clear H end; try done.

Lemma exponent_other b : is_exponent b = true -> digitish 10 b = false /\ is_char b "." = false.
Proof. unfold is_exponent, digitish. intros H. split; known_byte. Qed.

Lemma sign_other b : is_sign b = true -> digitish 10 b = false.
Proof. unfold is_sign, digitish. intros H. known_byte. Qed.

Lemma point_other b : is_char b "." = true -> digitish 10 b = false.
Proof. unfold digitish. intros H. known_byte. Qed.

(** ** [numeric_suffix] *)

(** The list is empty, or starts with a byte that [f] rejects. *)
Definition stops (f : u8 -> bool) (bs : list u8) : Prop := forall b r, bs = b :: r -> f b = false.

Definition digits_of (radix : N) (ds : list u8) : Prop := Forall (fun b => digitish radix b = true) ds.

Lemma skip_digits_all radix ds rest : digits_of radix ds -> stops (digitish radix) rest -> skip_digits radix (ds ++ rest) = rest.
Proof.
  intros Hd Hs. induction Hd as [|b ds Hb _ IH]; cbn [app skip_digits].
  - destruct rest as [|b rest]; [done|]. cbn [skip_digits]. specialize (Hs b rest eq_refl). unfold digitish in Hs. by rewrite orb_comm, Hs.
  - unfold digitish in Hb. by rewrite orb_comm, Hb.
Qed.

(** The exponent, if there is one. *)
Definition skip_exponent (bytes : list u8) : list u8 :=
  match bytes with
  | e :: (next :: after') as after =>
    if (is_char e "e" || is_char e "E") &&
       (is_ascii_digit next || is_char next "+" || is_char next "-") then
      if is_char next "+" || is_char next "-" then skip_digits 10 after' else skip_digits 10 after
    else bytes
  | _ => bytes
  end.

(** The fraction, if there is one. *)
Definition skip_fraction (bytes : list u8) : list u8 :=
  match bytes with
  | point :: (digit :: _) as after =>
    if is_char point "." && is_ascii_digit digit then skip_digits 10 after else bytes
  | _ => bytes
  end.

Lemma numeric_suffix_decimal text : starts_with (txt "0x") text = false -> starts_with (txt "0b") text = false ->
  numeric_suffix text = skip_exponent (skip_fraction (skip_digits 10 text)).
Proof. intros Hx Hb. unfold numeric_suffix. by rewrite Hx, Hb. Qed.

(** The text of an exponent: nothing, or a letter, a sign and digits. *)
Definition exponent_text (bs rest : list u8) : Prop :=
  bs = [] /\ stops is_exponent rest \/
  exists e sign d ds, bs = e :: sign ++ d :: ds /\ is_exponent e = true /\ is_ascii_digit d = true /\ digits_of 10 (d :: ds) /\
    (sign = [] \/ exists b, sign = [b] /\ is_sign b = true).

Definition fraction_text (bs rest : list u8) : Prop :=
  bs = [] /\ (forall b d r, rest = b :: d :: r -> is_char b "." = true -> is_ascii_digit d = false) \/
  exists point d ds, bs = point :: d :: ds /\ is_char point "." = true /\ is_ascii_digit d = true /\ digits_of 10 (d :: ds).

Lemma ascii_digit_not_sign d : is_ascii_digit d = true -> is_char d "+" || is_char d "-" = false.
Proof.
  unfold is_ascii_digit, in_range. intros [Hd%N.leb_le _]%andb_prop. change (ch "0") with 48%N in Hd. unfold is_char.
  apply orb_false_iff. split; apply N.eqb_neq; [change (ch "+") with 43%N|change (ch "-") with 45%N]; lia.
Qed.

Lemma skip_exponent_text exponent rest : exponent_text exponent rest -> stops (digitish 10) rest -> skip_exponent (exponent ++ rest) = rest.
Proof.
  intros [[-> Hn]|(e & sign & d & ds & -> & He & Hd & Hds & Hsign)] Hs.
  - destruct rest as [|b [|c r]]; [done..|]. cbn [app skip_exponent]. specialize (Hn b _ eq_refl). unfold is_exponent in Hn. by rewrite Hn.
  - unfold is_exponent in He. destruct Hsign as [->|(b & -> & Hb)]; cbn [app skip_exponent]; rewrite He.
    + rewrite Hd, (ascii_digit_not_sign d Hd). by apply (skip_digits_all 10 (d :: ds)).
    + unfold is_sign in Hb. rewrite <- orb_assoc, Hb, orb_true_r. by apply (skip_digits_all 10 (d :: ds)).
Qed.

Lemma skip_fraction_text fraction rest : fraction_text fraction rest -> stops (digitish 10) rest -> skip_fraction (fraction ++ rest) = rest.
Proof.
  intros [[-> Hn]|(point & d & ds & -> & Hp & Hd & Hds)] Hs; cbn [app skip_fraction].
  - destruct rest as [|b [|c r]]; [done..|]. cbn [skip_fraction]. destruct (is_char b ".") eqn:Ep; [|done]. by rewrite (Hn b c r).
  - rewrite Hp, Hd. by apply (skip_digits_all 10 (d :: ds)).
Qed.

(** ** The spelling of a number *)

Section spelling.
Context (source : list u8) (q : nat).

(** The bytes from [p] up to the end of the literal. *)
Abbreviation upto p := (between source p q).

Lemma upto_head p b r : upto p = b :: r -> source !! p = Some b /\ upto (S p) = r.
Proof.
  intros E. assert (upto p !! 0 = Some b) as H by by rewrite E. unfold between in H. apply lookup_take_Some in H as [H Hlt].
  rewrite lookup_drop, Nat.add_0_r in H. split; [done|]. unfold between in *. rewrite (drop_S _ _ _ H) in E.
  replace (q - p) with (S (q - S p)) in E by lia. simpl in E. by injection E.
Qed.

Lemma stops_at (f : u8 -> bool) p : (forall b, source !! p = Some b -> f b = false) -> stops f (upto p).
Proof. intros H b r [E _]%upto_head. by apply H. Qed.

Lemma run_digits radix p m : digit_string source radix p m -> p < m /\ digits_of radix (between source p m) /\ forall b, source !! m = Some b -> digitish radix b = false.
Proof. intros H. pose proof (digit_string_lt _ _ _ _ H). destruct H as (Hr & _). split_and!; [done|by apply run_between|apply Hr]. Qed.

Lemma between_cons p m b : source !! p = Some b -> p < m -> between source p m = b :: between source (p + 1) m.
Proof. rewrite Nat.add_1_r. apply between_S. Qed.

Lemma digit_string_cons radix p m : digit_string source radix p m -> exists d ds, between source p m = d :: ds /\
  is_digit radix d = true /\ digits_of radix (d :: ds).
Proof.
  intros H. pose proof (digit_string_lt _ _ _ _ H) as Hlt. pose proof (run_digits _ _ _ H) as (_ & Hd & _).
  destruct H as (_ & (d & Ed & Hdd) & _). rewrite (between_cons _ _ d Ed Hlt) in *. by eexists _, _.
Qed.

Lemma fraction_spelling p m float : fraction_shape source p m float -> p <= m -> fraction_text (between source p m) (upto m).
Proof.
  destruct float; cbn [fraction_shape].
  - intros [(b & Eb & Hb) Hd] _. right. pose proof (digit_string_lt _ _ _ _ Hd).
    destruct (digit_string_cons _ _ _ Hd) as (d & ds & E & Hd1 & Hds). rewrite digit_10 in Hd1.
    exists b, d, ds. rewrite (between_cons _ _ b Eb) by lia. by rewrite E.
  - intros [-> H] _. left. split; [unfold between; by rewrite Nat.sub_diag|]. intros b d r E Hb.
    apply upto_head in E as [Eb E]. apply upto_head in E as [Ed _]. apply (H b d); [done..|by rewrite Nat.add_1_r].
Qed.

Lemma exponent_spelling p m float : exponent_shape source p m float -> p <= m -> exponent_text (between source p m) (upto m).
Proof.
  destruct float; cbn [exponent_shape].
  2: { intros [-> H] _. left. split; [unfold between; by rewrite Nat.sub_diag|]. by apply stops_at. }
  intros [(e & Ee & He) H] _. right. destruct H as [[(b & Eb & Hb) Hd]|Hd]; pose proof (digit_string_lt _ _ _ _ Hd);
    destruct (digit_string_cons _ _ _ Hd) as (d & ds & E & Hd1 & Hds); rewrite digit_10 in Hd1; rewrite (between_cons _ _ e Ee) by lia.
  - exists e, [b], d, ds. rewrite (between_cons _ _ b Eb) by lia. replace (p + 1 + 1) with (p + 2) by lia. rewrite E.
    split_and!; [done..|]. right. by exists b.
  - exists e, [], d, ds. rewrite E. split_and!; [done..|by left].
Qed.

(** A prefix of two bytes of the source is one of the spelling. *)
Lemma prefix_spelling p a b m : p + 2 <= m <= q -> starts_with [a; b] (drop p source) = true -> upto p = [a; b] ++ between source (p + 2) m ++ upto m.
Proof.
  intros Hm [r E]%starts_with_true. rewrite (between_app source p (p + 2)), (between_app source (p + 2) m) by lia. f_equal.
  unfold between. rewrite E. by replace (p + 2 - p) with 2 by lia.
Qed.

Lemma no_prefix_spelling p prefix : starts_with prefix (drop p source) = false -> starts_with prefix (upto p) = false.
Proof.
  intros H. apply not_true_iff_false. intros [r E]%starts_with_true. apply not_true_iff_false in H. apply H, starts_with_true.
  exists (r ++ drop (q - p) (drop p source)). rewrite app_assoc, <- E. unfold between. by rewrite take_drop.
Qed.

(** [numeric_suffix] drops exactly the digits that [number] read. *)
Lemma number_suffix p m radix float : number_shape source p m radix float -> m <= q -> numeric_suffix (upto p) = upto m.
Proof.
  intros Hshape Hq. unfold number_shape in Hshape. destruct (starts_with (txt "0x") (drop p source)) eqn:Ex;
    [|destruct (starts_with (txt "0b") (drop p source)) eqn:Eb].
  - destruct Hshape as (_ & _ & Hd). destruct (run_digits _ _ _ Hd) as (Hlt & Hds & Hend).
    rewrite (prefix_spelling p (byte_of 48) (byte_of 120) m) by (exact Ex || lia). unfold numeric_suffix. rewrite (proj2 (starts_with_true (txt "0x") _)) by by eexists.
    apply (skip_digits_all 16); [done|by apply stops_at].
  - destruct Hshape as (_ & _ & Hd). destruct (run_digits _ _ _ Hd) as (Hlt & Hds & Hend).
    unfold numeric_suffix. rewrite (no_prefix_spelling p _ Ex). rewrite (prefix_spelling p (byte_of 48) (byte_of 98) m) by (exact Eb || lia).
    rewrite (proj2 (starts_with_true (txt "0b") _)) by by eexists. apply (skip_digits_all 2); [done|by apply stops_at].
  - destruct Hshape as (_ & m1 & m2 & fraction & exponent & Hd & Hf & He & _).
    rewrite numeric_suffix_decimal by by apply no_prefix_spelling. destruct (run_digits _ _ _ Hd) as (Hlt & Hds & Hend).
    pose proof (proj1 (fraction_range _ _ _ _ Hf)) as Lf. pose proof (proj1 (exponent_range _ _ _ _ He)) as Le.
    rewrite (between_app source p m1) by lia. rewrite (skip_digits_all 10) by (done || by apply stops_at).
    assert (stops (digitish 10) (upto m2)) as S2.
    { apply stops_at. destruct fraction; [by apply (run_digits _ _ _ (proj2 Hf))|]. by destruct Hf as [-> _]. }
    assert (stops (digitish 10) (upto m)) as S3.
    { destruct exponent; [|destruct He as [-> _]; done]. apply stops_at.
      destruct He as [_ [[_ He]|He]]; by apply (run_digits _ _ _ He). }
    rewrite (between_app source m1 m2) by lia.
    pose proof (fraction_spelling m1 m2 _ Hf Lf) as Tf. pose proof (exponent_spelling m2 m _ He Le) as Te.
    rewrite skip_fraction_text by done. rewrite (between_app source m2 m) by lia. by apply skip_exponent_text.
Qed.
End spelling.

(** ** [literal_parts] *)

(** No text ends with both names, read with the bytes of a number before them. *)
Definition no_clash (hexadecimal : bool) (other name : list u8) : bool :=
  match strip_suffix other name with Some _ => false | None => true end &&
  forallb (fun k => negb (bool_decide (drop k other = name) && forallb (number_byte hexadecimal) (take k other)))
    (seq 1 (length other)).

(** [no_clash] for every name with the empty name and each later one. *)
Fixpoint clash_free (hexadecimal : bool) (names : list (list u8)) : bool :=
  match names with
  | [] => true
  | name :: names =>
    (hexadecimal && is_float_name name || forallb (no_clash hexadecimal name) ([] :: names)) && clash_free hexadecimal names
  end.

Lemma names_clash_free hexadecimal : clash_free hexadecimal NUMERIC_NAMES = true.
Proof. destruct hexadecimal; by vm_compute. Qed.

Lemma no_clash_strip hexadecimal other name text : no_clash hexadecimal other name = true ->
  Forall (fun b => number_byte hexadecimal b = true) text -> strip_suffix other (text ++ name) = None.
Proof.
  intros Hc Ht. destruct (strip_suffix other (text ++ name)) as [r|] eqn:E; [|done]. exfalso.
  apply strip_suffix_Some in E. apply andb_prop in Hc as [H1 H2]. apply app_eq_inv in E as [(l & E1 & E2)|(l & E1 & E2)]; swap 1 2.
  - subst r. rewrite E2 in H1. by rewrite (proj2 (strip_suffix_Some other (l ++ other) l) eq_refl) in H1.
  - destruct l as [|b l]; [rewrite app_nil_r in E1; simpl in E2; subst; by rewrite (proj2 (strip_suffix_Some name name []) eq_refl) in H1|].
    assert (length (b :: l) ∈ seq 1 (length other)) as Hin.
    { apply elem_of_seq. rewrite E2, length_app. simpl. lia. }
    pose proof (forallb_elem _ _ _ H2 Hin) as Hk. rewrite E2, drop_app_length, take_app_length, bool_decide_eq_true_2 in Hk by done.
    rewrite E1 in Ht. apply Forall_app in Ht as [_ Ht].
    assert (forallb (number_byte hexadecimal) (b :: l) = true) as Hf; [|by rewrite Hf in Hk].
    apply forallb_forall. intros c Hc%list_elem_of_In. rewrite list.Forall_forall in Ht. by apply Ht.
Qed.

Lemma parts_with_name hexadecimal names text name : clash_free hexadecimal names = true ->
  Forall (fun b => number_byte hexadecimal b = true) text -> starts_with (txt "0x") (text ++ name) = hexadecimal ->
  (hexadecimal = true -> is_float_name name = false) -> name = [] \/ name ∈ names ->
  parts_with names (text ++ name) = (text, if bool_decide (name = []) then None else Some name).
Proof.
  intros Hc Ht Hx Hfl. induction names as [|other names IH]; intros Hn.
  { destruct Hn as [->|Hn]; [by rewrite app_nil_r|by apply not_elem_of_nil in Hn]. }
  cbn [parts_with clash_free] in *. apply andb_prop in Hc as [Hc Hcs]. rewrite Hx. fold (is_float_name other).
  destruct (decide (name = other)) as [->|Hne].
  - assert (hexadecimal && is_float_name other = false) as Ef by (destruct hexadecimal; [by rewrite Hfl|done]).
    rewrite Ef in Hc |- *. rewrite (proj2 (strip_suffix_Some _ _ text) eq_refl). case_bool_decide as E; [|done]. subst other.
    cbn [orb forallb] in Hc. apply andb_prop in Hc as [Hc _]. done.
  - assert (name = [] \/ name ∈ names) as Hn'.
    { destruct Hn as [->|Hn]; [by left|right]. by apply elem_of_cons in Hn as [->|Hn]. }
    destruct (hexadecimal && is_float_name other); [by apply IH|]. cbn [orb] in Hc.
    rewrite (no_clash_strip hexadecimal other name text); [by apply IH| |done].
    apply (forallb_elem _ _ _ Hc). apply elem_of_cons. by destruct Hn' as [->|?]; [left|right].
Qed.

(** ** The text of the token *)

Lemma names_no_x : forallb (fun name => match name with b :: _ => negb (is_char b "x") | [] => false end) NUMERIC_NAMES = true.
Proof. by vm_compute. Qed.

Lemma shorts_named : forallb (fun p => is_numeric_name p.2) SHORT_SUFFIXES = true.
Proof. by vm_compute. Qed.

(** A suffix names a numeric type. *)
Lemma suffix_name_numeric suffix name : suffix_name suffix = Some name -> name = [] \/ name ∈ NUMERIC_NAMES.
Proof.
  unfold suffix_name. case_bool_decide; [intros [= <-]; by left|]. intros [[Hn _]|Hn]%suffix_type_from; right; [done|].
  pose proof (forallb_elem _ _ _ shorts_named Hn) as H1. by apply bool_decide_eq_true_1 in H1.
Qed.

Lemma number_byte_not_x b : number_byte false b = true -> is_char b "x" = false.
Proof.
  intros H. apply not_true_iff_false. intros E%N.eqb_eq. unfold number_byte, is_ascii_digit, is_exponent, is_sign, is_char, in_range in H.
  rewrite E in H. by vm_compute in H.
Qed.

Lemma spelling_digits hexadecimal text : Forall (spelling_byte hexadecimal) text ->
  Forall (fun b => number_byte hexadecimal b = true) (without_separators text).
Proof.
  rewrite !list.Forall_forall. intros H b [Hn Hb]%list_elem_of_filter. apply H in Hb. unfold spelling_byte in Hb.
  by rewrite Hn, orb_false_r in Hb.
Qed.

(** Only a hexadecimal number has the prefix [0x]. *)
Lemma decimal_no_prefix text name : Forall (fun b => number_byte false b = true) text -> text <> [] ->
  name = [] \/ name ∈ NUMERIC_NAMES -> starts_with (txt "0x") (text ++ name) = false.
Proof.
  intros Ht Hne Hn. apply not_true_iff_false. intros [r E]%starts_with_true. destruct text as [|a text]; [done|].
  change (txt "0x" ++ r) with (byte_of 48 :: byte_of 120 :: r) in E. injection E as -> E.
  apply Forall_cons_1 in Ht as [_ Ht]. destruct text as [|b text].
  - simpl in E. destruct Hn as [->|Hn]; [done|]. subst name. by pose proof (forallb_elem _ _ _ names_no_x Hn).
  - injection E as -> _. apply Forall_cons_1 in Ht as [Hb _]. by apply number_byte_not_x in Hb.
Qed.

Section token_text.
Context (source : list u8).

Lemma without_app xs ys : without_separators (xs ++ ys) = without_separators xs ++ without_separators ys.
Proof. apply filter_app. Qed.

(** The first byte of a number is a digit. *)
Lemma number_first p m radix float : number_shape source p m radix float -> p < m /\ exists d, source !! p = Some d /\ is_ascii_digit d = true.
Proof.
  unfold number_shape. destruct (starts_with (txt "0x") (drop p source)) eqn:Ex; [|destruct (starts_with (txt "0b") (drop p source)) eqn:Eb].
  - intros (_ & _ & Hd). apply digit_string_lt in Hd. split; [lia|]. exists (byte_of 48). split; [|done].
    exact (prefix_byte source p _ (txt "x") Ex).
  - intros (_ & _ & Hd). apply digit_string_lt in Hd. split; [lia|]. exists (byte_of 48). split; [|done].
    exact (prefix_byte source p _ (txt "b") Eb).
  - intros (_ & m1 & m2 & fraction & exponent & Hd & Hf & He & _). pose proof (digit_string_lt _ _ _ _ Hd).
    apply fraction_range in Hf as [Hf _]. apply exponent_range in He as [He _]. split; [lia|].
    destruct Hd as (_ & (d & Ed & Hdd) & _). exists d. by rewrite <- digit_10.
Qed.

Lemma number_prefix p m radix float name : number_shape source p m radix float -> name = [] \/ name ∈ NUMERIC_NAMES ->
  starts_with (txt "0x") (without_separators (between source p m) ++ name) = (radix =? 16)%N.
Proof.
  intros Hshape Hname. pose proof (number_first _ _ _ _ Hshape) as (Hlt & d & Ed & Hd).
  pose proof (spelling_digits _ _ (range_between _ _ _ _ (number_range _ _ _ _ _ Hshape))) as Hbytes.
  assert ((radix =? 16)%N = true -> starts_with (txt "0x") (drop p source) = true /\ p + 2 < m) as H16.
  { unfold number_shape in Hshape. destruct (starts_with (txt "0x") (drop p source)).
    - destruct Hshape as (_ & _ & H%digit_string_lt). by split.
    - destruct (starts_with (txt "0b") _); by destruct Hshape as [-> _]. }
  destruct (radix =? 16)%N.
  - destruct (H16 eq_refl) as [Hx H2]. apply starts_with_true in Hx as [r E]. apply starts_with_true.
    rewrite (between_app source p (p + 2)), without_app by lia.
    assert (between source p (p + 2) = txt "0x") as ->.
    { unfold between. rewrite E. by replace (p + 2 - p) with 2 by lia. }
    change (without_separators (txt "0x")) with (txt "0x"). rewrite <- !app_assoc. by eexists.
  - apply decimal_no_prefix; [done| |done]. rewrite (between_cons _ _ _ d Ed Hlt). unfold without_separators.
    rewrite filter_cons_True; [done|]. apply not_true_iff_false. intros E%N.eqb_eq. unfold is_ascii_digit, in_range in Hd. rewrite E in Hd. done.
Qed.

(** [literal_parts] splits the text of the token of a number. *)
Lemma number_parts p m radix float suffix name : number_shape source p m radix float -> suffix_name suffix = Some name ->
  radix = 10%N \/ is_float_name name = false ->
  literal_parts (without_separators (between source p m) ++ name) =
    (without_separators (between source p m), if bool_decide (name = []) then None else Some name).
Proof.
  intros Hshape Hname Hfloat. pose proof (suffix_name_numeric _ _ Hname) as Hn.
  apply (parts_with_name (radix =? 16)%N); [apply names_clash_free| | | |done].
  - by apply spelling_digits, range_between, (number_range _ _ _ _ float).
  - by apply (number_prefix p m radix float).
  - intros ->%N.eqb_eq. by destruct Hfloat.
Qed.
End token_text.
