(* ===== verification/SpecText.v ===== *)
(** * The canonical text of a format spec

    [spec_text] of [src/src/check.rs], the inverse of [parse_format_spec]: the back end names the routines of a
    format spec by its text. *)
From Stdlib Require Import Ascii.
From stdpp Require Import strings.
From S2P Require Import Prelude.
From S2P Require Import Wire.
From S2P Require Import Syntax.
From S2P Require Import Utf8.
From S2P Require Import Token.
From S2P Require Import Lexer.
From S2P Require Import LexerLaws.
From S2P Require Import LexerScan.
From S2P Require Import LexerText.
Local Open Scope nat_scope.
Local Open Scope monad_scope.

Definition align_char (align : FormatAlign) : N :=
  match align with FormatAlign_Left => ch "<" | FormatAlign_Right => ch ">" | FormatAlign_Center => ch "^" end.

Definition kind_char (kind : FormatKind) : N :=
  match kind with
  | FormatKind_LowerHex => ch "x"
  | FormatKind_UpperHex => ch "X"
  | FormatKind_Octal => ch "o"
  | FormatKind_Binary => ch "b"
  | FormatKind_Exponent => ch "e"
  | FormatKind_Fixed => ch "f"
  end.

(** [u16::to_string] *)
Definition u16_text (n : u16) : list u8 := decimal 5 (uval n) [].

Definition spec_text (spec : FormatSpec) : list u8 :=
  let fill := uval (char_u32 (FormatSpec_fill spec)) in
  match FormatSpec_align spec with
  | Some align => (if (fill =? 32)%N then [] else encode_utf8 fill) ++ encode_utf8 (align_char align)
  | None => []
  end ++
  (if FormatSpec_plus spec then txt "+" else []) ++
  (if (0 <? uval (FormatSpec_width spec))%N then u16_text (FormatSpec_width spec) else []) ++
  match FormatSpec_precision spec with Some precision => txt "." ++ u16_text precision | None => [] end ++
  match FormatSpec_kind spec with Some kind => encode_utf8 (kind_char kind) | None => [] end.

(** ** The characters of the text *)

Definition u16_chars (n : u16) : list N := uval <$> u16_text n.

Definition align_chars (spec : FormatSpec) : list N :=
  let fill := uval (char_u32 (FormatSpec_fill spec)) in
  match FormatSpec_align spec with
  | Some align => (if (fill =? 32)%N then [] else [fill]) ++ [align_char align]
  | None => []
  end.

Definition width_chars (width : u16) : list N := if (0 <? uval width)%N then u16_chars width else [].
Definition precision_chars (precision : option u16) : list N :=
  match precision with Some precision => ch "." :: u16_chars precision | None => [] end.
Definition kind_chars (kind : option FormatKind) : list N :=
  match kind with Some kind => [kind_char kind] | None => [] end.
Definition plus_chars (plus : bool) : list N := if plus then [ch "+"] else [].

Definition spec_chars (spec : FormatSpec) : list N :=
  align_chars spec ++ plus_chars (FormatSpec_plus spec) ++ width_chars (FormatSpec_width spec) ++
  precision_chars (FormatSpec_precision spec) ++ kind_chars (FormatSpec_kind spec).

(** The text of characters. *)
Definition text_of (cs : list N) : list u8 := concat (encode_utf8 <$> cs).

Lemma text_of_app xs ys : text_of (xs ++ ys) = text_of xs ++ text_of ys.
Proof. unfold text_of. by rewrite fmap_app, concat_app. Qed.

Lemma text_of_ascii bs : ascii bs -> text_of (uval <$> bs) = bs.
Proof.
  induction 1 as [|b bs Hb _ IH]; [done|]. unfold text_of in *. rewrite !fmap_cons. cbn [concat]. rewrite IH.
  unfold encode_utf8. rewrite (proj2 (N.ltb_lt _ _) Hb). by rewrite (byte_of_eq (uval b) b).
Qed.

Lemma u16_ascii n : ascii (u16_text n).
Proof. apply decimal_ascii. constructor. Qed.

Lemma text_of_u16 n : text_of (u16_chars n) = u16_text n.
Proof. apply text_of_ascii, u16_ascii. Qed.

Lemma spec_text_chars spec : spec_text spec = text_of (spec_chars spec).
Proof.
  unfold spec_text, spec_chars, align_chars, plus_chars, width_chars, precision_chars, kind_chars. cbv zeta.
  rewrite !text_of_app. f_equal; [|f_equal; [|f_equal; [|f_equal]]].
  - destruct (FormatSpec_align spec) as [a|]; [|done]. rewrite text_of_app. f_equal; [destruct (_ =? 32)%N|].
    + done.
    + unfold text_of. simpl. by rewrite app_nil_r.
    + unfold text_of. simpl. by rewrite app_nil_r.
  - by destruct (FormatSpec_plus spec).
  - destruct (0 <? _)%N; [by rewrite text_of_u16|done].
  - destruct (FormatSpec_precision spec) as [p|]; [|done]. unfold text_of. rewrite fmap_cons. cbn [concat].
    fold (text_of (u16_chars p)). by rewrite text_of_u16.
  - destruct (FormatSpec_kind spec); [|done]. unfold text_of. simpl. by rewrite app_nil_r.
Qed.

Lemma chars_text_of cs : Forall (fun c => is_scalar c = true) cs -> chars (length (text_of cs)) (text_of cs) = cs.
Proof.
  intros Hs. assert (forall fuel, length (text_of cs) <= fuel -> chars fuel (text_of cs) = cs) as H; [|by apply H].
  induction Hs as [|c cs Hc _ IH]; intros fuel Hf; [by destruct fuel|].
  pose proof (encode_seq c Hc) as Hseq. pose proof (seq_length _ _ Hseq). change (text_of (c :: cs)) with (encode_utf8 c ++ text_of cs) in *.
  rewrite length_app in Hf. destruct fuel as [|fuel]; [lia|]. rewrite (chars_seq _ _ _ _ Hseq). f_equal. apply IH. lia.
Qed.

(** ** Numbers of a spec *)

(** The digits of a number up to [MAX_FORMAT_FIELD]. *)
Definition number_check (n : N) : bool :=
  let digits := uval <$> decimal 5 n [] in
  forallb is_digit_char digits && (decimal_value digits =? n)%N && (1 <=? length digits) && (length digits <=? 4) &&
  (bool_decide (head digits <> Some (ch "0")) || (n =? 0)%N && (length digits =? 1)).

Lemma numbers_checked : forallb number_check (N.of_nat <$> seq 0 4097) = true.
Proof. by vm_compute. Qed.

Record spec_digits (n : u16) : Prop := mk_spec_digits {
  digits_are : Forall (fun c => is_digit_char c = true) (u16_chars n);
  digits_value : decimal_value (u16_chars n) = uval n;
  digits_nonempty : u16_chars n <> [];
  digits_length : length (u16_chars n) <= 4;
  digits_leading : head (u16_chars n) = Some (ch "0") -> uval n = 0%N /\ length (u16_chars n) = 1 }.

Lemma spec_digits_of n : (uval n <= MAX_FORMAT_FIELD)%N -> spec_digits n.
Proof.
  intros Hn. assert (number_check (uval n) = true) as Hc.
  { apply (forallb_elem _ _ _ numbers_checked), list_elem_of_fmap. exists (N.to_nat (uval n)).
    split; [lia|]. apply elem_of_seq. unfold MAX_FORMAT_FIELD in Hn. lia. }
  unfold number_check in Hc. fold (u16_text n) in Hc. fold (u16_chars n) in Hc. cbv zeta in Hc.
  repeat (apply andb_prop in Hc as [Hc ?]). apply Nat.leb_le in H0, H1. apply N.eqb_eq in H2. split; [|done| |done|].
  - clear -Hc. induction (u16_chars n) as [|c cs IH]; [constructor|]. apply andb_prop in Hc as [? ?]. constructor; [done|by apply IH].
  - intros E. rewrite E in H1. simpl in H1. lia.
  - intros E. apply orb_prop in H as [H|H]; [by apply bool_decide_eq_true_1 in H|].
    apply andb_prop in H as [H%N.eqb_eq H'%Nat.eqb_eq]. done.
Qed.

(** ** Parsing the text *)

(** The list does not start with a digit. *)
Definition no_digit (cs : list N) : Prop := forall c r, cs = c :: r -> is_digit_char c = false.

Lemma digit_run_app ds rest : Forall (fun c => is_digit_char c = true) ds -> no_digit rest -> digit_run (ds ++ rest) = ds.
Proof.
  intros Hd Hr. induction Hd as [|c ds Hc _ IH]; simpl.
  - destruct rest as [|c r]; [done|]. simpl. by rewrite (Hr c r eq_refl).
  - by rewrite Hc, IH.
Qed.

Section parse.
Context (fails : forall A, M LexError Lexer A).

Lemma spec_number_some chars index n rest zero s : drop index chars = u16_chars n ++ rest -> no_digit rest ->
  (uval n <= MAX_FORMAT_FIELD)%N -> (zero = false -> uval n <> 0%N) ->
  spec_number fails chars index zero s = (Ok (index + length (u16_chars n), Some n), s).
Proof.
  intros Hd Hr Hn Hz. pose proof (spec_digits_of n Hn) as [Ha Hv Hne Hl Hlead]. unfold spec_number. rewrite Hd.
  rewrite (digit_run_app _ _ Ha Hr). cbv zeta. rewrite bool_decide_eq_false_2 by done.
  assert (bool_decide (head (u16_chars n) = Some (ch "0")) && (negb zero || (1 <? length (u16_chars n))) = false) as ->.
  { case_bool_decide as Hh; [|done]. destruct (Hlead Hh) as [H0 ->]. destruct zero; [done|]. by destruct (Hz eq_refl). }
  rewrite (proj2 (Nat.ltb_ge _ _)) by lia. cbn [orb]. rewrite Hv, uint_try_uval. by rewrite (proj2 (N.ltb_ge _ _)) by lia.
Qed.

Lemma spec_number_none chars index zero s : no_digit (drop index chars) -> spec_number fails chars index zero s = (Ok (index, None), s).
Proof.
  intros Hr. unfold spec_number. by rewrite (digit_run_app [] (drop index chars) (List.Forall_nil _) Hr : digit_run (drop index chars) = []).
Qed.
End parse.

Lemma is_char_at_drop chars index c rest : drop index chars = rest ->
  is_char_at chars index c = match rest with d :: _ => bool_decide (d = c) | [] => false end.
Proof.
  intros E. unfold is_char_at. rewrite <- (Nat.add_0_r index), <- lookup_drop, E. destruct rest as [|d r]; [done|]. simpl.
  apply bool_decide_ext. split; [by intros [= ->]|by intros ->].
Qed.

Lemma drop_next {A} index (xs ys zs : list A) : drop index xs = ys ++ zs -> drop (index + length ys) xs = zs.
Proof. intros E. by rewrite <- drop_drop, E, drop_app_length. Qed.

(** The characters that a part can start with. *)
Definition starts_in (allowed : list N) (cs : list N) : Prop := forall c r, cs = c :: r -> c ∈ allowed.

Lemma starts_in_app allowed xs ys : starts_in allowed xs -> starts_in allowed ys -> starts_in allowed (xs ++ ys).
Proof. intros Hx Hy c r E. destruct xs as [|x xs]; [by eapply Hy|]. injection E as -> _. by eapply Hx. Qed.

Definition kind_letters : list N := [ch "x"; ch "X"; ch "o"; ch "b"; ch "e"; ch "f"].

Lemma kind_starts kind : starts_in kind_letters (kind_chars kind).
Proof. intros c r. destruct kind as [[]|]; simpl; intros [= <- _]; apply (bool_decide_unpack _); by vm_compute. Qed.

Lemma precision_starts precision : starts_in [ch "."] (precision_chars precision).
Proof. intros c r. destruct precision; simpl; intros [= <- _]. by apply list_elem_of_singleton. Qed.

Lemma starts_in_weaken a b cs : starts_in a cs -> a ⊆ b -> starts_in b cs.
Proof. intros H Hab c r E. apply Hab. by eapply H. Qed.

Lemma starts_no_digit allowed cs : starts_in allowed cs -> forallb (fun c => negb (is_digit_char c)) allowed = true -> no_digit cs.
Proof. intros H Ha c r E. apply H in E. pose proof (forallb_elem _ _ _ Ha E) as Hc. by apply negb_true_iff in Hc. Qed.

Lemma starts_not allowed cs (c : N) : starts_in allowed cs -> c ∉ allowed ->
  match cs with d :: _ => bool_decide (d = c) | [] => false end = false.
Proof.
  intros H Hc. destruct cs as [|d r]; [done|]. apply bool_decide_eq_false_2. intros ->. by apply Hc, (H c r).
Qed.

(** Everything after the alignment. *)
Definition tail_chars (spec : FormatSpec) : list N :=
  plus_chars (FormatSpec_plus spec) ++ width_chars (FormatSpec_width spec) ++
  precision_chars (FormatSpec_precision spec) ++ kind_chars (FormatSpec_kind spec).

Lemma digit_char_align c : is_digit_char c = true -> align_of c = None.
Proof.
  unfold is_digit_char, in_range. intros [H1%N.leb_le H2%N.leb_le]%andb_prop. change (ch "0") with 48%N in H1. change (ch "9") with 57%N in H2.
  unfold align_of. change (ch "<") with 60%N. change (ch ">") with 62%N. change (ch "^") with 94%N.
  by rewrite !(proj2 (N.eqb_neq _ _)) by lia.
Qed.

Lemma number_align n : (uval n <= MAX_FORMAT_FIELD)%N -> Forall (fun c => align_of c = None) (u16_chars n).
Proof. intros Hn. eapply Forall_impl; [apply (digits_are _ (spec_digits_of n Hn))|]. apply digit_char_align. Qed.

Lemma tail_align spec : spec_ok spec -> Forall (fun c => align_of c = None) (tail_chars spec).
Proof.
  intros [_ _ Hw Hp _]. unfold tail_chars, plus_chars, width_chars, precision_chars, kind_chars. repeat apply Forall_app_2.
  - destruct (FormatSpec_plus spec); repeat constructor.
  - destruct (0 <? _)%N; [by apply number_align|constructor].
  - destruct (FormatSpec_precision spec) as [p|]; [|constructor]. constructor; [done|]. by apply number_align, Hp.
  - destruct (FormatSpec_kind spec) as [[]|]; repeat constructor.
Qed.

Lemma align_of_char align : align_of (align_char align) = Some align.
Proof. by destruct align. Qed.

Lemma align_step (malformed : forall A, M LexError Lexer A) spec s : spec_ok spec -> spec_chars spec <> [] ->
  spec_align malformed (spec_chars spec) s =
  (Ok (uval (char_u32 (FormatSpec_fill spec)), FormatSpec_align spec, length (align_chars spec)), s).
Proof.
  intros Hok Hne. pose proof (tail_align spec Hok) as Ht. destruct Hok as [Hfill Hnone _ _ _].
  unfold spec_align. change (spec_chars spec) with (align_chars spec ++ tail_chars spec) in *. unfold align_chars in *.
  destruct (FormatSpec_align spec) as [a|].
  - destruct (N.eqb_spec (uval (char_u32 (FormatSpec_fill spec))) 32) as [E|E]; cbn [app lookup list_lookup].
    + destruct (tail_chars spec) as [|c cs]; cbn [lookup list_lookup mbind option_bind].
      * unfold bind. cbn [ok_or]. unfold ret. by rewrite align_of_char, E.
      * apply Forall_cons_1 in Ht as [Hc _]. rewrite Hc. unfold bind. cbn [ok_or]. unfold ret. by rewrite align_of_char, E.
    + cbn [mbind option_bind]. rewrite align_of_char. unfold bind. cbn [ok_or ret].
      unfold ret. rewrite bool_decide_eq_false_2 by done. done.
  - cbn [app] in *. destruct (tail_chars spec) as [|c [|d cs]]; [done|..]; cbn [lookup list_lookup mbind option_bind].
    + apply Forall_cons_1 in Ht as [Hc _]. unfold bind, ret. cbn [ok_or]. unfold ret. rewrite Hc, Hnone by done. done.
    + apply Forall_cons_1 in Ht as [Hc [Hd _]%Forall_cons_1]. rewrite Hd. unfold bind, ret. cbn [ok_or]. unfold ret. rewrite Hc, Hnone by done. done.
Qed.

(** What is left of the characters at an index. *)
Definition at_index (chars : list N) (index : nat) (rest : list N) : Prop :=
  drop index chars = rest /\ index + length rest = length chars.

Lemma at_index_next chars index ys zs : at_index chars index (ys ++ zs) -> at_index chars (index + length ys) zs.
Proof. intros [E L]. split; [by apply (drop_next _ _ ys)|]. rewrite length_app in L. lia. Qed.

Definition digit_list : list N := [ch "0"; ch "1"; ch "2"; ch "3"; ch "4"; ch "5"; ch "6"; ch "7"; ch "8"; ch "9"].

Lemma digit_in c : is_digit_char c = true -> c ∈ digit_list.
Proof.
  unfold is_digit_char, in_range. intros [H1%N.leb_le H2%N.leb_le]%andb_prop. change (ch "0") with 48%N in H1. change (ch "9") with 57%N in H2.
  assert (exists k, (k < 10)%N /\ c = (48 + k)%N) as (k & Hk & ->) by (exists (c - 48)%N; lia).
  assert (digit_list = (fun i => (48 + N.of_nat i)%N) <$> seq 0 10) as -> by done.
  apply list_elem_of_fmap. exists (N.to_nat k). split; [lia|]. apply elem_of_seq. lia.
Qed.

Lemma width_starts w : (uval w <= MAX_FORMAT_FIELD)%N -> starts_in digit_list (width_chars w).
Proof.
  intros Hw c r E. unfold width_chars in E. destruct (0 <? uval w)%N; [|done].
  pose proof (digits_are _ (spec_digits_of w Hw)) as Ha. rewrite E in Ha. apply Forall_cons_1 in Ha as [Hc _]. by apply digit_in.
Qed.

Section stages.
Context (spec : FormatSpec) (Hok : spec_ok spec) (chars : list N).

Abbreviation rest_2 := (precision_chars (FormatSpec_precision spec) ++ kind_chars (FormatSpec_kind spec)).
Abbreviation rest_1 := (width_chars (FormatSpec_width spec) ++ rest_2).

Lemma rest_2_no_digit : no_digit rest_2.
Proof.
  apply (starts_no_digit ([ch "."] ++ kind_letters)); [|by vm_compute].
  apply starts_in_app; [eapply starts_in_weaken; [apply precision_starts|]|eapply starts_in_weaken; [apply kind_starts|]].
  - intros c Hc. apply elem_of_app. by left.
  - intros c Hc. apply elem_of_app. by right.
Qed.

Lemma rest_1_starts : starts_in (digit_list ++ [ch "."] ++ kind_letters) rest_1.
Proof.
  apply starts_in_app; [|apply starts_in_app].
  - eapply starts_in_weaken; [apply width_starts, Hok|]. intros c Hc. apply elem_of_app. by left.
  - eapply starts_in_weaken; [apply precision_starts|]. intros c Hc. apply elem_of_app. right. apply elem_of_app. by left.
  - eapply starts_in_weaken; [apply kind_starts|]. intros c Hc. apply elem_of_app. right. apply elem_of_app. by right.
Qed.

Lemma plus_stage index : at_index chars index (tail_chars spec) ->
  is_char_at chars index (ch "+") = FormatSpec_plus spec /\
  at_index chars (index + if FormatSpec_plus spec then 1 else 0) rest_1.
Proof.
  intros H. split.
  - rewrite (is_char_at_drop _ _ _ _ (proj1 H)). unfold tail_chars, plus_chars. destruct (FormatSpec_plus spec); cbn [app]; [by rewrite bool_decide_eq_true_2|].
    apply (starts_not _ _ _ rest_1_starts). apply (bool_decide_unpack _). by vm_compute.
  - unfold tail_chars, plus_chars in H. destruct (FormatSpec_plus spec); [by apply (at_index_next _ _ [ch "+"])|by rewrite Nat.add_0_r].
Qed.

Lemma width_stage fails index s : at_index chars index rest_1 -> exists index' width,
  spec_number fails chars index false s = (Ok (index', width), s) /\ default (uint_wrap 16 0) width = FormatSpec_width spec /\
  at_index chars index' rest_2.
Proof.
  intros H. unfold width_chars in H. destruct (N.ltb_spec 0 (uval (FormatSpec_width spec))) as [Hw|Hw].
  - exists (index + length (u16_chars (FormatSpec_width spec))), (Some (FormatSpec_width spec)). split_and!; [|done|by apply at_index_next].
    eapply spec_number_some; [apply H|apply rest_2_no_digit|apply Hok|lia].
  - exists index, None. split_and!; [| |done].
    + apply spec_number_none. rewrite (proj1 H). apply rest_2_no_digit.
    + apply uint_eq. simpl. rewrite N.Div0.mod_0_l. lia.
Qed.

Lemma precision_stage (malformed fails : forall A, M LexError Lexer A) index s : at_index chars index rest_2 -> exists index',
  (if is_char_at chars index (ch ".") then
     let? (index, precision) := spec_number fails chars (index + 1) true in
     match precision with
     | Some precision => ret (index, Some precision)
     | None => malformed _
     end
   else ret (index, None)) s = (Ok (index', FormatSpec_precision spec), s) /\
  at_index chars index' (kind_chars (FormatSpec_kind spec)).
Proof.
  intros H. rewrite (is_char_at_drop _ _ _ _ (proj1 H)). pose proof (ok_precision _ Hok) as Hp. unfold precision_chars in *.
  destruct (FormatSpec_precision spec) as [p|]; cbn [app].
  - rewrite bool_decide_eq_true_2 by done. change (ch "." :: u16_chars p) with ([ch "."] ++ u16_chars p) in H. rewrite <- app_assoc in H.
    apply at_index_next in H. cbn [length] in H. exists (index + 1 + length (u16_chars p)). split; [|by apply at_index_next].
    unfold bind. erewrite spec_number_some; [done|apply H|..|by apply Hp|done].
    eapply starts_no_digit; [apply kind_starts|by vm_compute].
  - rewrite (starts_not _ _ _ (kind_starts _)); [by exists index|]. apply (bool_decide_unpack _). by vm_compute.
Qed.

Lemma kind_stage (malformed : forall A, M LexError Lexer A) index s : at_index chars index (kind_chars (FormatSpec_kind spec)) -> 
  (match chars !! index with
   | Some c =>
     match format_kind_of c with
     | Some kind => ret ((index + 1)%nat, Some kind)
     | None => malformed _
     end
   | None => ret (index, None)
   end) s = (Ok (length chars, FormatSpec_kind spec), s).
Proof.
  intros [E L]. assert (chars !! index = kind_chars (FormatSpec_kind spec) !! 0) as ->.
  { rewrite <- E, lookup_drop. by rewrite Nat.add_0_r. }
  unfold kind_chars in *.
  destruct (FormatSpec_kind spec) as [[]|]; cbn in *; unfold ret; repeat f_equal; lia.
Qed.
End stages.

(** A spec with another span. *)
Definition with_span (spec : FormatSpec) (span : Span) : FormatSpec :=
  mk_FormatSpec (FormatSpec_fill spec) (FormatSpec_align spec) (FormatSpec_plus spec) (FormatSpec_width spec)
    (FormatSpec_precision spec) (FormatSpec_kind spec) span.

Lemma spec_scalars spec : spec_ok spec -> Forall (fun c => is_scalar c = true) (spec_chars spec).
Proof.
  intros Hok. assert (forall n, Forall (fun c => is_scalar c = true) (u16_chars n)) as Hn.
  { intros n. unfold u16_chars. apply Forall_fmap. eapply Forall_impl; [apply u16_ascii|]. intros b Hb. simpl in Hb |- *. apply is_scalar_true. left. lia. }
  unfold spec_chars, align_chars, plus_chars, width_chars, precision_chars, kind_chars. repeat apply Forall_app_2.
  - destruct (FormatSpec_align spec) as [a|]; [|constructor]. apply Forall_app_2; [|destruct a; repeat constructor].
    destruct (_ =? 32)%N; [constructor|]. constructor; [apply char_scalar|constructor].
  - destruct (FormatSpec_plus spec); repeat constructor.
  - destruct (0 <? _)%N; [apply Hn|constructor].
  - destruct (FormatSpec_precision spec) as [p|]; [|constructor]. by constructor.
  - destruct (FormatSpec_kind spec) as [[]|]; repeat constructor.
Qed.

Lemma parse_spec_text spec start end_ s : spec_ok spec -> spec_text spec <> [] ->
  parse_format_spec (spec_text spec) start end_ s = (Ok (Some (with_span spec (Span_new start end_))), s).
Proof.
  intros Hok Hne. unfold parse_format_spec. rewrite bool_decide_eq_false_2 by done. cbv zeta.
  rewrite spec_text_chars in Hne |- *. rewrite (chars_text_of _ (spec_scalars _ Hok)).
  unfold bind at 1. rewrite (align_step _ spec s Hok) by (intros E; by rewrite E in Hne).
  assert (at_index (spec_chars spec) (length (align_chars spec)) (tail_chars spec)) as H0.
  { split; [apply drop_app_length|]. unfold spec_chars. by rewrite length_app. }
  destruct (plus_stage spec Hok _ _ H0) as [Ep H1]. rewrite Ep.
  destruct (width_stage spec Hok _ (fun A => error FormatFieldOutOfRange start end_) _ s H1) as (i2 & width & Ew & Edef & H2).
  unfold bind at 1. rewrite Ew. rewrite Edef.
  destruct (precision_stage spec Hok _ (fun A => error InvalidFormatSpec start end_) (fun A => error FormatFieldOutOfRange start end_) _ s H2)
    as (i3 & Eprec & H3).
  unfold bind at 1. rewrite Eprec. unfold bind at 1. rewrite (kind_stage spec _ (fun A => error InvalidFormatSpec start end_) _ s H3).
  rewrite Nat.eqb_refl. cbn [negb]. rewrite uint_wrap_uval, (proj2 (from_u32_Some _ (FormatSpec_fill spec)) eq_refl).
  pose proof (ok_kind _ Hok) as Hk. unfold with_span. destruct (FormatSpec_kind spec) as [[]|], (FormatSpec_precision spec); try done.
Qed.
