(* ===== verification/LexerTheorems.v ===== *)
(** * Theorems about the lexer

    For every source text: the lexer gives tokens and diagnostics, its entry points agree, and nothing of the
    source is lost. *)
From Stdlib Require Import Ascii.
From stdpp Require Import strings.
From S2P Require Import Prelude.
From S2P Require Import Wire.
From S2P Require Import Syntax.
From S2P Require Import Utf8.
From S2P Require Import Token.
From S2P Require Import Lexer.
From S2P Require Import LexerLaws.
From S2P Require Import LexerScan.
From S2P Require Import LexerText.
From S2P Require Import LexerTokens.
From S2P Require Import LexerRun.
From S2P Require Import LexerTrivia.
From S2P Require Import LexerNumbers.
From S2P Require Import SpecText.
Local Open Scope nat_scope.
Local Open Scope monad_scope.

(** ** Shared steps *)

Lemma lex_all_small (source : RString) edition : length (as_bytes source) <= MAX_SOURCE_BYTES ->
  exists tokens diagnostics, lex_all (as_bytes source) edition = Ok (tokens, diagnostics) /\
    well_lexed (as_bytes source) (content_from (as_bytes source)) tokens diagnostics.
Proof.
  intros Hl. pose proof (as_bytes_valid source) as Hv. unfold lex_all, run_lexer. rewrite tokenize_eq by done.
  destruct (tokens_spec _ Hv edition EDITION_KEYWORDS true (content_from (as_bytes source))) as (ts & ds & s' & E & Hw).
  { by apply (content_start_eq _ Hv (mk_Lexer 0 [])). }
  cbn [holes]. rewrite E. by eexists _, _.
Qed.

Lemma lex_all_large source edition : MAX_SOURCE_BYTES < length source ->
  lex_all source edition = Ok ([], [mk_Diagnostic SourceTooLarge (Span_new 0 0)]).
Proof. intros Hl. unfold lex_all, run_lexer. by rewrite tokenize_large. Qed.

Lemma lex_from_all (source : RString) edition :
  lex (as_bytes source) edition =
  match lex_all (as_bytes source) edition with
  | Ok (tokens, []) => Ok tokens
  | Ok (_, first :: _) => Err (Diagnosed first)
  | Err e => Err e
  end.
Proof.
  pose proof (as_bytes_valid source) as Hv. unfold lex.
  destruct (decide (length (as_bytes source) <= MAX_SOURCE_BYTES)) as [Hl|Hl].
  - unfold lex_all, run_lexer. rewrite !tokenize_eq by done. cbn [holes].
    pose proof (content_start_eq _ Hv (mk_Lexer 0 [])) as [_ Hb].
    destruct (tokens_spec _ Hv edition EDITION_KEYWORDS true _ Hb) as (ts & ds & s' & E & _).
    destruct (tokens_agree _ Hv edition EDITION_KEYWORDS _ _ _ _ Hb E) as (ts' & s2 & E' & Hts). rewrite E, E'. cbn [fst].
    destruct ds as [|d ds]; cbn [take]; [by rewrite Hts|done].
  - rewrite lex_all_large by lia. unfold run_lexer. rewrite tokenize_large by lia. done.
Qed.

Lemma small_fits (source : list u8) : length source <= MAX_SOURCE_BYTES -> (N.of_nat (length source) < 2 ^ 64)%N.
Proof.
  intros Hl. apply (N.le_lt_trans _ (N.of_nat MAX_SOURCE_BYTES)); [lia|]. unfold MAX_SOURCE_BYTES.
  rewrite Z_nat_N. by vm_compute.
Qed.

(** ** The entry points *)

(** C3: for every source text and edition, [lex_all] returns: no slice or index is out of range and every loop
    ends. A source over the size limit gives one diagnostic. For any other source the tokens lie in order inside
    the source, each over at least one byte and between character boundaries, and one [End] closes them; the
    format specs are well formed; a path separator stands directly between two identifiers; at most
    [MAX_UNIQUE_DIAGNOSTICS] diagnostics lie inside the source. *)
Theorem lex_all_returns (source : RString) (edition : Edition) :
  exists tokens diagnostics, lex_all (as_bytes source) edition = Ok (tokens, diagnostics) /\
  if MAX_SOURCE_BYTES <? length (as_bytes source)
  then tokens = [] /\ diagnostics = [mk_Diagnostic SourceTooLarge (Span_new 0 0)]
  else well_lexed (as_bytes source) (content_from (as_bytes source)) tokens diagnostics.
Proof.
  destruct (Nat.ltb_spec MAX_SOURCE_BYTES (length (as_bytes source))) as [Hl|Hl].
  - rewrite lex_all_large by done. by eexists _, _.
  - by apply lex_all_small.
Qed.

(** C30: [lex] reports the first diagnostic of [lex_all] when there is one, and otherwise gives the same tokens. *)
Theorem lex_first_diagnostic (source : RString) (edition : Edition) :
  lex (as_bytes source) edition =
  match lex_all (as_bytes source) edition with
  | Ok (tokens, []) => Ok tokens
  | Ok (_, first :: _) => Err (Diagnosed first)
  | Err e => Err e
  end.
Proof. apply lex_from_all. Qed.

(** C18: in a source that [lex] accepts, only white space and comments lie before the first token, between two
    tokens and after the last one: a line comment ends where its line does, and a block comment is closed, with balanced
    comments inside ([block_comment]). [lex] fails only with a diagnostic, which lies inside the source. *)
Theorem lex_accepts_covered (source : RString) (edition : Edition) :
  match lex (as_bytes source) edition with
  | Ok tokens => exists body, tokens = body ++ [end_token (as_bytes source)] /\
      tiles (as_bytes source) (gap (as_bytes source)) (content_from (as_bytes source)) body (length (as_bytes source))
  | Err (Diagnosed d) => span_in (as_bytes source) (diagnostic_span d)
  | Err _ => False
  end.
Proof.
  pose proof (as_bytes_valid source) as Hv. rewrite lex_from_all.
  destruct (decide (length (as_bytes source) <= MAX_SOURCE_BYTES)) as [Hl|Hl].
  - destruct (lex_all_small source edition Hl) as (ts & ds & -> & [(body & -> & _ & Hg) _ _ Hr _]).
    destruct ds as [|d ds]; [exists body; by split; [|apply Hg]|]. by apply Forall_cons_1 in Hr as [Hr _].
  - rewrite lex_all_large by lia. exists 0, 0. pose proof (at_boundary_0 _ Hv). by split_and!.
Qed.

(** C12: [lex_with_trivia] gives the tokens of [lex] and fails when [lex] does. The texts of the trivia and of the
    tokens, in order, make up the content of the source; each piece of trivia has the text of its span and is what
    its kind says: a block comment is one whole balanced comment. *)
Theorem lex_with_trivia_lossless (source : RString) (edition : Edition) :
  match lex (as_bytes source) edition with
  | Ok tokens => exists result, lex_with_trivia (as_bytes source) edition = Ok result /\
      Forall2 (attached (as_bytes source)) tokens result /\
      concat (full_text (as_bytes source) <$> result) = drop (content_from (as_bytes source)) (as_bytes source)
  | Err e => lex_with_trivia (as_bytes source) edition = Err e
  end.
Proof.
  pose proof (as_bytes_valid source) as Hv. pose proof (lex_from_all source edition) as El. unfold lex_with_trivia.
  destruct (lex (as_bytes source) edition) as [tokens|e]; [|done].
  destruct (decide (length (as_bytes source) <= MAX_SOURCE_BYTES)) as [Hl|Hl].
  2: { rewrite lex_all_large in El by lia. done. }
  destruct (lex_all_small source edition Hl) as (ts & ds & E & [(body & Et & _ & Hg) _ _ _ _]). rewrite E in El.
  destruct ds as [|d ds]; [|done]. injection El as ->. subst ts. unfold run_lexer.
  destruct (content_start_eq _ Hv (mk_Lexer 0 [])) as [Ec Hb]. unfold bind. rewrite Ec. cbn [set_position holes].
  pose proof (attach_trivia_spec _ Hv (small_fits _ Hl) body _ Hb (Hg eq_refl)) as Ha. unfold wpe in Ha.
  unfold set_position. cbn [holes]. fold (end_token (as_bytes source)) in Ha.
  destruct (attach_trivia _ _ _) as [[result|e] s']; [|by destruct e]. by exists result.
Qed.

(** ** Parts of the lexer *)

(** [mark_paths], with the fuel that [tokens] gives it, ends for every list of tokens without reading an index
    out of range; it keeps every token except that a [::] directly between two identifiers may become a
    [PathSep] with the same span. *)
Lemma mark_paths_marks (source : list u8) (ts : list Token) :
  exists ts', mark_paths source (S (length ts)) ts 1 = Some ts' /\ length ts' = length ts /\
  forall i t, ts !! i = Some t ->
    ts' !! i = Some t \/ ts' !! i = Some (mk_Token TokenKind_PathSep (token_span t)) /\ joins ts i = Some true.
Proof.
  destruct (mark_paths_total source (S (length ts)) ts 1) as (ts' & E & Hl & Hm); [lia..|]. exists ts'. split_and!; [done..|].
  intros i t Et. destruct (lookup_lt_is_Some_2 ts' i) as [t' Et']; [rewrite Hl; by eapply lookup_lt_Some|].
  destruct (Hm i t t' Et Et') as [->|[Hj ->]]; [by left|by right].
Qed.

(** For every text, [parse_format_spec] gives no spec for the empty text, a diagnostic over the given span, or a
    spec with it that is well formed: width and precision at most [MAX_FORMAT_FIELD], a precision exactly where the
    kind needs one, a fill that may stand in a hole. [spec_text] spells such a spec so that parsing it gives the same
    spec again. *)
Lemma parse_format_spec_normal (text : RString) (start end_ : nat) (s : Lexer) :
  match parse_format_spec (as_bytes text) start end_ s with
  | (Ok (Some spec), s') => s' = s /\ spec_ok spec /\ FormatSpec_span spec = Span_new start end_ /\
      parse_format_spec (spec_text spec) start end_ s = (Ok (if bool_decide (spec_text spec = []) then None else Some spec), s)
  | (Ok None, s') => s' = s /\ as_bytes text = []
  | (Err (Diagnosed d), s') => s' = s /\ diagnostic_span d = Span_new start end_
  | (Err _, _) => False
  end.
Proof.
  pose proof (parse_format_spec_spec (fun d s' => s' = s /\ diagnostic_span d = Span_new start end_) (as_bytes text) start end_ s
    (as_bytes_valid text) (fun kind => conj eq_refl eq_refl)) as H. unfold wpe in H.
  destruct (parse_format_spec (as_bytes text) start end_ s) as [[[spec|]|[d| |]] s']; [|done..].
  destruct H as (-> & Hok & Hspan). split_and!; [done..|]. case_bool_decide as E; [by rewrite E|].
  rewrite parse_spec_text by done. rewrite <- Hspan. by destruct spec.
Qed.

(** Two well-formed specs with the same text are the same up to their spans, so the text may name a spec. *)
Lemma spec_text_injective (a b : FormatSpec) : spec_ok a -> spec_ok b -> spec_text a <> [] -> spec_text a = spec_text b ->
  with_span a (FormatSpec_span b) = b.
Proof.
  intros Ha Hb Hne E. pose proof (parse_spec_text a 0 0 (mk_Lexer 0 []) Ha Hne) as Pa. rewrite E in Hne, Pa.
  rewrite (parse_spec_text b 0 0 (mk_Lexer 0 []) Hb Hne) in Pa.
  assert (with_span b (Span_new 0 0) = with_span a (Span_new 0 0)) as Es by congruence.
  destruct a, b. unfold with_span in *. simpl in *. congruence.
Qed.

(** The suffix of a number as written, and the name that its token has for it. *)
Definition suffix_of (kind : TokenKind) (digits suffix : list u8) : Prop :=
  match kind with
  | TokenKind_Integer text | TokenKind_Float text => exists name, suffix_name suffix = Some name /\
      as_bytes text = digits ++ name /\
      literal_parts (as_bytes text) = (digits, if bool_decide (name = []) then None else Some name)
  | TokenKind_BigInteger text => suffix = txt "I" /\ as_bytes text = digits
  | _ => False
  end.

(** For every number that [number] accepts, [numeric_suffix] finds in its spelling exactly the suffix that
    [number] read. The text of its token is the digits without separators and the full name of that suffix, and
    [literal_parts] splits it there. *)
Lemma number_suffixes_agree (source : RString) (s s' : Lexer) (kind : TokenKind) :
  at_boundary (as_bytes source) (position s) -> number (as_bytes source) s = (Ok kind, s') ->
  exists m, position s < m <= position s' /\
    numeric_suffix (between (as_bytes source) (position s) (position s')) = between (as_bytes source) m (position s') /\
    suffix_of kind (without_separators (between (as_bytes source) (position s) m)) (between (as_bytes source) m (position s')).
Proof.
  intros Hb E. pose proof (number_spec _ (as_bytes_valid source) s Hb) as H. unfold wpe in H. rewrite E in H.
  destruct H as (_ & m & radix & float & Hshape & Hle & _ & t & Ht). destruct (number_first _ _ _ _ _ Hshape) as (Hlt & _).
  exists m. split; [done|]. split; [by eapply number_suffix|].
  case_bool_decide as Es; [by destruct Ht as (-> & _ & Ht)|]. destruct Ht as (name & Hname & Ht & Hfloat & ->).
  pose proof (number_parts _ _ _ _ _ _ _ Hshape Hname Hfloat) as Hs. rewrite <- Ht in Hs.
  by destruct (float || is_float_name name); exists name.
Qed.

(** A char literal without a character is reported as a [utf8char] literal that is not one scalar. *)
Example empty_char_kind :
  lex (txt "''") E2026 = Err (Diagnosed (mk_Diagnostic Utf8charNotOneScalar (Span_new 0 2))).
Proof. vm_compute. reflexivity. Qed.

(** ** Witnesses *)

Definition sample_number : RString := mk_RString (txt "1_0.5hf") eq_refl.

Definition sample_char (c : N) : char :=
  match from_u32 (uint_wrap 32 c) with Some c => c | None => mk_char (uint_wrap 32 32) eq_refl end.

(** The spec [0>+8.2f]. *)
Definition sample_spec (span : Span) : FormatSpec :=
  mk_FormatSpec (sample_char 48) (Some FormatAlign_Right) true (uint_wrap 16 8) (Some (uint_wrap 16 2)) (Some FormatKind_Fixed) span.

Lemma sample_spec_ok span : spec_ok (sample_spec span).
Proof.
  split; simpl.
  - apply (bool_decide_unpack _). by vm_compute.
  - done.
  - by vm_compute.
  - intros p [= <-]. by vm_compute.
  - done.
Defined.
