(* ===== verification/Digraph.v ===== *)
(** * The graph algorithms of the index

    [src/src/kg/algo.rs]: graphs in compressed sparse rows, breadth-first search and shortest paths ([Scc] and [Orders]
    hold the rest of that file). Nodes and positions are
    [nat], because each is below the length of a vector; the numbers that the code compares with
    [usize::MAX] are [N]. The local variables that an algorithm assigns are the fields of its state. A stack is a list
    whose head is the top; a [BTreeSet] is the ascending list of its members. *)
From stdpp Require Export sorting.
From S2P Require Import Prelude.
From S2P Require Export Faults.
Local Open Scope nat_scope.
Local Open Scope monad_scope.

(** ** Graphs *)

Record Digraph := mk_Digraph {
  offsets : list nat;
  targets : list nat }.

(** The order of pairs of [sort_unstable]. *)
Definition edge_le (e f : nat * nat) : Prop := fst e < fst f \/ (fst e = fst f /\ snd e <= snd f).

#[export] Instance edge_le_dec e f : Decision (edge_le e f).
Proof. unfold edge_le. apply _. Defined.

(** [vector[i] += k] *)
Definition add_at (i k : nat) : M Fault (list nat) unit :=
  let? vector := gets id in
  let? x := element vector i in
  let? vector := updated vector i (x + k) in
  modify (fun _ => vector).

Definition from_edges (nodes : nat) (edges : list (nat * nat)) : Result Digraph Fault :=
  let pairs := filter (fun e => fst e < nodes /\ snd e < nodes) edges in
  let pairs := dedup (merge_sort edge_le pairs) in
  let count :=
    for_each (fun e => add_at (fst e + 1) 1) pairs ;;;
    for_each (fun node =>
      let? offsets := gets id in
      let? x := element offsets node in
      add_at (node + 1) x) (seq 0 nodes) ;;;
    gets (fun offsets => mk_Digraph offsets (snd <$> pairs)) in
  fst (count (replicate (nodes + 1) 0)).

Definition from_lists (lists : list (list nat)) : Result Digraph Fault :=
  from_edges (length lists) (concat (imap (fun from targets => pair from <$> targets) lists)).

Definition len (graph : Digraph) : nat := length (offsets graph) - 1.

Definition is_empty (graph : Digraph) : bool := len graph =? 0.

Definition edge_count (graph : Digraph) : nat := length (targets graph).

Definition successors {S} (graph : Digraph) (node : nat) : M Fault S (list nat) :=
  let? low := element (offsets graph) node in
  let? high := element (offsets graph) (node + 1) in
  if (low <=? high) && (high <=? length (targets graph))
  then ret (take (high - low) (drop low (targets graph)))
  else fail Panic.

(** [binary_search(..).is_ok()], by halving [low..low + size]. *)
Fixpoint binary_search (fuel : nat) (l : list nat) (x low size : nat) : bool :=
  match fuel with
  | O => false
  | S fuel =>
    if size =? 0 then false
    else
      let half := size / 2 in
      match l !! (low + half) with
      | None => false
      | Some y =>
        if y =? x then true
        else if y <? x then binary_search fuel l x (low + half + 1) (size - half - 1)
        else binary_search fuel l x low half
      end
  end.

Definition has_edge {S} (graph : Digraph) (from to : nat) : M Fault S bool :=
  if from <? len graph then
    let? l := successors graph from in
    ret (binary_search (length l + 1) l to 0 (length l))
  else ret false.

Definition reversed (graph : Digraph) : Result Digraph Fault :=
  match collect (successors graph) (seq 0 (len graph)) tt with
  | (Ok rows, _) => from_edges (len graph) (concat (imap (fun from row => (fun to => (to, from)) <$> row) rows))
  | (Err e, _) => Err e
  end.

(** ** Breadth-first search *)

Record Visit := mk_Visit {
  visit_node : nat;
  visit_depth : nat;
  visit_parent : option nat }.

Module Bfs.

Record State := mk_State {
  seen : list bool;
  visits : list Visit;
  layer : list nat;
  reached : N;
  next : list nat }.

Abbreviation BM := (M Fault State).

Definition set_seen (node : nat) : BM unit :=
  let? seen := gets seen in
  let? seen := updated seen node true in
  modify (fun s => mk_State seen (visits s) (layer s) (reached s) (next s)).

Definition push_visit (visit : Visit) : BM unit :=
  modify (fun s => mk_State (seen s) (visits s ++ [visit]) (layer s) (reached s) (next s)).

Definition set_layer (l : list nat) : BM unit :=
  modify (fun s => mk_State (seen s) (visits s) l (reached s) (next s)).

Definition set_reached (n : N) : BM unit :=
  modify (fun s => mk_State (seen s) (visits s) (layer s) n (next s)).

Definition set_next (l : list nat) : BM unit :=
  modify (fun s => mk_State (seen s) (visits s) (layer s) (reached s) l).

Definition is_seen (node : nat) : BM bool :=
  let? seen := gets seen in
  element seen node.

(** The loop over the start nodes. *)
Definition start_node (graph : Digraph) (node : nat) : BM unit :=
  if node <? len graph then
    let? marked := is_seen node in
    if marked : bool then ret tt
    else
      set_seen node ;;;
      let? layer := gets layer in
      set_layer (layer ++ [node]) ;;;
      push_visit (mk_Visit node 0 None)
  else ret tt.

(** One successor [to] of [from]; a value is [return visits]. *)
Definition edge_step (limit : N) (level from to : nat) : BM (option unit) :=
  let? marked := is_seen to in
  if marked : bool then ret None
  else
    let? reached := gets reached in
    if (reached =? limit)%N then ret (Some tt)
    else
      set_seen to ;;;
      set_reached (reached + 1) ;;;
      let? next := gets next in
      set_next (next ++ [to]) ;;;
      push_visit (mk_Visit to level (Some from)) ;;;
      ret None.

Definition node_step (graph : Digraph) (limit : N) (level from : nat) : BM (option unit) :=
  let? row := successors graph from in
  each (edge_step limit level from) row.

(** One layer; a value is [return visits] or the [break]. *)
Definition level_step (graph : Digraph) (limit : N) (level : nat) : BM (option unit) :=
  let? l := gets layer in
  let l := merge_sort (≤) l in
  set_layer l ;;;
  set_next [] ;;;
  let? full := each (node_step graph limit level) l in
  match full with
  | Some _ => ret (Some tt)
  | None =>
    let? next := gets next in
    match next with
    | [] => ret (Some tt)
    | _ => set_layer next ;;; ret None
    end
  end.

Definition search (graph : Digraph) (start : list nat) (depth : nat) (limit : N) : BM (list Visit) :=
  for_each (start_node graph) start ;;;
  let? _ := each (level_step graph limit) (seq 1 depth) in
  gets visits.

End Bfs.

Definition bfs (graph : Digraph) (start : list nat) (depth : nat) (limit : N) : Result (list Visit) Fault :=
  fst (Bfs.search graph start depth limit (Bfs.mk_State (replicate (len graph) false) [] [] 0 [])).

Definition reaches_beyond (graph : Digraph) (start : list nat) (depth : nat) : Result bool Fault :=
  let body : M Fault (list bool) bool :=
    let? visits := lift (bfs graph start depth usize_MAX) in
    for_each (fun visit =>
      let? seen := gets id in
      let? seen := updated seen (visit_node visit) true in
      modify (fun _ => seen)) visits ;;;
    let? beyond := each (fun visit =>
      let? row := successors graph (visit_node visit) in
      each (fun to =>
        let? seen := gets id in
        let? marked := element seen to in
        ret (if marked : bool then None else Some tt)) row)
      (filter (fun visit => visit_depth visit = depth) visits) in
    ret (match beyond with Some _ => true | None => false end) in
  fst (body (replicate (len graph) false)).

(** [bfs] over the reversed graph. *)
Definition reverse_reach (graph : Digraph) (targets : list nat) (depth : nat) : Result (list Visit) Fault :=
  match reversed graph with
  | Ok graph => bfs graph targets depth usize_MAX
  | Err e => Err e
  end.

(** ** Shortest paths *)

Module Shortest.

Record State := mk_State {
  parent : list (option nat);
  seen : list bool;
  layer : list nat;
  next : list nat }.

Abbreviation PM := (M Fault State).

(** [while let Some(previous) = parent[at]] *)
Fixpoint walk (fuel : nat) (path : list nat) (at_ : nat) : PM (list nat) :=
  match fuel with
  | O => fail OutOfFuel
  | S fuel =>
    let? parent := gets parent in
    let? previous := element parent at_ in
    match previous with
    | Some previous => walk fuel (path ++ [previous]) previous
    | None => ret path
    end
  end.

(** One successor of [node]; a value is [return Some(path)]. *)
Definition successor_step (to node successor : nat) : PM (option (option (list nat))) :=
  let? seen := gets seen in
  let? marked := element seen successor in
  if marked : bool then ret None
  else
    let? seen := updated seen successor true in
    let? parents := gets parent in
    let? parents := updated parents successor (Some node) in
    modify (fun s => mk_State parents seen (layer s) (next s)) ;;;
    if successor =? to then
      let? path := walk (length parents + 1) [to] to in
      ret (Some (Some (rev path)))
    else
      modify (fun s => mk_State (parent s) seen (layer s) (next s ++ [successor])) ;;;
      ret None.

Definition node_step (graph : Digraph) (to node : nat) : PM (option (option (list nat))) :=
  let? row := successors graph node in
  each (successor_step to node) row.

(** One layer; a value is what the function returns. *)
Definition layer_step (graph : Digraph) (to : nat) (_ : nat) : PM (option (option (list nat))) :=
  let? l := gets layer in
  let l := merge_sort (≤) l in
  modify (fun s => mk_State (parent s) (seen s) l []) ;;;
  let? found := each (node_step graph to) l in
  match found with
  | Some path => ret (Some path)
  | None =>
    let? next := gets next in
    match next with
    | [] => ret (Some None)
    | _ => modify (fun s => mk_State (parent s) (seen s) next []) ;;; ret None
    end
  end.

Definition search (graph : Digraph) (to depth : nat) : PM (option (list nat)) :=
  let? found := each (layer_step graph to) (seq 0 depth) in
  ret (match found with Some path => path | None => None end).

End Shortest.

Definition shortest_path (graph : Digraph) (from to depth : nat) : Result (option (list nat)) Fault :=
  if (len graph <=? from) || (len graph <=? to) then Ok None
  else if from =? to then Ok (Some [from])
  else
    let seen := <[from := true]> (replicate (len graph) false) in
    fst (Shortest.search graph to depth (Shortest.mk_State (replicate (len graph) None) seen [from] [])).
