(* ===== verification/Scc.v ===== *)
(** * Strongly connected components

    The two iterative forms of Tarjan's algorithm in the compiler: [strongly_connected] and [components] of
    [src/src/kg/algo.rs], which number the component of each node, and [strongly_connected] of
    [src/src/llvm_split.rs] ([Split]), which collects the members. A number is [usize::MAX] until the node has one. *)
From S2P Require Import Prelude Digraph.
Local Open Scope nat_scope.
Local Open Scope monad_scope.

Definition UNVISITED : N := usize_MAX.
#[global] Arguments UNVISITED : simpl never.

Module Tarjan.

Record State := mk_State {
  index : list N;
  low : list N;
  on_stack : list bool;
  component : list N;
  stack : list nat;
  next_index : N;
  completed : N;
  frames : list (nat * nat) }.

Abbreviation TM := (M Fault State).

(** ** The variables *)

Definition set_index (node : nat) (n : N) : TM unit :=
  let? index := gets index in
  let? index := updated index node n in
  modify (fun s => mk_State index (low s) (on_stack s) (component s) (stack s) (next_index s) (completed s) (frames s)).

Definition set_low (node : nat) (n : N) : TM unit :=
  let? low := gets low in
  let? low := updated low node n in
  modify (fun s => mk_State (index s) low (on_stack s) (component s) (stack s) (next_index s) (completed s) (frames s)).

Definition set_on_stack (node : nat) (b : bool) : TM unit :=
  let? on_stack := gets on_stack in
  let? on_stack := updated on_stack node b in
  modify (fun s => mk_State (index s) (low s) on_stack (component s) (stack s) (next_index s) (completed s) (frames s)).

Definition set_component (node : nat) (n : N) : TM unit :=
  let? component := gets component in
  let? component := updated component node n in
  modify (fun s => mk_State (index s) (low s) (on_stack s) component (stack s) (next_index s) (completed s) (frames s)).

Definition set_stack (l : list nat) : TM unit :=
  modify (fun s => mk_State (index s) (low s) (on_stack s) (component s) l (next_index s) (completed s) (frames s)).

Definition set_next_index (n : N) : TM unit :=
  modify (fun s => mk_State (index s) (low s) (on_stack s) (component s) (stack s) n (completed s) (frames s)).

Definition set_completed (n : N) : TM unit :=
  modify (fun s => mk_State (index s) (low s) (on_stack s) (component s) (stack s) (next_index s) n (frames s)).

Definition set_frames (l : list (nat * nat)) : TM unit :=
  modify (fun s => mk_State (index s) (low s) (on_stack s) (component s) (stack s) (next_index s) (completed s) l).

Definition push_frame (node : nat) : TM unit :=
  let? frames := gets frames in
  set_frames ((node, 0) :: frames).

Definition index_of (node : nat) : TM N :=
  let? index := gets index in
  element index node.

Definition low_of (node : nat) : TM N :=
  let? low := gets low in
  element low node.

Definition is_on_stack (node : nat) : TM bool :=
  let? on_stack := gets on_stack in
  element on_stack node.

(** ** The search *)

(** Numbers a node and pushes it on the stack. *)
Definition discover (node : nat) : TM unit :=
  let? n := gets next_index in
  set_index node n ;;;
  set_low node n ;;;
  set_next_index (n + 1) ;;;
  let? stack := gets stack in
  set_stack (node :: stack) ;;;
  set_on_stack node true.

(** [low[node] = low[node].min(n)] *)
Definition lower (node : nat) (n : N) : TM unit :=
  let? m := low_of node in
  set_low node (N.min m n).

(** [while let Some(member) = stack.pop()] *)
Definition pop_turn (node : nat) : TM (option unit) :=
  let? l := gets stack in
  match l with
  | [] => ret (Some tt)
  | member :: l =>
    set_stack l ;;;
    set_on_stack member false ;;;
    let? c := gets completed in
    set_component member c ;;;
    ret (if member =? node then Some tt else None)
  end.

(** The successor at the position of the top frame. *)
Definition advance (node position successor : nat) (below : list (nat * nat)) : TM unit :=
  set_frames ((node, position + 1) :: below) ;;;
  let? i := index_of successor in
  if (i =? UNVISITED)%N then
    discover successor ;;;
    push_frame successor
  else
    let? on_stack := is_on_stack successor in
    if on_stack : bool then
      let? i := index_of successor in
      lower node i
    else ret tt.

(** The top frame has no more successors. *)
Definition finish (node : nat) (below : list (nat * nat)) : TM unit :=
  set_frames below ;;;
  match below with
  | (parent, _) :: _ =>
    let? n := low_of node in
    lower parent n
  | [] => ret tt
  end ;;;
  let? l := low_of node in
  let? i := index_of node in
  if (l =? i)%N then
    let? stack := gets stack in
    turns (length stack + 1) (pop_turn node) ;;;
    let? c := gets completed in
    set_completed (c + 1)
  else ret tt.

(** One turn of the loop over the frames. *)
Definition turn (graph : Digraph) : TM (option unit) :=
  let? frames := gets frames in
  match frames with
  | [] => ret (Some tt)
  | (node, position) :: below =>
    let? row := successors graph node in
    match row !! position with
    | Some successor => advance node position successor below
    | None => finish node below
    end ;;;
    ret None
  end.

Definition root_step (graph : Digraph) (root : nat) : TM unit :=
  let? i := index_of root in
  if negb (i =? UNVISITED)%N then ret tt
  else
    push_frame root ;;;
    discover root ;;;
    turns (len graph + edge_count graph + 1) (turn graph).

Definition search (graph : Digraph) : TM (list N) :=
  for_each (root_step graph) (seq 0 (len graph)) ;;;
  gets component.

Definition initial (count : nat) : State :=
  mk_State (replicate count UNVISITED) (replicate count 0%N) (replicate count false)
    (replicate count UNVISITED) [] 0 0 [].

End Tarjan.

Definition strongly_connected (graph : Digraph) : Result (list N) Fault :=
  fst (Tarjan.search graph (Tarjan.initial (len graph))).

(** The members of each component. *)
Definition components (of_ : list N) : Result (list (list nat)) Fault :=
  let count := match of_ with [] => 0 | n :: rest => N.to_nat (foldl N.max n rest) + 1 end in
  let body : M Fault (list (list nat)) (list (list nat)) :=
    for_each (fun e =>
      let (node, c) := e : nat * N in
      let? members := gets id in
      let? row := element members (N.to_nat c) in
      let? members := updated members (N.to_nat c) (row ++ [node]) in
      modify (fun _ => members)) (imap pair of_) ;;;
    gets id in
  fst (body (replicate count [])).

(** ** The copy of [src/src/llvm_split.rs] *)

Module Split.

Record State := mk_State {
  index : list N;
  low : list N;
  on_stack : list bool;
  stack : list nat;
  components : list (list nat);
  work : list (nat * nat);
  next : N }.

Abbreviation TM := (M Fault State).

Definition set_index (node : nat) (n : N) : TM unit :=
  let? index := gets index in
  let? index := updated index node n in
  modify (fun s => mk_State index (low s) (on_stack s) (stack s) (components s) (work s) (next s)).

Definition set_low (node : nat) (n : N) : TM unit :=
  let? low := gets low in
  let? low := updated low node n in
  modify (fun s => mk_State (index s) low (on_stack s) (stack s) (components s) (work s) (next s)).

Definition set_on_stack (node : nat) (b : bool) : TM unit :=
  let? on_stack := gets on_stack in
  let? on_stack := updated on_stack node b in
  modify (fun s => mk_State (index s) (low s) on_stack (stack s) (components s) (work s) (next s)).

Definition set_stack (l : list nat) : TM unit :=
  modify (fun s => mk_State (index s) (low s) (on_stack s) l (components s) (work s) (next s)).

Definition set_next (n : N) : TM unit :=
  modify (fun s => mk_State (index s) (low s) (on_stack s) (stack s) (components s) (work s) n).

Definition push_component (component : list nat) : TM unit :=
  modify (fun s => mk_State (index s) (low s) (on_stack s) (stack s) (components s ++ [component]) (work s) (next s)).

Definition set_work (l : list (nat * nat)) : TM unit :=
  modify (fun s => mk_State (index s) (low s) (on_stack s) (stack s) (components s) l (next s)).

Definition push_work (node : nat) : TM unit :=
  let? work := gets work in
  set_work ((node, 0) :: work).

Definition index_of (node : nat) : TM N :=
  let? index := gets index in
  element index node.

Definition low_of (node : nat) : TM N :=
  let? low := gets low in
  element low node.

Definition is_on_stack (node : nat) : TM bool :=
  let? on_stack := gets on_stack in
  element on_stack node.

Definition discover (node : nat) : TM unit :=
  let? n := gets next in
  set_index node n ;;;
  set_low node n ;;;
  set_next (n + 1) ;;;
  let? stack := gets stack in
  set_stack (node :: stack) ;;;
  set_on_stack node true.

Definition lower (node : nat) (n : N) : TM unit :=
  let? m := low_of node in
  set_low node (N.min m n).

(** The loop that pops the members of [component]; the end of the stack is the [expect] that panics. *)
Fixpoint pop_members (fuel node : nat) (component : list nat) : TM (list nat) :=
  match fuel with
  | O => fail OutOfFuel
  | S fuel =>
    let? l := gets stack in
    match l with
    | [] => fail Panic
    | member :: l =>
      set_stack l ;;;
      set_on_stack member false ;;;
      let component := component ++ [member] in
      if member =? node then ret component else pop_members fuel node component
    end
  end.

Definition advance (node position target : nat) (below : list (nat * nat)) : TM unit :=
  set_work ((node, position + 1) :: below) ;;;
  let? i := index_of target in
  if (i =? UNVISITED)%N then
    discover target ;;;
    push_work target
  else
    let? on_stack := is_on_stack target in
    if on_stack : bool then
      let? i := index_of target in
      lower node i
    else ret tt.

Definition finish (node : nat) (below : list (nat * nat)) : TM unit :=
  set_work below ;;;
  match below with
  | (parent, _) :: _ =>
    let? n := low_of node in
    lower parent n
  | [] => ret tt
  end ;;;
  let? l := low_of node in
  let? i := index_of node in
  if (l =? i)%N then
    let? stack := gets stack in
    let? component := pop_members (length stack + 1) node [] in
    push_component (merge_sort (≤) component)
  else ret tt.

Definition turn (edges : list (list nat)) : TM (option unit) :=
  let? work := gets work in
  match work with
  | [] => ret (Some tt)
  | (node, position) :: below =>
    let? row := element edges node in
    match row !! position with
    | Some target => advance node position target below
    | None => finish node below
    end ;;;
    ret None
  end.

Definition root_step (edges : list (list nat)) (root : nat) : TM unit :=
  let? i := index_of root in
  if negb (i =? UNVISITED)%N then ret tt
  else
    discover root ;;;
    push_work root ;;;
    turns (length edges + length (concat edges) + 1) (turn edges).

Definition strongly_connected (edges : list (list nat)) : Result (list (list nat)) Fault :=
  let count := length edges in
  let search : TM (list (list nat)) := for_each (root_step edges) (seq 0 count) ;;; gets components in
  fst (search (mk_State (replicate count UNVISITED) (replicate count 0%N) (replicate count false) [] [] [] 0)).

End Split.
