(* ===== verification/Orders.v ===== *)
(** * Topological orders and forests

    [topological_order] and [forest_cycle] of [src/src/kg/algo.rs]. *)
From S2P Require Import Prelude Digraph.
Local Open Scope nat_scope.
Local Open Scope monad_scope.

(** ** Kahn's algorithm *)

Module Kahn.

Record State := mk_State {
  indegree : list nat;
  ready : list nat;
  order : list nat }.

Abbreviation KM := (M Fault State).

(** [insert] of a [BTreeSet]. *)
Fixpoint set_insert (x : nat) (l : list nat) : list nat :=
  match l with
  | [] => [x]
  | y :: t => if x <? y then x :: l else if x =? y then l else y :: set_insert x t
  end.

Definition set_indegree (node n : nat) : KM unit :=
  let? indegree := gets indegree in
  let? indegree := updated indegree node n in
  modify (fun s => mk_State indegree (ready s) (order s)).

Definition indegree_of (node : nat) : KM nat :=
  let? indegree := gets indegree in
  element indegree node.

Definition count_row (graph : Digraph) (node : nat) : KM unit :=
  let? row := successors graph node in
  for_each (fun to =>
    let? n := indegree_of to in
    set_indegree to (n + 1)) row.

(** One successor of the node that was taken; a count below zero would panic. *)
Definition release (to : nat) : KM unit :=
  let? n := indegree_of to in
  match n with
  | O => fail Panic
  | S n =>
    set_indegree to n ;;;
    if n =? 0 then modify (fun s => mk_State (indegree s) (set_insert to (ready s)) (order s)) else ret tt
  end.

(** [while let Some(node) = ready.pop_first()] *)
Definition turn (graph : Digraph) : KM (option unit) :=
  let? l := gets ready in
  match l with
  | [] => ret (Some tt)
  | node :: l =>
    modify (fun s => mk_State (indegree s) l (order s ++ [node])) ;;;
    let? row := successors graph node in
    for_each release row ;;;
    ret None
  end.

Definition search (graph : Digraph) : KM (option (list nat)) :=
  for_each (count_row graph) (seq 0 (len graph)) ;;;
  let? indegree := gets indegree in
  let? ready := collect (fun node => let? n := element indegree node in ret (node, n)) (seq 0 (len graph)) in
  modify (fun s => mk_State indegree (fst <$> filter (fun e => snd e = 0) ready) []) ;;;
  turns (len graph + 1) (turn graph) ;;;
  gets (fun s => if length (order s) =? len graph then Some (order s) else None).

End Kahn.

Definition topological_order (graph : Digraph) : Result (option (list nat)) Fault :=
  fst (Kahn.search graph (Kahn.mk_State (replicate (len graph) 0) [] [])).

(** ** Forests *)

Module Forest.

(** [state]: 0 is not seen, 1 is on the current walk, 2 is known to end at a root. *)
Record State := mk_State {
  state : list nat;
  walk : list nat;
  node : nat }.

Abbreviation FM := (M Fault State).

Definition set_state (at_ n : nat) : FM unit :=
  let? state := gets state in
  let? state := updated state at_ n in
  modify (fun s => mk_State state (walk s) (node s)).

(** [Some(parent) if parent < parents.len()] *)
Definition parent_of (parents : list (option nat)) (at_ : nat) : FM (option nat) :=
  let? parent := element parents at_ in
  ret (match parent with Some parent => if parent <? length parents then Some parent else None | None => None end).

(** [while state[node] == 0] *)
Definition walk_turn (parents : list (option nat)) : FM (option unit) :=
  let? at_ := gets node in
  let? state := gets state in
  let? n := element state at_ in
  if negb (n =? 0) then ret (Some tt)
  else
    set_state at_ 1 ;;;
    modify (fun s => mk_State (Forest.state s) (walk s ++ [at_]) (node s)) ;;;
    let? parent := parent_of parents at_ in
    match parent with
    | Some parent => modify (fun s => mk_State (Forest.state s) (walk s) parent) ;;; ret None
    | None => ret (Some tt)
    end.

(** One start node; a value is [return Some(node)]. *)
Definition start_step (parents : list (option nat)) (start : nat) : FM (option nat) :=
  modify (fun s => mk_State (state s) (walk s) start) ;;;
  turns (length parents + 1) (walk_turn parents) ;;;
  let? at_ := gets node in
  let? state := gets state in
  let? n := element state at_ in
  let? parent := parent_of parents at_ in
  if (n =? 1) && bool_decide (is_Some parent) then ret (Some at_)
  else
    let? l := gets walk in
    modify (fun s => mk_State (Forest.state s) [] (node s)) ;;;
    for_each (fun at_ => set_state at_ 2) l ;;;
    ret None.

Definition search (parents : list (option nat)) : FM (option nat) :=
  each (start_step parents) (seq 0 (length parents)).

End Forest.

Definition forest_cycle (parents : list (option nat)) : Result (option nat) Fault :=
  fst (Forest.search parents (Forest.mk_State (replicate (length parents) 0) [] 0)).
