(* ===== verification/DigraphLaws.v ===== *)
(** * The rows of a graph

    [represents]: the rows that [successors] gives. [from_edges] gives the ascending rows of its edges. *)
From stdpp Require Import sets.
From S2P Require Import Prelude Digraph.
Local Open Scope nat_scope.
Local Open Scope monad_scope.

Definition edge (rows : list (list nat)) (x y : nat) : Prop := exists row, rows !! x = Some row /\ y ∈ row.

(** Every successor is a node. *)
Definition closed_rows (rows : list (list nat)) : Prop :=
  forall x row y, rows !! x = Some row -> y ∈ row -> y < length rows.

Definition represents (graph : Digraph) (rows : list (list nat)) : Prop :=
  len graph = length rows /\ edge_count graph = length (concat rows) /\
  forall S x row (s : S), rows !! x = Some row -> successors graph x s = (Ok row, s).

Lemma edge_closed rows x y : closed_rows rows -> edge rows x y -> x < length rows /\ y < length rows.
Proof. intros Hc (row & Hrow & Hy). split; [by eapply lookup_lt_Some|by eapply Hc]. Qed.

Lemma returns_successors {S} graph rows x row (Q : list nat -> S -> Prop) s :
  represents graph rows -> rows !! x = Some row -> Q row s -> returns (successors graph x) Q s.
Proof. intros (_ & _ & Hg) Hrow HQ. eapply returns_eq; [by apply Hg|done]. Qed.

(** ** The order of pairs *)

#[export] Instance edge_le_total : Total edge_le.
Proof. intros [a b] [c d]. unfold edge_le; simpl. lia. Qed.

#[export] Instance edge_le_trans : Transitive edge_le.
Proof. intros [a b] [c d] [e f]. unfold edge_le; simpl. lia. Qed.

Definition edge_lt (e f : nat * nat) : Prop := edge_le e f /\ e <> f.

Lemma edge_le_antisym e f : edge_le e f -> edge_le f e -> e = f.
Proof. destruct e, f. unfold edge_le; simpl. intros. f_equal; lia. Qed.

Lemma dedup_sorted l : StronglySorted edge_le l -> StronglySorted edge_lt (dedup l).
Proof. apply dedup_strict, edge_le_antisym. Qed.

(** ** Pieces of sorted pairs *)

Section filters.
Context {A : Type} (P : A -> Prop) `{!forall x, Decision (P x)}.

Lemma filter_all (l : list A) : (forall x, x ∈ l -> P x) -> filter P l = l.
Proof.
  induction l as [|x l IH]; intros Hl; [done|]. rewrite filter_cons_True by (apply Hl; set_solver).
  f_equal. apply IH. set_solver.
Qed.

Lemma filter_none (l : list A) : (forall x, x ∈ l -> ~ P x) -> filter P l = [].
Proof.
  induction l as [|x l IH]; intros Hl; [done|]. rewrite filter_cons_False by (apply Hl; set_solver). apply IH. set_solver.
Qed.
End filters.

Lemma filter_ext_in {A} (P P' : A -> Prop) `{!forall x, Decision (P x)} `{!forall x, Decision (P' x)} (l : list A) :
  (forall x, x ∈ l -> P x <-> P' x) -> filter P l = filter P' l.
Proof.
  induction l as [|x l IH]; intros HP; [done|]. rewrite !filter_cons, IH by set_solver.
  apply decide_ext, HP, list_elem_of_here.
Qed.

Lemma seq_sorted n k : StronglySorted lt (seq n k).
Proof.
  revert n. induction k as [|k IH]; intros n; constructor; [apply IH|]. apply list.Forall_forall. intros x Hx%elem_of_seq. lia.
Qed.

Lemma filter_sorted (P : nat -> Prop) `{!forall x, Decision (P x)} l : StronglySorted lt l -> StronglySorted lt (filter P l).
Proof.
  induction 1 as [|x l Hl IH Hx]; [constructor|]. rewrite filter_cons. case_decide; [|done]. constructor; [done|].
  rewrite list.Forall_forall in *. intros y [_ Hy]%list_elem_of_filter. by apply Hx.
Qed.

Abbreviation below i := (fun e : nat * nat => fst e < i).
Abbreviation from_node i := (fun e : nat * nat => fst e = i).

(** The pairs from [i] stand after those of smaller nodes and before those of greater ones. *)
Lemma sorted_pieces i l : StronglySorted edge_lt l ->
  l = filter (below i) l ++ filter (from_node i) l ++ filter (fun e => i < fst e) l.
Proof.
  induction 1 as [|e l Hs IH Hall]; [done|]. rewrite list.Forall_forall in Hall.
  assert (forall f, f ∈ l -> fst e <= fst f) as Hle by (intros f [Hf _]%Hall; unfold edge_le in Hf; lia).
  rewrite !filter_cons. destruct (lt_eq_lt_dec (fst e) i) as [[He|He]|He].
  - rewrite decide_True, !decide_False by lia. simpl. by f_equal.
  - rewrite (decide_False (P := fst e < i)), decide_True, decide_False by lia.
    rewrite (filter_none (below i)) by (intros f Hf%Hle; lia). simpl. f_equal.
    rewrite (filter_none (below i)) in IH by (intros f Hf%Hle; lia). done.
  - rewrite !decide_False, decide_True by lia.
    rewrite (filter_none (below i)) by (intros f Hf%Hle; lia).
    rewrite (filter_none (from_node i)) by (intros f Hf%Hle; lia).
    rewrite filter_all by (intros f Hf%Hle; lia). done.
Qed.

Lemma below_S i l : StronglySorted edge_lt l ->
  filter (below (S i)) l = filter (below i) l ++ filter (from_node i) l.
Proof.
  intros Hl. rewrite (sorted_pieces i l Hl) at 1. rewrite !filter_app.
  rewrite (filter_all _ (filter (below i) l)), (filter_all _ (filter (from_node i) l)), (filter_none _ (filter _ l)).
  - by rewrite app_nil_r.
  - intros f [Hf _]%list_elem_of_filter. lia.
  - intros f [Hf _]%list_elem_of_filter. lia.
  - intros f [Hf _]%list_elem_of_filter. lia.
Qed.

Lemma sorted_row i l : StronglySorted edge_lt l -> StronglySorted lt (snd <$> filter (from_node i) l).
Proof.
  induction 1 as [|e l Hs IH Hall]; [constructor|]. rewrite filter_cons. case_decide as He; [|done].
  simpl. constructor; [done|]. apply list.Forall_forall. intros y (f & -> & [Hf Hin]%list_elem_of_filter)%list_elem_of_fmap.
  rewrite list.Forall_forall in Hall. destruct (Hall f Hin) as [Hle Hne]. unfold edge_le in Hle.
  destruct (decide (snd e = snd f)); [|lia]. destruct Hne. destruct e, f; simpl in *. congruence.
Qed.

(** ** The offsets *)

Lemma returns_add_at i k x (Q : unit -> list nat -> Prop) o :
  o !! i = Some x -> Q tt (<[i := x + k]> o) -> returns (add_at i k) Q o.
Proof.
  intros Hx HQ. apply returns_bind, returns_gets, returns_bind. eapply returns_element; [done|].
  apply returns_bind, returns_updated; [by eapply lookup_lt_Some|]. by apply returns_modify.
Qed.

(** The vector holds [f i] at [i <= nodes]. *)
Definition table (nodes : nat) (f : nat -> nat) (o : list nat) : Prop :=
  length o = nodes + 1 /\ forall i, i <= nodes -> o !! i = Some (f i).

Lemma table_add nodes f i k o (Q : unit -> list nat -> Prop) :
  table nodes f o -> i <= nodes ->
  (forall o', table nodes (fun j => if j =? i then f i + k else f j) o' -> Q tt o') ->
  returns (add_at i k) Q o.
Proof.
  intros [Hl Ho] Hi HQ. eapply returns_add_at; [by apply Ho|]. apply HQ. split; [by rewrite length_insert|].
  intros j Hj. destruct (Nat.eqb_spec j i) as [->|Hne].
  - apply list_lookup_insert_eq. lia.
  - rewrite list_lookup_insert_ne by done. by apply Ho.
Qed.

Lemma table_ext nodes f g o : (forall i, i <= nodes -> f i = g i) -> table nodes f o -> table nodes g o.
Proof. intros Hfg [Hl Ho]. split; [done|]. intros i Hi. rewrite <- Hfg by done. by apply Ho. Qed.

Lemma table_replicate nodes : table nodes (fun _ => 0) (replicate (nodes + 1) 0).
Proof. split; [apply length_replicate|]. intros i Hi. apply lookup_replicate. split; [done|lia]. Qed.

(** [offsets] after the loop over the pairs [done]. *)
Definition counted (done : list (nat * nat)) (i : nat) : nat :=
  match i with O => 0 | S i => length (filter (from_node i) done) end.

Lemma count_pairs nodes pairs (Q : unit -> list nat -> Prop) :
  (forall e, e ∈ pairs -> fst e < nodes) ->
  (forall o, table nodes (counted pairs) o -> Q tt o) ->
  returns (for_each (fun e => add_at (fst e + 1) 1) pairs) Q (replicate (nodes + 1) 0).
Proof.
  intros Hp HQ. eapply (returns_for_each _ (fun done => table nodes (counted done))).
  - eapply table_ext, table_replicate. by intros [|i] _.
  - intros done e rest o -> Ho. assert (fst e < nodes) as He by (apply Hp; set_solver).
    eapply table_add; [done|lia|]. intros o'. apply table_ext. intros [|i] Hi; cbn [counted].
    + by destruct (fst e + 1) eqn:?; [lia|].
    + rewrite filter_app, length_app, filter_cons, filter_nil.
      destruct (Nat.eqb_spec (S i) (fst e + 1)) as [Heq|Hne].
      * rewrite decide_True by lia. rewrite (Nat.add_1_r (fst e)). cbn [counted length]. replace i with (fst e) by lia. lia.
      * rewrite decide_False by lia. simpl. lia.
  - done.
Qed.

(** [offsets] when the sums of the nodes below [k] are done. *)
Definition summed (pairs : list (nat * nat)) (k i : nat) : nat :=
  if i <=? k then length (filter (below i) pairs) else counted pairs i.

Lemma sum_offsets nodes pairs (Q : unit -> list nat -> Prop) o :
  StronglySorted edge_lt pairs -> table nodes (counted pairs) o ->
  (forall o, table nodes (fun i => length (filter (below i) pairs)) o -> Q tt o) ->
  returns (for_each (fun node =>
    let? offsets := gets id in
    let? x := element offsets node in
    add_at (node + 1) x) (seq 0 nodes)) Q o.
Proof.
  intros Hp Ho HQ. eapply (returns_for_each _ (fun done => table nodes (summed pairs (length done)))).
  - eapply table_ext, Ho. intros [|i] _; unfold summed; simpl; [|done]. rewrite filter_none by lia. done.
  - intros done node rest o' Hseq Ho'.
    assert (node = length done /\ node < nodes) as [-> Hn].
    { assert (seq 0 nodes !! length done = Some node) as [Hnode Hn]%lookup_seq by (rewrite Hseq; by apply list_lookup_middle).
      lia. }
    apply returns_bind, returns_gets, returns_bind. eapply returns_element; [by apply Ho'; lia|].
    eapply table_add; [done|lia|]. intros o''. rewrite length_app; simpl. apply table_ext. intros i Hi. unfold summed.
    rewrite !(proj2 (Nat.leb_le (length done) (length done))) by lia.
    destruct (Nat.eqb_spec i (length done + 1)) as [->|Hne].
    + rewrite (proj2 (Nat.leb_gt (length done + 1) (length done))) by lia.
      rewrite (proj2 (Nat.leb_le _ _)) by lia. rewrite Nat.add_1_r, below_S by done. rewrite length_app. simpl. lia.
    + destruct (Nat.leb_spec i (length done)); destruct (Nat.leb_spec i (length done + 1)); try lia; done.
  - intros o' Ho'. apply HQ. eapply table_ext, Ho'. intros i Hi. rewrite length_seq in *. unfold summed.
    by rewrite (proj2 (Nat.leb_le _ _)) by lia.
Qed.

(** ** [from_edges] *)

Definition row_of (pairs : list (nat * nat)) (x : nat) : list nat := snd <$> filter (from_node x) pairs.

Lemma take_drop_middle_app {A} (a b c : list A) : take (length b) (drop (length a) (a ++ b ++ c)) = b.
Proof. rewrite drop_app_length. by rewrite take_app_length. Qed.

Lemma successors_pairs {S} nodes pairs o x (s : S) :
  StronglySorted edge_lt pairs -> table nodes (fun i => length (filter (below i) pairs)) o -> x < nodes ->
  successors (mk_Digraph o (snd <$> pairs)) x s = (Ok (row_of pairs x), s).
Proof.
  intros Hp [Hl Ho] Hx. unfold successors, element, bind; simpl. rewrite !Ho by lia. simpl.
  rewrite Nat.add_1_r, below_S, length_app, length_fmap by done.
  rewrite (proj2 (Nat.leb_le _ _)) by lia.
  assert (length pairs = length (filter (below x) pairs ++ filter (from_node x) pairs ++ filter (fun e => x < fst e) pairs))
    as Hlen by (f_equal; by apply sorted_pieces).
  rewrite !length_app in Hlen. rewrite (proj2 (Nat.leb_le _ _)) by lia. unfold ret. do 2 f_equal.
  assert (snd <$> pairs = (snd <$> filter (below x) pairs) ++ (snd <$> filter (from_node x) pairs) ++
    (snd <$> filter (fun e => x < fst e) pairs)) as -> by (rewrite (sorted_pieces x pairs Hp) at 1; by rewrite !fmap_app).
  unfold row_of. replace (_ + _ - _) with (length (snd <$> filter (from_node x) pairs)) by (rewrite length_fmap; lia).
  rewrite <- (length_fmap snd (filter (below x) pairs)). apply take_drop_middle_app.
Qed.

Definition sorted_edges (nodes : nat) (edges : list (nat * nat)) : list (nat * nat) :=
  dedup (merge_sort edge_le (filter (fun e => fst e < nodes /\ snd e < nodes) edges)).

Lemma elem_of_sorted_edges nodes edges e :
  (e ∈ sorted_edges nodes edges) <-> (fst e < nodes /\ snd e < nodes) /\ e ∈ edges.
Proof.
  unfold sorted_edges. rewrite elem_of_dedup. rewrite (merge_sort_Permutation edge_le). by rewrite list_elem_of_filter.
Qed.

Lemma sorted_edges_sorted nodes edges : StronglySorted edge_lt (sorted_edges nodes edges).
Proof. apply dedup_sorted, (StronglySorted_merge_sort _). Qed.

(** The rows of the edges between nodes. *)
Definition rows_of (nodes : nat) (edges : list (nat * nat)) : list (list nat) :=
  row_of (sorted_edges nodes edges) <$> seq 0 nodes.

Lemma length_rows_of nodes edges : length (rows_of nodes edges) = nodes.
Proof. unfold rows_of. by rewrite length_fmap, length_seq. Qed.

Lemma rows_of_lookup nodes edges x row :
  rows_of nodes edges !! x = Some row <-> x < nodes /\ row = row_of (sorted_edges nodes edges) x.
Proof.
  unfold rows_of. rewrite list_lookup_fmap, fmap_Some. split.
  - intros (y & [-> Hx]%lookup_seq & ->). done.
  - intros [Hx ->]. exists x. split; [by apply lookup_seq|done].
Qed.

Lemma elem_of_row_of nodes edges x y :
  (y ∈ row_of (sorted_edges nodes edges) x) <-> x < nodes /\ y < nodes /\ (x, y) ∈ edges.
Proof.
  unfold row_of. rewrite list_elem_of_fmap. split.
  - intros (e & -> & [<- [[Hx Hy] He]%elem_of_sorted_edges]%list_elem_of_filter). destruct e. by split_and!.
  - intros (Hx & Hy & He). exists (x, y). split; [done|]. apply list_elem_of_filter. split; [done|].
    apply elem_of_sorted_edges. by split_and!.
Qed.

Lemma edge_rows_of nodes edges x y :
  edge (rows_of nodes edges) x y <-> x < nodes /\ y < nodes /\ (x, y) ∈ edges.
Proof.
  unfold edge. split.
  - intros (row & [_ ->]%rows_of_lookup & Hy). by apply elem_of_row_of in Hy.
  - intros (Hx & Hy & He). exists (row_of (sorted_edges nodes edges) x). split; [by apply rows_of_lookup|].
    by apply elem_of_row_of.
Qed.

Lemma closed_rows_of nodes edges : closed_rows (rows_of nodes edges).
Proof.
  intros x row y [_ ->]%rows_of_lookup Hy. rewrite length_rows_of. by apply elem_of_row_of in Hy as (_ & Hy & _).
Qed.

Lemma length_below pairs k :
  StronglySorted edge_lt pairs -> length (concat (row_of pairs <$> seq 0 k)) = length (filter (below k) pairs).
Proof.
  intros Hp. induction k as [|k IH]; [by rewrite filter_none by lia|].
  rewrite seq_S, fmap_app, concat_app, length_app, IH, below_S, length_app by done. simpl.
  unfold row_of. by rewrite app_nil_r, length_fmap.
Qed.

Lemma from_edges_rows nodes edges :
  exists graph, from_edges nodes edges = Ok graph /\ represents graph (rows_of nodes edges).
Proof.
  unfold from_edges. fold (sorted_edges nodes edges).
  pose proof (sorted_edges_sorted nodes edges) as Hp.
  assert (forall e, e ∈ sorted_edges nodes edges -> fst e < nodes) as He by (intros e He%elem_of_sorted_edges; tauto).
  apply (returns_fst _ (fun graph => represents graph (rows_of nodes edges))).
  apply returns_bind. apply count_pairs; [done|]. intros o Ho.
  apply returns_bind. apply (sum_offsets _ (sorted_edges nodes edges)); [done..|]. clear o Ho. intros o Ho.
  apply returns_gets. split_and!.
  - unfold len; simpl. destruct Ho as [-> _]. rewrite length_rows_of. lia.
  - unfold edge_count; simpl. rewrite length_fmap. unfold rows_of. rewrite length_below by done.
    by rewrite filter_all.
  - intros S x row s [Hx ->]%rows_of_lookup. by apply (successors_pairs nodes).
Qed.

(** ** Strictly sorted lists are determined by their elements *)

Lemma strict_sorted_ext {A} (R : A -> A -> Prop) l l' :
  (forall x y, R x y -> ~ R y x) -> StronglySorted R l -> StronglySorted R l' ->
  (forall x, x ∈ l <-> x ∈ l') -> l = l'.
Proof.
  intros HR Hl. revert l'. induction Hl as [|x l Hl IH Hx]; intros l' Hl' Hel.
  - symmetry. apply elem_of_nil_inv. intros y Hy%Hel. by apply elem_of_nil in Hy.
  - destruct Hl' as [|y l' Hl' Hy]; [destruct (proj1 (elem_of_nil x)); apply Hel, list_elem_of_here|].
    rewrite list.Forall_forall in Hx, Hy.
    assert (x = y) as <-.
    { assert (x ∈ y :: l') as [->|Hx']%elem_of_cons by apply Hel, list_elem_of_here; [done|].
      assert (y ∈ x :: l) as [->|Hy']%elem_of_cons by apply Hel, list_elem_of_here; [done|].
      destruct (HR x y); auto. }
    f_equal. apply IH; [done|]. intros z. specialize (Hel z). rewrite !elem_of_cons in Hel.
    split; intros Hz.
    + destruct (proj1 Hel (or_intror Hz)) as [->|]; [|done]. destruct (HR x x); auto.
    + destruct (proj2 Hel (or_intror Hz)) as [->|]; [|done]. destruct (HR x x); auto.
Qed.

Lemma edge_lt_asym e f : edge_lt e f -> ~ edge_lt f e.
Proof. intros [H1 Hne] [H2 _]. by apply Hne, edge_le_antisym. Qed.

Lemma strict_sorted_lookup l i j x y :
  StronglySorted lt l -> i < j -> l !! i = Some x -> l !! j = Some y -> x < y.
Proof.
  intros Hl. revert i j. induction Hl as [|z l Hl IH Hz]; intros i j Hij Hi Hj; [done|].
  destruct i as [|i], j as [|j]; simpl in *; [lia| |lia|by apply (IH i j); [lia|..]].
  simplify_eq. rewrite list.Forall_forall in Hz. apply Hz. by eapply list_elem_of_lookup_2.
Qed.

(** ** Graphs with the same edges *)

Lemma sorted_edges_ext nodes edges edges' :
  (forall x y, x < nodes -> y < nodes -> (x, y) ∈ edges <-> (x, y) ∈ edges') ->
  sorted_edges nodes edges = sorted_edges nodes edges'.
Proof.
  intros He. apply (strict_sorted_ext edge_lt); [apply edge_lt_asym|apply sorted_edges_sorted..|].
  intros [x y]. rewrite !elem_of_sorted_edges. split; intros [[Hx Hy] Hin]; (split; [done|]); by apply He.
Qed.

Lemma from_edges_ext nodes edges edges' :
  (forall x y, x < nodes -> y < nodes -> (x, y) ∈ edges <-> (x, y) ∈ edges') ->
  from_edges nodes edges = from_edges nodes edges'.
Proof.
  intros He%sorted_edges_ext. unfold from_edges. fold (sorted_edges nodes edges) (sorted_edges nodes edges').
  by rewrite He.
Qed.

Lemma elem_of_imap_rows {B} (f : nat -> nat -> B) rows e :
  (e ∈ concat (imap (fun x row => f x <$> row) rows)) <-> exists x y, edge rows x y /\ e = f x y.
Proof.
  rewrite list_elem_of_In, in_concat. split.
  - intros (l & Hl%list_elem_of_In & He%list_elem_of_In).
    apply elem_of_lookup_imap in Hl as (x & row & -> & Hrow). apply list_elem_of_fmap in He as (y & -> & Hy).
    exists x, y. split; [by exists row|done].
  - intros (x & y & (row & Hrow & Hy) & ->). exists (f x <$> row). rewrite <- !list_elem_of_In. split.
    + by apply elem_of_lookup_imap_2 with (f := fun x row => f x <$> row) in Hrow.
    + by apply list_elem_of_fmap_2.
Qed.

(** [reversed] is the graph of the edges turned around. *)
Lemma reversed_edges graph nodes edges :
  from_edges nodes edges = Ok graph -> reversed graph = from_edges nodes ((fun e => (snd e, fst e)) <$> edges).
Proof.
  intros Hg. destruct (from_edges_rows nodes edges) as (g & Hg' & Hlen & _ & Hs).
  assert (g = graph) as -> by congruence. clear Hg'.
  rewrite length_rows_of in Hlen. unfold reversed. rewrite Hlen.
  rewrite (collect_pure _ (row_of (sorted_edges nodes edges))).
  2:{ intros x [_ Hx]%elem_of_seq. apply Hs, rows_of_lookup. split; [simpl in *; lia|done]. }
  fold (rows_of nodes edges). apply from_edges_ext. intros x y Hx Hy.
  rewrite (elem_of_imap_rows (fun from to => (to, from))), list_elem_of_fmap. setoid_rewrite edge_rows_of. split.
  - intros (a & b & (Ha & Hb & He) & [= -> ->]). by exists (a, b).
  - intros ([a b] & [= -> ->] & He). by exists a, b.
Qed.

Lemma from_lists_edges lists :
  closed_rows lists -> exists graph, from_lists lists = Ok graph /\
    represents graph (rows_of (length lists) (concat (imap (fun from targets => pair from <$> targets) lists))) /\
    forall x y, edge (rows_of (length lists) (concat (imap (fun from targets => pair from <$> targets) lists))) x y <-> edge lists x y.
Proof.
  intros Hc. destruct (from_edges_rows (length lists) (concat (imap (fun from targets => pair from <$> targets) lists)))
    as (graph & Hg & Hr). exists graph. split_and!; [done..|]. intros x y. rewrite edge_rows_of, elem_of_imap_rows. split.
  - by intros (_ & _ & a & b & He & [= -> ->]).
  - intros He. destruct (edge_closed _ _ _ Hc He). split_and!; [done..|]. by exists x, y.
Qed.

(** ** [has_edge] *)

Lemma binary_search_spec fuel l x low size :
  StronglySorted lt l -> size < fuel -> low + size <= length l ->
  binary_search fuel l x low size = true <-> exists i, low <= i < low + size /\ l !! i = Some x.
Proof.
  intros Hl. revert low size. induction fuel as [|fuel IH]; intros low size Hf Hb; [lia|]. cbn [binary_search].
  destruct (Nat.eqb_spec size 0) as [->|Hs]; [split; [done|intros (i & Hi & _); lia]|].
  assert (size / 2 < size) as Hhalf by (apply Nat.div_lt; lia). set (half := size / 2) in *.
  destruct (lookup_lt_is_Some_2 l (low + half)) as [y Hy]; [lia|]. rewrite Hy.
  destruct (Nat.eqb_spec y x) as [->|Hne]; [split; [|done]; intros _; exists (low + half); split; [lia|done]|].
  destruct (Nat.ltb_spec y x) as [Hlt|Hge]; rewrite IH by lia; split; intros (i & Hi & Hx); exists i;
    (split; [|done]).
  - lia.
  - assert (~ i < low + half); [|assert (i <> low + half) by congruence; lia]. intros Hi'.
    pose proof (strict_sorted_lookup _ _ _ _ _ Hl Hi' Hx Hy). lia.
  - lia.
  - assert (~ low + half < i); [|assert (i <> low + half) by congruence; lia]. intros Hi'.
    pose proof (strict_sorted_lookup _ _ _ _ _ Hl Hi' Hy Hx). lia.
Qed.

Lemma has_edge_rows {S} nodes edges graph x y (s : S) :
  from_edges nodes edges = Ok graph ->
  exists b, has_edge graph x y s = (Ok b, s) /\ (b = true <-> edge (rows_of nodes edges) x y).
Proof.
  intros Hg. destruct (from_edges_rows nodes edges) as (g & Hg' & Hlen & _ & Hs).
  assert (g = graph) as -> by congruence. clear Hg'.
  rewrite length_rows_of in Hlen. unfold has_edge. rewrite Hlen. destruct (Nat.ltb_spec x nodes) as [Hx|Hx].
  - assert (rows_of nodes edges !! x = Some (row_of (sorted_edges nodes edges) x)) as Hrow by by apply rows_of_lookup.
    unfold bind. rewrite (Hs _ _ _ s Hrow). eexists. split; [done|]. rewrite binary_search_spec by (try apply sorted_row, sorted_edges_sorted; lia).
    unfold edge. split.
    + intros (i & _ & Hi). eexists. split; [done|]. by eapply list_elem_of_lookup_2.
    + intros (row & Hrow' & [i Hi]%list_elem_of_lookup). simplify_eq. exists i. split; [|done].
      apply lookup_lt_Some in Hi. lia.
  - exists false. split; [done|]. split; [done|]. intros (Hx' & _)%edge_rows_of. lia.
Qed.
