(* ===== verification/BfsLaws.v ===== *)
(** * Breadth-first search computes layers

    [discovered] is the search as a function on lists, without the limit; the code gives its first visits. The layers
    are the nodes at each distance from the start nodes. [distance R P d x]: the nearest node of [P] is [d] steps of [R] from
    [x]; the visits of [discovered] are the nodes at each distance, each with its least parent. *)
From stdpp Require Import sets relations.
From S2P Require Import Prelude Digraph DigraphLaws.
Local Open Scope nat_scope.
Local Open Scope monad_scope.

(** ** Edges that reach a new node *)

(** The edges whose target is not known and was not the target of an earlier edge. *)
Fixpoint fresh (known : list nat) (es : list (nat * nat)) : list (nat * nat) :=
  match es with
  | [] => []
  | e :: es => if decide (snd e ∈ known) then fresh known es else e :: fresh (snd e :: known) es
  end.

Lemma fresh_known known es e : e ∈ fresh known es -> (snd e ∉ known) /\ e ∈ es.
Proof.
  revert known. induction es as [|f es IH]; intros known He; [by apply elem_of_nil in He|].
  cbn [fresh] in He. case_decide as Hf; [destruct (IH _ He); set_solver|].
  apply elem_of_cons in He as [->|He]; [set_solver|]. destruct (IH _ He); set_solver.
Qed.

(** The target of an edge is known before or new. *)
Lemma fresh_covers known es e : e ∈ es -> (snd e ∈ known) \/ snd e ∈ snd <$> fresh known es.
Proof.
  revert known. induction es as [|f es IH]; intros known He; [by apply elem_of_nil in He|].
  cbn [fresh]. apply elem_of_cons in He as [->|He]; case_decide; [by left|right; set_solver|by apply IH|].
  destruct (IH (snd f :: known) He); set_solver.
Qed.

Lemma fresh_sorted R known es : StronglySorted R es -> StronglySorted R (fresh known es).
Proof.
  intros Hs. revert known. induction Hs as [|e es Hs IH He]; intros known; [constructor|].
  cbn [fresh]. case_decide; [apply IH|]. constructor; [apply IH|]. rewrite list.Forall_forall in *.
  intros f [_ Hf]%fresh_known. by apply He.
Qed.

Lemma fresh_NoDup known es : NoDup (snd <$> fresh known es).
Proof.
  revert known. induction es as [|e es IH]; intros known; [constructor|]. cbn [fresh]. case_decide; [apply IH|].
  cbn. apply NoDup_cons. split; [|apply IH]. intros (f & Heq & [Hf _]%fresh_known)%list_elem_of_fmap. set_solver.
Qed.

(** The first edge to a new node: in sorted edges, the one from the least node. *)
Lemma fresh_least known es x m m' :
  StronglySorted edge_lt es -> (m, x) ∈ fresh known es -> (m', x) ∈ es -> m <= m'.
Proof.
  intros Hs. revert known. induction Hs as [|e es Hs IH He]; intros known Hm Hm'; [by apply elem_of_nil in Hm|].
  rewrite list.Forall_forall in He. cbn [fresh] in Hm. case_decide as Hk.
  - pose proof (fresh_known _ _ _ Hm) as [Hx _]. apply elem_of_cons in Hm' as [<-|Hm']; [done|by eapply IH].
  - apply elem_of_cons in Hm as [<-|Hm]; apply elem_of_cons in Hm' as [Heq|Hm'].
    + by simplify_eq.
    + destruct (He _ Hm') as [Hle _]. unfold edge_le in Hle. simpl in Hle. lia.
    + subst e. apply fresh_known in Hm as [Hx _]. set_solver.
    + by eapply IH.
Qed.

Lemma fresh_ext known known' es : (forall x, x ∈ known <-> x ∈ known') -> fresh known es = fresh known' es.
Proof.
  revert known known'. induction es as [|e es IH]; intros known known' Hk; [done|]. cbn [fresh].
  destruct (decide (snd e ∈ known)) as [He|He].
  - rewrite decide_True by by apply Hk. by apply IH.
  - rewrite decide_False by by rewrite <- Hk. f_equal. apply IH. intros x. rewrite !elem_of_cons. by rewrite Hk.
Qed.

(** ** The loops over the edges of a layer *)

Section search.
Context (graph : Digraph) (rows : list (list nat)) (Hg : represents graph rows) (Hc : closed_rows rows).

Abbreviation nodes := (length rows).

Definition row_at (x : nat) : list nat := default [] (rows !! x).

(** The edges from the nodes of [l]. *)
Definition level_edges (l : list nat) : list (nat * nat) := concat ((fun from => pair from <$> row_at from) <$> l).

Lemma edge_row_at x y : edge rows x y <-> y ∈ row_at x.
Proof.
  unfold edge, row_at. destruct (rows !! x) as [row|] eqn:Hrow; simpl.
  - split; [by intros (r & [= <-] & Hy)|intros Hy; by exists row].
  - split; [by intros (r & ? & _)|intros Hy; by apply elem_of_nil in Hy].
Qed.

Lemma elem_of_level_edges l m x : ((m, x) ∈ level_edges l) <-> m ∈ l /\ edge rows m x.
Proof.
  unfold level_edges. rewrite list_elem_of_In, in_concat, edge_row_at. split.
  - intros (es & Hes%list_elem_of_In & Hm%list_elem_of_In).
    apply list_elem_of_fmap in Hes as (y & -> & Hy). apply list_elem_of_fmap in Hm as (z & [= -> ->] & Hz). done.
  - intros [Hm Hx]. exists (pair m <$> row_at m). rewrite <- !list_elem_of_In.
    split; [by apply (list_elem_of_fmap_2 (fun from => pair from <$> row_at from))|by apply list_elem_of_fmap_2].
Qed.

Lemma returns_row {S} x (Q : list nat -> S -> Prop) s : x < nodes -> Q (row_at x) s -> returns (successors graph x) Q s.
Proof.
  intros Hx HQ. destruct (lookup_lt_is_Some_2 rows x Hx) as [row Hrow]. eapply returns_successors; [done..|].
  unfold row_at in HQ. by rewrite Hrow in HQ.
Qed.

Lemma successors_eq {S} x (s : S) : x < nodes -> successors graph x s = (Ok (row_at x), s).
Proof.
  intros Hx. destruct (lookup_lt_is_Some_2 rows x Hx) as [row Hrow]. unfold row_at. rewrite Hrow. by apply Hg.
Qed.

Lemma each_app {E S A R} (body : A -> M E S (option R)) l1 l2 s :
  each body (l1 ++ l2) s = bind (each body l1) (fun r => match r with Some r => ret (Some r) | None => each body l2 end) s.
Proof.
  revert s. induction l1 as [|x l1 IH]; intros s; [done|]. cbn. unfold bind at 1 2 3.
  destruct (body x s) as [[[r|]|e] s']; [done| |done]. by rewrite IH.
Qed.

Lemma each_fmap {E S A B R} (body : B -> M E S (option R)) (f : A -> B) l s :
  each body (f <$> l) s = each (fun x => body (f x)) l s.
Proof. revert s. induction l as [|x l IH]; intros s; [done|]. cbn. unfold bind. destruct (body (f x) s) as [[[r|]|e] s']; auto. Qed.

(** The nested loops are one loop over the edges. *)
Lemma each_level {S R} (step : nat -> nat -> M Fault S (option R)) l s :
  (forall x, x ∈ l -> x < nodes) ->
  each (fun from => let? row := successors graph from in each (step from) row) l s =
  each (fun e => step (fst e) (snd e)) (level_edges l) s.
Proof.
  revert s. induction l as [|x l IH]; intros s Hl; [done|]. unfold level_edges. cbn [fmap list_fmap concat each].
  rewrite each_app. unfold bind. rewrite successors_eq by (apply Hl; set_solver). rewrite each_fmap. cbn [fst snd].
  destruct (each (step x) (row_at x) s) as [[[r|]|e] s']; [done| |done]. apply IH. set_solver.
Qed.

(** [seen] marks the known nodes. *)
Definition marks (known : list nat) (seen : list bool) : Prop :=
  length seen = nodes /\ forall x, x < nodes -> seen !! x = Some (bool_decide (x ∈ known)).

Lemma marks_insert known seen x : marks known seen -> x < nodes -> marks (x :: known) (<[x := true]> seen).
Proof.
  intros [Hl Hs] Hx. split; [by rewrite length_insert|]. intros y Hy. destruct (decide (x = y)) as [->|Hne].
  - rewrite list_lookup_insert_eq by lia. by rewrite bool_decide_true by set_solver.
  - rewrite list_lookup_insert_ne, Hs by done. f_equal. apply bool_decide_ext. set_solver.
Qed.

Lemma marks_ext known known' seen : (forall x, (x ∈ known) <-> x ∈ known') -> marks known seen -> marks known' seen.
Proof. intros Hk [Hl Hs]. split; [done|]. intros x Hx. rewrite Hs by done. f_equal. by apply bool_decide_ext. Qed.

Lemma marks_replicate : marks [] (replicate nodes false).
Proof. split; [apply length_replicate|]. intros x Hx. rewrite bool_decide_false by set_solver. by apply lookup_replicate. Qed.

Definition visit_of (level : nat) (e : nat * nat) : Visit := mk_Visit (snd e) level (Some (fst e)).

(** ** One layer of [bfs] *)

Context (limit : N).

Definition room (s : Bfs.State) : nat := N.to_nat (limit - Bfs.reached s).

(** The state after the visits of [kept]. *)
Definition visited (level : nat) (kept : list (nat * nat)) (s s' : Bfs.State) : Prop :=
  Bfs.visits s' = Bfs.visits s ++ (visit_of level <$> kept) /\ Bfs.next s' = Bfs.next s ++ (snd <$> kept) /\
  Bfs.reached s' = (Bfs.reached s + N.of_nat (length kept))%N /\ Bfs.layer s' = Bfs.layer s.

Lemma visited_nil level s : visited level [] s s.
Proof. unfold visited. cbn. rewrite !app_nil_r. split_and!; [done..|lia|done]. Qed.

Lemma visited_cons level e kept s s1 s2 :
  visited level [e] s s1 -> visited level kept s1 s2 -> visited level (e :: kept) s s2.
Proof.
  intros (H1 & H2 & H3 & H4) (I1 & I2 & I3 & I4). unfold visited. rewrite I1, I2, I3, I4, H1, H2, H3, H4.
  cbn. rewrite <- !app_assoc. split_and!; [done..|lia|done].
Qed.

Definition edges_step (level : nat) (e : nat * nat) : M Fault Bfs.State (option unit) :=
  Bfs.edge_step limit level (fst e) (snd e).

Lemma edge_known level e known s :
  marks known (Bfs.seen s) -> snd e < nodes -> snd e ∈ known -> edges_step level e s = (Ok None, s).
Proof.
  intros [_ Hs] He Hk. unfold edges_step, Bfs.edge_step, Bfs.is_seen, bind, gets, element. rewrite Hs by done.
  by rewrite bool_decide_true.
Qed.

Lemma edge_full level e known s :
  marks known (Bfs.seen s) -> snd e < nodes -> snd e ∉ known -> Bfs.reached s = limit ->
  edges_step level e s = (Ok (Some tt), s).
Proof.
  intros [_ Hs] He Hk Hr. unfold edges_step, Bfs.edge_step, Bfs.is_seen, bind, gets, element. rewrite Hs by done.
  rewrite bool_decide_false by done. cbn. by rewrite Hr, N.eqb_refl.
Qed.

Lemma edge_new level e known s :
  marks known (Bfs.seen s) -> snd e < nodes -> snd e ∉ known -> (Bfs.reached s < limit)%N ->
  exists s', edges_step level e s = (Ok None, s') /\ visited level [e] s s' /\ marks (snd e :: known) (Bfs.seen s').
Proof.
  intros Hm He Hk Hr. pose proof Hm as [Hl Hs].
  unfold edges_step, Bfs.edge_step, Bfs.is_seen, bind, gets, element. rewrite Hs by done.
  rewrite bool_decide_false by done. cbn. rewrite (proj2 (N.eqb_neq _ _)) by lia.
  unfold Bfs.set_seen, bind, gets, updated. rewrite (proj2 (Nat.ltb_lt _ _)) by lia. cbn.
  eexists. split; [done|]. split; [unfold visited; by cbn|]. cbn. by apply marks_insert.
Qed.

Lemma edges_run level es known s :
  (forall e, e ∈ es -> snd e < nodes) -> marks known (Bfs.seen s) -> (Bfs.reached s <= limit)%N ->
  let kept := take (room s) (fresh known es) in
  exists s', each (edges_step level) es s =
      (Ok (if length (fresh known es) <=? room s then None else Some tt), s') /\
    visited level kept s s' /\ marks ((snd <$> kept) ++ known) (Bfs.seen s').
Proof.
  revert known s. induction es as [|e es IH]; intros known s Hes Hm Hr; cbn [each fresh].
  { exists s. rewrite take_nil. split_and!; [done|apply visited_nil|done]. }
  assert (snd e < nodes) as He by (apply Hes; set_solver). case_decide as Hk.
  { unfold bind. erewrite edge_known by done. apply IH; [set_solver|done..]. }
  destruct (decide (Bfs.reached s = limit)) as [Heq|Hne].
  { unfold bind. erewrite edge_full by done. exists s. unfold room. rewrite Heq, N.sub_diag. cbn.
    split_and!; [done|apply visited_nil|done]. }
  destruct (edge_new level e known s Hm He Hk) as (s1 & Hs1 & Hv & Hm1); [lia|]. unfold bind. rewrite Hs1.
  assert (room s = S (room s1)) as Hroom by (destruct Hv as (_ & _ & Hv & _); unfold room; rewrite Hv; cbn; lia).
  destruct (IH (snd e :: known) s1) as (s' & Hs' & Hv' & Hm'); [set_solver|done|
    destruct Hv as (_ & _ & Hv & _); cbn in Hv; lia|].
  exists s'. rewrite Hs', Hroom. split; [done|]. cbn [take]. split; [by eapply visited_cons|].
  eapply marks_ext, Hm'. cbn. intros x. rewrite !elem_of_cons, !elem_of_app, elem_of_cons. tauto.
Qed.

(** ** The search *)

Definition next_edges (known layer : list nat) : list (nat * nat) :=
  fresh known (level_edges (merge_sort (≤) layer)).

(** The visits of [turns] layers from [level] on, without a limit. *)
Fixpoint discovered (turns level : nat) (known layer : list nat) : list Visit :=
  match turns with
  | O => []
  | S turns =>
    let new := next_edges known layer in
    (visit_of level <$> new) ++ discovered turns (S level) ((snd <$> new) ++ known) (snd <$> new)
  end.

Lemma discovered_nil turns level known : discovered turns level known [] = [].
Proof. revert level known. induction turns as [|turns IH]; intros level known; [done|]. apply IH. Qed.

Lemma level_edges_in l e : e ∈ level_edges l -> snd e < nodes.
Proof. destruct e as [m x]. intros [_ (row & Hrow & Hx)]%elem_of_level_edges. by eapply Hc. Qed.

(** One layer, when all its visits fit and when they do not. *)
Lemma level_step_run level known s :
  marks known (Bfs.seen s) -> (forall x, x ∈ Bfs.layer s -> x < nodes) -> (Bfs.reached s <= limit)%N ->
  let new := next_edges known (Bfs.layer s) in
  exists r s', Bfs.level_step graph limit level s = (Ok r, s') /\
    Bfs.visits s' = Bfs.visits s ++ (visit_of level <$> take (room s) new) /\
    match r with
    | Some _ => new = [] \/ room s < length new
    | None => room s = room s' + length new /\ Bfs.layer s' = snd <$> new /\ (Bfs.reached s' <= limit)%N /\
        marks ((snd <$> new) ++ known) (Bfs.seen s')
    end.
Proof.
  intros Hm Hl Hr new. unfold Bfs.level_step, Bfs.set_layer, Bfs.set_next, gets, modify, bind at 1 2 3. cbn.
  unfold bind at 1. unfold Bfs.node_step. rewrite each_level by (intros x; rewrite merge_sort_Permutation; apply Hl).
  destruct (edges_run level (level_edges (merge_sort (≤) (Bfs.layer s))) known
    (Bfs.mk_State (Bfs.seen s) (Bfs.visits s) (merge_sort (≤) (Bfs.layer s)) (Bfs.reached s) []))
    as (s1 & Hs1 & (Hv & Hn & Hr1 & _) & Hm1); [apply level_edges_in|done..|].
  fold (next_edges known (Bfs.layer s)) in *. fold new in Hs1, Hv, Hn, Hr1, Hm1.
  change (room _) with (room s) in Hs1, Hv, Hn, Hr1, Hm1. cbn in Hv, Hn, Hr1. unfold edges_step in Hs1. rewrite Hs1. clearbody new.
  destruct (Nat.leb_spec (length new) (room s)) as [Hle|Hgt].
  - rewrite take_ge in * by done. unfold bind. rewrite Hn. destruct new as [|e new].
    + eexists _, s1. split; [done|]. split; [done|]. by left.
    + cbn [fmap list_fmap]. eexists _, _. split; [done|]. cbn [Bfs.visits Bfs.layer Bfs.reached Bfs.seen]. split; [done|].
      unfold room in *. cbn [Bfs.reached]. rewrite Hr1. split_and!; [lia|done|lia|done].
  - eexists _, s1. split; [done|]. split; [done|]. by right.
Qed.

Lemma levels_run turns level known s :
  marks known (Bfs.seen s) -> (forall x, x ∈ Bfs.layer s -> x < nodes) -> (Bfs.reached s <= limit)%N ->
  exists r s', each (Bfs.level_step graph limit) (seq level turns) s = (Ok r, s') /\
    Bfs.visits s' = Bfs.visits s ++ take (room s) (discovered turns level known (Bfs.layer s)).
Proof.
  revert level known s. induction turns as [|turns IH]; intros level known s Hm Hl Hr.
  { exists None, s. cbn [discovered]. by rewrite take_nil, app_nil_r. }
  cbn [seq each discovered].
  destruct (level_step_run level known s Hm Hl Hr) as (r & s1 & Hs1 & Hv & Hrest). unfold bind at 1. rewrite Hs1.
  destruct r as [r|].
  - exists (Some r), s1. split; [done|]. rewrite Hv. f_equal. destruct Hrest as [->|Hgt].
    + cbn. by rewrite discovered_nil, !take_nil.
    + rewrite take_app_le by (rewrite length_fmap; lia). by rewrite fmap_take.
  - destruct Hrest as (Hroom & Hl1 & Hr1 & Hm1).
    destruct (IH (S level) _ s1 Hm1) as (r' & s' & Hs' & Hv'); [|done|].
    { rewrite Hl1. intros x (e & -> & [_ He]%fresh_known)%list_elem_of_fmap. by eapply level_edges_in. }
    exists r', s'. split; [done|]. rewrite Hv', Hv, Hl1, <- app_assoc. f_equal.
    rewrite take_app_ge by (rewrite length_fmap; lia). rewrite length_fmap, take_ge by lia. do 2 f_equal. lia.
Qed.

(** ** The start nodes *)

(** The start nodes that are nodes, at their first occurrence. *)
Fixpoint starts (known start : list nat) : list nat :=
  match start with
  | [] => []
  | x :: start => if decide (x < nodes /\ x ∉ known) then x :: starts (x :: known) start else starts known start
  end.

Lemma elem_of_starts known start x : (x ∈ starts known start) <-> x < nodes /\ (x ∉ known) /\ x ∈ start.
Proof.
  clear Hg Hc. revert known. induction start as [|y start IH]; intros known; cbn [starts]; [set_solver|].
  case_decide as Hy; rewrite ?elem_of_cons, IH; [|set_solver]. destruct (decide (x = y)) as [->|Hne]; set_solver.
Qed.

Lemma starts_NoDup known start : NoDup (starts known start).
Proof.
  clear Hg Hc. revert known. induction start as [|y start IH]; intros known; cbn [starts]; [constructor|].
  case_decide; [|apply IH]. apply NoDup_cons. split; [|apply IH]. rewrite elem_of_starts. set_solver.
Qed.

Definition start_visit (x : nat) : Visit := mk_Visit x 0 None.

Lemma starts_run start known s (Q : unit -> Bfs.State -> Prop) :
  marks known (Bfs.seen s) ->
  (forall s', marks (starts known start ++ known) (Bfs.seen s') ->
    Bfs.layer s' = Bfs.layer s ++ starts known start ->
    Bfs.visits s' = Bfs.visits s ++ (start_visit <$> starts known start) ->
    Bfs.reached s' = Bfs.reached s -> Q tt s') ->
  returns (for_each (Bfs.start_node graph) start) Q s.
Proof.
  revert known s. induction start as [|x start IH]; intros known s Hm HQ; cbn [for_each starts].
  { apply HQ; cbn; by rewrite ?app_nil_r. }
  apply returns_bind. set (rest := for_each (Bfs.start_node graph) start). unfold Bfs.start_node.
  destruct Hg as [Hlen _]. rewrite Hlen.
  destruct (Nat.ltb_spec x nodes) as [Hx|Hx].
  - apply returns_bind. unfold Bfs.is_seen. apply returns_bind, returns_gets. eapply returns_element; [by apply Hm|].
    destruct (decide (x ∈ known)) as [Hk|Hk].
    + rewrite bool_decide_true by done. cbv iota. apply returns_ret. subst rest. apply (IH known s); [done|]. intros s' Hm' Hl Hv Hr.
      cbn [starts] in HQ. rewrite decide_False in HQ by tauto. by apply HQ.
    + rewrite bool_decide_false by done. destruct Hm as [Hls Hs]. repeat (apply returns_bind || apply returns_gets).
      apply returns_updated; [lia|]. repeat (apply returns_bind || apply returns_gets || apply returns_modify). cbn.
      subst rest. apply (IH (x :: known)); cbn; [by apply marks_insert|]. intros s' Hm' Hl Hv Hr.
      cbn [starts] in HQ. rewrite decide_True in HQ by done. apply HQ; [| | |done].
      * eapply marks_ext, Hm'. intros y. set_solver.
      * by rewrite Hl, <- app_assoc.
      * by rewrite Hv, <- app_assoc.
  - apply returns_ret. subst rest. apply (IH known s); [done|]. intros s' Hm' Hl Hv Hr.
    cbn [starts] in HQ. rewrite decide_False in HQ by lia. by apply HQ.
Qed.

(** [bfs] gives the start nodes and the first [limit] of the other visits. *)
Lemma bfs_discovered start depth :
  bfs graph start depth limit =
    Ok ((start_visit <$> starts [] start) ++
      take (N.to_nat limit) (discovered depth 1 (starts [] start) (starts [] start))).
Proof.
  assert (returns (Bfs.search graph start depth limit) (fun v _ => v = (start_visit <$> starts [] start) ++
    take (N.to_nat limit) (discovered depth 1 (starts [] start) (starts [] start)))
    (Bfs.mk_State (replicate (len graph) false) [] [] 0 [])) as Hs.
  { destruct Hg as [Hlen _]. rewrite Hlen. apply returns_bind, (starts_run _ []); [apply marks_replicate|].
    rewrite app_nil_r. intros s Hm Hl Hv Hr. cbn in Hl, Hv, Hr.
    destruct (levels_run depth 1 (starts [] start) s) as (r & s' & Hs' & Hv'); [done| |lia|].
    { rewrite Hl. intros x Hx%elem_of_starts. tauto. }
    apply returns_bind. eapply returns_eq; [done|]. apply returns_gets. rewrite Hv', Hv, Hl. unfold room.
    by rewrite Hr, N.sub_0_r. }
  apply returns_fst in Hs as (v & Hv & ->). exact Hv.
Qed.
End search.

(** ** Distances *)

Definition near (R : nat -> nat -> Prop) (P : nat -> Prop) (d x : nat) : Prop := exists s, P s /\ nsteps R d s x.

Definition distance (R : nat -> nat -> Prop) (P : nat -> Prop) (d x : nat) : Prop :=
  near R P d x /\ forall d', d' < d -> ~ near R P d' x.

(** The least node of layer [d] with a step to [x]. *)
Definition least_parent (R : nat -> nat -> Prop) (P : nat -> Prop) (d x m : nat) : Prop :=
  distance R P d m /\ R m x /\ forall m', distance R P d m' -> R m' x -> m <= m'.

(** What a visit states of its node. *)
Definition right_visit (R : nat -> nat -> Prop) (P : nat -> Prop) (v : Visit) : Prop :=
  distance R P (visit_depth v) (visit_node v) /\
  match visit_depth v with
  | O => visit_parent v = None
  | S d => exists m, visit_parent v = Some m /\ least_parent R P d (visit_node v) m
  end.

Section distances.
Context (R : nat -> nat -> Prop) (P : nat -> Prop).

Lemma distance_unique d d' x : distance R P d x -> distance R P d' x -> d = d'.
Proof.
  intros [Hn Hl] [Hn' Hl']. destruct (lt_eq_lt_dec d d') as [[Hlt| ->]|Hlt]; [by destruct (Hl' d)|done|by destruct (Hl d')].
Qed.

Lemma distance_0 x : distance R P 0 x <-> P x.
Proof.
  split.
  - intros [(s & Hs & Hn) _]. by inversion Hn; subst.
  - intros Hx. split; [|lia]. exists x. split; [done|constructor].
Qed.

Lemma near_step d m x : near R P d m -> R m x -> near R P (S d) x.
Proof. intros (s & Hs & Hn) Hx. exists s. split; [done|by eapply nsteps_r]. Qed.

Lemma distance_pred d x : distance R P (S d) x -> exists m, distance R P d m /\ R m x.
Proof.
  intros [(s & Hs & (m & Hm & Hx)%nsteps_inv_r) Hl]. exists m. split; [|done]. split; [by exists s|].
  intros d' Hd Hn. apply (Hl (S d')); [lia|by eapply near_step].
Qed.

Lemma distance_S d x :
  (forall d', d' <= d -> near R P d' x -> exists d'', d'' <= d' /\ distance R P d'' x) ->
  distance R P (S d) x <-> (exists m, distance R P d m /\ R m x) /\ forall d', d' <= d -> ~ distance R P d' x.
Proof.
  intros Hleast. split.
  - intros Hx. split; [by apply distance_pred|]. intros d' Hd Hx'.
    assert (S d = d') by by eapply distance_unique. lia.
  - intros [(m & [Hm _] & HR) Hno]. split; [by eapply near_step|]. intros d' Hd Hn.
    destruct (Hleast d') as (d'' & Hle & Hx); [lia|done|]. apply (Hno d''); [lia|done].
Qed.
End distances.

Lemma near_ext R R' P P' d x :
  (forall x y, R x y <-> R' x y) -> (forall x, P x <-> P' x) -> near R P d x <-> near R' P' d x.
Proof.
  intros HR HP. unfold near. setoid_rewrite HP.
  assert (forall s, nsteps R d s x <-> nsteps R' d s x) as Hn; [|by setoid_rewrite Hn].
  intros s. split; intros Hs; induction Hs; econstructor; try done; by apply HR.
Qed.

Lemma distance_ext R R' P P' d x :
  (forall x y, R x y <-> R' x y) -> (forall x, P x <-> P' x) -> distance R P d x <-> distance R' P' d x.
Proof. intros HR HP. unfold distance. by setoid_rewrite (near_ext R R' P P' _ _ HR HP). Qed.

Lemma right_visit_ext R R' P P' v :
  (forall x y, R x y <-> R' x y) -> (forall x, P x <-> P' x) -> right_visit R P v <-> right_visit R' P' v.
Proof.
  intros HR HP. unfold right_visit, least_parent. rewrite (distance_ext R R' P P') by done.
  destruct (visit_depth v) as [|d]; [done|]. by setoid_rewrite (distance_ext R R' P P' _ _ HR HP); setoid_rewrite HR.
Qed.

(** ** Layers of rows *)

Section layers.
Context (rows : list (list nat)) (start : list nat).
Hypothesis Hsorted : forall x row, rows !! x = Some row -> StronglySorted lt row.

Abbreviation R := (edge rows).
Abbreviation P := (fun x => x ∈ start).
Abbreviation dist := (distance R P).

(** Where walks of [d] steps end. *)
Fixpoint ends (d : nat) : list nat :=
  match d with O => start | S d => concat (row_at rows <$> ends d) end.

Lemma elem_of_ends d x : (x ∈ ends d) <-> near R P d x.
Proof.
  revert x. induction d as [|d IH]; intros x; cbn [ends].
  - split; [intros Hx; exists x; split; [done|constructor]|]. intros (s & Hs & Hn). by inversion Hn; subst.
  - rewrite list_elem_of_In, in_concat. split.
    + intros (l & Hl%list_elem_of_In & Hx%list_elem_of_In). apply list_elem_of_fmap in Hl as (m & -> & Hm%IH).
      eapply near_step; [done|]. by apply edge_row_at.
    + intros (s & Hs & (m & Hm & Hx)%nsteps_inv_r). exists (row_at rows m). rewrite <- !list_elem_of_In. split.
      * apply list_elem_of_fmap_2, IH. by exists s.
      * by apply edge_row_at.
Qed.

Lemma near_dec d x : near R P d x \/ ~ near R P d x.
Proof. rewrite <- elem_of_ends. destruct (decide (x ∈ ends d)); tauto. Qed.

Lemma distance_least d x : near R P d x -> exists d', d' <= d /\ dist d' x.
Proof.
  assert ((exists d', d' <= d /\ dist d' x) \/ forall d', d' <= d -> ~ near R P d' x) as [H|H]; [|done|].
  { induction d as [|d IH].
    - destruct (near_dec 0 x) as [Hn|Hn].
      + left. exists 0. split; [done|]. split; [done|lia].
      + right. intros d' Hd. by replace d' with 0 by lia.
    - destruct IH as [(d' & Hd & Hx)|Hno]; [left; exists d'; split; [lia|done]|].
      destruct (near_dec (S d) x) as [Hn|Hn].
      + left. exists (S d). split; [done|]. split; [done|]. intros d' Hd. apply Hno. lia.
      + right. intros d' Hd. destruct (decide (d' = S d)) as [->|]; [done|]. apply Hno. lia. }
  intros Hn. by destruct (H d).
Qed.

Lemma dist_S d x : dist (S d) x <-> (exists m, dist d m /\ R m x) /\ forall d', d' <= d -> ~ dist d' x.
Proof. apply distance_S. intros d' _. apply distance_least. Qed.

(** ** Edges of a layer *)

Lemma sorted_layer l : NoDup l -> StronglySorted lt (merge_sort (≤) l).
Proof.
  intros Hl. assert (NoDup (merge_sort (≤) l)) as Hn by by rewrite merge_sort_Permutation.
  assert (StronglySorted (≤) (merge_sort (≤) l)) as Hs by apply (StronglySorted_merge_sort _).
  revert Hn. induction Hs as [|x k Hs IH Hx]; intros Hn; [constructor|]. apply NoDup_cons in Hn as [Hx' Hn].
  constructor; [by apply IH|]. rewrite list.Forall_forall in *. intros y Hy. specialize (Hx y Hy).
  assert (x <> y) by (intros ->; done). lia.
Qed.

Lemma row_at_sorted x : StronglySorted lt (row_at rows x).
Proof. unfold row_at. destruct (rows !! x) as [row|] eqn:Hrow; [by eapply Hsorted|constructor]. Qed.

Lemma level_edges_sorted l : StronglySorted lt l -> StronglySorted edge_lt (level_edges rows l).
Proof.
  induction 1 as [|x l Hl IH Hx]; [constructor|]. unfold level_edges. cbn [fmap list_fmap concat].
  apply StronglySorted_app_2; [|apply (StronglySorted_fmap _ lt edge_lt); [|apply row_at_sorted]|done].
  - intros e [m y] (z & -> & Hz)%list_elem_of_fmap Hm%elem_of_level_edges. rewrite list.Forall_forall in Hx.
    destruct Hm as [Hm _]. specialize (Hx m Hm). split; [unfold edge_le; cbn; lia|]. intros [= -> _]. lia.
  - intros a b Hab. split; [unfold edge_le; cbn; lia|]. intros [= ->]. lia.
Qed.

(** [known] holds the nodes up to distance [k] and [layer] those at distance [k]. *)
Definition layered (k : nat) (known layer : list nat) : Prop :=
  (forall x, (x ∈ known) <-> exists d, d <= k /\ dist d x) /\ NoDup layer /\ forall x, (x ∈ layer) <-> dist k x.

Lemma elem_of_next_edges k known layer m x :
  layered k known layer ->
  ((m, x) ∈ next_edges rows known layer) <-> dist (S k) x /\ least_parent R P k x m.
Proof.
  intros (Hk & Hnd & Hl). unfold next_edges. set (es := level_edges rows (merge_sort (≤) layer)).
  assert (forall m x, ((m, x) ∈ es) <-> dist k m /\ R m x) as Hes.
  { intros m' x'. unfold es. by rewrite elem_of_level_edges, merge_sort_Permutation, Hl. }
  assert (StronglySorted edge_lt es) as Hs by by apply level_edges_sorted, sorted_layer.
  split.
  - intros Hm. pose proof (fresh_known _ _ _ Hm) as [Hx [Hdm HR]%Hes]. cbn in Hx. rewrite Hk in Hx. split.
    + apply dist_S. split; [by exists m|]. intros d' Hd Hx'. apply Hx. by exists d'.
    + split_and!; [done..|]. intros m' Hm' HR'. eapply fresh_least; [done..|]. by apply Hes.
  - intros [Hx (Hm & HR & Hleast)]. assert ((m, x) ∈ es) as Hin by by apply Hes.
    destruct (fresh_covers known es (m, x) Hin) as [Hkn|((m', x') & Hx' & Hf)%list_elem_of_fmap]; cbn in *.
    + apply Hk in Hkn as (d & Hd & Hx'). assert (S k = d) by by eapply distance_unique. lia.
    + subst x'. assert (m' <= m) by by eapply fresh_least. pose proof (fresh_known _ _ _ Hf) as [_ [Hm' HR']%Hes].
      assert (m <= m') by by apply Hleast. by replace m with m' by lia.
Qed.

Lemma elem_of_next_layer k known layer x :
  layered k known layer -> (x ∈ snd <$> next_edges rows known layer) <-> dist (S k) x.
Proof.
  intros Hl. rewrite list_elem_of_fmap. split.
  - intros ([m y] & -> & Hm). by eapply elem_of_next_edges in Hm as [Hx _].
  - intros Hx. pose proof Hx as [(m & Hm & HR) _]%dist_S. destruct Hl as (Hk & Hnd & Hl).
    assert ((m, x) ∈ level_edges rows (merge_sort (≤) layer)) as Hin.
    { by rewrite elem_of_level_edges, merge_sort_Permutation, Hl. }
    destruct (fresh_covers known _ (m, x) Hin) as [Hkn|(e & Hx' & Hf)%list_elem_of_fmap]; [|by exists e]. cbn in Hkn.
    apply Hk in Hkn as (d & Hd & Hx'). assert (S k = d) by by eapply distance_unique. lia.
Qed.

Lemma layered_next k known layer :
  layered k known layer ->
  layered (S k) ((snd <$> next_edges rows known layer) ++ known) (snd <$> next_edges rows known layer).
Proof.
  intros Hl. split_and!.
  - intros x. rewrite elem_of_app, (elem_of_next_layer k) by done. destruct Hl as (-> & _ & _). split.
    + intros [Hx|(d & Hd & Hx)]; [by exists (S k)|]. exists d. split; [lia|done].
    + intros (d & Hd & Hx). destruct (decide (d = S k)) as [->|]; [by left|]. right. exists d. split; [lia|done].
  - apply fresh_NoDup.
  - intros x. by apply elem_of_next_layer.
Qed.

(** ** The visits *)

Lemma elem_of_discovered turns k known layer v :
  layered k known layer ->
  (v ∈ discovered rows turns (S k) known layer) <->
  k < visit_depth v <= k + turns /\ right_visit R P v.
Proof.
  revert k known layer. induction turns as [|turns IH]; intros k known layer Hl; cbn [discovered].
  { split; [by intros ?%elem_of_nil|lia]. }
  rewrite elem_of_app, (IH (S k)) by by apply layered_next. split.
  - intros [([m x] & -> & Hm)%list_elem_of_fmap|[Hd Hv]]; [|split; [lia|done]].
    eapply elem_of_next_edges in Hm as [Hx Hm]; [|done]. split; [cbn; lia|]. split; [done|]. by exists m.
  - intros [Hd Hv]. destruct (decide (visit_depth v = S k)) as [Heq|]; [|right; split; [lia|done]].
    left. destruct v as [x d p], Hv as [Hx Hp]. cbn in *. subst d. destruct Hp as (m & -> & Hm).
    apply list_elem_of_fmap. exists (m, x). split; [done|]. by eapply elem_of_next_edges.
Qed.

Lemma layered_start : NoDup start -> layered 0 start start.
Proof.
  intros Hnd. split_and!; [|done|].
  - intros x. split; [intros Hx; exists 0; split; [done|by apply distance_0]|].
    intros (d & Hd & Hx). assert (d = 0) as -> by lia. by apply (distance_0 R P).
  - intros x. by rewrite (distance_0 R P).
Qed.

Lemma layered_exists k : NoDup start -> exists known layer, layered k known layer.
Proof.
  intros Hnd. induction k as [|k (known & layer & IH)]; [exists start, start; by apply layered_start|].
  eexists _, _. by apply layered_next.
Qed.

(** Every node that is reached has its visit. *)
Lemma visit_exists d x : NoDup start -> dist d x -> exists p, right_visit R P (mk_Visit x d p).
Proof.
  intros Hnd Hx. destruct d as [|k]; [by exists None|]. destruct (layered_exists k Hnd) as (known & layer & Hl).
  pose proof (proj2 (elem_of_next_layer k known layer x Hl) Hx) as ([m y] & -> & Hm)%list_elem_of_fmap.
  apply (elem_of_next_edges k known layer) in Hm as [_ Hm]; [|done]. exists (Some m). split; [done|]. by exists m.
Qed.

(** By layer, then by parent, then by node. *)
Definition visit_lt (v w : Visit) : Prop :=
  visit_depth v < visit_depth w \/
  (visit_depth v = visit_depth w /\ edge_lt (default 0 (visit_parent v), visit_node v) (default 0 (visit_parent w), visit_node w)).

Lemma discovered_sorted turns k known layer :
  layered k known layer -> StronglySorted visit_lt (discovered rows turns (S k) known layer).
Proof.
  revert k known layer. induction turns as [|turns IH]; intros k known layer Hl; cbn [discovered]; [constructor|].
  apply StronglySorted_app_2; [| |by apply (IH (S k)), layered_next].
  - intros v w (e & -> & _)%list_elem_of_fmap Hw. left. eapply elem_of_discovered in Hw; [|by apply layered_next].
    cbn. lia.
  - apply (StronglySorted_fmap _ edge_lt); [|].
    + intros [m x] [m' x'] He. right. by split.
    + apply fresh_sorted, level_edges_sorted, sorted_layer. by destruct Hl as (_ & Hnd & _).
Qed.

(** The start nodes, and the visits of [depth] layers. *)
Definition all_visits (depth : nat) : list Visit := (start_visit <$> start) ++ discovered rows depth 1 start start.

Lemma elem_of_all_visits depth v :
  NoDup start -> (v ∈ all_visits depth) <-> visit_depth v <= depth /\ right_visit R P v.
Proof.
  intros Hnd. unfold all_visits. rewrite elem_of_app, elem_of_discovered by by apply layered_start. split.
  - intros [(x & -> & Hx)%list_elem_of_fmap|[Hd Hv]]; [|split; [lia|done]].
    split; [cbn; lia|]. split; [by apply (distance_0 R P)|done].
  - intros [Hd Hv]. destruct (decide (visit_depth v = 0)) as [Heq|]; [|right; split; [lia|done]].
    left. destruct v as [x d p], Hv as [Hx Hp]. cbn in *. subst d. subst p. apply list_elem_of_fmap.
    exists x. split; [done|]. by apply (distance_0 R P).
Qed.

(** A node has one right visit. *)
Lemma right_visit_unique v w : right_visit R P v -> right_visit R P w -> visit_node v = visit_node w -> v = w.
Proof.
  destruct v as [x d p], w as [y d' p']. intros [Hx Hp] [Hy Hp'] Heq. cbn in *. subst y.
  assert (d = d') as <- by by eapply distance_unique. f_equal. destruct d as [|d]; [congruence|].
  destruct Hp as (m & -> & Hm & HR & Hleast), Hp' as (m' & -> & Hm' & HR' & Hleast'). f_equal.
  specialize (Hleast m' Hm' HR'). specialize (Hleast' m Hm HR). lia.
Qed.

Lemma visit_lt_irrefl v w : visit_lt v w -> v <> w.
Proof. intros [Hd|[_ [_ Hne]]] ->; [lia|done]. Qed.

Lemma all_visits_NoDup depth : NoDup start -> NoDup (visit_node <$> all_visits depth).
Proof.
  intros Hnd. apply NoDup_fmap_2_strong.
  - intros v w [_ Hv]%(elem_of_all_visits depth v Hnd) [_ Hw]%(elem_of_all_visits depth w Hnd). by apply right_visit_unique.
  - unfold all_visits. apply NoDup_app. split_and!.
    + apply NoDup_fmap_2; [|done]. by intros x y [= ->].
    + intros v (x & -> & _)%list_elem_of_fmap Hv. eapply elem_of_discovered in Hv; [|by apply layered_start].
      cbn in Hv. lia.
    + assert (StronglySorted visit_lt (discovered rows depth 1 start start)) as Hs by by apply discovered_sorted, layered_start.
      induction Hs as [|v l _ IH Hv]; [constructor|]. apply NoDup_cons. split; [|done].
      rewrite list.Forall_forall in Hv. intros Hin%Hv. by eapply visit_lt_irrefl.
Qed.
End layers.
