(* ===== verification/PathLaws.v ===== *)
(** * Shortest paths and the edge of a bounded search

    [shortest_path] gives the path that the visits of [bfs] describe; [reaches_beyond] tells whether there is a node one
    layer further. *)
From stdpp Require Import sets relations.
From S2P Require Import Prelude Digraph DigraphLaws BfsLaws.
Local Open Scope nat_scope.
Local Open Scope monad_scope.

Lemma nodes_bound n (l : list nat) : NoDup l -> (forall x, x ∈ l -> x < n) -> length l <= n.
Proof.
  intros Hnd Hl. rewrite <- (length_seq n 0). apply submseteq_length, NoDup_submseteq; [done|].
  intros x Hx. apply elem_of_seq. specialize (Hl x Hx). lia.
Qed.

(** ** Paths through the layers *)

(** [p] goes through a node at each distance up to [d], each the least parent of the next. *)
Definition layer_path (R : nat -> nat -> Prop) (P : nat -> Prop) (d : nat) (p : list nat) : Prop :=
  length p = S d /\ (forall i x, p !! i = Some x -> distance R P i x) /\
  forall i m x, p !! i = Some m -> p !! S i = Some x -> least_parent R P i x m.

Section paths.
Context (R : nat -> nat -> Prop) (P : nat -> Prop).

Lemma layer_path_0 x : distance R P 0 x -> layer_path R P 0 [x].
Proof.
  intros Hx. split_and!; [done| |].
  - intros i y Hi. destruct i; [|done]. simpl in Hi. by simplify_eq.
  - intros i m y _ Hi. by destruct i.
Qed.

Lemma layer_path_snoc d p m x :
  layer_path R P d p -> last p = Some m -> distance R P (S d) x -> least_parent R P d x m -> layer_path R P (S d) (p ++ [x]).
Proof.
  intros (Hlen & Hd & Hl) Hm Hx Hp. rewrite last_lookup, Hlen in Hm. cbn in Hm. split_and!.
  - rewrite length_app, Hlen. cbn. lia.
  - intros i y Hi. apply lookup_app_Some in Hi as [Hi|[Hge Hi]]; [by apply Hd|].
    destruct (i - length p) as [|j] eqn:Hj; [|done]. cbn in Hi. simplify_eq. by replace i with (S d) by lia.
  - intros i m' y Hi Hy. apply lookup_app_Some in Hy as [Hy|[Hge Hy]].
    + apply Hl; [|done]. apply lookup_app_Some in Hi as [Hi|[Hge _]]; [done|]. apply lookup_lt_Some in Hy. lia.
    + destruct (S i - length p) as [|j] eqn:Hj; [|done]. cbn in Hy. simplify_eq. assert (i = d) as -> by lia.
      rewrite lookup_app_l in Hi by lia. rewrite Hm in Hi. by simplify_eq.
Qed.

(** A node at distance [d] ends a walk through [d + 1] nodes. *)
Lemma distance_walk d x : distance R P d x ->
  exists p, length p = S d /\ forall i y, p !! i = Some y -> distance R P i y.
Proof.
  revert x. induction d as [|d IH]; intros x Hx.
  - exists [x]. split; [done|]. intros i y Hi. destruct i; [|done]. simpl in Hi. by simplify_eq.
  - destruct (distance_pred _ _ _ _ Hx) as (m & Hm & _). destruct (IH m Hm) as (p & Hlen & Hp).
    exists (p ++ [x]). split; [rewrite length_app, Hlen; cbn; lia|]. intros i y Hi.
    apply lookup_app_Some in Hi as [Hi|[Hge Hi]]; [by apply Hp|].
    destruct (i - length p) as [|j] eqn:Hj; [|done]. cbn in Hi. simplify_eq. by replace i with (S d) by lia.
Qed.

Lemma distance_bound n d x :
  (forall d x, distance R P d x -> x < n) -> distance R P d x -> d < n.
Proof.
  intros Hn (p & Hlen & Hp)%distance_walk. assert (S d <= n); [|lia]. rewrite <- Hlen. apply nodes_bound.
  - apply NoDup_alt. intros i j y Hi%Hp Hj%Hp. by eapply distance_unique.
  - intros y [i Hi]%list_elem_of_lookup. by eapply Hn, Hp.
Qed.
End paths.

Section search.
Context (graph : Digraph) (rows : list (list nat)) (Hg : represents graph rows) (Hc : closed_rows rows).
Hypothesis Hsorted : forall x row, rows !! x = Some row -> StronglySorted lt row.
Context (from to : nat).
Hypotheses (Hfrom : from < length rows) (Hto : to < length rows).

Abbreviation nodes := (length rows).
Abbreviation R := (edge rows).
Abbreviation P := (fun x => x ∈ [from]).
Abbreviation dist := (distance R P).

Lemma dist_node d x : dist d x -> x < nodes.
Proof.
  destruct d as [|d].
  - intros Hx%(distance_0 R P). by apply list_elem_of_singleton in Hx as ->.
  - intros (m & _ & Hm)%distance_pred. by eapply edge_closed.
Qed.

(** The recorded parents of the nodes of [known]. *)
Definition tree (known : list nat) (parent : list (option nat)) : Prop :=
  length parent = nodes /\
  forall x, x ∈ known -> exists d p, parent !! x = Some p /\ right_visit R P (mk_Visit x d p).

Lemma tree_insert known parent level e :
  tree known parent -> snd e < nodes -> snd e ∉ known -> right_visit R P (visit_of level e) ->
  tree (snd e :: known) (<[snd e := Some (fst e)]> parent).
Proof.
  intros [Hl Ht] He Hk Hv. split; [by rewrite length_insert|]. intros x [->|Hx]%elem_of_cons.
  - exists level, (Some (fst e)). split; [|done]. apply list_lookup_insert_eq. lia.
  - rewrite list_lookup_insert_ne by (intros Heq; by subst x). by apply Ht.
Qed.

(** The walk back to [from]. *)
Lemma walk_run k known d at_ fuel path s parent :
  Shortest.parent s = parent -> tree known parent -> (forall d x, d <= k -> dist d x -> x ∈ known) ->
  at_ ∈ known -> dist d at_ -> d <= S k -> d < fuel ->
  exists l, Shortest.walk fuel path at_ s = (Ok (path ++ l), s) /\ layer_path R P d (rev l ++ [at_]).
Proof.
  intros <- [Hlen Ht] Hk. revert d at_ path. induction fuel as [|fuel IH]; intros d at_ path Hat Hd Hle Hf; [lia|].
  destruct (Ht at_ Hat) as (d' & p & Hp & Hv & Hpar). cbn in Hv, Hpar. assert (d' = d) as -> by by eapply distance_unique.
  cbn [Shortest.walk]. unfold gets, bind, element. rewrite Hp. cbn.
  destruct d as [|d].
  - subst p. exists []. rewrite app_nil_r. split; [done|]. by apply layer_path_0.
  - destruct Hpar as (m & -> & Hm). pose proof Hm as (Hdm & _). destruct (IH d m (path ++ [m])) as (l & Hl & Hpath); [|done|lia..|].
    + apply (Hk d); [lia|done].
    + exists (m :: l). rewrite Hl, <- app_assoc. split; [done|]. cbn [rev].
      eapply layer_path_snoc; [done| |done..]. by rewrite last_snoc.
Qed.

Definition found (d : nat) (p : list nat) : Prop := layer_path R P d p /\ last p = Some to.

Definition path_step (e : nat * nat) : M Fault Shortest.State (option (option (list nat))) :=
  Shortest.successor_step to (fst e) (snd e).

(** A successor that is known, that is [to], and another one. *)
Lemma path_step_run k known e s :
  marks rows known (Shortest.seen s) -> tree known (Shortest.parent s) -> (forall d x, d <= k -> dist d x -> x ∈ known) ->
  snd e < nodes -> (snd e ∉ known -> right_visit R P (visit_of (S k) e)) ->
  exists r s', path_step e s = (Ok r, s') /\
    match r with
    | Some (Some p) => snd e = to /\ snd e ∉ known /\ found (S k) p
    | Some None => False
    | None =>
      if decide (snd e ∈ known) then s' = s else
      snd e <> to /\ Shortest.next s' = Shortest.next s ++ [snd e] /\
      marks rows (snd e :: known) (Shortest.seen s') /\ tree (snd e :: known) (Shortest.parent s')
    end.
Proof.
  intros Hm Ht Hk He Hv. pose proof Hm as [Hls Hs]. pose proof Ht as [Hlp _].
  unfold path_step, Shortest.successor_step, bind, gets, element. rewrite Hs by done. cbn.
  destruct (decide (snd e ∈ known)) as [Hin|Hin].
  { rewrite bool_decide_true by done. by exists None, s. }
  rewrite bool_decide_false by done. unfold updated, ret. rewrite (proj2 (Nat.ltb_lt _ _)) by lia. cbv beta iota.
  rewrite (proj2 (Nat.ltb_lt _ _)) by lia. cbn.
  assert (tree (snd e :: known) (<[snd e := Some (fst e)]> (Shortest.parent s))) as Ht' by (eapply tree_insert; [done..|by apply Hv]).
  destruct (Nat.eqb_spec (snd e) to) as [Heq|Hne].
  - destruct (Hv Hin) as [Hd _]. cbn in Hd.
    edestruct (walk_run k (snd e :: known) (S k) to (length (<[snd e := Some (fst e)]> (Shortest.parent s)) + 1) [to]
      (Shortest.mk_State (<[snd e := Some (fst e)]> (Shortest.parent s)) (<[snd e := true]> (Shortest.seen s))
        (Shortest.layer s) (Shortest.next s))) as (l & Hl & Hp); [done|exact Ht'|intros d x Hd' Hx; apply list_elem_of_further; by eapply Hk|set_solver|by rewrite <- Heq|lia| |].
    { rewrite length_insert, Hlp. apply (distance_bound _ _ nodes) in Hd; [lia|]. apply dist_node. }
    rewrite Hl. eexists _, _. split; [done|]. cbn. split_and!; [done..|]. split; [done|]. by rewrite last_snoc.
  - eexists _, _. split; [done|]. cbn. split_and!; [done..| |done]. by eapply marks_insert.
Qed.

Lemma path_edges_run k es known s :
  marks rows known (Shortest.seen s) -> tree known (Shortest.parent s) -> (forall d x, d <= k -> dist d x -> x ∈ known) ->
  (forall e, e ∈ es -> snd e < nodes) -> (forall e, e ∈ fresh known es -> right_visit R P (visit_of (S k) e)) ->
  exists r s', each path_step es s = (Ok r, s') /\
    match r with
    | Some (Some p) => found (S k) p
    | Some None => False
    | None =>
      to ∉ snd <$> fresh known es /\ Shortest.next s' = Shortest.next s ++ (snd <$> fresh known es) /\
      marks rows ((snd <$> fresh known es) ++ known) (Shortest.seen s') /\
      tree ((snd <$> fresh known es) ++ known) (Shortest.parent s')
    end.
Proof.
  revert known s. induction es as [|e es IH]; intros known s Hm Ht Hk Hes Hv; cbn [each].
  { exists None, s. cbn. rewrite app_nil_r. split_and!; [done|set_solver|done..]. }
  destruct (path_step_run k known e s) as (r & s1 & Hs1 & Hr); [done..| | |].
  { apply Hes. set_solver. }
  { intros Hin. apply Hv. cbn [fresh]. rewrite decide_False by done. set_solver. }
  unfold bind. rewrite Hs1. destruct r as [[p|]|]; [|done|].
  { exists (Some (Some p)), s1. split; [done|]. apply Hr. }
  cbn [fresh] in *. case_decide as Hin.
  { subst s1. apply IH; [done..|set_solver|done]. }
  destruct Hr as (Hne & Hn & Hm1 & Ht1). destruct (IH (snd e :: known) s1) as (r & s' & Hs' & Hr); [done..| | | |].
  { intros d x Hd Hx. apply list_elem_of_further. by eapply Hk. }
  { set_solver. }
  { intros f Hf. apply Hv. set_solver. }
  exists r, s'. split; [done|]. destruct r as [[p|]|]; [done..|]. destruct Hr as (Hno & Hn' & Hm' & Ht'). split_and!.
  - cbn. rewrite not_elem_of_cons. by split.
  - rewrite Hn', Hn. by rewrite <- app_assoc.
  - eapply marks_ext, Hm'. intros x. cbn. rewrite !elem_of_cons, !elem_of_app, elem_of_cons. tauto.
  - destruct Ht' as [Hl' Ht']. split; [done|]. intros x Hx. apply Ht'. revert Hx.
    cbn. rewrite !elem_of_cons, !elem_of_app, elem_of_cons. tauto.
Qed.

Lemma dist_empty k d : (forall x, ~ dist k x) -> k <= d -> forall x, ~ dist d x.
Proof.
  intros Hk Hd. induction Hd as [|d Hd IH]; [done|]. intros x (m & Hm & _)%distance_pred. by eapply IH.
Qed.

(** One layer. *)
Lemma layer_step_run k known j s :
  layered rows [from] k known (Shortest.layer s) -> marks rows known (Shortest.seen s) -> tree known (Shortest.parent s) ->
  exists r s', Shortest.layer_step graph to j s = (Ok r, s') /\
    match r with
    | Some (Some p) => found (S k) p
    | Some None => forall x, ~ dist (S k) x
    | None =>
      ~ dist (S k) to /\ Shortest.layer s' = snd <$> next_edges rows known (Shortest.layer s) /\
      marks rows ((snd <$> next_edges rows known (Shortest.layer s)) ++ known) (Shortest.seen s') /\
      tree ((snd <$> next_edges rows known (Shortest.layer s)) ++ known) (Shortest.parent s')
    end.
Proof.
  intros Hl Hm Ht. unfold Shortest.layer_step, gets, modify, bind at 1 2. cbn. unfold bind at 1.
  unfold Shortest.node_step. rewrite (each_level graph rows) by
    (done || (intros x; rewrite merge_sort_Permutation; destruct Hl as (_ & _ & ->); apply dist_node)).
  destruct (path_edges_run k (level_edges rows (merge_sort (≤) (Shortest.layer s))) known
    (Shortest.mk_State (Shortest.parent s) (Shortest.seen s) (merge_sort (≤) (Shortest.layer s)) []))
    as (r & s1 & Hs1 & Hr); [done..| | | |].
  { intros d x Hd Hx. destruct Hl as (Hk & _). apply Hk. by exists d. }
  { intros e. by apply level_edges_in. }
  { intros [m x] He. eapply elem_of_next_edges in He as [Hx Hp]; [|done..]. split; [done|]. by exists m. }
  fold (next_edges rows known (Shortest.layer s)) in Hr. unfold path_step in Hs1. rewrite Hs1.
  destruct r as [[p|]|]; [by exists (Some (Some p)), s1|done|]. destruct Hr as (Hno & Hn & Hm1 & Ht1). cbn in Hn.
  assert (forall x, (x ∈ snd <$> next_edges rows known (Shortest.layer s)) <-> dist (S k) x) as Hnext
    by (intros x; by apply elem_of_next_layer).
  unfold bind. rewrite Hn. destruct (snd <$> next_edges rows known (Shortest.layer s)) as [|y next] eqn:Heq.
  - exists (Some None), s1. split; [done|]. intros x Hx%Hnext. by apply elem_of_nil in Hx.
  - eexists None, _. split; [done|]. cbn. split_and!; [|done..]. by rewrite <- Hnext.
Qed.

Lemma layers_run depth j k known s :
  layered rows [from] k known (Shortest.layer s) -> marks rows known (Shortest.seen s) -> tree known (Shortest.parent s) ->
  exists r s', each (Shortest.layer_step graph to) (seq j depth) s = (Ok r, s') /\
    match r with
    | Some (Some p) => exists d, d <= k + depth /\ found d p
    | Some None => forall d, k < d -> ~ dist d to
    | None => forall d, k < d <= k + depth -> ~ dist d to
    end.
Proof.
  revert j k known s. induction depth as [|depth IH]; intros j k known s Hl Hm Ht; cbn [seq each].
  { exists None, s. split; [done|]. intros d Hd. lia. }
  destruct (layer_step_run k known j s Hl Hm Ht) as (r & s1 & Hs1 & Hr). unfold bind. rewrite Hs1.
  destruct r as [[p|]|].
  - exists (Some (Some p)), s1. split; [done|]. exists (S k). split; [lia|done].
  - exists (Some None), s1. split; [done|]. intros d Hd. apply (dist_empty (S k)); [done|lia].
  - destruct Hr as (Hno & Hl1 & Hm1 & Ht1). destruct (IH (S j) (S k) ((snd <$> next_edges rows known (Shortest.layer s)) ++ known) s1) as (r & s' & Hs' & Hr); [|done..|].
    { rewrite Hl1. by apply layered_next. }
    exists r, s'. split; [done|]. destruct r as [[p|]|].
    + destruct Hr as (d & Hd & Hp). exists d. split; [lia|done].
    + intros d Hd. destruct (decide (d = S k)) as [->|]; [done|]. apply Hr. lia.
    + intros d Hd. destruct (decide (d = S k)) as [->|]; [done|]. apply Hr. lia.
Qed.

Lemma shortest_path_found depth :
  exists r, shortest_path graph from to depth = Ok r /\
    match r with
    | Some p => exists d, d <= depth /\ found d p
    | None => forall d, d <= depth -> ~ dist d to
    end.
Proof.
  destruct Hg as [Hlen _]. unfold shortest_path. rewrite Hlen.
  rewrite (proj2 (Nat.leb_gt nodes from)), (proj2 (Nat.leb_gt nodes to)) by done. cbn [orb].
  assert (dist 0 from) as H0 by (apply (distance_0 R P), list_elem_of_here).
  destruct (Nat.eqb_spec from to) as [Heq|Hne].
  { exists (Some [from]). split; [done|]. exists 0. split; [lia|]. split; [by apply layer_path_0|]. cbn. by f_equal. }
  destruct (layers_run depth 0 0 [from] (Shortest.mk_State (replicate nodes None)
    (<[from := true]> (replicate nodes false)) [from] [])) as (r & s' & Hs' & Hr).
  - apply layered_start, NoDup_singleton.
  - cbn. eapply marks_insert; try done. by eapply marks_replicate.
  - split; [apply length_replicate|]. intros x ->%list_elem_of_singleton. exists 0, None.
    split; [by apply lookup_replicate|done].
  - unfold Shortest.search, bind. rewrite Hs'. cbn. eexists. split; [done|].
    assert (~ dist 0 to) as Hto0 by (rewrite (distance_0 R P), list_elem_of_singleton; congruence).
    destruct r as [[p|]|].
    + done.
    + intros d Hd. destruct d; [done|]. apply Hr. lia.
    + intros d Hd. destruct d; [done|]. apply Hr. lia.
Qed.
End search.

(** ** The edge of a bounded search *)

Section beyond.
Context (graph : Digraph) (rows : list (list nat)) (Hg : represents graph rows) (Hc : closed_rows rows).

Abbreviation nodes := (length rows).

Lemma each_scan {E S A R} (body : A -> M E S (option R)) (bad : A -> Prop) l s :
  (forall x, x ∈ l -> exists r, body x s = (Ok r, s) /\ (is_Some r <-> bad x)) ->
  exists r, each body l s = (Ok r, s) /\ (is_Some r <-> exists x, x ∈ l /\ bad x).
Proof.
  induction l as [|x l IH]; intros Hl.
  { exists None. split; [done|]. split; [by intros []|]. intros (x & Hx & _). by apply elem_of_nil in Hx. }
  destruct (Hl x) as (r & Hr & Hbad); [apply list_elem_of_here|]. cbn [each]. unfold bind. rewrite Hr.
  destruct r as [r|].
  - exists (Some r). split; [done|]. split; [|done]. intros _. exists x. split; [apply list_elem_of_here|by apply Hbad].
  - destruct IH as (r & Hr' & Hiff); [intros y Hy; apply Hl; by apply list_elem_of_further|].
    exists r. split; [done|]. rewrite Hiff. split.
    + intros (y & Hy & Hb). exists y. split; [by apply list_elem_of_further|done].
    + intros (y & [->|Hy]%elem_of_cons & Hb); [by apply Hbad in Hb as []|by exists y].
Qed.

Lemma mark_visits (visits : list Visit) seen known (Q : unit -> list bool -> Prop) :
  marks rows known seen -> (forall v, v ∈ visits -> visit_node v < nodes) ->
  (forall seen, marks rows ((visit_node <$> visits) ++ known) seen -> Q tt seen) ->
  returns (for_each (fun visit =>
    let? seen := gets id in
    let? seen := updated seen (visit_node visit) true in
    modify (fun _ => seen)) visits) Q seen.
Proof.
  revert seen known. induction visits as [|v visits IH]; intros seen known Hm Hv HQ; [by apply HQ|].
  assert (visit_node v < nodes) as Hn by (apply Hv, list_elem_of_here). pose proof Hm as [Hl _].
  apply returns_bind, returns_bind, returns_gets, returns_bind, returns_updated; [unfold id; lia|]. apply returns_modify.
  apply (IH _ (visit_node v :: known)).
  - by eapply marks_insert.
  - intros w Hw. apply Hv. by apply list_elem_of_further.
  - intros seen' Hm'. apply HQ. eapply marks_ext, Hm'. intros x. cbn. rewrite !elem_of_app, !elem_of_cons, elem_of_app. tauto.
Qed.

Lemma reaches_beyond_seen start depth visits :
  bfs graph start depth usize_MAX = Ok visits -> (forall v, v ∈ visits -> visit_node v < nodes) ->
  exists b, reaches_beyond graph start depth = Ok b /\
    (b = true <-> exists v x, v ∈ visits /\ visit_depth v = depth /\ edge rows (visit_node v) x /\ x ∉ visit_node <$> visits).
Proof.
  intros Hb Hv. unfold reaches_beyond. apply (returns_fst _ (fun b => b = true <-> _)).
  apply returns_bind. eapply returns_lift; [done|]. apply returns_bind. destruct Hg as [Hlen _]. rewrite Hlen.
  eapply (mark_visits _ _ []); [by eapply marks_replicate|done|]. intros seen [Hl Hs]. rewrite app_nil_r in Hs.
  destruct (each_scan (S := list bool) (R := unit) (fun visit =>
    let? row := successors graph (visit_node visit) in
    each (fun to =>
      let? seen := gets id in
      let? marked := element seen to in
      ret (if marked : bool then None else Some tt)) row)
    (fun v => exists x, edge rows (visit_node v) x /\ x ∉ visit_node <$> visits)
    (filter (fun visit => visit_depth visit = depth) visits) seen) as (r & Hr & Hiff).
  { intros v [_ Hin]%list_elem_of_filter. unfold bind at 1. rewrite (successors_eq graph rows) by (done || by apply Hv).
    destruct (each_scan (S := list bool) (R := unit) (fun to =>
      let? seen := gets id in
      let? marked := element seen to in
      ret (if marked : bool then None else Some tt)) (fun x => x ∉ visit_node <$> visits) (row_at rows (visit_node v)) seen)
      as (r & Hr & Hiff).
    - intros x Hx%edge_row_at. unfold gets, bind, element. destruct (edge_closed _ _ _ Hc Hx) as [_ Hx'].
      unfold id. rewrite Hs by done. cbn. case_bool_decide as Hk; eexists; (split; [done|]); split; [by intros []|done|done|done].
    - exists r. split; [done|]. rewrite Hiff. by setoid_rewrite (edge_row_at rows). }
  apply returns_bind. eapply returns_eq; [done|]. apply returns_ret.
  assert (match r with Some _ => true | None => false end = true <-> is_Some r) as -> 
    by (destruct r; split; [by eexists|done|done|by intros []]).
  rewrite Hiff. setoid_rewrite list_elem_of_filter. split.
  - intros (v & [Hd Hin] & x & He & Hx). by exists v, x.
  - intros (v & x & Hin & Hd & He & Hx). exists v. split; [done|]. by exists x.
Qed.
End beyond.
