(* ===== verification/TarjanSteps.v ===== *)
(** * Tarjan's algorithm as a step relation

    [Search] is the state of the algorithm without its vectors: [order] lists the nodes as they were numbered, [stk] is the
    stack, [frs] the frames, [lo] and [comp] the low numbers and the components. [step] has a rule per branch of the
    code; both implementations refine it. [Inv] holds in every reachable state. *)
From stdpp Require Import sets relations.
From S2P Require Import Prelude Digraph DigraphLaws BfsLaws.
Local Open Scope nat_scope.

(** ** Positions in a list *)

Fixpoint rank_in (l : list nat) (x : nat) : nat :=
  match l with [] => 0 | y :: l => if decide (x = y) then 0 else S (rank_in l x) end.

Lemma rank_in_lookup l x : x ∈ l -> l !! rank_in l x = Some x.
Proof.
  induction l as [|y l IH]; intros Hx; [by apply elem_of_nil in Hx|]. cbn. case_decide as Hxy; [by subst|].
  apply IH. by apply elem_of_cons in Hx as [->|].
Qed.

Lemma rank_in_bound l x : x ∈ l -> rank_in l x < length l.
Proof. intros Hx%rank_in_lookup. by eapply lookup_lt_Some. Qed.

Lemma rank_in_inj l x y : x ∈ l -> y ∈ l -> rank_in l x = rank_in l y -> x = y.
Proof. intros Hx%rank_in_lookup Hy%rank_in_lookup Heq. rewrite Heq in Hx. congruence. Qed.

Lemma rank_in_app l l' x : x ∈ l -> rank_in (l ++ l') x = rank_in l x.
Proof.
  induction l as [|y l IH]; intros Hx; [by apply elem_of_nil in Hx|]. cbn. case_decide as Hxy; [done|]. f_equal.
  apply IH. by apply elem_of_cons in Hx as [->|].
Qed.

Lemma rank_in_new l x : x ∉ l -> rank_in (l ++ [x]) x = length l.
Proof.
  induction l as [|y l IH]; intros Hx; cbn; [by rewrite decide_True|]. apply not_elem_of_cons in Hx as [Hxy Hx].
  rewrite decide_False by done. f_equal. by apply IH.
Qed.

(** ** The states and the steps *)

Record Search := mk_Search {
  order : list nat;
  stk : list nat;
  frs : list (nat * nat);
  lo : nat -> nat;
  comp : nat -> nat;
  count : nat }.

Definition update {A} (f : nat -> A) (x : nat) (a : A) (y : nat) : A := if decide (y = x) then a else f y.

(** The low number of the parent frame takes that of the child. *)
Definition lower_parent (below : list (nat * nat)) (l : nat) (f : nat -> nat) : nat -> nat :=
  match below with (u, _) :: _ => update f u (Nat.min (f u) l) | [] => f end.

Section steps.
Context (rows : list (list nat)).

Abbreviation R := (edge rows).
Abbreviation reach := (rtc R).

Definition rank (a : Search) (x : nat) : nat := rank_in (order a) x.

Definition discovered_state (a : Search) (x : nat) (frs : list (nat * nat)) : Search :=
  mk_Search (order a ++ [x]) (x :: stk a) frs (update (lo a) x (length (order a))) (comp a) (count a).

Inductive step (a : Search) : Search -> Prop :=
| step_root x :
  frs a = [] -> x < length rows -> x ∉ order a -> (forall y, y < x -> y ∈ order a) ->
  step a (discovered_state a x [(x, 0)])
| step_new v p below y :
  frs a = (v, p) :: below -> row_at rows v !! p = Some y -> y ∉ order a ->
  step a (discovered_state a y ((y, 0) :: (v, p + 1) :: below))
| step_back v p below y :
  frs a = (v, p) :: below -> row_at rows v !! p = Some y -> y ∈ order a -> y ∈ stk a ->
  step a (mk_Search (order a) (stk a) ((v, p + 1) :: below)
    (update (lo a) v (Nat.min (lo a v) (rank a y))) (comp a) (count a))
| step_skip v p below y :
  frs a = (v, p) :: below -> row_at rows v !! p = Some y -> y ∈ order a -> y ∉ stk a ->
  step a (mk_Search (order a) (stk a) ((v, p + 1) :: below) (lo a) (comp a) (count a))
| step_merge v p below :
  frs a = (v, p) :: below -> row_at rows v !! p = None -> lo a v <> rank a v ->
  step a (mk_Search (order a) (stk a) below (lower_parent below (lo a v) (lo a)) (comp a) (count a))
| step_pop v p below above rest :
  frs a = (v, p) :: below -> row_at rows v !! p = None -> lo a v = rank a v ->
  stk a = above ++ v :: rest -> v ∉ above ->
  step a (mk_Search (order a) rest below (lower_parent below (lo a v) (lo a))
    (fun x => if decide (x ∈ above ++ [v]) then count a else comp a x) (S (count a))).

Definition start_state : Search := mk_Search [] [] [] (fun _ => 0) (fun _ => 0) 0.

(** ** The invariant *)

Definition gray (a : Search) (x : nat) : Prop := x ∈ fst <$> frs a.

(** The edges that the frames have passed. *)
Definition explored (a : Search) (x y : nat) : Prop :=
  x ∈ order a /\ exists j, row_at rows x !! j = Some y /\ forall p, (x, p) ∈ frs a -> j < p.

(** The frame whose low number answers for [x]. *)
Definition owner (a : Search) (g x : nat) : Prop :=
  gray a g /\ rank a g <= rank a x /\ forall g', gray a g' -> rank a g' <= rank a x -> rank a g' <= rank a g.

Definition finished (a : Search) (x : nat) : Prop := x ∈ order a /\ x ∉ stk a.

Fixpoint chained (frs : list (nat * nat)) : Prop :=
  match frs with
  | (v, _) :: t => match t with (u, _) :: _ => R u v | [] => True end /\ chained t
  | [] => True
  end.

(** The stack: it is in the order of the numbers, its nodes reach a frame and are reached from the frames below
    them, and a low number is the number of a node on the stack that is reached and is no later than those of the explored edges. *)
Record StackInv (a : Search) : Prop := {
  inv_nodup : NoDup (order a);
  inv_nodes : forall x, x ∈ order a -> x < length rows;
  inv_sorted : StronglySorted (fun x y => rank a y < rank a x) (stk a);
  inv_order : forall x, x ∈ stk a -> x ∈ order a;
  inv_frames : StronglySorted (fun x y => rank a y < rank a x) (fst <$> frs a);
  inv_gray : forall x, gray a x -> x ∈ stk a;
  inv_chain : chained (frs a);
  inv_explored : forall x y, explored a x y -> y ∈ order a;
  inv_up : forall x, x ∈ stk a -> exists g, gray a g /\ rank a g <= rank a x /\ reach x g;
  inv_down : forall x g, x ∈ stk a -> gray a g -> rank a g <= rank a x -> reach g x;
  inv_low : forall x, x ∈ stk a -> exists y, y ∈ stk a /\ lo a x = rank a y /\ reach x y /\ rank a y <= rank a x;
  inv_least : forall x y g, explored a x y -> x ∈ stk a -> y ∈ stk a -> owner a g x -> lo a g <= rank a y }.

(** The finished nodes: their components are numbered, callees first. *)
Record DoneInv (a : Search) : Prop := {
  inv_closed : forall x y, finished a x -> R x y -> finished a y;
  inv_bound : forall x, finished a x -> comp a x < count a;
  inv_scc : forall x y, finished a x -> finished a y -> comp a x = comp a y <-> reach x y /\ reach y x;
  inv_topo : forall x y, finished a x -> R x y -> comp a y <= comp a x;
  inv_used : forall c, c < count a -> exists x, finished a x /\ comp a x = c }.

Definition Inv (a : Search) : Prop := StackInv a /\ DoneInv a.

Lemma update_eq {A} (f : nat -> A) x a : update f x a x = a.
Proof. unfold update. by rewrite decide_True. Qed.

Lemma update_ne {A} (f : nat -> A) x a y : y <> x -> update f x a y = f y.
Proof. intros. unfold update. by rewrite decide_False. Qed.

Lemma start_inv : Inv start_state.
Proof.
  split; split; cbn; try (intros; by apply elem_of_nil in H); try (by constructor).
  all: try (intros x y [[]%elem_of_nil _]); try (intros x [[]%elem_of_nil _]).
  all: try (unfold gray; cbn; intros x Hx; by apply elem_of_nil in Hx); try lia; try (intros ???? ? ?; by apply elem_of_nil in H0).
Qed.

(** ** Facts of a state *)

Section facts.
Context (a : Search) (Ha : StackInv a).

Lemma stack_order_gray x : gray a x -> x ∈ order a.
Proof. intros Hx. by apply (inv_order _ Ha), (inv_gray _ Ha). Qed.

Lemma rank_inj x y : x ∈ order a -> y ∈ order a -> rank a x = rank a y -> x = y.
Proof. apply rank_in_inj. Qed.

Lemma rank_lt x : x ∈ order a -> rank a x < length (order a).
Proof. apply rank_in_bound. Qed.

Section top.
Context (v p : nat) (below : list (nat * nat)) (Hf : frs a = (v, p) :: below).

Lemma top_gray : gray a v.
Proof. unfold gray. rewrite Hf. apply list_elem_of_here. Qed.

Lemma below_rank x : x ∈ fst <$> below -> rank a x < rank a v.
Proof.
  intros Hx. pose proof (inv_frames _ Ha) as Hs. rewrite Hf in Hs. cbn in Hs.
  apply StronglySorted_inv in Hs as [_ Hs]. rewrite list.Forall_forall in Hs. by apply Hs.
Qed.

Lemma gray_cases x : gray a x -> x = v \/ x ∈ fst <$> below.
Proof. unfold gray. rewrite Hf. cbn. by rewrite elem_of_cons. Qed.

Lemma gray_top x : gray a x -> rank a x <= rank a v.
Proof. intros [->|Hx%below_rank]%gray_cases; lia. Qed.

Lemma gray_eq x : gray a x -> rank a v <= rank a x -> x = v.
Proof. intros [->|Hx%below_rank]%gray_cases Hle; [done|lia]. Qed.

Lemma top_owner x : rank a v <= rank a x -> owner a v x.
Proof. intros Hx. split; [apply top_gray|]. split; [done|]. intros g Hg _. by apply gray_top. Qed.

(** The edges that are explored once the top frame has passed [y]. *)
Lemma explored_advance y order' extra x z lo' comp' stk' count' :
  row_at rows v !! p = Some y -> x ∈ order a ->
  explored (mk_Search order' stk' (extra ++ (v, p + 1) :: below) lo' comp' count') x z ->
  explored a x z \/ (x = v /\ z = y).
Proof.
  intros Hy Hx (_ & j & Hj & Hp). cbn in Hp. destruct (decide (x = v)) as [->|Hne].
  - assert (j < p + 1) as Hlt by (apply Hp; set_solver).
    destruct (decide (j = p)) as [->|]; [right; split; [done|congruence]|]. left. split; [done|]. exists j. split; [done|].
    rewrite Hf. intros q [Heq|Hq]%elem_of_cons; [simplify_eq; lia|].
    assert (rank a v < rank a v); [|lia]. apply below_rank. by apply (list_elem_of_fmap_2 fst _ _ Hq).
  - left. split; [done|]. exists j. split; [done|]. rewrite Hf.
    intros q [Heq|Hq]%elem_of_cons; [simplify_eq|]. apply Hp. set_solver.
Qed.

(** Once the top frame is exhausted, the nodes from it on have all their edges explored. *)
Lemma explored_all x y :
  row_at rows v !! p = None -> x ∈ order a -> rank a v <= rank a x -> R x y -> explored a x y.
Proof.
  intros Hp Hx Hle Hxy. apply edge_row_at in Hxy. apply list_elem_of_lookup in Hxy as [j Hj].
  split; [done|]. exists j. split; [done|]. rewrite Hf. intros q [Heq|Hq]%elem_of_cons.
  - simplify_eq. apply lookup_ge_None in Hp. apply lookup_lt_Some in Hj. lia.
  - apply (list_elem_of_fmap_2 fst) in Hq. apply below_rank in Hq. cbn in Hq. lia.
Qed.

(** Without the top frame the same edges are explored. *)
Lemma explored_drop x z order' lo' comp' stk' count' :
  row_at rows v !! p = None -> order' = order a ->
  explored (mk_Search order' stk' below lo' comp' count') x z -> explored a x z.
Proof.
  intros Hp -> (Hx & j & Hj & Hlt). split; [done|]. exists j. split; [done|]. rewrite Hf.
  intros q [Heq|Hq]%elem_of_cons; [|by apply Hlt]. simplify_eq. apply lookup_ge_None in Hp. apply lookup_lt_Some in Hj. lia.
Qed.
End top.
End facts.

(** ** Discovering a node *)

Lemma finished_discovered a x F y : x ∉ order a -> finished (discovered_state a x F) y <-> finished a y.
Proof.
  intros Hx. unfold finished; cbn. rewrite elem_of_app, list_elem_of_singleton, not_elem_of_cons. split.
  - intros [[Hy|Hy] [Hne Hs]]; [done|by subst].
  - intros [Hy Hs]. split; [by left|]. split; [|done]. by intros ->.
Qed.

Lemma done_discovered a x F : x ∉ order a -> DoneInv a -> DoneInv (discovered_state a x F).
Proof.
  intros Hx [H1 H2 H3 H4 H5]. split; setoid_rewrite (fun y => finished_discovered a x F y Hx); done.
Qed.

Lemma rank_discovered a x F y : y ∈ order a -> rank (discovered_state a x F) y = rank a y.
Proof. apply rank_in_app. Qed.

Lemma rank_discovered_new a x F : x ∉ order a -> rank (discovered_state a x F) x = length (order a).
Proof. apply rank_in_new. Qed.

Lemma sorted_ext {A} (P Q : A -> A -> Prop) l :
  (forall x y, x ∈ l -> y ∈ l -> P x y -> Q x y) -> StronglySorted P l -> StronglySorted Q l.
Proof.
  induction l as [|x l IH]; intros HPQ Hl; [constructor|]. apply StronglySorted_inv in Hl as [Hl Hx].
  constructor; [apply IH; [|done]; intros; apply HPQ; set_solver|]. rewrite list.Forall_forall in *.
  intros y Hy. apply HPQ; [set_solver..|by apply Hx].
Qed.

(** A new node [x] on top of the stack and of the frames [F]: from the frame [v] that has just passed it, or a root. *)
Lemma discover_inv a x F (from : option nat) :
  Inv a -> x < length rows -> x ∉ order a ->
  (fst <$> F) = (fst <$> frs a) ->
  match from with Some v => exists p below, frs a = (v, p) :: below /\ R v x | None => frs a = [] end ->
  (forall y z lo' comp' stk' order' count', y ∈ order a ->
    explored (mk_Search order' stk' ((x, 0) :: F) lo' comp' count') y z -> explored a y z \/ (Some y = from /\ z = x)) ->
  chained ((x, 0) :: F) ->
  Inv (discovered_state a x ((x, 0) :: F)).
Proof.
  intros [Ha Hd] Hn Hx HF Hfrom Hex Hch. split; [|by apply done_discovered]. set (b := discovered_state a x ((x, 0) :: F)).
  assert (forall y, y ∈ order a -> rank b y = rank a y) as Hrank by (intros; by apply rank_discovered).
  assert (rank b x = length (order a)) as Hrx by by apply rank_discovered_new.
  assert (forall y, gray b y <-> y = x \/ gray a y) as Hgray.
  { intros y. unfold gray, b; cbn. by rewrite HF, elem_of_cons. }
  assert (forall y, y ∈ order a -> y <> x) as Hne by (intros y Hy ->; done).
  assert (forall y, y ∈ stk a -> y ∈ order a) as Hso by apply (inv_order _ Ha).
  assert (forall y, gray a y -> y ∈ order a) as Hgo by (intros; by apply stack_order_gray).
  assert (forall y, y ∈ order b <-> y ∈ order a \/ y = x) as Hob.
  { intros y. unfold b; cbn. by rewrite elem_of_app, list_elem_of_singleton. }
  assert (forall y, y ∈ stk b <-> y = x \/ y ∈ stk a) as Hsb by (intros y; unfold b; cbn; by rewrite elem_of_cons).
  assert (forall y, y ∈ order a -> rank a y < rank b x) as Hlt by (intros y Hy; rewrite Hrx; by apply rank_lt).
  assert (forall y z, explored b y z -> y ∈ order a /\ (explored a y z \/ (Some y = from /\ z = x))) as Hexb.
  { intros y z Hyz. pose proof Hyz as (Hy & j & _ & Hj). apply Hob in Hy as [Hy| ->].
    - split; [done|]. by eapply Hex.
    - specialize (Hj 0). cbn in Hj. assert (j < 0); [|lia]. apply Hj. set_solver. }
  assert (forall g, gray a g -> reach g x) as Hgx.
  { intros g Hg. destruct from as [v|].
    - destruct Hfrom as (p & below & Hf & HR). eapply rtc_r; [|done]. pose proof (top_gray a v p below Hf) as Hv.
      apply (inv_down _ Ha); [by apply (inv_gray _ Ha)|done|by eapply gray_top].
    - unfold gray in Hg. rewrite Hfrom in Hg. by apply elem_of_nil in Hg. }
  split.
  - unfold b; cbn. apply NoDup_app. split_and!; [apply Ha|set_solver|apply NoDup_singleton].
  - intros y [Hy| ->]%Hob; [by apply (inv_nodes _ Ha)|done].
  - change (stk b) with (x :: stk a). constructor.
    + eapply sorted_ext, (inv_sorted _ Ha). intros y z Hy Hz. by rewrite !Hrank by by apply Hso.
    + apply list.Forall_forall. intros y Hy. rewrite Hrank by by apply Hso. by apply Hlt, Hso.
  - intros y Hy. apply Hsb in Hy as [->|Hy]; apply Hob; [by right|left; by apply Hso].
  - change (fst <$> frs b) with (x :: (fst <$> F)). rewrite HF. constructor.
    + eapply sorted_ext, (inv_frames _ Ha). intros y z Hy Hz. by rewrite !Hrank by by apply Hgo.
    + apply list.Forall_forall. intros y Hy. rewrite Hrank by by apply Hgo. by apply Hlt, Hgo.
  - intros y [->|Hy]%Hgray; apply Hsb; [by left|right; by apply (inv_gray _ Ha)].
  - done.
  - intros y z Hyz. apply Hob. destruct (Hexb y z Hyz) as [_ [Hz|[_ ->]]]; [left; by eapply (inv_explored _ Ha)|by right].
  - intros y [->|Hy]%Hsb.
    + exists x. split; [apply Hgray; by left|]. split; [done|apply rtc_refl].
    + destruct (inv_up _ Ha y Hy) as (g & Hg & Hle & Hr). exists g. split; [apply Hgray; by right|].
      rewrite !Hrank by auto. done.
  - intros y g [->|Hy]%Hsb [->|Hg]%Hgray Hle; [apply rtc_refl|by apply Hgx| |].
    + rewrite (Hrank y) in Hle by auto. specialize (Hlt y (Hso y Hy)). lia.
    + rewrite !Hrank in Hle by auto. by apply (inv_down _ Ha).
  - intros y [->|Hy]%Hsb.
    + exists x. split; [apply Hsb; by left|]. change (lo b) with (update (lo a) x (length (order a))). rewrite update_eq, Hrx. split; [done|]. split; [apply rtc_refl|lia].
    + destruct (inv_low _ Ha y Hy) as (w & Hw & Hl & Hr & Hle). exists w. split; [apply Hsb; by right|].
      change (lo b) with (update (lo a) x (length (order a))). rewrite update_ne, !Hrank by auto. done.
  - intros y z g Hyz Hy Hz (Hg & Hle & Hmax). destruct (Hexb y z Hyz) as [Hyo Hcases].
    assert (y ∈ stk a) as Hys by (apply Hsb in Hy as [->|Hy]; done). rewrite (Hrank y) in Hle by done.
    apply Hgray in Hg as [->|Hg]; [specialize (Hlt y Hyo); lia|]. rewrite Hrank in Hle by auto.
    change (lo b) with (update (lo a) x (length (order a))). rewrite update_ne by auto. destruct Hcases as [Hold|[_ ->]].
    + pose proof (inv_explored _ Ha _ _ Hold) as Hzo. rewrite Hrank by done.
      apply Hsb in Hz as [->|Hz]; [done|]. apply (inv_least _ Ha y); [done..|]. split; [done|]. split; [done|].
      intros g' Hg' Hle'. rewrite <- !Hrank by auto. apply Hmax; [apply Hgray; by right|]. by rewrite !Hrank by auto.
    + destruct (inv_low _ Ha g) as (w & Hw & -> & _); [by apply (inv_gray _ Ha)|]. specialize (Hlt w (Hso w Hw)). lia.
Qed.

Lemma step_root_inv a x :
  Inv a -> frs a = [] -> x < length rows -> x ∉ order a -> Inv (discovered_state a x [(x, 0)]).
Proof.
  intros Ha Hf Hn Hx. apply (discover_inv a x [] None); [done..|by rewrite Hf|done| |done].
  intros y z lo' comp' stk' order' count' Hy (_ & j & Hj & _). left. split; [done|]. exists j. split; [done|].
  rewrite Hf. by intros q Hq%elem_of_nil.
Qed.

Lemma step_new_inv a v p below y :
  closed_rows rows -> Inv a -> frs a = (v, p) :: below -> row_at rows v !! p = Some y -> y ∉ order a ->
  Inv (discovered_state a y ((y, 0) :: (v, p + 1) :: below)).
Proof.
  intros Hc Ha Hf Hy Hno. assert (R v y) as HR by by eapply edge_row_at, list_elem_of_lookup_2.
  apply (discover_inv a y ((v, p + 1) :: below) (Some v)); [done| |done|by rewrite Hf|by exists p, below| |].
  - by eapply edge_closed in HR as [_ ?].
  - intros x z lo' comp' stk' order' count' Hx Hex. destruct Ha as [Ha _].
    destruct (explored_advance a Ha v p below Hf y order' [(y, 0)] x z lo' comp' stk' count') as [Hold|[-> ->]]; [done..|by left|].
    by right.
  - destruct Ha as [Ha _]. pose proof (inv_chain _ Ha) as Hch. rewrite Hf in Hch. by split.
Qed.

(** ** Passing an edge to a numbered node *)

Lemma pass_inv a v p below y lo' :
  Inv a -> frs a = (v, p) :: below -> row_at rows v !! p = Some y -> y ∈ order a ->
  (forall x, x <> v -> lo' x = lo a x) -> lo' v <= lo a v -> (y ∈ stk a -> lo' v <= rank a y) ->
  (exists w, w ∈ stk a /\ lo' v = rank a w /\ reach v w /\ rank a w <= rank a v) ->
  Inv (mk_Search (order a) (stk a) ((v, p + 1) :: below) lo' (comp a) (count a)).
Proof.
  intros [Ha Hd] Hf Hy Hyo Hlo Hle Hys Hw. set (b := mk_Search _ _ _ _ _ _). split; [|by destruct Hd; split].
  assert (forall x, gray b x <-> gray a x) as Hgray by (intros x; unfold gray; by rewrite Hf).
  assert (forall x z, explored b x z -> explored a x z \/ (x = v /\ z = y)) as Hex.
  { intros x z Hxz. pose proof Hxz as (Hx & _). by apply (explored_advance a Ha v p below Hf y (order a) [] x z) in Hxz. }
  assert (forall x, lo' x <= lo a x) as Hall.
  { intros x. destruct (decide (x = v)) as [->|]; [done|by rewrite Hlo]. }
  split; try apply Ha.
  - unfold b; cbn. pose proof (inv_frames _ Ha) as Hs. by rewrite Hf in Hs.
  - intros x Hx%Hgray. by apply (inv_gray _ Ha).
  - pose proof (inv_chain _ Ha) as Hch. by rewrite Hf in Hch.
  - intros x z [Hxz|[-> ->]]%Hex; [by eapply (inv_explored _ Ha)|done].
  - intros x Hx. destruct (inv_up _ Ha x Hx) as (g & Hg & H). exists g. split; [by apply Hgray|done].
  - intros x g Hx Hg%Hgray. by apply (inv_down _ Ha).
  - intros x Hx. unfold b at 2; cbn. destruct (decide (x = v)) as [->|Hne]; [done|].
    rewrite Hlo by done. by apply (inv_low _ Ha).
  - intros x z g Hxz Hx Hz (Hg%Hgray & Hgx & Hmax).
    assert (owner a g x) as Hown by (split_and!; [done..|]; intros g' Hg' Hle'; apply Hmax; [by apply Hgray|done]).
    apply Hex in Hxz as [Hxz|[-> ->]]; [etransitivity; [apply Hall|by apply (inv_least _ Ha x z)]|].
    assert (g = v) as ->; [|by apply Hys].
    eapply gray_eq; [done..|]. apply Hmax; [|done]. apply Hgray. by eapply top_gray.
Qed.

Lemma step_back_inv a v p below y :
  Inv a -> frs a = (v, p) :: below -> row_at rows v !! p = Some y -> y ∈ order a -> y ∈ stk a ->
  Inv (mk_Search (order a) (stk a) ((v, p + 1) :: below) (update (lo a) v (Nat.min (lo a v) (rank a y))) (comp a) (count a)).
Proof.
  intros Ha Hf Hy Hyo Hys. eapply pass_inv; [done..| | | |].
  - intros x Hx. by rewrite update_ne.
  - rewrite update_eq. lia.
  - rewrite update_eq. lia.
  - rewrite update_eq. destruct Ha as [Ha _].
    assert (v ∈ stk a) as Hv by by eapply (inv_gray _ Ha), top_gray.
    destruct (inv_low _ Ha v Hv) as (w & Hw & Hl & Hr & Hle). destruct (Nat.min_spec (lo a v) (rank a y)) as [[Hlt ->]|[Hge ->]].
    + by exists w.
    + exists y. split_and!; [done..| |lia]. apply rtc_once. by eapply edge_row_at, list_elem_of_lookup_2.
Qed.

Lemma step_skip_inv a v p below y :
  Inv a -> frs a = (v, p) :: below -> row_at rows v !! p = Some y -> y ∈ order a -> y ∉ stk a ->
  Inv (mk_Search (order a) (stk a) ((v, p + 1) :: below) (lo a) (comp a) (count a)).
Proof.
  intros Ha Hf Hy Hyo Hys. eapply pass_inv; [done..|]. destruct Ha as [Ha _]. apply (inv_low _ Ha).
  by eapply (inv_gray _ Ha), top_gray.
Qed.

(** ** Leaving a frame *)

(** The low numbers once the parent has taken that of [v]. *)
Lemma lower_parent_low a v p below x :
  StackInv a -> frs a = (v, p) :: below -> x ∈ stk a ->
  exists w, w ∈ stk a /\ lower_parent below (lo a v) (lo a) x = rank a w /\ reach x w /\ rank a w <= rank a x.
Proof.
  intros Ha Hf Hx. destruct below as [|[u q] below]; cbn [lower_parent]; [by apply (inv_low _ Ha)|].
  destruct (decide (x = u)) as [->|Hne]; [|rewrite update_ne by done; by apply (inv_low _ Ha)]. rewrite update_eq.
  assert (v ∈ stk a) as Hv by by eapply (inv_gray _ Ha), top_gray.
  destruct (inv_low _ Ha v Hv) as (w & Hw & Hl & Hr & Hle), (inv_low _ Ha u Hx) as (w' & Hw' & Hl' & Hr' & Hle').
  destruct (Nat.min_spec (lo a u) (lo a v)) as [[Hlt ->]|[Hge ->]]; [by exists w'|].
  exists w. split_and!; [done..| |lia]. pose proof (inv_chain _ Ha) as Hch. rewrite Hf in Hch. destruct Hch as [HR _].
  eapply rtc_l; [|done]. done.
Qed.

Lemma lower_parent_le below l f x : lower_parent below l f x <= f x.
Proof.
  destruct below as [|[u q] below]; cbn; [done|]. destruct (decide (x = u)) as [->|]; [rewrite update_eq; lia|by rewrite update_ne].
Qed.

(** The low number of the frame that ends stays. *)
Lemma lower_parent_other a v p below l f :
  StackInv a -> frs a = (v, p) :: below -> lower_parent below l f v = f v.
Proof.
  intros Ha Hf. destruct below as [|[u q] below]; [done|]. cbn. apply update_ne. intros ->.
  assert (rank a u < rank a u); [|lia]. eapply below_rank; [done..|]. apply list_elem_of_here.
Qed.

(** The next frame answers for the nodes of the one that ends. *)
Lemma parent_owner a v p below l f x g :
  StackInv a -> frs a = (v, p) :: below -> rank a v <= rank a x -> g ∈ fst <$> below ->
  (forall g', g' ∈ fst <$> below -> rank a g' <= rank a x -> rank a g' <= rank a g) ->
  lower_parent below l f g <= l.
Proof.
  intros Ha Hf Hx Hg Hmax. destruct below as [|[u q] below]; [by apply elem_of_nil in Hg|]. cbn [lower_parent].
  assert (g = u) as ->; [|rewrite update_eq; lia].
  assert (u ∈ fst <$> ((u, q) :: below)) as Hu by apply list_elem_of_here.
  pose proof (below_rank a Ha v p _ Hf u Hu) as Hlt. specialize (Hmax u Hu).
  assert (forall y, y ∈ fst <$> ((u, q) :: below) -> gray a y) as Hgr by (intros y Hy; unfold gray; rewrite Hf; by apply list_elem_of_further).
  pose proof (inv_frames _ Ha) as Hs. rewrite Hf in Hs. cbn in Hs. apply StronglySorted_inv in Hs as [Hs _].
  apply StronglySorted_inv in Hs as [_ Hs]. rewrite list.Forall_forall in Hs.
  cbn in Hg. apply elem_of_cons in Hg as [->|Hg]; [done|]. specialize (Hs g Hg). lia.
Qed.

Lemma step_merge_inv a v p below :
  Inv a -> frs a = (v, p) :: below -> row_at rows v !! p = None -> lo a v <> rank a v ->
  Inv (mk_Search (order a) (stk a) below (lower_parent below (lo a v) (lo a)) (comp a) (count a)).
Proof.
  intros [Ha Hd] Hf Hp Hlo. set (b := mk_Search _ _ _ _ _ _). split; [|by destruct Hd; split].
  assert (forall x, gray b x -> gray a x) as Hgray by (intros x Hx; unfold gray; rewrite Hf; by apply list_elem_of_further).
  assert (forall x, gray a x -> rank a x < rank a v -> gray b x) as Hgray'.
  { intros x Hx Hlt. destruct (gray_cases a v p below Hf x Hx) as [->|Hx']; [lia|done]. }
  assert (forall x z, explored b x z -> explored a x z) as Hex by (intros x z; by eapply explored_drop).
  pose proof (top_gray a v p below Hf) as Hvg. assert (v ∈ stk a) as Hv by by apply (inv_gray _ Ha).
  destruct (inv_low _ Ha v Hv) as (w & Hw & Hl & Hr & Hle).
  split; try apply Ha.
  - unfold b; cbn. pose proof (inv_frames _ Ha) as Hs. rewrite Hf in Hs. by apply StronglySorted_inv in Hs as [Hs _].
  - intros x Hx%Hgray. by apply (inv_gray _ Ha).
  - pose proof (inv_chain _ Ha) as Hch. rewrite Hf in Hch. by destruct Hch as [_ Hch].
  - intros x z Hxz%Hex. by eapply (inv_explored _ Ha).
  - intros x Hx. destruct (inv_up _ Ha x Hx) as (g & Hg & Hgx & Hxg). destruct (decide (g = v)) as [->|Hne].
    + destruct (inv_up _ Ha w Hw) as (g & Hg' & Hgw & Hwg). exists g.
      change (rank b) with (rank a). split_and!; [apply Hgray'; [done|lia]|lia|].
      eapply rtc_trans; [done|]. by eapply rtc_trans.
    + exists g. split; [|done]. by destruct (gray_cases a v p below Hf g Hg).
  - intros x g Hx Hg%Hgray. by apply (inv_down _ Ha).
  - intros x Hx. exact (lower_parent_low a v p below x Ha Hf Hx).
  - intros x z g Hxz%Hex Hx Hz (Hg & Hgx & Hmax). destruct (decide (rank a v <= rank a x)) as [Hvx|Hvx].
    + etransitivity; [by eapply parent_owner|]. apply (inv_least _ Ha x z v); [done..|]. by eapply top_owner.
    + etransitivity; [apply lower_parent_le|]. apply (inv_least _ Ha x z g); [done..|].
      split; [by apply Hgray|]. split; [done|]. intros g' Hg' Hle'. apply Hmax; [|done]. apply Hgray'; [done|].
      change (rank b) with (rank a) in *. lia.
Qed.

(** ** Popping a component *)

Section pop.
Context (a : Search) (v p : nat) (below : list (nat * nat)) (above rest : list nat).
Hypotheses (Ha : StackInv a) (Hd : DoneInv a) (Hf : frs a = (v, p) :: below).
Hypotheses (Hp : row_at rows v !! p = None) (Hlo : lo a v = rank a v) (Hstk : stk a = above ++ v :: rest).

(** The members of the component. *)
Abbreviation member x := (x ∈ above ++ [v]).

Lemma elem_of_stk x : (x ∈ stk a) <-> member x \/ x ∈ rest.
Proof. rewrite Hstk, !elem_of_app, elem_of_cons, list_elem_of_singleton. tauto. Qed.

Lemma rest_rank x : x ∈ rest -> rank a x < rank a v.
Proof.
  intros Hx. pose proof (inv_sorted _ Ha) as Hs. rewrite Hstk in Hs. apply StronglySorted_app_1_r in Hs.
  apply StronglySorted_inv in Hs as [_ Hs]. rewrite list.Forall_forall in Hs. by apply Hs.
Qed.

Lemma member_rank x : member x -> rank a v <= rank a x.
Proof.
  intros [Hx|Hx%list_elem_of_singleton]%elem_of_app; [|by subst]. pose proof (inv_sorted _ Ha) as Hs. rewrite Hstk in Hs.
  eapply StronglySorted_app_1_elem_of in Hs; [|done|apply list_elem_of_here]. lia.
Qed.

Lemma rank_member x : x ∈ stk a -> rank a v <= rank a x -> member x.
Proof. intros [Hx|Hx%rest_rank]%elem_of_stk Hle; [done|lia]. Qed.

Lemma rank_rest x : x ∈ stk a -> rank a x < rank a v -> x ∈ rest.
Proof. intros [Hx%member_rank|Hx]%elem_of_stk Hle; [lia|done]. Qed.

Lemma member_order x : member x -> x ∈ order a.
Proof. intros Hx. apply (inv_order _ Ha), elem_of_stk. by left. Qed.

Lemma member_step x y : member x -> R x y -> member y \/ finished a y.
Proof.
  intros Hx HR. assert (explored a x y) as Hex.
  { eapply (explored_all a Ha v p); [done..|by apply member_order|by apply member_rank|done]. }
  pose proof (inv_explored _ Ha _ _ Hex) as Hy. destruct (decide (y ∈ stk a)) as [Hs|Hs]; [left|by right].
  apply rank_member; [done|]. rewrite <- Hlo. apply (inv_least _ Ha x y v Hex); [|done|].
  - apply elem_of_stk. by left.
  - eapply top_owner; [done..|]. by apply member_rank.
Qed.

Lemma finished_reach x y : finished a x -> reach x y -> finished a y.
Proof. intros Hx Hr. induction Hr as [|x z y HR Hr IH]; [done|]. apply IH. by eapply (inv_closed _ Hd). Qed.

Lemma member_reach x y : member x -> reach x y -> member y \/ finished a y.
Proof.
  intros Hx Hr. induction Hr as [|x z y HR Hr IH]; [by left|]. destruct (member_step x z Hx HR) as [Hz|Hz]; [by apply IH|].
  right. by eapply finished_reach.
Qed.

Lemma member_not_finished x : member x -> finished a x -> False.
Proof. intros Hx [_ Hs]. apply Hs, elem_of_stk. by left. Qed.

Lemma member_mutual x : member x -> reach v x /\ reach x v.
Proof.
  intros Hx. assert (x ∈ stk a) as Hs by (apply elem_of_stk; by left). pose proof (top_gray a v p below Hf) as Hv. split.
  - apply (inv_down _ Ha); [done..|by apply member_rank].
  - destruct (inv_up _ Ha x Hs) as (g & Hg & _ & Hr). destruct (member_reach x g Hx Hr) as [Hm|[_ Hno]].
    + assert (g = v) as ->; [|done]. eapply gray_eq; [done..|]. by apply member_rank.
    + destruct Hno. by apply (inv_gray _ Ha).
Qed.

Definition popped : Search :=
  mk_Search (order a) rest below (lower_parent below (lo a v) (lo a))
    (fun x => if decide (member x) then count a else comp a x) (S (count a)).

Lemma finished_popped x : finished popped x <-> member x \/ finished a x.
Proof.
  unfold finished; cbn. split.
  - intros [Hx Hs]. destruct (decide (x ∈ stk a)) as [[Hm|Hr]%elem_of_stk|Hn]; [by left|done|by right].
  - intros [Hm|[Hx Hs]].
    + split; [by apply member_order|]. intros Hr%rest_rank. pose proof (member_rank x Hm). lia.
    + split; [done|]. intros Hr. apply Hs, elem_of_stk. by right.
Qed.

Lemma comp_member x : member x -> comp popped x = count a.
Proof. intros Hx. cbn. by rewrite decide_True. Qed.

Lemma comp_finished x : finished a x -> comp popped x = comp a x /\ comp a x < count a.
Proof.
  intros Hx. split; [|by apply (inv_bound _ Hd)]. cbn. rewrite decide_False; [done|]. intros Hm. by eapply member_not_finished.
Qed.

Lemma popped_stack_inv : StackInv popped.
Proof.
  assert (forall x, gray popped x -> gray a x /\ rank a x < rank a v) as Hgray.
  { intros x Hx. split; [unfold gray; rewrite Hf; by apply list_elem_of_further|by eapply below_rank]. }
  assert (forall x, gray a x -> rank a x < rank a v -> gray popped x) as Hgray'.
  { intros x Hx Hlt. destruct (gray_cases a v p below Hf x Hx) as [->|Hx']; [lia|done]. }
  assert (forall x z, explored popped x z -> explored a x z) as Hex by (intros x z; by eapply explored_drop).
  assert (forall x, x ∈ rest -> x ∈ stk a /\ rank a x < rank a v) as Hrest.
  { intros x Hx. split; [apply elem_of_stk; by right|by apply rest_rank]. }
  split; try apply Ha; cbn.
  - pose proof (inv_sorted _ Ha) as Hs. rewrite Hstk in Hs. apply StronglySorted_app_1_r in Hs.
    by apply StronglySorted_inv in Hs as [Hs _].
  - intros x [Hx _]%Hrest. by apply (inv_order _ Ha).
  - pose proof (inv_frames _ Ha) as Hs. rewrite Hf in Hs. by apply StronglySorted_inv in Hs as [Hs _].
  - intros x [Hx Hlt]%Hgray. apply rank_rest; [by apply (inv_gray _ Ha)|done].
  - pose proof (inv_chain _ Ha) as Hch. rewrite Hf in Hch. by destruct Hch as [_ Hch].
  - intros x z Hxz%Hex. by eapply (inv_explored _ Ha).
  - intros x [Hx Hlt]%Hrest. destruct (inv_up _ Ha x Hx) as (g & Hg & Hgx & Hxg). exists g.
    split; [|done]. apply Hgray'; [done|lia].
  - intros x g [Hx Hlt]%Hrest [Hg _]%Hgray. by apply (inv_down _ Ha).
  - intros x [Hx Hlt]%Hrest. destruct (lower_parent_low a v p below x Ha Hf Hx) as (w & Hw & Hl & Hr & Hle).
    exists w. split; [|done]. apply rank_rest; [done|lia].
  - intros x z g Hxz%Hex [Hx Hlt]%Hrest [Hz _]%Hrest (Hg & Hgx & Hmax). etransitivity; [apply lower_parent_le|].
    apply (inv_least _ Ha x z g); [done..|]. split; [by apply Hgray|]. split; [done|].
    intros g' Hg' Hle'. apply Hmax; [|done]. apply Hgray'; [done|lia].
Qed.

Lemma popped_scc x y : member x -> finished popped y -> comp popped x = comp popped y <-> reach x y /\ reach y x.
Proof.
  intros Hx [Hy|Hy]%finished_popped; rewrite (comp_member x) by done.
  - rewrite (comp_member y) by done. split; [|done]. intros _.
    destruct (member_mutual x Hx), (member_mutual y Hy). split; by eapply rtc_trans.
  - destruct (comp_finished y Hy) as [-> Hlt]. split; [lia|]. intros [_ Hr].
    destruct (member_not_finished x); [done|]. by eapply finished_reach.
Qed.

Lemma popped_done_inv : DoneInv popped.
Proof.
  split.
  - intros x y [Hx|Hx]%finished_popped HR; apply finished_popped; [by eapply member_step|right; by eapply (inv_closed _ Hd)].
  - intros x [Hx|Hx]%finished_popped; cbn -[comp]; [rewrite comp_member by done; cbn; lia|].
    destruct (comp_finished x Hx) as [-> Hlt]. cbn. lia.
  - intros x y Hx Hy. pose proof Hx as [Hmx|Hfx]%finished_popped; [by apply popped_scc|].
    pose proof Hy as [Hmy|Hfy]%finished_popped.
    + rewrite (and_comm (reach x y)), <- (popped_scc y x) by done. done.
    + rewrite (proj1 (comp_finished x Hfx)), (proj1 (comp_finished y Hfy)). by apply (inv_scc _ Hd).
  - intros x y [Hx|Hx]%finished_popped HR.
    + rewrite (comp_member x) by done. destruct (member_step x y Hx HR) as [Hy|Hy]; [by rewrite comp_member|].
      destruct (comp_finished y Hy) as [-> Hlt]. lia.
    + pose proof (inv_closed _ Hd x y Hx HR) as Hy. rewrite (proj1 (comp_finished x Hx)), (proj1 (comp_finished y Hy)).
      by apply (inv_topo _ Hd).
  - intros c Hc. cbn in Hc. destruct (decide (c = count a)) as [->|Hne].
    + exists v. assert (member v) as Hv by (rewrite elem_of_app, list_elem_of_singleton; by right).
      split; [apply finished_popped; by left|by apply comp_member].
    + destruct (inv_used _ Hd c) as (x & Hx & Hxc); [lia|]. exists x. split; [apply finished_popped; by right|].
      by rewrite (proj1 (comp_finished x Hx)).
Qed.
End pop.

Lemma step_inv a b : closed_rows rows -> Inv a -> step a b -> Inv b.
Proof.
  intros Hc Ha Hs. destruct Hs.
  - by apply step_root_inv.
  - by eapply step_new_inv.
  - by eapply step_back_inv.
  - by eapply step_skip_inv.
  - by eapply step_merge_inv.
  - destruct Ha as [Ha Hd]. split; [by eapply popped_stack_inv|by eapply popped_done_inv].
Qed.

Lemma reachable_inv a : closed_rows rows -> rtc step start_state a -> Inv a.
Proof.
  intros Hc Hr. revert Hr. generalize start_inv. generalize start_state. intros s Hs Hr.
  induction Hr as [|s t a Hst Hr IH]; [done|]. by apply IH, (step_inv s).
Qed.

(** Each state has one next state, so all searches end alike. *)
Lemma split_unique (l l' r r' : list nat) v : l ++ v :: r = l' ++ v :: r' -> v ∉ l -> v ∉ l' -> l = l' /\ r = r'.
Proof.
  revert l'. induction l as [|x l IH]; intros [|y l'] Heq Hl Hl'; simplify_eq/=; [done|set_solver|set_solver|].
  apply not_elem_of_cons in Hl as [_ Hl], Hl' as [_ Hl']. by destruct (IH l') as [-> ->].
Qed.

Lemma step_deterministic a b c : step a b -> step a c -> b = c.
Proof.
  intros Hb Hc. destruct Hb as [x Hf Hx Hno Hlow|v p below y Hf Hy Hno|v p below y Hf Hy Ho Hs|v p below y Hf Hy Ho Hs|
    v p below Hf Hp Hl|v p below above rest Hf Hp Hl Hs Hv];
  destruct Hc as [x' Hf' Hx' Hno' Hlow'|v' p' below' y' Hf' Hy' Hno'|v' p' below' y' Hf' Hy' Ho' Hs'|v' p' below' y' Hf' Hy' Ho' Hs'|
    v' p' below' Hf' Hp' Hl'|v' p' below' above' rest' Hf' Hp' Hl' Hs' Hv'];
  rewrite Hf in Hf'; simplify_eq; try done.
  - destruct (lt_eq_lt_dec x x') as [[Hlt| ->]|Hlt]; [by destruct Hno; apply Hlow'|done|by destruct Hno'; apply Hlow].
  - rewrite Hs in Hs'. by destruct (split_unique _ _ _ _ _ Hs' Hv Hv') as [-> ->].
Qed.

Lemma ends_unique s a b : rtc step s a -> rtc step s b -> nf step a -> nf step b -> a = b.
Proof.
  intros Ha. revert b. induction Ha as [a|s t a Hst Ht IH]; intros b Hb Hna Hnb.
  - destruct Hb as [|s t b Hst _]; [done|]. destruct Hna. by exists t.
  - destruct Hb as [s|s t' b Hst' Ht']; [destruct Hnb; by exists t|]. rewrite (step_deterministic s t t') in IH by done.
    by apply IH.
Qed.

(** A search ends when every node is numbered and no frame is left. *)
Lemma complete_nf a : frs a = [] -> (forall x, x < length rows -> x ∈ order a) -> nf step a.
Proof. intros Hf Hall [b Hb]. destruct Hb as [x _ Hx Hno| | | | |]; [by apply Hno, Hall|congruence..]. Qed.

(** Without frames every numbered node is finished. *)
Lemma no_frames a x : Inv a -> frs a = [] -> x ∈ order a -> finished a x.
Proof.
  intros [Ha _] Hf Hx. split; [done|]. intros (g & Hg & _)%(inv_up _ Ha). unfold gray in Hg. rewrite Hf in Hg.
  by apply elem_of_nil in Hg.
Qed.
End steps.
