(* ===== verification/TarjanLaws.v ===== *)
(** * What both implementations of Tarjan's algorithm share

    [Shared]: the vectors [index], [low] and [on_stack], the stack and the next number hold a [Search]; [work] bounds the
    turns that are left. *)
From stdpp Require Import sets relations.
From S2P Require Import Prelude Digraph DigraphLaws BfsLaws PathLaws TarjanSteps.
From S2P Require Import Scc.
Local Open Scope nat_scope.
Local Open Scope monad_scope.

(** ** Vectors as functions *)

(** The vector holds [f x] at each node [x] of [P]. *)
Definition holds {A} (n : nat) (vector : list A) (P : nat -> Prop) (f : nat -> A) : Prop :=
  length vector = n /\ forall x, P x -> vector !! x = Some (f x).

Lemma holds_insert {A} n (vector : list A) P P' f f' x a :
  holds n vector P f -> x < n -> f' x = a -> (forall y, y <> x -> P' y -> P y /\ f' y = f y) ->
  holds n (<[x := a]> vector) P' f'.
Proof.
  intros [Hl Hv] Hx Hfx Hf. split; [by rewrite length_insert|]. intros y Hy. destruct (decide (y = x)) as [->|Hne].
  - rewrite list_lookup_insert_eq by lia. by rewrite Hfx.
  - rewrite list_lookup_insert_ne by done. destruct (Hf y Hne Hy) as [HP ->]. by apply Hv.
Qed.

Lemma holds_ext {A} n (vector : list A) (P P' : nat -> Prop) f f' :
  (forall x, P' x -> P x /\ f' x = f x) -> holds n vector P f -> holds n vector P' f'.
Proof. intros Hf [Hl Hv]. split; [done|]. intros x Hx. destruct (Hf x Hx) as [HP ->]. by apply Hv. Qed.

Lemma holds_replicate {A} n (a : A) : holds n (replicate n a) (fun x => x < n) (fun _ => a).
Proof. split; [apply length_replicate|]. intros x Hx. by apply lookup_replicate. Qed.

(** [vector[x] = a] for each member. *)
Definition assign {A} (members : list nat) (a : A) (vector : list A) : list A :=
  foldl (fun vector x => <[x := a]> vector) vector members.

Lemma holds_assign {A} n (vector : list A) P f members a :
  holds n vector P f -> (forall x, x ∈ members -> x < n) ->
  holds n (assign members a vector) (fun x => x ∈ members \/ P x) (fun x => if decide (x ∈ members) then a else f x).
Proof.
  revert vector P f. induction members as [|m members IH]; intros vector P f Hv Hm; cbn.
  { eapply holds_ext, Hv. intros x [Hx|Hx]; [by apply elem_of_nil in Hx|done]. }
  eapply holds_ext; [|apply (IH _ (fun x => x = m \/ P x) (update f m a))].
  - intros x Hx. cbn in Hx. rewrite elem_of_cons in Hx. split; [tauto|]. unfold update. repeat case_decide; set_solver.
  - eapply holds_insert; [done| |by rewrite update_eq|].
    + apply Hm. set_solver.
    + intros y Hne [->|Hy]; [done|]. by rewrite update_ne.
  - set_solver.
Qed.

Section shared.
Context (rows : list (list nat)) (Hc : closed_rows rows) (Hn : (N.of_nat (length rows) <= UNVISITED)%N).

Abbreviation nodes := (length rows).

Record Shared (index low : list N) (on_stack : list bool) (stack : list nat) (next : N)
    (order stk : list nat) (lo : nat -> nat) : Prop := {
  shared_index : holds nodes index (fun x => x < nodes)
    (fun x => if decide (x ∈ order) then N.of_nat (rank_in order x) else UNVISITED);
  shared_low : holds nodes low (fun x => x ∈ order) (fun x => N.of_nat (lo x));
  shared_on : holds nodes on_stack (fun x => x < nodes) (fun x => bool_decide (x ∈ stk));
  shared_stack : stack = stk;
  shared_next : next = N.of_nat (length order) }.

Lemma shared_start :
  Shared (replicate nodes UNVISITED) (replicate nodes 0%N) (replicate nodes false) [] 0 [] [] (fun _ => 0).
Proof.
  split; [| | |done..].
  - eapply holds_ext, holds_replicate. by intros x Hx.
  - eapply holds_ext, holds_replicate. by intros x Hx%elem_of_nil.
  - eapply holds_ext, holds_replicate. by intros x Hx.
Qed.

Lemma shared_discover index low on_stack stack next order stk lo x :
  Shared index low on_stack stack next order stk lo -> x < nodes -> x ∉ order ->
  Shared (<[x := next]> index) (<[x := next]> low) (<[x := true]> on_stack) (x :: stack) (next + 1)
    (order ++ [x]) (x :: stk) (update lo x (length order)).
Proof.
  intros [Hi Hl Ho -> ->] Hx Hno. split.
  - eapply holds_insert; [done..| |].
    + rewrite decide_True by set_solver. by rewrite rank_in_new.
    + intros y Hne Hy. split; [done|]. destruct (decide (y ∈ order)) as [Hyo|Hyo].
      * rewrite decide_True by set_solver. by rewrite rank_in_app.
      * by rewrite decide_False by set_solver.
  - eapply holds_insert; [done..|by rewrite update_eq|]. intros y Hne Hy. rewrite update_ne by done. set_solver.
  - eapply holds_insert; [done..|by rewrite bool_decide_true by set_solver|]. intros y Hne Hy. split; [done|].
    apply bool_decide_ext. set_solver.
  - done.
  - rewrite length_app. cbn. lia.
Qed.

Lemma shared_lower index low on_stack stack next order stk lo x l :
  Shared index low on_stack stack next order stk lo -> x < nodes ->
  Shared index (<[x := N.of_nat l]> low) on_stack stack next order stk (update lo x l).
Proof.
  intros [Hi Hl Ho Hs Hx] Hxn. split; [done| |done..]. eapply holds_insert; [done..|by rewrite update_eq|].
  intros y Hne Hy. by rewrite update_ne.
Qed.

Lemma shared_pop index low on_stack stack next order members rest lo :
  Shared index low on_stack stack next order (members ++ rest) lo ->
  (forall x, x ∈ members -> x < nodes /\ x ∉ rest) ->
  Shared index low (assign members false on_stack) rest next order rest lo.
Proof.
  intros [Hi Hl Ho Hs Hx] Hm. split; [done..| |done|done]. eapply holds_ext, holds_assign; [|done|].
  - intros x Hxn. split; [by right|]. cbn. case_decide as Hin.
    + apply bool_decide_false. by apply Hm.
    + apply bool_decide_ext. rewrite elem_of_app. tauto.
  - intros x Hin. by apply Hm.
Qed.

(** ** The numbers of a state *)

Context (a : Search) (Ha : StackInv rows a).

Lemma order_bound : length (order a) <= nodes.
Proof. apply nodes_bound; apply Ha. Qed.

Lemma rank_visited x : x ∈ order a -> (N.of_nat (rank a x) <? UNVISITED)%N = true.
Proof. intros Hx%rank_lt. pose proof order_bound. apply N.ltb_lt. lia. Qed.

Section look.
Context (index low : list N) (on_stack : list bool) (stack : list nat) (next : N) (lo' : nat -> nat).
Context (Hs : Shared index low on_stack stack next (order a) (stk a) lo').

Lemma index_numbered x : x ∈ order a ->
  index !! x = Some (N.of_nat (rank a x)) /\ (N.of_nat (rank a x) =? UNVISITED)%N = false.
Proof.
  intros Hx. destruct (shared_index _ _ _ _ _ _ _ _ Hs) as [_ Hi]. rewrite Hi by by apply (inv_nodes _ _ Ha).
  rewrite decide_True by done. split; [done|]. apply N.eqb_neq. pose proof (rank_visited x Hx) as Hlt%N.ltb_lt. lia.
Qed.

Lemma index_unvisited x : x < nodes -> x ∉ order a -> index !! x = Some UNVISITED.
Proof. intros Hx Ho. destruct (shared_index _ _ _ _ _ _ _ _ Hs) as [_ Hi]. rewrite Hi by done. by rewrite decide_False. Qed.

Lemma low_numbered x : x ∈ order a -> low !! x = Some (N.of_nat (lo' x)).
Proof. intros Hx. destruct (shared_low _ _ _ _ _ _ _ _ Hs) as [_ Hl]. by apply Hl. Qed.

Lemma on_stack_at x : x < nodes -> on_stack !! x = Some (bool_decide (x ∈ stk a)).
Proof. intros Hx. destruct (shared_on _ _ _ _ _ _ _ _ Hs) as [_ Ho]. by apply Ho. Qed.

Lemma shared_lengths : length index = nodes /\ length low = nodes /\ length on_stack = nodes.
Proof. by destruct Hs as [[] [] []]. Qed.
End look.

(** The stack is cut at the top frame. *)
Lemma stack_split v p below : frs a = (v, p) :: below -> exists above rest, stk a = above ++ v :: rest /\ v ∉ above.
Proof.
  intros Hf. apply list_elem_of_split_l. apply (inv_gray _ _ Ha). unfold gray. rewrite Hf. apply list_elem_of_here.
Qed.

Lemma stack_NoDup : NoDup (stk a).
Proof.
  pose proof (inv_sorted _ _ Ha) as Hs. induction Hs as [|x l Hs IH Hx]; [constructor|]. apply NoDup_cons. split; [|done].
  intros Hin. rewrite list.Forall_forall in Hx. specialize (Hx x Hin). lia.
Qed.
End shared.

(** ** The turns that are left *)

Section work.
Context (rows : list (list nat)).

Definition degree (x : nat) : nat := length (row_at rows x).

(** A turn for each edge and for each end of a node that is not numbered yet. *)
Definition remaining (order : list nat) : nat :=
  sum_list_with (fun x => if decide (x ∈ order) then 0 else S (degree x)) (seq 0 (length rows)).

Definition pending (frs : list (nat * nat)) : nat := sum_list_with (fun f => S (degree (fst f) - snd f)) frs.

Definition work (a : Search) : nat := remaining (order a) + pending (frs a).

Lemma sum_ext {A} (f g : A -> nat) l : (forall x, x ∈ l -> f x = g x) -> sum_list_with f l = sum_list_with g l.
Proof. induction l as [|x l IH]; intros Hfg; [done|]. cbn. rewrite Hfg, IH; [done|set_solver..]. Qed.

Lemma remaining_drops l order x :
  NoDup l -> x ∈ l -> x ∉ order ->
  sum_list_with (fun y => if decide (y ∈ order) then 0 else S (degree y)) l =
    S (degree x) + sum_list_with (fun y => if decide (y ∈ order ++ [x]) then 0 else S (degree y)) l.
Proof.
  induction l as [|y l IH]; intros Hnd Hx Ho; [by apply elem_of_nil in Hx|]. apply NoDup_cons in Hnd as [Hy Hnd]. cbn.
  apply elem_of_cons in Hx as [->|Hx].
  - rewrite decide_False by done. rewrite (decide_True (P := y ∈ order ++ [y])) by set_solver.
    rewrite (sum_ext _ (fun z => if decide (z ∈ order ++ [y]) then 0 else S (degree z)) l); [lia|].
    intros z Hz. apply decide_ext. assert (z <> y) by (intros ->; done). set_solver.
  - rewrite IH by done. assert (y <> x) as Hne by (intros ->; done).
    assert ((if decide (y ∈ order ++ [x]) then 0 else S (degree y)) = (if decide (y ∈ order) then 0 else S (degree y))) as ->.
    { apply decide_ext. set_solver. }
    lia.
Qed.

Lemma remaining_discover order x : x < length rows -> x ∉ order -> remaining order = S (degree x) + remaining (order ++ [x]).
Proof. intros Hx Ho. apply remaining_drops; [apply NoDup_seq|apply elem_of_seq; lia|done]. Qed.

Lemma step_work a b : closed_rows rows -> frs a <> [] -> step rows a b -> work b < work a.
Proof.
  intros Hc Hne Hs. unfold work. destruct Hs as [x Hf|v p below y Hf Hy Hno|v p below y Hf Hy|v p below y Hf Hy|
    v p below Hf Hp|v p below above rest Hf Hp]; [done|rewrite Hf..]; cbn.
  - assert (y < length rows) as Hyn by (apply list_elem_of_lookup_2, edge_row_at in Hy; by eapply edge_closed in Hy as [_ ?]).
    rewrite (remaining_discover (order a) y) by done. apply lookup_lt_Some in Hy. fold (degree v) in Hy. lia.
  - apply lookup_lt_Some in Hy. fold (degree v) in Hy. lia.
  - apply lookup_lt_Some in Hy. fold (degree v) in Hy. lia.
  - lia.
  - lia.
Qed.

Lemma sum_fmap {A B} (f : B -> nat) (g : A -> B) l : sum_list_with f (g <$> l) = sum_list_with (fun x => f (g x)) l.
Proof. induction l as [|x l IH]; [done|]. cbn. by rewrite IH. Qed.

Lemma length_concat_sum {A} (l : list (list A)) : length (concat l) = sum_list_with length l.
Proof. induction l as [|x l IH]; [done|]. cbn. by rewrite length_app, IH. Qed.

Lemma remaining_bound order : remaining order <= length rows + length (concat rows).
Proof.
  assert (rows = row_at rows <$> seq 0 (length rows)) as Hrows.
  { apply list_eq. intros x. rewrite list_lookup_fmap. destruct (decide (x < length rows)) as [Hx|Hx].
    - rewrite (proj2 (lookup_seq 0 (length rows) x x)) by done. cbn. unfold row_at.
      by destruct (lookup_lt_is_Some_2 rows x Hx) as [row ->].
    - rewrite !(proj2 (lookup_ge_None _ _)) by (rewrite ?length_seq; lia). done. }
  rewrite length_concat_sum. rewrite Hrows at 2. rewrite sum_fmap. unfold remaining.
  rewrite <- (length_seq (length rows) 0) at 2. generalize (seq 0 (length rows)). intros l.
  induction l as [|x l IH]; [done|]. cbn. fold (degree x). case_decide; lia.
Qed.
End work.

(** ** What the components are *)

(** [label] numbers the strongly connected components of the nodes below [n], callees first, without gaps. *)
Definition scc_numbering (R : nat -> nat -> Prop) (n : nat) (label : nat -> nat) (count : nat) : Prop :=
  (forall x y, x < n -> y < n -> label x = label y <-> rtc R x y /\ rtc R y x) /\
  (forall x y, x < n -> R x y -> label y <= label x) /\
  (forall x, x < n -> label x < count) /\
  (forall c, c < count -> exists x, x < n /\ label x = c).

(** The members of each component of a numbering, ascending. *)
Definition grouped (n : nat) (label : nat -> nat) (count : nat) : list (list nat) :=
  (fun c => filter (fun x => label x = c) (seq 0 n)) <$> seq 0 count.

(** A search that has no frames and has numbered every node. *)
Lemma search_numbering rows a :
  Inv rows a -> frs a = [] -> (forall x, x < length rows -> x ∈ order a) ->
  scc_numbering (edge rows) (length rows) (comp a) (count a) /\ forall x, x < length rows -> finished a x.
Proof.
  intros Ha Hf Hall. assert (forall x, x < length rows -> finished a x) as Hfin.
  { intros x Hx. eapply no_frames; [done..|by apply Hall]. }
  split; [|done]. destruct Ha as [Hst Hd]. split_and!.
  - intros x y Hx Hy. apply (inv_scc _ _ Hd); by apply Hfin.
  - intros x y Hx HR. apply (inv_topo _ _ Hd); [by apply Hfin|done].
  - intros x Hx. by apply (inv_bound _ _ Hd), Hfin.
  - intros c Hc. destruct (inv_used _ _ Hd c Hc) as (x & [Hx _] & Hxc). exists x. split; [by apply (inv_nodes _ _ Hst)|done].
Qed.

Lemma step_order rows a b x : step rows a b -> x ∈ order a -> x ∈ order b.
Proof. intros Hs Hx. destruct Hs; cbn; set_solver. Qed.

Lemma steps_order rows a b x : rtc (step rows) a b -> x ∈ order a -> x ∈ order b.
Proof. intros Hs. induction Hs as [|a b c Hs _ IH]; [done|]. intros Hx. by apply IH, (step_order rows a). Qed.

(** The search that both implementations carry out. *)
Definition complete (rows : list (list nat)) (a : Search) : Prop :=
  rtc (step rows) start_state a /\ frs a = [] /\ forall x, x < length rows -> x ∈ order a.

Lemma complete_unique rows a b : complete rows a -> complete rows b -> a = b.
Proof. intros (Ha & Hfa & Hoa) (Hb & Hfb & Hob). eapply ends_unique; [done..| |]; by apply complete_nf. Qed.

Lemma complete_numbering rows a :
  closed_rows rows -> complete rows a ->
  scc_numbering (edge rows) (length rows) (comp a) (count a) /\ forall x, x < length rows -> finished a x.
Proof. intros Hc (Ha & Hf & Ho). apply search_numbering; [by apply reachable_inv|done..]. Qed.

(** The state between two roots: the roots below [k] are done. *)
Definition between (rows : list (list nat)) (k : nat) (a : Search) : Prop :=
  rtc (step rows) start_state a /\ frs a = [] /\ forall x, x < k -> x ∈ order a.

Lemma between_start rows : between rows 0 start_state.
Proof. split_and!; [done|done|lia]. Qed.

(** The prefix of [seq] that a loop has done. *)
Lemma seq_prefix n done x rest : seq 0 n = done ++ x :: rest -> x = length done /\ x < n.
Proof.
  intros Hseq. assert (seq 0 n !! length done = Some x) as [Hx Hn]%lookup_seq by (rewrite Hseq; by apply list_lookup_middle).
  lia.
Qed.
