(* ===== verification/SccLaws.v ===== *)
(** * Both component searches refine the steps of [TarjanSteps]

    [strongly_connected] of the index, and its copy in the partition into modules, which collects the members of each
    component ([Split.strongly_connected]). *)
From stdpp Require Import sets relations.
From S2P Require Import Prelude Digraph Scc DigraphLaws BfsLaws TarjanSteps TarjanLaws.
Local Open Scope nat_scope.
Local Open Scope monad_scope.
Import Tarjan.

(** ** The variables *)

Section rules.
Context (Q : unit -> State -> Prop).

Lemma returns_set_index x n s : x < length (index s) ->
  Q tt (mk_State (<[x := n]> (index s)) (low s) (on_stack s) (component s) (stack s) (next_index s) (completed s) (frames s)) ->
  returns (set_index x n) Q s.
Proof. intros Hx HQ. unfold set_index. apply returns_bind, returns_gets, returns_bind. by apply returns_updated. Qed.

Lemma returns_set_low x n s : x < length (low s) ->
  Q tt (mk_State (index s) (<[x := n]> (low s)) (on_stack s) (component s) (stack s) (next_index s) (completed s) (frames s)) ->
  returns (set_low x n) Q s.
Proof. intros Hx HQ. unfold set_low. apply returns_bind, returns_gets, returns_bind. by apply returns_updated. Qed.

Lemma returns_set_on_stack x b s : x < length (on_stack s) ->
  Q tt (mk_State (index s) (low s) (<[x := b]> (on_stack s)) (component s) (stack s) (next_index s) (completed s) (frames s)) ->
  returns (set_on_stack x b) Q s.
Proof. intros Hx HQ. unfold set_on_stack. apply returns_bind, returns_gets, returns_bind. by apply returns_updated. Qed.

Lemma returns_set_component x n s : x < length (component s) ->
  Q tt (mk_State (index s) (low s) (on_stack s) (<[x := n]> (component s)) (stack s) (next_index s) (completed s) (frames s)) ->
  returns (set_component x n) Q s.
Proof. intros Hx HQ. unfold set_component. apply returns_bind, returns_gets, returns_bind. by apply returns_updated. Qed.
End rules.

Lemma returns_index_of x n (Q : N -> State -> Prop) s : index s !! x = Some n -> Q n s -> returns (index_of x) Q s.
Proof. intros Hx HQ. apply returns_bind, returns_gets. by eapply returns_element. Qed.

Lemma returns_low_of x n (Q : N -> State -> Prop) s : low s !! x = Some n -> Q n s -> returns (low_of x) Q s.
Proof. intros Hx HQ. apply returns_bind, returns_gets. by eapply returns_element. Qed.

Lemma returns_is_on_stack x b (Q : bool -> State -> Prop) s : on_stack s !! x = Some b -> Q b s -> returns (is_on_stack x) Q s.
Proof. intros Hx HQ. apply returns_bind, returns_gets. by eapply returns_element. Qed.


Section search.
Context (graph : Digraph) (rows : list (list nat)) (Hg : represents graph rows) (Hc : closed_rows rows).
Context (Hn : (N.of_nat (length rows) <= UNVISITED)%N).

Abbreviation nodes := (length rows).

(** The state [s] holds the search [a]. *)
Definition vectors (s : State) (a : Search) : Prop :=
  Shared rows (index s) (low s) (on_stack s) (stack s) (next_index s) (order a) (stk a) (lo a) /\
  holds nodes (component s) (finished a) (fun x => N.of_nat (comp a x)) /\ completed s = N.of_nat (count a).

Definition implements (s : State) (a : Search) : Prop := vectors s a /\ frames s = frs a /\ Inv rows a.

Lemma initial_implements : implements (initial nodes) start_state.
Proof.
  split_and!; [|done|apply start_inv]. split_and!; [apply shared_start| |done].
  eapply holds_ext, holds_replicate. by intros x [Hx%elem_of_nil _].
Qed.

Lemma discover_run x s a F (Q : unit -> State -> Prop) :
  vectors s a -> x < nodes -> x ∉ order a ->
  (forall s', vectors s' (discovered_state a x F) -> frames s' = frames s -> Q tt s') ->
  returns (discover x) Q s.
Proof.
  intros (Hs & Hk & Hd) Hx Hno HQ. destruct (shared_lengths _ _ _ _ _ _ _ _ Hs) as (Hi & Hl & Ho).
  unfold discover. variables. apply returns_set_index; [lia|]. variables. apply returns_set_low; [cbn; lia|]. variables.
  apply returns_set_on_stack; [cbn; lia|]. cbn. apply HQ; [|done]. split_and!; cbn.
  - by apply shared_discover.
  - eapply holds_ext, Hk. intros y Hy. split; [|done]. by eapply finished_discovered.
  - done.
Qed.

Lemma lower_run u l s a (Q : unit -> State -> Prop) :
  vectors s a -> Inv rows a -> u ∈ order a ->
  (forall s' F, vectors s' (mk_Search (order a) (stk a) F (update (lo a) u (Nat.min (lo a u) l)) (comp a) (count a)) ->
    frames s' = frames s -> Q tt s') ->
  returns (lower u (N.of_nat l)) Q s.
Proof.
  intros (Hs & Hk & Hd) [Ha _] Hu HQ. destruct (shared_lengths _ _ _ _ _ _ _ _ Hs) as (Hi & Hl & Ho).
  assert (u < nodes) as Hun by by apply (inv_nodes _ _ Ha).
  unfold lower. apply returns_bind. eapply returns_low_of; [by eapply low_numbered|].
  apply returns_set_low; [lia|]. apply (HQ _ []); [|done]. split_and!; cbn; [|done..].
  replace (N.min (N.of_nat (lo a u)) (N.of_nat l)) with (N.of_nat (Nat.min (lo a u) l)) by lia.
  by apply shared_lower.
Qed.

(** ** Popping a component *)

Lemma pop_turn_eq v m l s :
  stack s = m :: l -> m < length (on_stack s) -> m < length (component s) ->
  pop_turn v s = (Ok (if m =? v then Some tt else None), mk_State (index s) (low s) (<[m := false]> (on_stack s))
    (<[m := completed s]> (component s)) l (next_index s) (completed s) (frames s)).
Proof.
  intros Hs Ho Hk. unfold pop_turn, set_stack, set_on_stack, set_component, updated, bind, gets, modify. rewrite Hs.
  cbn -[Nat.ltb Nat.eqb]. rewrite (proj2 (Nat.ltb_lt _ _)) by done. cbn -[Nat.ltb Nat.eqb].
  by rewrite (proj2 (Nat.ltb_lt _ _)) by done.
Qed.

Lemma pop_run v above rest fuel s :
  stack s = above ++ v :: rest -> v ∉ above -> (forall x, x ∈ above ++ [v] -> x < nodes) -> length above < fuel ->
  length (on_stack s) = nodes -> length (component s) = nodes ->
  turns fuel (pop_turn v) s = (Ok tt, mk_State (index s) (low s) (assign (above ++ [v]) false (on_stack s))
    (assign (above ++ [v]) (completed s) (component s)) rest (next_index s) (completed s) (frames s)).
Proof.
  revert fuel s. induction above as [|m above IH]; intros fuel s Hs Hv Hb Hf Ho Hk;
    (destruct fuel as [|fuel]; [cbn in Hf; lia|]); cbn [turns]; unfold bind.
  - assert (v < nodes) as Hvn by (apply Hb; set_solver). erewrite pop_turn_eq by (done || lia). by rewrite Nat.eqb_refl.
  - assert (m < nodes) as Hm by (apply Hb; set_solver). apply not_elem_of_cons in Hv as [Hne Hv].
    erewrite pop_turn_eq by (done || lia). rewrite (proj2 (Nat.eqb_neq m v)) by done.
    rewrite IH; cbn; rewrite ?length_insert; try done.
    + intros x Hx. apply Hb. cbn. set_solver.
    + cbn in Hf. lia.
Qed.

(** ** One turn *)

Lemma advance_run v p below y s a (Q : unit -> State -> Prop) :
  implements s a -> frs a = (v, p) :: below -> row_at rows v !! p = Some y ->
  (forall s' b, step rows a b -> implements s' b -> Q tt s') ->
  returns (advance v p y below) Q s.
Proof.
  intros (Hvec & Hf & Ha) Hfa Hy HQ. pose proof Hvec as (Hs & Hk & Hd). pose proof Ha as [Hst _].
  assert (v ∈ order a) as Hv by by eapply stack_order_gray, top_gray.
  assert (y < nodes) as Hyn by (apply list_elem_of_lookup_2, edge_row_at in Hy; by eapply edge_closed in Hy as [_ ?]).
  assert (forall b, step rows a b -> Inv rows b) as Hinv by (intros b Hb; by eapply step_inv).
  unfold advance, set_frames. variables. destruct (decide (y ∈ order a)) as [Hyo|Hyo].
  - destruct (index_numbered rows Hn a Hst _ _ _ _ _ _ Hs y Hyo) as [Hi Hu].
    eapply returns_index_of; [done|]. rewrite Hu. variables.
    eapply returns_is_on_stack; [by eapply on_stack_at|]. destruct (decide (y ∈ stk a)) as [Hys|Hys].
    + rewrite bool_decide_true by done. variables. eapply returns_index_of; [done|].
      eapply (lower_run _ _ _ a); [done..|]. intros s' F Hvec' Hf'. cbn in Hf'.
      eapply HQ; [by eapply step_back|]. split_and!; [done..|]. by eapply Hinv, step_back.
    + rewrite bool_decide_false by done. variables. eapply HQ; [by eapply step_skip|]. split_and!; [done..|].
      by eapply Hinv, step_skip.
  - eapply returns_index_of; [by eapply index_unvisited|]. rewrite N.eqb_refl. variables.
    eapply (discover_run _ _ a ((y, 0) :: (v, p + 1) :: below)); [done..|]. intros s' Hvec' Hf'. cbn in Hf'.
    unfold push_frame, set_frames. variables. eapply HQ; [by eapply step_new|].
    split_and!; [done|cbn; by rewrite Hf'|by eapply Hinv, step_new].
Qed.

(** The parent takes the low number of the frame that ends. *)
Lemma lower_parent_run v p below s a (Q : unit -> State -> Prop) :
  vectors s a -> Inv rows a -> frs a = (v, p) :: below -> frames s = below ->
  (forall s', vectors s' (mk_Search (order a) (stk a) below (lower_parent below (lo a v) (lo a)) (comp a) (count a)) ->
    frames s' = below -> Q tt s') ->
  returns (match below with
    | (parent, _) :: _ => let? n := low_of v in lower parent n
    | [] => ret tt
    end) Q s.
Proof.
  intros Hvec Ha Hfa Hf HQ. pose proof Ha as [Hst _]. assert (v ∈ order a) as Hv by by eapply stack_order_gray, top_gray.
  destruct below as [|[u q] below]; [variables; by apply HQ|]. variables.
  eapply returns_low_of; [eapply low_numbered; [apply Hvec|done]|].
  assert (u ∈ order a) as Hu.
  { apply (stack_order_gray rows); [done|]. unfold gray. rewrite Hfa. cbn. set_solver. }
  eapply (lower_run _ _ _ a); [done..|]. intros s' F Hvec' Hf'. apply HQ; [done|congruence].
Qed.

Lemma finish_run v p below s a (Q : unit -> State -> Prop) :
  implements s a -> frs a = (v, p) :: below -> row_at rows v !! p = None ->
  (forall s' b, step rows a b -> implements s' b -> Q tt s') ->
  returns (finish v below) Q s.
Proof.
  intros (Hvec & Hf & Ha) Hfa Hp HQ. pose proof Ha as [Hst Hdn].
  assert (v ∈ order a) as Hv by by eapply stack_order_gray, top_gray.
  assert (forall b, step rows a b -> Inv rows b) as Hinv by (intros b Hb; by eapply step_inv).
  assert (v < nodes) as Hvn by by apply (inv_nodes _ _ Hst).
  unfold finish, set_frames. variables. eapply (lower_parent_run v p below _ a); [done..|].
  intros s' (Hs' & Hk' & Hd') Hf'. cbn in Hs', Hk', Hd'. variables.
  eapply returns_low_of; [by eapply low_numbered|]. rewrite (lower_parent_other rows a v p below) by done. variables.
  destruct (index_numbered rows Hn a Hst _ _ _ _ _ _ Hs' v Hv) as [Hi _]. eapply returns_index_of; [done|].
  destruct (N.eqb_spec (N.of_nat (lo a v)) (N.of_nat (rank a v))) as [Heq|Hne].
  - apply Nat2N.inj in Heq. destruct (stack_split rows a Hst v p below Hfa) as (above & rest & Hstk & Hab).
    assert (forall x, x ∈ above ++ [v] -> x < nodes) as Hb.
    { intros x Hx. by eapply (inv_nodes _ _ Hst), member_order. }
    destruct (shared_lengths _ _ _ _ _ _ _ _ Hs') as (_ & _ & Ho). destruct Hk' as [Hkl Hkv].
    pose proof (shared_stack _ _ _ _ _ _ _ _ _ Hs') as Hst'. variables. eapply returns_eq.
    { apply (pop_run v above rest); [by rewrite Hst'|done|done| |done|done]. rewrite Hst', Hstk, length_app. cbn. lia. }
    unfold set_completed. variables. eapply HQ; [by eapply step_pop|]. split_and!; [|done|by eapply Hinv, step_pop].
    split_and!; cbn.
    + eapply (shared_pop _ _ _ _ _ _ _ (above ++ [v])); [rewrite <- app_assoc; cbn [app]; by rewrite <- Hstk|].
      intros x Hx. split; [by apply Hb|]. intros Hr%(rest_rank rows a v above rest Hst Hstk).
      pose proof (member_rank rows a v above rest Hst Heq Hstk x Hx). lia.
    + eapply holds_ext, holds_assign; [|exact (conj Hkl Hkv)|done]. intros x Hx.
      apply (finished_popped rows a v below above rest Hst Heq Hstk) in Hx. split; [exact Hx|].
      cbn. rewrite Hd'. by case_decide.
    + rewrite Hd'. lia.
  - assert (lo a v <> rank a v) as Hne' by congruence. variables. eapply HQ; [by eapply step_merge|].
    split_and!; [done..|by eapply Hinv, step_merge].
Qed.

Lemma turn_run s a :
  implements s a -> frs a <> [] ->
  returns (turn graph) (fun r s' => r = None /\ exists b, step rows a b /\ implements s' b) s.
Proof.
  intros Hs Hne. pose proof Hs as (_ & Hf & Ha & _). unfold turn. variables. rewrite Hf.
  destruct (frs a) as [|[v p] below] eqn:Hfa; [done|]. variables.
  assert (v < nodes) as Hv by by eapply (inv_nodes _ _ Ha), stack_order_gray, top_gray.
  eapply returns_row; [done..|]. variables. destruct (row_at rows v !! p) as [y|] eqn:Hy.
  - eapply advance_run; [done..|]. intros s' b Hb Hs'. variables. split; [done|]. by exists b.
  - eapply finish_run; [done..|]. intros s' b Hb Hs'. variables. split; [done|]. by exists b.
Qed.

(** ** The loops *)

Lemma frames_run fuel s a :
  implements s a -> work rows a < fuel ->
  returns (turns fuel (turn graph)) (fun _ s' => exists b, rtc (step rows) a b /\ implements s' b /\ frs b = []) s.
Proof.
  revert s a. induction fuel as [|fuel IH]; intros s a Hs Hw; [lia|]. cbn [turns].
  destruct (decide (frs a = [])) as [Hf|Hne].
  - variables. unfold turn. variables. destruct Hs as (Hvec & Hfs & Ha). rewrite Hfs, Hf. variables.
    exists a. split; [done|]. split; [|done]. split_and!; [done|congruence|apply Ha..].
  - variables. eapply returns_mono; [by apply turn_run|]. intros r s' (-> & b & Hb & Hs').
    eapply returns_mono; [apply (IH s' b); [done|]|].
    + pose proof (step_work rows a b Hc Hne Hb). lia.
    + intros _ s'' (c & Hc' & Hs'' & Hf). exists c. split; [|done]. by eapply rtc_l.
Qed.

Lemma root_run root s a (Q : unit -> State -> Prop) :
  implements s a -> between rows root a -> root < nodes ->
  (forall s' b, implements s' b -> between rows (S root) b -> Q tt s') ->
  returns (root_step graph root) Q s.
Proof.
  intros Hs (Hst0 & Hf & Hlow) Hr HQ. pose proof Hs as (Hvec & Hfs & Ha). pose proof Ha as [Hst _]. pose proof Hvec as (Hsh & _).
  unfold root_step. variables. destruct (decide (root ∈ order a)) as [Ho|Ho].
  - destruct (index_numbered rows Hn a Hst _ _ _ _ _ _ Hsh root Ho) as [Hi Hu].
    eapply returns_index_of; [done|]. rewrite Hu. variables. apply (HQ s a); [done|]. split_and!; [done..|].
    intros x Hx. destruct (decide (x = root)) as [->|]; [done|]. apply Hlow. lia.
  - eapply returns_index_of; [by eapply index_unvisited|]. rewrite N.eqb_refl. cbn [negb]. variables.
    unfold push_frame, set_frames. variables.
    eapply (discover_run _ _ a [(root, 0)]); [exact Hvec|done..|]. intros s' Hvec' Hf'. cbn in Hf'. rewrite Hfs, Hf in Hf'.
    variables. assert (step rows a (discovered_state a root [(root, 0)])) as Hst' by by apply step_root.
    destruct Hg as (Hlen & Hec & _). rewrite Hlen, Hec.
    eapply returns_mono; [apply (frames_run _ s' (discovered_state a root [(root, 0)]))|].
    + split_and!; [done..|]. by eapply step_inv.
    + unfold work. cbn -[remaining degree]. pose proof (remaining_bound rows (order a)) as Hb.
      rewrite (remaining_discover rows (order a) root) in Hb by done. lia.
    + intros [] s'' (b & Hb & Hs'' & Hfb). apply (HQ s'' b); [done|]. split_and!; [|done|].
      * eapply rtc_trans; [done|]. by eapply rtc_l.
      * intros x Hx. eapply steps_order; [done|]. cbn. rewrite elem_of_app, list_elem_of_singleton.
        destruct (decide (x = root)) as [->|]; [by right|]. left. apply Hlow. lia.
Qed.

Lemma strongly_connected_run :
  exists a, complete rows a /\ strongly_connected graph = Ok ((fun x => N.of_nat (comp a x)) <$> seq 0 nodes).
Proof.
  destruct Hg as (Hlen & _). unfold strongly_connected. rewrite Hlen.
  assert (returns (search graph) (fun component _ => exists a,
    component = (fun x => N.of_nat (comp a x)) <$> seq 0 nodes /\ complete rows a) (initial nodes)) as Hs.
  { unfold search. rewrite Hlen. variables.
    eapply (returns_for_each _ (fun done s => exists a, implements s a /\ between rows (length done) a)).
    - exists start_state. split; [apply initial_implements|apply between_start].
    - intros done root rest s [-> Hr]%seq_prefix (a & Hs & Hb). eapply root_run; [done..|]. intros s' b Hs' Hb'.
      exists b. rewrite length_app, Nat.add_1_r. done.
    - rewrite length_seq. intros s (a & (Hvec & _ & Ha) & Hb). variables. exists a. split; [|done].
      destruct (complete_numbering rows a Hc Hb) as [_ Hfin].
      destruct Hvec as (_ & [Hkl Hk] & _). apply list_eq. intros x. rewrite list_lookup_fmap.
      destruct (decide (x < nodes)) as [Hx|Hx].
      + rewrite (proj2 (lookup_seq 0 nodes x x)) by done. cbn. by apply Hk, Hfin.
      + rewrite !(proj2 (lookup_ge_None _ _)) by (rewrite ?length_seq; lia). done. }
  apply returns_fst in Hs as (component & Hr & a & -> & Ha). by exists a.
Qed.
End search.

(** ** [components] *)

Lemma foldl_max a l : let m := foldl N.max a l in m ∈ a :: l /\ forall x, x ∈ a :: l -> (x <= m)%N.
Proof.
  revert a. induction l as [|b l IH]; intros a; cbn.
  - split; [apply list_elem_of_here|]. by intros x ->%list_elem_of_singleton.
  - destruct (IH (N.max a b)) as [Hin Hle]. split.
    + apply elem_of_cons in Hin as [->|Hin]; [|set_solver]. destruct (N.max_spec a b) as [[_ ->]|[_ ->]]; set_solver.
    + assert (N.max a b <= foldl N.max (N.max a b) l)%N by (apply Hle, list_elem_of_here).
      intros x [->|[->|Hx]%elem_of_cons]%elem_of_cons; [lia|lia|]. apply Hle. by apply list_elem_of_further.
Qed.

Section grouping.
Context (n : nat) (label : nat -> nat) (count : nat).
Hypotheses (Hlt : forall x, x < n -> label x < count) (Hused : forall c, c < count -> exists x, x < n /\ label x = c).

Lemma grouped_lookup k c : c < count -> grouped k label count !! c = Some (filter (fun x => label x = c) (seq 0 k)).
Proof. intros Hc. unfold grouped. rewrite list_lookup_fmap, (proj2 (lookup_seq 0 count c c)) by done. done. Qed.

Lemma grouped_S k : k < n ->
  <[label k := filter (fun x => label x = label k) (seq 0 k) ++ [k]]> (grouped k label count) = grouped (S k) label count.
Proof.
  intros Hk. assert (forall k, length (grouped k label count) = count) as Hlen.
  { intros j. unfold grouped. by rewrite length_fmap, length_seq. }
  apply list_eq. intros c. destruct (decide (c < count)) as [Hc|Hc].
  - rewrite (grouped_lookup (S k)) by done. rewrite seq_S, filter_app. cbn [Nat.add].
    destruct (decide (c = label k)) as [->|Hne].
    + rewrite list_lookup_insert_eq by (rewrite Hlen; by apply Hlt). by rewrite filter_cons_True, filter_nil.
    + rewrite list_lookup_insert_ne by done. rewrite grouped_lookup by done.
      by rewrite filter_cons_False, filter_nil, app_nil_r by congruence.
  - rewrite !(proj2 (lookup_ge_None _ _)) by (rewrite ?length_insert, Hlen; lia). done.
Qed.

Lemma count_max :
  match (fun x => N.of_nat (label x)) <$> seq 0 n with [] => 0 | m :: rest => N.to_nat (foldl N.max m rest) + 1 end = count.
Proof.
  destruct ((fun x => N.of_nat (label x)) <$> seq 0 n) as [|m rest] eqn:Hl.
  - apply fmap_nil_inv in Hl. destruct count as [|c]; [done|]. destruct (Hused 0) as (x & Hx & _); [lia|].
    destruct n; [lia|done].
  - destruct (foldl_max m rest) as [Hin Hle]. rewrite <- Hl in Hin, Hle.
    apply list_elem_of_fmap in Hin as (x & Hx & [_ Hxn]%elem_of_seq). assert (label x < count) by (apply Hlt; lia).
    assert (exists y, y < n /\ label y = count - 1) as (y & Hy & Hyc) by (apply Hused; lia).
    assert (N.of_nat (label y) <= foldl N.max m rest)%N; [|lia]. apply Hle. apply (list_elem_of_fmap_2 (fun x => N.of_nat (label x))).
    apply elem_of_seq. lia.
Qed.

Lemma components_grouped : components ((fun x => N.of_nat (label x)) <$> seq 0 n) = Ok (grouped n label count).
Proof.
  unfold components. rewrite count_max.
  match goal with |- fst (?m ?s) = _ => assert (returns m (fun l _ => l = grouped n label count) s) as Hs end.
  { variables. eapply (returns_for_each _ (fun done s => s = grouped (length done) label count)).
    - apply list_eq. intros c. cbn [length]. destruct (decide (c < count)) as [Hc|Hc].
      + rewrite grouped_lookup by done. by apply lookup_replicate.
      + rewrite !(proj2 (lookup_ge_None _ _)) by (rewrite ?length_replicate; unfold grouped; rewrite ?length_fmap, ?length_seq; lia).
        done.
    - intros done [k c] rest s Hl ->.
      assert (imap pair ((fun x => N.of_nat (label x)) <$> seq 0 n) !! length done = Some (k, c)) as Hk
        by (rewrite Hl; by apply list_lookup_middle).
      rewrite list_lookup_imap, list_lookup_fmap in Hk. destruct (seq 0 n !! length done) as [y|] eqn:Hy; [|done].
      apply lookup_seq in Hy as [-> Hn]. cbn in Hk. injection Hk as <- <-. rewrite Nat2N.id. variables. unfold id.
      eapply returns_element; [by apply grouped_lookup, Hlt|]. variables.
      apply returns_updated; [unfold grouped; rewrite length_fmap, length_seq; by apply Hlt|]. variables.
      rewrite length_app, Nat.add_1_r. by apply grouped_S.
    - intros s ->. variables. unfold id. f_equal. by rewrite length_imap, length_fmap, length_seq. }
  apply returns_fst in Hs as (l & -> & ->). done.
Qed.
End grouping.

(** ** The partition's copy *)

Module SplitLaws.
Import Split.

(** ** The variables *)

Section rules.
Context (Q : unit -> State -> Prop).

Lemma split_set_index x n s : x < length (index s) ->
  Q tt (mk_State (<[x := n]> (index s)) (low s) (on_stack s) (stack s) (components s) (Split.work s) (next s)) ->
  returns (set_index x n) Q s.
Proof. intros Hx HQ. unfold set_index. apply returns_bind, returns_gets, returns_bind. by apply returns_updated. Qed.

Lemma split_set_low x n s : x < length (low s) ->
  Q tt (mk_State (index s) (<[x := n]> (low s)) (on_stack s) (stack s) (components s) (Split.work s) (next s)) ->
  returns (set_low x n) Q s.
Proof. intros Hx HQ. unfold set_low. apply returns_bind, returns_gets, returns_bind. by apply returns_updated. Qed.

Lemma split_set_on_stack x b s : x < length (on_stack s) ->
  Q tt (mk_State (index s) (low s) (<[x := b]> (on_stack s)) (stack s) (components s) (Split.work s) (next s)) ->
  returns (set_on_stack x b) Q s.
Proof. intros Hx HQ. unfold set_on_stack. apply returns_bind, returns_gets, returns_bind. by apply returns_updated. Qed.
End rules.

Lemma split_index_of x n (Q : N -> State -> Prop) s : index s !! x = Some n -> Q n s -> returns (index_of x) Q s.
Proof. intros Hx HQ. apply returns_bind, returns_gets. by eapply returns_element. Qed.

Lemma split_low_of x n (Q : N -> State -> Prop) s : low s !! x = Some n -> Q n s -> returns (low_of x) Q s.
Proof. intros Hx HQ. apply returns_bind, returns_gets. by eapply returns_element. Qed.

Lemma split_is_on_stack x b (Q : bool -> State -> Prop) s : on_stack s !! x = Some b -> Q b s -> returns (is_on_stack x) Q s.
Proof. intros Hx HQ. apply returns_bind, returns_gets. by eapply returns_element. Qed.


Section search.
Context (edges : list (list nat)) (Hc : closed_rows edges) (Hn : (N.of_nat (length edges) <= UNVISITED)%N).

Abbreviation nodes := (length edges).

(** The members of component [c], ascending. *)
Definition members_of (a : Search) (c : nat) : list nat :=
  filter (fun x => (x ∈ order a /\ x ∉ stk a) /\ comp a x = c) (seq 0 nodes).

Definition split_vectors (s : State) (a : Search) : Prop :=
  Shared edges (index s) (low s) (on_stack s) (stack s) (next s) (order a) (stk a) (lo a) /\
  components s = members_of a <$> seq 0 (count a).

Definition split_implements (s : State) (a : Search) : Prop := split_vectors s a /\ Split.work s = frs a /\ Inv edges a.

Lemma split_discover x s a F (Q : unit -> State -> Prop) :
  split_vectors s a -> x < nodes -> x ∉ order a ->
  (forall s', split_vectors s' (discovered_state a x F) -> Split.work s' = Split.work s -> Q tt s') ->
  returns (discover x) Q s.
Proof.
  intros (Hs & Hk) Hx Hno HQ. destruct (shared_lengths _ _ _ _ _ _ _ _ Hs) as (Hi & Hl & Ho).
  unfold discover. variables. apply split_set_index; [lia|]. variables. apply split_set_low; [cbn; lia|].
  unfold set_next, set_stack. variables. apply split_set_on_stack; [cbn; lia|]. cbn. apply HQ; [|done]. split; cbn.
  - by apply shared_discover.
  - rewrite Hk. apply list_fmap_ext. intros _ c _. unfold members_of. apply list_filter_iff. intros y.
    pose proof (finished_discovered a x F y Hno) as Hfin. unfold finished in Hfin. by rewrite Hfin.
Qed.

Lemma split_lower u l s a (Q : unit -> State -> Prop) :
  split_vectors s a -> Inv edges a -> u ∈ order a ->
  (forall s' F, split_vectors s' (mk_Search (order a) (stk a) F (update (lo a) u (Nat.min (lo a u) l)) (comp a) (count a)) ->
    Split.work s' = Split.work s -> Q tt s') ->
  returns (lower u (N.of_nat l)) Q s.
Proof.
  intros (Hs & Hk) [Ha _] Hu HQ. destruct (shared_lengths _ _ _ _ _ _ _ _ Hs) as (Hi & Hl & Ho).
  assert (u < nodes) as Hun by by apply (inv_nodes _ _ Ha).
  unfold lower. variables. eapply split_low_of; [by eapply low_numbered|].
  apply split_set_low; [lia|]. apply (HQ _ []); [|done]. split; cbn; [|done].
  replace (N.min (N.of_nat (lo a u)) (N.of_nat l)) with (N.of_nat (Nat.min (lo a u) l)) by lia.
  by apply shared_lower.
Qed.

(** ** Popping a component *)

Lemma split_pop_run v above rest fuel s component :
  stack s = above ++ v :: rest -> v ∉ above -> (forall x, x ∈ above ++ [v] -> x < nodes) -> length above < fuel ->
  length (on_stack s) = nodes ->
  pop_members fuel v component s = (Ok (component ++ above ++ [v]),
    mk_State (index s) (low s) (assign (above ++ [v]) false (on_stack s)) rest (components s) (Split.work s) (next s)).
Proof.
  revert fuel s component. induction above as [|m above IH]; intros fuel s component Hs Hv Hb Hf Ho;
    (destruct fuel as [|fuel]; [cbn in Hf; lia|]); cbn [pop_members]; unfold set_stack, set_on_stack, updated, bind, gets, modify;
    rewrite Hs; cbn -[Nat.ltb Nat.eqb].
  - assert (v < nodes) as Hvn by (apply Hb; set_solver). rewrite (proj2 (Nat.ltb_lt _ _)) by lia. cbn -[Nat.ltb Nat.eqb].
    by rewrite Nat.eqb_refl.
  - assert (m < nodes) as Hm by (apply Hb; set_solver). apply not_elem_of_cons in Hv as [Hne Hv].
    rewrite (proj2 (Nat.ltb_lt _ _)) by lia. cbn -[Nat.ltb Nat.eqb pop_members].
    rewrite (proj2 (Nat.eqb_neq m v)) by done. rewrite IH; cbn; rewrite ?length_insert; try done.
    + by rewrite <- app_assoc.
    + intros x Hx. apply Hb. cbn. set_solver.
    + cbn in Hf. lia.
Qed.

(** The popped component, sorted, is the list of its members; the other components stay. *)
Lemma members_popped a v below above rest p :
  Inv edges a -> lo a v = rank a v -> stk a = above ++ v :: rest -> frs a = (v, p) :: below -> NoDup (above ++ [v]) ->
  (members_of a <$> seq 0 (count a)) ++ [merge_sort (≤) (above ++ [v])] =
  members_of (popped a v below above rest) <$> seq 0 (S (count a)).
Proof.
  intros [Hst Hd] Hlo Hstk Hf Hnd. rewrite seq_S, fmap_app. cbn [fmap list_fmap Nat.add].
  pose proof (finished_popped edges a v below above rest Hst Hlo Hstk) as Hfin. f_equal.
  - apply list_fmap_ext. intros i c [-> Hc']%lookup_seq. unfold members_of. apply list_filter_iff. intros x.
    change (x ∈ order (popped a v below above rest) /\ x ∉ stk (popped a v below above rest))
      with (finished (popped a v below above rest) x). rewrite Hfin. fold (finished a x). split.
    + intros [Hx <-]. split; [by right|]. by apply (comp_finished edges a v below above rest Hd Hstk).
    + intros [[Hx|Hx] Heq]; [rewrite (comp_member a v below above rest) in Heq by done; lia|].
      split; [done|]. by rewrite <- (proj1 (comp_finished edges a v below above rest Hd Hstk x Hx)).
  - f_equal. apply (strict_sorted_ext lt); [lia|by apply sorted_layer|by apply filter_sorted, seq_sorted|].
    intros x. rewrite merge_sort_Permutation. unfold members_of. rewrite list_elem_of_filter, elem_of_seq.
    change (x ∈ order (popped a v below above rest) /\ x ∉ stk (popped a v below above rest))
      with (finished (popped a v below above rest) x). rewrite Hfin. split.
    + intros Hx. split; [split; [by left|by apply comp_member]|]. split; [lia|].
      by eapply (inv_nodes _ _ Hst), member_order.
    + intros [[[Hx|Hx] Heq] _]; [done|].
      destruct (comp_finished edges a v below above rest Hd Hstk x Hx) as [Hc' Hlt]. rewrite Hc' in Heq. lia.
Qed.

(** ** One turn *)

Lemma split_advance v p below y s a (Q : unit -> State -> Prop) :
  split_implements s a -> frs a = (v, p) :: below -> row_at edges v !! p = Some y ->
  (forall s' b, step edges a b -> split_implements s' b -> Q tt s') ->
  returns (advance v p y below) Q s.
Proof.
  intros (Hvec & Hf & Ha) Hfa Hy HQ. pose proof Hvec as (Hs & Hk). pose proof Ha as [Hst _].
  assert (v ∈ order a) as Hv by by eapply stack_order_gray, top_gray.
  assert (y < nodes) as Hyn by (apply list_elem_of_lookup_2, edge_row_at in Hy; by eapply edge_closed in Hy as [_ ?]).
  assert (forall b, step edges a b -> Inv edges b) as Hinv by (intros b Hb; by eapply step_inv).
  unfold advance, set_work. variables. destruct (decide (y ∈ order a)) as [Hyo|Hyo].
  - destruct (index_numbered edges Hn a Hst _ _ _ _ _ _ Hs y Hyo) as [Hi Hu].
    eapply split_index_of; [done|]. rewrite Hu. variables.
    eapply split_is_on_stack; [by eapply on_stack_at|]. destruct (decide (y ∈ stk a)) as [Hys|Hys].
    + rewrite bool_decide_true by done. variables. eapply split_index_of; [done|].
      eapply (split_lower _ _ _ a); [done..|]. intros s' F Hvec' Hf'. cbn in Hf'.
      eapply HQ; [by eapply step_back|]. split_and!; [done..|]. by eapply Hinv, step_back.
    + rewrite bool_decide_false by done. variables. eapply HQ; [by eapply step_skip|]. split_and!; [done..|].
      by eapply Hinv, step_skip.
  - eapply split_index_of; [by eapply index_unvisited|]. rewrite N.eqb_refl. variables.
    eapply (split_discover _ _ a ((y, 0) :: (v, p + 1) :: below)); [done..|]. intros s' Hvec' Hf'. cbn in Hf'.
    unfold push_work, set_work. variables. eapply HQ; [by eapply step_new|].
    split_and!; [done|cbn; by rewrite Hf'|by eapply Hinv, step_new].
Qed.

Lemma split_lower_parent v p below s a (Q : unit -> State -> Prop) :
  split_vectors s a -> Inv edges a -> frs a = (v, p) :: below -> Split.work s = below ->
  (forall s', split_vectors s' (mk_Search (order a) (stk a) below (lower_parent below (lo a v) (lo a)) (comp a) (count a)) ->
    Split.work s' = below -> Q tt s') ->
  returns (match below with
    | (parent, _) :: _ => let? n := low_of v in lower parent n
    | [] => ret tt
    end) Q s.
Proof.
  intros Hvec Ha Hfa Hf HQ. pose proof Ha as [Hst _]. assert (v ∈ order a) as Hv by by eapply stack_order_gray, top_gray.
  destruct below as [|[u q] below]; [variables; by apply HQ|]. variables.
  eapply split_low_of; [eapply low_numbered; [apply Hvec|done]|].
  assert (u ∈ order a) as Hu.
  { apply (stack_order_gray edges); [done|]. unfold gray. rewrite Hfa. cbn. set_solver. }
  eapply (split_lower _ _ _ a); [done..|]. intros s' F Hvec' Hf'. apply HQ; [done|congruence].
Qed.

Lemma split_finish v p below s a (Q : unit -> State -> Prop) :
  split_implements s a -> frs a = (v, p) :: below -> row_at edges v !! p = None ->
  (forall s' b, step edges a b -> split_implements s' b -> Q tt s') ->
  returns (finish v below) Q s.
Proof.
  intros (Hvec & Hf & Ha) Hfa Hp HQ. pose proof Ha as [Hst Hdn].
  assert (v ∈ order a) as Hv by by eapply stack_order_gray, top_gray.
  assert (forall b, step edges a b -> Inv edges b) as Hinv by (intros b Hb; by eapply step_inv).
  assert (v < nodes) as Hvn by by apply (inv_nodes _ _ Hst).
  unfold finish, set_work. variables. eapply (split_lower_parent v p below _ a); [done..|].
  intros s' (Hs' & Hk') Hf'. cbn in Hs', Hk'. variables.
  eapply split_low_of; [by eapply low_numbered|]. rewrite (lower_parent_other edges a v p below) by done. variables.
  destruct (index_numbered edges Hn a Hst _ _ _ _ _ _ Hs' v Hv) as [Hi _]. eapply split_index_of; [done|].
  destruct (N.eqb_spec (N.of_nat (lo a v)) (N.of_nat (rank a v))) as [Heq|Hne].
  - apply Nat2N.inj in Heq. destruct (stack_split edges a Hst v p below Hfa) as (above & rest & Hstk & Hab).
    assert (forall x, x ∈ above ++ [v] -> x < nodes) as Hb.
    { intros x Hx. by eapply (inv_nodes _ _ Hst), member_order. }
    destruct (shared_lengths _ _ _ _ _ _ _ _ Hs') as (_ & _ & Ho).
    pose proof (shared_stack _ _ _ _ _ _ _ _ _ Hs') as Hst'. variables. eapply returns_eq.
    { apply (split_pop_run v above rest); [by rewrite Hst'|done|done| |done]. rewrite Hst', Hstk, length_app. cbn. lia. }
    unfold push_component. variables. eapply HQ; [by eapply step_pop|]. split_and!; [|done|by eapply Hinv, step_pop].
    split; cbn [index low on_stack stack next components].
    + eapply (shared_pop _ _ _ _ _ _ _ (above ++ [v])); [by rewrite <- app_assoc; rewrite Hstk in Hs'|].
      intros x Hx. split; [by apply Hb|]. intros Hr%(rest_rank edges a v above rest Hst Hstk).
      pose proof (member_rank edges a v above rest Hst Heq Hstk x Hx). lia.
    + rewrite Hk'. cbn [app]. apply (members_popped a v below above rest p); [by split|done..|].
      pose proof (stack_NoDup edges Hn a Hst) as Hnd. rewrite Hstk in Hnd.
      change (above ++ v :: rest) with (above ++ [v] ++ rest) in Hnd. rewrite app_assoc in Hnd.
      by apply NoDup_app in Hnd as [Hnd _].
  - assert (lo a v <> rank a v) as Hne' by congruence. variables. eapply HQ; [by eapply step_merge|].
    split_and!; [done..|by eapply Hinv, step_merge].
Qed.

Lemma split_turn s a :
  split_implements s a -> frs a <> [] ->
  returns (turn edges) (fun r s' => r = None /\ exists b, step edges a b /\ split_implements s' b) s.
Proof.
  intros Hs Hne. pose proof Hs as (_ & Hf & Ha & _). unfold turn. variables. rewrite Hf.
  destruct (frs a) as [|[v p] below] eqn:Hfa; [done|]. variables.
  assert (v < nodes) as Hv by by eapply (inv_nodes _ _ Ha), stack_order_gray, top_gray.
  assert (edges !! v = Some (row_at edges v)) as Hrow.
  { unfold row_at. by destruct (lookup_lt_is_Some_2 edges v Hv) as [row ->]. }
  eapply returns_element; [done|]. variables. destruct (row_at edges v !! p) as [y|] eqn:Hy.
  - eapply split_advance; [done..|]. intros s' b Hb Hs'. variables. split; [done|]. by exists b.
  - eapply split_finish; [done..|]. intros s' b Hb Hs'. variables. split; [done|]. by exists b.
Qed.

(** ** The loops *)

Lemma split_frames fuel s a :
  split_implements s a -> TarjanLaws.work edges a < fuel ->
  returns (turns fuel (turn edges)) (fun _ s' => exists b, rtc (step edges) a b /\ split_implements s' b /\ frs b = []) s.
Proof.
  revert s a. induction fuel as [|fuel IH]; intros s a Hs Hw; [lia|]. cbn [turns].
  destruct (decide (frs a = [])) as [Hf|Hne].
  - variables. unfold turn. variables. destruct Hs as (Hvec & Hfs & Ha). rewrite Hfs, Hf. variables.
    exists a. split; [done|]. split; [|done]. split_and!; [done|congruence|apply Ha..].
  - variables. eapply returns_mono; [by apply split_turn|]. intros r s' (-> & b & Hb & Hs').
    eapply returns_mono; [apply (IH s' b); [done|]|].
    + pose proof (step_work edges a b Hc Hne Hb). lia.
    + intros _ s'' (c & Hc' & Hs'' & Hf). exists c. split; [|done]. by eapply rtc_l.
Qed.

Lemma split_root root s a (Q : unit -> State -> Prop) :
  split_implements s a -> between edges root a -> root < nodes ->
  (forall s' b, split_implements s' b -> between edges (S root) b -> Q tt s') ->
  returns (root_step edges root) Q s.
Proof.
  intros Hs (Hst0 & Hf & Hlow) Hr HQ. pose proof Hs as (Hvec & Hfs & Ha). pose proof Ha as [Hst _]. pose proof Hvec as (Hsh & _).
  unfold root_step. variables. destruct (decide (root ∈ order a)) as [Ho|Ho].
  - destruct (index_numbered edges Hn a Hst _ _ _ _ _ _ Hsh root Ho) as [Hi Hu].
    eapply split_index_of; [done|]. rewrite Hu. variables. apply (HQ s a); [done|]. split_and!; [done..|].
    intros x Hx. destruct (decide (x = root)) as [->|]; [done|]. apply Hlow. lia.
  - eapply split_index_of; [by eapply index_unvisited|]. rewrite N.eqb_refl. cbn [negb]. variables.
    eapply (split_discover _ _ a [(root, 0)]); [exact Hvec|done..|]. intros s' Hvec' Hf'. rewrite Hfs, Hf in Hf'.
    unfold push_work, set_work. variables.
    assert (step edges a (discovered_state a root [(root, 0)])) as Hst' by by apply step_root.
    eapply returns_mono; [apply (split_frames _ _ (discovered_state a root [(root, 0)]))|].
    + split_and!; [done|cbn; by rewrite Hf'|]. by eapply step_inv.
    + unfold TarjanLaws.work. cbn -[remaining degree]. pose proof (remaining_bound edges (order a)) as Hb.
      rewrite (remaining_discover edges (order a) root) in Hb by done. lia.
    + intros [] s'' (b & Hb & Hs'' & Hfb). apply (HQ s'' b); [done|]. split_and!; [|done|].
      * eapply rtc_trans; [done|]. by eapply rtc_l.
      * intros x Hx. eapply steps_order; [done|]. cbn. rewrite elem_of_app, list_elem_of_singleton.
        destruct (decide (x = root)) as [->|]; [by right|]. left. apply Hlow. lia.
Qed.

Lemma split_run :
  exists a, complete edges a /\ strongly_connected edges = Ok (grouped nodes (comp a) (count a)).
Proof.
  unfold strongly_connected.
  assert (returns (for_each (root_step edges) (seq 0 nodes) ;;; gets components) (fun l _ => exists a,
    l = grouped nodes (comp a) (count a) /\ complete edges a)
    (mk_State (replicate nodes UNVISITED) (replicate nodes 0%N) (replicate nodes false) [] [] [] 0)) as Hs.
  { variables. eapply (returns_for_each _ (fun done s => exists a, split_implements s a /\ between edges (length done) a)).
    - exists start_state. split; [|apply between_start]. split_and!; [split; [apply shared_start|done]|done|apply start_inv].
    - intros done root rest s [-> Hr]%seq_prefix (a & Hs & Hb). eapply split_root; [done..|]. intros s' b Hs' Hb'.
      exists b. rewrite length_app, Nat.add_1_r. done.
    - rewrite length_seq. intros s (a & (Hvec & _ & Ha) & Hb). variables. exists a. split; [|done].
      destruct (complete_numbering edges a Hc Hb) as [_ Hfin].
      destruct Hvec as (_ & ->). apply list_fmap_ext. intros _ c _. unfold members_of. apply filter_ext_in.
      intros x Hx%elem_of_seq. specialize (Hfin x ltac:(lia)). unfold finished in Hfin. tauto. }
  apply returns_fst in Hs as (l & Hr & a & -> & Ha). by exists a.
Qed.
End search.

End SplitLaws.
