(* ===== verification/OrdersLaws.v ===== *)
(** * Kahn's algorithm finds the least topological order, and walks to a root find cycles *)
From stdpp Require Import sets relations.
From S2P Require Import Prelude Digraph DigraphLaws BfsLaws PathLaws TarjanLaws.
From S2P Require Import Orders.
Local Open Scope nat_scope.
Local Open Scope monad_scope.

(** ** Cycles *)

Fixpoint linked (R : nat -> nat -> Prop) (l : list nat) : Prop :=
  match l with
  | x :: t => match t with y :: _ => R y x | [] => True end /\ linked R t
  | [] => True
  end.

Lemma linked_tc R x l y : linked R (x :: l) -> y ∈ l -> tc R y x.
Proof.
  revert x. induction l as [|z l IH]; intros x [Hx Hl] Hy; [by apply elem_of_nil in Hy|].
  apply elem_of_cons in Hy as [->|Hy]; [by apply tc_once|]. eapply tc_r; [by apply IH|done].
Qed.

Lemma linked_cycle R l : linked R l -> ~ NoDup l -> exists x, tc R x x.
Proof.
  induction l as [|x l IH]; intros Hl Hnd; [destruct Hnd; constructor|]. destruct (decide (x ∈ l)) as [Hx|Hx].
  - exists x. by eapply linked_tc.
  - apply IH; [apply Hl|]. intros Hnd'. apply Hnd. by constructor.
Qed.

Lemma predecessors_walk R (l : list nat) k y :
  y ∈ l -> (forall y, y ∈ l -> exists x, x ∈ l /\ R x y) ->
  exists w, length w = k /\ linked R (y :: w) /\ forall x, x ∈ w -> x ∈ l.
Proof.
  intros Hy Hpred. revert y Hy. induction k as [|k IH]; intros y Hy.
  - exists []. split_and!; [done|done|]. by intros x Hx%elem_of_nil.
  - destruct (Hpred y Hy) as (x & Hx & HR). destruct (IH x Hx) as (w & Hw & Hl & Hin). exists (x :: w).
    split_and!; [cbn; lia|done|]. by intros z [->|Hz%Hin]%elem_of_cons.
Qed.

(** In a finite set where every node has a predecessor, there is a cycle. *)
Lemma predecessors_cycle R (l : list nat) y :
  y ∈ l -> (forall y, y ∈ l -> exists x, x ∈ l /\ R x y) -> exists x, tc R x x.
Proof.
  intros Hy Hpred. destruct (predecessors_walk R l (length l) y Hy Hpred) as (w & Hw & Hl & Hin).
  apply (linked_cycle R (y :: w)); [done|]. intros Hnd.
  assert (length (y :: w) <= length l); [|cbn in *; lia].
  apply submseteq_length, NoDup_submseteq; [done|]. by intros z [->|Hz%Hin]%elem_of_cons.
Qed.

(** ** Kahn's algorithm *)

Section kahn.
Context (graph : Digraph) (rows : list (list nat)) (Hg : represents graph rows) (Hc : closed_rows rows).
Hypothesis Hsorted : forall x row, rows !! x = Some row -> StronglySorted lt row.
Import Kahn.

Abbreviation nodes := (length rows).
Abbreviation R := (edge rows).

(** The predecessors of [y] that are not done. *)
Definition waits (done : list nat) (y : nat) : nat :=
  length (filter (fun x => y ∈ row_at rows x /\ x ∉ done) (seq 0 nodes)).

Lemma waits_0 done y : waits done y = 0 <-> forall x, R x y -> x ∈ done.
Proof.
  unfold waits. rewrite length_zero_iff_nil. split.
  - intros Hnil x HR. destruct (edge_closed _ _ _ Hc HR) as [Hx _]. destruct (decide (x ∈ done)) as [|Hno]; [done|].
    assert (x ∈ filter (fun x => y ∈ row_at rows x /\ x ∉ done) (seq 0 nodes)) as Hin.
    { apply list_elem_of_filter. split; [by rewrite <- edge_row_at|apply elem_of_seq; lia]. }
    rewrite Hnil in Hin. by apply elem_of_nil in Hin.
  - intros Hall. apply filter_none. intros x _ [HR Hno]. by apply Hno, Hall, edge_row_at.
Qed.

Lemma row_NoDup x : NoDup (row_at rows x).
Proof.
  pose proof (row_at_sorted rows Hsorted x) as Hs. induction Hs as [|y l _ IH Hy]; [constructor|].
  constructor; [|done]. rewrite list.Forall_forall in Hy. intros Hin%Hy. lia.
Qed.

(** One node less to wait for. *)
Lemma waits_snoc done x y : x < nodes -> x ∉ done ->
  waits done y = waits (done ++ [x]) y + (if decide (y ∈ row_at rows x) then 1 else 0).
Proof.
  intros Hx Hno. unfold waits. assert (x ∈ seq 0 nodes) as Hin by (apply elem_of_seq; lia).
  pose proof (NoDup_seq 0 nodes) as Hnd. induction (seq 0 nodes) as [|z l IH]; [by apply elem_of_nil in Hin|].
  apply NoDup_cons in Hnd as [Hz Hnd]. rewrite !filter_cons. apply elem_of_cons in Hin as [<-|Hin].
  - rewrite (decide_False (P := y ∈ row_at rows x /\ x ∉ done ++ [x])) by set_solver.
    rewrite (filter_ext_in (fun z => y ∈ row_at rows z /\ z ∉ done) (fun z => y ∈ row_at rows z /\ z ∉ done ++ [x]) l).
    + repeat case_decide; cbn; tauto || lia.
    + intros z Hzl. assert (z <> x) by (intros ->; done). set_solver.
  - assert (z <> x) as Hne by (intros ->; done). specialize (IH Hin Hnd).
    destruct (decide (y ∈ row_at rows z /\ z ∉ done)) as [Hyes|Hyes].
    + rewrite decide_True by set_solver. cbn. lia.
    + rewrite decide_False by set_solver. done.
Qed.

(** ** The set of ready nodes *)

Lemma elem_of_set_insert x l y : (y ∈ set_insert x l) <-> y = x \/ y ∈ l.
Proof.
  induction l as [|z l IH]; cbn [set_insert]; [by rewrite elem_of_cons|]. destruct (x <? z); [by rewrite !elem_of_cons|].
  destruct (Nat.eqb_spec x z) as [->|]; rewrite !elem_of_cons; [tauto|]. rewrite IH. tauto.
Qed.

Lemma set_insert_sorted x l : StronglySorted lt l -> StronglySorted lt (set_insert x l).
Proof.
  induction 1 as [|z l Hl IH Hz]; cbn [set_insert]; [repeat constructor|]. destruct (Nat.ltb_spec x z) as [Hlt|Hge].
  - constructor; [by constructor|]. constructor; [done|]. eapply Forall_impl; [done|]. cbn. lia.
  - destruct (Nat.eqb_spec x z); [by constructor|]. constructor; [done|]. rewrite list.Forall_forall in *.
    intros y [->|Hy]%elem_of_set_insert; [lia|by apply Hz].
Qed.

(** ** The invariant *)

(** Each node of [o] is the least of the nodes whose predecessors all stand before it. *)
Definition picks (o : list nat) : Prop :=
  forall i y, o !! i = Some y ->
    y < nodes /\ y ∉ take i o /\ (forall x, R x y -> x ∈ take i o) /\
    forall z, z < nodes -> z ∉ take i o -> (forall x, R x z -> x ∈ take i o) -> y <= z.

Definition counts (s : State) (f : nat -> nat) : Prop := holds nodes (indegree s) (fun y => y < nodes) f.

(** The ready nodes are those of the counts [f] that are zero and not done. *)
Definition readies (s : State) (o : list nat) (f : nat -> nat) : Prop :=
  StronglySorted lt (ready s) /\ forall y, (y ∈ ready s) <-> y < nodes /\ y ∉ o /\ f y = 0.

Definition kahn_inv (s : State) : Prop :=
  counts s (waits (order s)) /\ readies s (order s) (waits (order s)) /\ picks (order s).

Lemma picks_NoDup o : picks o -> NoDup o.
Proof.
  intros Ho. apply NoDup_alt. intros i j x Hi Hj. destruct (lt_eq_lt_dec i j) as [[Hlt| ->]|Hlt]; [|done|].
  - destruct (Ho j x Hj) as (_ & Hno & _). destruct Hno. apply list_elem_of_lookup_2 with (i := i). by apply lookup_take_Some.
  - destruct (Ho i x Hi) as (_ & Hno & _). destruct Hno. apply list_elem_of_lookup_2 with (i := j). by apply lookup_take_Some.
Qed.

Lemma picks_nodes o x : picks o -> x ∈ o -> x < nodes.
Proof. intros Ho [i Hi]%list_elem_of_lookup. by destruct (Ho i x Hi). Qed.

Lemma picks_closed o x y : picks o -> y ∈ o -> R x y -> x ∈ o.
Proof.
  intros Ho [i Hi]%list_elem_of_lookup HR. destruct (Ho i y Hi) as (_ & _ & Hall & _).
  eapply list_elem_of_lookup in Hall as [j Hj]; [|done]. apply lookup_take_Some in Hj as [Hj _]. by eapply list_elem_of_lookup_2.
Qed.

Lemma picks_snoc o y :
  picks o -> y < nodes -> y ∉ o -> (forall x, R x y -> x ∈ o) ->
  (forall z, z < nodes -> z ∉ o -> (forall x, R x z -> x ∈ o) -> y <= z) -> picks (o ++ [y]).
Proof.
  intros Ho Hy Hno HR Hleast i x Hi. apply lookup_app_Some in Hi as [Hi|[Hge Hi]].
  - pose proof (lookup_lt_Some _ _ _ Hi) as Hlt. rewrite take_app_le by lia. by apply Ho.
  - destruct (i - length o) as [|j] eqn:Hj; [|done]. cbn in Hi. simplify_eq.
    rewrite take_app_length' by lia. done.
Qed.

Lemma returns_release to n s (Q : unit -> State -> Prop) :
  indegree s !! to = Some (S n) ->
  Q tt (mk_State (<[to := n]> (indegree s)) (if n =? 0 then set_insert to (ready s) else ready s) (order s)) ->
  returns (release to) Q s.
Proof.
  intros Hto HQ. unfold release, indegree_of, set_indegree. variables. eapply returns_element; [done|]. cbv beta iota. variables.
  apply returns_updated; [by eapply lookup_lt_Some|]. variables. by destruct (n =? 0).
Qed.

(** The counts while the successors [rest] still wait for the node that was taken. *)
Definition waits_rest (o rest : list nat) (y : nat) : nat := waits o y + (if decide (y ∈ rest) then 1 else 0).

Lemma release_row o rest s (Q : unit -> State -> Prop) :
  NoDup rest -> (forall y, y ∈ rest -> y < nodes /\ y ∉ o) ->
  order s = o -> counts s (waits_rest o rest) -> readies s o (waits_rest o rest) ->
  (forall s', order s' = o -> counts s' (waits o) -> readies s' o (waits o) -> Q tt s') ->
  returns (for_each release rest) Q s.
Proof.
  revert s. induction rest as [|y rest IH]; intros s Hnd Hrest Ho Hct Hrd HQ.
  - apply HQ; [done|eapply holds_ext, Hct|].
    + intros x Hx. split; [done|]. unfold waits_rest. rewrite decide_False by (intros Hin; by apply elem_of_nil in Hin). lia.
    + destruct Hrd as [Hs Hr]. split; [done|]. intros x. rewrite Hr. unfold waits_rest.
      rewrite decide_False by (intros Hin; by apply elem_of_nil in Hin). by rewrite Nat.add_0_r.
  - apply NoDup_cons in Hnd as [Hy Hnd]. destruct (Hrest y) as [Hyn Hyo]; [set_solver|].
    assert (waits_rest o (y :: rest) y = S (waits o y)) as Hwy by (unfold waits_rest; rewrite decide_True by set_solver; lia).
    assert (waits_rest o rest y = waits o y) as Hwy' by (unfold waits_rest; rewrite decide_False by done; lia).
    assert (forall x, x <> y -> waits_rest o (y :: rest) x = waits_rest o rest x) as Hwx.
    { intros x Hne. unfold waits_rest. f_equal. apply decide_ext. set_solver. }
    cbn [for_each]. variables. eapply (returns_release _ (waits o y)).
    { destruct Hct as [_ Hct]. rewrite Hct by done. by rewrite Hwy. }
    apply IH; [done|set_solver|done| | |done].
    + eapply holds_insert; [exact Hct|done|done|]. intros x Hne Hx. split; [done|]. by rewrite Hwx.
    + destruct Hrd as [Hs Hr]. split; cbn [ready].
      * destruct (waits o y =? 0); [by apply set_insert_sorted|done].
      * intros x. destruct (decide (x = y)) as [->|Hne].
        -- rewrite Hwy'. destruct (Nat.eqb_spec (waits o y) 0) as [Hz|Hz].
           ++ rewrite elem_of_set_insert. naive_solver.
           ++ rewrite Hr, Hwy. naive_solver.
        -- rewrite <- Hwx by done. rewrite <- Hr.
           destruct (waits o y =? 0); [|done]. rewrite elem_of_set_insert. tauto.
Qed.

Lemma kahn_turn s :
  kahn_inv s ->
  returns (turn graph) (fun r s' =>
    match r with
    | Some _ => s' = s /\ ready s = []
    | None => kahn_inv s' /\ length (order s') = S (length (order s))
    end) s.
Proof.
  intros (Hct & [Hs Hr] & Hp). unfold turn. variables. destruct (ready s) as [|node l] eqn:Hready; [by variables|].
  assert (node < nodes /\ node ∉ order s /\ waits (order s) node = 0) as (Hn & Hno & Hw)
    by (apply Hr; set_solver). pose proof (proj1 (waits_0 _ _) Hw) as Hpred.
  apply StronglySorted_inv in Hs as [Hs Hleast]. rewrite list.Forall_forall in Hleast.
  assert (picks (order s ++ [node])) as Hp'.
  { apply picks_snoc; [done..|]. intros z Hz Hzo Hzp. assert (z ∈ node :: l) as [->|Hzl%Hleast]%elem_of_cons; [|done|lia].
    apply Hr. split_and!; [done..|]. by apply waits_0. }
  variables. eapply returns_row; [done..|]. variables.
  apply (release_row (order s ++ [node])); [apply row_NoDup| |done| | |].
  - intros y Hy%edge_row_at. split; [by eapply edge_closed in Hy as [_ ?]|].
    intros [Hin|Hin%list_elem_of_singleton]%elem_of_app; apply Hno; [by eapply picks_closed|]. subst y. by apply Hpred.
  - eapply holds_ext, Hct. intros y Hy. split; [done|]. unfold waits_rest. symmetry. by apply waits_snoc.
  - split; [done|]. cbn [ready]. intros y. unfold waits_rest. rewrite <- waits_snoc by done.
    assert (node ∉ l) as Hnl by (intros Hin%Hleast; lia). specialize (Hr y). rewrite elem_of_cons in Hr.
    rewrite not_elem_of_app, list_elem_of_singleton. destruct (decide (y = node)) as [->|Hne]; [tauto|]. tauto.
  - intros s' Ho' Hct' Hrd'. variables. rewrite Ho'. split; [|rewrite length_app; cbn; lia].
    unfold kahn_inv. by rewrite Ho'.
Qed.

(** ** The loops *)

(** The predecessors of [y] below [k]. *)
Definition counted_below (k y : nat) : nat := length (filter (fun x => y ∈ row_at rows x) (seq 0 k)).

Lemma waits_nil y : waits [] y = counted_below nodes y.
Proof.
  unfold waits, counted_below. f_equal. apply filter_ext_in. intros x _. split; [tauto|].
  intros Hy. split; [done|]. by intros Hin%elem_of_nil.
Qed.

Lemma counted_below_S k y : counted_below (S k) y = counted_below k y + (if decide (y ∈ row_at rows k) then 1 else 0).
Proof.
  unfold counted_below. rewrite seq_S, filter_app, length_app. cbn [Nat.add]. rewrite filter_cons, filter_nil. by case_decide.
Qed.

Lemma count_row_run k s (Q : unit -> State -> Prop) :
  k < nodes -> counts s (counted_below k) ->
  (forall s', counts s' (counted_below (S k)) -> Q tt s') -> returns (count_row graph k) Q s.
Proof.
  intros Hk Hct HQ. unfold count_row. variables. eapply returns_row; [done..|].
  eapply (returns_for_each _ (fun done s => counts s (fun y => counted_below k y + (if decide (y ∈ done) then 1 else 0)))).
  - eapply holds_ext, Hct. intros y Hy. split; [done|]. rewrite decide_False by (intros Hin; by apply elem_of_nil in Hin). lia.
  - intros done to rest s1 Hrow Hct1.
    assert (to < nodes) as Hto.
    { assert (to ∈ row_at rows k) as Hin%edge_row_at by (rewrite Hrow; set_solver). by eapply edge_closed in Hin as [_ ?]. }
    assert (to ∉ done) as Hno.
    { pose proof (row_NoDup k) as Hnd. rewrite Hrow in Hnd. apply NoDup_app in Hnd as (_ & Hnd & _). intros Hin.
      apply (Hnd to Hin), list_elem_of_here. }
    unfold indegree_of, set_indegree. variables. pose proof Hct1 as [Hl Hct1'].
    eapply returns_element; [by apply Hct1'|]. cbv beta. variables. apply returns_updated; [lia|]. variables.
    eapply holds_insert; [exact Hct1|done| |].
    + rewrite decide_True by set_solver. by rewrite decide_False by done; lia.
    + intros y Hne Hy. split; [done|]. f_equal. apply decide_ext. set_solver.
  - intros s' Hct'. apply HQ. eapply holds_ext, Hct'. intros y Hy. split; [done|]. apply counted_below_S.
Qed.

(** What the search gives when no node is ready. *)
Definition kahn_result (r : option (list nat)) : Prop :=
  match r with Some o => picks o /\ o ≡ₚ seq 0 nodes | None => exists x, tc R x x end.

(** The nodes that are left all wait for one of them. *)
Lemma kahn_stuck s y : kahn_inv s -> ready s = [] -> y < nodes -> y ∉ order s -> exists x, tc R x x.
Proof.
  intros (_ & [_ Hr] & _) Hready Hy Hno. rewrite Hready in Hr. set (l := filter (fun y => y ∉ order s) (seq 0 nodes)).
  assert (forall y, (y ∈ l) <-> y < nodes /\ y ∉ order s) as Hl.
  { intros z. unfold l. rewrite list_elem_of_filter, elem_of_seq. split; [intros [? ?]|intros [? ?]]; (split; [done || lia|done || lia]). }
  eapply (predecessors_cycle R l y); [by apply Hl|]. clear y Hy Hno. intros y [Hy Hno]%Hl.
  destruct (decide (waits (order s) y = 0)) as [Hz|Hz].
  { assert (y ∈ []) as Hnil by by apply Hr. by apply elem_of_nil in Hnil. }
  destruct (filter (fun x => y ∈ row_at rows x /\ x ∉ order s) (seq 0 nodes)) as [|x w] eqn:Hw.
  { destruct Hz. unfold waits. by rewrite Hw. }
  assert (x ∈ x :: w) as Hx by apply list_elem_of_here. rewrite <- Hw in Hx.
  apply list_elem_of_filter in Hx as [[HR Hxo] [_ Hx]%elem_of_seq]. exists x.
  split; [apply Hl; split; [lia|done]|by apply edge_row_at].
Qed.

Lemma kahn_end s :
  kahn_inv s -> ready s = [] -> kahn_result (if length (order s) =? nodes then Some (order s) else None).
Proof.
  intros Hs Hready. pose proof Hs as (_ & _ & Hp). pose proof (picks_NoDup _ Hp) as Hnd.
  assert (order s ⊆+ seq 0 nodes) as Hsub.
  { apply NoDup_submseteq; [done|]. intros x Hx. apply elem_of_seq. pose proof (picks_nodes _ x Hp Hx). lia. }
  destruct (Nat.eqb_spec (length (order s)) nodes) as [Heq|Hne].
  - split; [done|]. apply submseteq_length_Permutation; [done|]. rewrite length_seq. lia.
  - destruct (filter (fun y => y ∉ order s) (seq 0 nodes)) as [|y l] eqn:Hl.
    + destruct Hne. apply submseteq_length in Hsub. rewrite length_seq in Hsub.
      assert (seq 0 nodes ⊆+ order s) as Hsub'%submseteq_length; [|rewrite length_seq in Hsub'; lia].
      apply NoDup_submseteq; [apply NoDup_seq|]. intros x Hx. destruct (decide (x ∈ order s)) as [|Hno]; [done|].
      by eapply (filter_nil_not_elem_of (fun y => y ∉ order s)) in Hx.
    + assert (y ∈ y :: l) as Hy by apply list_elem_of_here. rewrite <- Hl in Hy.
      apply list_elem_of_filter in Hy as [Hno [_ Hy]%elem_of_seq]. by apply (kahn_stuck s y).
Qed.

(** The state after the counting and the collection of the nodes without predecessors. *)
Lemma kahn_start s :
  counts s (counted_below nodes) ->
  kahn_inv (mk_State (indegree s) (fst <$> filter (fun e => snd e = 0) ((fun x => (x, waits [] x)) <$> seq 0 nodes)) []).
Proof.
  intros Hct. split_and!; cbn [indegree ready order].
  - eapply holds_ext, Hct. intros y Hy. split; [done|]. apply waits_nil.
  - assert (fst <$> filter (fun e => snd e = 0) ((fun x => (x, waits [] x)) <$> seq 0 nodes) =
      filter (fun x => waits [] x = 0) (seq 0 nodes)) as Hf.
    { generalize (seq 0 nodes). intros l. induction l as [|x l IH]; [done|]. cbn [fmap list_fmap]. rewrite !filter_cons.
      cbn [snd]. case_decide; [|done]. cbn. by f_equal. }
    split; cbn [ready]; rewrite Hf; [apply filter_sorted, seq_sorted|]. intros y. rewrite list_elem_of_filter, elem_of_seq.
    assert (y ∉ []) by (intros Hin; by apply elem_of_nil in Hin). split; [intros [? ?]|intros (? & _ & ?)]; split_and!; done || lia.
  - by intros i y Hi.
Qed.

Lemma topological_order_run : exists r, topological_order graph = Ok r /\ kahn_result r.
Proof.
  destruct Hg as (Hlen & _). unfold topological_order. rewrite Hlen. apply (returns_fst _ kahn_result).
  unfold search. rewrite Hlen. variables.
  eapply (returns_for_each _ (fun done s => counts s (counted_below (length done)))).
  { eapply holds_ext, holds_replicate. by intros y Hy. }
  { intros done k rest s [-> Hk]%seq_prefix Hct. apply count_row_run; [done..|]. intros s' Hct'.
    rewrite length_app, Nat.add_1_r. done. }
  rewrite length_seq. intros s Hct. variables. eapply returns_eq.
  { apply (collect_pure _ (fun x => (x, waits [] x))). intros x [_ Hx]%elem_of_seq. unfold element, bind.
    destruct Hct as [_ Hct]. rewrite Hct by lia. by rewrite waits_nil. }
  variables. eapply (returns_turns _ kahn_inv (fun s => nodes - length (order s))); [by apply kahn_start|cbn; lia|].
  intros s1 Hs1. eapply returns_mono; [by apply kahn_turn|]. intros [[]|] s2 Hs2.
  - destruct Hs2 as [-> Hready]. variables. by apply kahn_end.
  - destruct Hs2 as [Hs2 Hlen2]. split; [done|]. destruct Hs2 as (_ & _ & Hp).
    pose proof (nodes_bound nodes (order s2) (picks_NoDup _ Hp) (fun x => picks_nodes _ x Hp)). lia.
Qed.

(** In an order that [picks] describes, edges go forward, so there is no cycle. *)
Lemma picks_forward o i j x y : picks o -> o !! i = Some x -> o !! j = Some y -> R x y -> i < j.
Proof.
  intros Hp Hi Hj HR. destruct (Hp j y Hj) as (_ & _ & Hall & _). specialize (Hall x HR).
  apply list_elem_of_lookup in Hall as [k Hk]. apply lookup_take_Some in Hk as [Hk Hlt].
  assert (k = i) as ->; [|done]. pose proof (picks_NoDup o Hp) as Hnd. rewrite NoDup_alt in Hnd. by eapply Hnd.
Qed.

Lemma picks_acyclic o x : picks o -> o ≡ₚ seq 0 nodes -> ~ tc R x x.
Proof.
  intros Hp Hperm.
  assert (forall x y, tc R x y -> exists i j, o !! i = Some x /\ o !! j = Some y /\ i < j) as Htc.
  { assert (forall x, x < nodes -> exists i, o !! i = Some x) as Hin.
    { intros y Hy. apply list_elem_of_lookup. rewrite Hperm. apply elem_of_seq. lia. }
    assert (forall x y, R x y -> exists i j, o !! i = Some x /\ o !! j = Some y /\ i < j) as Hone.
    { intros a b HR. destruct (edge_closed _ _ _ Hc HR) as [Ha Hb]. destruct (Hin a Ha) as [i Hi], (Hin b Hb) as [j Hj].
      exists i, j. split_and!; [done..|]. by eapply picks_forward. }
    intros a b Hab. induction Hab as [a b HR|a b c HR _ IH]; [by apply Hone|].
    destruct (Hone a b HR) as (i & j & Hi & Hj & Hlt), IH as (j' & k & Hj' & Hk & Hlt').
    exists i, k. split_and!; [done..|]. pose proof (picks_NoDup o Hp) as Hnd. rewrite NoDup_alt in Hnd.
    assert (j = j') as <- by by eapply Hnd. lia. }
  intros (i & j & Hi & Hj & Hlt)%Htc. pose proof (picks_NoDup o Hp) as Hnd. rewrite NoDup_alt in Hnd.
  assert (i = j) by by eapply Hnd. lia.
Qed.
End kahn.

(** ** Forests *)

Lemma sn_acyclic (R : nat -> nat -> Prop) x : sn R x -> ~ tc R x x.
Proof.
  induction 1 as [x _ IH]. intros Hx. assert (exists y, R x y /\ rtc R y x) as (y & HR & Hyx).
  { inversion Hx as [? ? HR|? y ? HR Hyx]; subst; [by exists x|]. exists y. split; [done|by apply tc_rtc]. }
  apply (IH y HR). eapply tc_rtc_l; [done|by apply tc_once].
Qed.

Lemma sn_back (R : nat -> nat -> Prop) x y :
  (forall x y z, R x y -> R x z -> y = z) -> rtc R x y -> sn R y -> sn R x.
Proof.
  intros HR Hr Hy. induction Hr as [|x z y Hxz _ IH]; [done|]. constructor. intros w Hw.
  rewrite (HR x w z) by done. by apply IH.
Qed.

Section forest.
Context (parents : list (option nat)).
Import Forest.

Abbreviation n := (length parents).

(** [y] is the parent of [x]. *)
Definition up (x y : nat) : Prop := parents !! x = Some (Some y) /\ y < n.

Lemma up_unique x y z : up x y -> up x z -> y = z.
Proof. intros [Hy _] [Hz _]. congruence. Qed.

Lemma parent_of_run x (Q : option nat -> State -> Prop) s :
  x < n ->
  (forall r, match r with Some y => up x y | None => forall y, ~ up x y end -> Q r s) ->
  returns (parent_of parents x) Q s.
Proof.
  intros Hx HQ. unfold parent_of. variables. destruct (lookup_lt_is_Some_2 parents x Hx) as [p Hp].
  eapply returns_element; [done|]. variables. apply HQ. destruct p as [y|].
  - destruct (Nat.ltb_spec y n); [done|]. intros z [Hz Hzn]. rewrite Hp in Hz. simplify_eq. lia.
  - intros z [Hz _]. rewrite Hp in Hz. done.
Qed.

(** The marks: 1 on the walk, 2 on nodes that end at a root. *)
Definition marked (s : State) : Prop :=
  length (state s) = n /\ NoDup (walk s) /\ (forall x, x ∈ walk s -> x < n) /\
  forall x, x < n -> (state s !! x = Some 0 /\ x ∉ walk s) \/ (state s !! x = Some 1 /\ x ∈ walk s) \/
    (state s !! x = Some 2 /\ x ∉ walk s /\ sn up x).

Lemma set_state_run x m s (Q : unit -> State -> Prop) :
  x < length (state s) -> Q tt (mk_State (<[x := m]> (state s)) (walk s) (node s)) -> returns (set_state x m) Q s.
Proof. intros Hx HQ. unfold set_state. variables. apply returns_updated; [done|]. by variables. Qed.

Definition walking (start : nat) (s : State) : Prop :=
  marked s /\ node s < n /\ (forall x, x ∈ walk s -> tc up x (node s)) /\ (start = node s \/ start ∈ walk s).

(** How a walk ends: at a root, at a node that is known to end at a root, or on itself. *)
Definition walked (start : nat) (s : State) : Prop :=
  marked s /\ node s < n /\ (forall x, x ∈ walk s -> rtc up x (node s)) /\ (start = node s \/ start ∈ walk s) /\
  ((state s !! node s = Some 2 /\ sn up (node s)) \/ (state s !! node s = Some 1 /\ forall y, ~ up (node s) y) \/
    (state s !! node s = Some 1 /\ tc up (node s) (node s))).

(** Marking the node that the walk has come to. *)
Lemma marked_push s :
  marked s -> node s < n -> node s ∉ walk s -> marked (mk_State (<[node s := 1]> (state s)) (walk s ++ [node s]) (node s)).
Proof.
  intros (Hl & Hnd & Hw & Hs) Hn Hno. split_and!; cbn.
  - by rewrite length_insert.
  - apply NoDup_app. split_and!; [done|by intros x Hx ->%list_elem_of_singleton|apply NoDup_singleton].
  - intros x [Hx| ->%list_elem_of_singleton]%elem_of_app; [by apply Hw|done].
  - intros x Hx. rewrite elem_of_app, list_elem_of_singleton. destruct (decide (x = node s)) as [->|Hne].
    + right; left. rewrite list_lookup_insert_eq by lia. split; [done|by right].
    + rewrite list_lookup_insert_ne by done. destruct (Hs x Hx) as [[? ?]|[[? ?]|(? & ? & ?)]]; tauto.
Qed.

Lemma walk_turn_run start s :
  walking start s ->
  returns (walk_turn parents) (fun r s' =>
    match r with Some _ => walked start s' | None => walking start s' /\ length (walk s') = S (length (walk s)) end) s.
Proof.
  intros (Hm & Hn & Htc & Hst). pose proof Hm as (Hl & Hnd & Hw & Hs). unfold walk_turn. variables.
  assert (forall x, x ∈ walk s -> rtc up x (node s)) as Hrtc by (intros x Hx; by apply tc_rtc, Htc).
  destruct (Hs (node s) Hn) as [[H0 Hno]|[[H1 Hin]|(H2 & Hno & Hsn)]].
  - eapply returns_element; [done|]. cbn [Nat.eqb negb]. variables. apply set_state_run; [lia|]. variables.
    pose proof (marked_push s Hm Hn Hno) as Hm'. assert (start ∈ walk s ++ [node s]) as Hst' by set_solver.
    apply parent_of_run; [done|]. intros [y|] Hup; variables.
    + cbn [walk]. split; [|rewrite length_app; cbn; lia]. split; [done|]. split; [apply Hup|]. cbn. split; [|by right].
      intros x [Hx| ->%list_elem_of_singleton]%elem_of_app; [|by apply tc_once]. eapply tc_r; [by apply Htc|done].
    + split; [done|]. split; [done|]. cbn [walk node state]. split_and!; [|by right|].
      * intros x [Hx| ->%list_elem_of_singleton]%elem_of_app; [by apply Hrtc|done].
      * right; left. split; [|done]. apply list_lookup_insert_eq. lia.
  - eapply returns_element; [done|]. cbn [Nat.eqb negb]. variables. split_and!; [done..|].
    right; right. split; [done|]. by apply Htc.
  - eapply returns_element; [done|]. cbn [Nat.eqb negb]. variables. split_and!; [done..|]. by left.
Qed.

(** The nodes of a walk that ends at a root are marked. *)
Lemma mark_walk l s (Q : unit -> State -> Prop) :
  length (state s) = n -> (forall x, x ∈ l -> x < n) ->
  (forall s', walk s' = walk s -> length (state s') = n ->
    (forall x, x < n -> state s' !! x = if decide (x ∈ l) then Some 2 else state s !! x) -> Q tt s') ->
  returns (for_each (fun at_ => set_state at_ 2) l) Q s.
Proof.
  revert s. induction l as [|x l IH]; intros s Hl Hin HQ.
  - apply HQ; [done|done|]. intros x _. by rewrite decide_False by (intros Hx; by apply elem_of_nil in Hx).
  - assert (x < n) as Hx by (apply Hin, list_elem_of_here). cbn [for_each]. variables. apply set_state_run; [lia|].
    apply IH; cbn; [by rewrite length_insert|intros y Hy; apply Hin; by apply list_elem_of_further|].
    intros s' Hw Hl' Hs. apply HQ; [done..|]. intros y Hy. rewrite Hs by done. destruct (decide (y ∈ l)) as [Hyl|Hyl].
    + by rewrite decide_True by by apply list_elem_of_further.
    + destruct (decide (x = y)) as [->|Hne].
      * rewrite list_lookup_insert_eq by lia. by rewrite decide_True by apply list_elem_of_here.
      * rewrite list_lookup_insert_ne by done. rewrite decide_False; [done|]. by intros [->|?]%elem_of_cons.
Qed.

(** Between the walks the marks are 0 and 2; the start nodes are 2. *)
Definition rooted (k : nat) (s : State) : Prop := marked s /\ walk s = [] /\ forall x, x < k -> sn up x.

(** After a walk that ends at a root. *)
Lemma walk_rooted start s (Q : option nat -> State -> Prop) :
  walked start s -> sn up (node s) -> (forall x, x < start -> sn up x) ->
  (forall s', rooted (S start) s' -> Q None s') ->
  returns (let? l := gets walk in
    modify (fun s => mk_State (state s) [] (node s)) ;;;
    for_each (fun at_ => set_state at_ 2) l ;;;
    ret None) Q s.
Proof.
  intros ((Hl & Hnd & Hin & Hs) & Hn & Hrtc & Hst & _) Hsn Hk HQ. variables.
  assert (forall x, x ∈ walk s -> sn up x) as Hwsn.
  { intros x Hx. eapply sn_back; [apply up_unique|by apply Hrtc|done]. }
  apply mark_walk; [done..|]. intros s' Hw' Hl' Hs'. cbn in Hw', Hs'. variables. apply HQ. split_and!; [|done|].
  - split_and!; [done|rewrite Hw'; constructor|rewrite Hw'; by intros x Hx%elem_of_nil|]. intros x Hx.
    assert (x ∉ walk s') as Hno by (rewrite Hw'; by intros Hnil%elem_of_nil). rewrite Hs' by done. case_decide as Hxw.
    + right; right. split_and!; [done..|by apply Hwsn].
    + destruct (Hs x Hx) as [[? ?]|[[? ?]|(? & ? & ?)]]; tauto.
  - intros x Hx. destruct (decide (x = start)) as [->|]; [|apply Hk; lia].
    destruct Hst as [->|Hst]; [done|by apply Hwsn].
Qed.

Lemma start_step_run start s :
  rooted start s -> start < n ->
  returns (start_step parents start) (fun r s' =>
    match r with Some x => x < n /\ tc up x x | None => rooted (S start) s' end) s.
Proof.
  intros (Hm & Hw & Hk) Hn. unfold start_step. variables.
  eapply (returns_turns _ (walking start) (fun s => n - length (walk s))).
  { split_and!; [done|done| |by left]. cbn. rewrite Hw. by intros x Hx%elem_of_nil. }
  { cbn. lia. }
  intros s1 Hs1. eapply returns_mono; [by apply walk_turn_run|]. intros [[]|] s2.
  2:{ intros [Hs2 Hlen]. split; [done|]. destruct Hs2 as ((_ & Hnd & Hin & _) & _). pose proof (nodes_bound n _ Hnd Hin). lia. }
  intros Hs2. pose proof Hs2 as (_ & Hn2 & _ & _ & Hend). variables.
  destruct Hend as [[H2 Hsn]|[[H1 Hroot]|[H1 Htc]]]; (eapply returns_element; [done|]); variables;
    (apply parent_of_run; [done|]); intros r Hr; cbn [Nat.eqb andb].
  - apply (walk_rooted start); [done..|]. by intros s' Hs'.
  - assert (sn up (node s2)) as Hsn by (constructor; intros y Hy; by destruct (Hroot y)).
    destruct r as [y|]; [by destruct (Hroot y)|]. rewrite bool_decide_false by (by intros []). apply (walk_rooted start); [done..|].
    by intros s' Hs'.
  - destruct r as [y|]; [by rewrite bool_decide_true by by eexists; variables|].
    inversion Htc as [? ? Hxy|? y ? Hxy _]; subst; exfalso; by eapply Hr.
Qed.

Lemma forest_cycle_run :
  exists r, forest_cycle parents = Ok r /\
    match r with Some x => x < n /\ tc up x x | None => forall x, ~ tc up x x end.
Proof.
  apply (returns_fst _ (fun r => match r with Some x => x < n /\ tc up x x | None => forall x, ~ tc up x x end)).
  eapply (returns_each _ (fun done => rooted (length done))).
  - split_and!; [|done|cbn; lia]. split_and!; cbn; [apply length_replicate|constructor|by intros x Hx%elem_of_nil|].
    intros x Hx. left. split; [by apply lookup_replicate|by intros Hnil%elem_of_nil].
  - intros done start rest s [-> Hn]%seq_prefix Hs. eapply returns_mono; [by apply start_step_run|].
    intros [x|] s' Hr; [done|]. by rewrite length_app, Nat.add_1_r.
  - rewrite length_seq. intros s (_ & _ & Hall) x Hx. apply (sn_acyclic up x); [|done]. apply Hall.
    inversion Hx as [? ? [Hxy _]|? y ? [Hxy _] _]; subst; by eapply lookup_lt_Some.
Qed.
End forest.
