(* ===== verification/Recursion.v ===== *)
(** * Functions that need [rec]

    [check_graph] of [src/src/recursion.rs]: the strongly connected components of the reference graph by Kosaraju's
    algorithm, and the first function of a cycle without its marker. Of a [CheckedFunction] the code uses
    the span; the message is not modelled. A stack is a list whose head is the top. *)
From stdpp Require Export gmap.
From S2P Require Import Prelude Syntax.
From S2P Require Export Faults.
Local Open Scope nat_scope.
Local Open Scope monad_scope.

(** The diagnostic of kind [MissingRecMarker] on a function. *)
Record MissingRecMarker := mk_MissingRecMarker {
  rec_function : nat;
  rec_span : Span }.

(** [reverse[callee].push(caller)] for each edge. *)
Definition reverse_rows (graph : list (list nat)) : Result (list (list nat)) Fault :=
  let body : M Fault (list (list nat)) (list (list nat)) :=
    for_each (fun e =>
      let (caller, edges) := e : nat * list nat in
      for_each (fun callee =>
        let? reverse := gets id in
        let? row := element reverse callee in
        let? reverse := updated reverse callee (row ++ [caller]) in
        modify (fun _ => reverse)) edges) (imap pair graph) ;;;
    gets id in
  fst (body (replicate (length graph) [])).

Module Recursion.

Record State := mk_State {
  visited : gset nat;
  order : list nat;
  stack : list (nat * bool);
  component : list nat;
  next : nat }.

Abbreviation RM := (M Fault State).

(** [visited.insert(node)] *)
Definition insert_visited (node : nat) : RM bool :=
  let? seen := gets visited in
  if decide (node ∈ seen) then ret false
  else
    modify (fun s => mk_State ({[node]} ∪ seen) (order s) (stack s) (component s) (next s)) ;;;
    ret true.

(** [while let Some((node, finishing)) = stack.pop()] *)
Definition visit_turn (graph : list (list nat)) : RM (option unit) :=
  let? l := gets stack in
  match l with
  | [] => ret (Some tt)
  | (node, finishing) :: l =>
    modify (fun s => mk_State (visited s) (order s) l (component s) (next s)) ;;;
    if finishing : bool then
      modify (fun s => mk_State (visited s) (order s ++ [node]) (stack s) (component s) (next s)) ;;;
      ret None
    else
      let? fresh := insert_visited node in
      if fresh : bool then
        let? row := element graph node in
        modify (fun s => mk_State (visited s) (order s)
          (rev ((fun next => (next, false)) <$> rev row) ++ (node, true) :: stack s) (component s) (next s)) ;;;
        ret None
      else ret None
  end.

Definition visit_root (graph : list (list nat)) (root : nat) : RM unit :=
  modify (fun s => mk_State (visited s) (order s) [(root, false)] (component s) (next s)) ;;;
  turns (length graph + length (concat graph) + 2) (visit_turn graph).

Definition push_caller (caller : nat) : RM unit :=
  let? fresh := insert_visited caller in
  if fresh : bool
  then modify (fun s => mk_State (visited s) (order s) (stack s) (component s ++ [caller]) (next s))
  else ret tt.

(** [while next < component.len()] *)
Definition collect_turn (reverse : list (list nat)) : RM (option unit) :=
  let? component := gets component in
  let? next := gets next in
  match component !! next with
  | None => ret (Some tt)
  | Some member =>
    let? callers := element reverse member in
    for_each push_caller callers ;;;
    modify (fun s => mk_State (visited s) (order s) (stack s) (Recursion.component s) (Recursion.next s + 1)) ;;;
    ret None
  end.

(** One component; a value is the error that the function returns. *)
Definition root_step (functions : list Span) (graph reverse : list (list nat)) (requires_rec : nat -> bool) (root : nat)
    : RM (option MissingRecMarker) :=
  let? fresh := insert_visited root in
  if negb fresh then ret None
  else
    modify (fun s => mk_State (visited s) (order s) (stack s) [root] 0) ;;;
    turns (length graph + 1) (collect_turn reverse) ;;;
    let? component := gets component in
    let? row := element graph root in
    if (1 <? length component) || bool_decide (root ∈ row) then
      each (fun id =>
        if requires_rec id then
          let? span := element functions id in
          ret (Some (mk_MissingRecMarker id span))
        else ret None) component
    else ret None.

Definition search (functions : list Span) (graph reverse : list (list nat)) (requires_rec : nat -> bool)
    : RM (option MissingRecMarker) :=
  for_each (visit_root graph) (seq 0 (length graph)) ;;;
  modify (fun s => mk_State ∅ (order s) (stack s) (component s) (next s)) ;;;
  let? order := gets order in
  each (root_step functions graph reverse requires_rec) (rev order).

End Recursion.

Definition check_graph (functions : list Span) (graph : list (list nat)) (requires_rec : nat -> bool)
    : Result (Result unit MissingRecMarker) Fault :=
  match reverse_rows graph with
  | Err e => Err e
  | Ok reverse =>
    match fst (Recursion.search functions graph reverse requires_rec (Recursion.mk_State ∅ [] [] [] 0)) with
    | Err e => Err e
    | Ok None => Ok (Ok tt)
    | Ok (Some e) => Ok (Err e)
    end
  end.
