(* ===== verification/RecursionLaws.v ===== *)
(** * Kosaraju's algorithm finds the functions on cycles

    The first search gives an order in which each component ends after the components that it reaches ([graded]); the
    second then collects exactly one component from each root. *)
From stdpp Require Import gmap sets relations.
From S2P Require Import Prelude Syntax Digraph DigraphLaws BfsLaws PathLaws TarjanLaws.
From S2P Require Import Recursion.
Local Open Scope nat_scope.
Local Open Scope monad_scope.
Import Recursion.

Section search.
Context (graph : list (list nat)) (Hc : closed_rows graph).

Abbreviation nodes := (length graph).
Abbreviation R := (edge graph).
Abbreviation reach := (rtc R).

Definition mutual (x y : nat) : Prop := reach x y /\ reach y x.

Lemma mutual_sym x y : mutual x y -> mutual y x.
Proof. by intros [H1 H2]. Qed.

Lemma mutual_trans x y z : mutual x y -> mutual y z -> mutual x z.
Proof. intros [H1 H2] [H3 H4]. split; by eapply rtc_trans. Qed.

Lemma graph_row x : x < nodes -> graph !! x = Some (row_at graph x).
Proof. intros Hx. unfold row_at. by destruct (lookup_lt_is_Some_2 graph x Hx) as [row ->]. Qed.

(** ** The first search *)

(** The nodes of the frames that are not finished. *)
Definition grays (stack : list (nat * bool)) : list nat := fst <$> filter (fun e => snd e = true) stack.

(** Every entry of the stack is a successor of the frame below it. *)
Fixpoint nested (stack : list (nat * bool)) : Prop :=
  match stack with
  | [] => True
  | (v, _) :: below => match grays below with p :: _ => R p v | [] => True end /\ nested below
  end.

(** A node of a prefix that reaches a later node has a node of its own component later. *)
Definition graded (l : list nat) : Prop :=
  forall before after x y, l = before ++ after -> x ∈ before -> reach x y -> y ∉ before -> exists z, z ∉ before /\ mutual x z.

Record VisitInv (s : State) : Prop := {
  visit_nodes : forall e, e ∈ stack s -> fst e < nodes;
  visit_order_nodes : forall x, x ∈ order s -> x < nodes;
  visit_seen : forall x, x ∈ visited s <-> x ∈ order s \/ x ∈ grays (stack s);
  visit_NoDup : NoDup (order s ++ grays (stack s));
  visit_nested : nested (stack s);
  visit_edges : forall x y, x ∈ order s -> R x y -> y ∈ order s \/ y ∈ grays (stack s);
  visit_pending : forall above v below y, stack s = above ++ (v, true) :: below -> R v y ->
    y ∈ visited s \/ (y, false) ∈ above;
  visit_open : forall x y, x ∈ order s -> reach x y -> y ∉ order s -> exists g, g ∈ grays (stack s) /\ mutual x g;
  visit_graded : graded (order s) }.

Lemma grays_app a b : grays (a ++ b) = grays a ++ grays b.
Proof. unfold grays. by rewrite filter_app, fmap_app. Qed.

Lemma grays_false v l : grays ((v, false) :: l) = grays l.
Proof. unfold grays. by rewrite filter_cons_False. Qed.

Lemma grays_true v l : grays ((v, true) :: l) = v :: grays l.
Proof. unfold grays. by rewrite filter_cons_True. Qed.

(** The frames reach the entries above them. *)
Lemma nested_reach v b below g : nested ((v, b) :: below) -> g ∈ grays below -> reach g v.
Proof.
  revert v b. induction below as [|[u []] below IH]; intros v b [Hv Hn] Hg; [by apply elem_of_nil in Hg|..].
  - rewrite grays_true in Hv, Hg. apply elem_of_cons in Hg as [->|Hg]; [by apply rtc_once|].
    eapply rtc_r; [|done]. by eapply IH.
  - rewrite grays_false in Hv, Hg. apply (IH v false); [|done]. split; [done|]. by destruct Hn.
Qed.

(** A path from finished nodes to another node meets a frame. *)
Lemma leaves (o gs : list nat) x y :
  (forall x y, x ∈ o -> R x y -> y ∈ o \/ y ∈ gs) -> x ∈ o -> reach x y -> y ∉ o ->
  exists g, g ∈ gs /\ reach x g.
Proof.
  intros He Hx Hr Hy. induction Hr as [|x z y HR Hr IH]; [done|]. destruct (He x z Hx HR) as [Hz|Hz].
  - destruct (IH Hz Hy) as (g & Hg & Hzg). exists g. split; [done|]. by eapply rtc_l.
  - exists z. split; [done|by apply rtc_once].
Qed.

Lemma split_true (l : list nat) v below above w below' :
  ((fun x => (x, false)) <$> l) ++ (v, true) :: below = above ++ (w, true) :: below' ->
  (above = ((fun x => (x, false)) <$> l) /\ w = v /\ below' = below) \/
  exists above', above = ((fun x => (x, false)) <$> l) ++ (v, true) :: above' /\ below = above' ++ (w, true) :: below'.
Proof.
  revert above. induction l as [|x l IH]; intros [|e above] Heq; cbn in *; simplify_eq.
  - by left.
  - right. by exists above.
  - destruct (IH above) as [(-> & -> & ->)|(above' & -> & ->)]; [done|by left|right; by exists above'].
Qed.

Lemma fmap_reverse_rows (l : list nat) : ((fun x => (x, false)) <$> l) = rev ((fun x => (x, false)) <$> rev l).
Proof. induction l as [|x l IH]; [done|]. cbn. rewrite fmap_app, rev_app_distr. cbn. by rewrite <- IH. Qed.

(** *** The three turns *)

Section turns.
Context (s : State) (Hs : VisitInv s).

(** An entry that was visited meanwhile is dropped. *)
Lemma drop_inv v below :
  stack s = (v, false) :: below -> v ∈ visited s ->
  VisitInv (mk_State (visited s) (order s) below (component s) (next s)).
Proof.
  intros Hst Hv. destruct Hs as [H1 H2 H3 H4 H5 H6 H7 H8 H9]. rewrite Hst in *. rewrite grays_false in *.
  split; cbn [stack visited order]; try done.
  - intros e He. apply H1. by apply list_elem_of_further.
  - by destruct H5.
  - intros above w below' y -> HR. destruct (H7 ((v, false) :: above) w below' y) as [Hy|Hy]; [done..|by left|].
    apply elem_of_cons in Hy as [Heq|Hy]; [simplify_eq; by left|by right].
Qed.

Lemma nested_entries v l below :
  (forall x, x ∈ l -> R v x) -> nested ((v, true) :: below) -> nested (((fun x => (x, false)) <$> l) ++ (v, true) :: below).
Proof.
  intros Hl Hn. induction l as [|x l IH]; [done|]. cbn [fmap list_fmap app nested]. split; [|apply IH; set_solver].
  rewrite grays_app, grays_true.
  assert (grays ((fun x => (x, false)) <$> l) = []) as ->; [|apply Hl; set_solver].
  clear. induction l as [|x l IH]; [done|]. cbn [fmap list_fmap]. by rewrite grays_false.
Qed.

Lemma grays_entries l : grays ((fun x => (x, false)) <$> l) = [].
Proof. induction l as [|x l IH]; [done|]. cbn [fmap list_fmap]. by rewrite grays_false. Qed.

(** A new node becomes a frame, with its successors above it. *)
Lemma open_inv v below :
  stack s = (v, false) :: below -> v ∉ visited s ->
  VisitInv (mk_State ({[v]} ∪ visited s) (order s) (((fun x => (x, false)) <$> row_at graph v) ++ (v, true) :: below)
    (component s) (next s)).
Proof.
  intros Hst Hv. destruct Hs as [H1 H2 H3 H4 H5 H6 H7 H8 H9]. rewrite Hst in *. rewrite grays_false in *.
  assert (forall x, x ∈ row_at graph v -> R v x) as Hrow by (intros x; by apply edge_row_at).
  split; cbn [stack visited order]; rewrite ?grays_app, ?grays_entries, ?grays_true; cbn [app].
  - intros e [(x & -> & Hx%Hrow)%list_elem_of_fmap|[->|He]%elem_of_cons]%elem_of_app.
    + by eapply edge_closed in Hx as [_ ?].
    + apply (H1 (v, false)). set_solver.
    + apply H1. by apply list_elem_of_further.
  - done.
  - intros x. rewrite elem_of_union, elem_of_singleton, H3, elem_of_cons. tauto.
  - rewrite <- Permutation_middle. apply NoDup_cons. split; [|done]. rewrite elem_of_app, <- H3. done.
  - by apply nested_entries.
  - intros x y Hx HR. rewrite elem_of_cons. destruct (H6 x y Hx HR); tauto.
  - intros above w below' y Heq HR. apply split_true in Heq as [(-> & -> & ->)|(above' & -> & ->)].
    + right. apply list_elem_of_fmap_2 with (f := fun x => (x, false)). by apply edge_row_at.
    + destruct (H7 ((v, false) :: above') w below' y) as [Hy|Hy]; [done..|left; set_solver|].
      apply elem_of_cons in Hy as [Heq|Hy]; [simplify_eq; left; set_solver|right; set_solver].
  - intros x y Hx Hr Hy. destruct (H8 x y) as (g & Hg & Hm); [done..|]. exists g. split; [|done]. by apply list_elem_of_further.
  - done.
Qed.

(** A frame whose successors are all visited is finished. *)
Lemma close_inv v below :
  stack s = (v, true) :: below ->
  VisitInv (mk_State (visited s) (order s ++ [v]) below (component s) (next s)).
Proof.
  intros Hst. destruct Hs as [H1 H2 H3 H4 H5 H6 H7 H8 H9]. rewrite Hst in *. rewrite grays_true in *.
  assert (NoDup ((order s ++ [v]) ++ grays below)) as Hnd by by rewrite <- app_assoc.
  assert (forall x, (x ∈ order s ++ [v]) <-> x ∈ order s \/ x = v) as Hin by (intros x; by rewrite elem_of_app, list_elem_of_singleton).
  assert (forall x y, x ∈ order s ++ [v] -> R x y -> y ∈ order s ++ [v] \/ y ∈ grays below) as He.
  { intros x y Hx HR. rewrite Hin. apply Hin in Hx as [Hx| ->].
    - destruct (H6 x y Hx HR) as [|Hy%elem_of_cons]; tauto.
    - destruct (H7 [] v below y) as [Hy|Hy]; [done..| |by apply elem_of_nil in Hy].
      apply H3 in Hy as [Hy|Hy%elem_of_cons]; tauto. }
  assert (forall y, reach v y -> y ∉ order s ++ [v] -> exists g, g ∈ grays below /\ mutual v g) as Hv.
  { intros y Hr Hy. destruct (leaves (order s ++ [v]) (grays below) v y) as (g & Hg & Hvg); [done|apply Hin; by right|done..|].
    exists g. split; [done|]. split; [done|]. by eapply nested_reach. }
  assert (forall x y, x ∈ order s ++ [v] -> reach x y -> y ∉ order s ++ [v] -> exists g, g ∈ grays below /\ mutual x g) as Hopen.
  { intros x y Hx Hr Hy. apply Hin in Hx as [Hx| ->]; [|by eapply Hv].
    destruct (H8 x y) as (g & Hg & Hm); [done..|by rewrite Hin in Hy; tauto|].
    apply elem_of_cons in Hg as [->|Hg]; [|by exists g]. destruct (Hv y) as (g & Hg & Hvg); [|done|].
    - eapply rtc_trans; [apply Hm|done].
    - exists g. split; [done|]. by eapply mutual_trans. }
  split; cbn [stack visited order]; try done.
  - intros e Hb. apply H1. by apply list_elem_of_further.
  - intros x [Hx| ->]%Hin; [by apply H2|]. apply (H1 (v, true)), list_elem_of_here.
  - intros x. rewrite H3, Hin, elem_of_cons. tauto.
  - by destruct H5.
  - intros above w below' y -> HR. destruct (H7 ((v, true) :: above) w below' y) as [Hy|Hy]; [done..|by left|].
    apply elem_of_cons in Hy as [Heq|Hy]; [done|by right].
  - intros before after x y Heq Hx Hr Hy. destruct after as [|u after _] using rev_ind.
    + rewrite app_nil_r in Heq. subst before. destruct (Hopen x y) as (g & Hg & Hm); [done..|]. exists g. split; [|done].
      apply NoDup_app in Hnd as (_ & Hnd & _). intros Hgo. by apply (Hnd g).
    + rewrite app_assoc in Heq. apply app_inj_tail in Heq as [Heq _]. by eapply H9.
Qed.
End turns.

Definition visit_work (s : State) : nat := length (stack s) + remaining graph (elements (visited s)).

Lemma remaining_ext o o' : (forall x, (x ∈ o) <-> x ∈ o') -> remaining graph o = remaining graph o'.
Proof. intros Ho. unfold remaining. apply sum_ext. intros x _. apply decide_ext. apply Ho. Qed.

Lemma visit_turn_run s :
  VisitInv s ->
  returns (visit_turn graph) (fun r s' =>
    match r with
    | Some _ => s' = s /\ stack s = []
    | None => VisitInv s' /\ visit_work s' < visit_work s /\ forall x, x ∈ visited s \/ head (stack s) = Some (x, false) -> x ∈ visited s'
    end) s.
Proof.
  intros Hs. unfold visit_turn. variables. destruct (stack s) as [|[v []] below] eqn:Hst; [by variables|variables..].
  - split; [exact (close_inv s Hs v below Hst)|]. split; [unfold visit_work; cbn; rewrite Hst; cbn; lia|]. cbn. by intros x [Hx|Hx].
  - unfold insert_visited. variables. cbn [visited].
    assert (v < nodes) as Hv by (apply (visit_nodes s Hs (v, false)); rewrite Hst; apply list_elem_of_here).
    destruct (decide (v ∈ visited s)) as [Hin|Hin]; variables.
    + split; [exact (drop_inv s Hs v below Hst Hin)|]. split; [unfold visit_work; cbn; rewrite Hst; cbn; lia|]. cbn. intros x [Hx|[= ->]]; done.
    + eapply returns_element; [by apply graph_row|]. variables. cbn [visited order stack component next].
      rewrite <- fmap_reverse_rows. split; [exact (open_inv s Hs v below Hst Hin)|]. split.
      * unfold visit_work; cbn. rewrite Hst, length_app, length_fmap. cbn [length].
        rewrite (remaining_discover graph (elements (visited s)) v) by (done || by rewrite elem_of_elements).
        unfold degree. rewrite (remaining_ext (elements (visited s) ++ [v]) (elements ({[v]} ∪ visited s))); [lia|].
        intros x. rewrite elem_of_app, list_elem_of_singleton, !elem_of_elements. set_solver.
      * cbn. intros x [Hx|[= ->]]; set_solver.
Qed.

Definition visited_below (k : nat) (s : State) : Prop := VisitInv s /\ stack s = [] /\ forall x, x < k -> x ∈ visited s.

Lemma root_entry s root : VisitInv s -> stack s = [] -> root < nodes ->
  VisitInv (mk_State (visited s) (order s) [(root, false)] (component s) (next s)).
Proof.
  intros [H1 H2 H3 H4 H5 H6 H7 H8 H9] Hst Hr. rewrite Hst in *. split; cbn [stack visited order]; try done.
  - by intros e ->%list_elem_of_singleton.
  - intros [|e above] v below y Heq; [done|]. by destruct above.
Qed.

Lemma visit_root_run k s (Q : unit -> State -> Prop) :
  visited_below k s -> k < nodes -> (forall s', visited_below (S k) s' -> Q tt s') -> returns (visit_root graph k) Q s.
Proof.
  intros (Hs & Hst & Hk) Hn HQ. unfold visit_root. variables.
  eapply (returns_turns _ (fun s' => VisitInv s' /\ (forall x, x ∈ visited s -> x ∈ visited s') /\
    (head (stack s') = Some (k, false) \/ k ∈ visited s')) visit_work).
  - split_and!; [by apply root_entry|done|by left].
  - unfold visit_work. cbn. pose proof (remaining_bound graph (elements (visited s))). lia.
  - intros s1 (Hs1 & Hsub & Hroot). eapply returns_mono; [by apply visit_turn_run|]. intros [[]|] s2.
    + intros [-> Hst1]. apply HQ. split_and!; [done..|]. rewrite Hst1 in Hroot. destruct Hroot as [|Hroot]; [done|].
      intros x Hx. destruct (decide (x = k)) as [->|]; [done|]. apply Hsub, Hk. lia.
    + intros (Hs2 & Hw & Hsub2). split; [|done]. split_and!; [done|intros x Hx; apply Hsub2; left; by apply Hsub|].
      right. apply Hsub2. destruct Hroot; [by right|by left].
Qed.

(** ** The second search *)

Definition union_of_components (V : gset nat) : Prop := forall x y, x ∈ V -> mutual x y -> y ∈ V.

(** What the first search gives. *)
Definition finished_order (o : list nat) : Prop :=
  graded o /\ NoDup o /\ forall x, (x ∈ o) <-> x < nodes.

Lemma mutual_node x y : mutual x y -> x < nodes -> y < nodes.
Proof.
  intros [_ Hr] Hx. destruct Hr as [|y z x HR _]; [done|]. by eapply edge_closed in HR as [? _].
Qed.

Lemma visited_below_nil : visited_below 0 (mk_State ∅ [] [] [] 0).
Proof.
  split; [|split; [done|cbn; lia]]. split; cbn; try done.
  - intros e He. by apply elem_of_nil in He.
  - intros x Hx. by apply elem_of_nil in Hx.
  - intros x. rewrite !elem_of_nil. set_solver.
  - apply NoDup_nil_2.
  - intros x y Hx. by apply elem_of_nil in Hx.
  - intros [|]; done.
  - intros x y Hx. by apply elem_of_nil in Hx.
  - intros [|] after x y Heq Hx; [by apply elem_of_nil in Hx|done].
Qed.

(** The end of the first search. *)
Lemma visited_order s : visited_below nodes s -> finished_order (order s).
Proof.
  intros ([H1 H2 H3 H4 H5 H6 H7 H8 H9] & Hst & Hall). rewrite Hst in *. split; [done|]. split.
  - by rewrite app_nil_r in H4.
  - intros x. split; [by apply H2|]. intros Hx. destruct (proj1 (H3 x) (Hall x Hx)) as [|Hx']; [done|by apply elem_of_nil in Hx'].
Qed.

(** A node that is not visited and reaches the next root is in its component. *)
Lemma root_reached o before after V root x :
  finished_order o -> o = before ++ root :: after -> (forall y, y ∈ after -> y ∈ V) -> union_of_components V ->
  x ∉ V -> x < nodes -> reach x root -> mutual x root.
Proof.
  intros (Hg & Hnd & Ho) -> Hafter HV Hx Hxn Hr. pose proof (proj2 (Ho x) Hxn) as Hin.
  apply elem_of_app in Hin as [Hin|[->|Hin]%elem_of_cons]; [|done|by destruct Hx; apply Hafter].
  assert (root ∉ before) as Hrb.
  { apply NoDup_app in Hnd as (_ & Hnd & _). intros Hrb. apply (Hnd root Hrb), list_elem_of_here. }
  destruct (Hg before (root :: after) x root) as (z & Hz & Hm); [done..|].
  assert (z ∈ before ++ root :: after) as [Hzb|[->|Hza]%elem_of_cons]%elem_of_app by by apply Ho, (mutual_node x); done.
  - done.
  - done.
  - destruct Hx. eapply HV; [by apply Hafter|by apply mutual_sym].
Qed.

Context (reverse : list (list nat)) (Hrl : length reverse = nodes).
Hypothesis Hrev : forall x y, y ∈ row_at reverse x <-> R y x.

Section collecting.
Context (V : gset nat) (root : nat) (Hroot : root < nodes) (HrV : root ∉ V).

Record CollectInv (s : State) : Prop := {
  collect_visited : forall x, x ∈ visited s <-> x ∈ V \/ x ∈ component s;
  collect_NoDup : NoDup (component s);
  collect_root : root ∈ component s;
  collect_reach : forall x, x ∈ component s -> x ∉ V /\ x < nodes /\ reach x root;
  collect_next : next s <= length (component s);
  collect_done : forall j x y, component s !! j = Some x -> j < next s -> R y x -> y ∈ visited s }.

Lemma push_caller_run y s (Q : unit -> State -> Prop) :
  CollectInv s -> y < nodes -> reach y root ->
  (forall s', CollectInv s' -> next s' = next s -> order s' = order s -> (component s) `prefix_of` (component s') -> y ∈ visited s' ->
    (forall x, x ∈ visited s -> x ∈ visited s') -> Q tt s') ->
  returns (push_caller y) Q s.
Proof.
  intros Hs Hy Hr HQ. unfold push_caller, insert_visited. variables. destruct (decide (y ∈ visited s)) as [Hin|Hin]; variables.
  - by apply HQ.
  - pose proof Hs as [H1 H2 H3 H4 H5 H6]. assert (y ∉ V /\ y ∉ component s) as [HyV HyC] by (rewrite H1 in Hin; tauto).
    apply HQ; cbn; [|done|done|by eexists|set_solver|set_solver]. split; cbn.
    + intros x. rewrite elem_of_union, elem_of_singleton, H1, elem_of_app, list_elem_of_singleton. tauto.
    + apply NoDup_app. split_and!; [done|by intros x Hx ->%list_elem_of_singleton|apply NoDup_singleton].
    + set_solver.
    + intros x [Hx| ->%list_elem_of_singleton]%elem_of_app; [by apply H4|done].
    + rewrite length_app. lia.
    + intros j x z Hj Hlt HR. apply elem_of_union_r. apply lookup_app_Some in Hj as [Hj|[Hge Hj]]; [by eapply H6|lia].
Qed.

Lemma callers_run l s (Q : unit -> State -> Prop) :
  CollectInv s -> (forall y, y ∈ l -> y < nodes /\ reach y root) ->
  (forall s', CollectInv s' -> next s' = next s -> order s' = order s -> (component s) `prefix_of` (component s') ->
    (forall x, x ∈ visited s \/ x ∈ l -> x ∈ visited s') -> Q tt s') ->
  returns (for_each push_caller l) Q s.
Proof.
  revert s. induction l as [|y l IH]; intros s Hs Hl HQ.
  - apply HQ; [done..|]. intros x [Hx|Hx]; [done|by apply elem_of_nil in Hx].
  - cbn [for_each]. variables. destruct (Hl y) as [Hy Hr]; [apply list_elem_of_here|]. apply push_caller_run; [done..|].
    intros s1 Hs1 Hn1 Ho1 Hp1 Hy1 Hsub1. apply IH; [done|intros z Hz; apply Hl; by apply list_elem_of_further|].
    intros s2 Hs2 Hn2 Ho2 Hp2 Hsub2. apply HQ; [done|congruence|congruence|by etransitivity|].
    intros x [Hx|[->|Hx]%elem_of_cons]; apply Hsub2; [left; by apply Hsub1|by left|by right].
Qed.

Lemma collect_turn_run s :
  CollectInv s ->
  returns (collect_turn reverse) (fun r s' => order s' = order s /\
    match r with
    | Some _ => s' = s /\ length (component s) <= next s
    | None => CollectInv s' /\ next s' = next s + 1 /\ next s < nodes
    end) s.
Proof.
  intros Hs. unfold collect_turn. variables. pose proof Hs as [H1 H2 H3 H4 H5 H6].
  destruct (component s !! next s) as [member|] eqn:Hm; variables; [|split; [done|split; [done|by apply lookup_ge_None]]].
  destruct (H4 member) as (HmV & Hmn & Hmr); [by eapply list_elem_of_lookup_2|].
  assert (reverse !! member = Some (row_at reverse member)) as Hrow.
  { unfold row_at. destruct (lookup_lt_is_Some_2 reverse member) as [row ->]; [by rewrite Hrl|done]. }
  eapply returns_element; [done|]. variables. apply callers_run; [done| |].
  - intros y Hy%Hrev. split; [by eapply edge_closed in Hy as [? _]|]. by eapply rtc_l.
  - intros s' Hs' Hn Ho [tail Htail] Hsub. variables. cbn. split; [done|]. rewrite Hn. split; [|split; [done|]].
    + destruct Hs' as [I1 I2 I3 I4 I5 I6]. apply lookup_lt_Some in Hm as Hlt. split; cbn; try done.
      * rewrite Htail, length_app. lia.
      * intros j x y Hj Hlt' HR. destruct (decide (j = next s)) as [->|Hne].
        -- apply Hsub. right. apply Hrev. rewrite Htail, lookup_app_l in Hj by done. by simplify_eq.
        -- eapply I6; [done|lia|done].
    + pose proof (nodes_bound nodes (component s) H2 (fun x Hx => proj1 (proj2 (H4 x Hx)))) as Hb.
      apply lookup_lt_Some in Hm. lia.
Qed.

(** The nodes that reach the root are collected, through nodes of its component. *)
Lemma collected s :
  CollectInv s -> length (component s) <= next s -> union_of_components V ->
  (forall x, x ∉ V -> x < nodes -> reach x root -> mutual x root) ->
  forall x, x ∈ component s <-> mutual x root.
Proof.
  intros [H1 H2 H3 H4 H5 H6] Hn HV Hroot_reached x. split.
  - intros (HxV & Hx & Hr)%H4. by apply Hroot_reached.
  - intros [Hr Hback]. revert Hback.
    apply (rtc_ind_l (R := R) (fun x => reach root x -> x ∈ component s) root); [done| |done].
    clear x Hr. intros x z HR Hr IH Hback.
    assert (z ∈ component s) as Hz by (apply IH; by eapply rtc_r).
    pose proof Hz as [j Hj]%list_elem_of_lookup. assert (x ∈ visited s) as [HxV|]%H1; [|exfalso|done].
    + eapply H6; [done| |done]. apply lookup_lt_Some in Hj. lia.
    + apply HrV. apply (HV x); [done|]. split; [by eapply rtc_l|done].
Qed.

(** The loop over the worklist ends with the component of the root. *)
Lemma collect_run (Q : unit -> State -> Prop) s :
  CollectInv s -> next s = 0 -> union_of_components V ->
  (forall x, x ∉ V -> x < nodes -> reach x root -> mutual x root) ->
  (forall s', (forall x, x ∈ component s' <-> mutual x root) -> NoDup (component s') -> order s' = order s ->
    (forall x, x ∈ visited s' <-> x ∈ V \/ x ∈ component s') -> Q tt s') ->
  returns (turns (nodes + 1) (collect_turn reverse)) Q s.
Proof.
  intros Hs Hn HV Hreached HQ.
  eapply (returns_turns _ (fun s' => CollectInv s' /\ order s' = order s) (fun s => nodes - next s)).
  - done.
  - lia.
  - intros s1 [Hs1 Ho1]. eapply returns_mono; [by apply collect_turn_run|]. intros [[]|] s2 [Ho2 H2].
    + destruct H2 as [-> Hlen]. apply HQ; [by apply collected|apply Hs1|done|apply Hs1].
    + destruct H2 as (Hs2 & Hn2 & Hlt). split; [split; [done|congruence]|lia].
Qed.
End collecting.

(** ** The cycles *)

Abbreviation cyclic := (fun x => tc R x x).

Lemma cyclic_mutual x y : mutual x y -> cyclic y -> cyclic x.
Proof. intros [H1 H2] H. eapply tc_rtc_l; [done|]. by eapply tc_rtc_r. Qed.

Lemma cyclic_component root l row :
  graph !! root = Some row -> (forall x, x ∈ l <-> mutual x root) -> NoDup l ->
  (1 <? length l) || bool_decide (root ∈ row) = true <-> cyclic root.
Proof.
  intros Hrow Hl Hnd. assert (root ∈ l) as Hr by by apply Hl. rewrite orb_true_iff, Nat.ltb_lt, bool_decide_eq_true. split.
  - intros [Hlen|Hin]; [|by apply tc_once; exists row].
    assert (exists z, z ∈ l /\ z <> root) as (z & Hz & Hne).
    { destruct l as [|x [|y l]]; cbn in Hlen; [lia..|]. apply NoDup_cons in Hnd as [Hx _].
      destruct (decide (x = root)) as [->|]; [|exists x; split; [apply list_elem_of_here|done]].
      exists y. split; [set_solver|]. intros ->. set_solver. }
    apply Hl in Hz as [H1 H2]. destruct H2 as [|root u z HR H2]; [done|]. eapply tc_rtc_r; [by apply tc_once|]. by eapply rtc_trans.
  - intros Hc'. assert (exists u, R root u /\ reach u root) as (u & HR & Hu).
    { inversion Hc' as [? ? HR|? u ? HR Hu]; subst; [by exists root|]. exists u. split; [done|by apply tc_rtc]. }
    destruct (decide (u = root)) as [->|Hne].
    + right. destruct HR as (row' & Hrow' & Hin). by simplify_eq.
    + left. assert (u ∈ l) as Hul by (apply Hl; split; [done|by apply rtc_once]).
      destruct l as [|x [|y l]]; cbn; [by apply elem_of_nil in Hr| |lia].
      apply list_elem_of_singleton in Hr, Hul. congruence.
Qed.

(** ** The loop over the roots *)

(** The roots that are done are visited, with their components. *)
Definition RootsDone (done : list nat) (s : State) : Prop :=
  (forall x, x ∈ done -> x ∈ visited s) /\ union_of_components (visited s).

(** The component of a root that is not visited. *)
Lemma component_run o before after_ root s (Q : unit -> State -> Prop) :
  finished_order o -> o = before ++ root :: rev after_ -> RootsDone after_ s -> root ∉ visited s ->
  (forall s', (forall x, x ∈ component s' <-> mutual x root) -> NoDup (component s') -> RootsDone (after_ ++ [root]) s' ->
    (forall x, x ∈ visited s' <-> x ∈ visited s \/ x ∈ component s') -> Q tt s') ->
  returns (turns (nodes + 1) (collect_turn reverse)) Q (mk_State ({[root]} ∪ visited s) (order s) (stack s) [root] 0).
Proof.
  intros Ho Heq [H1 H2] Hin HQ. assert (root < nodes) as Hroot by (apply Ho; rewrite Heq; set_solver).
  assert (forall x, x ∉ visited s -> x < nodes -> reach x root -> mutual x root) as Hreached.
  { intros x. eapply root_reached; [done..| |done]. intros y Hy. by apply H1, (elem_of_rev after_). }
  eapply (collect_run (visited s) root); [done|done| |done..|].
  { split; cbn; try done.
    - intros x. rewrite elem_of_union, elem_of_singleton, list_elem_of_singleton. tauto.
    - apply NoDup_singleton.
    - apply list_elem_of_here.
    - by intros x ->%list_elem_of_singleton.
    - lia.
    - intros [|j]; [lia|done]. }
  intros s' Hcomp Hnd _ Hvis. apply HQ; [done..| |done]. split.
  - intros x [Hx| ->%list_elem_of_singleton]%elem_of_app; apply Hvis; [left; by apply H1|right; by apply Hcomp].
  - intros x y [Hx|Hx]%Hvis Hxy; apply Hvis; [left; by eapply H2|right]. apply Hcomp in Hx. apply Hcomp.
    eapply mutual_trans; [by apply mutual_sym|done].
Qed.

Context (functions : list Span) (requires_rec : nat -> bool) (Hf : length functions = nodes).

Definition marked (V : gset nat) : Prop := forall x, x ∈ V -> cyclic x -> requires_rec x = false.

Record RootInv (done : list nat) (s : State) : Prop := {
  roots_done : forall x, x ∈ done -> x ∈ visited s;
  roots_union : union_of_components (visited s);
  roots_marked : marked (visited s) }.

Definition unmarked (e : MissingRecMarker) : Prop :=
  cyclic (rec_function e) /\ requires_rec (rec_function e) = true /\ functions !! rec_function e = Some (rec_span e).

Lemma report_run (l : list nat) (s : State) :
  (forall x, x ∈ l -> x < nodes /\ cyclic x) ->
  returns (each (fun id =>
    if requires_rec id then
      let? span := element functions id in
      ret (Some (mk_MissingRecMarker id span))
    else ret None) l) (fun r s' => s' = s /\ match r with Some e => unmarked e | None => forall x, x ∈ l -> requires_rec x = false end) s.
Proof.
  intros Hl. eapply (returns_each _ (fun l (s' : State) => s' = s /\ forall x, x ∈ l -> requires_rec x = false)).
  - split; [done|]. intros x Hx. by apply elem_of_nil in Hx.
  - intros l1 x l2 s1 -> [-> H1]. destruct (Hl x) as [Hx Hcx]; [set_solver|]. destruct (requires_rec x) eqn:Hr.
    + variables. destruct (lookup_lt_is_Some_2 functions x) as [span Hspan]; [by rewrite Hf|].
      eapply returns_element; [done|]. by variables.
    + variables. split; [done|]. intros y [Hy| ->%list_elem_of_singleton]%elem_of_app; [by apply H1|done].
  - done.
Qed.

Lemma root_step_run o before after_ root s :
  finished_order o -> o = before ++ root :: rev after_ -> RootInv after_ s ->
  returns (root_step functions graph reverse requires_rec root) (fun r s' =>
    match r with Some e => unmarked e | None => RootInv (after_ ++ [root]) s' end) s.
Proof.
  intros Ho Heq [H1 H2 H3]. pose proof Ho as (_ & _ & Hnodes).
  assert (root < nodes) as Hroot by (apply Hnodes; rewrite Heq; set_solver).
  unfold root_step, insert_visited. variables. destruct (decide (root ∈ visited s)) as [Hin|Hin]; variables.
  { cbn. variables. split; [|done..]. intros x [Hx| ->%list_elem_of_singleton]%elem_of_app; [by apply H1|done]. }
  cbn [negb]. variables. apply (component_run o before after_ root s); [done|done|by split|done|].
  intros s' Hcomp Hnd [H1' H2'] Hvis. variables. eapply returns_element; [by apply graph_row|]. variables.
  pose proof (cyclic_component root (component s') (row_at graph root) (graph_row root Hroot) Hcomp Hnd) as Hcyc.
  assert ((forall x, x ∈ component s' -> cyclic x -> requires_rec x = false) -> RootInv (after_ ++ [root]) s') as Hnext.
  { intros Hm. split; [done..|]. intros x [Hx|Hx]%Hvis; [by apply H3|by apply Hm]. }
  destruct ((1 <? length (component s')) || bool_decide (root ∈ row_at graph root)).
  - assert (forall x, x ∈ component s' -> x < nodes /\ cyclic x) as Hall.
    { intros x Hx%Hcomp. split; [by eapply mutual_node; [apply mutual_sym|]|]. eapply cyclic_mutual; [done|by apply Hcyc]. }
    eapply returns_mono; [exact (report_run _ _ Hall)|]. intros [e|] s2 [-> He]; [done|]. apply Hnext. intros x Hx _. by apply He.
  - variables. apply Hnext. intros x Hx%Hcomp Hcx. exfalso.
    assert (cyclic root) as Hcr by (eapply cyclic_mutual; [by apply mutual_sym|done]). by apply Hcyc in Hcr.
Qed.

Lemma roots_run o s :
  finished_order o -> visited s = ∅ ->
  returns (each (root_step functions graph reverse requires_rec) (rev o)) (fun r _ =>
    match r with Some e => unmarked e | None => forall x, x < nodes -> cyclic x -> requires_rec x = false end) s.
Proof.
  intros Ho Hs. eapply (returns_each _ RootInv).
  - split; rewrite Hs; [intros x Hx; by apply elem_of_nil in Hx|intros x y Hx; set_solver|intros x Hx; set_solver].
  - intros l1 x l2 s1 Heq Hs1. assert (o = rev l2 ++ x :: rev l1) as Ho'.
    { rewrite <- (rev_involutive o), Heq, rev_app_distr. cbn. by rewrite <- app_assoc. }
    eapply returns_mono; [exact (root_step_run o (rev l2) l1 x s1 Ho Ho' Hs1)|]. by intros [e|] s2 H2.
  - intros s1 [H1 _ H3] x Hx Hcx. apply H3; [|done]. apply H1, (elem_of_rev o). by apply Ho.
Qed.

Lemma search_run :
  returns (search functions graph reverse requires_rec) (fun r _ =>
    match r with Some e => unmarked e | None => forall x, x < nodes -> cyclic x -> requires_rec x = false end)
    (mk_State ∅ [] [] [] 0).
Proof.
  unfold search. variables. eapply (returns_for_each _ (fun l => visited_below (length l))).
  - exact visited_below_nil.
  - intros l1 x l2 s Heq Hs. destruct (seq_prefix _ _ _ _ Heq) as [-> Hx]. eapply visit_root_run; [done|done|].
    intros s' Hs'. rewrite length_app. cbn [length]. by rewrite Nat.add_1_r.
  - intros s Hs. rewrite length_seq in Hs. variables. apply roots_run; [exact (visited_order s Hs)|done].
Qed.
End search.

(** ** The reversed graph *)

Definition reversed_below (graph : list (list nat)) (done : list (nat * nat)) (reverse : list (list nat)) : Prop :=
  length reverse = length graph /\ forall x y, y ∈ row_at reverse x <-> (y, x) ∈ done.

Lemma reverse_callee graph done caller callee reverse (Q : unit -> list (list nat) -> Prop) :
  reversed_below graph done reverse -> callee < length graph ->
  (forall reverse, reversed_below graph (done ++ [(caller, callee)]) reverse -> Q tt reverse) ->
  returns (let? reverse := gets id in
    let? row := element reverse callee in
    let? reverse := updated reverse callee (row ++ [caller]) in
    modify (fun _ => reverse)) Q reverse.
Proof.
  intros [Hl Hd] Hc HQ. variables. destruct (lookup_lt_is_Some_2 reverse callee) as [row Hrow]; [by rewrite Hl|].
  eapply returns_element; [exact Hrow|]. variables. eapply returns_updated; [unfold id; lia|]. variables. apply HQ. split.
  - by rewrite length_insert.
  - intros x y. rewrite elem_of_app, list_elem_of_singleton, <- Hd. unfold id, row_at.
    destruct (decide (x = callee)) as [->|Hne].
    + rewrite list_lookup_insert_eq by lia. rewrite Hrow. cbn. rewrite elem_of_app, list_elem_of_singleton. naive_solver.
    + rewrite list_lookup_insert_ne by done. naive_solver.
Qed.

Lemma reverse_callees graph done caller row reverse (Q : unit -> list (list nat) -> Prop) :
  reversed_below graph done reverse -> (forall callee, callee ∈ row -> callee < length graph) ->
  (forall reverse, reversed_below graph (done ++ (pair caller <$> row)) reverse -> Q tt reverse) ->
  returns (for_each (fun callee =>
    let? reverse := gets id in
    let? row := element reverse callee in
    let? reverse := updated reverse callee (row ++ [caller]) in
    modify (fun _ => reverse)) row) Q reverse.
Proof.
  revert done reverse. induction row as [|callee row IH]; intros done reverse Hd Hrow HQ.
  - apply HQ. by rewrite app_nil_r.
  - apply returns_bind. eapply reverse_callee; [done|apply Hrow, list_elem_of_here|]. intros r1 H1.
    apply (IH (done ++ [(caller, callee)])); [done|intros c Hin; apply Hrow; by apply list_elem_of_further|].
    intros r2 H2. apply HQ. by rewrite <- app_assoc in H2.
Qed.

Lemma reverse_rows_run graph : closed_rows graph ->
  exists reverse, reverse_rows graph = Ok reverse /\ length reverse = length graph /\
    forall x y, y ∈ row_at reverse x <-> edge graph y x.
Proof.
  intros Hc. unfold reverse_rows. apply (returns_fst _ (fun r => length r = length graph /\ _)). variables.
  eapply (returns_for_each _ (fun l => reversed_below graph (concat ((fun e : nat * list nat => pair (fst e) <$> snd e) <$> l)))).
  - split; [by rewrite length_replicate|]. intros x y. split; [|intros Hin; by apply elem_of_nil in Hin]. unfold row_at.
    destruct (replicate _ _ !! x) as [row|] eqn:Hx; [apply lookup_replicate in Hx as [-> _]|]; intros Hin; by apply elem_of_nil in Hin.
  - intros l1 [caller row] l2 s Heq Hs. assert (graph !! caller = Some row) as Hrow.
    { assert ((caller, row) ∈ imap pair graph) as (i & r & Hi & Hg)%elem_of_lookup_imap_1 by (rewrite Heq; set_solver). by simplify_eq. }
    eapply reverse_callees; [done| |].
    + intros callee Hin. eapply edge_closed; [done|by exists row].
    + intros reverse Hd. rewrite fmap_app, concat_app. cbn. by rewrite app_nil_r.
  - intros s [Hl Hs]. variables. split; [done|]. intros x y. unfold id. rewrite Hs, fmap_imap.
    rewrite (elem_of_imap_rows pair graph). split; [by intros (? & ? & ? & [= -> ->])|by intros HR; eexists _, _].
Qed.

(** ** The check *)

Lemma check_graph_run functions graph requires_rec :
  closed_rows graph -> length functions = length graph ->
  exists r, check_graph functions graph requires_rec = Ok r /\
    match r with
    | Ok tt => forall x, x < length graph -> tc (edge graph) x x -> requires_rec x = false
    | Err e => unmarked graph functions requires_rec e
    end.
Proof.
  intros Hc Hf. destruct (reverse_rows_run graph Hc) as (rev & Hr & Hl & Hrev). unfold check_graph. rewrite Hr.
  destruct (returns_fst _ _ _ (search_run graph Hc rev Hl Hrev functions requires_rec Hf)) as (r & -> & H).
  destruct r as [e|]; by eexists.
Qed.
