(* ===== verification/GraphTheorems.v ===== *)
(** * What the graph algorithms compute

    Each theorem is about the edges that a graph was built from: [joins nodes edges] is the relation of the graph. *)
From stdpp Require Import sets relations.
From S2P Require Import Prelude Syntax Digraph Scc Orders Recursion DigraphLaws BfsLaws.
From S2P Require Import PathLaws TarjanSteps TarjanLaws.
From S2P Require Import SccLaws OrdersLaws RecursionLaws.
Local Open Scope nat_scope.
Local Open Scope monad_scope.

Definition joins (nodes : nat) (edges : list (nat * nat)) (x y : nat) : Prop :=
  x < nodes /\ y < nodes /\ (x, y) ∈ edges.

(** The start nodes of a search that are in the graph. *)
Definition begins (nodes : nat) (start : list nat) (x : nat) : Prop := x ∈ start /\ x < nodes.

(** ** Relations with the same edges *)

Section same.
Context {R R' : nat -> nat -> Prop} (HR : forall x y, R x y <-> R' x y).

Lemma same_rtc x y : rtc R x y <-> rtc R' x y.
Proof using HR. split; intros Hr; induction Hr; try done; (eapply rtc_l; [|done]); by apply HR. Qed.

Lemma same_tc x y : tc R x y <-> tc R' x y.
Proof using HR. split; intros Hr; induction Hr; [apply tc_once| |apply tc_once|]; try (eapply tc_l; [|done]); by apply HR. Qed.

Lemma same_numbering n label count : scc_numbering R n label count <-> scc_numbering R' n label count.
Proof using HR. unfold scc_numbering. setoid_rewrite same_rtc. by setoid_rewrite HR. Qed.
End same.

(** The graph of [edges], by its rows. *)
Lemma built nodes edges graph : from_edges nodes edges = Ok graph -> represents graph (rows_of nodes edges).
Proof. intros Hg. destruct (from_edges_rows nodes edges) as (g & Hg' & Hr). congruence. Qed.

Lemma rows_joins nodes edges x y : edge (rows_of nodes edges) x y <-> joins nodes edges x y.
Proof. apply edge_rows_of. Qed.

Lemma rows_sorted nodes edges x row : rows_of nodes edges !! x = Some row -> StronglySorted lt row.
Proof. intros [_ ->]%rows_of_lookup. apply sorted_row, sorted_edges_sorted. Qed.

(** ** Graphs *)

(** [from_edges] does not fail, whatever the edges: it keeps the edges between nodes, each once, and the
    successors of a node come back in strictly ascending order; [has_edge] is membership, for any two numbers;
    [reversed] is the graph of the edges turned around, and turning around twice gives the graph back. *)
Lemma from_edges_graph nodes edges :
  exists graph, from_edges nodes edges = Ok graph /\ len graph = nodes /\
    (forall x, x < nodes -> exists row, fst (successors graph x tt) = Ok row /\ StronglySorted lt row /\
      forall y, y ∈ row <-> joins nodes edges x y) /\
    (forall x y, exists b, fst (has_edge graph x y tt) = Ok b /\ (b = true <-> joins nodes edges x y)) /\
    reversed graph = from_edges nodes ((fun e => (snd e, fst e)) <$> edges) /\
    exists back, reversed graph = Ok back /\ reversed back = Ok graph.
Proof.
  destruct (from_edges_rows nodes edges) as (graph & Hg & Hlen & _ & Hs). exists graph. split; [done|].
  rewrite length_rows_of in Hlen. split_and!; [done|..].
  - intros x Hx. exists (row_of (sorted_edges nodes edges) x). rewrite (Hs _ x _ tt) by by apply rows_of_lookup.
    split_and!; [done|apply sorted_row, sorted_edges_sorted|]. apply elem_of_row_of.
  - intros x y. destruct (has_edge_rows nodes edges graph x y tt Hg) as (b & Hb & Hiff). exists b.
    rewrite Hb, Hiff. split; [done|]. apply rows_joins.
  - by apply reversed_edges.
  - rewrite (reversed_edges _ _ _ Hg). destruct (from_edges_rows nodes ((fun e => (snd e, fst e)) <$> edges)) as (back & Hb & _).
    exists back. split; [done|]. rewrite (reversed_edges _ _ _ Hb). rewrite <- Hg. apply from_edges_ext.
    intros x y _ _. rewrite <- list_fmap_compose, list_elem_of_fmap. split; [|by exists (x, y)].
    by intros ([a b] & [= -> ->] & Hin).
Qed.

(** ** Searches *)

Section searches.
Context (nodes : nat) (edges : list (nat * nat)) (start : list nat).

Abbreviation rows := (rows_of nodes edges).
Abbreviation near_start := (right_visit (joins nodes edges) (begins nodes start)).

Lemma starts_begins x : (x ∈ starts rows [] start) <-> begins nodes start x.
Proof. rewrite elem_of_starts, length_rows_of. unfold begins. split; [tauto|].
  intros [Hx Hn]. split_and!; [done|apply not_elem_of_nil|done].
Qed.

Lemma visit_rows v : right_visit (edge rows) (fun x => x ∈ starts rows [] start) v <-> near_start v.
Proof. apply right_visit_ext; [apply rows_joins|apply starts_begins]. Qed.

Lemma starts_sublist known : starts rows known start `sublist_of` start.
Proof.
  revert known. induction start as [|x l IH]; intros known; cbn [starts]; [done|]. case_decide; [by apply sublist_skip|by apply sublist_cons].
Qed.
End searches.

(** C33: breadth-first search visits the start nodes that are in the graph, in their order, and then the nodes that
    edges reach from them: exactly the nodes within [depth], each once, with its distance and with its least
    predecessor of the layer before; the layers in turn, and in a layer by the parent and then by the node. A limit
    keeps the first visits of this order, the start nodes aside. *)
Theorem bfs_visits nodes edges graph start depth :
  from_edges nodes edges = Ok graph ->
  exists first rest : list Visit,
    (forall limit, bfs graph start depth limit = Ok (first ++ take (N.to_nat limit) rest)) /\
    (forall v, v ∈ first ++ rest <-> visit_depth v <= depth /\ right_visit (joins nodes edges) (begins nodes start) v) /\
    NoDup (visit_node <$> first ++ rest) /\
    (visit_node <$> first) `sublist_of` start /\ (forall v, v ∈ first -> visit_depth v = 0) /\
    StronglySorted visit_lt rest.
Proof.
  intros Hg%built. pose proof (starts_NoDup (rows_of nodes edges) [] start) as Hnd.
  exists (start_visit <$> starts (rows_of nodes edges) [] start),
    (discovered (rows_of nodes edges) depth 1 (starts (rows_of nodes edges) [] start) (starts (rows_of nodes edges) [] start)).
  split_and!.
  - intros limit. by apply bfs_discovered; [|apply closed_rows_of].
  - intros v. rewrite <- (visit_rows nodes edges start). by apply (elem_of_all_visits (rows_of nodes edges)); [apply rows_sorted|].
  - by apply (all_visits_NoDup (rows_of nodes edges)); [apply rows_sorted|].
  - rewrite <- list_fmap_compose. change (visit_node ∘ start_visit) with (@id nat). rewrite list_fmap_id. apply starts_sublist.
  - by intros v (x & -> & _)%list_elem_of_fmap.
  - eapply (discovered_sorted (rows_of nodes edges)); [apply rows_sorted|by apply layered_start].
Qed.

Lemma bfs_visits_witness :
  exists graph first rest,
    (forall limit, bfs graph [0] 2 limit = Ok (first ++ take (N.to_nat limit) rest)) /\
    (forall v, v ∈ first ++ rest <-> visit_depth v <= 2 /\
      right_visit (joins 4 [(0, 2); (0, 1); (2, 3); (1, 3)]) (begins 4 [0]) v) /\
    NoDup (visit_node <$> first ++ rest) /\
    (visit_node <$> first) `sublist_of` [0] /\ (forall v, v ∈ first -> visit_depth v = 0) /\
    StronglySorted visit_lt rest.
Proof. eexists. apply (bfs_visits 4 [(0, 2); (0, 1); (2, 3); (1, 3)] _ [0] 2). vm_compute. reflexivity. Defined.

(** [reaches_beyond] tells whether a search stops short: it is true if and only if some node is at the distance
    [depth + 1] from the start nodes. *)
Lemma reaches_beyond_exact nodes edges graph start depth :
  from_edges nodes edges = Ok graph -> (N.of_nat nodes <= usize_MAX)%N ->
  exists b, reaches_beyond graph start depth = Ok b /\
    (b = true <-> exists x, distance (joins nodes edges) (begins nodes start) (S depth) x).
Proof.
  intros Hg%built Hn. pose proof (starts_NoDup (rows_of nodes edges) [] start) as Hnd.
  set (rows := rows_of nodes edges) in *. set (st := starts rows [] start) in *. set (visits := all_visits rows st depth).
  pose proof (rows_sorted nodes edges : forall x row, rows !! x = Some row -> _) as Hsorted.
  assert (closed_rows rows) as Hc by apply closed_rows_of.
  assert (forall v, v ∈ visits <-> visit_depth v <= depth /\ right_visit (edge rows) (fun x => x ∈ st) v) as Hin.
  { intros v. by apply elem_of_all_visits. }
  assert (forall v, v ∈ visits -> visit_node v < nodes) as Hnodes.
  { intros v [_ [Hd _]]%Hin. destruct (visit_depth v) as [|d].
    - pose proof (proj1 (distance_0 (edge rows) (fun x => x ∈ st) _) Hd) as Hst. by apply starts_begins in Hst as [].
    - apply (distance_pred (edge rows)) in Hd as (m & _ & (_ & ? & _)%rows_joins). done. }
  destruct (reaches_beyond_seen graph rows Hg Hc start depth visits) as (b & Hb & Hiff).
  - rewrite (bfs_discovered graph rows) by done. unfold visits, all_visits. do 2 f_equal. apply take_ge.
    assert (length (visit_node <$> visits) <= nodes) as Hlen.
    { apply nodes_bound; [by apply all_visits_NoDup|]. by intros x (v & -> & Hv)%list_elem_of_fmap; apply Hnodes. }
    unfold visits, all_visits in Hlen. rewrite length_fmap, length_app in Hlen. lia.
  - intros v Hv. unfold rows. rewrite length_rows_of. by apply Hnodes.
  - exists b. split; [done|]. rewrite Hiff. clear b Hb Hiff.
    setoid_rewrite <- (distance_ext _ _ _ _ _ _ (rows_joins nodes edges) (starts_begins nodes edges start)). fold rows st. split.
    + intros (v & x & [_ [Hd _]]%Hin & <- & HR & Hx). exists x. apply (dist_S rows st). split; [by exists (visit_node v)|].
      intros d' Hle Hdx. destruct (visit_exists rows st Hsorted d' x Hnd Hdx) as (p & Hp).
      apply Hx, list_elem_of_fmap. exists (mk_Visit x d' p). split; [done|]. by apply Hin.
    + intros (x & Hx). destruct (distance_pred _ _ _ _ Hx) as (m & Hm & HR).
      destruct (visit_exists rows st Hsorted depth m Hnd Hm) as (p & Hp).
      exists (mk_Visit m depth p), x. split_and!; [by apply Hin|done|done|]. intros (v & -> & Hv)%list_elem_of_fmap.
      apply Hin in Hv as (Hle & Hd & _). pose proof (distance_unique _ _ _ _ _ Hx Hd). lia.
Qed.

Lemma layer_path_ext R R' P P' d p :
  (forall x y, R x y <-> R' x y) -> (forall x, P x <-> P' x) -> layer_path R P d p -> layer_path R' P' d p.
Proof.
  intros HR HP. unfold layer_path, least_parent. setoid_rewrite (distance_ext R R' P P' _ _ HR HP). by setoid_rewrite HR.
Qed.

(** C39: [shortest_path] is a path with the fewest edges, the node at position [i] at distance [i] and each node followed
    from its least predecessor at that distance; it is [None] if and only if no path of at most [depth] edges leads to
    the target, or one of the ends is not a node. *)
Theorem shortest_path_shortest nodes edges graph from to depth :
  from_edges nodes edges = Ok graph ->
  exists r, shortest_path graph from to depth = Ok r /\
    match r with
    | Some p => head p = Some from /\ last p = Some to /\ length p <= depth + 1 /\
      (forall i m x, p !! i = Some m -> p !! (i + 1) = Some x -> joins nodes edges m x) /\
      layer_path (joins nodes edges) (begins nodes [from]) (length p - 1) p
    | None => forall d, d <= depth -> ~ distance (joins nodes edges) (begins nodes [from]) d to
    end.
Proof.
  intros Hg%built. destruct (decide (from < nodes /\ to < nodes)) as [[Hf Ht]|Hout].
  - destruct (shortest_path_found graph (rows_of nodes edges)) with (from := from) (to := to) (depth := depth) as (r & Hr & H);
      [done|apply closed_rows_of|apply rows_sorted|by rewrite length_rows_of..|].
    assert (forall x, x ∈ [from] <-> begins nodes [from] x) as HP.
    { intros x. unfold begins. split; [|tauto]. intros Hx. split; [done|]. by apply list_elem_of_singleton in Hx as ->. }
    exists r. split; [done|]. destruct r as [p|].
    + destruct H as (d & Hd & Hp & Hlast). pose proof (layer_path_ext _ _ _ _ d p (rows_joins nodes edges) HP Hp) as Hl.
      pose proof Hl as (Hlen & Hdist & Hstep). split_and!.
      * destruct p as [|x p]; [done|]. pose proof (proj1 (distance_0 _ _ x) (Hdist 0 x eq_refl)) as [Hx _].
        apply list_elem_of_singleton in Hx. cbn. by subst.
      * done.
      * lia.
      * intros i m x Hm Hx. rewrite Nat.add_1_r in Hx. by destruct (Hstep i m x Hm Hx) as (_ & HR & _).
      * by replace (length p - 1) with d by lia.
    + intros d Hd Hx. apply (H d Hd). by rewrite (distance_ext _ _ _ _ _ _ (rows_joins nodes edges) HP).
  - exists None. split.
    + unfold shortest_path. destruct Hg as [-> _]. rewrite length_rows_of.
      destruct (Nat.leb_spec nodes from), (Nat.leb_spec nodes to); try done. lia.
    + intros d _ [(y & [Hy Hyn] & Hn) _]. apply list_elem_of_singleton in Hy as ->. apply Hout. split; [done|].
      destruct d as [|d]; [by inversion Hn; subst|]. apply nsteps_inv_r in Hn as (m & _ & _ & Hto & _). done.
Qed.

Lemma shortest_path_shortest_witness :
  exists graph r, shortest_path graph 0 3 4 = Ok r /\
    match r with
    | Some p => head p = Some 0 /\ last p = Some 3 /\ length p <= 4 + 1 /\
      (forall i m x, p !! i = Some m -> p !! (i + 1) = Some x -> joins 4 [(0, 2); (0, 1); (2, 3); (1, 3)] m x) /\
      layer_path (joins 4 [(0, 2); (0, 1); (2, 3); (1, 3)]) (begins 4 [0]) (length p - 1) p
    | None => forall d, d <= 4 -> ~ distance (joins 4 [(0, 2); (0, 1); (2, 3); (1, 3)]) (begins 4 [0]) d 3
    end.
Proof. eexists. apply (shortest_path_shortest 4 [(0, 2); (0, 1); (2, 3); (1, 3)] _ 0 3 4). vm_compute. reflexivity. Defined.

(** ** Components *)

(** C27: two nodes have the same number if and only if each reaches the other; a component is numbered before those that
    have an edge into it, without gaps; [components] lists the nodes of each component in ascending order. *)
Theorem strongly_connected_components nodes edges graph :
  from_edges nodes edges = Ok graph -> (N.of_nat nodes <= UNVISITED)%N ->
  exists label count, scc_numbering (joins nodes edges) nodes label count /\
    strongly_connected graph = Ok ((fun x => N.of_nat (label x)) <$> seq 0 nodes) /\
    components ((fun x => N.of_nat (label x)) <$> seq 0 nodes) = Ok (grouped nodes label count).
Proof.
  intros Hg%built Hn. destruct (strongly_connected_run graph (rows_of nodes edges)) as (a & Ha & Hr);
    [done|apply closed_rows_of|by rewrite length_rows_of|].
  rewrite length_rows_of in Hr. exists (comp a), (count a).
  destruct (complete_numbering (rows_of nodes edges) a (closed_rows_of _ _) Ha) as [Hnum _]. rewrite length_rows_of in Hnum.
  split_and!; [by apply (same_numbering (rows_joins nodes edges))|done|].
  destruct Hnum as (_ & _ & Hlt & Hused). by apply components_grouped.
Qed.

Lemma strongly_connected_components_witness :
  exists graph label count, scc_numbering (joins 3 [(0, 1); (1, 0); (1, 2)]) 3 label count /\
    strongly_connected graph = Ok ((fun x => N.of_nat (label x)) <$> seq 0 3) /\
    components ((fun x => N.of_nat (label x)) <$> seq 0 3) = Ok (grouped 3 label count).
Proof.
  eexists. apply (strongly_connected_components 3 [(0, 1); (1, 0); (1, 2)]); [vm_compute; reflexivity|vm_compute; discriminate].
Defined.

(** The search that splits a program into modules and the one of the index agree: on the edges of a graph, as rows
    in ascending order, the components of the first are those of the second, in the same order. *)
Lemma split_same_components nodes edges graph rows :
  from_edges nodes edges = Ok graph -> (N.of_nat nodes <= UNVISITED)%N ->
  collect (successors graph) (seq 0 nodes) tt = (Ok rows, tt) ->
  exists labels groups, strongly_connected graph = Ok labels /\ components labels = Ok groups /\
    Split.strongly_connected rows = Ok groups.
Proof.
  intros Hg%built Hn Hrows. assert (rows = rows_of nodes edges) as ->.
  { rewrite (collect_pure _ (row_of (sorted_edges nodes edges))) in Hrows; [by simplify_eq|].
    intros x [_ Hx]%elem_of_seq. destruct Hg as (_ & _ & Hs). apply Hs, rows_of_lookup. split; [simpl in *; lia|done]. }
  destruct (strongly_connected_run graph (rows_of nodes edges)) as (a & Ha & Hr);
    [done|apply closed_rows_of|by rewrite length_rows_of|].
  destruct (SplitLaws.split_run (rows_of nodes edges)) as (b & Hb & Hs); [apply closed_rows_of|by rewrite length_rows_of|].
  rewrite (complete_unique _ _ _ Hb Ha) in Hs. eexists _, _. split; [done|]. split; [|done].
  destruct (complete_numbering (rows_of nodes edges) a (closed_rows_of _ _) Ha) as [(_ & _ & Hlt & Hused) _].
  by apply components_grouped.
Qed.

(** ** Orders *)

(** C34: [topological_order] is the least one: at each position the least node whose predecessors all come before, so that
    every edge leads forward; it is [None] if and only if the graph has a cycle. *)
Theorem topological_order_least nodes edges graph :
  from_edges nodes edges = Ok graph ->
  exists r, topological_order graph = Ok r /\
    match r with
    | Some o => o ≡ₚ seq 0 nodes /\
      (forall i j x y, o !! i = Some x -> o !! j = Some y -> joins nodes edges x y -> i < j) /\
      (forall i y z, o !! i = Some y -> z < nodes -> z ∉ take i o ->
        (forall x, joins nodes edges x z -> x ∈ take i o) -> y <= z) /\
      forall x, ~ tc (joins nodes edges) x x
    | None => exists x, tc (joins nodes edges) x x
    end.
Proof.
  intros Hg%built. destruct (topological_order_run graph (rows_of nodes edges) Hg (closed_rows_of _ _) (rows_sorted _ _))
    as (r & Hr & H). exists r. split; [done|]. destruct r as [o|].
  - destruct H as [Hp Hperm]. setoid_rewrite <- (same_tc (rows_joins nodes edges)). setoid_rewrite <- rows_joins. split_and!.
    + by rewrite length_rows_of in Hperm.
    + intros i j x y. by apply picks_forward.
    + intros i y z Hi Hz. destruct (Hp i y Hi) as (_ & _ & _ & Hleast). apply Hleast. by rewrite length_rows_of.
    + intros x. apply (picks_acyclic (rows_of nodes edges)) with (o := o); [apply closed_rows_of|done|done].
  - destruct H as (x & Hx). exists x. by apply (same_tc (rows_joins nodes edges)).
Qed.

Lemma topological_order_least_witness :
  exists graph r, topological_order graph = Ok r /\
    match r with
    | Some o => o ≡ₚ seq 0 3 /\
      (forall i j x y, o !! i = Some x -> o !! j = Some y -> joins 3 [(2, 0); (1, 0)] x y -> i < j) /\
      (forall i y z, o !! i = Some y -> z < 3 -> z ∉ take i o ->
        (forall x, joins 3 [(2, 0); (1, 0)] x z -> x ∈ take i o) -> y <= z) /\
      forall x, ~ tc (joins 3 [(2, 0); (1, 0)]) x x
    | None => exists x, tc (joins 3 [(2, 0); (1, 0)]) x x
    end.
Proof. eexists. apply (topological_order_least 3 [(2, 0); (1, 0)]). vm_compute. reflexivity. Defined.

(** [forest_cycle] gives a node that is its own ancestor, if there is one; parents out of range count as roots. *)
Lemma forest_cycle_found parents :
  exists r, forest_cycle parents = Ok r /\
    match r with Some x => x < length parents /\ tc (up parents) x x | None => forall x, ~ tc (up parents) x x end.
Proof. apply forest_cycle_run. Qed.

(** C35: [check_graph] accepts a program if and only if every function that calls itself, directly or through others, is
    free of the obligation; the function of its diagnostic is on a cycle and has no marker. It does not fail. *)
Theorem check_graph_markers functions graph requires_rec :
  closed_rows graph -> length functions = length graph ->
  exists r, check_graph functions graph requires_rec = Ok r /\
    (r = Ok tt <-> forall x, tc (edge graph) x x -> requires_rec x = false) /\
    forall e, r = Err e -> tc (edge graph) (rec_function e) (rec_function e) /\
      requires_rec (rec_function e) = true /\ functions !! rec_function e = Some (rec_span e).
Proof.
  intros Hc Hf. destruct (check_graph_run functions graph requires_rec Hc Hf) as (r & Hr & H). exists r. split; [done|].
  destruct r as [[]|e].
  - split; [|done]. split; [|done]. intros _ x Hx. apply H; [|done]. inversion Hx as [a b HR|a b c HR _]; subst;
      by eapply edge_closed in HR as [? _].
  - split; [|by intros e' [= <-]]. split; [done|]. intros Hall. destruct H as (Hx & Hreq & _). by rewrite Hall in Hreq.
Qed.

Lemma check_graph_markers_witness :
  let graph := [[1]; [2; 0]; []] in let span := mk_Span (uint_wrap 64 0) (uint_wrap 64 1) None in
  exists r, check_graph [span; span; span] graph (fun x => x =? 2) = Ok r /\
    (r = Ok tt <-> forall x, tc (edge graph) x x -> (x =? 2) = false) /\
    forall e, r = Err e -> tc (edge graph) (rec_function e) (rec_function e) /\
      (rec_function e =? 2) = true /\ [span; span; span] !! rec_function e = Some (rec_span e).
Proof.
  apply check_graph_markers; [|reflexivity]. intros [|[|[|x]]] row y Hrow Hy; cbn in Hrow; simplify_eq; cbn.
  all: repeat (apply elem_of_cons in Hy as [->|Hy]; [lia|]); by apply elem_of_nil in Hy.
Defined.
