(* ===== verification/Declarations.v ===== *)
(** * The declarations of types, and the order of types

    The methods of [TypeContext] that read the fields and payloads of an instance, and the marks of a declaration that the
    properties of types ask for, from [src/src/check.rs]. An identifier that no declaration has panics, as an index does.
    So does an instance whose number of arguments is not its declaration's, as the debug assertion of
    [type_parameter_substitutions] does. The derived [Ord] of a type is the order of its [key], the list of its fields
    from the outside in. *)
From stdpp Require Import list strings.
From S2P Require Import Prelude Wire Faults Ordered Utf8 Text Render Report Types Inference.
From S2P Require Import TypeLaws.
Local Open Scope nat_scope.
Local Open Scope monad_scope.
Local Open Scope N_scope.

(** ** Short-circuit tests *)

Section tests.
Context {S A : Type} (test : A -> M Fault S bool).

(** [Iterator::all] *)
Fixpoint all_of (l : list A) : M Fault S bool :=
  match l with
  | [] => ret true
  | x :: l => let? holds := test x in if holds then all_of l else ret false
  end.

(** [Iterator::any] *)
Fixpoint any_of (l : list A) : M Fault S bool :=
  match l with
  | [] => ret false
  | x :: l => let? holds := test x in if holds then ret true else any_of l
  end.
End tests.

Definition negated {S} (m : M Fault S bool) : M Fault S bool := let? b := m in ret (negb b).

(** ** Fields and payloads *)

(** A later parameter of the same name wins, as in a map that is collected. *)
Definition type_parameter_substitutions (parameters : list RString) (arguments : list Ty) : Try (list (RString * Ty)) :=
  if (length parameters =? length arguments)%nat then
    Ok (foldl (fun m entry => map_insert entry.1 entry.2 m) [] (zip parameters arguments))
  else Err Panic.

Definition substitute_type_parameters (ty : Ty) (substitutions : list (RString * Ty)) : Ty := substitute ty substitutions.

Section context.
Context (types : TypeContext).

Definition record_at (id : nat) : Try CheckedRecord := or_panic (records types !! id).
Definition union_at (id : nat) : Try CheckedUnion := or_panic (unions types !! id).

Definition record_fields (id : nat) (arguments : list Ty) : Try (list Ty) :=
  record ← record_at id;
  match arguments with
  | [] => mret (snd <$> CheckedRecord_fields record)
  | _ =>
    substitutions ← type_parameter_substitutions (CheckedRecord_parameters record) arguments;
    mret ((fun field => substitute_type_parameters field.2 substitutions) <$> CheckedRecord_fields record)
  end.

Definition record_field (id : nat) (arguments : list Ty) (field : nat) : Try Ty :=
  record ← record_at id;
  field ← or_panic (CheckedRecord_fields record !! field);
  match arguments with
  | [] => mret field.2
  | _ =>
    substitutions ← type_parameter_substitutions (CheckedRecord_parameters record) arguments;
    mret (substitute_type_parameters field.2 substitutions)
  end.

Definition union_payloads (id : nat) (arguments : list Ty) : Try (list (option Ty)) :=
  union_ ← union_at id;
  match arguments with
  | [] => mret (snd <$> CheckedUnion_cases union_)
  | _ =>
    substitutions ← type_parameter_substitutions (CheckedUnion_parameters union_) arguments;
    mret ((fun case => option_map (fun ty => substitute_type_parameters ty substitutions) case.2) <$> CheckedUnion_cases union_)
  end.

Definition union_payload (id : nat) (arguments : list Ty) (case : nat) : Try (option Ty) :=
  union_ ← union_at id;
  case ← or_panic (CheckedUnion_cases union_ !! case);
  match case.2, arguments with
  | None, _ => mret None
  | Some ty, [] => mret (Some ty)
  | Some ty, _ =>
    substitutions ← type_parameter_substitutions (CheckedUnion_parameters union_) arguments;
    mret (Some (substitute_type_parameters ty substitutions))
  end.

Definition record_fields_all {S} (id : nat) (arguments : list Ty) (test : Ty -> M Fault S bool) : M Fault S bool :=
  let? record := lift (record_at id) in
  match arguments with
  | [] => all_of test (snd <$> CheckedRecord_fields record)
  | _ => let? fields := lift (record_fields id arguments) in all_of test fields
  end.

Definition union_payloads_all {S} (id : nat) (arguments : list Ty) (test : Ty -> M Fault S bool) : M Fault S bool :=
  let? union_ := lift (union_at id) in
  match arguments with
  | [] => all_of test (omap snd (CheckedUnion_cases union_))
  | _ => let? payloads := lift (union_payloads id arguments) in all_of test (omap (fun payload => payload) payloads)
  end.
End context.

(** ** Records of the standard library *)

(** [matches!(name, ...)] *)
Definition named_one_of (names : list string) (name : RString) : bool :=
  existsb (fun candidate => bool_decide (as_bytes name = txt candidate)) names.

Definition opaque_record (name : RString) : bool :=
  named_one_of
    ["Map.Map"; "Map.Entry"; "Set.Set"; "HashMap.HashMap"; "HashMap.Entry"; "HashSet.HashSet"; "Seq.Seq"; "Gpu.Device";
     "Gpu.Buffer"; "IO.IO"; "Owned.Function"; "Random.Pcg"; "File.Handle"; "BigInt.BigInt"; "Arena.Arena"; "Arena.Handle";
     "Arena.Slot"; "Regex.Regex"; "Json.Reader"; "Json.Writer"; "Gen.Gen"; "Matrix.Matrix"; "Net.Address"; "Net.TcpStream";
     "Net.TcpListener"; "Net.UdpSocket"; "Atomic.Atomic"; "Mutex.Mutex"; "MatrixView.MatrixView"; "MatrixView.Mut";
     "Tensor.Tensor"; "Tensor.View"; "DataChannel.Sender"; "DataChannel.Receiver"; "Channel.Channel"; "SendOnly.SendOnly";
     "ReceiveOnly.ReceiveOnly"; "Timer.Timer"; "Ticker.Ticker"; "WaitGroup.WaitGroup"; "Once.Once"; "OnceValue.OnceValue";
     "RwMutex.RwMutex"; "Cond.Cond"; "Semaphore.Semaphore"; "SyncMap.SyncMap"; "Context.Context"; "Context.AfterFunc";
     "ErrGroup.ErrGroup"]%string name.

Definition is_std (origin : ModuleOrigin) : bool := match origin with ModuleOrigin_Std => true | ModuleOrigin_User => false end.

(** [CheckedRecord::opaque] *)
Definition opaque (record : CheckedRecord) : bool :=
  is_std (CheckedRecord_origin record) && opaque_record (CheckedRecord_name record).

Section marks.
Context (types : TypeContext).

(** [matches!(self, Self::Record(id, _) if types.records[*id].origin == ModuleOrigin::Std && ...)] *)
Definition std_record (names : list string) (ty : Ty) : Try bool :=
  match ty with
  | Ty_Record id _ =>
    record ← record_at types id;
    mret (is_std (CheckedRecord_origin record) && named_one_of names (CheckedRecord_name record))
  | _ => mret false
  end.

Definition has_user_drop (ty : Ty) : Try bool :=
  match ty with
  | Ty_Record id _ => record ← record_at types id; mret (CheckedRecord_user_drop record)
  | Ty_Union id _ => union_ ← union_at types id; mret (CheckedUnion_user_drop union_)
  | _ => mret false
  end.

Definition is_noncopy_record (ty : Ty) : Try bool :=
  drop ← has_user_drop ty;
  if drop : bool then mret true
  else
    std_record
      ["Seq.Seq"; "Gpu.Device"; "Gpu.Buffer"; "Owned.Function"; "Regex.Regex"; "Matrix.Matrix"; "Tensor.Tensor";
       "Tensor.View"; "Atomic.Atomic"; "Mutex.Mutex"; "RwMutex.RwMutex"; "OnceValue.OnceValue"]%string ty.

Definition is_shared_cell : Ty -> Try bool :=
  std_record ["Atomic.Atomic"; "Mutex.Mutex"; "RwMutex.RwMutex"; "OnceValue.OnceValue"]%string.

Definition is_mutex : Ty -> Try bool := std_record ["Mutex.Mutex"]%string.

Definition is_unsync_record : Ty -> Try bool := std_record ["Seq.Seq"; "Gpu.Device"; "Gpu.Buffer"; "Owned.Function"]%string.

Definition is_owned_function : Ty -> Try bool := std_record ["Owned.Function"]%string.

Definition runs_on_drop (ty : Ty) : Try bool :=
  drop ← has_user_drop ty;
  if drop : bool then mret true
  else
    owned ← is_owned_function ty;
    mret (owned || match ty with Ty_Function _ _ _ _ | Ty_Dyn _ | Ty_Once _ => true | _ => false end).

(** The function that [for] receives with, and the type of an item. *)
Definition channel_element (ty : Ty) : Try (option (string * Ty)) :=
  match ty with
  | Ty_Record id arguments =>
    record ← record_at types id;
    mret (
      if is_std (CheckedRecord_origin record) then
        receive ← (
          if named_one_of ["Channel.Channel"]%string (CheckedRecord_name record) then Some "std::Channel.recv"%string
          else if named_one_of ["ReceiveOnly.ReceiveOnly"]%string (CheckedRecord_name record) then
            Some "std::ReceiveOnly.recv"%string
          else None);
        (fun item => (receive, item)) <$> head arguments
      else None)
  | _ => mret None
  end.

Definition sequence_element (ty : Ty) : Try (option Ty) :=
  match ty with
  | Ty_Record id arguments =>
    record ← record_at types id;
    mret (if is_std (CheckedRecord_origin record) && named_one_of ["Seq.Seq"]%string (CheckedRecord_name record)
      then head arguments else None)
  | _ => mret None
  end.
End marks.

(** ** Keys *)

Definition key_nat (n : nat) : list N := [N.of_nat n].
Definition key_bool (b : bool) : list N := [if b then 1 else 0].

(** 1 comes before each element and 0 at the end, so a prefix is less. *)
Definition key_list {A} (key : A -> list N) (l : list A) : list N := concat ((fun x => 1 :: key x) <$> l) ++ [0].

Definition key_text (s : RString) : list N := key_list (fun b => [uval b]) (as_bytes s).

Definition key_Constructor (constructor : Constructor) : list N :=
  match constructor with
  | Constructor_Record id arity => 0 :: key_nat id ++ key_nat arity
  | Constructor_Union id arity => 1 :: key_nat id ++ key_nat arity
  | Constructor_Array => [2]
  | Constructor_List => [3]
  | Constructor_Vec => [4]
  end.

Definition key_convention (convention : ParameterConvention) : list N :=
  [match convention with ParameterConvention_Own => 0 | ParameterConvention_Read => 1 | ParameterConvention_Mut => 2 end].

Definition key_SharedKind (kind : SharedKind) : list N :=
  [match kind with SharedKind_Rc => 0 | SharedKind_RcWeak => 1 | SharedKind_Arc => 2 | SharedKind_ArcWeak => 3 end].

Definition key_SimdKind (kind : SimdKind) : list N :=
  [match kind with SimdKind_Signed => 0 | SimdKind_Unsigned => 1 | SimdKind_Float => 2 | SimdKind_Mask => 3 end].

Definition key_SimdType (ty : SimdType) : list N :=
  uval (SimdType_bits ty) :: key_SimdKind (SimdType_kind ty) ++ [uval (SimdType_width ty)].

Definition key_DynType (dyn : DynType) : list N :=
  key_list key_text (DynType_classes dyn) ++ key_bool (DynType_copy dyn) ++ key_bool (DynType_send dyn) ++
  key_bool (DynType_borrowed dyn).

(** The position of a variant. *)
Definition discriminant (ty : Ty) : N :=
  match ty with
  | Ty_Error => 0 | Ty_Variable _ => 1 | Ty_Infer _ => 2 | Ty_Partial _ _ => 3 | Ty_Application _ _ => 4
  | Ty_Integer _ _ => 5 | Ty_Binary _ => 6 | Ty_Decimal _ => 7 | Ty_Simd _ => 8 | Ty_Bool => 9 | Ty_Unit => 10
  | Ty_Char => 11 | Ty_Utf8Char => 12 | Ty_String => 13 | Ty_Utf8String => 14 | Ty_Record _ _ => 15 | Ty_Union _ _ => 16
  | Ty_Array _ => 17 | Ty_ArrayView _ => 18 | Ty_FixedArray _ _ => 19 | Ty_Length _ => 20 | Ty_List _ => 21 | Ty_Vec _ => 22
  | Ty_Tuple _ => 23 | Ty_Once _ => 24 | Ty_Handle _ => 25 | Ty_Function _ _ _ _ => 26 | Ty_Reference _ _ => 27
  | Ty_Dyn _ => 28 | Ty_Shared _ _ => 29
  end.

Fixpoint key (ty : Ty) : list N :=
  let keys (l : list Ty) := concat ((fun ty => 1 :: key ty) <$> l) ++ [0] in
  discriminant ty ::
  match ty with
  | Ty_Error | Ty_Bool | Ty_Unit | Ty_Char | Ty_Utf8Char | Ty_String | Ty_Utf8String => []
  | Ty_Variable name | Ty_Handle name => key_text name
  | Ty_Infer id => key_nat id
  | Ty_Partial constructor trailing => key_Constructor constructor ++ keys trailing
  | Ty_Application head_ arguments => key head_ ++ keys arguments
  | Ty_Integer bits signed => uval bits :: key_bool signed
  | Ty_Binary bits | Ty_Decimal bits => [uval bits]
  | Ty_Simd ty => key_SimdType ty
  | Ty_Record id arguments | Ty_Union id arguments => key_nat id ++ keys arguments
  | Ty_Array ty | Ty_ArrayView ty | Ty_List ty | Ty_Vec ty | Ty_Once ty => key ty
  | Ty_FixedArray element length => key element ++ key length
  | Ty_Length length => [uval length]
  | Ty_Tuple elements => keys elements
  | Ty_Function parameters conventions pure_ result =>
    keys parameters ++ key_list key_convention conventions ++ key_bool pure_ ++ key result
  | Ty_Reference target mutable => key target ++ key_bool mutable
  | Ty_Dyn dyn => key_DynType dyn
  | Ty_Shared value kind => key value ++ key_SharedKind kind
  end.

#[export] Instance Ty_ordered : Ordered Ty := fun a b => compare (key a) (key b).

(** ** Keys are prefix codes, so different types have different keys *)

Definition prefix_code {A} (key : A -> list N) : Prop := forall x y r s, key x ++ r = key y ++ s -> x = y /\ r = s.

Lemma prefix_list {A} (key : A -> list N) l : (forall x y r s, x ∈ l -> key x ++ r = key y ++ s -> x = y /\ r = s) ->
  forall l' r s, key_list key l ++ r = key_list key l' ++ s -> l = l' /\ r = s.
Proof.
  unfold key_list. induction l as [|x l IH]; intros Hx l' r s; destruct l' as [|y l']; cbn; try congruence.
  - intros [=]. by subst.
  - rewrite <- !app_assoc. intros [= H]. apply Hx in H as [-> H]; [|by left].
    edestruct IH as [-> ->]; [intros; eapply Hx; [by right|done]|rewrite <- !app_assoc; exact H|done].
Qed.

Lemma prefix_nat : prefix_code key_nat.
Proof. intros x y r s. cbn. intros [= H ->]. split; [lia|done]. Qed.

Lemma prefix_bool : prefix_code key_bool.
Proof. intros [] [] r s; cbn; intros [=]; by subst. Qed.

Lemma prefix_keys {A} (key : A -> list N) : prefix_code key -> prefix_code (key_list key).
Proof. intros H l l' r s. apply prefix_list. intros x y r' s' _. apply H. Qed.

Lemma prefix_uval w : prefix_code (fun b : uint w => [uval b]).
Proof. intros x y r s. cbn. intros [= H ->]. split; [by apply uint_eq|done]. Qed.

Lemma prefix_text : prefix_code key_text.
Proof.
  intros x y r s H. apply (prefix_keys _ (prefix_uval 8)) in H as [H ->]. split; [by apply RString_eq|done].
Qed.

Lemma prefix_convention : prefix_code key_convention.
Proof. intros [] [] r s; cbn; intros [=]; by subst. Qed.

Lemma prefix_SharedKind : prefix_code key_SharedKind.
Proof. intros [] [] r s; cbn; intros [=]; by subst. Qed.

Lemma prefix_SimdKind : prefix_code key_SimdKind.
Proof. intros [] [] r s; cbn; intros [=]; by subst. Qed.

Lemma prefix_Constructor : prefix_code key_Constructor.
Proof. intros [] []; cbn; intros ?? [=]; subst; split; try done; f_equal; lia. Qed.

Lemma prefix_SimdType : prefix_code key_SimdType.
Proof.
  intros [bits kind width] [bits' kind' width'] r s. cbn. intros [= Hb%uint_eq Hk Hw%uint_eq ->]. subst. split; [|done].
  f_equal. destruct kind, kind'; congruence.
Qed.

Lemma prefix_DynType : prefix_code key_DynType.
Proof.
  intros [classes copy send borrowed] [classes' copy' send' borrowed'] r s. unfold key_DynType. cbn [DynType_classes DynType_copy DynType_send DynType_borrowed].
  rewrite <- !app_assoc. intros H. apply (prefix_keys _ prefix_text) in H as [-> H].
  apply prefix_bool in H as [-> H]. apply prefix_bool in H as [-> H]. by apply prefix_bool in H as [-> ->].
Qed.

(** Takes the leading field off both sides. *)
Ltac peel H :=
  first
    [ match type of H with uval ?b :: ?l = uval ?c :: ?m => apply (prefix_uval _ b c l m) in H as [-> H] end
    | apply prefix_text in H as [-> H] | apply prefix_nat in H as [-> H] | apply prefix_Constructor in H as [-> H]
    | apply prefix_bool in H as [-> H] | apply prefix_SimdType in H as [-> H] | apply prefix_DynType in H as [-> H]
    | apply prefix_SharedKind in H as [-> H] | apply (prefix_keys _ prefix_convention) in H as [-> H]
    | match goal with IH : forall y r s, key ?x ++ r = key y ++ s -> _ |- _ => apply IH in H as [-> H] end
    | match goal with IH : Forall _ ?l |- _ => apply (prefix_list key l) in H as [-> H];
        [|intros ?????; rewrite list.Forall_forall in IH; by apply IH] end ].

Lemma cons_tail {A} (x y : A) l l' : x :: l = y :: l' -> l = l'.
Proof. congruence. Qed.

Lemma prefix_key : prefix_code key.
Proof.
  intros a. induction a as [a IH] using Ty_parts_ind.
  intros b r s H.
  destruct a, b; try (cbn in H; congruence); cbn [key] in H;
    repeat match type of H with context [concat ((fun ty => 1 :: key ty) <$> ?l) ++ [0]] =>
      change (concat ((fun ty => 1 :: key ty) <$> l) ++ [0]) with (key_list key l) in H end;
    cbn [app] in H; apply cons_tail in H; try (rewrite <- !app_assoc in H); cbn [parts] in IH;
    rewrite ?Forall_app, ?Forall_cons_iff in IH; destruct_and?; cbn [app] in H; repeat peel H; by subst.
Qed.

#[export] Instance key_inj : Inj (=) (=) key.
Proof. intros a b H. apply (prefix_key a b [] []). by rewrite !app_nil_r. Qed.

#[export] Instance Ty_ordered_laws : OrderedLaws Ty.
Proof. apply (ordered_by key). Qed.
