(* ===== verification/TypeArena.v ===== *)
(** * The arena of types

    [TypeArena] of [src/src/type_arena.rs], which gives each distinct type one identifier, and [walk_types] of
    [src/src/recursive.rs], which visits what a type reaches once. A borrowed and an owned type are the type. The
    hasher of [HashMap] is the parameter [finish]: a function of the values that [Fingerprint] writes. A [TypeId] is its
    number, and [pending] is a stack whose head is the top. *)
From stdpp Require Import list strings gmap.
From S2P Require Import Prelude Wire Faults Types Inference Declarations.
Local Open Scope nat_scope.
Local Open Scope monad_scope.

(** ** Fingerprints *)

(** A write of a number of some width to a [Hasher]. *)
Definition Write : Type := N * N.

Definition write_usize (n : N) : Write := (64, n)%N.
Definition write_bool (b : bool) : Write := (8, if b then 1 else 0)%N.
Definition write_str (s : RString) : list Write := ((fun b => (8, uval b)%N) <$> as_bytes s) ++ [(8, 255)%N].

Definition constructor_discriminant (constructor : Constructor) : N :=
  match constructor with
  | Constructor_Record _ _ => 0
  | Constructor_Union _ _ => 1
  | Constructor_Array => 2
  | Constructor_List => 3
  | Constructor_Vec => 4
  end%N.

(** [Fingerprint::hash]: conventions and purity of a function are left out. *)
Fixpoint fingerprint (ty : Ty) : list Write :=
  let sequence (l : list Ty) := write_usize (N.of_nat (length l)) :: concat (fingerprint <$> l) in
  write_usize (discriminant ty) ::
  match ty with
  | Ty_Variable name => write_str name
  | Ty_Infer id => [write_usize (N.of_nat id)]
  | Ty_Integer bits signed => [(16, uval bits); write_bool signed]%N
  | Ty_Binary bits | Ty_Decimal bits => [(16, uval bits)]%N
  | Ty_Length length => [(64, uval length)]%N
  | Ty_Simd simd =>
    [(16, uval (SimdType_bits simd)); (16, uval (SimdType_width simd))]%N ++ (write_usize <$> key_SimdKind (SimdType_kind simd))
  | Ty_Record id arguments | Ty_Union id arguments => write_usize (N.of_nat id) :: sequence arguments
  | Ty_Array inner | Ty_ArrayView inner | Ty_List inner | Ty_Vec inner | Ty_Once inner => fingerprint inner
  | Ty_Reference inner mutable => write_bool mutable :: fingerprint inner
  | Ty_Shared inner kind => (write_usize <$> key_SharedKind kind) ++ fingerprint inner
  | Ty_FixedArray element length => fingerprint element ++ fingerprint length
  | Ty_Tuple elements => sequence elements
  | Ty_Function parameters _ _ result => sequence parameters ++ fingerprint result
  | Ty_Handle name => write_str name
  | Ty_Application head_ arguments => fingerprint head_ ++ sequence arguments
  | Ty_Partial constructor trailing =>
    write_usize (constructor_discriminant constructor) ::
    match constructor with
    | Constructor_Record id arity | Constructor_Union id arity =>
      [write_usize (N.of_nat id); write_usize (N.of_nat arity)]
    | _ => []
    end ++ sequence trailing
  | Ty_Dyn dyn =>
    write_usize (N.of_nat (length (DynType_classes dyn))) :: concat (write_str <$> DynType_classes dyn) ++
    [write_bool (DynType_copy dyn); write_bool (DynType_send dyn); write_bool (DynType_borrowed dyn)]
  | Ty_Error | Ty_Bool | Ty_Unit | Ty_Char | Ty_Utf8Char | Ty_String | Ty_Utf8String => []
  end.

(** ** The arena *)

Inductive Storage :=
| Storage_Borrowed (ty : Ty)
| Storage_Owned (ty : Ty)
| Storage_Child (parent index : nat).

Record Node := mk_Node {
  storage : Storage;
  node_visited : bool }.

Record TypeArena := mk_TypeArena {
  nodes : list Node;
  buckets : gmap N (list nat) }.

Definition TypeArena_default : TypeArena := mk_TypeArena [] ∅.

(** A projection of a type; [index] counts only in a tuple. *)
Definition child (ty : Ty) (index : nat) : Try Ty :=
  match ty with
  | Ty_Reference inner _ | Ty_Array inner | Ty_List inner | Ty_Vec inner | Ty_FixedArray inner _ | Ty_Shared inner _ =>
    mret inner
  | Ty_Tuple elements => or_panic (elements !! index)
  | _ => panic
  end.

(** The parent of a projection is an earlier node, so one turn per node is enough. *)
Fixpoint type_at (fuel : nat) (nodes : list Node) (id : nat) : Try Ty :=
  match fuel with
  | 0 => Err OutOfFuel
  | S fuel =>
    node ← or_panic (nodes !! id);
    match storage node with
    | Storage_Borrowed ty | Storage_Owned ty => mret ty
    | Storage_Child parent index => ty ← type_at fuel nodes parent; child ty index
    end
  end.

(** [TypeArena::ty] *)
Definition type_of (arena : TypeArena) (id : nat) : Try Ty := type_at (length (nodes arena)) (nodes arena) id.

Definition resolve_storage (arena : TypeArena) (storage : Storage) : Try Ty :=
  match storage with
  | Storage_Borrowed ty | Storage_Owned ty => mret ty
  | Storage_Child parent index => ty ← type_of arena parent; child ty index
  end.

(** [ids.iter().find(|&&id| self.ty(id) == ty)] *)
Fixpoint find_equal (arena : TypeArena) (ty : Ty) (ids : list nat) : Try (option nat) :=
  match ids with
  | [] => mret None
  | id :: ids =>
    candidate ← type_of arena id;
    if decide (candidate = ty) then mret (Some id) else find_equal arena ty ids
  end.

Definition AM : Type -> Type := M Fault TypeArena.

(** [TypeArena::visit] *)
Definition visit_node (id : nat) : AM bool :=
  let? arena := gets (fun s => s) in
  let? node := element (nodes arena) id in
  modify (fun arena => mk_TypeArena (<[id := mk_Node (storage node) true]> (nodes arena)) (buckets arena)) ;;;
  ret (negb (node_visited node)).

Section arena.
Context (finish : list Write -> u64) (types : TypeContext).

(** [hash_one(Fingerprint(ty))] *)
Definition hash_one (ty : Ty) : N := uval (finish (fingerprint ty)).

Definition find_type (arena : TypeArena) (ty : Ty) : Try (N * option nat) :=
  let hash := hash_one ty in
  existing ← match buckets arena !! hash with Some ids => find_equal arena ty ids | None => mret None end;
  mret (hash, existing).

Definition insert_storage (storage : Storage) (hash : N) : AM nat :=
  let? arena := gets (fun s => s) in
  let id := length (nodes arena) in
  if (N.of_nat id <? 2 ^ 32)%N then
    modify (fun _ => mk_TypeArena (nodes arena ++ [mk_Node storage false])
      (<[hash := default [] (buckets arena !! hash) ++ [id]]> (buckets arena))) ;;;
    ret id
  else fail Panic.

Definition intern (storage : Storage) : AM nat :=
  let? arena := gets (fun s => s) in
  let? ty := lift (resolve_storage arena storage) in
  let? found := lift (find_type arena ty) in
  match found.2 with Some id => ret id | None => insert_storage storage found.1 end.

Definition borrowed (ty : Ty) : AM nat := intern (Storage_Borrowed ty).

Definition owned (ty : Ty) : AM nat :=
  let? arena := gets (fun s => s) in
  let? found := lift (find_type arena ty) in
  match found.2 with Some id => ret id | None => insert_storage (Storage_Owned ty) found.1 end.

(** The loops of [children] push what they intern. *)
Fixpoint push_all (intern : Ty -> AM nat) (l : list Ty) (pending : list nat) : AM (list nat) :=
  match l with
  | [] => ret pending
  | ty :: l => let? id := intern ty in push_all intern l (id :: pending)
  end.

Definition project (id index : nat) : AM nat :=
  let? arena := gets (fun s => s) in
  let? node := element (nodes arena) id in
  match storage node with
  | Storage_Borrowed ty => let? ty := lift (child ty index) in intern (Storage_Borrowed ty)
  | _ => intern (Storage_Child id index)
  end.

Fixpoint push_projections (id : nat) (indices : list nat) (pending : list nat) : AM (list nat) :=
  match indices with
  | [] => ret pending
  | index :: indices => let? child := project id index in push_projections id indices (child :: pending)
  end.

Definition children (id : nat) (references : bool) (pending : list nat) : AM (list nat) :=
  let? arena := gets (fun s => s) in
  let? ty := lift (type_of arena id) in
  match ty with
  | Ty_Record record [] =>
    let? declaration := lift (record_at types record) in
    push_all borrowed (snd <$> CheckedRecord_fields declaration) pending
  | Ty_Union union_ [] =>
    let? declaration := lift (union_at types union_) in
    push_all borrowed (omap snd (CheckedUnion_cases declaration)) pending
  | Ty_Record record arguments =>
    let? fields := lift (record_fields types record arguments) in
    push_all owned fields pending
  | Ty_Union union_ arguments =>
    let? payloads := lift (union_payloads types union_ arguments) in
    push_all owned (omap (fun payload => payload) payloads) pending
  | _ =>
    let count :=
      match ty with
      | Ty_Reference _ _ => if references then 1 else 0
      | Ty_Array _ | Ty_List _ | Ty_Vec _ | Ty_FixedArray _ _ | Ty_Shared _ _ => 1
      | Ty_Tuple elements => length elements
      | _ => 0
      end in
    push_projections id (seq 0 count) pending
  end.
End arena.

(** ** Walks over what a type stores *)

Definition in_arena {S A} (m : AM A) (arena : TypeArena) : M Fault S (A * TypeArena) :=
  match m arena with (Ok a, arena) => ret (a, arena) | (Err e, _) => fail e end.

(** The types that [walk_types] looks inside. *)
Definition has_children (ty : Ty) (references : bool) : bool :=
  match ty with
  | Ty_Record _ _ | Ty_Union _ _ | Ty_Array _ | Ty_List _ | Ty_Vec _ | Ty_FixedArray _ _ | Ty_Shared _ _ | Ty_Tuple _ => true
  | Ty_Reference _ _ => references
  | _ => false
  end.

Section walk.
Context (finish : list Write -> u64) (types : TypeContext).
Context {S : Type} (predicate closed : Ty -> M Fault S bool) (references : bool).

(** [while let Some(id) = pending.pop()] *)
Fixpoint walk_loop (fuel : nat) (arena : TypeArena) (pending : list nat) : M Fault S bool :=
  match fuel with
  | 0 => fail OutOfFuel
  | Datatypes.S fuel =>
    match pending with
    | [] => ret true
    | id :: pending =>
      let? ty := lift (type_of arena id) in
      let? holds := predicate ty in
      if negb holds then ret false
      else
        let? stops := closed ty in
        if stops : bool then walk_loop fuel arena pending
        else
          let? (first, arena) := in_arena (visit_node id) arena in
          if negb first then walk_loop fuel arena pending
          else
            let? (pending, arena) := in_arena (children finish types id references pending) arena in
            walk_loop fuel arena pending
    end
  end.

Definition walk_types (fuel : nat) (root : Ty) : M Fault S bool :=
  let? holds := predicate root in
  if negb holds then ret false
  else
    let? stops := closed root in
    if stops || negb (has_children root references) then ret true
    else
      let? (root_id, arena) := in_arena (borrowed finish root) TypeArena_default in
      let? (_, arena) := in_arena (visit_node root_id) arena in
      let? (pending, arena) := in_arena (children finish types root_id references []) arena in
      walk_loop fuel arena pending.
End walk.
