(* ===== verification/ArenaLaws.v ===== *)
(** * The arena interns, and a walk visits what a type reaches

    Whatever the hasher is, the identifiers of a [TypeArena] and the types that they stand for are in one to one
    correspondence, and a walk decides whether a property holds of all types that the root stores. *)
From stdpp Require Import list gmap relations.
From S2P Require Import Prelude Wire Faults Types Inference Declarations TypeArena.
Local Open Scope nat_scope.

(** ** What a type stores *)

Definition stored (types : TypeContext) (references : bool) (ty : Ty) : Try (list Ty) :=
  match ty with
  | Ty_Record id arguments => record_fields types id arguments
  | Ty_Union id arguments =>
    payloads ← union_payloads types id arguments; mret (omap (fun payload => payload) payloads)
  | Ty_Reference inner _ => mret (if references then [inner] else [])
  | Ty_Array inner | Ty_List inner | Ty_Vec inner | Ty_FixedArray inner _ | Ty_Shared inner _ => mret [inner]
  | Ty_Tuple elements => mret elements
  | _ => mret []
  end.

Lemma omap_snd {A} (l : list (A * option Ty)) : omap snd l = omap (fun payload => payload) (snd <$> l).
Proof. induction l as [|[a [t|]] l IH]; cbn; [done|by rewrite IH|done]. Qed.

(** ** Identifiers *)

Definition visited_flags (arena : TypeArena) : list bool := node_visited <$> nodes arena.
Definition storages (arena : TypeArena) : list Storage := storage <$> nodes arena.

Lemma type_at_mono fuel fuel' l l' id t :
  type_at fuel l id = Ok t -> fuel <= fuel' -> (storage <$> l) `prefix_of` (storage <$> l') -> type_at fuel' l' id = Ok t.
Proof.
  intros H Hf Hl. revert fuel' id t H Hf. induction fuel as [|fuel IH]; intros fuel' id t H Hf; [done|].
  destruct fuel' as [|fuel']; [lia|]. cbn [type_at] in H |- *.
  destruct (l !! id) as [node|] eqn:Hn; [|done]. cbn in H.
  assert (exists node', l' !! id = Some node' /\ storage node' = storage node) as (node' & -> & Hs).
  { destruct Hl as [k Hl]. assert ((storage <$> l') !! id = Some (storage node)) as Hi.
    { rewrite Hl. apply lookup_app_l_Some. by rewrite list_lookup_fmap, Hn. }
    rewrite list_lookup_fmap in Hi. destruct (l' !! id); simplify_eq/=. eauto. }
  cbn. rewrite Hs. destruct (storage node) as [ty|ty|parent index]; [done..|].
  destruct (type_at fuel l parent) as [ty|] eqn:Ht; [|done]. rewrite (IH fuel' parent ty) by (done || lia). done.
Qed.

Section interned.
Context (finish : list Write -> u64).

(** [ts] lists the types of the identifiers. *)
Record Interned (ts : list Ty) (arena : TypeArena) : Prop := {
  interned_length : length (nodes arena) = length ts;
  interned_types i t : ts !! i = Some t -> type_at (S i) (nodes arena) i = Ok t;
  interned_once : NoDup ts;
  interned_bucket i t : ts !! i = Some t -> i ∈ default [] (buckets arena !! hash_one finish t);
  interned_known h i : i ∈ default [] (buckets arena !! h) -> i < length ts }.

Lemma interned_default : Interned [] TypeArena_default.
Proof.
  split; [done|done|constructor|done|]. intros h i. cbn. rewrite lookup_empty. cbn. by intros ?%not_elem_of_nil.
Qed.

Lemma interned_type ts arena i t : Interned ts arena -> ts !! i = Some t -> type_of arena i = Ok t.
Proof.
  intros H Ht. unfold type_of. eapply type_at_mono; [by eapply interned_types| |done].
  rewrite (interned_length _ _ H). apply lookup_lt_Some in Ht. lia.
Qed.

Lemma find_equal_run ts arena ty ids : Interned ts arena -> (forall i, i ∈ ids -> i < length ts) ->
  exists o, find_equal arena ty ids = Ok o /\
    match o with Some i => ts !! i = Some ty | None => forall i, i ∈ ids -> ts !! i <> Some ty end.
Proof.
  intros H. induction ids as [|i ids IH]; intros Hids.
  - exists None. split; [done|]. by intros i ?%not_elem_of_nil.
  - destruct (lookup_lt_is_Some_2 ts i) as [t Ht]; [apply Hids; by left|]. cbn [find_equal].
    rewrite (interned_type _ _ _ _ H Ht). cbn. case_decide as Hty.
    + exists (Some i). split; [done|]. by subst.
    + destruct IH as (o & -> & Ho); [intros; apply Hids; by right|]. exists o. split; [done|]. destruct o; [done|].
      intros j [->|Hj]%elem_of_cons; [congruence|auto].
Qed.

Lemma find_type_run ts arena ty : Interned ts arena ->
  exists o, find_type finish arena ty = Ok (hash_one finish ty, o) /\
    match o with Some i => ts !! i = Some ty | None => ty ∉ ts end.
Proof.
  intros H. unfold find_type. pose proof (interned_bucket _ _ H) as Hb. pose proof (interned_known _ _ H) as Hk.
  specialize (Hk (hash_one finish ty)).
  assert (forall o, (match o with Some i => ts !! i = Some ty | None =>
      forall i, i ∈ default [] (buckets arena !! hash_one finish ty) -> ts !! i <> Some ty end) ->
    match o with Some i => ts !! i = Some ty | None => ty ∉ ts end) as Ho.
  { intros [i|]; [done|]. intros Hn (i & Hi)%list_elem_of_lookup. by apply (Hn i); [apply Hb|]. }
  destruct (buckets arena !! hash_one finish ty) as [ids|] eqn:Hids; cbn in *.
  - destruct (find_equal_run ts arena ty ids H) as (o & -> & Ho'); [done|]. exists o. split; [done|]. exact (Ho o Ho').
  - exists None. split; [done|]. apply (Ho None). by intros i ?%not_elem_of_nil.
Qed.

(** What interning does to the arena. *)
Definition grown (ts : list Ty) (arena : TypeArena) (ts' : list Ty) (arena' : TypeArena) : Prop :=
  Interned ts' arena' /\ ts `prefix_of` ts' /\ storages arena `prefix_of` storages arena' /\
  visited_flags arena' = visited_flags arena ++ replicate (length ts' - length ts) false.

Lemma grown_refl ts arena : Interned ts arena -> grown ts arena ts arena.
Proof.
  intros H. split_and!; [done..|]. rewrite Nat.sub_diag. cbn. by rewrite app_nil_r.
Qed.

Lemma grown_trans ts arena ts' arena' ts'' arena'' :
  grown ts arena ts' arena' -> grown ts' arena' ts'' arena'' -> grown ts arena ts'' arena''.
Proof.
  intros (H1 & P1 & S1 & V1) (H2 & P2 & S2 & V2). split_and!; [done|by etrans|by etrans|].
  rewrite V2, V1, <- app_assoc, <- replicate_add. f_equal. f_equal.
  apply prefix_length in P1, P2. lia.
Qed.

Lemma insert_run ts arena st t : Interned ts arena -> resolve_storage arena st = Ok t -> t ∉ ts ->
  (N.of_nat (length ts) < 2 ^ 32)%N ->
  returns (insert_storage st (hash_one finish t)) (fun id arena' => id = length ts /\ grown ts arena (ts ++ [t]) arena') arena.
Proof.
  intros H Ht Hn Hlen. unfold insert_storage. variables. rewrite (interned_length _ _ H).
  rewrite (proj2 (N.ltb_lt _ _) Hlen). variables. split; [done|].
  assert (storages arena `prefix_of` (storage <$> nodes arena ++ [mk_Node st false])) as Hp.
  { rewrite fmap_app. by apply prefix_app_r. }
  split_and!; [split| | |]; cbn [nodes buckets].
  - rewrite !length_app, (interned_length _ _ H). done.
  - intros i u [Hi|[Hi Hu]]%lookup_app_Some.
    + eapply type_at_mono; [by eapply interned_types|lia|exact Hp].
    + apply list_lookup_singleton_Some in Hu as [Hi' ->]. assert (i = length (nodes arena)) as ->.
      { rewrite (interned_length _ _ H). lia. }
      cbn [type_at]. rewrite lookup_app_r, Nat.sub_diag by done. cbn.
      destruct st as [ty|ty|parent index]; cbn in Ht; simplify_eq/=; [done..|].
      destruct (type_of arena parent) as [ty|] eqn:Hty; [|done].
      rewrite (type_at_mono _ _ _ _ _ _ Hty (le_n _) Hp). done.
  - apply list.NoDup_app. split_and!; [by eapply interned_once| |apply NoDup_singleton].
    intros u Hu Hu'%list_elem_of_singleton. by subst.
  - intros i u Hi. destruct (decide (hash_one finish t = hash_one finish u)) as [E|E].
    + rewrite <- E, lookup_insert_eq. cbn. apply lookup_app_Some in Hi as [Hi|[Hi Hu]]; apply elem_of_app.
      * left. rewrite E. by eapply interned_bucket.
      * right. apply list_lookup_singleton_Some in Hu as [Hu ->]. apply list_elem_of_singleton. lia.
    + rewrite lookup_insert_ne by done. apply lookup_app_Some in Hi as [Hi|[Hi Hu]]; [by eapply interned_bucket|].
      apply list_lookup_singleton_Some in Hu as [_ ->]. done.
  - intros h i. rewrite length_app. cbn [length]. destruct (decide (hash_one finish t = h)) as [<-|E].
    + rewrite lookup_insert_eq. cbn. intros [Hi|Hi%list_elem_of_singleton]%elem_of_app; [|lia].
      apply (interned_known _ _ H) in Hi. lia.
    + rewrite lookup_insert_ne by done. intros Hi%(interned_known _ _ H). lia.
  - by exists [t].
  - exact Hp.
  - unfold visited_flags. cbn. rewrite fmap_app, length_app. cbn. f_equal.
    by replace (length ts + 1 - length ts) with 1 by lia.
Qed.

(** The types stay in [D], which bounds their number. *)
Lemma interned_bound (D ts : list Ty) arena t : Interned ts arena -> ts ⊆ D -> t ∈ D -> t ∉ ts ->
  (N.of_nat (length D) < 2 ^ 32)%N -> (N.of_nat (length ts) < 2 ^ 32)%N.
Proof.
  intros H Hts Ht Hn HD. assert (length ts <= length D); [|lia].
  apply submseteq_length, NoDup_submseteq; [by eapply interned_once|done].
Qed.

Definition interns (D ts : list Ty) (t : Ty) (arena : TypeArena) (id : nat) (arena' : TypeArena) : Prop :=
  exists ts', grown ts arena ts' arena' /\ ts' ⊆ D /\ ts' !! id = Some t.

Lemma intern_run (D ts : list Ty) arena st t : Interned ts arena -> ts ⊆ D -> t ∈ D -> (N.of_nat (length D) < 2 ^ 32)%N ->
  resolve_storage arena st = Ok t -> returns (intern finish st) (interns D ts t arena) arena.
Proof.
  intros H Hts Ht HD Hr. unfold intern. variables. eapply returns_lift; [exact Hr|]. variables.
  destruct (find_type_run ts arena t H) as ([i|] & Hf & Ho); (eapply returns_lift; [exact Hf|]); cbn [snd fst].
  - variables. exists ts. split; [by apply grown_refl|done].
  - eapply returns_mono; [apply (insert_run ts arena st t); [done..|by eapply interned_bound]|].
    intros id arena' [-> Hg]. exists (ts ++ [t]). split_and!; [done| |].
    + apply list_subseteq_app_iff_l. split; [done|]. intros ? Hu%list_elem_of_singleton. by subst.
    + by rewrite lookup_app_r, Nat.sub_diag.
Qed.

Lemma owned_run (D ts : list Ty) arena t : Interned ts arena -> ts ⊆ D -> t ∈ D -> (N.of_nat (length D) < 2 ^ 32)%N ->
  returns (owned finish t) (interns D ts t arena) arena.
Proof. intros H Hts Ht HD. exact (intern_run D ts arena (Storage_Owned t) t H Hts Ht HD eq_refl). Qed.

(** ** Children *)

Context (types : TypeContext) (D : list Ty) (HD : (N.of_nat (length D) < 2 ^ 32)%N).

(** Identifiers of types, the last one first. *)
Definition pushes (ts : list Ty) (l : list Ty) (arena : TypeArena) (pending pending' : list nat) (arena' : TypeArena) : Prop :=
  exists ts' ids, grown ts arena ts' arena' /\ ts' ⊆ D /\ pending' = rev ids ++ pending /\
    Forall2 (fun i t => ts' !! i = Some t) ids l.

Lemma grown_lookup ts arena ts' arena' i t : grown ts arena ts' arena' -> ts !! i = Some t -> ts' !! i = Some t.
Proof. intros (_ & [k ->] & _) H. by apply lookup_app_l_Some. Qed.

Lemma pushes_cons ts arena t id ts1 arena1 l pending pending' arena' :
  grown ts arena ts1 arena1 -> ts1 !! id = Some t ->
  pushes ts1 l arena1 (id :: pending) pending' arena' -> pushes ts (t :: l) arena pending pending' arena'.
Proof.
  intros Hg Hid (ts' & ids & Hg' & HD' & -> & Hids). exists ts', (id :: ids). split_and!; [by eapply grown_trans|done| |].
  - cbn [rev]. by rewrite <- app_assoc.
  - constructor; [|done]. by eapply grown_lookup.
Qed.

Lemma pushes_nil ts arena pending : Interned ts arena -> ts ⊆ D -> pushes ts [] arena pending pending arena.
Proof. intros H Hts. exists ts, []. split_and!; [by apply grown_refl|done|done|constructor]. Qed.

Lemma push_all_run (f : Ty -> AM nat) l :
  (forall ts arena t, Interned ts arena -> ts ⊆ D -> t ∈ l -> returns (f t) (interns D ts t arena) arena) ->
  forall ts arena pending, Interned ts arena -> ts ⊆ D ->
  returns (push_all f l pending) (pushes ts l arena pending) arena.
Proof.
  induction l as [|t l IH]; intros Hf ts arena pending H Hts; cbn [push_all].
  - variables. by apply pushes_nil.
  - variables. eapply returns_mono; [apply Hf; [done..|by left]|]. intros id arena1 (ts1 & Hg & Hts1 & Hid).
    eapply returns_mono; [apply IH; [|apply Hg|done]; intros; apply Hf; [done..|by right]|].
    intros pending' arena'. by apply pushes_cons.
Qed.

Lemma project_run ts arena id index ty t : Interned ts arena -> ts ⊆ D -> ts !! id = Some ty -> child ty index = Ok t ->
  t ∈ D -> returns (project finish id index) (interns D ts t arena) arena.
Proof.
  intros H Hts Hid Hc Ht. unfold project. variables.
  destruct (lookup_lt_is_Some_2 (nodes arena) id) as [node Hn].
  { rewrite (interned_length _ _ H). by eapply lookup_lt_Some. }
  eapply returns_element; [exact Hn|]. pose proof (interned_types _ _ H _ _ Hid) as Hty. cbn in Hty. rewrite Hn in Hty.
  assert (resolve_storage arena (Storage_Child id index) = Ok t) as Hr.
  { cbn. by rewrite (interned_type _ _ _ _ H Hid). }
  cbn in Hty. destruct (storage node) as [ty'|ty'|p i]; [|by apply (intern_run D)..].
  injection Hty as ->. apply returns_bind. eapply returns_lift; [exact Hc|]. by apply (intern_run D).
Qed.

Lemma push_projections_run id ty indices l : (forall t, t ∈ l -> t ∈ D) ->
  Forall2 (fun index t => child ty index = Ok t) indices l ->
  forall ts arena pending, Interned ts arena -> ts ⊆ D -> ts !! id = Some ty ->
  returns (push_projections finish id indices pending) (pushes ts l arena pending) arena.
Proof.
  intros Hl Hc. induction Hc as [|index t indices l Ht Hc IH]; intros ts arena pending H Hts Hid; cbn [push_projections].
  - variables. by apply pushes_nil.
  - variables. eapply returns_mono; [eapply project_run; [done..|apply Hl; by left]|].
    intros id1 arena1 (ts1 & Hg & Hts1 & Hid1).
    eapply returns_mono; [apply IH; [|apply Hg|done|by eapply grown_lookup]; intros; apply Hl; by right|].
    intros pending' arena'. by apply pushes_cons.
Qed.

Lemma child_elements elements : Forall2 (fun index t => child (Ty_Tuple elements) index = Ok t) (seq 0 (length elements)) elements.
Proof.
  apply Forall2_same_length_lookup_2; [by rewrite length_seq|]. intros i index t Hi Ht.
  apply lookup_seq in Hi as [-> _]. cbn. by rewrite Ht.
Qed.

Lemma children_run references id ty l ts arena pending :
  Interned ts arena -> ts ⊆ D -> ts !! id = Some ty -> stored types references ty = Ok l -> l ⊆ D ->
  returns (children finish types id references pending) (pushes ts l arena pending) arena.
Proof.
  intros H Hts Hid Hl HlD. unfold children. variables. eapply returns_lift; [by eapply interned_type|].
  assert (forall f, (forall ts arena t, Interned ts arena -> ts ⊆ D -> t ∈ D -> returns (f t) (interns D ts t arena) arena) ->
    returns (push_all f l pending) (pushes ts l arena pending) arena) as Hall.
  { intros f Hf. apply push_all_run; [|done..]. intros. apply Hf; auto. }
  assert (forall indices, Forall2 (fun index t => child ty index = Ok t) indices l ->
    returns (push_projections finish id indices pending) (pushes ts l arena pending) arena) as Hprojections.
  { intros. by eapply push_projections_run. }
  assert (forall index, child ty index = Ok (default ty (head l)) -> [default ty (head l)] = l ->
    returns (push_projections finish id [index] pending) (pushes ts l arena pending) arena) as Hone.
  { intros index Hc Hl'. apply Hprojections. rewrite <- Hl'. by repeat constructor. }
  assert (l = [] -> returns (push_projections finish id [] pending) (pushes ts l arena pending) arena) as Hnone.
  { intros ->. apply Hprojections. constructor. }
  destruct ty; try (injection Hl as <-; first [by apply Hnone|by apply (Hone 0)]).
  - destruct arguments as [|argument arguments]; cbn [stored] in Hl.
    + unfold record_fields in Hl. apply returns_bind. destruct (record_at types id0) as [record|] eqn:Hr; [|done].
      injection Hl as <-. eapply returns_lift; [reflexivity|]. apply Hall. intros. by apply (intern_run D).
    + apply returns_bind. eapply returns_lift; [exact Hl|]. apply Hall. intros. by apply owned_run.
  - destruct arguments as [|argument arguments]; cbn [stored] in Hl.
    + unfold union_payloads in Hl. apply returns_bind. destruct (union_at types id0) as [union_|] eqn:Hr; [|done].
      injection Hl as <-. eapply returns_lift; [reflexivity|]. rewrite omap_snd. apply Hall. intros. by apply (intern_run D).
    + apply returns_bind. destruct (union_payloads types id0 (argument :: arguments)) as [payloads|] eqn:Hp; [|done].
      injection Hl as <-. eapply returns_lift; [reflexivity|]. apply Hall. intros. by apply owned_run.
  - injection Hl as <-. apply Hprojections. apply child_elements.
  - injection Hl as <-. destruct references; [by apply (Hone 0)|by apply Hnone].
Qed.

(** ** Walks *)

Lemma visit_node_run ts arena id t : Interned ts arena -> ts !! id = Some t ->
  returns (visit_node id) (fun first arena' => Interned ts arena' /\ visited_flags arena !! id = Some (negb first) /\
    visited_flags arena' = <[id := true]> (visited_flags arena)) arena.
Proof.
  intros H Hid. unfold visit_node. variables.
  destruct (lookup_lt_is_Some_2 (nodes arena) id) as [node Hn].
  { rewrite (interned_length _ _ H). by eapply lookup_lt_Some. }
  eapply returns_element; [exact Hn|]. variables. split_and!.
  - assert ((storage <$> nodes arena) = (storage <$> <[id := mk_Node (storage node) true]> (nodes arena))) as Hs.
    { rewrite list_fmap_insert. cbn. symmetry. apply list_insert_id. by rewrite list_lookup_fmap, Hn. }
    split; cbn [nodes buckets]; try apply H.
    + by rewrite length_insert, (interned_length _ _ H).
    + intros i u Hu. eapply type_at_mono; [by eapply interned_types|done|by rewrite <- Hs].
  - unfold visited_flags. by rewrite list_lookup_fmap, Hn, negb_involutive.
  - unfold visited_flags. cbn. by rewrite list_fmap_insert.
Qed.

Lemma in_arena_run {S A B} (m : AM A) (k : A * TypeArena -> M Fault S B) arena Q Q' (s : S) :
  returns m Q arena -> (forall a arena', Q a arena' -> returns (k (a, arena')) Q' s) ->
  returns (bind (in_arena m arena) k) Q' s.
Proof.
  intros (a & arena' & Hm & Ha)%returns_Ok Hk. apply returns_bind. unfold in_arena. rewrite Hm. variables. auto.
Qed.

Section walk.
Context {S : Type} (predicate closed : Ty -> M Fault S bool) (references : bool) (I : S -> Prop) (p c : Ty -> bool).
Context (Hp : forall t s, t ∈ D -> I s -> returns (predicate t) (fun b s' => b = p t /\ I s') s).
Context (Hc : forall t s, t ∈ D -> I s -> returns (closed t) (fun b s' => b = c t /\ I s') s).
Context (HS : forall t, t ∈ D -> exists l, stored types references t = Ok l /\ l ⊆ D).

(** A walk goes on from a type to what it stores, unless the type is closed. *)
Definition looks_at (t u : Ty) : Prop := c t = false /\ exists l, stored types references t = Ok l /\ u ∈ l.

Definition reached (root t : Ty) : Prop := rtc looks_at root t.

Definition weight (t : Ty) : nat := match stored types references t with Ok l => length l | Err _ => 0 end.

Definition unvisited (vs : list Ty) : nat := sum_list_with weight (filter (fun t => t ∉ vs) D).

Lemma unvisited_cons t vs : t ∈ D -> t ∉ vs -> unvisited (t :: vs) + weight t <= unvisited vs.
Proof.
  unfold unvisited. intros Ht Hvs. clear HD Hp Hc HS. induction D as [|u l IH]; [by apply elem_of_nil in Ht|].
  assert (forall l, sum_list_with weight (filter (fun t' => t' ∉ t :: vs) l) <=
    sum_list_with weight (filter (fun t' => t' ∉ vs) l)) as Hle.
  { clear. induction l as [|u l IH]; [done|]. rewrite !filter_cons. do 2 case_decide; cbn; try lia.
    exfalso. set_solver. }
  rewrite !filter_cons. apply elem_of_cons in Ht as [<-|Ht].
  - rewrite decide_False by set_solver. rewrite decide_True by done. cbn. specialize (Hle l). lia.
  - specialize (IH Ht). do 2 case_decide; cbn; try lia. set_solver.
Qed.

(** [V] is visited and [P] pending. *)
Record WalkInv (root : Ty) (V P : Ty -> Prop) : Prop := {
  walk_root : c root = false /\ (V root \/ P root);
  walk_pending t : P t -> reached root t;
  walk_visited t : V t -> p t = true /\ c t = false /\
    forall l u, stored types references t = Ok l -> u ∈ l -> P u \/ p u = true /\ (c u = true \/ V u) }.

Lemma walk_done root V P : WalkInv root V P -> (forall t, ~ P t) -> forall t, reached root t -> p t = true.
Proof.
  intros H HP t Ht. enough (p t = true /\ (c t = true \/ V t)) by tauto.
  revert t Ht. apply (rtc_ind_r (fun t => p t = true /\ (c t = true \/ V t))).
  - destruct (walk_root _ _ _ H) as (_ & [HV|[]%HP]). split; [by apply (walk_visited _ _ _ H)|by right].
  - intros t u _ (Hct & l & Hl & Hu) IH. destruct IH as [_ [IH|IH]]; [congruence|]. apply (walk_visited _ _ _ H) in IH as (_ & _ & IH).
    by destruct (IH l u Hl Hu) as [[]%HP|IH'].
Qed.

Definition pending_types (ts : list Ty) (pending : list nat) (t : Ty) : Prop := exists id, id ∈ pending /\ ts !! id = Some t.

Definition flags_of (ts vs : list Ty) (arena : TypeArena) : Prop :=
  forall i t, ts !! i = Some t -> visited_flags arena !! i = Some (bool_decide (t ∈ vs)).
Lemma grown_flags ts vs arena ts' arena' : Interned ts arena -> grown ts arena ts' arena' -> flags_of ts vs arena ->
  (forall t, t ∈ vs -> t ∈ ts) -> flags_of ts' vs arena'.
Proof.
  intros H (H' & [k ->] & _ & Hv) Hf Hvs i t. rewrite Hv, length_app. replace (length ts + length k - length ts) with (length k) by lia.
  assert (length (visited_flags arena) = length ts) as Hl.
  { unfold visited_flags. by rewrite length_fmap, (interned_length _ _ H). }
  intros [Hi|[Hi Ht]]%lookup_app_Some.
  - by apply lookup_app_l_Some, Hf.
  - rewrite lookup_app_r by lia. rewrite Hl. rewrite lookup_replicate_2 by (by eapply lookup_lt_Some). f_equal. symmetry.
    apply bool_decide_eq_false. intros Hin%Hvs. pose proof (interned_once _ _ H') as Hn.
    apply list.NoDup_app in Hn as (_ & Hn & _). apply (Hn _ Hin). by eapply list_elem_of_lookup_2.
Qed.

Lemma flags_insert ts vs arena arena' id t : Interned ts arena -> ts !! id = Some t -> flags_of ts vs arena ->
  visited_flags arena' = <[id := true]> (visited_flags arena) -> flags_of ts (t :: vs) arena'.
Proof.
  intros H Hid Hf Hv i u Hu. rewrite Hv. destruct (decide (i = id)) as [->|Hne].
  - simplify_eq. rewrite list_lookup_insert_eq; [|by apply Hf, lookup_lt_Some in Hid]. f_equal. symmetry.
    apply bool_decide_eq_true. by left.
  - rewrite list_lookup_insert_ne by done. rewrite (Hf _ _ Hu). f_equal. apply bool_decide_ext. split; [by right|].
    intros [->|Hin]%elem_of_cons; [|done]. destruct Hne. eapply NoDup_lookup; [by eapply interned_once|done..].
Qed.

(** What is left to do of a walk, and its result. *)
Definition walks (root : Ty) (m : M Fault S bool) : S -> Prop :=
  returns m (fun b s' => I s' /\ (b = true <-> forall t, reached root t -> p t = true)).

Definition WalkState (root : Ty) (ts vs : list Ty) (arena : TypeArena) (pending : list nat) : Prop :=
  Interned ts arena /\ ts ⊆ D /\ flags_of ts vs arena /\ (forall t, t ∈ vs -> t ∈ ts) /\
  (forall id, id ∈ pending -> is_Some (ts !! id)) /\ WalkInv root (fun t => t ∈ vs) (pending_types ts pending).

(** A pending type that is closed or visited is dropped. *)
Lemma walk_skip root ts vs arena arena' id t pending : WalkState root ts vs arena (id :: pending) -> ts !! id = Some t ->
  p t = true -> c t = true \/ t ∈ vs -> Interned ts arena' -> flags_of ts vs arena' -> WalkState root ts vs arena' pending.
Proof.
  intros (H & Hts & _ & Hvs & Hpending & Hinv) Hid Hpt Hseen H' Hf'. split_and!; try done.
  - intros i Hi. apply Hpending. by right.
  - split; [| |].
    + destruct (walk_root _ _ _ Hinv) as (Hroot & [?|(i & Hi & Hiu)]); split; [done|by left|done|].
      apply elem_of_cons in Hi as [->|Hi]; [|right; by exists i]. simplify_eq. destruct Hseen; [congruence|by left].
    + intros u (i & Hi & Hu). apply (walk_pending _ _ _ Hinv). exists i. split; [by right|done].
    + intros u Hu. destruct (walk_visited _ _ _ Hinv _ Hu) as (Hpu & Hcu & Hch). split_and!; [done..|].
      intros l v Hl Hv. destruct (Hch _ _ Hl Hv) as [(i & Hi & Hiv)|?]; [|by right].
      apply elem_of_cons in Hi as [->|Hi]; [right|left; by exists i]. simplify_eq. destruct Hseen; auto.
Qed.

(** A type that is looked into becomes visited, and its children pending. *)
Lemma walk_open root ts vs arena ts' arena1 arena' id t pending l ids :
  WalkState root ts vs arena (id :: pending) -> ts !! id = Some t -> p t = true -> c t = false ->
  Interned ts arena1 -> flags_of ts (t :: vs) arena1 -> stored types references t = Ok l ->
  grown ts arena1 ts' arena' -> ts' ⊆ D -> Forall2 (fun i u => ts' !! i = Some u) ids l ->
  WalkState root ts' (t :: vs) arena' (rev ids ++ pending).
Proof.
  intros (H & Hts & _ & Hvs & Hpending & Hinv) Hid Hpt Hct H1 Hf1 Hl Hg Hts' Hids.
  assert (forall u, u ∈ t :: vs -> u ∈ ts) as Hvs' by (intros u [->|]%elem_of_cons; [by eapply list_elem_of_lookup_2|auto]).
  assert (forall i u, ts !! i = Some u -> ts' !! i = Some u) as Hext by (intros i u; by eapply grown_lookup).
  assert (reached root t) as Hreach by (apply (walk_pending _ _ _ Hinv); exists id; split; [by left|done]).
  split_and!; try done; [by destruct Hg|by eapply grown_flags| | |].
  - intros u Hu%Hvs'. apply list_elem_of_lookup in Hu as [i Hi]. eapply list_elem_of_lookup_2, Hext, Hi.
  - intros i [Hi|Hi]%elem_of_app.
    + rewrite elem_of_rev in Hi; apply list_elem_of_lookup in Hi as [k Hk].
      destruct (Forall2_lookup_l _ _ _ _ _ Hids Hk) as (u & _ & Hu). by exists u.
    + destruct (Hpending i) as [u Hu]; [by right|]. exists u. auto.
  - split.
    + destruct (walk_root _ _ _ Hinv) as (Hroot & [?|(i & Hi & Hiu)]); split; [done|left; by right|done|].
      apply elem_of_cons in Hi as [->|Hi]; [simplify_eq; left; by left|right]. exists i. split; [apply elem_of_app; by right|auto].
    + intros u (i & [Hi|Hi]%elem_of_app & Hu).
      * rewrite elem_of_rev in Hi; apply list_elem_of_lookup in Hi as [k Hk].
        destruct (Forall2_lookup_l _ _ _ _ _ Hids Hk) as (u' & Hu' & Hu''). simplify_eq.
        eapply rtc_r; [exact Hreach|]. split; [done|]. exists l. split; [done|]. by eapply list_elem_of_lookup_2.
      * apply (walk_pending _ _ _ Hinv). exists i. split; [by right|]. destruct (Hpending i) as [u' Hu']; [by right|].
        rewrite Hu'. by rewrite (Hext _ _ Hu') in Hu.
    + intros u [->|Hu]%elem_of_cons.
      * split_and!; [done..|]. intros l' v Hl' Hv. rewrite Hl in Hl'. injection Hl' as <-. left. apply list_elem_of_lookup in Hv as [k Hk].
        destruct (Forall2_lookup_r _ _ _ _ _ Hids Hk) as (i & Hi & Hiv). exists i. split; [|done].
        apply elem_of_app. left. rewrite elem_of_rev. by eapply list_elem_of_lookup_2.
      * destruct (walk_visited _ _ _ Hinv _ Hu) as (Hpu & Hcu & Hch). split_and!; [done..|].
        intros l' v Hl' Hv. destruct (Hch _ _ Hl' Hv) as [(i & Hi & Hiv)|(? & [?|?])]; [|by auto|right; split; [done|right; by right]].
        apply elem_of_cons in Hi as [->|Hi]; [right; simplify_eq; split; [done|right; by left]|].
        left. exists i. split; [apply elem_of_app; by right|auto].
Qed.

Lemma walk_loop_run root fuel : forall ts vs arena pending s, WalkState root ts vs arena pending ->
  length pending + unvisited vs < fuel -> I s ->
  walks root (walk_loop finish types predicate closed references fuel arena pending) s.
Proof.
  induction fuel as [|fuel IH]; intros ts vs arena pending s Hw Hfuel Hs; [lia|]. unfold walks. cbn [walk_loop].
  pose proof Hw as (H & Hts & Hf & Hvs & Hpending & Hinv). destruct pending as [|id pending].
  { variables. split; [done|]. split; [|done]. intros _. eapply walk_done; [exact Hinv|]. by intros t (id & ?%elem_of_nil & _). }
  destruct (Hpending id) as [t Hid]; [by left|]. assert (t ∈ D) as HtD by (by eapply Hts, list_elem_of_lookup_2).
  assert (reached root t) as Hreach by (apply (walk_pending _ _ _ Hinv); exists id; split; [by left|done]).
  variables. eapply returns_lift; [by eapply interned_type|]. variables.
  eapply returns_mono; [by apply Hp|]. intros b s' [-> Hs']. destruct (p t) eqn:Hpt; cbn [negb]; variables; last first.
  { split; [done|]. split; [done|]. intros Hall. by rewrite Hall in Hpt. }
  eapply returns_mono; [by apply Hc|]. intros b s1 [-> Hs1]. cbn [length] in Hfuel.
  destruct (c t) eqn:Hct; cbv beta iota; [by apply (IH ts vs); [eapply walk_skip; eauto|lia|]|].
  eapply in_arena_run; [by eapply visit_node_run|]. intros first arena1 (H1 & Hflag & Hflags). cbv beta iota.
  pose proof (flags_insert _ _ _ _ _ _ H Hid Hf Hflags) as Hf1.
  pose proof (Hf _ _ Hid) as Hft. rewrite Hflag in Hft. injection Hft as Hft.
  destruct first; cbn [negb] in *; symmetry in Hft.
  - apply bool_decide_eq_false in Hft. destruct (HS t HtD) as (l & Hl & HlD). eapply in_arena_run; [by eapply children_run|].
    intros pending' arena' (ts' & ids & Hg & Hts' & -> & Hids). cbv beta iota. apply (IH ts' (t :: vs)); [by eapply walk_open| |done].
    pose proof (unvisited_cons t vs HtD Hft) as Hu. unfold weight in Hu. rewrite Hl in Hu. apply Forall2_length in Hids.
    rewrite length_app, length_rev. lia.
  - apply bool_decide_eq_true in Hft. apply (IH ts vs); [|lia|done]. eapply walk_skip; eauto.
    intros i u Hu. rewrite (Hf1 _ _ Hu). f_equal. apply bool_decide_ext. rewrite elem_of_cons. naive_solver.
Qed.
(** A leaf stores nothing. *)
Lemma no_children t l : has_children t references = false -> stored types references t = Ok l -> l = [].
Proof. destruct t; cbn; try done; intros H Hl; try (injection Hl as <-); try done. by rewrite H. Qed.

Lemma reached_closed root l : p root = true -> c root = true \/ (stored types references root = Ok l /\ l = []) ->
  forall t, reached root t -> p t = true.
Proof.
  intros Hpr Hstop t Ht. apply rtc_inv in Ht as [->|(u & (Hc' & l' & Hl' & Hu) & _)]; [done|].
  destruct Hstop as [?|[Hl ->]]; [congruence|]. rewrite Hl in Hl'. injection Hl' as <-. by apply elem_of_nil in Hu.
Qed.

Lemma walk_types_run root fuel s : root ∈ D -> sum_list_with weight D < fuel -> I s ->
  walks root (walk_types finish types predicate closed references fuel root) s.
Proof.
  intros Hroot Hfuel Hs. unfold walks, walk_types. variables.
  eapply returns_mono; [by apply Hp|]. intros b s1 [-> Hs1]. destruct (p root) eqn:Hpr; cbn [negb]; cbv beta iota; last first.
  { variables. split; [done|]. split; [done|]. intros Hall. rewrite Hall in Hpr; [done|apply rtc_refl]. }
  variables. eapply returns_mono; [by apply Hc|]. intros b s2 [-> Hs2]. destruct (HS root Hroot) as (l & Hl & HlD).
  destruct (c root || negb (has_children root references)) eqn:Hstop.
  { variables. split; [done|]. split; [|done]. intros _. apply (reached_closed root l Hpr).
    apply orb_true_iff in Hstop as [?|Hleaf%negb_true_iff]; [by left|right]. split; [done|]. by eapply no_children. }
  apply orb_false_iff in Hstop as [Hcr _]. pose proof interned_default as H0.
  eapply in_arena_run; [by apply (intern_run D []); [|apply list_subseteq_nil|..]|].
  intros id arena1 (ts1 & Hg1 & Hts1 & Hid). cbv beta iota. pose proof (proj1 Hg1) as H1.
  assert (flags_of ts1 [] arena1) as Hf1.
  { eapply (grown_flags [] []); [done|done|by intros i t ?|by intros t ?%elem_of_nil]. }
  eapply in_arena_run; [by eapply visit_node_run|]. intros first arena2 (H2 & _ & Hflags). cbv beta iota.
  pose proof (flags_insert _ _ _ _ _ _ H1 Hid Hf1 Hflags) as Hf2.
  eapply in_arena_run; [by eapply children_run|]. intros pending arena3 (ts3 & ids & Hg3 & Hts3 & -> & Hids). cbv beta iota.
  apply (walk_loop_run root fuel ts3 [root]); [| |done].
  - eapply (walk_open root ts1 [] arena1 ts3 arena2 arena3 id root [] l ids); try done.
    split_and!; try done.
    + by intros t ?%elem_of_nil.
    + intros i Hi%list_elem_of_singleton. by subst.
    + split; [split; [done|right; exists id; split; [by left|done]]| |by intros t ?%elem_of_nil].
      intros t (i & ->%list_elem_of_singleton & Ht). simplify_eq. apply rtc_refl.
  - pose proof (unvisited_cons root [] Hroot ltac:(by intros ?%elem_of_nil)) as Hu. unfold weight in Hu. rewrite Hl in Hu.
    apply Forall2_length in Hids. rewrite app_nil_r, length_rev.
    assert (unvisited [] <= sum_list_with weight D) as Hle; [|lia].
    unfold unvisited. clear. induction D as [|t l IH]; [done|]. rewrite filter_cons. case_decide; cbn; lia.
Qed.
End walk.

End interned.
