(* ===== verification/RecursiveTypes.v ===== *)
(** * Recursive types

    [src/src/recursive.rs]: which instances of records and unions contain themselves, the memo of the answers, and the walks
    over what a type stores or reaches. A [BTreeMap] is an ascending list, a [Vec] used as a stack of numbers has its top
    at the head, and a memo of a declaration is at its identifier. The lock of a memo is held for one read or one insertion,
    so a sequence of calls is a sequence of steps on [Memo]. *)
From stdpp Require Import list gmap.
From S2P Require Import Prelude Wire Faults Ordered Utf8 Render Kinds Syntax Report Types Inference.
From S2P Require Import Declarations.
From S2P Require Import Declarations TypeArena Recursion.
Local Open Scope nat_scope.
Local Open Scope monad_scope.

(** ** The graph of declarations *)

Definition is_parameter (parameter : RString) (argument : Ty) : bool :=
  match argument with Ty_Variable name => bool_decide (name = parameter) | _ => false end.

Definition at_own_parameters (parameters : list RString) (arguments : list Ty) : bool :=
  match parameters with
  | [] => false
  | _ => (length parameters =? length arguments) && forallb (fun e => is_parameter e.1 e.2) (zip parameters arguments)
  end.

Definition generic_declaration (types : TypeContext) (ty : Ty) : Try bool :=
  match ty with
  | Ty_Record id arguments => record ← record_at types id; mret (at_own_parameters (CheckedRecord_parameters record) arguments)
  | Ty_Union id arguments => union_ ← union_at types id; mret (at_own_parameters (CheckedUnion_parameters union_) arguments)
  | _ => mret false
  end.

(** Whether two record or union types instantiate the same declaration. *)
Definition same_declaration (left_ right_ : Ty) : bool :=
  match left_, right_ with
  | Ty_Record left_ _, Ty_Record right_ _ | Ty_Union left_ _, Ty_Union right_ _ => left_ =? right_
  | _, _ => false
  end.

Definition is_union (ty : Ty) : bool := match ty with Ty_Union _ _ => true | _ => false end.

Definition changes_arguments (span : Span) : DiagnosticData :=
  Diagnostic.of_kind RecursiveTypeChangesArguments
    (str "recursive generic type changes its arguments; use a non-growing recursive occurrence") span.

(** The record or the union is expanded into the types of its fields or payloads. *)
Definition expansion (types : TypeContext) (ty : Ty) : Try (list Ty) :=
  match ty with
  | Ty_Record id arguments => record_fields types id arguments
  | Ty_Union id arguments => payloads ← union_payloads types id arguments; mret (omap (fun payload => payload) payloads)
  | _ => panic
  end.

Definition TypeSet : Type := list (Ty * unit).
Definition set_insert (ty : Ty) (s : TypeSet) : TypeSet := Ordered.map_insert ty tt s.
Definition set_contains (ty : Ty) (s : TypeSet) : bool := bool_decide (is_Some (map_get ty s)).
Definition set_extend (tys : list Ty) (s : TypeSet) : TypeSet := foldl (fun s ty => set_insert ty s) s tys.

Record Graph := mk_Graph {
  graph_nodes : list (Ty * list Ty);
  active : list Ty;
  shared : list nat;
  recursive_types : TypeSet }.

Definition GM : Type -> Type := M Failure Graph.

Definition broken {S A} (r : Try A) : M Failure S A :=
  match r with Ok a => ret a | Err fault => fail (Broken fault) end.

(** [iter().position] *)
Fixpoint position (ty : Ty) (l : list Ty) : option nat :=
  match l with
  | [] => None
  | x :: l => if decide (x = ty) then Some 0 else S <$> position ty l
  end.

Section visit.
Context (types : TypeContext) (span : Span) (generic_root : option Ty).

(** A call that restores the stack of shared pointers, also when it fails. *)
Definition below_shared (m : GM unit) : GM unit := fun g =>
  let '(r, g') := m (mk_Graph (graph_nodes g) (active g) (length (active g) :: shared g) (recursive_types g)) in
  (r, mk_Graph (graph_nodes g') (active g') (tail (shared g')) (recursive_types g')).

Section arms.
Context (visit : Ty -> GM unit).

(** A type on the active path closes a cycle. *)
Definition close_cycle (start : nat) : GM unit :=
  let? cycle := gets (fun g => drop start (active g)) in
  let? entered := gets shared in
  if negb (existsb is_union cycle) && negb (existsb (fun entered => start <? entered) entered) then
    fail (Rejected (Diagnostic.of_kind InfiniteRecursiveLayout
      (str "recursive value layout must pass through a union with a finite alternative") span))
  else modify (fun g => mk_Graph (graph_nodes g) (active g) (shared g) (set_extend cycle (recursive_types g))).

Definition root_changes (ty : Ty) : bool :=
  match generic_root with Some root => negb (bool_decide (root = ty)) && same_declaration root ty | None => false end.

Definition over_limit (g : Graph) : bool := (4096 <=? length (graph_nodes g)) || (MAX_NESTING <=? length (active g)).

(** [RecursiveTypeChangesArguments] for an expansion that keeps growing. *)
Definition limit_error (ty : Ty) (g : Graph) : DiagnosticData :=
  if existsb (fun a => negb (bool_decide (a = ty)) && same_declaration a ty) (active g) then changes_arguments span
  else
    Diagnostic.of_kind RecursiveTypeExpansionLimit (str "recursive type expansion exceeds the compiler limit") span.

Definition open_node (ty : Ty) : GM unit :=
  let? fields := broken (expansion types ty) in
  modify (fun g => mk_Graph (Ordered.map_insert ty fields (graph_nodes g)) (active g ++ [ty]) (shared g) (recursive_types g)) ;;;
  for_each (fun field => checking (bounded_type field span) ;;; visit field) fields ;;;
  modify (fun g => mk_Graph (graph_nodes g) (removelast (active g)) (shared g) (recursive_types g)).

(** A record or a union. *)
Definition visit_declaration (ty : Ty) : GM unit :=
  let? g := gets (fun g => g) in
  match position ty (active g) with
  | Some start => close_cycle start
  | None =>
    if root_changes ty then fail (Rejected (changes_arguments span))
    else if bool_decide (is_Some (map_get ty (graph_nodes g))) then ret tt
    else if over_limit g then fail (Rejected (limit_error ty g))
    else open_node ty
  end.
End arms.

(** The collections and tuples around the declarations. *)
Fixpoint visit_parts (declaration : Ty -> GM unit) (ty : Ty) : GM unit :=
  match ty with
  | Ty_Record _ _ | Ty_Union _ _ => declaration ty
  | Ty_Array inner | Ty_List inner | Ty_Vec inner | Ty_FixedArray inner _ => visit_parts declaration inner
  | Ty_Shared inner _ => below_shared (visit_parts declaration inner)
  | Ty_Tuple elements => for_each (visit_parts declaration) elements
  | _ => ret tt
  end.

(** [Graph::visit]: the active path holds at most [MAX_NESTING] types, which bounds the fuel. *)
Fixpoint visit_type (fuel : nat) (ty : Ty) : GM unit :=
  visit_parts (match fuel with
    | 0 => fun _ => fail (Broken OutOfFuel)
    | S fuel => visit_declaration (visit_type fuel)
    end) ty.
End visit.

(** ** Components *)

(** How often [pending.pop()] gives a part of [ty]. *)
Fixpoint spread (ty : Ty) : nat :=
  match ty with
  | Ty_Array inner | Ty_List inner | Ty_Vec inner | Ty_FixedArray inner _ | Ty_Shared inner _ => S (spread inner)
  | Ty_Tuple elements => S (sum_list_with spread elements)
  | _ => 1
  end.

(** [indices[&child]] *)
Definition index_of (ordered : list Ty) (ty : Ty) : Try nat := or_panic (position ty ordered).

(** [while let Some(child) = pending.pop()], which pushes the targets of the edges of one node. *)
Fixpoint targets_loop (fuel : nat) (ordered : list Ty) (pending : list Ty) (targets : list nat) : Try (list nat) :=
  match fuel with
  | 0 => Err OutOfFuel
  | S fuel =>
    match pending with
    | [] => mret targets
    | child :: pending =>
      match child with
      | Ty_Record _ _ | Ty_Union _ _ =>
        target ← index_of ordered child; targets_loop fuel ordered pending (targets ++ [target])
      | Ty_Array inner | Ty_List inner | Ty_Vec inner | Ty_FixedArray inner _ | Ty_Shared inner _ =>
        targets_loop fuel ordered (inner :: pending) targets
      | Ty_Tuple elements => targets_loop fuel ordered (rev elements ++ pending) targets
      | _ => targets_loop fuel ordered pending targets
      end
    end
  end.

Definition targets_of (ordered : list Ty) (fields : list Ty) : Try (list nat) :=
  targets_loop (S (sum_list_with spread fields)) ordered (rev fields) [].

Definition edges_of (nodes : list (Ty * list Ty)) : Try (list (list nat)) :=
  mapM (fun node => targets_of (fst <$> nodes) node.2) nodes.

Module Components.
Import Recursion.

(** [while let Some((index, finished)) = pending.pop()]: the last edge is on top. *)
Definition visit_turn (edges : list (list nat)) : RM (option unit) :=
  let? l := gets stack in
  match l with
  | [] => ret (Some tt)
  | (index, finished) :: l =>
    modify (fun s => mk_State (visited s) (order s) l (component s) (next s)) ;;;
    if finished : bool then
      modify (fun s => mk_State (visited s) (order s ++ [index]) (stack s) (component s) (next s)) ;;;
      ret None
    else
      let? fresh := insert_visited index in
      if fresh : bool then
        let? row := element edges index in
        modify (fun s => mk_State (visited s) (order s)
          (rev ((fun next => (next, false)) <$> row) ++ (index, true) :: stack s) (component s) (next s)) ;;;
        ret None
      else ret None
  end.

Definition visit_root (edges : list (list nat)) (root : nat) : RM unit :=
  modify (fun s => mk_State (visited s) (order s) [(root, false)] (component s) (next s)) ;;;
  turns (length edges + length (concat edges) + 2) (visit_turn edges).

(** One component; the loop over [component] is that of [Recursion.collect_turn]. Its members are recursive if there
    are several or one refers to itself. *)
Definition root_step (edges reverse : list (list nat)) (root : nat) : RM (list nat) :=
  let? fresh := insert_visited root in
  if negb fresh then ret []
  else
    modify (fun s => mk_State (visited s) (order s) (stack s) [root] 0) ;;;
    turns (length edges + 1) (collect_turn reverse) ;;;
    let? component := gets component in
    let? row := element edges root in
    ret (if (1 <? length component) || bool_decide (root ∈ row) then component else []).

(** The indices of the nodes on cycles. *)
Definition search (edges reverse : list (list nat)) : RM (list nat) :=
  for_each (visit_root edges) (seq 0 (length edges)) ;;;
  modify (fun s => mk_State ∅ (order s) (stack s) (component s) (next s)) ;;;
  let? order := gets order in
  let? members := collect (root_step edges reverse) (rev order) in
  ret (concat members).

Definition recursive_indices (edges : list (list nat)) : Try (list nat) :=
  reverse ← reverse_rows edges;
  fst (search edges reverse (mk_State ∅ [] [] [] 0)).

End Components.

(** ** Types with a finite value *)

Fixpoint finite (ty : Ty) (known : TypeSet) : bool :=
  match ty with
  | Ty_Record _ _ | Ty_Union _ _ => set_contains ty known
  | Ty_Tuple elements => forallb (fun element => finite element known) elements
  | Ty_FixedArray element _ | Ty_Shared element _ => finite element known
  | _ => true
  end.

Section inhabited.
Context (types : TypeContext).

Definition has_value (node : Ty * list Ty) (known : TypeSet) : Try bool :=
  match node.1 with
  | Ty_Union id arguments =>
    payloads ← union_payloads types id arguments;
    mret (existsb (fun payload => match payload with Some payload => finite payload known | None => true end) payloads)
  | _ => mret (forallb (fun field => finite field known) node.2)
  end.

(** One pass over the nodes. *)
Fixpoint inhabited_pass (nodes : list (Ty * list Ty)) (known : TypeSet) : Try TypeSet :=
  match nodes with
  | [] => mret known
  | node :: nodes =>
    valid ← has_value node known;
    inhabited_pass nodes (if valid : bool then set_insert node.1 known else known)
  end.

(** A pass that adds nothing ends the loop, so there is at most one pass more than there are nodes. *)
Fixpoint inhabited_loop (fuel : nat) (nodes : list (Ty * list Ty)) (known : TypeSet) : Try TypeSet :=
  match fuel with
  | 0 => Err OutOfFuel
  | S fuel =>
    after ← inhabited_pass nodes known;
    if length after =? length known then mret after else inhabited_loop fuel nodes after
  end.

Definition inhabited_types (nodes : list (Ty * list Ty)) : Try TypeSet := inhabited_loop (S (length nodes)) nodes [].
End inhabited.

(** ** The analysis of one type *)

(** A fault, or a diagnostic, of a call. *)
Definition of_try {A} (r : Try A) : Result A Failure := match r with Ok a => Ok a | Err fault => Err (Broken fault) end.

Definition result_bind {A B E} (r : Result A E) (k : A -> Result B E) : Result B E :=
  match r with Ok a => k a | Err e => Err e end.

Definition without_value (span : Span) : DiagnosticData :=
  Diagnostic.of_kind RecursiveUnionWithoutBaseCase
    (str "recursive union has no finite value; add a base case or an empty collection alternative") span.

(** The part of [analyze] after the search. *)
Definition classify (types : TypeContext) (span : Span) (g : Graph) : Result (list (Ty * bool)) Failure :=
  let ordered := fst <$> graph_nodes g in
  result_bind (of_try (
    edges ← edges_of (graph_nodes g);
    indices ← Components.recursive_indices edges;
    members ← mapM (fun index => or_panic (ordered !! index)) indices;
    inhabited ← inhabited_types types (graph_nodes g);
    mret (set_extend members (recursive_types g), inhabited))) (fun result =>
    let '(recursive, inhabited) := result in
    if existsb (fun e => negb (set_contains e.1 inhabited)) recursive then Err (Rejected (without_value span))
    else Ok ((fun ty => (ty, set_contains ty recursive)) <$> ordered)).

Definition analyze (types : TypeContext) (root : Ty) (span : Span) : Result (list (Ty * bool)) Failure :=
  result_bind (of_try (generic_declaration types root)) (fun generic =>
    let generic_root := if generic : bool then Some root else None in
    match visit_type types span generic_root (S MAX_NESTING) root (mk_Graph [] [] [] []) with
    | (Err e, _) => Err e
    | (Ok _, g) => classify types span g
    end).

(** ** The memo *)

Definition Entries : Type := list (list Ty * Result bool DiagnosticData).

Record Memo := mk_Memo {
  record_memo : list Entries;
  union_memo : list Entries }.

Definition Memo_default (types : TypeContext) : Memo :=
  mk_Memo (replicate (length (records types)) []) (replicate (length (unions types)) []).

(** The cache of the declaration of a type, and its arguments. *)
Definition entries_of (ty : Ty) (memo : Memo) : option (Entries * list Ty) :=
  match ty with
  | Ty_Record id arguments => (fun entries => (entries, arguments)) <$> record_memo memo !! id
  | Ty_Union id arguments => (fun entries => (entries, arguments)) <$> union_memo memo !! id
  | _ => None
  end.

Definition memo_insert (ty : Ty) (value : Result bool DiagnosticData) (memo : Memo) : option Memo :=
  match ty with
  | Ty_Record id arguments =>
    entries ← record_memo memo !! id;
    Some (mk_Memo (<[id := Ordered.map_insert arguments value entries]> (record_memo memo)) (union_memo memo))
  | Ty_Union id arguments =>
    entries ← union_memo memo !! id;
    Some (mk_Memo (record_memo memo) (<[id := Ordered.map_insert arguments value entries]> (union_memo memo)))
  | _ => None
  end.

(** The error of a memo is about the span of the call. *)
Definition with_span (d : DiagnosticData) (span : Span) : DiagnosticData :=
  mk_DiagnosticData (d_severity d) (d_code d) (d_message d) span (d_kind d) (d_related d) (d_help d) (d_fixes d) (d_detail d)
    (d_trap d).

Definition insert_entry (ty : Ty) (value : Result bool DiagnosticData) : M Failure Memo unit :=
  let? memo := gets (fun memo => memo) in
  match memo_insert ty value memo with Some memo => modify (fun _ => memo) | None => fail (Broken Panic) end.

Section memo.
Context (types : TypeContext).

(** Another declaration at its own parameters is left to the analysis that starts there. *)
Definition insert_node (ty : Ty) (node : Ty * bool) : M Failure Memo unit :=
  let? generic := broken (if bool_decide (node.1 = ty) then mret false else generic_declaration types node.1) in
  if generic : bool then ret tt else insert_entry node.1 (Ok node.2).

Definition is_declaration (ty : Ty) : bool := match ty with Ty_Record _ _ | Ty_Union _ _ => true | _ => false end.

(** [recursive_checked] of a record or union whose entry is absent. *)
Definition analyze_new (ty : Ty) (span : Span) : M Failure Memo bool :=
  match analyze types ty span with
  | Ok nodes =>
    let? result := broken (or_panic (Ordered.map_get ty nodes)) in
    for_each (insert_node ty) nodes ;;;
    ret result
  | Err (Rejected error) => insert_entry ty (Err error) ;;; fail (Rejected error)
  | Err (Broken fault) => fail (Broken fault)
  end.

Definition recursive_checked (ty : Ty) (span : Span) : M Failure Memo bool :=
  if negb (is_declaration ty) then ret false
  else
    let? memo := gets (fun memo => memo) in
    match entries_of ty memo with
    | None => fail (Broken Panic)
    | Some (entries, arguments) =>
      match Ordered.map_get arguments entries with
      | Some (Ok value) => ret value
      | Some (Err error) => fail (Rejected (with_span error span))
      | None => analyze_new ty span
      end
    end.

Definition Span_default : Span := mk_Span (uint_wrap 64 0) (uint_wrap 64 0) None.

(** [unwrap_or(true)] *)
Definition recursive (ty : Ty) : M Fault Memo bool := fun memo =>
  match recursive_checked ty Span_default memo with
  | (Ok value, memo) => (Ok value, memo)
  | (Err (Rejected _), memo) => (Ok true, memo)
  | (Err (Broken fault), memo) => (Err fault, memo)
  end.
End memo.

(** ** Walks *)

Section walks.
Context {S : Type} (finish : list Write -> u64) (types : TypeContext) (fuel : nat).

Definition stored_all_closed (root : Ty) (predicate closed : Ty -> M Fault S bool) : M Fault S bool :=
  walk_types finish types predicate closed false fuel root.

Definition stored_all (root : Ty) (predicate : Ty -> M Fault S bool) : M Fault S bool :=
  stored_all_closed root predicate (fun _ => ret false).

(** [found] is for a type that the root stores, or that a reference in it points to. *)
Definition reaches_closed (root : Ty) (found closed : Ty -> M Fault S bool) : M Fault S bool :=
  negated (walk_types finish types (fun ty => negated (found ty)) closed true fuel root).

Definition reaches_type (root : Ty) (found : Ty -> M Fault S bool) : M Fault S bool :=
  reaches_closed root found (fun _ => ret false).
End walks.
