(* ===== verification/TypeProperties.v ===== *)
(** * Properties of types

    The methods of [Type] in [src/src/check.rs] that ask what a value of a type may do: whether it is copied, dropped,
    captured, sent or shared, and what it holds. They share the memo of [recursive], so each is a computation on [Memo].
    A method that follows declarations takes fuel for their nesting; [walk_fuel] is for the loops of the walks. *)
From stdpp Require Import list strings gmap.
From S2P Require Import Prelude Wire Faults Ordered Types Inference Declarations TypeArena.
From S2P Require Import RecursiveTypes.
Local Open Scope nat_scope.
Local Open Scope monad_scope.

Abbreviation PM := (M Fault Memo).

(** [&&] and [||] of computations. *)
Definition and_also {S} (m k : M Fault S bool) : M Fault S bool := let? b := m in if b : bool then k else ret false.
Definition or_also {S} (m k : M Fault S bool) : M Fault S bool := let? b := m in if b : bool then ret true else k.

(** ** Properties of the type alone *)

(** [contains_unknown] *)
Definition contains_unknown (ty : Ty) : bool := any_leaf is_unknown ty.

Fixpoint contains_reference (ty : Ty) : bool :=
  match ty with
  | Ty_Reference _ _ => true
  | Ty_Dyn dyn => DynType_borrowed dyn
  | Ty_Array element | Ty_List element | Ty_Vec element | Ty_FixedArray element _ | Ty_Shared element _ =>
    contains_reference element
  | Ty_Tuple elements => existsb contains_reference elements
  | Ty_Union _ arguments => existsb contains_reference arguments
  | _ => false
  end.

Fixpoint contains_mutable_reference (ty : Ty) : bool :=
  match ty with
  | Ty_Reference _ true => true
  | Ty_Reference value false | Ty_Array value | Ty_List value | Ty_Vec value | Ty_FixedArray value _ | Ty_Shared value _ =>
    contains_mutable_reference value
  | Ty_Tuple elements => existsb contains_mutable_reference elements
  | Ty_Union _ arguments => existsb contains_mutable_reference arguments
  | _ => false
  end.

Definition exportable (ty : Ty) : bool :=
  match ty with
  | Ty_Integer bits _ => existsb (N.eqb (uval bits)) [8; 16; 32; 64]%N
  | Ty_Binary bits => existsb (N.eqb (uval bits)) [32; 64]%N
  | Ty_Bool => true
  | _ => false
  end.

Definition is_unresolved (ty : Ty) : bool :=
  match ty with Ty_Variable _ | Ty_Infer _ | Ty_Partial _ _ | Ty_Application _ _ => true | _ => false end.

(** [SimdType::element] *)
Definition simd_element (ty : SimdType) : Ty :=
  match SimdType_kind ty with
  | SimdKind_Signed => Ty_Integer (SimdType_bits ty) true
  | SimdKind_Unsigned => Ty_Integer (SimdType_bits ty) false
  | SimdKind_Float => Ty_Binary (SimdType_bits ty)
  | SimdKind_Mask => Ty_Bool
  end.

(** A reference, a function, or a value that may hold borrows, by itself. *)
Definition holds_loan (ty : Ty) : bool :=
  match ty with Ty_Reference _ _ | Ty_Function _ _ _ _ => true | Ty_Dyn dyn => DynType_borrowed dyn | _ => false end.

Section properties.
Context (finish : list Write -> u64) (types : TypeContext) (walk_fuel : nat).

Definition stored_all_of (root : Ty) (predicate : Ty -> PM bool) : PM bool :=
  stored_all finish types walk_fuel root predicate.
Definition stored_all_closed_of (root : Ty) (predicate closed : Ty -> PM bool) : PM bool :=
  stored_all_closed finish types walk_fuel root predicate closed.
Definition reaches_of (root : Ty) (found : Ty -> PM bool) : PM bool := reaches_type finish types walk_fuel root found.

(** ** Copies and drops *)

Fixpoint is_copy (fuel : nat) (ty : Ty) : PM bool :=
  match fuel with
  | 0 => fail OutOfFuel
  | S fuel =>
    let? excluded := or_also (recursive types ty) (lift (is_noncopy_record types ty)) in
    if excluded : bool then ret false
    else
      match ty with
      | Ty_String | Ty_Utf8String | Ty_Vec _ | Ty_Once _ | Ty_Handle _ | Ty_Shared _ _ | Ty_Reference _ true
      | Ty_Partial _ _ | Ty_Application _ _ | Ty_Variable _ | Ty_Infer _ => ret false
      | Ty_Record id arguments => record_fields_all types id arguments (is_copy fuel)
      | Ty_Union id arguments => union_payloads_all types id arguments (is_copy fuel)
      | Ty_Dyn dyn => ret (DynType_copy dyn)
      | Ty_Array element | Ty_List element | Ty_FixedArray element _ => is_copy fuel element
      | Ty_Tuple elements => all_of (is_copy fuel) elements
      | _ => ret true
      end
  end.

Fixpoint needs_drop (fuel : nat) (ty : Ty) : PM bool :=
  match fuel with
  | 0 => fail OutOfFuel
  | S fuel =>
    let? needed := or_also (recursive types ty) (lift (has_user_drop types ty)) in
    if needed : bool then ret true
    else
      match ty with
      | Ty_String | Ty_Utf8String | Ty_Function _ _ _ _ | Ty_Once _ | Ty_Dyn _ | Ty_Shared _ _ => ret true
      | Ty_Record id arguments => negated (record_fields_all types id arguments (fun ty => negated (needs_drop fuel ty)))
      | Ty_Union id arguments => negated (union_payloads_all types id arguments (fun ty => negated (needs_drop fuel ty)))
      | Ty_Array _ | Ty_List _ | Ty_Vec _ => ret true
      | Ty_FixedArray element _ => needs_drop fuel element
      | Ty_Tuple elements => any_of (needs_drop fuel) elements
      | _ => ret false
      end
  end.

Definition holds_user_drop (ty : Ty) : PM bool :=
  negated (stored_all_of ty (fun part => negated (lift (has_user_drop types part)))).

Definition drop_runs_code (ty : Ty) : PM bool :=
  negated (stored_all_of ty (fun part => negated (lift (runs_on_drop types part)))).

(** ** Borrows *)

Fixpoint carries_loans (fuel : nat) (ty : Ty) : PM bool :=
  match fuel with
  | 0 => fail OutOfFuel
  | S fuel =>
    let? r := recursive types ty in
    if r : bool then negated (stored_all_of ty (fun ty => ret (negb (holds_loan ty))))
    else
      match ty with
      | Ty_Reference _ _ | Ty_Function _ _ _ _ => ret true
      | Ty_Dyn dyn => ret (DynType_borrowed dyn)
      | Ty_Array element | Ty_List element | Ty_Vec element | Ty_FixedArray element _ | Ty_Shared element _ =>
        carries_loans fuel element
      | Ty_Tuple elements => any_of (carries_loans fuel) elements
      | Ty_Record id arguments => negated (record_fields_all types id arguments (fun ty => negated (carries_loans fuel ty)))
      | Ty_Union id arguments => negated (union_payloads_all types id arguments (fun ty => negated (carries_loans fuel ty)))
      | _ => ret false
      end
  end.

Definition carries_loans_beside_owned_functions (ty : Ty) : PM bool :=
  negated (stored_all_closed_of ty
    (fun ty => or_also (lift (is_owned_function types ty)) (ret (negb (holds_loan ty))))
    (fun ty => lift (is_owned_function types ty))).

Definition contains_stored_reference (ty : Ty) : PM bool :=
  negated (stored_all_of ty (fun ty =>
    ret (match ty with Ty_Reference _ _ => false | Ty_Dyn dyn => negb (DynType_borrowed dyn) | _ => true end))).

Fixpoint holds_wide_vector (fuel : nat) (ty : Ty) : PM bool :=
  match fuel with
  | 0 => fail OutOfFuel
  | S fuel =>
    let? r := recursive types ty in
    if r : bool then ret false
    else
      match ty with
      | Ty_Simd vector => ret (128 <? uval (SimdType_width vector))%N
      | Ty_Tuple elements => any_of (holds_wide_vector fuel) elements
      | Ty_FixedArray element _ => holds_wide_vector fuel element
      | Ty_Record id arguments =>
        negated (record_fields_all types id arguments (fun ty => negated (holds_wide_vector fuel ty)))
      | Ty_Union id arguments =>
        negated (union_payloads_all types id arguments (fun ty => negated (holds_wide_vector fuel ty)))
      | _ => ret false
      end
  end.

Definition contains_stored_mutable_reference (ty : Ty) : PM bool :=
  negated (stored_all_of ty (fun ty => ret (negb (contains_mutable_reference ty)))).

Definition is_exclusive (ty : Ty) : bool := match ty with Ty_Reference _ true => true | _ => false end.

(** [matches!(ty, Type::Record(id, _) if types.records[*id].exclusive_regions != 0)] *)
Definition is_exclusive_record (ty : Ty) : Try bool :=
  match ty with
  | Ty_Record id _ => record ← record_at types id; mret (negb (uval (CheckedRecord_exclusive_regions record) =? 0)%N)
  | _ => mret false
  end.

Definition reaches_exclusive (ty : Ty) : PM bool := reaches_of ty (fun ty => ret (is_exclusive ty)).
Definition holds_exclusive_record (ty : Ty) : PM bool := reaches_of ty (fun ty => lift (is_exclusive_record ty)).

Definition cell_records : list string :=
  ["Mutex.Mutex"; "RwMutex.RwMutex"; "OnceValue.OnceValue"; "Atomic.Atomic"; "SyncMap.SyncMap"; "Channel.Channel";
   "SendOnly.SendOnly"; "ReceiveOnly.ReceiveOnly"; "DataChannel.Sender"; "DataChannel.Receiver"; "ErrGroup.ErrGroup"]%string.

Definition is_mutable_cell (fuel : nat) (ty : Ty) : PM bool :=
  match ty with
  | Ty_Record _ arguments => and_also (lift (std_record types cell_records ty)) (any_of (carries_loans fuel) arguments)
  | _ => ret false
  end.

(** ** Threads *)

(** The types that [sync_here] has judged with what they hold. *)
Definition sync_closed (ty : Ty) : Try bool :=
  match ty with Ty_Reference _ _ => mret true | _ => is_mutex types ty end.

Definition sync_here (can_sync : Ty -> PM bool) (ty : Ty) : PM bool :=
  match ty with
  | Ty_Variable _ | Ty_Infer _ | Ty_Partial _ _ | Ty_Application _ _ => ret false
  | Ty_Reference _ true | Ty_Once _ | Ty_Handle _ => ret false
  | Ty_Reference value false => can_sync value
  | Ty_Dyn dyn => ret (DynType_copy dyn && negb (DynType_borrowed dyn))
  | Ty_Shared _ kind => ret (Shared.atomic kind)
  | Ty_Record _ _ => negated (lift (is_unsync_record types ty))
  | _ => ret true
  end.

(** A shared reference starts a walk of its own. *)
Fixpoint can_sync (fuel : nat) (ty : Ty) : PM bool :=
  match fuel with
  | 0 => fail OutOfFuel
  | S fuel => stored_all_closed_of ty (sync_here (can_sync fuel)) (fun ty => lift (sync_closed ty))
  end.

(** What the walk over a recursive type asks of each part. *)
Definition send_here (fuel : nat) (ty : Ty) : PM bool :=
  match ty with
  | Ty_Reference _ _ => ret false
  | Ty_Dyn dyn => ret (DynType_send dyn && negb (DynType_borrowed dyn))
  | Ty_Shared value kind => and_also (ret (Shared.atomic kind)) (can_sync fuel value)
  | _ => ret (negb (is_unresolved ty))
  end.

Fixpoint can_send (fuel : nat) (ty : Ty) : PM bool :=
  match fuel with
  | 0 => fail OutOfFuel
  | S fuel =>
    let? r := recursive types ty in
    if r : bool then stored_all_of ty (send_here fuel)
    else
      match ty with
      | Ty_Variable _ | Ty_Infer _ | Ty_Partial _ _ | Ty_Application _ _ | Ty_Reference _ _ => ret false
      | Ty_Dyn dyn => ret (DynType_send dyn && negb (DynType_borrowed dyn))
      | Ty_Shared value kind => and_also (ret (Shared.atomic kind)) (and_also (can_send fuel value) (can_sync fuel value))
      | Ty_Array element | Ty_List element | Ty_Vec element | Ty_FixedArray element _ => can_send fuel element
      | Ty_Tuple elements => all_of (can_send fuel) elements
      | Ty_Record id arguments => record_fields_all types id arguments (can_send fuel)
      | Ty_Union id arguments => union_payloads_all types id arguments (can_send fuel)
      | _ => ret true
      end
  end.

(** ** Captures *)

(** The marks of a declaration that exclude a capture. *)
Definition excluded_capture (ty : Ty) : PM bool :=
  or_also (lift (has_user_drop types ty)) (or_also (lift (is_owned_function types ty)) (lift (is_shared_cell types ty))).

(** What the walk over a recursive type asks of each part. *)
Definition capture_here (fuel : nat) (ty : Ty) : PM bool :=
  and_also
    match ty with
    | Ty_Reference _ true | Ty_Once _ | Ty_Handle _ => ret false
    | Ty_Dyn dyn => ret (DynType_copy dyn)
    | Ty_Shared value kind => and_also (ret (Shared.atomic kind)) (can_sync fuel value)
    | _ => ret true
    end
    (negated (excluded_capture ty)).

Fixpoint can_capture (fuel : nat) (ty : Ty) : PM bool :=
  match fuel with
  | 0 => fail OutOfFuel
  | S fuel =>
    let? excluded := excluded_capture ty in
    if excluded : bool then ret false
    else
      let? r := recursive types ty in
      if r : bool then
        stored_all_closed_of ty (capture_here fuel) (fun ty => ret (match ty with Ty_Shared _ _ => true | _ => false end))
      else
        match ty with
        | Ty_Reference _ true | Ty_Once _ | Ty_Handle _ => ret false
        | Ty_Shared value kind => and_also (ret (Shared.atomic kind)) (can_sync fuel value)
        | Ty_Dyn dyn => ret (DynType_copy dyn)
        | Ty_Array element | Ty_List element | Ty_Vec element | Ty_FixedArray element _ => can_capture fuel element
        | Ty_Tuple elements => all_of (can_capture fuel) elements
        | Ty_Record id arguments => record_fields_all types id arguments (can_capture fuel)
        | Ty_Union id arguments => union_payloads_all types id arguments (can_capture fuel)
        | _ => ret true
        end
  end.

(** ** What a value holds *)

Definition reaches_recursive (ty : Ty) : PM bool := negated (stored_all_of ty (fun ty => negated (recursive types ty))).

Definition holds_rc (ty : Ty) : PM bool :=
  negated (stored_all_of ty (fun ty => ret (match ty with Ty_Shared _ kind => Shared.atomic kind | _ => true end))).

Definition has_interior_mutability (ty : Ty) : PM bool := reaches_of ty (fun ty => lift (is_shared_cell types ty)).

(** A record whose representation is opaque, or a type whose memory is not proven immutable. *)
Definition may_change (ty : Ty) : Try bool :=
  cell ← is_shared_cell types ty;
  if cell : bool then mret true
  else
    match ty with
    | Ty_Record id _ => record ← record_at types id; mret (Declarations.opaque record)
    | Ty_Error | Ty_Variable _ | Ty_Infer _ | Ty_Partial _ _ | Ty_Application _ _ | Ty_Shared _ _ | Ty_Handle _
    | Ty_Function _ _ _ _ | Ty_Once _ | Ty_Dyn _ | Ty_Reference _ true => mret true
    | _ => mret false
    end.

Definition is_frozen (ty : Ty) : PM bool := negated (reaches_of ty (fun ty => lift (may_change ty))).

Definition holds_cell (ty : Ty) : PM bool :=
  negated (stored_all_closed_of ty (fun ty => negated (lift (is_shared_cell types ty)))
    (fun ty => ret (match ty with Ty_Shared _ _ => true | _ => false end))).

Definition holds_unsync_arc (fuel : nat) (ty : Ty) : PM bool :=
  negated (stored_all_of ty (fun ty =>
    match ty with
    | Ty_Shared value kind => negated (and_also (ret (Shared.atomic kind)) (negated (can_sync fuel value)))
    | _ => ret true
    end)).

Definition holds_host_state (ty : Ty) : PM bool :=
  reaches_of ty (fun ty =>
    match ty with
    | Ty_Handle _ => ret true
    | Ty_Dyn dyn => or_also (ret (negb (DynType_copy dyn))) (lift (is_owned_function types ty))
    | _ => lift (is_owned_function types ty)
    end).

(** ** Walks that collect *)

(** The memo with the vector of a [RefCell]; its last element is at the head. *)
Definition with_memo {A} (m : PM A) : M Fault (Memo * list Ty) A := fun s =>
  let '(r, memo) := m s.1 in (r, (memo, s.2)).

Definition note (tys : list Ty) : M Fault (Memo * list Ty) unit := modify (fun s => (s.1, rev tys ++ s.2)).

(** The closure [reaches] of [lends_mutable], with its captured [functions]. *)
Definition lends_here (fuel : nat) (root : Ty) : M Fault (Memo * list Ty) bool :=
  reaches_type finish types walk_fuel root (fun ty =>
    match ty with
    | Ty_Function parameters _ _ result => note (parameters ++ [result])
    | Ty_Once result => note [result]
    | _ => ret tt
    end ;;;
    or_also (ret (is_exclusive ty))
      (or_also (lift (is_exclusive_record ty)) (with_memo (is_mutable_cell fuel ty)))).

Fixpoint lends_loop (turns fuel : nat) (seen : TypeSet) : M Fault (Memo * list Ty) bool :=
  match turns with
  | 0 => fail OutOfFuel
  | S turns =>
    let? functions := gets snd in
    match functions with
    | [] => ret false
    | ty :: functions =>
      modify (fun s => (s.1, functions)) ;;;
      if set_contains ty seen then lends_loop turns fuel seen
      else
        let? found := lends_here fuel ty in
        if found : bool then ret true else lends_loop turns fuel (set_insert ty seen)
    end
  end.

Definition without_notes {A} (m : M Fault (Memo * list Ty) A) : PM A := fun memo =>
  let '(r, s) := m (memo, []) in (r, s.1).

Definition lends_mutable (turns fuel : nat) (ty : Ty) : PM bool :=
  without_notes (or_also (lends_here fuel ty) (lends_loop turns fuel [])).

(** The closure of [holds_float], with its captured [views]. *)
Definition float_here (root : Ty) : M Fault (Memo * list Ty) bool :=
  reaches_type finish types walk_fuel root (fun ty =>
    match ty with Ty_ArrayView element => note [element] | _ => ret tt end ;;;
    ret (is_float ty || match ty with Ty_Simd vector => is_float (simd_element vector) | _ => false end)).

(** [views] starts empty for each root, and its elements go on top of [pending]. *)
Fixpoint float_loop (turns : nat) (pending : list Ty) (seen : TypeSet) : PM bool :=
  match turns with
  | 0 => fail OutOfFuel
  | S turns =>
    match pending with
    | [] => ret false
    | root :: pending =>
      if set_contains root seen then float_loop turns pending seen
      else
        let? (found, views) := without_notes (let? found := float_here root in let? views := gets snd in ret (found, views)) in
        if found : bool then ret true else float_loop turns (views ++ pending) (set_insert root seen)
    end
  end.

Definition holds_float (turns : nat) (ty : Ty) : PM bool := float_loop turns [ty] [].
End properties.
