(* ===== verification/Layouts.v ===== *)
(** * Layouts of values

    [Layouts] of [src/src/check.rs]: the size of a value of each type, within the limit of a value. A [usize] is 64 bits
    wide; [next_multiple_of] panics where its result does not fit, as the debug build does. The memo of [recursive_checked]
    is a part of the state. *)
From stdpp Require Import list strings gmap.
From S2P Require Import Prelude Wire Faults Ordered Utf8 Text Render Kinds Syntax Report Types.
From S2P Require Import Inference Declarations.
From S2P Require Import Declarations RecursiveTypes.
Local Open Scope nat_scope.
Local Open Scope monad_scope.

Definition MAX_VALUE_BYTES : N := 64 * 1024.

(** ** Arithmetic of [usize] *)

Definition saturate (n : N) : N := N.min n usize_MAX.
Definition next_multiple_of (n m : N) : Try N :=
  let r := ((n + m - 1) / m * m)%N in if (r <=? usize_MAX)%N then mret r else panic.

(** [SimdType::bytes] *)
Definition simd_bytes (ty : SimdType) : Try N :=
  match SimdType_kind ty with
  | SimdKind_Mask => lanes ← Simd.lanes ty; mret ((lanes + 7) / 8)%N
  | _ => mret (uval (SimdType_width ty) / 8)%N
  end.

(** ** The state *)

Record State := mk_State {
  memo : Memo;
  sizes : list (Ty * N);
  visiting : TypeSet }.

Abbreviation LM := (M Failure State).

Definition on_memo {A} (m : M Failure Memo A) : LM A := fun s =>
  let '(r, memo) := m (memo s) in (r, mk_State memo (sizes s) (visiting s)).

(** [self.visiting.insert(ty)] *)
Definition visiting_insert (ty : Ty) : LM bool :=
  let? s := gets (fun s => s) in
  if set_contains ty (visiting s) then ret false
  else modify (fun s => mk_State (memo s) (sizes s) (set_insert ty (visiting s))) ;;; ret true.

(** [self.visiting.remove(ty)] and [self.sizes.insert(ty, size)] *)
Definition measured (ty : Ty) (size : N) : LM N :=
  modify (fun s => mk_State (memo s) (Ordered.map_insert ty size (sizes s))
    (filter (fun e => e.1 <> ty) (visiting s))) ;;;
  ret size.

Definition reject {A} (kind : DiagnosticKind) (message : list u8) (span : Span) : LM A :=
  fail (Rejected (Diagnostic.of_kind kind (text_of message) span)).

Definition size_error {A} (span : Span) : LM A :=
  reject ValueLayoutTooLarge
    (txt "value layout exceeds " ++ dec MAX_VALUE_BYTES ++ txt " bytes; use smaller value types") span.

Section layouts.
Context (types : TypeContext).

Section arms.
Context (size : Ty -> nat -> Span -> LM N).

(** [size.saturating_add(self.size(...)?.next_multiple_of(16))], with the limit after each addition. *)
Definition add_field (depth : nat) (span : Span) (total : N) (ty : Ty) : LM N :=
  let? n := size ty (depth + 1) span in
  let? n := broken (next_multiple_of n 16) in
  let total := saturate (total + n) in
  if (MAX_VALUE_BYTES <? total)%N then size_error span else ret total.

Fixpoint add_fields (bounded : bool) (depth : nat) (span : Span) (total : N) (l : list Ty) : LM N :=
  match l with
  | [] => ret total
  | ty :: l =>
    (if bounded then checking (bounded_type ty span) else ret tt) ;;;
    let? total := add_field depth span total ty in
    add_fields bounded depth span total l
  end.

Fixpoint largest_payload (depth : nat) (span : Span) (payload : option N) (l : list Ty) : LM (option N) :=
  match l with
  | [] => ret payload
  | ty :: l =>
    checking (bounded_type ty span) ;;;
    let? n := size ty (depth + 1) span in
    largest_payload depth span (Some (N.max (default 0%N payload) n)) l
  end.

(** The size that a declaration or an earlier measure knows. *)
Definition known_size (ty : Ty) (arguments : list Ty) (declared : option usize) : LM (option N) :=
  match arguments, declared with
  | [], Some size => ret (Some (uval size))
  | _, _ => gets (fun s => Ordered.map_get ty (sizes s))
  end.

(** The guards of a measure that is new: no cycle, and a bounded nesting. *)
Definition enter (ty : Ty) (kind name : list u8) (span : Span) : LM unit :=
  let? fresh := visiting_insert ty in
  if negb fresh then
    reject InfiniteRecursiveLayout
      (txt "recursive " ++ kind ++ txt " layout for '" ++ name ++
       txt "'; recursive heap types are not supported in 0.1") span
  else ret tt.

Definition check_nesting (kind : list u8) (depth : nat) (span : Span) : LM unit :=
  if MAX_NESTING <? depth then
    reject LayoutNestingLimit (kind ++ txt " nesting exceeds " ++ dec (N.of_nat MAX_NESTING)) span
  else ret tt.

(** The span of a diagnostic on a declaration without arguments is its own. *)
Definition span_of (arguments : list Ty) (declared span : Span) : Span :=
  match arguments with [] => declared | _ => span end.

Definition size_record (ty : Ty) (depth : nat) (span : Span) : LM N :=
  on_memo (recursive_checked types ty span) ;;;
  match ty with
  | Ty_Record id arguments =>
    let? record := broken (record_at types id) in
    let? known := known_size ty arguments (CheckedRecord_size record) in
    match known with
    | Some size => ret size
    | None =>
      let span := span_of arguments (CheckedRecord_span record) span in
      enter ty (txt "value") (as_bytes (CheckedRecord_name record)) span ;;;
      check_nesting (txt "record") depth span ;;;
      let? fields := broken (record_fields types id arguments) in
      let? total := add_fields true depth span 0 fields in
      measured ty total
    end
  | _ => fail (Broken Panic)
  end.

Definition size_union (ty : Ty) (depth : nat) (span : Span) : LM N :=
  let? recursive := on_memo (recursive_checked types ty span) in
  if recursive : bool then ret 8%N
  else
    match ty with
    | Ty_Union id arguments =>
      let? union_ := broken (union_at types id) in
      let? known := known_size ty arguments (CheckedUnion_size union_) in
      match known with
      | Some size => ret size
      | None =>
        let span := span_of arguments (CheckedUnion_span union_) span in
        enter ty (txt "union") (as_bytes (CheckedUnion_name union_)) span ;;;
        check_nesting (txt "union") depth span ;;;
        let? payloads := broken (union_payloads types id arguments) in
        let? payload := largest_payload depth span None (omap (fun payload => payload) payloads) in
        let? total :=
          match payload with
          | None => ret 8%N
          | Some n => let? n := broken (next_multiple_of n 16) in ret (saturate (16 + n))
          end in
        if (MAX_VALUE_BYTES <? total)%N then size_error span else measured ty total
      end
    | _ => fail (Broken Panic)
    end.

(** The arms of [size]. *)
Definition size_arms (ty : Ty) (depth : nat) (span : Span) : LM N :=
  if contains_error ty then ret 0%N
  else
    match ty with
    | Ty_Simd vector => let? bytes := broken (simd_bytes vector) in ret (N.max bytes 8)
    | Ty_Vec element => size element depth span ;;; ret 32%N
    | Ty_Shared _ _ => ret 8%N
    | Ty_Reference _ _ => ret (if bool_decide (is_Some (slice_element ty)) then 16%N else 8%N)
    | Ty_Record _ _ => size_record ty depth span
    | Ty_Union _ _ => size_union ty depth span
    | Ty_Array element | Ty_List element => size element depth span ;;; ret 16%N
    | Ty_FixedArray element _ =>
      let length := default 0%N (uval <$> fixed_length ty) in
      let? n := size element (depth + 1) span in
      let total := saturate (n * length) in
      if (MAX_VALUE_BYTES <? total)%N then size_error span else ret total
    | Ty_Tuple elements => add_fields false depth span 0 elements
    | Ty_Integer bits _ | Ty_Binary bits | Ty_Decimal bits => ret (if (uval bits =? 128)%N then 16%N else 8%N)
    | Ty_String | Ty_Utf8String | Ty_Dyn _ => ret 16%N
    | Ty_Function _ _ _ _ | Ty_Once _ => ret 32%N
    | _ => ret 8%N
    end.
End arms.

Fixpoint size (fuel : nat) (ty : Ty) (depth : nat) (span : Span) : LM N :=
  match fuel with
  | 0 => fail (Broken OutOfFuel)
  | S fuel => size_arms (size fuel) ty depth span
  end.

(** [Layouts::record] and [Layouts::union] *)
Definition record (fuel : nat) : Ty -> nat -> Span -> LM N := size_record (size fuel).
Definition union_layout (fuel : nat) : Ty -> nat -> Span -> LM N := size_union (size fuel).
End layouts.
