(* ===== verification/RecursiveLaws.v ===== *)
(** * The analysis of recursive types

    [recursive_indices] finds the nodes on cycles. A declaration refers to the declarations that its expansion holds,
    through collections, tuples and shared pointers. The search of [analyze] visits exactly the types that the root reaches
    by this relation, ends within the limits of the code, and reports only for a [reason]. *)
From stdpp Require Import list gmap sets relations.
From Stdlib Require Import Sorted.
From stdpp Require Import list gmap relations.
From S2P Require Import Prelude Wire Syntax Faults Ordered Kinds Render Report Types Inference.
From S2P Require Import TypeLaws.
From S2P Require Import InferenceLaws Digraph DigraphLaws BfsLaws PathLaws TarjanLaws Recursion.
From S2P Require Import RecursionLaws.
From S2P Require Import Declarations TypeArena ArenaLaws RecursiveTypes.
Local Open Scope nat_scope.
Local Open Scope monad_scope.
Import Recursion.

Lemma turns_ext {S R} (m m' : M Fault S (option R)) fuel s : (forall s, m s = m' s) -> turns fuel m s = turns fuel m' s.
Proof.
  intros H. revert s. induction fuel as [|fuel IH]; intros s; [done|]. cbn [turns]. unfold bind. rewrite H.
  destruct (m' s) as [[[r|]|e] s']; [done|apply IH|done].
Qed.

Lemma for_each_ext {E S A} (f g : A -> M E S unit) l s : (forall x s, f x s = g x s) -> for_each f l s = for_each g l s.
Proof.
  intros H. revert s. induction l as [|x l IH]; intros s; [done|]. cbn [for_each]. unfold bind. rewrite H.
  destruct (g x s) as [[[]|e] s']; [apply IH|done].
Qed.

Section components.
Context (edges : list (list nat)) (Hc : closed_rows edges).

(** The graph of the first search: a row with the last edge first. *)
Definition flipped : list (list nat) := (fun row => rev row) <$> edges.

Lemma flipped_length : length flipped = length edges.
Proof. apply length_fmap. Qed.

Lemma flipped_edge x y : edge flipped x y <-> edge edges x y.
Proof.
  unfold edge, flipped. split.
  - intros (row & (row' & -> & Hrow)%list_lookup_fmap_Some & Hy). exists row'. by rewrite elem_of_rev in Hy.
  - intros (row & Hrow & Hy). exists (rev row). rewrite list_lookup_fmap, Hrow. by rewrite elem_of_rev.
Qed.

Lemma flipped_closed : closed_rows flipped.
Proof.
  unfold closed_rows, flipped in *. intros x row y (row' & -> & Hrow)%list_lookup_fmap_Some Hy.
  rewrite length_fmap. rewrite elem_of_rev in Hy. by eapply Hc.
Qed.

Lemma visit_turn_flipped s : Components.visit_turn edges s = Recursion.visit_turn flipped s.
Proof.
  unfold Components.visit_turn, Recursion.visit_turn, bind, gets, modify, flipped, element. cbn.
  destruct (stack s) as [|[index []] l]; [done..|]. unfold insert_visited, bind, gets, modify. cbn.
  destruct (decide (index ∈ visited s)); [done|]. cbn. rewrite list_lookup_fmap.
  destruct (edges !! index) as [row|]; [|done]. cbn. by rewrite rev_involutive.
Qed.

Lemma visit_root_flipped root s : Components.visit_root edges root s = Recursion.visit_root flipped root s.
Proof.
  unfold Components.visit_root, Recursion.visit_root, bind, modify. rewrite flipped_length.
  assert (length (concat flipped) = length (concat edges)) as ->.
  { unfold flipped. clear. induction edges as [|row l IH]; [done|]. cbn. by rewrite !length_app, length_rev, IH. }
  apply turns_ext. apply visit_turn_flipped.
Qed.

Abbreviation cyclic := (fun x => tc (edge edges) x x).

Lemma flipped_cyclic x : tc (edge flipped) x x <-> cyclic x.
Proof. split; apply tc_congruence with (f := id); intros; by apply flipped_edge. Qed.

Context (reverse : list (list nat)) (Hrl : length reverse = length edges).
Hypothesis Hrev : forall x y, y ∈ row_at reverse x <-> edge edges y x.

Abbreviation mutual := (mutual flipped).

(** The members that are found so far are the visited nodes on cycles. *)
Definition FoundInv (done : list nat) (found : list (list nat)) (s : State) : Prop :=
  RootsDone flipped done s /\ forall x, x ∈ concat found <-> x ∈ visited s /\ cyclic x.

Lemma component_root_run o before after_ root found s :
  finished_order flipped o -> o = before ++ root :: rev after_ -> FoundInv after_ found s ->
  returns (Components.root_step edges reverse root) (fun members => FoundInv (after_ ++ [root]) (found ++ [members])) s.
Proof.
  intros Ho Heq [[H1 H2] H3]. assert (root < length edges) as Hroot.
  { rewrite <- flipped_length. apply Ho. rewrite Heq. set_solver. }
  unfold Components.root_step, insert_visited. variables. destruct (decide (root ∈ visited s)) as [Hin|Hin]; variables.
  { cbn [negb]. variables. split; [split; [|done]|].
    - intros x [Hx|Hx%list_elem_of_singleton]%elem_of_app; [by apply H1|by subst].
    - intros x. rewrite concat_app. cbn. rewrite !app_nil_r. apply H3. }
  cbn [negb]. variables. rewrite <- flipped_length.
  apply (component_run flipped flipped_closed reverse) with (s := s) (o := o) (before := before) (after_ := after_);
    [by rewrite flipped_length|intros; by rewrite Hrev, flipped_edge|done|done|by split|done|].
  intros s' Hcomp Hnd Hdone Hvis. variables.
  assert (edges !! root = Some (row_at edges root)) as Hrow.
  { unfold row_at. by destruct (lookup_lt_is_Some_2 edges root Hroot) as [row ->]. }
  eapply returns_element; [exact Hrow|]. variables.
  assert (flipped !! root = Some (rev (row_at edges root))) as Hflip by (unfold flipped; by rewrite list_lookup_fmap, Hrow).
  assert ((1 <? length (component s')) || bool_decide (root ∈ rev (row_at edges root)) = true <-> tc (edge flipped) root root) as Hcyc.
  { apply (cyclic_component flipped flipped_closed reverse); [by rewrite flipped_length|intros; by rewrite Hrev, flipped_edge|done..]. }
  rewrite flipped_cyclic, (bool_decide_ext _ _ (elem_of_rev _ _)) in Hcyc.
  assert (forall x, x ∈ component s' -> cyclic x <-> cyclic root) as Hsame.
  { intros x Hx%Hcomp. rewrite <- !flipped_cyclic. split; apply cyclic_mutual; [by apply mutual_sym|done]. }
  split; [done|]. intros x. rewrite concat_app, elem_of_app, H3, Hvis. cbn [concat]. rewrite app_nil_r.
  destruct (_ || _).
  - assert (cyclic root) as Hcr by by apply Hcyc. specialize (Hsame x). naive_solver.
  - assert (~ cyclic root) as Hcr by (intros Hcr; by apply Hcyc in Hcr). specialize (Hsame x).
    rewrite elem_of_nil. naive_solver.
Qed.

Lemma component_roots_run o s : finished_order flipped o -> visited s = ∅ ->
  returns (collect (Components.root_step edges reverse) (rev o)) (fun found s' =>
    forall x, x ∈ concat found <-> x < length edges /\ cyclic x) s.
Proof.
  intros Ho Hs. eapply (returns_collect _ FoundInv).
  - split; [split|]; rewrite ?Hs; [by intros x ?%elem_of_nil|intros x y Hx; set_solver|]. intros x. cbn. set_solver.
  - intros l1 x l2 ys s1 Heq Hs1. assert (o = rev l2 ++ x :: rev l1) as Ho'.
    { rewrite <- (rev_involutive o), Heq, rev_app_distr. cbn. by rewrite <- app_assoc. }
    exact (component_root_run o (rev l2) l1 x ys s1 Ho Ho' Hs1).
  - intros ys s1 [[H1 _] H3] x. rewrite H3. split; intros [Hx Hcx]; (split; [|done]).
    + clear Hx. inversion Hcx as [? ? (row & Hrow & _)|? ? ? (row & Hrow & _)]; subst; by eapply lookup_lt_Some.
    + apply H1. rewrite elem_of_rev. apply Ho. by rewrite flipped_length.
Qed.

Lemma component_search_run :
  returns (Components.search edges reverse) (fun l _ => forall x, x ∈ l <-> x < length edges /\ cyclic x) (mk_State ∅ [] [] [] 0).
Proof.
  unfold Components.search. variables. eapply (returns_for_each _ (fun l => visited_below flipped (length l))).
  - apply visited_below_nil, flipped_closed.
  - intros l1 x l2 s Heq Hs. destruct (seq_prefix _ _ _ _ Heq) as [-> Hx]. unfold returns. rewrite visit_root_flipped. change (returns (Recursion.visit_root flipped (length l1)) (fun _ => visited_below flipped (length (l1 ++ [length l1]))) s).
    eapply (visit_root_run flipped flipped_closed); [done|by rewrite flipped_length|].
    intros s' Hs'. rewrite length_app. cbn [length]. by rewrite Nat.add_1_r.
  - intros s Hs. rewrite length_seq, <- flipped_length in Hs. variables.
    eapply returns_mono; [apply component_roots_run; [exact (visited_order flipped s Hs)|done]|].
    intros found s' Hfound. variables. exact Hfound.
Qed.
End components.

Lemma recursive_indices_run edges : closed_rows edges ->
  exists l, Components.recursive_indices edges = Ok l /\ forall x, x ∈ l <-> x < length edges /\ tc (edge edges) x x.
Proof.
  intros Hc. destruct (reverse_rows_run edges Hc) as (reverse & Hr & Hl & Hrev). unfold Components.recursive_indices. rewrite Hr.
  exact (returns_fst _ _ _ (component_search_run edges Hc reverse Hl Hrev)).
Qed.

Lemma elem_of_concat {A} (l : list (list A)) x : x ∈ concat l <-> exists k, k ∈ l /\ x ∈ k.
Proof. rewrite list_elem_of_In, in_concat. by setoid_rewrite list_elem_of_In. Qed.

(** ** Sets *)

Definition domain {V} (m : list (Ty * V)) : list Ty := fst <$> m.

Lemma map_get_domain {V} (m : list (Ty * V)) t : ascending m -> is_Some (Ordered.map_get t m) <-> t ∈ domain m.
Proof.
  intros Hm. unfold domain. rewrite list_elem_of_fmap. split.
  - intros [v Hv%map_get_Some]; [|done]. by exists (t, v).
  - intros ([k v] & -> & Hin). exists v. by apply map_get_Some.
Qed.

Lemma domain_insert {V} (m : list (Ty * V)) t v u : ascending m ->
  u ∈ domain (Ordered.map_insert t v m) <-> u = t \/ u ∈ domain m.
Proof.
  intros Hm. unfold domain. rewrite !list_elem_of_fmap. setoid_rewrite (elem_of_map_insert t v m _ Hm). split.
  - intros ([k w] & -> & [[= -> ->]|[Hin _]]); [by left|right]. by exists (k, w).
  - intros [->|([k w] & -> & Hin)]; [exists (t, v); auto|]. destruct (decide (k = t)) as [->|Hne]; [exists (t, v); auto|].
    exists (k, w). auto.
Qed.

Lemma ascending_once {V} (m : list (Ty * V)) : ascending m -> NoDup (domain m).
Proof.
  unfold domain. induction m as [|e m IH]; intros Hm; cbn; [constructor|]. apply ascending_cons in Hm as [Hm Hlt].
  constructor; [|by apply IH]. intros (f & Hf & Hin)%list_elem_of_fmap. specialize (Hlt f Hin). rewrite Hf, compare_refl in Hlt. done.
Qed.

Lemma set_extend_ascending l s : ascending s -> ascending (set_extend l s).
Proof. unfold set_extend. revert s. induction l as [|t l IH]; intros s Hs; [done|]. cbn. by apply IH, map_insert_ascending. Qed.

Lemma set_extend_domain l s t : ascending s -> t ∈ domain (set_extend l s) <-> t ∈ l \/ t ∈ domain s.
Proof.
  unfold set_extend. revert s. induction l as [|u l IH]; intros s Hs; cbn [foldl]; [rewrite elem_of_nil; tauto|].
  rewrite IH by (by apply map_insert_ascending). unfold set_insert. rewrite domain_insert by done. rewrite elem_of_cons. tauto.
Qed.

Lemma set_contains_domain s t : ascending s -> set_contains t s = true <-> t ∈ domain s.
Proof. intros Hs. unfold set_contains. rewrite bool_decide_eq_true. by apply map_get_domain. Qed.

Lemma position_Some t l i : position t l = Some i -> l !! i = Some t.
Proof.
  revert i. induction l as [|x l IH]; intros i; cbn; [done|]. case_decide as E; [intros [= <-]; by subst|].
  destruct (position t l) as [j|]; cbn; [|done]. intros [= <-]. by apply IH.
Qed.

Lemma position_None t l : position t l = None -> t ∉ l.
Proof.
  induction l as [|x l IH]; cbn; [by intros _ ?%elem_of_nil|]. case_decide; [done|].
  destruct (position t l); cbn; [done|]. intros _ [->|?]%elem_of_cons; [done|by apply IH].
Qed.

(** ** Computations that may report *)

(** The computation ends without a fault; [Q] holds if it succeeds, and [R] if it reports. *)
Definition checks {S A} (R : Prop) (m : M Failure S A) (Q : A -> S -> Prop) (s : S) : Prop :=
  match m s with
  | (Ok a, s) => Q a s
  | (Err (Rejected _), _) => R
  | (Err (Broken _), _) => False
  end.

Section checks.
Context {S A B : Type} (R : Prop).

Lemma checks_ret (a : A) (Q : A -> S -> Prop) s : Q a s -> checks R (ret a) Q s.
Proof. done. Qed.

Lemma checks_rejected d (Q : A -> S -> Prop) s : R -> checks R (fail (Rejected d)) Q s.
Proof. done. Qed.

Lemma checks_bind (m : M Failure S A) (k : A -> M Failure S B) Q s : checks R m (fun a => checks R (k a) Q) s -> checks R (bind m k) Q s.
Proof. unfold checks, bind. by destruct (m s) as [[a|[d|f]] s']. Qed.

Lemma checks_mono (m : M Failure S A) (P Q : A -> S -> Prop) s : checks R m P s -> (forall a s', P a s' -> Q a s') -> checks R m Q s.
Proof. unfold checks. destruct (m s) as [[a|[d|f]] s']; auto. Qed.

Lemma checks_gets (f : S -> A) (Q : A -> S -> Prop) s : Q (f s) s -> checks R (gets f) Q s.
Proof. done. Qed.

Lemma checks_modify (f : S -> S) (Q : unit -> S -> Prop) s : Q tt (f s) -> checks R (modify f) Q s.
Proof. done. Qed.

Lemma checks_broken (r : Try A) a (Q : A -> S -> Prop) s : r = Ok a -> Q a s -> checks R (broken r) Q s.
Proof. by intros ->. Qed.

Lemma checks_checking (r : Result A DiagnosticData) (Q : A -> S -> Prop) s :
  (forall a, r = Ok a -> Q a s) -> (forall d, r = Err d -> R) -> checks R (checking r) Q s.
Proof. intros H HR. destruct r; [by apply H|by eapply HR]. Qed.

End checks.

Lemma checks_for_each {S A} (R : Prop) (f : A -> M Failure S unit) (I : list A -> S -> Prop) Q l s :
  I [] s -> (forall done x rest s, l = done ++ x :: rest -> I done s -> checks R (f x) (fun _ => I (done ++ [x])) s) ->
  (forall s, I l s -> Q tt s) -> checks R (for_each f l) Q s.
Proof.
  intros Hs Hbody HQ.
  assert (forall rest done s, l = done ++ rest -> I done s -> checks R (for_each f rest) Q s) as Hall.
  { clear s Hs. induction rest as [|x rest IH]; intros done s -> Hs.
    - apply HQ. by rewrite app_nil_r.
    - cbn [for_each]. apply checks_bind. eapply checks_mono; [by eapply Hbody|]. intros [] s' Hs'.
      apply (IH (done ++ [x])); [by rewrite <- app_assoc|done]. }
  by apply (Hall l []).
Qed.

(** Steps through the reads and writes of variables. *)
Ltac checking_variables :=
  repeat match goal with
  | |- checks _ (bind _ _) _ _ => apply checks_bind
  | |- checks _ (gets _) _ _ => apply checks_gets
  | |- checks _ (modify _) _ _ => apply checks_modify
  | |- checks _ (ret _) _ _ => apply checks_ret
  | |- checks _ (fail (Rejected _)) _ _ => apply checks_rejected
  end; cbv beta.

(** ** Well-formed declarations *)

Section declared.
Context (types : TypeContext) (n : nat).

(** A constructor with arguments has as many as its declaration has parameters. *)
Definition arity_right (constructor : Constructor) : Prop :=
  match constructor with
  | Constructor_Record id arity =>
    arity <> 0 -> forall record, records types !! id = Some record -> length (CheckedRecord_parameters record) = arity
  | Constructor_Union id arity =>
    arity <> 0 -> forall union_, unions types !! id = Some union_ -> length (CheckedUnion_parameters union_) = arity
  | _ => True
  end.

Definition applied_right (t : Ty) : Prop :=
  match t with
  | Ty_Record id arguments => arity_right (Constructor_Record id (length arguments))
  | Ty_Union id arguments => arity_right (Constructor_Union id (length arguments))
  | Ty_Partial constructor _ => arity_right constructor
  | _ => True
  end.

(** A part of a type that the declarations allow. *)
Definition instance (t : Ty) : Prop := node types n false t /\ applied_right t.

Abbreviation wf := (every instance).

Lemma applied_right_apply head_ arguments : applied_right head_ -> applied_right (Inference.apply head_ arguments).
Proof.
  intros H. destruct head_; try done. cbn in H |- *. destruct (Nat.eqb_spec (length arguments + length trailing) (arity constructor)) as [E|]; [|done].
  rewrite <- length_app in E. destruct constructor; try (by destruct (arguments ++ trailing)); cbn in E |- *; by rewrite E.
Qed.

Lemma instance_rebuild t ts : instance t -> Forall wf ts -> length ts = length (parts t) -> wf (rebuild t ts).
Proof.
  intros [Ht Ha] Hts Hl. apply every_rebuild; [done..|]. split.
  - apply node_rebuild; [done| |done]. eapply list.Forall_impl; [exact Hts|]. intros u. by apply every_impl; intros ? [].
  - destruct t; cbn [parts] in Hl; try done; try (destruct ts as [|u [|v [|w ts]]]; cbn in Hl; try lia; done).
    + destruct ts as [|h args]; [done|]. apply Forall_cons_iff in Hts as [[[_ Hh] _] _]. by apply applied_right_apply.
    + cbn in Ha |- *. by rewrite Hl.
    + cbn in Ha |- *. by rewrite Hl.
    + cbn. unfold function_with_conventions. by destruct (match take _ _ with [] => _ | _ => _ end) as [[? ?] ?].
Qed.

(** The fields and payloads of declarations are well-formed types. *)
Record declared : Prop := {
  declared_fields id record field : records types !! id = Some record -> field ∈ CheckedRecord_fields record -> wf field.2;
  declared_payloads id union_ case ty : unions types !! id = Some union_ -> (case, Some ty) ∈ CheckedUnion_cases union_ -> wf ty }.

Lemma map_type_wf {S} (f : Ty -> S -> Ty * S) t s : (forall u s, instance u -> parts u = [] -> wf (fst (f u s))) ->
  wf t -> wf (fst (map_type f t s)).
Proof.
  intros Hf. revert s. induction t as [t IH] using Ty_parts_ind. intros s [Ht Hts]. rewrite map_type_eq. destruct (is_compound t) eqn:E.
  - assert (Forall wf (fst (map_state (map_type f) (parts t) s))) as Hm.
    { revert s. clear E. induction IH as [|u us Hu _ IHus]; intros s; cbn; [constructor|].
      apply Forall_cons_iff in Hts as [Hwu Hwus]. specialize (Hu s Hwu). destruct (map_type f u s) as [v s1].
      specialize (IHus Hwus s1). destruct (map_state (map_type f) us s1) as [vs s2]. by constructor. }
    pose proof (map_state_length (map_type f) (parts t) s) as Hl.
    destruct (map_state (map_type f) (parts t) s) as [ts s1]. by apply instance_rebuild.
  - apply Hf; [done|]. destruct t; try done; by destruct arguments.
Qed.

Lemma substitute_wf t m : wf t -> (forall e, e ∈ m -> wf (snd e)) -> wf (substitute t m).
Proof.
  intros Ht Hm. apply map_type_wf; [|done]. intros u [] Hu Hp.
  assert (wf u) as Hwu by (constructor; [done|by rewrite Hp]). destruct u; try done. cbn.
  destruct (Ordered.map_get name m) as [ty|] eqn:E; [|done]. apply (Hm (name, ty)). clear -E.
  induction m as [|[k v] m IH]; cbn in E; [done|]. destruct (compare name k) eqn:Hc; [|done|right; auto].
  injection E as ->. apply compare_eq in Hc as ->. by left.
Qed.

Lemma substitutions_wf parameters arguments : Forall wf arguments -> length parameters = length arguments ->
  exists m, type_parameter_substitutions parameters arguments = Ok m /\ forall e, e ∈ m -> wf (snd e).
Proof.
  intros Ha Hl. unfold type_parameter_substitutions. rewrite (proj2 (Nat.eqb_eq _ _) Hl). clear Hl. eexists. split; [done|].
  assert (forall l m, (forall e : RString * Ty, e ∈ l -> wf e.2) -> (forall e : RString * Ty, e ∈ m -> wf e.2) ->
    forall e, e ∈ foldl (fun m entry => Ordered.map_insert entry.1 entry.2 m) m l -> wf e.2) as Hall.
  { induction l as [|x l IH]; intros m Hl Hm; [done|]. cbn. apply IH; [intros; apply Hl; by right|].
    intros y Hy. assert (y = x \/ y ∈ m) as [->|?]; [|apply Hl; by left|auto].
    clear -Hy. induction m as [|[k v] m IH]; cbn in Hy.
    - apply list_elem_of_singleton in Hy as ->. left. by destruct x.
    - destruct (compare x.1 k); rewrite !elem_of_cons in Hy.
      + destruct Hy as [->|?]; [left; by destruct x|right; by right].
      + destruct Hy as [->|[->|?]]; [left; by destruct x|right; by left|right; by right].
      + destruct Hy as [->|?]; [right; by left|]. destruct IH; auto. right. by right. }
  intros e. apply Hall; [|by intros ? ?%elem_of_nil]. intros [k v] Hv%elem_of_zip_r. by eapply list.Forall_forall in Ha.
Qed.
Context (Hd : declared).

Lemma record_fields_run id arguments : wf (Ty_Record id arguments) ->
  exists l, record_fields types id arguments = Ok l /\ Forall wf l.
Proof.
  intros [[Hid Har] Ha]. cbn in Hid, Har. unfold record_fields, record_at.
  destruct (lookup_lt_is_Some_2 _ _ Hid) as [record Hr]. rewrite Hr. cbn.
  assert (Forall (fun field => wf (snd field)) (CheckedRecord_fields record)) as Hf.
  { apply list.Forall_forall. intros field. by apply (declared_fields Hd id). }
  destruct arguments as [|a arguments]; [eexists; split; [done|by apply Forall_fmap]|].
  destruct (substitutions_wf (CheckedRecord_parameters record) (a :: arguments) Ha) as (m & -> & Hm); [by apply Har|]. cbn.
  eexists. split; [done|]. apply Forall_fmap. eapply list.Forall_impl; [exact Hf|]. intros field Hfield. by apply substitute_wf.
Qed.

Lemma union_payloads_run id arguments : wf (Ty_Union id arguments) ->
  exists l, union_payloads types id arguments = Ok l /\ Forall wf (omap (fun payload => payload) l).
Proof.
  intros [[Hid Har] Ha]. cbn in Hid, Har. unfold union_payloads, union_at.
  destruct (lookup_lt_is_Some_2 _ _ Hid) as [union_ Hu]. rewrite Hu. cbn.
  assert (Forall (fun case => forall ty, snd case = Some ty -> wf ty) (CheckedUnion_cases union_)) as Hf.
  { apply list.Forall_forall. intros [case payload] Hc ty E. cbn in E. subst. by apply (declared_payloads Hd id union_ case). }
  rewrite list.Forall_forall in Hf. destruct arguments as [|a arguments].
  - eexists. split; [done|]. apply list.Forall_forall. intros ty (payload & Hin & ->)%list_elem_of_omap.
    apply list_elem_of_fmap in Hin as (case & E & Hin). by apply (Hf case).
  - destruct (substitutions_wf (CheckedUnion_parameters union_) (a :: arguments) Ha) as (m & -> & Hm); [by apply Har|]. cbn.
    eexists. split; [done|]. apply list.Forall_forall. intros ty (payload & Hin & ->)%list_elem_of_omap.
    apply list_elem_of_fmap in Hin as (case & E & Hin). destruct (case.2) as [ty'|] eqn:E'; [|done]. cbn in E. injection E as ->.
    apply substitute_wf; [by apply (Hf case)|done].
Qed.

Lemma expansion_run t : wf t -> is_declaration t = true -> exists l, expansion types t = Ok l /\ Forall wf l.
Proof.
  intros Ht Hdecl. destruct t; try done; cbn.
  - by apply record_fields_run.
  - destruct (union_payloads_run id arguments Ht) as (l & -> & Hl). cbn. by eexists.
Qed.

Lemma stored_run references t : wf t -> exists l, stored types references t = Ok l /\ Forall wf l.
Proof.
  intros Ht. pose proof (every_parts _ _ Ht) as Hp. destruct t; cbn [stored parts] in *;
    try (eexists; split; [reflexivity|]; try destruct references;
      first [exact Hp|exact (Forall_nil_2 _)|apply Forall_cons_iff in Hp as [? _]; by apply Forall_singleton]).
  - by apply record_fields_run.
  - destruct (union_payloads_run id arguments Ht) as (l & -> & Hl). cbn. by eexists.
Qed.

Lemma generic_declaration_run t : wf t -> exists b, generic_declaration types t = Ok b.
Proof.
  intros [[Ht _] _]. destruct t; cbn; try (by eexists); cbn in Ht; unfold record_at, union_at;
    destruct (lookup_lt_is_Some_2 _ _ Ht) as [d ->]; by eexists.
Qed.

(** ** References between declarations *)

(** The declarations in a type, outside functions and references. *)
Fixpoint heads (ty : Ty) : list Ty :=
  match ty with
  | Ty_Record _ _ | Ty_Union _ _ => [ty]
  | Ty_Array inner | Ty_List inner | Ty_Vec inner | Ty_FixedArray inner _ | Ty_Shared inner _ => heads inner
  | Ty_Tuple elements => concat (heads <$> elements)
  | _ => []
  end.

Definition refers (t u : Ty) : Prop := exists l field, expansion types t = Ok l /\ field ∈ l /\ u ∈ heads field.

Definition recurs (t : Ty) : Prop := tc refers t t.

Lemma heads_wf t : wf t -> Forall (fun u => wf u /\ is_declaration u = true) (heads t).
Proof.
  induction t as [t IH] using Ty_parts_ind. intros Ht. pose proof (every_parts _ _ Ht) as Hp.
  destruct t; cbn [heads parts] in *; try exact (Forall_nil_2 _);
    try (apply Forall_cons_iff in IH as [IH _], Hp as [Hp _]; by apply IH).
  - apply Forall_singleton. by split.
  - apply Forall_singleton. by split.
  - apply list.Forall_forall. intros u (l & Hl & Hu)%elem_of_concat. apply list_elem_of_fmap in Hl as (v & -> & Hv).
    rewrite list.Forall_forall in IH, Hp. specialize (IH v Hv (Hp v Hv)). by eapply list.Forall_forall in IH.
Qed.
(** ** The search *)

Definition reached_from (root t : Ty) : Prop := exists u, u ∈ heads root /\ rtc refers u t.

(** The size test of [bounded_type]. *)
Definition fits (ty : Ty) : bool := contains_error ty || bool_decide (is_Some (type_size ty)).

Lemma bounded_type_fits ty span : bounded_type ty span <> Ok tt -> fits ty = false.
Proof. unfold bounded_type, fits. by destruct (_ || _). Qed.

(** Why the analysis of a type reports: a cycle, a type over the limit of types, as many types as the limit of nesting, or
    another instance of the declaration of the root. *)
Inductive reason (root : Ty) : Prop :=
| reason_cycle t : reached_from root t -> recurs t -> reason root
| reason_size t l field : reached_from root t -> expansion types t = Ok l -> field ∈ l -> fits field = false -> reason root
| reason_limit l : NoDup l -> MAX_NESTING <= length l -> (forall t, t ∈ l -> reached_from root t) -> reason root
| reason_arguments t : reached_from root t -> t <> root -> same_declaration root t = true -> reason root.

Section search.
Context (span : Span) (root : Ty) (generic_root : option Ty) (Hgeneric : forall r, generic_root = Some r -> r = root).

Abbreviation checks := (checks (reason root)).

Record SearchInv (g : Graph) : Prop := {
  search_ascending : ascending (graph_nodes g);
  search_nodes t fs : (t, fs) ∈ graph_nodes g -> wf t /\ is_declaration t = true /\ expansion types t = Ok fs;
  search_active a : a ∈ active g -> a ∈ domain (graph_nodes g);
  search_path i a b : active g !! i = Some a -> active g !! S i = Some b -> refers a b;
  search_depth : length (active g) <= MAX_NESTING;
  search_closed t u : t ∈ domain (graph_nodes g) -> t ∉ active g -> refers t u -> u ∈ domain (graph_nodes g);
  search_sorted : ascending (recursive_types g);
  search_recursive t : t ∈ domain (recursive_types g) -> t ∈ domain (graph_nodes g) /\ recurs t;
  search_reached t : t ∈ domain (graph_nodes g) -> reached_from root t;
  search_once : NoDup (active g) }.

(** The last active type refers to each of [us]. *)
Definition linked (g : Graph) (us : list Ty) : Prop := forall a u, last (active g) = Some a -> u ∈ us -> refers a u.

Definition visits (g : Graph) (us : list Ty) (g' : Graph) : Prop :=
  SearchInv g' /\ active g' = active g /\ domain (graph_nodes g) ⊆ domain (graph_nodes g') /\
  (forall u, u ∈ us -> u ∈ domain (graph_nodes g')) /\
  forall t, t ∈ domain (graph_nodes g') -> t ∈ domain (graph_nodes g) \/ exists u, u ∈ us /\ rtc refers u t.

Lemma visits_nil g : SearchInv g -> visits g [] g.
Proof. intros H. split_and!; try done; [by intros u ?%elem_of_nil|auto]. Qed.

Lemma visits_app g g' g'' us vs : visits g us g' -> visits g' vs g'' -> visits g (us ++ vs) g''.
Proof.
  intros (H1 & A1 & D1 & U1 & R1) (H2 & A2 & D2 & U2 & R2). split_and!; [done|congruence|by etrans|..].
  - intros u [Hu|Hu]%elem_of_app; auto.
  - intros t [[?|(u & Hu & ?)]%R1|(u & Hu & ?)]%R2; [by left|right; exists u..]; rewrite elem_of_app; auto.
Qed.

Lemma path_rtc g i j a b : SearchInv g -> active g !! i = Some a -> active g !! j = Some b -> i <= j -> rtc refers a b.
Proof.
  intros H Ha Hb Hij. assert (exists k, k = j - i) as [k Hk] by by exists (j - i). revert i a Ha Hij Hk.
  induction k as [|k IH]; intros i a Ha Hij Hk.
  - assert (i = j) as -> by lia. simplify_eq. apply rtc_refl.
  - destruct (lookup_lt_is_Some_2 (active g) (S i)) as [c Hc]; [apply lookup_lt_Some in Hb; lia|].
    eapply rtc_l; [by eapply search_path|]. eapply IH; [done|lia|lia].
Qed.

Lemma close_cycle_run g ty start : SearchInv g -> linked g [ty] -> position ty (active g) = Some start ->
  checks (close_cycle span start) (fun _ => visits g [ty]) g.
Proof.
  intros H Hlink Hpos%position_Some. unfold close_cycle. checking_variables.
  assert (forall x, x ∈ drop start (active g) -> recurs x) as Hrec.
  { intros x (k & Hk)%list_elem_of_lookup. rewrite lookup_drop in Hk.
    destruct (last (active g)) as [a|] eqn:Hlast; [|apply last_None in Hlast; by rewrite Hlast in Hpos].
    assert (refers a ty) as Hr by (apply Hlink; [done|by left]).
    pose proof Hlast as Hlast'. rewrite last_lookup in Hlast'.
    assert (rtc refers ty x) as H1 by (eapply (path_rtc g start (start + k)); [done..|lia]).
    assert (rtc refers x a) as H2.
    { eapply (path_rtc g (start + k) (Nat.pred (length (active g)))); [done..|]. apply lookup_lt_Some in Hk. lia. }
    eapply tc_rtc_l; [exact H2|]. eapply tc_rtc_r; [apply tc_once; exact Hr|exact H1]. }
  assert (forall x, x ∈ drop start (active g) -> x ∈ domain (graph_nodes g)) as Hdom.
  { intros x (k & Hk)%list_elem_of_lookup. rewrite lookup_drop in Hk. apply (search_active _ H). by eapply list_elem_of_lookup_2. }
  destruct H as [H1 H2 H3 H4 H5 H6 H7 H8 H9 H10]. destruct (_ && _); checking_variables.
  { apply (reason_cycle _ ty); [by apply H9, H3, (list_elem_of_lookup_2 _ start)|]. apply Hrec, (list_elem_of_lookup_2 _ 0).
    by rewrite lookup_drop, Nat.add_0_r. }
  split_and!; [split|..]; cbn; try done.
  - by apply set_extend_ascending.
  - intros t [Ht|Ht]%set_extend_domain; [|auto|done]. split; auto.
  - intros u ->%list_elem_of_singleton. apply H3. by eapply list_elem_of_lookup_2.
  - auto.
Qed.

Lemma expansion_heads t l field u : expansion types t = Ok l -> field ∈ l -> u ∈ heads field -> refers t u.
Proof. intros. by exists l, field. Qed.

(** The fields of a new node, in the path that it extends. *)
Lemma open_fields g ty l : SearchInv g -> linked g [ty] -> reached_from root ty -> wf ty -> is_declaration ty = true -> expansion types ty = Ok l ->
  length (active g) < MAX_NESTING -> ty ∉ active g -> ty ∉ domain (graph_nodes g) ->
  SearchInv (mk_Graph (Ordered.map_insert ty l (graph_nodes g)) (active g ++ [ty]) (shared g) (recursive_types g)).
Proof.
  intros [H1 H2 H3 H4 H5 H6 H7 H8 H9 H10] Hlink Hreach Hwf Hdecl Hl Hlen Hact Hdom.
  split; cbn [graph_nodes active recursive_types]; try done.
  - by apply map_insert_ascending.
  - intros t fs Ht. apply elem_of_map_insert in Ht as [[= -> ->]|[Ht _]]; auto.
  - intros a Ha. apply domain_insert; [done|]. apply elem_of_app in Ha as [Ha|Ha%list_elem_of_singleton]; auto.
  - intros i a b Ha Hb. apply lookup_app_Some in Hb as [Hb|[Hge Hb]].
    + apply (H4 i); [|done]. apply lookup_lt_Some in Hb. by rewrite lookup_app_l in Ha by lia.
    + apply list_lookup_singleton_Some in Hb as [Hi ->]. rewrite lookup_app_l in Ha by lia.
      apply Hlink; [|by left]. rewrite last_lookup. rewrite <- Ha. f_equal. lia.
  - rewrite length_app. cbn. lia.
  - intros t u Ht Hn Hr. apply domain_insert in Ht; [|done]. apply domain_insert; [done|].
    destruct Ht as [->|Ht]; [destruct Hn; apply elem_of_app; right; by left|]. right. apply (H6 t); [done| |done].
    intros ?. destruct Hn. apply elem_of_app. by left.
  - intros t Ht. destruct (H8 t Ht) as [? ?]. split; [|done]. apply domain_insert; auto.
  - intros t [->|?]%domain_insert; auto.
  - apply list.NoDup_app. split_and!; [done| |apply NoDup_singleton]. by intros x Hx ->%list_elem_of_singleton.
Qed.

(** When its fields are visited, the node is closed. *)
Lemma close_node g ty l g' : SearchInv g' -> active g' = active g ++ [ty] -> expansion types ty = Ok l ->
  domain (graph_nodes g) ⊆ domain (graph_nodes g') -> ty ∈ domain (graph_nodes g') ->
  (forall u, u ∈ concat (heads <$> l) -> u ∈ domain (graph_nodes g')) ->
  (forall t, t ∈ domain (graph_nodes g') -> t ∈ domain (graph_nodes g) \/ rtc refers ty t) ->
  visits g [ty] (mk_Graph (graph_nodes g') (removelast (active g')) (shared g') (recursive_types g')).
Proof.
  intros [H1 H2 H3 H4 H5 H6 H7 H8 H9 H10] Hact Hl Hdom Hty Hheads Hfrom. rewrite Hact in *. rewrite removelast_last.
  split_and!; [split|..]; cbn [graph_nodes active recursive_types]; try done.
  - intros a Ha. apply H3, elem_of_app. by left.
  - intros i a b Ha Hb. apply (H4 i); by apply lookup_app_l_Some.
  - rewrite length_app in H5. lia.
  - intros t u Ht Hn Hr. destruct (decide (t = ty)) as [->|Hne].
    + destruct Hr as (l' & field & Hl' & Hf & Hu). rewrite Hl in Hl'. injection Hl' as <-. apply Hheads.
      apply elem_of_concat. exists (heads field). split; [by apply list_elem_of_fmap_2|done].
    + apply (H6 t); [done| |done]. by intros [?|?%list_elem_of_singleton]%elem_of_app.
  - by apply list.NoDup_app in H10 as [? _].
  - by intros u ->%list_elem_of_singleton.
  - intros t [?|?]%Hfrom; [by left|right; exists ty; split; [by left|done]].
Qed.

(** A visit of a type reaches the declarations in it. *)
Definition visitor (depth : nat) (visit : Ty -> GM unit) : Prop := forall ty g,
  SearchInv g -> wf ty -> linked g (heads ty) -> (forall u, u ∈ heads ty -> reached_from root u) -> depth <= length (active g) ->
  checks (visit ty) (fun _ => visits g (heads ty)) g.

Lemma visit_declaration_run depth visit ty g : visitor (S depth) visit -> SearchInv g -> wf ty -> is_declaration ty = true ->
  linked g [ty] -> reached_from root ty -> depth <= length (active g) ->
  checks (visit_declaration types span generic_root visit ty) (fun _ => visits g [ty]) g.
Proof.
  intros Hv H Hwf Hdecl Hlink Hreach Hdepth. unfold visit_declaration. checking_variables.
  destruct (position ty (active g)) as [start|] eqn:Hpos; [by apply close_cycle_run|].
  destruct (root_changes generic_root ty) eqn:Hroot.
  { checking_variables. unfold root_changes in Hroot. destruct generic_root as [r|]; [|done]. rewrite (Hgeneric r eq_refl) in Hroot.
    apply andb_true_iff in Hroot as [Hne%negb_true_iff%bool_decide_eq_false Hsame].
    apply (reason_arguments _ ty); [done|congruence|done]. }
  destruct (bool_decide _) eqn:Hknown.
  { apply bool_decide_eq_true in Hknown. apply map_get_domain in Hknown; [|apply H]. checking_variables.
    split_and!; try done; [by intros u ->%list_elem_of_singleton|auto]. }
  apply bool_decide_eq_false in Hknown. rewrite map_get_domain in Hknown by apply H.
  destruct (over_limit g) eqn:Hlimit.
  { checking_variables. apply orb_true_iff in Hlimit as [Hlen%Nat.leb_le|Hlen%Nat.leb_le].
    - apply (reason_limit _ (domain (graph_nodes g))); [apply ascending_once, H| |apply H].
      unfold domain. rewrite length_fmap. change MAX_NESTING with 128. lia.
    - apply (reason_limit _ (active g)); [apply H|done|]. intros t Ht. by apply (search_reached _ H), (search_active _ H). }
  apply orb_false_iff in Hlimit as [_ Hlimit%Nat.leb_gt]. apply position_None in Hpos.
  unfold open_node. checking_variables. destruct (expansion_run ty Hwf Hdecl) as (l & Hl & Hlwf).
  eapply checks_broken; [exact Hl|]. checking_variables.
  pose proof (open_fields g ty l H Hlink Hreach Hwf Hdecl Hl Hlimit Hpos Hknown) as Hopen.
  set (g1 := mk_Graph _ _ _ _) in *.
  eapply (checks_for_each _ _ (fun fields g' => visits g1 (concat (heads <$> fields)) g')); [by apply visits_nil| |].
  - intros fields field rest g2 -> (H2 & A2 & D2 & U2 & R2). checking_variables.
    assert (field ∈ fields ++ field :: rest) as Hfield by (apply elem_of_app; right; by left).
    apply checks_checking; [|intros d Hlarge; apply (reason_size _ ty (fields ++ field :: rest) field); [done..|];
      apply (bounded_type_fits _ span); congruence].
    intros [] _. eapply checks_mono; [apply Hv|].
    + done.
    + by apply Forall_app in Hlwf as [_ [? _]%Forall_cons_iff].
    + intros a u Ha Hu. rewrite A2 in Ha. cbn in Ha. rewrite last_snoc in Ha. injection Ha as <-.
      by eapply expansion_heads; [exact Hl| |exact Hu].
    + intros u Hu. destruct Hreach as (h & Hh & Hr). exists h. split; [done|]. eapply rtc_r; [exact Hr|].
      by eapply expansion_heads; [exact Hl| |exact Hu].
    + rewrite A2. cbn. rewrite length_app. cbn. lia.
    + intros [] g3 Hg3. rewrite fmap_app, concat_app. cbn. rewrite app_nil_r.
      eapply visits_app; [|exact Hg3]. done.
  - intros g2 (H2 & A2 & D2 & U2 & R2). checking_variables. apply (close_node g ty l g2); try done.
    + intros u Hu. apply D2. cbn. apply domain_insert; [apply H|]. by right.
    + apply D2. cbn. apply domain_insert; [apply H|]. by left.
    + intros t [Ht|(u & Hu & Hr)]%R2.
      * cbn in Ht. apply domain_insert in Ht as [->|?]; [right; apply rtc_refl|by left|apply H].
      * right. apply elem_of_concat in Hu as (k & (field & -> & Hf)%list_elem_of_fmap & Hu). eapply rtc_l; [|exact Hr].
        by eapply expansion_heads.
Qed.

Lemma SearchInv_shared g s : SearchInv g -> SearchInv (mk_Graph (graph_nodes g) (active g) s (recursive_types g)).
Proof. intros []. by split. Qed.

Lemma below_shared_run m us g :
  (forall s, checks m (fun _ => visits (mk_Graph (graph_nodes g) (active g) s (recursive_types g)) us)
    (mk_Graph (graph_nodes g) (active g) s (recursive_types g))) ->
  checks (below_shared m) (fun _ => visits g us) g.
Proof.
  intros Hm. specialize (Hm (length (active g) :: shared g)). unfold checks, below_shared in *.
  destruct (m _) as [[[]|[d|f]] g']; [|done..]. destruct Hm as (H & A & D & U & R). split_and!; try done. by apply SearchInv_shared.
Qed.

Lemma visit_parts_run depth declaration : (forall ty g, SearchInv g -> wf ty -> is_declaration ty = true -> linked g [ty] ->
    reached_from root ty -> depth <= length (active g) -> checks (declaration ty) (fun _ => visits g [ty]) g) ->
  visitor depth (visit_parts declaration).
Proof.
  intros Hdecl ty. induction ty as [ty IH] using Ty_parts_ind. intros g H Hwf Hlink Hreach Hdepth.
  pose proof (every_parts _ _ Hwf) as Hp. destruct ty; cbn [visit_parts heads parts] in *; try (by checking_variables; apply visits_nil);
    try (apply Hdecl; try done; apply Hreach; by left); try (apply Forall_cons_iff in IH as [IH _], Hp as [Hp _]; by apply IH).
  - eapply (checks_for_each _ _ (fun done => visits g (concat (heads <$> done)))); [by apply visits_nil| |done].
    intros done ty rest g1 -> (H1 & A1 & D1 & U1 & R1).
    apply Forall_app in IH as [_ [IH _]%Forall_cons_iff], Hp as [_ [Hp _]%Forall_cons_iff].
    assert (forall u, u ∈ heads ty -> u ∈ concat (heads <$> done ++ ty :: rest)) as Hin.
    { intros u Hu. rewrite fmap_app, concat_app. apply elem_of_app. right. cbn. apply elem_of_app. by left. }
    eapply checks_mono; [apply IH; [done..| | |by rewrite A1]|].
    + intros a u Ha Hu. rewrite A1 in Ha. by apply (Hlink a u Ha), Hin.
    + intros u Hu. by apply Hreach, Hin.
    + intros [] g2 Hg2. rewrite fmap_app, concat_app. cbn. rewrite app_nil_r. by eapply visits_app.
  - apply Forall_cons_iff in IH as [IH _], Hp as [Hp _]. apply below_shared_run. intros s. apply IH; [by apply SearchInv_shared|done..].
Qed.

(** The fuel is one for each place on the path, and one more. *)
Lemma visit_type_run fuel depth : MAX_NESTING < fuel + depth -> visitor depth (visit_type types span generic_root fuel).
Proof.
  revert depth. induction fuel as [|fuel IH]; intros depth Hfuel; cbn [visit_type]; apply visit_parts_run.
  - intros ty g H _ _ _ _ Hdepth. pose proof (search_depth _ H). lia.
  - intros ty g H Hwf Hdecl Hlink Hreach Hdepth. eapply visit_declaration_run; [|done..]. apply IH. lia.
Qed.

Lemma graph_start : SearchInv (mk_Graph [] [] [] []).
Proof.
  split; cbn; try done; try (by intros ? ?%elem_of_nil); try (by intros ? ? ?%elem_of_nil); try apply SSorted_nil; [lia|apply NoDup_nil_2].
Qed.

(** The search of the root: its nodes are what the root refers to, directly or through others. *)
Lemma search_root : wf root -> match visit_type types span generic_root (S MAX_NESTING) root (mk_Graph [] [] [] []) with
  | (Ok _, g) => SearchInv g /\ active g = [] /\ forall t, t ∈ domain (graph_nodes g) <-> reached_from root t
  | (Err (Rejected _), _) => reason root
  | (Err (Broken _), _) => False
  end.
Proof.
  intros Hwf. pose proof (visit_type_run (S MAX_NESTING) 0 ltac:(lia) root (mk_Graph [] [] [] []) graph_start Hwf) as Hv.
  specialize (Hv ltac:(done) ltac:(intros u Hu; by exists u) ltac:(cbn; lia)).
  unfold RecursiveLaws.checks in Hv. destruct (visit_type _ _ _ _ _ _) as [[[]|[d|f]] g]; [|done..].
  destruct Hv as (H & A & _ & U & R). split_and!; [done..|]. intros t. split.
  - by intros [?%elem_of_nil|?]%R.
  - intros (u & Hu & Ht). apply U in Hu. induction Ht as [u|u v t Huv _ IH]; [done|]. apply IH.
    eapply (search_closed _ H); [exact Hu| |exact Huv]. rewrite A. by intros ?%elem_of_nil.
Qed.

End search.
End declared.
