(* ===== verification/AnalysisLaws.v ===== *)
(** * What the analysis of a type decides, and its memo

    The edges between the nodes of the search are the references between their types, so the nodes on cycles are the
    types that recur; the loop over the nodes finds those with a finite value. An entry of a memo that is no error is right,
    and no later call changes it, whatever types were asked before; an error has its reason. *)
From Stdlib Require Import Sorted.
From stdpp Require Import list gmap relations.
From S2P Require Import Prelude Wire Syntax Faults Ordered Kinds Render Report Types Inference.
From S2P Require Import TypeLaws.
From S2P Require Import InferenceLaws Digraph DigraphLaws BfsLaws Recursion Declarations TypeArena.
From S2P Require Import RecursiveTypes RecursiveLaws.
Local Open Scope nat_scope.
Local Open Scope monad_scope.

(** ** Positions *)

Lemma position_in t l : t ∈ l -> exists i, position t l = Some i /\ l !! i = Some t.
Proof.
  intros Ht. destruct (position t l) as [i|] eqn:E; [|by apply position_None in E]. exists i. split; [done|by apply position_Some].
Qed.

(** ** Edges *)

Lemma spread_rev l : sum_list_with spread (rev l) = sum_list_with spread l.
Proof. induction l as [|x l IH]; [done|]. cbn. rewrite sum_list_with_app, IH. cbn. lia. Qed.

(** The indices of the types that [refers] relates. *)
Lemma targets_loop_run ordered fuel : forall pending targets, NoDup ordered ->
  (forall t u, t ∈ pending -> u ∈ heads t -> u ∈ ordered) -> sum_list_with spread pending < fuel ->
  exists l, targets_loop fuel ordered pending targets = Ok l /\
    forall i, i ∈ l <-> i ∈ targets \/ exists t u, t ∈ pending /\ u ∈ heads t /\ ordered !! i = Some u.
Proof.
  induction fuel as [|fuel IH]; intros pending targets Hnd Hp Hfuel; [lia|]. cbn [targets_loop].
  destruct pending as [|t pending].
  { exists targets. split; [done|]. intros i. split; [by left|]. intros [?|(t & u & ?%elem_of_nil & _)]; done. }
  assert (forall l' targets', sum_list_with spread l' < spread t -> (forall u, u ∈ heads t <-> u ∈ concat (heads <$> l')) ->
    targets' = targets -> exists l, targets_loop fuel ordered (l' ++ pending) targets' = Ok l /\
    forall i, i ∈ l <-> i ∈ targets \/ exists t' u, t' ∈ t :: pending /\ u ∈ heads t' /\ ordered !! i = Some u) as Hopen.
  { intros l' targets' Hs Hh ->. destruct (IH (l' ++ pending) targets) as (l & Hl & Hi); [done| | |].
    - intros v u [Hv|Hv]%elem_of_app Hu; [|apply (Hp v); [by right|done]]. apply (Hp t); [by left|]. apply Hh.
      apply elem_of_concat. exists (heads v). split; [by apply list_elem_of_fmap_2|done].
    - rewrite sum_list_with_app. cbn in Hfuel. lia.
    - exists l. split; [done|]. intros i. rewrite Hi. f_equiv. split.
      + intros (v & u & [Hv|Hv]%elem_of_app & Hu & Ho); [exists t, u|exists v, u]; (split_and!; [|..|done]); [by left| |by right|done].
        apply Hh, elem_of_concat. exists (heads v). split; [by apply list_elem_of_fmap_2|done].
      + intros (v & u & [->|Hv]%elem_of_cons & Hu & Ho).
        * apply Hh, elem_of_concat in Hu as (k & (v & -> & Hv)%list_elem_of_fmap & Hu). exists v, u.
          split_and!; [apply elem_of_app; by left|done..].
        * exists v, u. split_and!; [apply elem_of_app; by right|done..]. }
  assert (is_declaration t = true -> heads t = [t] -> exists l, (target ← index_of ordered t;
      targets_loop fuel ordered pending (targets ++ [target])) = Ok l /\
    forall i, i ∈ l <-> i ∈ targets \/ exists t' u, t' ∈ t :: pending /\ u ∈ heads t' /\ ordered !! i = Some u) as Hdecl.
  { intros _ Hh. destruct (position_in t ordered) as (k & Hk & Hok); [apply (Hp t); [by left|rewrite Hh; by left]|].
    unfold index_of. rewrite Hk. cbn. destruct (IH pending (targets ++ [k])) as (l & Hl & Hi); [done| | |].
    - intros v u Hv. apply (Hp v). by right.
    - cbn in Hfuel. assert (0 < spread t) by (destruct t; cbn; lia). lia.
    - exists l. split; [done|]. intros i. rewrite Hi, elem_of_app, list_elem_of_singleton. split.
      + intros [[?| ->]|(v & u & Hv & Hu & Ho)]; [by left|right; exists t, t; rewrite Hh; split_and!; [by left|by left|done]|].
        right. exists v, u. split_and!; [by right|done..].
      + intros [?|(v & u & [->|Hv]%elem_of_cons & Hu & Ho)]; [by left; left| |right; by exists v, u].
        rewrite Hh in Hu. apply list_elem_of_singleton in Hu as ->. left. right. eapply NoDup_lookup; done. }
  destruct t; try (by apply Hdecl); try (apply (Hopen []); cbn; [lia|done|done]); try (apply (Hopen [_]); cbn; [lia|by rewrite app_nil_r|done]).
  apply (Hopen (rev elements)); [|intros u|done].
  - rewrite spread_rev. cbn. lia.
  - cbn [heads]. rewrite !elem_of_concat. setoid_rewrite list_elem_of_fmap. setoid_rewrite elem_of_rev. done.
Qed.

Lemma targets_of_run ordered fields : NoDup ordered -> (forall t u, t ∈ fields -> u ∈ heads t -> u ∈ ordered) ->
  exists l, targets_of ordered fields = Ok l /\
    forall i, i ∈ l <-> exists t u, t ∈ fields /\ u ∈ heads t /\ ordered !! i = Some u.
Proof.
  intros Hnd Hp. destruct (targets_loop_run ordered (S (sum_list_with spread fields)) (rev fields) []) as (l & Hl & Hi).
  - done.
  - intros t u Ht. apply Hp. by rewrite elem_of_rev in Ht.
  - rewrite spread_rev. lia.
  - exists l. split; [exact Hl|]. intros i. rewrite Hi, elem_of_nil. setoid_rewrite elem_of_rev. naive_solver.
Qed.

Section nodes.
Context (types : TypeContext) (nodes : list (Ty * list Ty)).

Abbreviation refers := (refers types).
Abbreviation recurs := (recurs types).

(** The nodes that a search leaves: expanded, and closed under references. *)
Record Searched : Prop := {
  searched_ascending : ascending nodes;
  searched_nodes t fs : (t, fs) ∈ nodes -> is_declaration t = true /\ expansion types t = Ok fs;
  searched_closed t u : t ∈ domain nodes -> refers t u -> u ∈ domain nodes }.

Context (H : Searched).

Lemma node_at i t : domain nodes !! i = Some t -> exists fs, nodes !! i = Some (t, fs) /\ expansion types t = Ok fs.
Proof.
  unfold domain. intros ([u fs] & -> & Hi)%list_lookup_fmap_Some. exists fs. split; [done|].
  by eapply searched_nodes, list_elem_of_lookup_2.
Qed.

Lemma type_edges_run : exists edges, edges_of nodes = Ok edges /\ length edges = length nodes /\ closed_rows edges /\
  forall i j, edge edges i j <-> exists t u, domain nodes !! i = Some t /\ domain nodes !! j = Some u /\ refers t u.
Proof.
  assert (exists edges, Forall2 (fun node row => targets_of (fst <$> nodes) node.2 = Ok row /\
      forall j, j ∈ row <-> exists u, domain nodes !! j = Some u /\ refers node.1 u) nodes edges) as [edges He].
  { apply Forall_exists_Forall2_l. apply list.Forall_forall. intros [t fs] Hin. cbn.
    destruct (searched_nodes H t fs Hin) as [_ Hx].
    destruct (targets_of_run (fst <$> nodes) fs) as (l & Hl & Hi).
    - exact (ascending_once _ (searched_ascending H)).
    - intros f u Hf Hu. apply (searched_closed H t).
      + apply list_elem_of_fmap. by exists (t, fs).
      + by exists fs, f.
    - exists l. split; [done|]. intros j. rewrite Hi. split.
      + intros (f & u & Hf & Hu & Hj). exists u. split; [done|]. by exists fs, f.
      + intros (u & Hj & fs' & f & Hx' & Hf & Hu). rewrite Hx in Hx'. injection Hx' as <-. by exists f, u. }
  assert (forall i j, edge edges i j <-> exists t u, domain nodes !! i = Some t /\ domain nodes !! j = Some u /\ refers t u) as Hedge.
  { intros i j. unfold edge. split.
    - intros (row & Hrow & Hj). destruct (Forall2_lookup_r _ _ _ _ _ He Hrow) as (node & Hi & _ & Hr).
      destruct (proj1 (Hr j) Hj) as (u & Hu & Hrefers). exists (fst node), u. split_and!; [|done..]. unfold domain. by rewrite list_lookup_fmap, Hi.
    - intros (t & u & Hi & Hj & Hu). destruct (node_at i t Hi) as (fs & Hn & _).
      destruct (Forall2_lookup_l _ _ _ _ _ He Hn) as (row & Hrow & _ & Hr). exists row. split; [done|]. apply Hr. by exists u. }
  exists edges. pose proof (Forall2_length _ _ _ He) as Hl. split_and!; [|done| |exact Hedge].
  - apply mapM_try_Ok. eapply list.Forall2_impl; [exact He|]. by intros ? ? [? _].
  - intros i row j Hrow Hj. assert (edge edges i j) as (t & u & _ & Hu & _)%Hedge by by exists row.
    apply lookup_lt_Some in Hu. unfold domain in Hu. rewrite length_fmap in Hu. lia.
Qed.

(** A cycle of edges is a cycle of references. *)
Lemma edge_cycle edges i t :
  (forall i j, edge edges i j <-> exists t u, domain nodes !! i = Some t /\ domain nodes !! j = Some u /\ refers t u) ->
  domain nodes !! i = Some t -> tc (edge edges) i i <-> recurs t.
Proof.
  intros He Hi. unfold RecursiveLaws.recurs. split.
  - assert (forall j, tc (edge edges) i j -> forall u, domain nodes !! j = Some u -> tc refers t u) as Hall; [|eauto].
    intros j Hj. revert t Hi. induction Hj as [i j Hij|i k j Hik _ IH]; intros t Hi u Hu.
    + apply He in Hij as (t' & u' & Ht' & Hu' & Hr). simplify_eq. by apply tc_once.
    + apply He in Hik as (t' & v & Ht' & Hv & Hr). simplify_eq. eapply tc_l; [exact Hr|]. by eapply IH.
  - assert (forall u, tc refers t u -> exists j, domain nodes !! j = Some u /\ tc (edge edges) i j) as Hall.
    { intros u Hu. revert i Hi. induction Hu as [t u Hr|t v u Hr _ IH]; intros i Hi.
      - assert (u ∈ domain nodes) as (j & Hj)%list_elem_of_lookup by (eapply (searched_closed H t); [by eapply list_elem_of_lookup_2|done]).
        exists j. split; [done|]. apply tc_once, He. by exists t, u.
      - assert (v ∈ domain nodes) as (k & Hk)%list_elem_of_lookup by (eapply (searched_closed H t); [by eapply list_elem_of_lookup_2|done]).
        destruct (IH k Hk) as (j & Hj & Hkj). exists j. split; [done|]. eapply tc_l; [|exact Hkj]. apply He. by exists t, v. }
    intros Hr. destruct (Hall t Hr) as (j & Hj & Hij). assert (j = i) as ->; [|done].
    eapply NoDup_lookup; [exact (ascending_once _ (searched_ascending H))|done..].
Qed.

(** The members that the components add are the types that recur. *)
Lemma members_run : exists edges indices members, edges_of nodes = Ok edges /\
  Components.recursive_indices edges = Ok indices /\
  mapM (fun index => or_panic (domain nodes !! index)) indices = Ok members /\
  forall t, t ∈ members <-> t ∈ domain nodes /\ recurs t.
Proof.
  destruct type_edges_run as (edges & He & Hl & Hc & Hedge). destruct (recursive_indices_run edges Hc) as (indices & Hi & Hin).
  assert (exists members, Forall2 (fun i t => domain nodes !! i = Some t) indices members) as [members Hm].
  { apply Forall_exists_Forall2_l. apply list.Forall_forall. intros i (Hlt & _)%Hin. apply lookup_lt_is_Some_2.
    unfold domain. rewrite length_fmap. lia. }
  exists edges, indices, members. split_and!; [done|done| |].
  - apply mapM_try_Ok. eapply list.Forall2_impl; [exact Hm|]. intros i t Ht. cbn. by rewrite Ht.
  - intros t. split.
    + intros (k & Hk)%list_elem_of_lookup. destruct (Forall2_lookup_r _ _ _ _ _ Hm Hk) as (i & Hki & Ht).
      apply list_elem_of_lookup_2, Hin in Hki as [_ Hcyc]. split; [by eapply list_elem_of_lookup_2|].
      by apply (edge_cycle edges i t Hedge Ht).
    + intros [(i & Ht)%list_elem_of_lookup Hr]. apply (edge_cycle edges i t Hedge Ht) in Hr.
      assert (i ∈ indices) as (k & Hk)%list_elem_of_lookup.
      { apply Hin. split; [|done]. apply lookup_lt_Some in Ht. unfold domain in Ht. rewrite length_fmap in Ht. lia. }
      destruct (Forall2_lookup_l _ _ _ _ _ Hm Hk) as (t' & Hkt & Ht'). simplify_eq. by eapply list_elem_of_lookup_2.
Qed.
End nodes.

(** ** Types with a finite value *)

(** A type that a finite term of the declarations can have; an array, a list, a function or a reference can always be had. *)
Inductive valued (types : TypeContext) : Ty -> Prop :=
| valued_record id arguments fields : record_fields types id arguments = Ok fields ->
    (forall field, field ∈ fields -> valued types field) -> valued types (Ty_Record id arguments)
| valued_union id arguments payloads payload : union_payloads types id arguments = Ok payloads -> payload ∈ payloads ->
    (forall ty, payload = Some ty -> valued types ty) -> valued types (Ty_Union id arguments)
| valued_tuple elements : (forall element, element ∈ elements -> valued types element) -> valued types (Ty_Tuple elements)
| valued_fixed_array element count : valued types element -> valued types (Ty_FixedArray element count)
| valued_shared element kind : valued types element -> valued types (Ty_Shared element kind)
| valued_other t : (forall known, finite t known = true) -> valued types t.

(** A set that a pass keeps and one that it grows. *)
Lemma set_insert_known t s : ascending s -> set_contains t s = true -> set_insert t s = s.
Proof.
  intros Hs Ht%set_contains_domain; [|done]. apply list_elem_of_fmap in Ht as ([u []] & -> & Ht).
  apply ascending_ext; [by apply map_insert_ascending|done|]. intros [v []].
  unfold set_insert. rewrite elem_of_map_insert by done. cbn. split; [by intros [[= ->]|[? _]]|].
  intros Hv. destruct (decide (v = u)) as [->|Hne]; [by left|by right].
Qed.

Lemma set_insert_fresh t s : ascending s -> set_contains t s = false -> length (set_insert t s) = S (length s).
Proof.
  intros Hs Ht%bool_decide_eq_false. apply length_map_insert. by apply eq_None_not_Some.
Qed.

Section inhabited.
Context (types : TypeContext) (nodes : list (Ty * list Ty)).

Abbreviation refers := (refers types).
Abbreviation valued := (valued types).

Lemma finite_valued t known : (forall u, set_contains u known = true -> valued u) -> finite t known = true -> valued t.
Proof.
  intros Hk. induction t as [t IH] using Ty_parts_ind. intros Ht. destruct t; cbn [parts finite] in *;
    try (by apply valued_other); try (by apply Hk).
  - apply valued_fixed_array. apply Forall_cons_iff in IH as [IH _]. by apply IH.
  - apply valued_tuple. intros u Hu. rewrite list.Forall_forall in IH. apply IH; [done|].
    rewrite forallb_forall in Ht. by apply Ht, list_elem_of_In.
  - apply valued_shared. apply Forall_cons_iff in IH as [IH _]. by apply IH.
Qed.

Lemma finite_more t known known' : (forall u, set_contains u known = true -> set_contains u known' = true) ->
  finite t known = true -> finite t known' = true.
Proof.
  intros Hk. induction t as [t IH] using Ty_parts_ind. intros Ht. destruct t; cbn [parts finite] in *; try done; try (by apply Hk);
    try (apply Forall_cons_iff in IH as [IH _]; by apply IH).
  rewrite forallb_forall in Ht |- *. rewrite list.Forall_forall in IH. intros u Hu.
  apply IH; [by apply list_elem_of_In|by apply Ht].
Qed.

Lemma has_value_run t fs known : is_declaration t = true -> expansion types t = Ok fs ->
  exists b, has_value types (t, fs) known = Ok b /\
    (b = true -> (forall u, set_contains u known = true -> valued u) -> valued t).
Proof.
  intros Hdecl Hx. destruct t; try done; unfold has_value; cbn in *.
  - eexists. split; [done|]. intros Hb Hk. eapply valued_record; [exact Hx|]. intros field Hf.
    eapply finite_valued; [exact Hk|]. rewrite forallb_forall in Hb. by apply Hb, list_elem_of_In.
  - destruct (union_payloads types id arguments) as [payloads|] eqn:E; [|done]. cbn. eexists. split; [done|].
    intros (payload & Hin & Hp)%existsb_exists Hk. apply list_elem_of_In in Hin. eapply valued_union; [exact E|exact Hin|].
    intros ty ->. by eapply finite_valued.
Qed.

(** A pass that adds nothing found no node with a value that was not known. *)
Lemma inhabited_pass_run : forall l known,
  (forall t fs, (t, fs) ∈ l -> is_declaration t = true /\ expansion types t = Ok fs) ->
  ascending known -> (forall u, set_contains u known = true -> valued u) ->
  exists known', inhabited_pass types l known = Ok known' /\ ascending known' /\
    (forall u, set_contains u known' = true -> valued u) /\
    (forall u, u ∈ domain known' -> u ∈ domain known \/ u ∈ domain l) /\
    length known <= length known' /\
    (length known' = length known -> known' = known /\
      forall node, node ∈ l -> has_value types node known = Ok true -> set_contains node.1 known = true).
Proof.
  induction l as [|[t fs] l IH]; intros known Hl Hk Hv; cbn [inhabited_pass].
  { exists known. split_and!; auto. intros _. split; [done|]. by intros ? ?%elem_of_nil. }
  destruct (Hl t fs) as [Hdecl Hx]; [by left|]. destruct (has_value_run t fs known Hdecl Hx) as (b & Hb & Hbv).
  rewrite Hb. cbn. set (known1 := if b then set_insert t known else known).
  assert (length known <= length known1 /\ (length known1 = length known -> known1 = known /\ (b = true -> set_contains t known = true)))
    as [Hle Heq].
  { subst known1. destruct b; [|by split]. destruct (set_contains t known) eqn:E.
    - rewrite (set_insert_known t known) by done. by split.
    - rewrite (set_insert_fresh t known) by done. split; [lia|]. intros. lia. }
  destruct (IH known1) as (known' & Hr & Ha & Hv' & Hd & Hle' & Heq').
  - intros. apply Hl. by right.
  - subst known1. destruct b; [by apply map_insert_ascending|done].
  - subst known1. destruct b; [|done]. intros u Hu%set_contains_domain; [|by apply map_insert_ascending].
    unfold set_insert in Hu. apply domain_insert in Hu as [->|Hu]; [by apply Hbv| |done]. by apply Hv, set_contains_domain.
  - exists known'. split_and!; [done..| |lia|].
    + intros u Hu. cbn. rewrite elem_of_cons. apply Hd in Hu as [Hu|Hu]; [|auto]. subst known1. destruct b; [|auto].
      apply domain_insert in Hu; [tauto|done].
    + intros Hlen. destruct Heq' as [-> Hrest]; [lia|]. destruct Heq as [E Ht]; [lia|]. rewrite E in *. split; [done|].
      intros node [->|Hnode]%elem_of_cons Hval; [|by apply Hrest]. cbn. rewrite Hb in Hval. injection Hval as ->. by apply Ht.
Qed.

Context (H : Searched types nodes).

(** A set that a pass keeps has every type with a value. *)
Lemma valued_known known : (forall node, node ∈ nodes -> has_value types node known = Ok true -> set_contains node.1 known = true) ->
  forall t, valued t -> (forall u, u ∈ heads t -> u ∈ domain nodes) -> finite t known = true.
Proof.
  intros Hk t Ht. induction Ht as [id arguments fields Hx Hf IH|id arguments payloads payload Hx Hin Hp IH|elements He IH| | |t Ht];
    intros Hheads; cbn [finite]; auto.
  - assert (Ty_Record id arguments ∈ domain nodes) as ([t fs] & E & Hn)%list_elem_of_fmap by (apply Hheads; by left).
    cbn in E. subst t.
    apply (Hk (Ty_Record id arguments, fs)); [done|]. destruct (searched_nodes _ _ H _ _ Hn) as [_ Hx'].
    cbn in Hx'. rewrite Hx in Hx'. injection Hx' as <-. unfold has_value. cbn. f_equal. apply forallb_forall.
    intros field Hfield%list_elem_of_In. apply IH; [done|]. intros u Hu. eapply (searched_closed _ _ H).
    + apply list_elem_of_fmap. by exists (Ty_Record id arguments, fields).
    + by exists fields, field.
  - assert (Ty_Union id arguments ∈ domain nodes) as ([t fs] & E & Hn)%list_elem_of_fmap by (apply Hheads; by left).
    cbn in E. subst t.
    apply (Hk (Ty_Union id arguments, fs)); [done|]. destruct (searched_nodes _ _ H _ _ Hn) as [_ Hx'].
    unfold has_value. cbn. rewrite Hx. cbn. f_equal. apply existsb_exists. exists payload.
    split; [by apply list_elem_of_In|]. destruct payload as [ty|]; [|done]. apply (IH ty); [done|]. intros u Hu.
    eapply (searched_closed _ _ H).
    + apply list_elem_of_fmap. by exists (Ty_Union id arguments, fs).
    + exists fs, ty. split_and!; [done| |done]. cbn in Hx'. rewrite Hx in Hx'. injection Hx' as <-.
      apply list_elem_of_omap. by exists (Some ty).
  - apply forallb_forall. intros u Hu%list_elem_of_In. apply IH; [done|]. intros v Hv. apply Hheads. cbn.
    apply elem_of_concat. exists (heads u). split; [by apply list_elem_of_fmap_2|done].
Qed.

Lemma known_length (known : TypeSet) : ascending known -> domain known ⊆ domain nodes -> length known <= length nodes.
Proof.
  intros Hk Hsub. rewrite <- (length_fmap fst known), <- (length_fmap fst nodes). apply submseteq_length, NoDup_submseteq; [|done].
  by apply ascending_once.
Qed.

Lemma inhabited_loop_run fuel : forall known, ascending known -> (forall u, set_contains u known = true -> valued u) ->
  domain known ⊆ domain nodes -> length nodes < fuel + length known ->
  exists known', inhabited_loop types fuel nodes known = Ok known' /\
    forall u, u ∈ domain nodes -> set_contains u known' = true <-> valued u.
Proof.
  induction fuel as [|fuel IH]; intros known Hk Hv Hsub Hfuel; [pose proof (known_length known Hk Hsub); lia|].
  cbn [inhabited_loop]. destruct (inhabited_pass_run nodes known) as (after & Hr & Ha & Hav & Hd & Hle & Heq); [|done..|].
  { intros t fs. apply (searched_nodes _ _ H). }
  rewrite Hr. cbn. destruct (length after =? length known) eqn:E.
  - apply Nat.eqb_eq in E. destruct (Heq E) as [-> Hall]. exists known. split; [done|]. intros u Hu. split; [by apply Hv|].
    intros Hval. pose proof Hu as ([t fs] & -> & Hn)%list_elem_of_fmap. destruct (searched_nodes _ _ H _ _ Hn) as [Hdecl _].
    cbn in *. assert (finite t known = true) as Hf; [|by destruct t].
    apply valued_known; [done..|]. intros v Hvt. destruct t; try done; by apply list_elem_of_singleton in Hvt as ->.
  - apply Nat.eqb_neq in E. apply IH; [done..| |lia]. intros u [?|?]%Hd; auto.
Qed.

Lemma inhabited_types_run : exists known, inhabited_types types nodes = Ok known /\
  forall u, u ∈ domain nodes -> set_contains u known = true <-> valued u.
Proof.
  apply inhabited_loop_run; [apply SSorted_nil|done|by intros ? ?%elem_of_nil|cbn; lia].
Qed.
End inhabited.

(** ** The analysis *)

Lemma flags_ascending {V W} (f : Ty -> W) (m : list (Ty * V)) : ascending m -> ascending ((fun t => (t, f t)) <$> domain m).
Proof.
  unfold domain. induction m as [|e m IH]; intros Hm; [constructor|]. apply ascending_cons in Hm as [Hm He]. cbn [fmap list_fmap].
  apply ascending_cons. split; [by apply IH|]. intros x (t & -> & (y & -> & Hy)%list_elem_of_fmap)%list_elem_of_fmap. by apply He.
Qed.

Lemma flags_domain {V W} (f : Ty -> W) (m : list (Ty * V)) : domain ((fun t => (t, f t)) <$> domain m) = domain m.
Proof. unfold domain at 1. rewrite <- list_fmap_compose. apply list_fmap_id. Qed.

Section analysis.
Context (types : TypeContext) (n : nat).

Abbreviation refers := (refers types).
Abbreviation recurs := (recurs types).
Abbreviation valued := (valued types).
Abbreviation wf := (every (instance types n)).

Lemma searched root g : SearchInv types n root g -> active g = [] -> Searched types (graph_nodes g).
Proof.
  intros H Ha. split.
  - apply (search_ascending _ _ _ _ H).
  - intros t fs Ht. by destruct (search_nodes _ _ _ _ H t fs Ht) as (_ & ? & ?).
  - intros t u Ht Hr. apply (search_closed _ _ _ _ H t); [done| |done]. rewrite Ha. by intros ?%elem_of_nil.
Qed.

(** The recursive types of a finished search, or one without a value. *)
Lemma classify_run span root g : SearchInv types n root g -> active g = [] ->
  (exists flags, classify types span g = Ok flags /\ domain flags = domain (graph_nodes g) /\ ascending flags /\
     (forall t b, (t, b) ∈ flags -> b = true <-> recurs t) /\ forall t, t ∈ domain (graph_nodes g) -> recurs t -> valued t) \/
  classify types span g = Err (Rejected (without_value span)) /\
    exists t, t ∈ domain (graph_nodes g) /\ recurs t /\ ~ valued t.
Proof.
  intros H Ha. pose proof (searched root g H Ha) as Hs.
  destruct (members_run types (graph_nodes g) Hs) as (edges & indices & members & He & Hi & Hm & Hin).
  destruct (inhabited_types_run types (graph_nodes g) Hs) as (known & Hk & Hval).
  unfold classify. fold (domain (graph_nodes g)). rewrite He. cbn -[domain inhabited_types set_extend set_contains]. rewrite Hi. cbn -[domain inhabited_types set_extend set_contains].
  rewrite Hm. cbn -[domain inhabited_types set_extend set_contains]. rewrite Hk. cbn -[domain inhabited_types set_extend set_contains].
  assert (forall t, t ∈ domain (set_extend members (recursive_types g)) <-> t ∈ domain (graph_nodes g) /\ recurs t) as Hset.
  { intros t. rewrite set_extend_domain by apply (search_sorted _ _ _ _ H). rewrite Hin. split; [|auto].
    intros [?|Ht]; [done|]. by apply (search_recursive _ _ _ _ H). }
  destruct (existsb _ _) eqn:E.
  - right. split; [done|]. apply existsb_exists in E as ([t []] & Ht & Hn). exists t.
    assert (t ∈ domain (set_extend members (recursive_types g))) as [Hd Hr]%Hset.
    { apply list_elem_of_fmap. exists (t, tt). split; [done|by apply list_elem_of_In]. }
    split_and!; [done..|]. intros Hv%Hval; [|done]. cbn in Hn. by rewrite Hv in Hn.
  - left. eexists. split_and!; [done|apply flags_domain|apply flags_ascending, H|..].
    + intros t b (u & [= -> ->] & Hu)%list_elem_of_fmap. rewrite set_contains_domain, Hset by (apply set_extend_ascending, H). tauto.
    + intros t Ht Hr. apply Hval; [done|]. destruct (set_contains t known) eqn:Ek; [done|]. exfalso.
      assert (t ∈ domain (set_extend members (recursive_types g))) as ([u []] & -> & Hu)%list_elem_of_fmap by by apply Hset.
      apply Bool.not_true_iff_false in E. apply E, existsb_exists. exists (u, tt). split; [by apply list_elem_of_In|].
      cbn in *. by rewrite Ek.
Qed.

Context (Hd : declared types n).

(** What the entries of an analysis say about their types. *)
Definition analysed (root : Ty) (flags : list (Ty * bool)) : Prop :=
  ascending flags /\ (forall t, t ∈ domain flags <-> reached_from types root t) /\
  forall t b, (t, b) ∈ flags -> (b = true <-> recurs t) /\ (b = true -> valued t).

Lemma analyze_run root span : wf root ->
  match analyze types root span with
  | Ok flags => analysed root flags
  | Err (Rejected _) => reason types root
  | Err (Broken _) => False
  end.
Proof.
  intros Hwf. unfold analyze. destruct (generic_declaration_run types n root Hwf) as [generic ->]. cbn [result_bind of_try].
  pose proof (search_root types n Hd span root (if generic then Some root else None) ltac:(by destruct generic; intros r [= <-]) Hwf) as Hsearch.
  destruct (visit_type _ _ _ _ _ _) as [[[]|[d|f]] g]; [|done..]. destruct Hsearch as (H & Ha & Hreach).
  destruct (classify_run span root g H Ha) as [(flags & -> & Hdom & Hasc & Hflags & Hval)|[-> (t & Ht & Hr & _)]];
    [|by apply (reason_cycle _ _ t); [apply Hreach|]].
  split_and!; [done|by rewrite Hdom|]. intros t b Hb. split; [by apply Hflags|]. intros ->. apply Hval; [|by apply (Hflags t true)].
  rewrite <- Hdom. apply list_elem_of_fmap. by exists (t, true).
Qed.

Lemma wf_refers t u : wf t -> refers t u -> wf u /\ is_declaration u = true.
Proof.
  intros Ht (l & field & Hl & Hf & Hu). assert (is_declaration t = true) as Hdecl by by destruct t.
  destruct (expansion_run types n Hd t Ht Hdecl) as (l' & Hl' & Hall). rewrite Hl in Hl'. injection Hl' as <-.
  rewrite list.Forall_forall in Hall. pose proof (heads_wf types n field (Hall field Hf)) as Hh.
  rewrite list.Forall_forall in Hh. by apply Hh.
Qed.

Lemma wf_reached t u : wf t -> is_declaration t = true -> rtc refers t u -> wf u /\ is_declaration u = true.
Proof. intros Ht Hdecl Hr. induction Hr as [t|t v u Hv _ IH]; [done|]. apply IH; by eapply wf_refers. Qed.
End analysis.

(** ** Entries *)

Definition entry (ty : Ty) (memo : Memo) : option (Result bool DiagnosticData) :=
  match entries_of ty memo with Some (entries, arguments) => Ordered.map_get arguments entries | None => None end.

Lemma entry_record id arguments memo : entry (Ty_Record id arguments) memo =
  match record_memo memo !! id with Some entries => Ordered.map_get arguments entries | None => None end.
Proof. unfold entry. cbn. by destruct (record_memo memo !! id). Qed.

Lemma entry_union id arguments memo : entry (Ty_Union id arguments) memo =
  match union_memo memo !! id with Some entries => Ordered.map_get arguments entries | None => None end.
Proof. unfold entry. cbn. by destruct (union_memo memo !! id). Qed.

Section memo.
Context (types : TypeContext) (n : nat).

Abbreviation recurs := (recurs types).
Abbreviation valued := (valued types).
Abbreviation wf := (every (instance types n)).

Record Shape (memo : Memo) : Prop := {
  shape_records : length (record_memo memo) = length (records types);
  shape_unions : length (union_memo memo) = length (unions types);
  shape_record id entries : record_memo memo !! id = Some entries -> ascending entries;
  shape_union id entries : union_memo memo !! id = Some entries -> ascending entries }.

Lemma shape_default : Shape (Memo_default types).
Proof.
  split; cbn; [apply length_replicate..| |]; intros id entries [-> _]%lookup_replicate; apply SSorted_nil.
Qed.

(** One more entry of one declaration. *)
Lemma replaced_entry (caches : list Entries) id entries arguments value :
  (forall i e, caches !! i = Some e -> ascending e) -> caches !! id = Some entries ->
  let caches' := <[id := Ordered.map_insert arguments value entries]> caches in
  (forall i e, caches' !! i = Some e -> ascending e) /\
  forall i arguments', match caches' !! i with Some e => Ordered.map_get arguments' e | None => None end =
    if decide (i = id /\ arguments' = arguments) then Some value
    else match caches !! i with Some e => Ordered.map_get arguments' e | None => None end.
Proof.
  intros Ha Hid. cbv zeta. split.
  - intros i e [(-> & <- & _)|[_ Hi]]%list_lookup_insert_Some; [|by eapply Ha]. eapply map_insert_ascending, Ha, Hid.
  - intros i arguments'. destruct (decide (i = id)) as [->|Hne].
    + rewrite list_lookup_insert_eq by (by eapply lookup_lt_Some). rewrite map_get_insert by (by eapply Ha). rewrite Hid.
      apply decide_ext. naive_solver.
    + rewrite list_lookup_insert_ne by done. rewrite decide_False; [done|]. by intros [-> _].
Qed.

Lemma memo_insert_run ty value memo : Shape memo -> wf ty -> is_declaration ty = true ->
  exists memo', memo_insert ty value memo = Some memo' /\ Shape memo' /\
    forall u, entry u memo' = if decide (u = ty) then Some value else entry u memo.
Proof.
  intros [H1 H2 H3 H4] [[Hid _] _] Hdecl. destruct ty; try done; cbn in Hid; cbn [memo_insert].
  - rewrite <- H1 in Hid. destruct (lookup_lt_is_Some_2 _ _ Hid) as [entries He]. unfold Entries in *. rewrite He. cbn.
    destruct (replaced_entry (record_memo memo) id entries arguments value H3 He) as [Ha Hg].
    eexists. split_and!; [done|split; cbn; [by rewrite length_insert|done|exact Ha|done]|].
    intros u. destruct u; try (by rewrite decide_False by done). rewrite !entry_record. etrans; [apply Hg|].
    apply decide_ext. naive_solver.
  - rewrite <- H2 in Hid. destruct (lookup_lt_is_Some_2 _ _ Hid) as [entries He]. unfold Entries in *. rewrite He. cbn.
    destruct (replaced_entry (union_memo memo) id entries arguments value H4 He) as [Ha Hg].
    eexists. split_and!; [done|split; cbn; [done|by rewrite length_insert|done|exact Ha]|].
    intros u. destruct u; try (by rewrite decide_False by done). rewrite !entry_union. etrans; [apply Hg|].
    apply decide_ext. naive_solver.
Qed.

(** ** Calls *)

(** The right answer for a type. *)
Definition right (ty : Ty) (b : bool) : Prop := (b = true <-> recurs ty) /\ (b = true -> valued ty).

Lemma right_unique ty b b' : right ty b -> right ty b' -> b = b'.
Proof. intros [H _] [H' _]. apply Bool.eq_iff_eq_true. tauto. Qed.

(** An entry is right, or the type has a reason to be reported. *)
Definition answers (ty : Ty) (value : Result bool DiagnosticData) : Prop :=
  match value with Ok b => right ty b | Err _ => reason types ty end.

Definition MemoInv (memo : Memo) : Prop := Shape memo /\ forall ty value, wf ty -> entry ty memo = Some value -> answers ty value.

Lemma memo_default : MemoInv (Memo_default types).
Proof.
  split; [apply shape_default|]. intros ty value _. destruct ty; try done; rewrite ?entry_record, ?entry_union; cbn;
    by destruct (_ !! id) eqn:E; [apply lookup_replicate in E as [-> _]|].
Qed.

(** No answer is lost. *)
Definition kept (memo memo' : Memo) : Prop := forall ty b, entry ty memo = Some (Ok b) -> entry ty memo' = Some (Ok b).

#[export] Instance kept_preorder : PreOrder kept.
Proof. split; [by intros memo ty b|]. intros m1 m2 m3 H1 H2 ty b H. by apply H2, H1. Qed.

(** How a call ends: never with a fault, with the memo in order, and with a report only for a reason. *)
Definition settles {A} (R : Prop) (m : M Failure Memo A) (Q : A -> Memo -> Prop) (memo : Memo) : Prop :=
  match m memo with
  | (Ok a, memo') => Q a memo' /\ MemoInv memo' /\ kept memo memo'
  | (Err (Rejected _), memo') => R /\ MemoInv memo' /\ kept memo memo'
  | (Err (Broken _), _) => False
  end.

Lemma memo_settles_ret {A} R (a : A) (Q : A -> Memo -> Prop) memo : MemoInv memo -> Q a memo -> settles R (ret a) Q memo.
Proof. intros. by split_and!. Qed.

Lemma memo_settles_bind {A B} R (m : M Failure Memo A) (k : A -> M Failure Memo B) Q memo :
  settles R m (fun a memo' => MemoInv memo' -> kept memo memo' -> settles R (k a) Q memo') memo -> settles R (bind m k) Q memo.
Proof.
  unfold settles, bind. destruct (m memo) as [[a|[d|f]] memo1]; [|done..]. intros (Hk & Hm & Hkept). specialize (Hk Hm Hkept).
  destruct (k a memo1) as [[b|[d|f]] memo2]; [|destruct Hk as (? & ? & ?); split_and!; [done..|by etrans]|done].
  destruct Hk as (? & ? & ?). split_and!; [done..|by etrans].
Qed.

Lemma memo_settles_mono {A} R (m : M Failure Memo A) (P Q : A -> Memo -> Prop) memo : settles R m P memo ->
  (forall a memo', P a memo' -> MemoInv memo' -> kept memo memo' -> Q a memo') -> settles R m Q memo.
Proof. unfold settles. destruct (m memo) as [[a|[d|f]] memo1]; [|done..]. intros (HP & Hm & Hk) HQ. split_and!; auto. Qed.

Lemma insert_entry_run R ty value memo : MemoInv memo -> wf ty -> is_declaration ty = true -> answers ty value ->
  match value with Ok b => True | Err _ => entry ty memo = None end ->
  settles R (insert_entry ty value) (fun _ memo' => entry ty memo' = Some value) memo.
Proof.
  intros [Hs Hr] Hwf Hdecl Ha Hv. unfold settles, insert_entry, bind. cbn.
  destruct (memo_insert_run ty value memo Hs Hwf Hdecl) as (memo' & -> & Hs' & Hg). cbn. split_and!.
  - rewrite Hg. by rewrite decide_True.
  - split; [done|]. intros u v Hu. rewrite Hg. case_decide as E; [|by apply Hr]. intros [= ->]. by subst.
  - intros u b Hu. rewrite Hg. case_decide as E; [|done]. subst. destruct value as [b'|]; [|congruence].
    by rewrite (right_unique ty b b') by (try done; exact (Hr ty (Ok b) Hwf Hu)).
Qed.

Context (Hd : declared types n).

Lemma broken_run {A} R (r : Try A) a (Q : A -> Memo -> Prop) memo : r = Ok a -> MemoInv memo -> Q a memo -> settles R (broken r) Q memo.
Proof. intros ->. apply memo_settles_ret. Qed.

Lemma insert_nodes_run R ty nodes memo : MemoInv memo -> wf ty ->
  (forall t b, (t, b) ∈ nodes -> wf t /\ is_declaration t = true /\ right t b) ->
  settles R (for_each (insert_node types ty) nodes) (fun _ memo' => forall b, (ty, b) ∈ nodes -> entry ty memo' = Some (Ok b)) memo.
Proof.
  intros Hm Hwf. revert memo Hm. induction nodes as [|[t b] nodes IH]; intros memo Hm Hn; cbn [for_each].
  { apply memo_settles_ret; [done|]. by intros b ?%elem_of_nil. }
  destruct (Hn t b) as (Htwf & Htdecl & Hright); [by left|].
  assert (forall memo, MemoInv memo -> (t = ty -> entry ty memo = Some (Ok b)) -> settles R (for_each (insert_node types ty) nodes)
    (fun _ memo' => forall b', (ty, b') ∈ (t, b) :: nodes -> entry ty memo' = Some (Ok b')) memo) as Hrest.
  { intros memo1 Hm1 He. eapply memo_settles_mono; [apply IH; [done|]; intros; apply Hn; by right|].
    intros [] memo' Hin _ Hk b' [[= <- <-]|Hb]%elem_of_cons; [by apply Hk, He|by apply Hin]. }
  apply memo_settles_bind. unfold insert_node. apply memo_settles_bind. cbn [fst snd].
  destruct (bool_decide (t = ty)) eqn:E.
  - apply bool_decide_eq_true in E as ->. apply memo_settles_ret; [done|]. intros _ _.
    eapply memo_settles_mono; [by apply insert_entry_run|]. intros [] memo1 He _ _ Hm1 Hk. by apply Hrest.
  - apply bool_decide_eq_false in E. destruct (generic_declaration_run types n t Htwf) as [generic Hg].
    eapply broken_run; [exact Hg|done|]. intros _ _. destruct generic.
    + apply memo_settles_ret; [done|]. intros _ _. by apply Hrest.
    + eapply memo_settles_mono; [by apply insert_entry_run|]. intros [] memo1 _ _ _ Hm1 Hk. by apply Hrest.
Qed.

Lemma analyze_new_run ty span memo : MemoInv memo -> wf ty -> is_declaration ty = true -> entry ty memo = None ->
  settles (reason types ty) (analyze_new types ty span) (fun b memo' => right ty b /\ entry ty memo' = Some (Ok b)) memo.
Proof.
  intros Hm Hwf Hdecl Hnone. unfold analyze_new. pose proof (analyze_run types n Hd ty span Hwf) as Ha.
  destruct (analyze types ty span) as [nodes|[d|f]]; [| |done].
  - destruct Ha as (Hasc & Hdom & Hflags).
    assert (heads ty = [ty]) as Hheads by by destruct ty.
    assert (ty ∈ domain nodes) as ([t b] & E & Hin)%list_elem_of_fmap.
    { apply Hdom. exists ty. rewrite Hheads. split; [by left|apply rtc_refl]. }
    cbn in E. subst t. apply memo_settles_bind. eapply broken_run; [by rewrite (proj2 (map_get_Some ty b nodes Hasc) Hin)|done|].
    intros _ _. apply memo_settles_bind. eapply memo_settles_mono; [apply (insert_nodes_run _ ty nodes); [done..|]|].
    + intros t b' Ht. assert (t ∈ domain nodes) as (u & Hu & Hr)%Hdom by (apply list_elem_of_fmap; by exists (t, b')).
      rewrite Hheads in Hu. apply list_elem_of_singleton in Hu as ->.
      destruct (wf_reached types n Hd ty t Hwf Hdecl Hr). split_and!; [done..|]. by apply Hflags.
    + intros [] memo1 Hall _ _ Hm1 _. apply memo_settles_ret; [done|]. split; [by apply Hflags|by apply Hall].
  - apply memo_settles_bind. eapply memo_settles_mono; [by apply insert_entry_run|]. intros [] memo1 _ _ _ Hm1 _. by split.
Qed.

(** The analysis behind [recursive], on a memo that other calls have left. *)
Lemma recursive_checked_run ty span memo : MemoInv memo -> wf ty ->
  settles (reason types ty) (recursive_checked types ty span)
    (fun b memo' => right ty b /\ (is_declaration ty = true -> entry ty memo' = Some (Ok b))) memo.
Proof.
  intros Hm Hwf. unfold recursive_checked. destruct (is_declaration ty) eqn:Hdecl; cbn [negb].
  - apply memo_settles_bind. apply (memo_settles_ret (reason types ty) memo); [done|]. intros _ _. pose proof Hm as [Hs Hr].
    assert (exists entries arguments, entries_of ty memo = Some (entries, arguments)) as (entries & arguments & He).
    { destruct Hwf as [[Hid _] _]. destruct ty; try done; cbn in Hid |- *.
      - rewrite <- (shape_records _ Hs) in Hid. destruct (lookup_lt_is_Some_2 _ _ Hid) as [e ->]. cbn. eauto.
      - rewrite <- (shape_unions _ Hs) in Hid. destruct (lookup_lt_is_Some_2 _ _ Hid) as [e ->]. cbn. eauto. }
    rewrite He. assert (entry ty memo = Ordered.map_get arguments entries) as Hentry by (unfold entry; by rewrite He).
    destruct (Ordered.map_get arguments entries) as [[b|d]|] eqn:Hg.
    + apply memo_settles_ret; [done|]. split; [exact (Hr ty (Ok b) Hwf Hentry)|done].
    + unfold settles. cbn. split_and!; [exact (Hr ty (Err d) Hwf Hentry)|done..].
    + eapply memo_settles_mono; [by apply analyze_new_run|]. intros b memo' [? ?] _ _. by split.
  - apply memo_settles_ret; [done|]. split; [|done]. split; [|done]. split; [done|].
    intros Hr. assert (exists u, refers types ty u) as (u & l & f & Hx & _) by (inversion Hr; eauto).
    by destruct ty.
Qed.

(** [recursive] always answers, and is only wrong about a type whose declaration is in error. *)
Lemma recursive_run ty memo : MemoInv memo -> wf ty ->
  exists b memo', recursive types ty memo = (Ok b, memo') /\ MemoInv memo' /\ kept memo memo' /\
    (b = false -> ~ recurs ty) /\ (b = true -> recurs ty \/ reason types ty) /\ (b = false -> is_declaration ty = true -> entry ty memo' = Some (Ok false)).
Proof.
  intros Hm Hwf. pose proof (recursive_checked_run ty Span_default memo Hm Hwf) as Hc. unfold settles in Hc. unfold recursive.
  destruct (recursive_checked types ty Span_default memo) as [[b|[d|f]] memo']; [| |done].
  - destruct Hc as ([[Hright _] He] & ? & ?). exists b, memo'. split_and!; [done..| | |].
    + intros ->. by intros Hr%Hright.
    + intros Hb. left. by apply Hright.
    + intros ->. apply He.
  - destruct Hc as (? & ? & ?). exists true, memo'. split_and!; auto; done.
Qed.
End memo.
