(* ===== verification/PropertyLaws.v ===== *)
(** * Laws of copies, sends and sizes

    What the memo answers when it has an answer, the tests over fields and payloads as tests over what a type stores, the
    types that [is_copy] accepts, all of which a function value may hold, and what [can_send] excludes. A measure of a type
    always ends, without a fault, and gives no size over the limit of a value. *)
From stdpp Require Import list strings gmap.
From Stdlib Require Import Sorted.
From S2P Require Import Prelude Wire Syntax Faults Ordered Kinds Utf8 Text Render Report Types.
From S2P Require Import Inference.
From S2P Require Import TypeLaws InferenceLaws FunctionLaws Declarations TypeArena ArenaLaws.
From S2P Require Import RecursiveTypes.
From S2P Require Import TypeProperties Layouts RecursiveLaws AnalysisLaws.
Local Open Scope nat_scope.
Local Open Scope monad_scope.

(** ** Tests over fields and payloads *)

Lemma record_fields_all_stored {S} types id arguments (test : Ty -> M Fault S bool) l s :
  record_fields types id arguments = Ok l -> record_fields_all types id arguments test s = all_of test l s.
Proof.
  intros H. unfold record_fields_all, bind, lift. pose proof H as Hr. unfold record_fields in H.
  destruct (record_at types id) as [record|]; [|done]. destruct arguments; [by injection H as <-|by rewrite Hr].
Qed.

Lemma union_payloads_all_stored {S} types id arguments (test : Ty -> M Fault S bool) l s :
  union_payloads types id arguments = Ok l ->
  union_payloads_all types id arguments test s = all_of test (omap (fun payload => payload) l) s.
Proof.
  intros H. unfold union_payloads_all, bind, lift. pose proof H as Hu. unfold union_payloads in H.
  destruct (union_at types id) as [union_|]; [|done]. destruct arguments; [injection H as <-; by rewrite omap_snd|by rewrite Hu].
Qed.

(** ** Marks *)

Lemma named_one_of_incl names names' name : (forall x, x ∈ names -> x ∈ names') ->
  named_one_of names' name = false -> named_one_of names name = false.
Proof.
  intros Hsub Hn. apply Bool.not_true_iff_false. intros (x & Hx%list_elem_of_In & Hb)%existsb_exists.
  apply Bool.not_true_iff_false in Hn. apply Hn, existsb_exists. exists x. split; [by apply list_elem_of_In, Hsub|done].
Qed.

Lemma std_record_incl types names names' ty : (forall x, x ∈ names -> x ∈ names') ->
  std_record types names' ty = Ok false -> std_record types names ty = Ok false.
Proof.
  intros Hsub. unfold std_record. destruct ty; try done. destruct (record_at types id) as [record|]; [|done]. cbn.
  intros H. injection H as H. f_equal. apply andb_false_iff in H as [->|H]; [done|]. rewrite (named_one_of_incl _ _ _ Hsub H).
  apply andb_false_r.
Qed.

(** What no copy is, no capture is. *)
Lemma noncopy_marks types ty : is_noncopy_record types ty = Ok false ->
  has_user_drop types ty = Ok false /\ is_owned_function types ty = Ok false /\ is_shared_cell types ty = Ok false.
Proof.
  unfold is_noncopy_record. destruct (has_user_drop types ty) as [[]|]; [done| |done]. cbn. intros H.
  split_and!; [done| |]; (eapply std_record_incl; [|exact H]); set_solver.
Qed.

(** ** The types that are copied *)

(** The memo has the answer that the type does not recur. *)
Definition settled (memo : Memo) (ty : Ty) : Prop := is_declaration ty = true -> entry ty memo = Some (Ok false).

Lemma settled_kept memo memo' ty : kept memo memo' -> settled memo ty -> settled memo' ty.
Proof. intros Hk Hs Hd. by apply Hk, Hs. Qed.

Lemma settled_recursive types memo ty : settled memo ty -> recursive types ty memo = (Ok false, memo).
Proof.
  intros Hs. unfold recursive, recursive_checked. destruct (is_declaration ty) eqn:Hd; [|done]. specialize (Hs Hd). cbn.
  unfold bind, gets, entry in *. cbn. destruct (entries_of ty memo) as [[entries arguments]|]; [|done]. by rewrite Hs.
Qed.

Definition not_copied (ty : Ty) : bool :=
  match ty with
  | Ty_String | Ty_Utf8String | Ty_Vec _ | Ty_Once _ | Ty_Handle _ | Ty_Shared _ _ | Ty_Reference _ true
  | Ty_Partial _ _ | Ty_Application _ _ | Ty_Variable _ | Ty_Infer _ => true
  | Ty_Dyn dyn => negb (DynType_copy dyn)
  | _ => false
  end.

Section copies.
Context (types : TypeContext).

Inductive copies (memo : Memo) : Ty -> Prop :=
| copies_intro ty l : settled memo ty -> is_noncopy_record types ty = Ok false -> not_copied ty = false ->
    stored types false ty = Ok l -> (forall u, u ∈ l -> copies memo u) -> copies memo ty.

Lemma copies_kept memo memo' ty : kept memo memo' -> copies memo ty -> copies memo' ty.
Proof.
  intros Hk H. induction H as [ty l Hs Hn Hc Hl _ IH]. apply (copies_intro memo' ty l); try done. by eapply settled_kept.
Qed.

Context (n : nat) (Hd : declared types n).

Abbreviation wf := (every (instance types n)).
Abbreviation MemoInv := (MemoInv types n).

(** A call that ends with [true]. *)
Definition accepts (m : PM bool) (Q : Memo -> Prop) : Prop := forall memo memo',
  MemoInv memo -> m memo = (Ok true, memo') -> MemoInv memo' /\ kept memo memo' /\ Q memo'.

Lemma all_of_accepts (test : Ty -> PM bool) (P : Memo -> Ty -> Prop) l :
  (forall x memo memo', kept memo memo' -> P memo x -> P memo' x) ->
  (forall x, x ∈ l -> accepts (test x) (fun memo => P memo x)) ->
  accepts (all_of test l) (fun memo => forall x, x ∈ l -> P memo x).
Proof.
  intros Hk. induction l as [|x l IH]; intros Hl memo memo' Hm; cbn [all_of].
  - intros [= <-]. split_and!; [done..|]. by intros x ?%elem_of_nil.
  - unfold bind at 1. destruct (test x memo) as [[[]|] memo1] eqn:E; [|done|done]. intros Hrest.
    destruct (Hl x) with memo memo1 as (Hm1 & Hk1 & HP); [by left|done..|].
    destruct (IH ltac:(intros; apply Hl; by right) memo1 memo' Hm1 Hrest) as (Hm' & Hk' & HPs).
    split_and!; [done|by etrans|]. intros y [->|Hy]%elem_of_cons; [by eapply Hk|auto].
Qed.

Lemma is_copy_accepts fuel : forall ty, wf ty -> accepts (is_copy types fuel ty) (fun memo => copies memo ty).
Proof.
  induction fuel as [|fuel IH]; intros ty Hwf memo memo' Hm; [done|]. cbn [is_copy].
  unfold or_also, bind at 1, bind at 1, lift.
  destruct (recursive_run types n Hd ty memo Hm Hwf) as (b & memo1 & -> & Hm1 & Hk1 & _ & _ & Hs). destruct b; [done|]. specialize (Hs eq_refl).
  destruct (is_noncopy_record types ty) as [[]|] eqn:Hnon; [done| |done].
  destruct (stored_run types n Hd false ty Hwf) as (l & Hl & Hlwf). rewrite list.Forall_forall in Hlwf.
  assert (forall m, accepts m (fun memo => forall u, u ∈ l -> copies memo u) -> not_copied ty = false ->
    m memo1 = (Ok true, memo') -> MemoInv memo' /\ kept memo memo' /\ copies memo' ty) as Hdone.
  { intros m Hacc Hnc E. destruct (Hacc memo1 memo' Hm1 E) as (? & Hk' & Hc). split_and!; [done|by etrans|].
    apply (copies_intro memo' ty l); try done. intros Hdecl. by apply Hk', Hs. }
  assert (accepts (all_of (is_copy types fuel) l) (fun memo => forall u, u ∈ l -> copies memo u)) as Hall.
  { apply all_of_accepts; [intros x m m'; apply copies_kept|]. intros u Hu. by apply IH, Hlwf. }
  assert (accepts (ret true) (fun memo => forall u, u ∈ [] -> copies memo u)) as Hleaf.
  { intros m m' Hm2 [= <-]. split_and!; [done..|]. by intros u ?%elem_of_nil. }
  assert (forall element, accepts (is_copy types fuel element) (fun memo => copies memo element) ->
    accepts (is_copy types fuel element) (fun memo => forall u, u ∈ [element] -> copies memo u)) as Hone.
  { intros element Ha m m' Hm2 E. destruct (Ha m m' Hm2 E) as (? & ? & ?). split_and!; [done..|].
    by intros u ->%list_elem_of_singleton. }
  destruct ty; cbn [stored] in Hl; try done;
    try (injection Hl as <-; apply Hdone; [first [done|apply Hone, IH, Hlwf; by left]|done]).
  - rewrite (record_fields_all_stored _ _ _ _ _ _ Hl). by apply Hdone.
  - destruct (union_payloads types id arguments) as [payloads|] eqn:Hp; [|done]. injection Hl as <-.
    rewrite (union_payloads_all_stored _ _ _ _ _ _ Hp). by apply Hdone.
  - destruct mutable; [done|]. injection Hl as <-. by apply Hdone.
  - destruct (DynType_copy dyn) eqn:Hcopy; [|done]. injection Hl as <-. apply Hdone; [done|]. cbn. by rewrite Hcopy.
Qed.

(** ** Captures *)

Lemma enough_for_all (P : nat -> Ty -> Prop) (l : list Ty) : (forall u, u ∈ l -> exists f, forall fuel, f <= fuel -> P fuel u) ->
  exists f, forall fuel u, f <= fuel -> u ∈ l -> P fuel u.
Proof.
  induction l as [|x l IH]; intros Hl; [exists 0; by intros fuel u _ ?%elem_of_nil|].
  destruct (Hl x) as [f Hf]; [by left|]. destruct IH as [g Hg]; [intros; apply Hl; by right|]. exists (Nat.max f g).
  intros fuel u Hle [->|Hu]%elem_of_cons; [apply Hf|apply Hg]; (done || lia).
Qed.

Lemma all_of_true {S} (test : Ty -> M Fault S bool) (l : list Ty) s : (forall u, u ∈ l -> test u s = (Ok true, s)) -> all_of test l s = (Ok true, s).
Proof.
  induction l as [|x l IH]; intros Hl; [done|]. cbn [all_of]. unfold bind at 1. rewrite (Hl x) by by left.
  apply IH. intros u Hu. apply Hl. by right.
Qed.

Lemma copies_captured finish walk_fuel memo ty : copies memo ty ->
  exists f, forall fuel, f <= fuel -> can_capture finish types walk_fuel fuel ty memo = (Ok true, memo).
Proof.
  intros H. induction H as [ty l Hs Hn Hc Hl _ IH].
  destruct (enough_for_all (fun fuel u => can_capture finish types walk_fuel fuel u memo = (Ok true, memo)) l IH) as [f Hf].
  exists (S f). intros [|fuel] Hle; [lia|]. specialize (Hf fuel). destruct (noncopy_marks _ _ Hn) as (Hdrop & Howned & Hcell).
  assert (all_of (can_capture finish types walk_fuel fuel) l memo = (Ok true, memo)) as Hall.
  { apply all_of_true. intros u Hu. apply Hf; [lia|done]. }
  assert (excluded_capture types ty memo = (Ok false, memo)) as Hexcluded.
  { unfold excluded_capture, or_also, bind, lift. by rewrite Hdrop, Howned, Hcell. }
  cbn [can_capture]. unfold bind at 1. rewrite Hexcluded. cbv iota. unfold bind at 1. rewrite settled_recursive by done. cbv iota.
  destruct ty; cbn [stored] in Hl; try done; try (injection Hl as <-; apply Hf; [lia|by left]).
  - by rewrite (record_fields_all_stored _ _ _ _ _ _ Hl).
  - destruct (union_payloads types id arguments) as [payloads|] eqn:Hp; [|done]. injection Hl as <-.
    by rewrite (union_payloads_all_stored _ _ _ _ _ _ Hp).
  - by injection Hl as ->.
  - by destruct mutable.
  - cbn in Hc. apply negb_false_iff in Hc. by rewrite Hc.
Qed.
End copies.

(** ** Sends *)

Section sends.
Context (finish : list Write -> u64) (types : TypeContext) (D : list Ty).
Context (HD : (N.of_nat (length D) < 2 ^ 32)%N).
Context (HS : forall t, t ∈ D -> exists l, stored types false t = Ok l /\ l ⊆ D).

Definition stores (t u : Ty) : Prop := exists l, stored types false t = Ok l /\ u ∈ l.

Lemma bind_step {E S A B} (m : M E S A) (k : A -> M E S B) s a s' : m s = (Ok a, s') -> bind m k s = k a s'.
Proof. unfold bind. by intros ->. Qed.

Lemma bind_in_arena {S A B} (m : AM A) (k : A * TypeArena -> M Fault S B) arena s :
  bind (in_arena m arena) k s = match m arena with (Ok a, arena') => k (a, arena') s | (Err e, _) => (Err e, s) end.
Proof. unfold bind, in_arena. by destruct (m arena) as [[a|e] arena']. Qed.

(** A walk that asks no more of each type ends with [true] as well. *)
Lemma walk_loop_weaken {S S'} (predicate closed : Ty -> M Fault S bool) (predicate' closed' : Ty -> M Fault S' bool) s' references fuel :
  (forall t s s1, predicate t s = (Ok true, s1) -> predicate' t s' = (Ok true, s')) ->
  (forall t s b s1, closed t s = (Ok b, s1) -> closed' t s' = (Ok b, s')) ->
  forall arena pending s s1, walk_loop finish types predicate closed references fuel arena pending s = (Ok true, s1) ->
  walk_loop finish types predicate' closed' references fuel arena pending s' = (Ok true, s').
Proof.
  intros Hp Hc. induction fuel as [|fuel IH]; intros arena pending s s1; cbn [walk_loop]; [done|].
  destruct pending as [|id pending]; [done|]. 
  intros (t & s2 & [= Ht <-] & (b & s3 & Hb & H)%bind_Ok)%bind_Ok. destruct b; [|done]. cbn [negb] in H.
  apply bind_Ok in H as (b & s4 & Hclosed & H). rewrite (bind_step (lift _) _ s' t s') by (by rewrite <- Ht).
  rewrite (bind_step _ _ _ _ _ (Hp _ _ _ Hb)). cbn [negb]. rewrite (bind_step _ _ _ _ _ (Hc _ _ _ _ Hclosed)).
  revert H. destruct b; [by apply IH|].
  rewrite !bind_in_arena. destruct (visit_node id arena) as [[[]|] arena1]; cbn [negb]; [|by apply IH|done].
  rewrite !bind_in_arena. destruct (children _ _ _ _ _ _) as [[pending'|] arena2]; [by apply IH|done].
Qed.

Lemma walk_types_weaken {S S'} (predicate closed : Ty -> M Fault S bool) (predicate' closed' : Ty -> M Fault S' bool) s' references fuel root s s1 :
  (forall t s s1, predicate t s = (Ok true, s1) -> predicate' t s' = (Ok true, s')) ->
  (forall t s b s1, closed t s = (Ok b, s1) -> closed' t s' = (Ok b, s')) ->
  walk_types finish types predicate closed references fuel root s = (Ok true, s1) ->
  walk_types finish types predicate' closed' references fuel root s' = (Ok true, s').
Proof.
  intros Hp Hc. unfold walk_types. intros (b & s2 & Hb & H)%bind_Ok. destruct b; [|done]. cbn [negb] in H.
  apply bind_Ok in H as (b & s3 & Hclosed & H). rewrite (bind_step _ _ _ _ _ (Hp _ _ _ Hb)). cbn [negb].
  rewrite (bind_step _ _ _ _ _ (Hc _ _ _ _ Hclosed)). revert H. destruct (b || _); [done|].
  rewrite !bind_in_arena. destruct (borrowed _ _ _) as [[id|] arena1]; [|done].
  rewrite !bind_in_arena. destruct (visit_node _ _) as [[first|] arena2]; [|done].
  rewrite !bind_in_arena. destruct (children _ _ _ _ _ _) as [[pending|] arena3]; [|done].
  by apply walk_loop_weaken.
Qed.

(** A pure test of all that a type stores. *)
Lemma stored_all_pure (q : Ty -> bool) walk_fuel root (memo : Memo) : root ∈ D -> sum_list_with (weight types false) D < walk_fuel ->
  exists b, stored_all finish types walk_fuel root (fun t => ret (q t)) memo = (Ok b, memo) /\
    (b = true <-> forall t, rtc stores root t -> q t = true).
Proof.
  intros Hroot Hfuel. pose proof (walk_types_run finish types D HD (fun t => ret (q t)) (fun _ => ret false) false (fun m => m = memo) q
    (fun _ => false)) as Hw.
  destruct (returns_Ok _ _ _ (Hw ltac:(by intros) ltac:(by intros) HS root walk_fuel memo Hroot Hfuel eq_refl)) as (b & s' & E & -> & Hb).
  exists b. split; [exact E|]. rewrite Hb. unfold reached.
  assert (forall t u, looks_at types false (fun _ => false) t u <-> stores t u) as Hl.
  { intros t u. unfold looks_at, stores. naive_solver. }
  split; intros Hall t Ht; apply Hall; (eapply rtc_subrel; [|exact Ht]); intros x y; apply Hl.
Qed.

(** Each type that a value owns may be sent. *)
Definition owned_outright (t : Ty) : bool :=
  match t with Ty_Reference _ _ => false | Ty_Dyn dyn => negb (DynType_borrowed dyn) | Ty_Shared _ kind => Shared.atomic kind | _ => true end.

Lemma send_here_owned walk_fuel fuel t memo memo' : send_here finish types walk_fuel fuel t memo = (Ok true, memo') ->
  owned_outright t = true.
Proof.
  destruct t; try done; cbn [send_here owned_outright].
  - intros [= H _]. by apply andb_true_iff in H as [_ H].
  - unfold and_also. rewrite bind_Ok. intros (b & s1 & [= -> _] & H). by destruct b.
Qed.

Lemma all_of_some {S} (test : Ty -> M Fault S bool) l s s' x : all_of test l s = (Ok true, s') -> x ∈ l ->
  exists s1 s2, test x s1 = (Ok true, s2).
Proof.
  revert s. induction l as [|y l IH]; intros s; cbn [all_of]; [by intros _ ?%elem_of_nil|].
  intros (b & s1 & Hb & H)%bind_Ok [->|Hx]%elem_of_cons; destruct b; try done; eauto.
Qed.

Lemma can_send_owned walk_fuel fuel : sum_list_with (weight types false) D < walk_fuel ->
  forall t memo memo' u, t ∈ D -> can_send finish types walk_fuel fuel t memo = (Ok true, memo') ->
  rtc stores t u -> owned_outright u = true.
Proof.
  intros Hfuel. induction fuel as [|fuel IH]; intros t memo memo' u Ht H Hu; [done|]. cbn [can_send] in H.
  apply bind_Ok in H as (r & memo1 & _ & H). destruct r.
  - destruct (stored_all_pure owned_outright walk_fuel t memo Ht Hfuel) as (b & Hb & Hall).
    apply (walk_types_weaken _ _ (fun t => ret (owned_outright t)) (fun _ => ret false) memo) in H.
    + unfold stored_all, stored_all_closed in Hb. rewrite H in Hb. injection Hb as <-. by apply Hall.
    + intros t' s s1 Hs%send_here_owned. unfold ret. by rewrite Hs.
    + by intros ? ? ? ? [= <- _].
  - destruct (HS t Ht) as (l & Hl & HlD).
    assert (owned_outright t = true /\ forall v, v ∈ l -> exists s1 s2, can_send finish types walk_fuel fuel v s1 = (Ok true, s2)) as [Hown Hsome].
    { destruct t; cbn [stored] in Hl; try done; try (injection Hl as <-; split; [done|]; first [by intros v ?%elem_of_nil|
        intros v ->%list_elem_of_singleton; by eauto|intros v; by eapply all_of_some]).
      - split; [done|]. intros v. rewrite (record_fields_all_stored _ _ _ _ _ _ Hl) in H. by eapply all_of_some.
      - split; [done|]. destruct (union_payloads types id arguments) as [payloads|] eqn:Hp; [|done]. injection Hl as <-.
        intros v. rewrite (union_payloads_all_stored _ _ _ _ _ _ Hp) in H. by eapply all_of_some.
      - injection H as Hb _. apply andb_true_iff in Hb as [_ Hb]. injection Hl as <-. split; [done|]. by intros v ?%elem_of_nil.
      - unfold and_also in H. apply bind_Ok in H as (b & s1 & Hb & H). injection Hb as Hb _. subst b. cbn.
        destruct (Shared.atomic kind); [|done]. split; [done|]. apply bind_Ok in H as (b & s2 & Hb & H). destruct b; [|done].
        injection Hl as <-. intros v ->%list_elem_of_singleton. eauto. }
    apply rtc_inv in Hu as [->|(v & (l' & Hl' & Hv) & Hu)]; [done|]. rewrite Hl in Hl'. injection Hl' as <-.
    destruct (Hsome v Hv) as (s1 & s2 & Hsv). by eapply (IH v); [apply HlD| |].
Qed.
End sends.

(** ** Nesting *)

Lemma part_nesting t p : p ∈ parts t -> nesting p < nesting t.
Proof.
  intros Hp. rewrite (nesting_parts t). rewrite <- list_fmap_compose.
  pose proof (max_list_elem_of_le (S (nesting p)) (compose S nesting <$> parts t)) as H.
  specialize (H ltac:(by apply (list_elem_of_fmap_2 (compose S nesting)))). lia.
Qed.

Lemma bounded_nesting ty span : bounded_type ty span = Ok tt -> contains_error ty = true \/ nesting ty <= MAX_NESTING.
Proof.
  unfold bounded_type. destruct (contains_error ty); [by left|]. cbn. rewrite type_size_spec.
  destruct (Nat.leb_spec (nesting ty) MAX_NESTING); [by right|]. done.
Qed.

Section layouts.
Context (types : TypeContext) (n : nat) (Hd : declared types n).

Abbreviation wf := (every (instance types n)).

(** The sizes of the declarations that are measured are in the limit. *)
Record sized : Prop := {
  sized_records id record size : records types !! id = Some record -> CheckedRecord_size record = Some size ->
    (uval size <= MAX_VALUE_BYTES)%N;
  sized_unions id union_ size : unions types !! id = Some union_ -> CheckedUnion_size union_ = Some size ->
    (uval size <= MAX_VALUE_BYTES)%N }.

Context (Hsized : sized).

Record LayoutInv (s : State) : Prop := {
  layout_memo : MemoInv types n (memo s);
  layout_sizes : ascending (sizes s);
  layout_bound t size : (t, size) ∈ sizes s -> (size <= MAX_VALUE_BYTES)%N }.

(** The measure is total, and its size in the limit. *)
Definition measures (m : LM N) (s : State) : Prop :=
  checks True m (fun size s' => (size <= MAX_VALUE_BYTES)%N /\ LayoutInv s') s.

(** How much fuel a type takes at a depth. *)
Definition rank (ty : Ty) (depth : nat) : nat :=
  (if contains_error ty then 0 else nesting ty) + (S MAX_NESTING - depth) * (2 + MAX_NESTING).

Lemma next_multiple size : (size <= MAX_VALUE_BYTES)%N -> exists r, next_multiple_of size 16 = Ok r /\ (r <= size + 15)%N.
Proof.
  intros H. unfold next_multiple_of. assert ((size + 16 - 1) / 16 * 16 <= size + 15)%N as Hr.
  { pose proof (N.Div0.mul_div_le (size + 16 - 1) 16). lia. }
  eexists. split; [|exact Hr]. rewrite (proj2 (N.leb_le _ _)); [done|]. unfold MAX_VALUE_BYTES, usize_MAX in *. lia.
Qed.

Lemma simd_bytes_run ty : uval (SimdType_bits ty) <> 0%N -> exists m, simd_bytes ty = Ok m /\ (m <= MAX_VALUE_BYTES)%N.
Proof.
  intros Hbits. pose proof (uval_bound (SimdType_width ty)) as Hw. unfold simd_bytes, Simd.lanes.
  rewrite (proj2 (N.eqb_neq _ _) Hbits). revert Hbits Hw.
  generalize (uval (SimdType_width ty)) as width. generalize (uval (SimdType_bits ty)) as bits. intros bits width Hbits Hw.
  change (2 ^ 16)%N with 65536%N in Hw. assert (width / 8 <= MAX_VALUE_BYTES)%N.
  { apply N.Div0.div_le_upper_bound. unfold MAX_VALUE_BYTES. lia. }
  assert (width / bits <= 65536)%N by (apply N.Div0.div_le_upper_bound; nia).
  assert ((width / bits + 7) / 8 <= MAX_VALUE_BYTES)%N.
  { apply N.Div0.div_le_upper_bound. unfold MAX_VALUE_BYTES. lia. }
  destruct (SimdType_kind ty); by eexists.
Qed.

Section arms.
Context (size : Ty -> nat -> Span -> LM N) (bound : nat).

(** The calls that a measure makes are on smaller types, or deeper. *)
Context (Hsize : forall ty depth span s, wf ty -> LayoutInv s -> rank ty depth < bound -> measures (size ty depth span) s).

Lemma over_limit_run (total : N) span s : LayoutInv s ->
  measures (if (MAX_VALUE_BYTES <? total)%N then size_error span else ret total) s.
Proof.
  intros Hs. unfold measures. destruct (N.ltb_spec MAX_VALUE_BYTES total); [by apply checks_rejected|]. by apply checks_ret.
Qed.

Lemma add_field_run depth span total ty s : wf ty -> LayoutInv s -> rank ty (depth + 1) < bound ->
  measures (add_field size depth span total ty) s.
Proof.
  intros Hwf Hs Hr. unfold measures, add_field. apply checks_bind. eapply checks_mono; [by apply Hsize|].
  intros m s1 [Hm Hs1]. apply checks_bind. destruct (next_multiple m Hm) as (r & Hr' & _).
  eapply checks_broken; [exact Hr'|]. by apply over_limit_run.
Qed.

Lemma add_fields_run bounded depth span l : forall total s, Forall wf l -> LayoutInv s -> (total <= MAX_VALUE_BYTES)%N ->
  (forall ty, ty ∈ l -> (bounded = true -> bounded_type ty span = Ok tt) -> rank ty (depth + 1) < bound) ->
  measures (add_fields size bounded depth span total l) s.
Proof.
  induction l as [|ty l IH]; intros total s Hwf Hs Htotal Hr; cbn [add_fields]; [by apply checks_ret|].
  apply Forall_cons_iff in Hwf as [Hty Hl].
  assert (rank ty (depth + 1) < bound -> measures (let? total := add_field size depth span total ty in
    add_fields size bounded depth span total l) s) as Hgo.
  { intros Hr'. apply checks_bind. eapply checks_mono; [by apply add_field_run|]. intros total' s1 [? ?]. apply IH; [done..|].
    intros u Hu. apply Hr. by right. }
  unfold measures. apply checks_bind. destruct bounded.
  - destruct (bounded_type ty span) as [[]|d] eqn:E; [|by apply checks_rejected]. apply Hgo, Hr; [by left|done].
  - apply checks_ret, Hgo, Hr; [by left|done].
Qed.

Lemma largest_payload_run depth span l : forall payload s, Forall wf l -> LayoutInv s ->
  (forall size, payload = Some size -> (size <= MAX_VALUE_BYTES)%N) ->
  (forall ty, ty ∈ l -> bounded_type ty span = Ok tt -> rank ty (depth + 1) < bound) ->
  checks True (largest_payload size depth span payload l)
    (fun payload s' => (forall size, payload = Some size -> (size <= MAX_VALUE_BYTES)%N) /\ LayoutInv s') s.
Proof.
  induction l as [|ty l IH]; intros payload s Hwf Hs Hp Hr; cbn [largest_payload]; [by apply checks_ret|].
  apply Forall_cons_iff in Hwf as [Hty Hl]. apply checks_bind.
  destruct (bounded_type ty span) as [[]|d] eqn:E; [|by apply checks_rejected]. apply checks_ret, checks_bind.
  eapply checks_mono; [apply Hsize; [done..|]; apply Hr; [by left|done]|]. intros m s1 [Hm Hs1]. apply IH; [done..| |].
  - intros m' [= <-]. destruct payload as [p|]; cbn; [specialize (Hp p eq_refl)|]; lia.
  - intros u Hu. apply Hr. by right.
Qed.

(** A payload or a field, which is bounded, is measured one level deeper. *)
Lemma deeper ty depth span : depth <= MAX_NESTING -> (S MAX_NESTING - depth) * (2 + MAX_NESTING) <= bound ->
  bounded_type ty span = Ok tt -> rank ty (depth + 1) < bound.
Proof.
  intros Hdepth Hb Hty%bounded_nesting. unfold rank.
  replace (S MAX_NESTING - depth) with (S (S MAX_NESTING - (depth + 1))) in Hb by lia.
  destruct (contains_error ty); [|destruct Hty as [?|Hty]; [done|]]; lia.
Qed.

Lemma LayoutInv_visiting s v : LayoutInv s -> LayoutInv (mk_State (memo s) (sizes s) v).
Proof. intros []. by split. Qed.

Lemma recursive_checked_layout ty span s : wf ty -> LayoutInv s ->
  checks True (on_memo (recursive_checked types ty span)) (fun _ s' => LayoutInv s') s.
Proof.
  intros Hwf [H1 H2 H3]. pose proof (recursive_checked_run types n Hd ty span (memo s) H1 Hwf) as Hr.
  unfold settles in Hr. unfold checks, on_memo. destruct (recursive_checked types ty span (memo s)) as [[b|[d|f]] m]; [|done..].
  destruct Hr as (_ & ? & _). by split.
Qed.
Lemma known_size_run ty arguments declared s : LayoutInv s ->
  (forall size, declared = Some size -> (uval size <= MAX_VALUE_BYTES)%N) ->
  checks True (known_size ty arguments declared) (fun known s' => s' = s /\ forall size, known = Some size -> (size <= MAX_VALUE_BYTES)%N) s.
Proof.
  intros [H1 H2 H3] Hdeclared. unfold known_size.
  destruct arguments, declared; checking_variables; (split; [done|]); try (intros m [= <-]; by apply Hdeclared);
    intros m Hm%map_get_Some; (done || by eapply H3).
Qed.

Lemma enter_run ty kind name span s : LayoutInv s -> checks True (enter ty kind name span) (fun _ s' => LayoutInv s') s.
Proof.
  intros Hs. unfold enter, visiting_insert, reject. checking_variables. destruct (set_contains ty (visiting s)); checking_variables; cbn [negb];
    checking_variables; [done|by apply LayoutInv_visiting].
Qed.

Lemma check_nesting_run kind depth span s : LayoutInv s ->
  checks True (check_nesting kind depth span) (fun _ s' => depth <= MAX_NESTING /\ LayoutInv s') s.
Proof.
  intros Hs. unfold check_nesting, reject. destruct (Nat.ltb_spec MAX_NESTING depth); checking_variables; [done|by split].
Qed.

Lemma measured_run ty m s : LayoutInv s -> (m <= MAX_VALUE_BYTES)%N -> measures (measured ty m) s.
Proof.
  intros [H1 H2 H3] Hm. unfold measures, measured. checking_variables. split; [done|]. split; cbn; [done|by apply map_insert_ascending|].
  intros t m' Ht. apply elem_of_map_insert in Ht as [[= -> ->]|[Ht _]]; [done|by eapply H3|done].
Qed.

Lemma size_record_run id arguments depth span s : wf (Ty_Record id arguments) -> LayoutInv s ->
  (depth <= MAX_NESTING -> (S MAX_NESTING - depth) * (2 + MAX_NESTING) <= bound) ->
  measures (size_record types size (Ty_Record id arguments) depth span) s.
Proof.
  intros Hwf Hs Hb. unfold measures, size_record. apply checks_bind. eapply checks_mono; [by apply recursive_checked_layout|].
  intros ? s1 Hs1. pose proof Hwf as [[Hid _] _]. cbn in Hid. destruct (lookup_lt_is_Some_2 _ _ Hid) as [record Hrecord].
  apply checks_bind. eapply checks_broken; [unfold record_at; by rewrite Hrecord|].
  apply checks_bind. eapply checks_mono; [apply known_size_run; [done|intros m; by eapply sized_records]|].
  intros [m|] s2 [-> Hknown]; [apply checks_ret; auto|].
  apply checks_bind. eapply checks_mono; [by apply enter_run|]. intros ? s2 Hs2.
  apply checks_bind. eapply checks_mono; [by apply check_nesting_run|]. intros ? s3 [Hdepth Hs3].
  destruct (record_fields_run types n Hd id arguments Hwf) as (l & Hl & Hlwf).
  apply checks_bind. eapply checks_broken; [exact Hl|]. apply checks_bind.
  eapply checks_mono; [apply (add_fields_run true); [done..|lia|]|].
  - intros u _ Hu. eapply deeper; [done|by apply Hb|by apply Hu].
  - intros m s4 [Hm Hs4]. by apply measured_run.
Qed.

Lemma size_union_run id arguments depth span s : wf (Ty_Union id arguments) -> LayoutInv s ->
  (depth <= MAX_NESTING -> (S MAX_NESTING - depth) * (2 + MAX_NESTING) <= bound) ->
  measures (size_union types size (Ty_Union id arguments) depth span) s.
Proof.
  intros Hwf Hs Hb. unfold measures, size_union. apply checks_bind. eapply checks_mono; [by apply recursive_checked_layout|].
  intros recursive s1 Hs1. destruct recursive; [by apply checks_ret|].
  pose proof Hwf as [[Hid _] _]. cbn in Hid. destruct (lookup_lt_is_Some_2 _ _ Hid) as [union_ Hunion].
  apply checks_bind. eapply checks_broken; [unfold union_at; by rewrite Hunion|].
  apply checks_bind. eapply checks_mono; [apply known_size_run; [done|intros m; by eapply sized_unions]|].
  intros [m|] s2 [-> Hknown]; [apply checks_ret; auto|].
  apply checks_bind. eapply checks_mono; [by apply enter_run|]. intros ? s2 Hs2.
  apply checks_bind. eapply checks_mono; [by apply check_nesting_run|]. intros ? s3 [Hdepth Hs3].
  destruct (union_payloads_run types n Hd id arguments Hwf) as (l & Hl & Hlwf).
  apply checks_bind. eapply checks_broken; [exact Hl|]. apply checks_bind.
  eapply checks_mono; [apply largest_payload_run; [done|done|done|]|].
  - intros u _ Hu. eapply deeper; [done|by apply Hb|exact Hu].
  - intros payload s4 [Hm Hs4]. apply checks_bind.
    assert (forall total, checks True (if (MAX_VALUE_BYTES <? total)%N then size_error (span_of arguments (CheckedUnion_span union_) span)
      else measured (Ty_Union id arguments) total) (fun size s' => (size <= MAX_VALUE_BYTES)%N /\ LayoutInv s') s4) as Hlast.
    { intros total. destruct (N.ltb_spec MAX_VALUE_BYTES total); [by apply checks_rejected|by apply measured_run]. }
    destruct payload as [m|]; [|by apply checks_ret]. destruct (next_multiple m (Hm m eq_refl)) as (r & Hr & _).
    apply checks_bind. eapply checks_broken; [exact Hr|]. by apply checks_ret.
Qed.

Lemma size_arms_run ty depth span s : wf ty -> LayoutInv s -> rank ty depth < S bound -> measures (size_arms types size ty depth span) s.
Proof.
  intros Hwf Hs Hr. unfold measures, size_arms. destruct (contains_error ty) eqn:Herror; [by apply checks_ret|].
  unfold rank in Hr. rewrite Herror in Hr. pose proof (every_parts _ _ Hwf) as Hp. rewrite list.Forall_forall in Hp.
  assert (forall p d, p ∈ parts ty -> depth <= d -> rank p d < bound) as Hpart.
  { intros p d Hin Hle. pose proof (part_nesting ty p Hin) as Hlt. unfold rank.
    assert ((S MAX_NESTING - d) * (2 + MAX_NESTING) <= (S MAX_NESTING - depth) * (2 + MAX_NESTING)) by (apply Nat.mul_le_mono_r; lia).
    destruct (contains_error p); lia. }
  assert (forall element d m, element ∈ parts ty -> depth <= d -> (m <= MAX_VALUE_BYTES)%N ->
    measures (size element d span ;;; ret m) s) as Hcollection.
  { intros element d m Hin Hle Hm. unfold measures. apply checks_bind. eapply checks_mono; [apply Hsize; auto|].
    intros ? s1 [_ ?]. by apply checks_ret. }
  assert (forall b, measures (ret (if b : bool then 16%N else 8%N)) s) as Hsmall by (intros []; by apply checks_ret).
  destruct ty; cbn [parts] in *; try (by apply checks_ret); try (by apply Hsmall);
    try (apply Hcollection; [by left|lia|done]).
  - apply checks_bind. destruct (simd_bytes_run ty (proj1 (every_root _ _ Hwf))) as (m & Hm & Hle).
    eapply checks_broken; [exact Hm|]. apply checks_ret. split; [|done]. unfold MAX_VALUE_BYTES in *. lia.
  - apply size_record_run; [done..|]. intros _. lia.
  - apply size_union_run; [done..|]. intros _. lia.
  - apply checks_bind. eapply checks_mono; [apply Hsize; [apply Hp; by left|done|apply Hpart; [by left|lia]]|].
    intros m s1 [_ ?]. by apply over_limit_run.
  - apply add_fields_run; [by apply list.Forall_forall|done|done|]. intros u Hu _. apply Hpart; [done|lia].
Qed.
End arms.

(** Each call below takes less of the fuel. *)
Lemma size_run fuel : forall ty depth span s, wf ty -> LayoutInv s -> rank ty depth < fuel -> measures (size types fuel ty depth span) s.
Proof.
  induction fuel as [|fuel IH]; intros ty depth span s Hwf Hs Hr; [lia|]. cbn [size]. by eapply size_arms_run.
Qed.
End layouts.
