(* ===== verification/TypeTheorems.v ===== *)
(** * Declared types: the theorems

    The analysis of recursive types is right whatever was asked before; a walk decides a property of all that a value
    stores; what may be sent or copied; the size of a value; and the identifiers of an arena. *)
From stdpp Require Import list strings gmap relations.
From S2P Require Import Prelude Wire Faults Ordered Utf8 Render Kinds Syntax Report Types Inference.
From S2P Require Import TypeLaws FunctionLaws InferenceLaws.
From S2P Require Import Declarations TypeArena ArenaLaws Digraph DigraphLaws Recursion.
From S2P Require Import RecursiveTypes RecursiveLaws.
From S2P Require Import RecursiveLaws AnalysisLaws TypeProperties PropertyLaws Layouts.
Local Open Scope nat_scope.

(** The memo that a sequence of queries leaves. *)
Definition asked (types : TypeContext) (queries : list (Ty * Span)) : Memo :=
  foldl (fun memo query => snd (recursive_checked types query.1 query.2 memo)) (Memo_default types) queries.

Lemma asked_ok types n queries : declared types n -> Forall (fun query => every (instance types n) query.1) queries ->
  MemoInv types n (asked types queries).
Proof.
  intros Hd. unfold asked. generalize (memo_default types n). generalize (Memo_default types).
  induction queries as [|query queries IH]; intros memo Hm Hq; [done|]. apply Forall_cons_iff in Hq as [Hquery Hq]. cbn. apply IH; [|done].
  pose proof (recursive_checked_run types n Hd query.1 query.2 memo Hm Hquery) as Hr. unfold settles in Hr.
  destruct (recursive_checked types query.1 query.2 memo) as [[b|[d|f]] memo']; [by destruct Hr as (_ & ? & _)..|done].
Qed.

(** ** Samples *)

Definition at_start : Span := mk_Span (uint_wrap 64 0) (uint_wrap 64 0) None.

Definition record_of (name : string) (fields : list (RString * Ty)) : CheckedRecord :=
  mk_CheckedRecord (str name) ModuleOrigin_User [] fields false (uint_wrap 16 0) None at_start.

Definition union_of (name : string) (cases : list (RString * option Ty)) : CheckedUnion :=
  mk_CheckedUnion (str name) ModuleOrigin_User [] cases false None at_start.

(** [record Cell { value: i64, rest: Rest }], [record Pair { left: i64, right: bool }] and [union Rest = End | More of Cell]. *)
Definition sample_declarations : TypeContext := mk_TypeContext
  [record_of "Main.Cell" [(str "value", I64); (str "rest", Ty_Union 0 [])];
   record_of "Main.Pair" [(str "left", I64); (str "right", Ty_Bool)]]
  [union_of "Main.Rest" [(str "End", None); (str "More", Some (Ty_Record 0 []))]].

Definition Cell : Ty := Ty_Record 0 [].
Definition Pair : Ty := Ty_Record 1 [].

(** A type without arguments. *)
Ltac plain_instance := split; [split; [cbn; first [lia|done]|by cbn]|constructor].

Lemma sample_declared : declared sample_declarations 0.
Proof.
  split.
  - intros [|[|id]] record field; cbn; intros H; simplify_eq; cbn; rewrite !elem_of_cons, elem_of_nil; intros Hf;
      destruct_or?; subst; try done; plain_instance.
  - intros [|id] union_ case ty; cbn; intros H; simplify_eq; cbn; rewrite !elem_of_cons, elem_of_nil; intros Hc; destruct_or?; simplify_eq.
    plain_instance.
Qed.

Lemma sample_wf : every (instance sample_declarations 0) Cell /\ every (instance sample_declarations 0) Pair.
Proof. split; plain_instance. Qed.

Lemma sample_asked : Forall (fun query => every (instance sample_declarations 0) query.1) [(Pair, at_start)].
Proof. constructor; [exact (proj2 sample_wf)|constructor]. Qed.

(** [record Box<T> { value: T }]: an instance with one argument has the fields of its declaration, and any other number
    of arguments panics. *)
Definition box_declarations : TypeContext := mk_TypeContext
  [mk_CheckedRecord (str "Main.Box") ModuleOrigin_User [str "T"] [(str "value", Ty_Variable (str "T"))] false (uint_wrap 16 0) None at_start] [].

Example box_instances : every (instance box_declarations 0) (Ty_Record 0 [I64]) /\
  record_fields box_declarations 0 [I64] = Ok [I64] /\ record_fields box_declarations 0 [I64; Ty_Bool] = Err Panic.
Proof.
  split_and!; [|reflexivity|reflexivity]. split; [split; [cbn; lia|]|repeat constructor]. by intros _ record [= <-].
Qed.

(** ** The analysis of recursive types *)

(** C7: whatever types were asked before, [recursive_checked] does not panic; it says that a type is recursive exactly if
    its expansion leads back to it, and then the type has a finite value; and it reports only for a reason: a cycle below
    the type, a field over the limit of [bounded_type], as many declarations below it as the limit of nesting, or an
    instance of its own declaration with other arguments. *)
Theorem recursive_checked_right types n queries ty span :
  declared types n -> Forall (fun query => every (instance types n) query.1) queries -> every (instance types n) ty ->
  match fst (recursive_checked types ty span (asked types queries)) with
  | Ok b => (b = true <-> tc (refers types) ty ty) /\ (b = true -> valued types ty)
  | Err (Rejected _) => reason types ty
  | Err (Broken _) => False
  end.
Proof.
  intros Hd Hq Hwf. pose proof (recursive_checked_run types n Hd ty span _ (asked_ok types n queries Hd Hq) Hwf) as Hr.
  unfold settles in Hr. destruct (recursive_checked _ _ _ _) as [[b|[d|f]] memo]; [by destruct Hr as [[Hr _] _]|by destruct Hr|done].
Qed.

Lemma recursive_checked_right_witness :
  fst (recursive_checked sample_declarations Cell at_start (asked sample_declarations [(Pair, at_start)])) = Ok true /\
  tc (refers sample_declarations) Cell Cell.
Proof.
  pose proof (recursive_checked_right sample_declarations 0 [(Pair, at_start)] Cell at_start sample_declared
    sample_asked (proj1 sample_wf)) as H.
  assert (fst (recursive_checked sample_declarations Cell at_start (asked sample_declarations [(Pair, at_start)])) = Ok true) as E
    by (vm_compute; reflexivity).
  rewrite E in H. destruct H as [H _]. split; [exact E|]. by apply H.
Defined.

(** C11: the nodes that [analyze] returns for a root are, in ascending order, exactly the declarations that the root
    contains, directly or through others; the flag of each is whether it contains itself, and those that do have a finite
    value. It always ends within its limits and does not panic. *)
Theorem analyze_flags types n root span : declared types n -> every (instance types n) root ->
  match analyze types root span with
  | Ok flags => ascending flags /\ (forall t, t ∈ domain flags <-> reached_from types root t) /\
      forall t b, (t, b) ∈ flags -> (b = true <-> tc (refers types) t t) /\ (b = true -> valued types t)
  | Err (Rejected _) => reason types root
  | Err (Broken _) => False
  end.
Proof. intros Hd Hwf. exact (analyze_run types n Hd root span Hwf). Qed.

Lemma analyze_flags_witness :
  analyze sample_declarations Pair at_start = Ok [(Pair, false)] /\ ~ tc (refers sample_declarations) Pair Pair.
Proof.
  pose proof (analyze_flags sample_declarations 0 Pair at_start sample_declared (proj2 sample_wf)) as H.
  assert (analyze sample_declarations Pair at_start = Ok [(Pair, false)]) as E by (vm_compute; reflexivity).
  rewrite E in H. destruct H as (_ & _ & H). split; [exact E|]. intros Hr. destruct (H Pair false ltac:(by left)) as [Hf _].
  by apply Hf in Hr.
Defined.

(** C28: [recursive_indices] gives the nodes that lie on a cycle of the edges, an edge to itself included. *)
Theorem recursive_indices_on_cycles edges : closed_rows edges ->
  exists l, Components.recursive_indices edges = Ok l /\
    forall x, x ∈ l <-> x < length edges /\ tc (edge edges) x x.
Proof. intros H. exact (recursive_indices_run edges H). Qed.

Lemma recursive_indices_on_cycles_witness :
  exists l, Components.recursive_indices [[1]; [2]; [1]; [3]; [0]] = Ok l /\
    forall x, x ∈ l <-> x < 5 /\ tc (edge [[1]; [2]; [1]; [3]; [0]]) x x.
Proof.
  apply (recursive_indices_on_cycles [[1]; [2]; [1]; [3]; [0]]). intros i row j Hi Hj.
  do 5 (destruct i as [|i]; [injection Hi as <-; apply list_elem_of_singleton in Hj; cbn; lia|]). done.
Defined.

(** ** Walks *)

(** [D] holds what its types store. *)
Definition closed_under (types : TypeContext) (D : list Ty) : Prop :=
  forall t, t ∈ D -> exists l, stored types false t = Ok l /\ l ⊆ D.

Lemma sample_closed : closed_under sample_declarations [Pair; I64; Ty_Bool].
Proof.
  intros t. rewrite !elem_of_cons, elem_of_nil. intros Ht. destruct_or?; subst; try done; (eexists; split; [reflexivity|]);
    try apply list_subseteq_nil. intros u. cbn. rewrite !elem_of_cons. tauto.
Qed.

(** C14: whatever the hasher of the arena is, [stored_all] says whether a property holds of each type that a value of the
    root stores, directly or through others; its loop ends, since each type is opened once. This is for a root in a finite
    set of types, fewer than 2^32 (identifiers are [u32]), that holds what each of its types stores; a type that stores
    ever larger instances of its declaration is in none. *)
Theorem stored_all_decides (finish : list Write -> u64) types D (q : Ty -> bool) walk_fuel root (memo : Memo) :
  (N.of_nat (length D) < 2 ^ 32)%N -> closed_under types D -> root ∈ D -> sum_list_with (weight types false) D < walk_fuel ->
  exists b, stored_all finish types walk_fuel root (fun t => ret (q t)) memo = (Ok b, memo) /\
    (b = true <-> forall t, rtc (stores types) root t -> q t = true).
Proof. intros HD HS Hroot Hfuel. by apply (stored_all_pure finish types D). Qed.

Lemma stored_all_decides_witness (finish := fun _ => uint_wrap 64 0) (memo := Memo_default sample_declarations) :
  exists b, stored_all finish sample_declarations 3 Pair (fun t => ret (negb (is_float t))) memo = (Ok b, memo) /\
    (b = true <-> forall t, rtc (stores sample_declarations) Pair t -> negb (is_float t) = true).
Proof. apply (stored_all_decides finish sample_declarations [Pair; I64; Ty_Bool]); [done|exact sample_closed|by left|cbn; lia]. Defined.

(** C5: what [can_send] lets move to another thread owns no [Rc], so no count that is not atomic, and stores no borrow:
    neither [holds_rc] nor [contains_stored_reference] finds one. *)
Theorem sent_owns_outright (finish : list Write -> u64) types D walk_fuel fuel ty memo memo' :
  (N.of_nat (length D) < 2 ^ 32)%N -> closed_under types D -> ty ∈ D -> sum_list_with (weight types false) D < walk_fuel ->
  can_send finish types walk_fuel fuel ty memo = (Ok true, memo') ->
  holds_rc finish types walk_fuel ty memo' = (Ok false, memo') /\
  contains_stored_reference finish types walk_fuel ty memo' = (Ok false, memo').
Proof.
  intros HD HS Hty Hfuel Hsend.
  assert (forall q, (forall t, owned_outright t = true -> q t = true) ->
    negated (stored_all finish types walk_fuel ty (fun t => ret (q t))) memo' = (Ok false, memo')) as Hall.
  { intros q Hq. destruct (stored_all_pure finish types D HD HS q walk_fuel ty memo' Hty Hfuel) as (b & Hb & Hiff).
    unfold negated. rewrite (bind_step _ _ _ _ _ Hb). rewrite (proj2 Hiff); [done|]. intros t Ht. eapply Hq, can_send_owned; eauto. }
  split.
  - exact (Hall (fun t => match t with Ty_Shared _ kind => Shared.atomic kind | _ => true end) ltac:(by intros [])).
  - exact (Hall (fun t => match t with Ty_Reference _ _ => false | Ty_Dyn dyn => negb (DynType_borrowed dyn) | _ => true end)
      ltac:(by intros [])).
Qed.

Lemma sent_owns_outright_witness (finish := fun _ => uint_wrap 64 0) :
  exists memo', can_send finish sample_declarations 3 2 Pair (Memo_default sample_declarations) = (Ok true, memo') /\
  holds_rc finish sample_declarations 3 Pair memo' = (Ok false, memo').
Proof.
  eexists. split; [vm_compute; reflexivity|].
  eapply (sent_owns_outright finish sample_declarations [Pair; I64; Ty_Bool] 3 2 Pair (Memo_default sample_declarations));
    [done|exact sample_closed|by left|cbn; lia|vm_compute; reflexivity].
Defined.

(** C15: a value that [is_copy] copies may be captured by a function value: once the type was found to be a copy,
    [can_capture] accepts it, with any hasher and any fuel from some amount on, and asks no new question of the memo. *)
Theorem copied_is_captured (finish : list Write -> u64) types n queries walk_fuel fuel ty memo' : declared types n ->
  Forall (fun query => every (instance types n) query.1) queries -> every (instance types n) ty ->
  is_copy types fuel ty (asked types queries) = (Ok true, memo') ->
  exists enough, forall fuel', enough <= fuel' -> can_capture finish types walk_fuel fuel' ty memo' = (Ok true, memo').
Proof.
  intros Hd Hq Hwf Hcopy.
  destruct (is_copy_accepts types n Hd fuel ty Hwf (asked types queries) memo' (asked_ok types n queries Hd Hq) Hcopy) as (_ & _ & Hc).
  by apply copies_captured.
Qed.

Lemma copied_is_captured_witness (finish := fun _ => uint_wrap 64 0) :
  exists memo', is_copy sample_declarations 2 Pair (asked sample_declarations [(Pair, at_start)]) = (Ok true, memo') /\
  exists enough, forall fuel', enough <= fuel' -> can_capture finish sample_declarations 1 fuel' Pair memo' = (Ok true, memo').
Proof.
  eexists. split; [vm_compute; reflexivity|].
  eapply (copied_is_captured finish sample_declarations 0 [(Pair, at_start)] 1 2 Pair); [exact sample_declared|exact sample_asked|exact (proj2 sample_wf)|].
  vm_compute. reflexivity.
Defined.

(** ** Sizes *)

(** C16: a measure of a type ends without a panic, on a memo that any queries left, and its size is at most
    [MAX_VALUE_BYTES]; each level of declarations takes as much fuel as a bounded type nests. *)
Theorem size_bounded types n queries fuel ty depth span : declared types n -> sized types ->
  Forall (fun query => every (instance types n) query.1) queries -> every (instance types n) ty ->
  nesting ty + (S MAX_NESTING - depth) * (2 + MAX_NESTING) < fuel ->
  match fst (size types fuel ty depth span (mk_State (asked types queries) [] [])) with
  | Ok bytes => (bytes <= 65536)%N
  | Err (Rejected _) => True
  | Err (Broken _) => False
  end.
Proof.
  intros Hd Hsized Hq Hwf Hfuel.
  pose proof (size_run types n Hd Hsized fuel ty depth span (mk_State (asked types queries) [] []) Hwf) as Hr.
  unfold measures, checks in Hr. destruct (size _ _ _ _ _ _) as [[bytes|[d|f]] s'].
  - apply Hr; [|unfold rank; destruct (contains_error ty); lia]. split; cbn; [by apply asked_ok|apply SSorted_nil|by intros ? ? ?%elem_of_nil].
  - done.
  - apply Hr; [|unfold rank; destruct (contains_error ty); lia]. split; cbn; [by apply asked_ok|apply SSorted_nil|by intros ? ? ?%elem_of_nil].
Qed.

Lemma sample_sized : sized sample_declarations.
Proof. split; intros [|[|id]] d s; cbn; intros H; simplify_eq; done. Qed.

Lemma size_bounded_witness :
  let sized := fst (size sample_declarations 200 Pair 128 at_start (mk_State (asked sample_declarations [(Pair, at_start)]) [] [])) in
  sized = Ok 32%N /\ match sized with Ok bytes => (bytes <= 65536)%N | Err (Rejected _) => True | Err (Broken _) => False end.
Proof.
  cbv zeta. split; [vm_compute; reflexivity|].
  apply (size_bounded sample_declarations 0 [(Pair, at_start)] 200 Pair 128 at_start); [exact sample_declared|exact sample_sized|exact sample_asked|exact (proj2 sample_wf)|].
  vm_compute. lia.
Defined.

(** ** Identifiers *)

Lemma owned_all (finish : list Write -> u64) D : (N.of_nat (length D) < 2 ^ 32)%N ->
  returns (collect (owned finish) D) (fun ids arena => exists ts, Interned finish ts arena /\ Forall2 (fun i t => ts !! i = Some t) ids D)
    TypeArena_default.
Proof.
  intros HD. eapply (returns_collect _ (fun done ids arena => exists ts, Interned finish ts arena /\ ts ⊆ D /\
    Forall2 (fun i t => ts !! i = Some t) ids done)).
  - exists []. split_and!; [apply interned_default|apply list_subseteq_nil|constructor].
  - intros done t rest ids arena E (ts & H & Hts & Hids). eapply returns_mono.
    + apply (owned_run finish D ts arena t); [done..| |done]. rewrite E. apply elem_of_app. right. by left.
    + intros id arena' (ts' & Hg & Hts' & Hid). exists ts'. split_and!; [by destruct Hg|done|]. apply Forall2_app; [|by constructor].
      eapply list.Forall2_impl; [exact Hids|]. intros i u Hi. eapply grown_lookup; [exact Hg|exact Hi].
  - intros ids arena (ts & H & _ & Hids). by exists ts.
Qed.

(** C29: the identifiers that an arena gives to types stand for them: each reads back as its type, and two types get the
    same identifier exactly if they are equal, whatever the hasher is. *)
Theorem owned_identifies (finish : list Write -> u64) l : (N.of_nat (length l) < 2 ^ 32)%N ->
  exists ids arena, collect (owned finish) l TypeArena_default = (Ok ids, arena) /\ length ids = length l /\
    (forall i id t, ids !! i = Some id -> l !! i = Some t -> type_of arena id = Ok t) /\
    forall i j id id' t t', ids !! i = Some id -> ids !! j = Some id' -> l !! i = Some t -> l !! j = Some t' -> id = id' <-> t = t'.
Proof.
  intros HD. destruct (returns_Ok _ _ _ (owned_all finish l HD)) as (ids & arena & E & ts & H & Hids).
  assert (forall i id t, ids !! i = Some id -> l !! i = Some t -> ts !! id = Some t) as Hat.
  { intros i id t Hi Ht. destruct (Forall2_lookup_l _ _ _ _ _ Hids Hi) as (u & Hu & Hid). by simplify_eq. }
  exists ids, arena. split_and!; [exact E|by eapply Forall2_length| |].
  - intros i id t Hi Ht. eapply interned_type; [exact H|by eapply Hat].
  - intros i j id id' t t' Hi Hj Ht Ht'. specialize (Hat i id t Hi Ht) as Hid. specialize (Hat j id' t' Hj Ht') as Hid'. split.
    + intros ->. congruence.
    + intros ->. by eapply NoDup_lookup; [apply (interned_once _ _ _ H)|..].
Qed.

Lemma owned_identifies_witness (finish := fun _ => uint_wrap 64 0) :
  exists ids arena, collect (owned finish) [Pair; I64; Pair] TypeArena_default = (Ok ids, arena) /\ ids = [0; 1; 0].
Proof.
  destruct (owned_identifies finish [Pair; I64; Pair] ltac:(done)) as (ids & arena & E & _). exists ids, arena. split; [exact E|].
  assert (fst (collect (owned finish) [Pair; I64; Pair] TypeArena_default) = Ok [0; 1; 0]) as Hids by (vm_compute; reflexivity).
  rewrite E in Hids. by injection Hids.
Defined.
